(* ===== verification/_CoqProject ===== *)
-Q . S2P
Prelude.v
Bytes.v
Random.v
Encoding.v
Tl.v
ProxySecret.v
DpiBypass.v
BigNum.v
Factorize.v
TlsHello.v
TlsHelloCorrect.v
TlsHelloSpec.v
TlsInit.v
TlsResponse.v
Crypto.v
Buffer.v
TlsFlow.v
TcpTransport.v
DhHandshake.v
Kdf.v
Transport.v
MessageIds.v
AuthData.v
TlObject.v
ServiceApi.v
CryptoStorer.v
CryptoStorerSpec.v
Handshake.v
HandshakeSpec.v
FileBitmask.v
PartsManager.v
PartsManagerSpec.v
PartsManagerCalls.v
PartsManagerWindow.v
PartsManagerInit.v
PartsManagerTransfer.v
FlatHashTable.v
FlatHashTableSpec.v
RawConnection.v
SessionConnection.v
SessionSender.v
SessionReceive.v
SessionSample.v
SessionPacket.v
SessionWrite.v
SessionLoop.v
SessionSafe.v
SessionRequeue.v
SessionRun.v
SessionBind.v
MessageId.v
OrderedMessages.v
OrderedMessagesSpec.v
MessageChain.v
MessageHistory.v
MessageSearch.v
