(* ===== verification/Prelude.v ===== *)
(** * A verification development for RioGram

    RioGram is a cross-platform Telegram client (Flutter) on a TDLib that is
    patched to work behind deep packet inspection.  This development models the part of that library that decides what
    goes over the wire and what is accepted from it: the path of a message from
    a session's data down to the bytes on a TCP socket that a proxy disguises
    as TLS, the creation of the session's key, the containers and formats
    that this path uses, the bookkeeping of the parts of a file that is
    downloaded or uploaded over it, and the order of a chat's messages.  Source
    paths are relative to [src/td].

    ** How the parts interact

    A connection starts with the masking handshake: [TlsInit] sends a TLS
    ClientHello that carries a digest under the proxy's secret and reads an
    answer of which it checks the digest; the profile of the ClientHello is
    chosen, rotated and cut into fragments by the DPI bypass.  Then
    [RawConnectionDefault] moves messages through a stream transport,
    [ObfuscatedTransport]: frames of [IntermediateTransport], encrypted in
    counter mode, in TLS records that [TlsReaderByteFlow] takes apart on the way
    back.  A message is a packet of [mtproto::Transport], sealed with a key
    derived ([KDF]) from the authorization key.  That key is the result of
    [AuthKeyHandshake]: a factorization, RSA and Diffie-Hellman, in messages of
    the TL format.  [AuthData] keeps the key, the salts, the clock and the
    window of received identifiers, and judges every packet.  Above them
    [SessionConnection] is the callback of the raw connection: it packs queries,
    acknowledgements and service requests into packets ([CryptoImpl]) when the
    socket is about to be written to, and takes received packets apart into
    answers and updates for the session, its own callback.

    Files are moved in parts, each by a query of its own.  [PartsManager]
    decides which part a loader asks for next and finds out how large the file
    is; the parts that are there are a [Bitmask], which is stored between runs.

    The messages that arrive are kept per chat, in the order of their
    identifiers ([MessageId]); [OrderedMessages] knows between which of them no
    message of the chat is missing, and answers from that what the history around
    a message is and how many messages are unread.

    ** Files

    Foundations:
    - Prelude: [status] and [outcome] ([Ok], [Err], and [Crash] for a failed
      [CHECK], a read outside of an object or [LOG(FATAL)]), checks, list and
      arithmetic lemmas, tactics and hints;
    - Bytes: slices, machine integers, little-endian loads and stores;
    - Random: [tdutils/td/utils/Random.cpp]; interface [RandomSource];
    - Buffer: [BufferWriter] and [BufferBuilder] of [tdutils/td/utils/buffer.cpp];
    - BigNum, Crypto: the interfaces to OpenSSL;
    - Encoding: hexadecimal and base64 ([misc.cpp], [base64.cpp]);
    - Tl: [TlParser], [TlStorerUnsafe], [TlStorerCalcLength];
    - FlatHashTable, FlatHashTableSpec: the hash table of [FlatHashTable.h].

    The disguise:
    - ProxySecret: [mtproto/ProxySecret.cpp];
    - DpiBypass: [mtproto/dpi_bypass/DpiBypass.cpp];
    - TlsHello (templates and the two interpreters of [mtproto/TlsInit.cpp]),
      TlsHelloCorrect (the interpreters agree and render the template),
      TlsHelloSpec (the ClientHello of RFC 8446 as a parser, run on templates),
      TlsInit ([generate_header]), TlsResponse (class [TlsInit]);
    - TlsFlow: [mtproto/TlsReaderByteFlow.cpp] under [ByteFlowBaseCommon::wakeup].

    The transport:
    - TcpTransport: [mtproto/TcpTransport.cpp];
    - Kdf: [mtproto/KDF.cpp]; Transport: [mtproto/Transport.cpp];
    - RawConnection: [RawConnectionDefault] of [mtproto/RawConnection.cpp].

    The session:
    - MessageIds, AuthData: [mtproto/AuthData.cpp], [mtproto/AuthKey.h];
    - Factorize: [pq_factorize] of [tdutils/td/utils/crypto.cpp];
    - DhHandshake: [mtproto/DhHandshake.cpp] and [telegram/DhCache.cpp];
    - Handshake, HandshakeSpec: [mtproto/Handshake.cpp], [RSA::encrypt] and the
      main key ring of [telegram/net/PublicRsaKeySharedMain.cpp];
    - TlObject: the templates of [td/tl] that generated code is made of, and
      every [Storer]; ServiceApi: the service messages of [mtproto_api.tl];
    - CryptoStorer, CryptoStorerSpec: [mtproto/CryptoStorer.h], and the bytes, the
      identifiers and the sizes of the packet that it makes;
    - SessionConnection (state and received packets) and SessionSender (what is
      sent, and the interface): [mtproto/SessionConnection.cpp].  Its theorems
      are in SessionReceive (what every handler keeps), SessionPacket (a packet
      of one session, read by another), SessionWrite (one [flush_packet]),
      SessionLoop ([before_write]), SessionSafe ([flush]), SessionRun (any
      sequence of calls), SessionRequeue (a packet that is refused) and
      SessionBind ([encrypted_bind]); SessionSample has the instances of the
      witnesses.

    Files:
    - FileBitmask: [telegram/files/FileBitmask.cpp] and the run-length encoding
      of [misc.cpp];
    - PartsManager: [telegram/files/PartsManager.cpp]; PartsManagerSpec (the
      invariant and the search for a part), PartsManagerCalls (the window, the
      end of a part, the prefix of an upload), PartsManagerWindow (what is
      missing of the window), PartsManagerInit ([init]), PartsManagerTransfer
      (the transitions of a whole transfer and its properties).

    Chats:
    - MessageId: [telegram/MessageId.cpp];
    - OrderedMessages: [telegram/OrderedMessage.cpp]; OrderedMessagesSpec (the
      treap and its iterators as a list and positions in it), MessageChain (the
      list with links that the treap implements), MessageHistory ([get_history]),
      MessageSearch (the searches and the unread count).

    ** Conventions

    Bytes are [Byte.byte]; machine integers are [Z] with the wrap-around written
    out ([uint32], [uint64], [int32]).  An object's state is a record with the
    source's field names; a method is a function that returns the new state
    next to its result, or an [outcome] of both.  A long handler
    ([AuthKeyHandshake], [SessionConnection]) is a computation in a monad over the
    object and its surroundings; what the object tells its callback is a list of
    events in the order of the calls.  A [double] is the rational it denotes, each operation rounded
    by [rnd].  [now] is an argument.  Where objects point
    to each other (the treap), a pointer is an identifier that is looked up in the
    store.  Randomness is drawn from a generator that
    is passed along.  A name that Rocq does not allow or that another
    definition of the file has is prefixed or shortened; the fields keep the
    source's trailing underscore.

    ** Interfaces

    Code outside of the repository is a class of operations, and what is relied
    on is a second class of laws, each a documented fact: [RandomLaws] (the
    requested number of bytes), [EntropyLaws], [TwisterLaws], [BigNumLaws],
    [FactorLaws], [BnRandLaws], [AesCtrLaws] (a stream that depends on the
    position only), [ShaLaws] and [HmacLaws] (lengths), [AesIgeLaws] (inverse on
    whole blocks), [RoundingLaws] (a double has 53 bits, and rounding is
    monotone), [SessionCallbackLaws] (the session sets keys as the handshake makes
    them).  [Gzip] has no law; that a packet that is read, with all that is packed
    in it, is not nested deeper than the stack ([nests], [shallow]) is a
    hypothesis of the theorems that need it: the code has no bound, and a server
    that nests deeper ends the process.  No law says that a primitive is secure: the
    theorems say which comparisons the code makes on which bytes.  [BnPrime] has
    no law at all.

    Interfaces between components are classes too, with an instance proved
    in the component: [RandomSource] by [ThreadRandom], [StreamTransport] and
    [StreamLaws] by [ObfuscatedTransport], [DhCallback] and [DhCallbackLaws] by
    [DhCache], [RsaKeys] by [SharedMain], [MtprotoApi] (the generated code) by
    [SchemeApi], which is written from [mtproto_api.tl] with the parser of Tl,
    and [ServiceApi] with [ServiceLaws] by [SchemeServices] in the same way.
    [Callback] and [CallbackWrite], what a raw connection needs of its owner, are
    implemented by [SessionConnection] in SessionSender.
    Concrete runs, in the witnesses, instantiate the primitives with toy
    functions ([Toy], [FixedSource], [script]).

    ** What is shown

    - Safety of what is accepted: a packet that is accepted is authenticated
      by its message key, exactly the well-formed packets are accepted, no
      identifier is accepted twice; a handshake answer that is accepted has both
      nonces, the hash of its body in front of the body, and good parameters, and
      both sides then have the same key; the order of [check_packet]'s tests and
      the seconds of its time window ([check_packet_spec]).
    - What can end the process: no packet does, and no slice of the reader lies
      outside of its buffer ([read_never_crashes]); no stream
      ([flush_never_crashes]) and no TL message does ([tl_parser_spec]); nothing
      that is called or arrives ends a session's connection but a packet that is
      nested deeper than the stack ([session_run_safe]); a [pq] of nine or more
      zero bytes does ([pq_factorize_spec]), and so do a streaming window at the
      end of a partly loaded file and one case of a seek, and no other call of a
      loader ([transfer_safe]).
    - A session's packets: what one session writes another handles, once each and
      in order ([packet_handled_in_order], [container_in_order]); the writing
      loop ends, sends all that is due, loses nothing and sends nothing twice
      ([before_write_sends]); the requests of a packet that the server refuses
      wait again, its cancellations are lost ([refused_packet_requeued]); a
      temporary key is bound by one sealed message ([encrypted_bind_sealed]).
    - The messages of a chat: an identifier is followed by the nearest one of a
      type ([next_message_id_least]); the treap is a list with links under any
      sequence of calls ([ordered_messages_refine]); the history has no gap and is
      the window that was asked for ([get_history_window]); the unread count is
      exact ([new_unread_count_exact]).
    - Refinement: the hash table is a finite map under any sequence of calls;
      the connection's read loop gives the callback, in order, what the messages
      decrypt to ([flush_read_in_order]); [pq_factorize] is Pollard's rho over the
      integers; what [write] puts on the wire is the sealed packet of the
      documentation ([written_packet]); a session that is written is what a proxy
      reads; the record reader does not depend on how the
      network cuts the bytes; the byte buffers of the key derivation are the
      formulas of the documentation.
    - Round trips: packets, frames, TL values, stored handshakes, proxy links,
      the bitmask of a file and, for a known size, a download that is resumed
      from it at any moment ([resume]; one of unknown size can stall,
      [unknown_resume_stalls]).
    - Invariants: identifiers increase, salts are sorted and current, the
      rotation index is in its pool, errors are sticky, the state machine only
      moves forward or back to its start; the counters and cursors of a transfer
      agree with its parts in every state that a loader can reach.
    - Termination and progress: factorization, iteration, an honest answer is
      accepted, every profile is eventually used, a transfer of known size
      that is not complete always has a part to ask for.

    ** Fuel

    A loop that is not structural has a fuel.  It is enough in these cases, by
    a lemma: [add_mul_loop] 65 (one step per bit of a [uint64]); [strip_twos]
    and [gcd_loop] (the sum of the bits decreases); [tries_fuel] 1001 and
    [big_fuel] 4 (the code's own limits: three tries, 1000 iterations);
    [table_fuel], the length of the array (a table always has an empty node);
    [flow_fuel], the length of the input (each pass consumes or stops);
    [read_loop] and [flush] (the theorems hold for any fuel above the number of
    messages, or of bytes that are buffered); [skip_from], the parts that are
    left; the loops over an iterator of messages, the number of messages ([size]);
    [grow_fuel] 6 (a part size doubles at most five times);
    [flush_packets], three more than there are queries and identifiers that wait;
    [flush] of a session, some bound that depends on what arrives, and more fuel
    changes nothing ([flush_more]).  [on_slice_packet] has the depth of the stack
    as an argument, since the code calls itself for every level of containers and
    packed objects: a packet of [n] bytes needs [n + 1] more than what it unpacks
    to ([nests_bounded]).  [rsa_pad_loop] is a [while (true)] that ends only when a random
    number is below the modulus: the theorems speak of the runs that end, and
    the search for a point of the curve in [gen_key] of BigNum is of the same
    kind.

    ** Not modelled

    Threads and the actor scheduler (every object is used by one actor); the
    socket and the poll; reference counting of buffers; [HttpTransport], which
    needs the HTTP reader; pings and the connection manager (actors around a raw
    connection); [Session] and the rest of the application layer [td/telegram]
    with its generated API, whose calls of a [SessionConnection] are arbitrary in
    SessionRun; loading of PEM keys; the loaders around [PartsManager] (file
    descriptors, queries, hashes); the storage layer over SQLite; code
    generators; the user interface in Dart. *)
From Stdlib Require Export ZArith Lia Strings.Byte Sorting.Sorted.
From stdpp Require Export base tactics list gmap strings.

#[export] Set Default Goal Selector "!".
#[global] Open Scope Z_scope.

(** * Outcomes of fallible code

    [Status::Error(code, message)] is a [status]; a function that returns
    [Result<T>] and may also fail a [CHECK] (which ends the process) has an
    [outcome].  Messages that interpolate run-time values keep their fixed
    prefix only. *)

Record status := Error { error_code : Z; error_message : string }.

Inductive outcome (A : Type) : Type :=
| Ok (a : A)
| Err (e : status)
| Crash.

Arguments Ok {A} a.
Arguments Err {A} e.
Arguments Crash {A}.

#[export] Instance outcome_ret : MRet outcome := fun A a => Ok a.

#[export] Instance outcome_bind : MBind outcome := fun A B f m =>
  match m with
  | Ok a => f a
  | Err e => Err e
  | Crash => Crash
  end.

#[export] Instance outcome_fmap : FMap outcome := fun A B f m =>
  match m with
  | Ok a => Ok (f a)
  | Err e => Err e
  | Crash => Crash
  end.

(** [CHECK(b)]: the process ends when the condition is false. *)
Definition check (b : bool) : outcome unit := if b then Ok tt else Crash.

(** An early [return Status::Error(...)] under a condition. *)
Definition fail_if (b : bool) (e : status) : outcome unit := if b then Err e else Ok tt.

Definition is_ok {A} (m : outcome A) : bool := match m with Ok _ => true | _ => false end.

#[export] Instance status_eq_dec : EqDecision status.
Proof. solve_decision. Defined.

#[export] Instance outcome_eq_dec {A} `{EqDecision A} : EqDecision (outcome A).
Proof. solve_decision. Defined.

Section outcome_lemmas.
Context {A B : Type}.

Lemma bind_Ok_inv (m : outcome A) (f : A -> outcome B) (b : B) :
  m ≫= f = Ok b -> exists a, m = Ok a /\ f a = Ok b.
Proof. destruct m; cbn; naive_solver. Qed.

Lemma Ok_bind (a : A) (f : A -> outcome B) : Ok a ≫= f = f a.
Proof. reflexivity. Qed.

Lemma check_Ok (b : bool) (u : unit) : check b = Ok u <-> b = true.
Proof. destruct b, u; cbn; naive_solver. Qed.

Lemma fail_if_Ok (b : bool) e (u : unit) : fail_if b e = Ok u <-> b = false.
Proof. destruct b, u; cbn; naive_solver. Qed.
End outcome_lemmas.

(** [simp_outcome] takes apart a hypothesis that a chain of guards returned a
    value, leaving one equation per step. *)
Ltac simp_outcome :=
  repeat match goal with
  | H : _ ≫= _ = Ok _ |- _ => apply bind_Ok_inv in H; destruct H as (? & ? & H)
  | H : check _ = Ok _ |- _ => apply check_Ok in H
  | H : fail_if _ _ = Ok _ |- _ => apply fail_if_Ok in H
  | H : Ok _ = Ok _ |- _ => injection H as H; subst
  | H : mret _ = Ok _ |- _ => injection H as H; subst
  | H : Err _ = Ok _ |- _ => discriminate H
  | H : Crash = Ok _ |- _ => discriminate H
  | x : unit |- _ => destruct x
  end.

(** Booleans of the code to propositions and back. *)
Ltac to_prop :=
  repeat match goal with
  | H : _ && _ = true |- _ => apply andb_prop in H; destruct H
  | H : _ || _ = false |- _ => apply orb_false_elim in H; destruct H
  | H : negb _ = true |- _ => apply negb_true_iff in H
  | H : negb _ = false |- _ => apply negb_false_iff in H
  | H : (_ <? _) = true |- _ => apply Z.ltb_lt in H
  | H : (_ <? _) = false |- _ => apply Z.ltb_ge in H
  | H : (_ <=? _) = true |- _ => apply Z.leb_le in H
  | H : (_ <=? _) = false |- _ => apply Z.leb_gt in H
  | H : (_ =? _) = true |- _ => apply Z.eqb_eq in H
  | H : (_ =? _) = false |- _ => apply Z.eqb_neq in H
  | H : bool_decide _ = true |- _ => apply bool_decide_eq_true in H
  | H : bool_decide _ = false |- _ => apply bool_decide_eq_false in H
  end.

(** * Lengths as [size_t] values *)

Definition len {A} (l : list A) : Z := Z.of_nat (length l).

Section len_lemmas.
Context {A : Type}.
Implicit Types l k : list A.

Lemma len_nonneg l : 0 <= len l.
Proof. unfold len; lia. Qed.

Lemma len_nil : len (@nil A) = 0.
Proof. reflexivity. Qed.

Lemma len_cons x l : len (x :: l) = 1 + len l.
Proof. unfold len; cbn [length]; lia. Qed.

Lemma len_app l k : len (l ++ k) = len l + len k.
Proof. unfold len; rewrite length_app; lia. Qed.

Lemma len_take n l : 0 <= n -> len (take (Z.to_nat n) l) = Z.min n (len l).
Proof. intros; unfold len; rewrite length_take; lia. Qed.

Lemma len_drop n l : 0 <= n -> len (drop (Z.to_nat n) l) = Z.max 0 (len l - n).
Proof. intros; unfold len; rewrite length_drop; lia. Qed.

Lemma len_replicate n (x : A) : 0 <= n -> len (replicate (Z.to_nat n) x) = n.
Proof. intros; unfold len; rewrite length_replicate; lia. Qed.

Lemma len_reverse l : len (reverse l) = len l.
Proof. unfold len; rewrite length_reverse; lia. Qed.

Lemma len_zero_nil l : len l = 0 -> l = [].
Proof. destruct l; [done | rewrite len_cons; pose proof (len_nonneg l); lia]. Qed.

Lemma app_inv_len l1 l2 k1 k2 :
  len l1 = len l2 -> l1 ++ k1 = l2 ++ k2 -> l1 = l2 /\ k1 = k2.
Proof. unfold len; intros; apply app_inj_1; [lia | done]. Qed.
End len_lemmas.

Lemma len_fmap {A B} (f : A -> B) l : len (f <$> l) = len l.
Proof. unfold len; by rewrite length_fmap. Qed.

Create HintDb len discriminated.
Create Rewrite HintDb len_rw.
#[export] Hint Rewrite @len_nil @len_cons @len_app @len_reverse @len_fmap : len_rw.
#[export] Hint Resolve len_nonneg : len.

(** Arithmetic on lengths: push [len] inwards and hand over to [lia]. *)
Ltac len_solve :=
  autorewrite with len_rw in *;
  repeat match goal with
  | |- context [len (take (Z.to_nat ?n) _)] => rewrite len_take by lia
  | |- context [len (drop (Z.to_nat ?n) _)] => rewrite len_drop by lia
  | H : context [len (take (Z.to_nat ?n) _)] |- _ => rewrite len_take in H by lia
  | H : context [len (drop (Z.to_nat ?n) _)] |- _ => rewrite len_drop in H by lia
  | |- context [len (replicate (Z.to_nat ?n) _)] => rewrite len_replicate by lia
  end;
  repeat match goal with
  | |- context [len ?l] => lazymatch goal with H : 0 <= len l |- _ => fail | _ => pose proof (len_nonneg l) end
  | _ : context [len ?l] |- _ => lazymatch goal with H : 0 <= len l |- _ => fail | _ => pose proof (len_nonneg l) end
  end; lia.

(** * Sorted lists *)

Lemma sorted_app {A} (R : relation A) (l k : list A) :
  StronglySorted R (l ++ k) <->
  StronglySorted R l /\ StronglySorted R k /\ (forall x y, x ∈ l -> y ∈ k -> R x y).
Proof.
  induction l as [|a l IH]; cbn.
  - split; [|by intros (_ & Hk & _)]. intros Hk. split; [constructor|]. split; [done|].
    intros x y Hx. by apply elem_of_nil in Hx.
  - split.
    + intros Hs. inversion Hs as [|? ? Hs' Ha]; subst. apply IH in Hs' as (Hl & Hk & Hlk).
      rewrite Forall_app in Ha. destruct Ha as [Hal Hak]. split; [by constructor|]. split; [done|].
      intros x y Hx Hy. apply elem_of_cons in Hx as [->|Hx]; [|by apply Hlk].
      rewrite Forall_forall in Hak. by apply Hak.
    + intros (Hl & Hk & Hlk). inversion Hl as [|? ? Hl' Ha]; subst. constructor.
      * apply IH. split; [done|]. split; [done|]. intros x y Hx Hy. apply Hlk; [|done]. by right.
      * apply Forall_app. split; [done|]. apply Forall_forall. intros y Hy. apply Hlk; [by left|done].
Qed.

(** * Sums over an initial segment *)

(** The sum of [f 0], ..., [f (n - 1)]; with values 0 and 1, a number of
    elements. *)
Fixpoint sum_upto (f : Z -> Z) (n : nat) : Z :=
  match n with
  | O => 0
  | S n => sum_upto f n + f (Z.of_nat n)
  end.

Section sums.
Implicit Types f g : Z -> Z.

Lemma sum_upto_ext f g n : (forall i, 0 <= i < Z.of_nat n -> f i = g i) -> sum_upto f n = sum_upto g n.
Proof.
  induction n as [|n IH]; intros He; [done|]. cbn [sum_upto]. rewrite IH by (intros; apply He; lia).
  by rewrite He by lia.
Qed.

Lemma sum_upto_add f n m : sum_upto f (n + m) = sum_upto f n + sum_upto (fun i => f (Z.of_nat n + i)) m.
Proof.
  induction m as [|m IH]; [rewrite Nat.add_0_r; cbn; lia|]. rewrite Nat.add_succ_r. cbn [sum_upto].
  rewrite IH, Nat2Z.inj_add. lia.
Qed.

Lemma sum_upto_le f g n : (forall i, 0 <= i < Z.of_nat n -> f i <= g i) -> sum_upto f n <= sum_upto g n.
Proof.
  induction n as [|n IH]; intros He; [done|]. cbn [sum_upto]. apply Z.add_le_mono; [apply IH; intros|]; apply He; lia.
Qed.

Lemma sum_upto_const c n : sum_upto (fun _ => c) n = Z.of_nat n * c.
Proof. induction n as [|n IH]; [done|]. cbn [sum_upto]. rewrite IH. lia. Qed.

Lemma sum_upto_zero f n : (forall i, 0 <= i < Z.of_nat n -> f i = 0) -> sum_upto f n = 0.
Proof. intros Hz. rewrite (sum_upto_ext f (fun _ => 0)) by done. rewrite sum_upto_const. lia. Qed.

Lemma sum_upto_nonneg f n : (forall i, 0 <= i < Z.of_nat n -> 0 <= f i) -> 0 <= sum_upto f n.
Proof. intros Hf. rewrite <- (sum_upto_zero (fun _ => 0) n) by done. by apply sum_upto_le. Qed.

Lemma sum_upto_plus f g n : sum_upto (fun i => f i + g i) n = sum_upto f n + sum_upto g n.
Proof. induction n as [|n IH]; [done|]. cbn [sum_upto]. rewrite IH. lia. Qed.

(** A change at one place. *)
Lemma sum_upto_update f g n k :
  0 <= k < Z.of_nat n -> (forall i, i <> k -> g i = f i) -> sum_upto g n = sum_upto f n - f k + g k.
Proof.
  induction n as [|n IH]; intros Hk He; [lia|]. cbn [sum_upto].
  destruct (Z.eq_dec k (Z.of_nat n)) as [->|Hne].
  - rewrite (sum_upto_ext g f) by (intros; apply He; lia). lia.
  - rewrite IH by (try done; lia). rewrite (He (Z.of_nat n)) by lia. lia.
Qed.

(** A term is part of a sum of terms that are not negative. *)
Lemma sum_upto_term f n k :
  (forall i, 0 <= i < Z.of_nat n -> 0 <= f i) -> 0 <= k < Z.of_nat n -> f k <= sum_upto f n.
Proof.
  intros Hf Hk. pose proof (sum_upto_update f (fun i => if i =? k then 0 else f i) n k Hk) as Hu.
  cbn beta in Hu. rewrite Z.eqb_refl in Hu. rewrite Z.add_0_r in Hu.
  assert (Hn : 0 <= sum_upto (fun i => if i =? k then 0 else f i) n).
  { apply sum_upto_nonneg. intros i Hi. destruct (Z.eqb_spec i k); [done|by apply Hf]. }
  rewrite Hu in Hn; [lia|]. intros i Hi. by rewrite (proj2 (Z.eqb_neq i k)).
Qed.
End sums.
