(* ===== verification/Bytes.v ===== *)
(** Bytes, [Slice] operations and machine integers as the C++ code uses them:
    [char]/[uint8] is [Byte.byte], a [Slice] or [string] is a [list byte], an
    unsigned integer of width w is a [Z] reduced modulo 2^w, and [as<T>(ptr)]
    is a little-endian load or store (all supported targets are little
    endian). *)
From S2P Require Import Prelude.
#[local] Open Scope Z_scope.

Abbreviation byte := Byte.byte.
Abbreviation bytes := (list Byte.byte).

(** * Bytes and integers *)

Definition b2z (b : byte) : Z := Z.of_N (Byte.to_N b).

(** [static_cast<uint8>(z)]: reduction modulo 256. *)
Definition z2b (z : Z) : byte := default x00 (Byte.of_N (Z.to_N (z mod 256))).

(** A byte string written as its values, as in ["\x16\x03\x01"]. *)
Definition hex (l : list Z) : bytes := z2b <$> l.

Definition uint16 (z : Z) : Z := z mod 2 ^ 16.
Definition uint32 (z : Z) : Z := z mod 2 ^ 32.
Definition uint64 (z : Z) : Z := z mod 2 ^ 64.

(** [static_cast<int32>]: two's complement. *)
Definition int32 (z : Z) : Z := (z + 2 ^ 31) mod 2 ^ 32 - 2 ^ 31.

Lemma int32_small z : - 2 ^ 31 <= z < 2 ^ 31 -> int32 z = z.
Proof. intros Hz. unfold int32. rewrite Z.mod_small by lia. lia. Qed.

#[export] Instance byte_eq_dec : EqDecision byte := Byte.byte_eq_dec.

Lemma b2z_range b : 0 <= b2z b < 256.
Proof. unfold b2z. pose proof (Byte.to_N_bounded b). lia. Qed.

Lemma b2z_z2b z : b2z (z2b z) = z mod 256.
Proof.
  unfold b2z, z2b.
  pose proof (Z.mod_pos_bound z 256 ltac:(lia)) as Hr.
  destruct (Byte.of_N (Z.to_N (z mod 256))) as [b|] eqn:E; cbn.
  - apply Byte.to_of_N in E. rewrite E. lia.
  - apply Byte.of_N_None_iff in E. lia.
Qed.

Lemma b2z_z2b_small z : 0 <= z < 256 -> b2z (z2b z) = z.
Proof. intros. rewrite b2z_z2b. by apply Z.mod_small. Qed.

Lemma z2b_b2z b : z2b (b2z b) = b.
Proof.
  unfold b2z, z2b. pose proof (Byte.to_N_bounded b).
  rewrite Z.mod_small by lia. by rewrite N2Z.id, Byte.of_to_N.
Qed.

Lemma b2z_inj a b : b2z a = b2z b -> a = b.
Proof. intros E. by rewrite <- (z2b_b2z a), E, z2b_b2z. Qed.

Lemma z2b_mod z : z2b (z mod 256) = z2b z.
Proof. unfold z2b. by rewrite Z.mod_mod. Qed.

Lemma z2b_eq a b : a mod 256 = b mod 256 -> z2b a = z2b b.
Proof. intros E. by rewrite <- z2b_mod, E, z2b_mod. Qed.

(** [s[i]] for [0 <= i < s.size()]. *)
Definition nth_byte (l : bytes) (i : Z) : byte := nth (Z.to_nat i) l x00.

Lemma z2b_byte (b : byte) z : z mod 256 = b2z b -> z2b z = b.
Proof. intros E. rewrite <- (z2b_b2z b). apply z2b_eq. rewrite E.
  pose proof (b2z_range b). by rewrite Z.mod_small. Qed.

(** A statement about a byte holds when it holds for its 256 values. *)
Definition all_bytes : bytes := z2b <$> seqZ 0 256.

Lemma elem_of_all_bytes b : b ∈ all_bytes.
Proof.
  unfold all_bytes. apply list_elem_of_fmap. exists (b2z b).
  split; [by rewrite z2b_b2z |]. apply elem_of_seqZ. pose proof (b2z_range b). lia.
Qed.

Lemma byte_forall (P : byte -> bool) : forallb P all_bytes = true -> forall b, P b = true.
Proof.
  intros H b. pose proof (elem_of_all_bytes b) as Hb.
  rewrite forallb_forall in H. apply H. by apply list_elem_of_In.
Qed.

(** * Slices *)

(** [slice.substr(from, size)] for [from <= size()]: at most [size] bytes. *)
Definition substr (from size : Z) (s : bytes) : bytes :=
  take (Z.to_nat size) (drop (Z.to_nat from) s).

(** [slice.substr(from)]. *)
Definition substr_from (from : Z) (s : bytes) : bytes := drop (Z.to_nat from) s.

(** [slice.truncate(size)]. *)
Definition truncate (size : Z) (s : bytes) : bytes := take (Z.to_nat size) s.

Definition zeros (n : Z) : bytes := replicate (Z.to_nat n) x00.

(** [MutableSlice(data).substr(off).copy_from(s)]: overwrite in place; the
    callers check that the bytes fit. *)
Definition write_at (off : Z) (s data : bytes) : bytes :=
  take (Z.to_nat off) data ++ s ++ drop (Z.to_nat off + length s) data.

Lemma len_zeros n : 0 <= n -> len (zeros n) = n.
Proof. apply len_replicate. Qed.

Lemma len_substr from n s :
  0 <= from -> 0 <= n -> from + n <= len s -> len (substr from n s) = n.
Proof. intros. unfold substr, len in *. rewrite length_take, length_drop. lia. Qed.

Lemma substr_0 n s : substr 0 n s = truncate n s.
Proof. reflexivity. Qed.

Lemma truncate_split n s : truncate n s ++ substr_from (len (truncate n s)) s = s.
Proof.
  unfold truncate, substr_from, len. rewrite Nat2Z.id, length_take.
  destruct (Nat.le_ge_cases (Z.to_nat n) (length s)).
  - rewrite Nat.min_l by done. apply take_drop.
  - rewrite Nat.min_r, drop_ge, app_nil_r by done. by apply take_ge.
Qed.

Lemma len_write_at off s data :
  0 <= off -> off + len s <= len data -> len (write_at off s data) = len data.
Proof. intros. unfold write_at, len in *. rewrite !length_app, length_take, length_drop. lia. Qed.

Lemma write_at_app pre old post s :
  len s = len old -> write_at (len pre) s (pre ++ old ++ post) = pre ++ s ++ post.
Proof.
  intros Hl. unfold write_at, len in *. rewrite Nat2Z.id.
  rewrite take_app_length. f_equal. f_equal.
  replace (length s) with (length old) by lia.
  rewrite app_assoc, <- length_app. apply drop_app_length.
Qed.

Lemma substr_app_mid pre mid post :
  substr (len pre) (len mid) (pre ++ mid ++ post) = mid.
Proof.
  unfold substr, len. rewrite !Nat2Z.id, drop_app_length. apply take_app_length.
Qed.

Lemma substr_app_mid' off n pre mid post :
  off = len pre -> n = len mid -> substr off n (pre ++ mid ++ post) = mid.
Proof. intros -> ->. apply substr_app_mid. Qed.

Lemma write_at_app' off pre old post s :
  off = len pre -> len s = len old -> write_at off s (pre ++ old ++ post) = pre ++ s ++ post.
Proof. intros ->. apply write_at_app. Qed.

(** * Little- and big-endian integers *)

(** The value of a byte string, least significant byte first. *)
Fixpoint le_load (s : bytes) : Z :=
  match s with
  | [] => 0
  | b :: s => b2z b + 256 * le_load s
  end.

(** The [n] low bytes of [z], least significant first. *)
Fixpoint le_store (n : nat) (z : Z) : bytes :=
  match n with
  | O => []
  | S n => z2b z :: le_store n (z / 256)
  end.

Definition be_load (s : bytes) : Z := le_load (reverse s).

Lemma length_le_store n z : length (le_store n z) = n.
Proof. revert z; induction n; intros; cbn; auto. Qed.

Lemma len_le_store n z : len (le_store n z) = Z.of_nat n.
Proof. unfold len. by rewrite length_le_store. Qed.

Lemma le_load_range s : 0 <= le_load s < 256 ^ len s.
Proof.
  induction s as [|b s IH]; [done|].
  rewrite len_cons, Z.pow_add_r by (pose proof (len_nonneg s); lia).
  cbn [le_load]. pose proof (b2z_range b). lia.
Qed.

Lemma le_load_store n z : le_load (le_store n z) = z mod 256 ^ Z.of_nat n.
Proof.
  revert z; induction n as [|n IH]; intros z.
  { cbn. by rewrite Z.mod_1_r. }
  cbn [le_store le_load]. rewrite IH, b2z_z2b.
  replace (256 ^ Z.of_nat (S n)) with (256 * 256 ^ Z.of_nat n)
    by (rewrite Nat2Z.inj_succ, Z.pow_succ_r; lia).
  rewrite Z.rem_mul_r by lia. done.
Qed.

Lemma le_store_load s n : n = length s -> le_store n (le_load s) = s.
Proof.
  intros ->. induction s as [|b s IH]; [done|]. cbn [length le_store le_load]. f_equal.
  - rewrite <- (z2b_b2z b) at 2. apply z2b_eq.
    rewrite Z.add_mod, Z.mul_comm, Z.mod_mul, Z.add_0_r, Z.mod_mod by lia. done.
  - pose proof (b2z_range b).
    replace ((b2z b + 256 * le_load s) / 256) with (le_load s); [done|].
    rewrite Z.mul_comm, Z.div_add, Z.div_small by lia. lia.
Qed.

Lemma le_load_inj s t : length s = length t -> le_load s = le_load t -> s = t.
Proof.
  intros Hl E. rewrite <- (le_store_load s (length t)), E by done. by apply le_store_load.
Qed.

(** [a ^ b] on byte strings of one length. *)
Definition xor_bytes (a b : bytes) : bytes :=
  zip_with (fun x y => z2b (Z.lxor (b2z x) (b2z y))) a b.

Lemma lxor_range n x y :
  0 <= n -> 0 <= x < 2 ^ n -> 0 <= y < 2 ^ n -> 0 <= Z.lxor x y < 2 ^ n.
Proof.
  intros Hn Hx Hy. assert (H0 : 0 <= Z.lxor x y) by (apply Z.lxor_nonneg; lia).
  split; [done|]. destruct (Z.eq_dec (Z.lxor x y) 0) as [->|Hne]; [lia|].
  apply Z.log2_lt_pow2; [lia|].
  pose proof (Z.log2_lxor x y ltac:(lia) ltac:(lia)) as Hl.
  assert (forall z, 0 <= z < 2 ^ n -> Z.log2 z < n \/ Z.lxor x y <= 0 \/ z = 0) as Hz.
  { intros z Hz. destruct (Z.eq_dec z 0); [auto|]. left. apply Z.log2_lt_pow2; lia. }
  destruct (Hz x Hx) as [?|[?|Ex]], (Hz y Hy) as [?|[?|Ey]]; try lia; subst;
    change (Z.log2 0) with 0 in *;
    try (rewrite Z.lxor_0_l in * || rewrite Z.lxor_0_r in *); try lia.
Qed.

Lemma lxor_bytes_range x y : 0 <= x < 256 -> 0 <= y < 256 -> 0 <= Z.lxor x y < 256.
Proof. apply (lxor_range 8). lia. Qed.

Lemma byte_xor_cancel x y :
  z2b (Z.lxor (b2z (z2b (Z.lxor (b2z x) (b2z y)))) (b2z y)) = x.
Proof.
  rewrite b2z_z2b_small by (apply lxor_bytes_range; apply b2z_range).
  rewrite Z.lxor_assoc, Z.lxor_nilpotent, Z.lxor_0_r. apply z2b_b2z.
Qed.

Lemma xor_bytes_cancel a b : length a = length b -> xor_bytes (xor_bytes a b) b = a.
Proof.
  revert b; induction a as [|x a IH]; intros [|y b]; cbn; intros Hl; try done.
  f_equal; [apply byte_xor_cancel | apply IH; lia].
Qed.

Lemma length_xor_bytes a b : length a = length b -> length (xor_bytes a b) = length a.
Proof. unfold xor_bytes. intros E. rewrite length_zip_with. lia. Qed.

#[export] Hint Rewrite len_le_store : len_rw.

(** An ASCII string literal of the source as bytes. *)
Definition str (s : string) : bytes := String.list_byte_of_string s.

(** * Bit operations as arithmetic *)

Lemma Z_lor_add (n a b : Z) :
  0 <= n -> a mod 2 ^ n = 0 -> 0 <= b < 2 ^ n -> Z.lor a b = a + b.
Proof.
  intros Hn Ha Hb.
  assert (Hl : Z.land a b = 0).
  { apply Z.bits_inj'. intros i Hi. rewrite Z.land_spec, Z.bits_0.
    destruct (Z.lt_ge_cases i n).
    - rewrite <- (Z.mod_pow2_bits_low a n i), Ha, Z.bits_0 by lia. done.
    - assert (Z.testbit b i = false) as ->; [|apply andb_false_r].
      rewrite <- (Z.mod_small b (2 ^ n)) by lia. apply Z.mod_pow2_bits_high. lia. }
  rewrite <- Z.lxor_lor by done. symmetry. by apply Z.add_nocarry_lxor.
Qed.

Lemma Z_land_mod (a n : Z) : 0 <= n -> Z.land a (2 ^ n - 1) = a mod 2 ^ n.
Proof. intros. rewrite <- Z.land_ones, Z.ones_equiv by lia. f_equal. Qed.

Lemma land_63 a : Z.land a 63 = a mod 64.
Proof. apply (Z_land_mod a 6). lia. Qed.

Lemma land_255 a : Z.land a 255 = a mod 256.
Proof. apply (Z_land_mod a 8). lia. Qed.

Lemma land_65535 a : Z.land a 65535 = a mod 65536.
Proof. apply (Z_land_mod a 16). lia. Qed.

Lemma land_15 a : Z.land a 15 = a mod 16.
Proof. apply (Z_land_mod a 4). lia. Qed.

Lemma land_3 a : Z.land a 3 = a mod 4.
Proof. apply (Z_land_mod a 2). lia. Qed.

(** Right shifts and masks by constants to division and remainder. *)
Ltac shr_to_arith :=
  rewrite ?land_63, ?land_255, ?land_65535, ?land_15, ?land_3;
  rewrite ?Z.shiftr_div_pow2 by lia;
  change (2 ^ 4) with 16 in *; change (2 ^ 6) with 64 in *; change (2 ^ 8) with 256 in *;
  change (2 ^ 12) with 4096 in *; change (2 ^ 16) with 65536 in *;
  change (2 ^ 18) with 262144 in *.

(** The same with left shifts, to multiplication. *)
Ltac bits_to_arith := rewrite ?Z.shiftl_mul_pow2 by lia; shr_to_arith.

Ltac div_mod_lia := Z.div_mod_to_equations; lia.

Lemma le_store_mod n z w : z mod 256 ^ Z.of_nat n = w mod 256 ^ Z.of_nat n -> le_store n z = le_store n w.
Proof.
  intros E. apply le_load_inj; [by rewrite !length_le_store|]. by rewrite !le_load_store.
Qed.

Lemma le_store_int32 z : le_store 4 (int32 z) = le_store 4 z.
Proof. apply le_store_mod. unfold int32. change (256 ^ Z.of_nat 4) with (2 ^ 32). div_mod_lia. Qed.

Lemma le_store_uint32 z : le_store 4 (uint32 z) = le_store 4 z.
Proof. apply le_store_mod. unfold uint32. change (256 ^ Z.of_nat 4) with (2 ^ 32). div_mod_lia. Qed.
