(* ===== verification/Random.v ===== *)
(** Randomness: [tdutils/td/utils/Random.cpp] and [Random.h].

    Clients use the interface [RandomSource]: bytes from [secure_bytes] and a
    32-bit draw from [fast_uint32].  [ThreadRandom] is the implementation of
    [Random::secure_bytes] on top of OpenSSL's [RAND_bytes] (the class
    [Entropy], code that is not in the repository), with its thread-local
    buffer of 512 bytes. *)
From S2P Require Import Prelude Bytes.
#[local] Open Scope Z_scope.

Class RandomSource (G : Type) := {
  secure_bytes : Z -> G -> bytes * G;
  fast_uint32 : G -> Z * G;
}.

Class RandomLaws (G : Type) `{RandomSource G} : Prop := {
  len_secure_bytes n g : 0 <= n -> len (secure_bytes n g).1 = n;
  fast_uint32_range g : 0 <= (fast_uint32 g).1 < 2 ^ 32;
}.

Section draws.
Context {G : Type} `{RandomSource G}.

(** [Random::secure_uint32] and [secure_int32]: four bytes, little endian. *)
Definition secure_uint32 (g : G) : Z * G :=
  let '(s, g) := secure_bytes 4 g in (le_load s, g).

Definition secure_int32 (g : G) : Z * G :=
  let '(s, g) := secure_bytes 4 g in (int32 (le_load s), g).

Definition secure_uint64 (g : G) : Z * G :=
  let '(s, g) := secure_bytes 8 g in (le_load s, g).

(** [int Random::fast(int min_value, int max_value)]; [uint32 % int] and
    [int + uint32] are computed in [uint32]. *)
Definition fast (min_value max_value : Z) (g : G) : Z * G :=
  let min_value :=
    if (min_value =? - 2 ^ 31) && (max_value =? 2 ^ 31 - 1) then min_value + 1 else min_value in
  let '(u, g) := fast_uint32 g in
  (int32 (uint32 (min_value + u mod uint32 (max_value - min_value + 1))), g).

(** [Random::shuffle]: for i = 1 .. size-1 swap v[i] with v[pos],
    [pos = static_cast<size_t>(secure_int32()) % (i + 1)]. *)
Definition swap_elems {T} (i j : nat) (v : list T) : list T :=
  match v !! i, v !! j with
  | Some x, Some y => <[j := x]> (<[i := y]> v)
  | _, _ => v
  end.

Fixpoint shuffle_from {T} (k i : nat) (v : list T) (g : G) : list T * G :=
  match k with
  | O => (v, g)
  | S k =>
      let '(r, g) := secure_int32 g in
      let pos := Z.to_nat (uint64 r mod Z.of_nat (S i)) in
      shuffle_from k (S i) (swap_elems i pos v) g
  end.

Definition shuffle {T} (v : list T) (g : G) : list T * G :=
  shuffle_from (length v - 1) 1 v g.

Lemma swap_elems_Permutation {T} i j (v : list T) : swap_elems i j v ≡ₚ v.
Proof.
  unfold swap_elems. destruct (v !! i) as [x|] eqn:Hi; [|done].
  destruct (v !! j) as [y|] eqn:Hj; [|done].
  by apply Permutation_insert_swap.
Qed.

Lemma shuffle_Permutation {T} (v : list T) g : (shuffle v g).1 ≡ₚ v.
Proof.
  enough (Hk : forall k i v g, (shuffle_from k i v g).1 ≡ₚ v) by apply Hk. clear v g.
  induction k as [|k IH]; intros i v g; [reflexivity|]. cbn.
  destruct (secure_int32 g) as [r g'].
  etrans; [apply IH | apply swap_elems_Permutation].
Qed.

Context `{!RandomLaws G}.

Lemma fast_eq lo hi g :
  - 2 ^ 30 <= lo <= hi -> hi < 2 ^ 30 ->
  (fast lo hi g).1 = lo + (fast_uint32 g).1 mod (hi - lo + 1).
Proof.
  intros Hlo Hhi. unfold fast.
  replace ((lo =? - 2 ^ 31) && (hi =? 2 ^ 31 - 1)) with false
    by (symmetry; apply andb_false_iff; rewrite !Z.eqb_neq; lia).
  pose proof (fast_uint32_range g) as Hu. destruct (fast_uint32 g) as [u g']; cbn in *.
  unfold uint32 at 2. rewrite (Z.mod_small (hi - lo + 1) (2 ^ 32)) by lia.
  pose proof (Z.mod_pos_bound u (hi - lo + 1) ltac:(lia)) as Hm.
  set (r := u mod (hi - lo + 1)) in *. unfold int32, uint32.
  rewrite Zplus_mod_idemp_l, Z.mod_small by lia. lia.
Qed.

Lemma fast_range lo hi g :
  - 2 ^ 30 <= lo <= hi -> hi < 2 ^ 30 -> lo <= (fast lo hi g).1 <= hi.
Proof.
  intros Hlo Hhi. rewrite fast_eq by lia.
  pose proof (Z.mod_pos_bound (fast_uint32 g).1 (hi - lo + 1) ltac:(lia)). lia.
Qed.

Lemma secure_uint32_range g : 0 <= (secure_uint32 g).1 < 2 ^ 32.
Proof.
  unfold secure_uint32. pose proof (len_secure_bytes 4 g ltac:(lia)) as Hl.
  destruct (secure_bytes 4 g) as [s g']; cbn in *.
  pose proof (le_load_range s) as Hr. rewrite Hl in Hr. lia.
Qed.
End draws.

(** * [Random::secure_bytes] over [RAND_bytes] *)

Class Entropy (E : Type) := { RAND_bytes : Z -> E -> bytes * E }.

Class EntropyLaws (E : Type) `{Entropy E} : Prop := {
  len_RAND_bytes n e : 0 <= n -> len (RAND_bytes n e).1 = n;
}.

(** [std::mt19937]: a generator of 32-bit values. *)
Class Twister (T : Type) := { mt19937 : T -> Z * T }.

Class TwisterLaws (T : Type) `{Twister T} : Prop := {
  mt19937_range t : 0 <= (mt19937 t).1 < 2 ^ 32;
}.

Module ThreadRandom.
Section thread_random.
Context {E T : Type} `{EntropyLaws E} `{TwisterLaws T}.

(** The thread-local statics of [secure_bytes], the global
    [random_seed_generation] and the thread's [mt19937]. *)
Record state := mk_state {
  buf : bytes;
  buf_pos : Z;
  generation : Z;
  random_seed_generation : Z;
  entropy : E;
  twister : T;
}.

Definition BUF_SIZE : Z := 512.

Definition init (e : E) (t : T) : state := mk_state (zeros BUF_SIZE) BUF_SIZE 0 0 e t.

Definition secure_bytes_impl (size : Z) (s : state) : bytes * state :=
  let s :=
    if generation s =? random_seed_generation s then s
    else mk_state (buf s) BUF_SIZE (random_seed_generation s) (random_seed_generation s)
                  (entropy s) (twister s) in
  let ready := Z.min size (BUF_SIZE - buf_pos s) in
  let out := substr (buf_pos s) ready (buf s) in
  let s := mk_state (buf s) (buf_pos s + ready) (generation s) (random_seed_generation s)
                    (entropy s) (twister s) in
  let size := size - ready in
  if negb (ready =? 0) && (size =? 0) then (out, s)
  else if size <? BUF_SIZE then
    let '(b, e) := RAND_bytes BUF_SIZE (entropy s) in
    (out ++ substr 0 size b,
     mk_state b size (generation s) (random_seed_generation s) e (twister s))
  else
    let '(b, e) := RAND_bytes size (entropy s) in
    (out ++ b,
     mk_state (buf s) (buf_pos s) (generation s) (random_seed_generation s) e (twister s)).

(** [Random::add_seed] bumps the global generation; every thread then drops
    its buffer. *)
Definition add_seed (s : state) : state :=
  mk_state (buf s) (buf_pos s) (generation s) (random_seed_generation s + 1)
           (entropy s) (twister s).

(** [Random::secure_cleanup] ([ptr == nullptr]): forget the buffer. *)
Definition secure_cleanup (s : state) : state :=
  mk_state (zeros BUF_SIZE) BUF_SIZE (generation s) (random_seed_generation s)
           (entropy s) (twister s).

Definition fast_uint32_impl (s : state) : Z * state :=
  let '(u, t) := mt19937 (twister s) in
  (u, mk_state (buf s) (buf_pos s) (generation s) (random_seed_generation s) (entropy s) t).

Definition wf (s : state) : Prop := len (buf s) = BUF_SIZE /\ 0 <= buf_pos s <= BUF_SIZE.

(** The bytes a well-formed state still holds for later calls. *)
Definition pending (s : state) : bytes := substr_from (buf_pos s) (buf s).

Lemma init_wf e t : wf (init e t).
Proof. split; [by apply len_zeros | split; done]. Qed.

Lemma pending_init e t : pending (init e t) = [].
Proof. reflexivity. Qed.

Lemma pending_split s n :
  wf s -> 0 <= n <= BUF_SIZE - buf_pos s ->
  pending s = substr (buf_pos s) n (buf s) ++ drop (Z.to_nat (buf_pos s + n)) (buf s).
Proof.
  intros [Hl Hp] Hn. unfold pending, substr_from, substr.
  rewrite <- (take_drop (Z.to_nat n) (drop _ _)) at 1. f_equal.
  rewrite drop_drop. f_equal. lia.
Qed.

(** Every call hands out the number of bytes asked for and leaves the state
    well formed and its seed generation current. *)
Lemma secure_bytes_impl_wf size s :
  wf s -> 0 <= size ->
  len (secure_bytes_impl size s).1 = size /\
  wf (secure_bytes_impl size s).2 /\
  generation (secure_bytes_impl size s).2 = random_seed_generation s /\
  random_seed_generation (secure_bytes_impl size s).2 = random_seed_generation s.
Proof.
  intros [Hl Hp] Hs. unfold secure_bytes_impl.
  assert (exists s0, (if generation s =? random_seed_generation s then s
    else mk_state (buf s) BUF_SIZE (random_seed_generation s) (random_seed_generation s)
                  (entropy s) (twister s)) = s0 /\ wf s0 /\
    generation s0 = random_seed_generation s0 /\
    random_seed_generation s0 = random_seed_generation s) as (s0 & -> & [Hl0 Hp0] & Hg & Hg0).
  { destruct (Z.eqb_spec (generation s) (random_seed_generation s)); eexists;
      (split; [reflexivity|]); unfold wf; cbn -[BUF_SIZE]; repeat split; try done; lia. }
  set (ready := Z.min size (BUF_SIZE - buf_pos s0)).
  assert (Ho : len (substr (buf_pos s0) ready (buf s0)) = ready) by (apply len_substr; lia).
  unfold wf. cbn -[BUF_SIZE].
  destruct (negb (ready =? 0) && (size - ready =? 0)) eqn:E1; to_prop.
  { cbn -[BUF_SIZE]. split_and!; try done; lia. }
  destruct (Z.ltb_spec (size - ready) BUF_SIZE) as [Hlt|Hge].
  - pose proof (len_RAND_bytes BUF_SIZE (entropy s0) ltac:(done)) as Hb.
    destruct (RAND_bytes BUF_SIZE (entropy s0)) as [b e]; cbn -[BUF_SIZE] in *.
    rewrite len_app, Ho, len_substr by lia. split_and!; try congruence; lia.
  - pose proof (len_RAND_bytes (size - ready) (entropy s0) ltac:(lia)) as Hb.
    destruct (RAND_bytes (size - ready) (entropy s0)) as [b e]; cbn -[BUF_SIZE] in *.
    rewrite len_app, Ho. split_and!; try congruence; lia.
Qed.

(** One call in a thread whose seed generation is current: the bytes handed
    out followed by what stays pending are the bytes that were pending
    followed by what [RAND_bytes] produced, in order.  (A call for zero bytes
    drops the pending bytes instead.) *)
Lemma secure_bytes_impl_stream size s :
  wf s -> 0 < size -> generation s = random_seed_generation s ->
  exists drawn,
    (secure_bytes_impl size s).1 ++ pending (secure_bytes_impl size s).2 = pending s ++ drawn.
Proof.
  intros Hwf Hs Hg. pose proof Hwf as [Hl Hp]. unfold secure_bytes_impl.
  rewrite (proj2 (Z.eqb_eq _ _) Hg).
  set (ready := Z.min size (BUF_SIZE - buf_pos s)).
  assert (Hr : 0 <= ready <= BUF_SIZE - buf_pos s) by lia.
  rewrite (pending_split s ready Hwf Hr). cbn -[BUF_SIZE].
  destruct (negb (ready =? 0) && (size - ready =? 0)) eqn:E1.
  { exists []. by rewrite app_nil_r. }
  assert (Hne : size - ready <> 0).
  { apply andb_false_iff in E1 as [E1|E1]; [apply negb_false_iff in E1|]; to_prop; lia. }
  assert (Hd : drop (Z.to_nat (buf_pos s + ready)) (buf s) = []).
  { apply drop_ge. unfold len in Hl. lia. }
  rewrite Hd, app_nil_r.
  destruct (Z.ltb_spec (size - ready) BUF_SIZE) as [Hlt|Hge].
  - destruct (RAND_bytes BUF_SIZE (entropy s)) as [b e]. exists b.
    unfold pending, substr_from; cbn -[BUF_SIZE].
    rewrite substr_0. unfold truncate. by rewrite <- app_assoc, take_drop.
  - destruct (RAND_bytes (size - ready) (entropy s)) as [b e]. exists b.
    unfold pending, substr_from; cbn -[BUF_SIZE]. by rewrite Hd, app_nil_r.
Qed.

(** After [add_seed] the first call does not look at the buffer: no byte
    produced before the reseed is handed out after it. *)
Lemma secure_bytes_impl_reseed size s b p :
  0 <= size -> generation s <> random_seed_generation s ->
  (secure_bytes_impl size s).1 =
  (secure_bytes_impl size (mk_state b p (generation s) (random_seed_generation s)
                                    (entropy s) (twister s))).1.
Proof.
  intros Hs Hg. unfold secure_bytes_impl. cbn -[BUF_SIZE].
  rewrite (proj2 (Z.eqb_neq _ _) Hg). cbn -[BUF_SIZE].
  rewrite Z.sub_diag, Z.min_r by done. cbn -[BUF_SIZE].
  destruct (_ <? _); destruct (RAND_bytes _ _); reflexivity.
Qed.
End thread_random.
End ThreadRandom.

(** * A scripted source, for concrete runs

    [draws] are the values of the coming [fast_uint32] calls (0 when the list
    runs out); [secure_bytes n] gives the first [n] bytes of [fill] followed
    by zeros, on every call. *)
Record script := mk_script { draws : list Z; fill : bytes }.

#[export] Instance script_source : RandomSource script := {|
  secure_bytes n g := (take (Z.to_nat n) (fill g ++ zeros n), g);
  fast_uint32 g :=
    match draws g with
    | [] => (0, g)
    | u :: us => (uint32 u, mk_script us (fill g))
    end;
|}.

#[export] Instance script_laws : RandomLaws script.
Proof.
  constructor.
  - intros n [d f] Hn. cbn. rewrite len_take by done. rewrite len_app, len_zeros by done.
    pose proof (len_nonneg f). lia.
  - intros [[|u us] f]; cbn; [lia|]. unfold uint32. apply Z.mod_pos_bound. lia.
Qed.

(** The thread's generator is a lawful source: its 32-bit draws come from
    [mt19937] and its bytes from [RAND_bytes] through the buffer. *)
Module ThreadSource.
Section thread_source.
Context {E T : Type} `{EntropyLaws E} `{TwisterLaws T}.

Definition thread : Type := { s : ThreadRandom.state (E := E) (T := T) | ThreadRandom.wf s }.

Lemma bytes_wf n (s : thread) : ThreadRandom.wf (ThreadRandom.secure_bytes_impl (Z.max 0 n) (`s)).2.
Proof. destruct s as [s Hs]. apply (ThreadRandom.secure_bytes_impl_wf _ s Hs). lia. Qed.

Lemma uint32_wf (s : thread) : ThreadRandom.wf (ThreadRandom.fast_uint32_impl (`s)).2.
Proof.
  destruct s as [s Hs]. unfold ThreadRandom.fast_uint32_impl. cbn.
  by destruct (mt19937 (ThreadRandom.twister s)).
Qed.

#[export] Instance thread_source : RandomSource thread := {|
  secure_bytes n s :=
    ((ThreadRandom.secure_bytes_impl (Z.max 0 n) (`s)).1, exist _ _ (bytes_wf n s));
  fast_uint32 s :=
    ((ThreadRandom.fast_uint32_impl (`s)).1, exist _ _ (uint32_wf s));
|}.

#[export] Instance thread_laws : RandomLaws thread.
Proof.
  constructor.
  - intros n [s Hs] Hn. cbn. rewrite Z.max_r by done.
    by apply (ThreadRandom.secure_bytes_impl_wf _ s Hs).
  - intros [s Hs]. cbn. unfold ThreadRandom.fast_uint32_impl.
    pose proof (mt19937_range (ThreadRandom.twister s)) as Hr.
    by destruct (mt19937 (ThreadRandom.twister s)).
Qed.
End thread_source.
End ThreadSource.
