(* ===== verification/Encoding.v ===== *)
(** Text encodings: hexadecimal ([tdutils/td/utils/misc.cpp]) and base64 /
    base64url ([tdutils/td/utils/base64.cpp]).

    [is_url] selects the base64url alphabet, as the template parameter does. *)
From S2P Require Import Prelude Bytes.
#[local] Open Scope Z_scope.

(** * Hexadecimal *)

Definition is_digit (c : byte) : bool := (b2z "0" <=? b2z c) && (b2z c <=? b2z "9").

Definition hex_to_int (c : byte) : Z :=
  if is_digit c then b2z c - b2z "0"
  else
    let c := z2b (Z.lor (b2z c) 0x20) in
    if (b2z "a" <=? b2z c) && (b2z c <=? b2z "f") then b2z c - b2z "a" + 10 else 16.

(** The loop over [result.size()] pairs of digits. *)
Fixpoint hex_decode_from (hex : bytes) : outcome bytes :=
  match hex with
  | h :: l :: hex =>
      let high := hex_to_int h in
      let low := hex_to_int l in
      if (high =? 16) || (low =? 16) then Err (Error 0 "Wrong hex string")
      else cons (z2b (high * 16 + low)) <$> hex_decode_from hex
  | _ => Ok []
  end.

Definition hex_decode (hex : bytes) : outcome bytes :=
  if negb (len hex mod 2 =? 0) then Err (Error 0 "Wrong hex string length")
  else hex_decode_from hex.

Definition hex_digits : bytes := str "0123456789abcdef".

Fixpoint hex_encode (data : bytes) : bytes :=
  match data with
  | [] => []
  | c :: data =>
      nth_byte hex_digits (Z.shiftr (b2z c) 4) :: nth_byte hex_digits (Z.land (b2z c) 15)
        :: hex_encode data
  end.

(** * Base64 *)

Definition get_characters (is_url : bool) : bytes :=
  if is_url then str "ABCDEFGHIJKLMNOPQRSTUVWXYZabcdefghijklmnopqrstuvwxyz0123456789-_"
  else str "ABCDEFGHIJKLMNOPQRSTUVWXYZabcdefghijklmnopqrstuvwxyz0123456789+/".

(** The 256 entries of [char_to_value], 64 for the characters outside the alphabet. *)
Definition get_character_table (is_url : bool) : list Z :=
  foldl (fun table i => <[Z.to_nat (b2z (nth_byte (get_characters is_url) i)) := i]> table)
        (replicate 256 64) (seqZ 0 64).

Definition table_value (table : list Z) (c : byte) : Z := nth (Z.to_nat (b2z c)) table 64.

Fixpoint base64_encode_impl (is_url : bool) (input : bytes) : bytes :=
  let characters := get_characters is_url in
  match input with
  | [] => []
  | [a] =>
      let c := Z.shiftl (b2z a) 16 in
      nth_byte characters (Z.shiftr c 18) :: nth_byte characters (Z.land (Z.shiftr c 12) 63)
        :: (if negb is_url then str "==" else [])
  | [a; b] =>
      let c := Z.lor (Z.shiftl (b2z a) 16) (Z.shiftl (b2z b) 8) in
      nth_byte characters (Z.shiftr c 18) :: nth_byte characters (Z.land (Z.shiftr c 12) 63)
        :: nth_byte characters (Z.land (Z.shiftr c 6) 63)
        :: (if negb is_url then str "=" else [])
  | a :: b :: d :: input =>
      let c := Z.lor (Z.lor (Z.shiftl (b2z a) 16) (Z.shiftl (b2z b) 8)) (b2z d) in
      nth_byte characters (Z.shiftr c 18) :: nth_byte characters (Z.land (Z.shiftr c 12) 63)
        :: nth_byte characters (Z.land (Z.shiftr c 6) 63) :: nth_byte characters (Z.land c 63)
        :: base64_encode_impl is_url input
  end.

Definition base64_encode : bytes -> bytes := base64_encode_impl false.
Definition base64url_encode : bytes -> bytes := base64_encode_impl true.

(** [while (!base64.empty() && base64.back() == '=')], on the reversed string. *)
Fixpoint strip_equals (reversed : bytes) (padding_length : Z) : bytes * Z :=
  match reversed with
  | c :: rest =>
      if bool_decide (c = "="%byte) then strip_equals rest (padding_length + 1)
      else (reverse reversed, padding_length)
  | [] => ([], padding_length)
  end.

Definition base64_drop_padding (is_url : bool) (base64 : bytes) : outcome bytes :=
  let '(base64, padding_length) := strip_equals (reverse base64) 0 in
  if 3 <=? padding_length then Err (Error 0 "Wrong string padding")
  else if (negb is_url || (0 <? padding_length))
          && negb (Z.land (len base64 + padding_length) 3 =? 0)
  then Err (Error 0 "Wrong padding length")
  else if is_url && (Z.land (len base64) 3 =? 1) then Err (Error 0 "Wrong string length")
  else Ok base64.

Definition wrong_character : status := Error 0 "Wrong character in the string".
Definition wrong_padding : status := Error 0 "Wrong padding in the string".

(** The bytes written through [ptr].  A last group of one character would
    still write three bytes, as in the code. *)
Fixpoint do_base64_decode_impl (table : list Z) (base64 : bytes) : outcome bytes :=
  let value := table_value table in
  match base64 with
  | [] => Ok []
  | [a] =>
      if value a =? 64 then Err wrong_character
      else
        let c := Z.shiftl (value a) 18 in
        Ok [z2b (Z.shiftr c 16); z2b (Z.shiftr c 8); z2b c]
  | [a; b] =>
      if (value a =? 64) || (value b =? 64) then Err wrong_character
      else
        let c := Z.lor (Z.shiftl (value a) 18) (Z.shiftl (value b) 12) in
        if negb (Z.land c (Z.shiftl 1 16 - 1) =? 0) then Err wrong_padding
        else Ok [z2b (Z.shiftr c 16)]
  | [a; b; d] =>
      if (value a =? 64) || (value b =? 64) || (value d =? 64) then Err wrong_character
      else
        let c := Z.lor (Z.lor (Z.shiftl (value a) 18) (Z.shiftl (value b) 12))
                       (Z.shiftl (value d) 6) in
        if negb (Z.land c (Z.shiftl 1 8 - 1) =? 0) then Err wrong_padding
        else Ok [z2b (Z.shiftr c 16); z2b (Z.shiftr c 8)]
  | a :: b :: d :: e :: base64 =>
      if (value a =? 64) || (value b =? 64) || (value d =? 64) || (value e =? 64)
      then Err wrong_character
      else
        let c := Z.lor (Z.lor (Z.lor (Z.shiftl (value a) 18) (Z.shiftl (value b) 12))
                              (Z.shiftl (value d) 6)) (value e) in
        (fun rest => z2b (Z.shiftr c 16) :: z2b (Z.shiftr c 8) :: z2b c :: rest)
          <$> do_base64_decode_impl table base64
  end.

(** The size of the string the decoder writes into. *)
Definition decoded_size (base64 : bytes) : Z :=
  len base64 / 4 * 3 + (Z.land (len base64) 3 + 1) / 2.

Definition base64_decode_impl (is_url : bool) (base64 : bytes) : outcome bytes :=
  base64 ← base64_drop_padding is_url base64;
  result ← do_base64_decode_impl (get_character_table is_url) base64;
  (* the result string has [decoded_size] bytes: writing more is out of bounds *)
  _ ← check (len result <=? decoded_size base64);
  Ok (result ++ zeros (decoded_size base64 - len result)).

Definition base64_decode : bytes -> outcome bytes := base64_decode_impl false.
Definition base64url_decode : bytes -> outcome bytes := base64_decode_impl true.

Definition is_base64_impl (is_url : bool) (input : bytes) : bool :=
  let '(input, padding_length) := strip_equals (reverse input) 0 in
  if 3 <=? padding_length then false
  else if (negb is_url || (0 <? padding_length))
          && negb (Z.land (len input + padding_length) 3 =? 0) then false
  else if is_url && (Z.land (len input) 3 =? 1) then false
  else
    let table := get_character_table is_url in
    if existsb (fun c => table_value table c =? 64) input then false
    else if (Z.land (len input) 3 =? 2)
            && negb (Z.land (table_value table (nth_byte input (len input - 1))) 15 =? 0)
    then false
    else if (Z.land (len input) 3 =? 3)
            && negb (Z.land (table_value table (nth_byte input (len input - 1))) 3 =? 0)
    then false
    else true.

Definition is_base64 : bytes -> bool := is_base64_impl false.
Definition is_base64url : bytes -> bool := is_base64_impl true.

(** * Hexadecimal: round trip *)

Lemma hex_digit_value i : 0 <= i < 16 -> hex_to_int (nth_byte hex_digits i) = i.
Proof.
  intros Hi.
  assert (Hc : forallb (fun i => hex_to_int (nth_byte hex_digits i) =? i) (seqZ 0 16) = true)
    by (vm_compute; reflexivity).
  rewrite forallb_forall in Hc. apply Z.eqb_eq, Hc. apply list_elem_of_In, elem_of_seqZ. lia.
Qed.

Lemma len_hex_encode data : len (hex_encode data) = 2 * len data.
Proof. induction data; cbn [hex_encode]; [done|]. rewrite !len_cons. lia. Qed.

Lemma hex_decode_from_encode data : hex_decode_from (hex_encode data) = Ok data.
Proof.
  induction data as [|c data IH]; [done|]. cbn -[nth_byte hex_digits].
  pose proof (b2z_range c). bits_to_arith.
  rewrite !hex_digit_value by div_mod_lia.
  rewrite (proj2 (Z.eqb_neq _ 16)), (proj2 (Z.eqb_neq _ 16)) by div_mod_lia. cbn.
  rewrite IH. cbn. f_equal. f_equal. rewrite <- (z2b_b2z c) at 3. apply z2b_eq. f_equal. div_mod_lia.
Qed.

(** Decoding inverts encoding on every byte string. *)
Theorem hex_roundtrip (data : bytes) : hex_decode (hex_encode data) = Ok data.
Proof.
  unfold hex_decode. rewrite len_hex_encode, Z.mul_comm, Z.mod_mul by lia. cbn.
  apply hex_decode_from_encode.
Qed.

Lemma hex_decode_from_bad pre c post :
  hex_to_int c = 16 -> len (pre ++ c :: post) mod 2 = 0 ->
  exists e, hex_decode_from (pre ++ c :: post) = Err e.
Proof.
  intros Hc. remember (length pre) as n eqn:Hn. revert pre Hn.
  induction n as [n IH] using lt_wf_ind. intros pre Hn Hl.
  destruct pre as [|h [|l pre]].
  - destruct post as [|l post]; [by vm_compute in Hl|]. cbn. rewrite Hc. cbn. eauto.
  - cbn. rewrite Hc. rewrite orb_true_r. eauto.
  - cbn [app hex_decode_from].
    destruct ((hex_to_int h =? 16) || (hex_to_int l =? 16)); [eauto|].
    destruct (IH (length pre) ltac:(cbn in Hn; lia) pre eq_refl) as [e ->]; [|cbn; eauto].
    cbn [app] in Hl. rewrite !len_cons in Hl. div_mod_lia.
Qed.

(** A string with a character that is no hexadecimal digit is refused. *)
Lemma hex_decode_bad pre c post :
  hex_to_int c = 16 -> exists e, hex_decode (pre ++ c :: post) = Err e.
Proof.
  intros Hc. unfold hex_decode.
  destruct (Z.eqb_spec (len (pre ++ c :: post) mod 2) 0); cbn; [|eauto].
  by apply hex_decode_from_bad.
Qed.

(** * Base64: round trip *)

Lemma character_value u i :
  0 <= i < 64 -> table_value (get_character_table u) (nth_byte (get_characters u) i) = i.
Proof.
  intros Hi.
  assert (Hc : forallb (fun u => forallb (fun i =>
      table_value (get_character_table u) (nth_byte (get_characters u) i) =? i) (seqZ 0 64))
      [true; false] = true) by (vm_compute; reflexivity).
  rewrite forallb_forall in Hc.
  specialize (Hc u ltac:(destruct u; cbn; auto)). rewrite forallb_forall in Hc.
  apply Z.eqb_eq, Hc. apply list_elem_of_In, elem_of_seqZ. lia.
Qed.

Lemma equals_not_character u : table_value (get_character_table u) "="%byte = 64.
Proof. destruct u; vm_compute; reflexivity. Qed.

Lemma list_ind3 {A} (P : list A -> Prop) :
  P [] -> (forall a, P [a]) -> (forall a b, P [a; b]) ->
  (forall a b c l, P l -> P (a :: b :: c :: l)) -> forall l, P l.
Proof.
  intros H0 H1 H2 H3 l. induction l as [l IH] using (induction_ltof1 _ (@length A)).
  unfold ltof in IH. destruct l as [|a [|b [|c l]]]; auto. apply H3, IH. cbn. lia.
Qed.

(** The characters before the padding, and the number of padding signs. *)
Fixpoint base64_body (is_url : bool) (input : bytes) : bytes :=
  let characters := get_characters is_url in
  match input with
  | [] => []
  | [a] => take 2 (base64_encode_impl is_url [a])
  | [a; b] => take 3 (base64_encode_impl is_url [a; b])
  | a :: b :: d :: input => take 4 (base64_encode_impl is_url [a; b; d]) ++ base64_body is_url input
  end.

Definition base64_padding (is_url : bool) (input : bytes) : nat :=
  if is_url then 0%nat else
  match (length input mod 3)%nat with 1%nat => 2%nat | 2%nat => 1%nat | _ => 0%nat end.

Lemma base64_encode_body u input :
  base64_encode_impl u input = base64_body u input ++ replicate (base64_padding u input) "="%byte.
Proof.
  induction input as [|a|a b|a b c l IH] using list_ind3; try (destruct u; reflexivity).
  cbn -[nth_byte get_characters]. rewrite IH. unfold base64_padding.
  change (length (a :: b :: c :: l)) with (3 + length l)%nat.
  replace ((3 + length l) mod 3)%nat with (length l mod 3)%nat; [done|].
  rewrite <- Nat.Div0.add_mod_idemp_l. reflexivity.
Qed.

(** What a group of one, two or three bytes encodes to decodes back. *)
Lemma Z_group3 a b d :
  0 <= a < 256 -> 0 <= b < 256 -> 0 <= d < 256 ->
  Z.lor (Z.lor (Z.shiftl a 16) (Z.shiftl b 8)) d = a * 65536 + b * 256 + d.
Proof.
  intros. rewrite (Z_lor_add 16 (Z.shiftl a 16)), (Z_lor_add 8) by (bits_to_arith; div_mod_lia).
  bits_to_arith. lia.
Qed.

Lemma Z_group4 v1 v2 v3 v4 :
  0 <= v1 < 64 -> 0 <= v2 < 64 -> 0 <= v3 < 64 -> 0 <= v4 < 64 ->
  Z.lor (Z.lor (Z.lor (Z.shiftl v1 18) (Z.shiftl v2 12)) (Z.shiftl v3 6)) v4 =
  v1 * 262144 + v2 * 4096 + v3 * 64 + v4.
Proof.
  intros.
  rewrite (Z_lor_add 18 (Z.shiftl v1 18)), (Z_lor_add 12 (_ + _)), (Z_lor_add 6)
    by (bits_to_arith; div_mod_lia).
  bits_to_arith. lia.
Qed.

(** The sextets of a group, and the bytes they give back. *)
Lemma sextet_value u c :
  table_value (get_character_table u) (nth_byte (get_characters u) (c mod 64)) = c mod 64.
Proof. apply character_value. apply Z.mod_pos_bound. lia. Qed.

Lemma sextet_top u a c :
  0 <= a < 256 -> a * 65536 <= c < (a + 1) * 65536 ->
  table_value (get_character_table u) (nth_byte (get_characters u) (c / 262144)) = c / 262144.
Proof. intros. apply character_value. div_mod_lia. Qed.

Lemma decode_group3 u a b d rest :
  do_base64_decode_impl (get_character_table u)
    (take 4 (base64_encode_impl u [a; b; d]) ++ rest) =
  (fun r => a :: b :: d :: r) <$> do_base64_decode_impl (get_character_table u) rest.
Proof.
  pose proof (b2z_range a) as Ha. pose proof (b2z_range b) as Hb. pose proof (b2z_range d) as Hd.
  cbn -[nth_byte get_characters get_character_table table_value Z.shiftl Z.shiftr Z.land Z.lor].
  rewrite (Z_group3 _ _ _ Ha Hb Hd).
  set (c := b2z a * 65536 + b2z b * 256 + b2z d). shr_to_arith.
  rewrite !sextet_value, (sextet_top u (b2z a) c) by lia.
  rewrite !(proj2 (Z.eqb_neq _ 64)) by div_mod_lia. cbn [orb].
  pose proof (Z_group4 (c / 262144) (c / 4096 mod 64) (c / 64 mod 64) (c mod 64)
    ltac:(div_mod_lia) ltac:(div_mod_lia) ltac:(div_mod_lia) ltac:(div_mod_lia)) as ->.
  replace (c / 262144 * 262144 + c / 4096 mod 64 * 4096 + c / 64 mod 64 * 64 + c mod 64) with c
    by div_mod_lia.
  rewrite ?Z.shiftr_div_pow2 by lia. change (2 ^ 16) with 65536. change (2 ^ 8) with 256.
  rewrite (z2b_byte a), (z2b_byte b), (z2b_byte d) by div_mod_lia. done.
Qed.

Lemma decode_tail2 u a b :
  do_base64_decode_impl (get_character_table u) (take 3 (base64_encode_impl u [a; b])) = Ok [a; b].
Proof.
  pose proof (b2z_range a) as Ha. pose proof (b2z_range b) as Hb.
  cbn -[nth_byte get_characters get_character_table table_value Z.shiftl Z.shiftr Z.land Z.lor].
  pose proof (Z_group3 (b2z a) (b2z b) 0 Ha Hb ltac:(lia)) as E. rewrite Z.lor_0_r in E. rewrite E.
  set (c := b2z a * 65536 + b2z b * 256 + 0). shr_to_arith.
  rewrite !sextet_value, (sextet_top u (b2z a) c) by lia.
  rewrite !(proj2 (Z.eqb_neq _ 64)) by div_mod_lia. cbn [orb].
  pose proof (Z_group4 (c / 262144) (c / 4096 mod 64) (c / 64 mod 64) 0
    ltac:(div_mod_lia) ltac:(div_mod_lia) ltac:(div_mod_lia) ltac:(lia)) as E4.
  rewrite Z.lor_0_r in E4. rewrite E4.
  replace (c / 262144 * 262144 + c / 4096 mod 64 * 4096 + c / 64 mod 64 * 64 + 0) with c
    by div_mod_lia.
  rewrite ?land_255.
  rewrite (proj2 (Z.eqb_eq (c mod 256) 0)) by div_mod_lia. cbn [negb].
  rewrite ?Z.shiftr_div_pow2 by lia. change (2 ^ 16) with 65536. change (2 ^ 8) with 256.
  rewrite (z2b_byte a), (z2b_byte b) by div_mod_lia. done.
Qed.

Lemma decode_tail1 u a :
  do_base64_decode_impl (get_character_table u) (take 2 (base64_encode_impl u [a])) = Ok [a].
Proof.
  pose proof (b2z_range a) as Ha.
  cbn -[nth_byte get_characters get_character_table table_value Z.shiftl Z.shiftr Z.land Z.lor].
  rewrite (Z.shiftl_mul_pow2 (b2z a)) by lia. change (2 ^ 16) with 65536.
  set (c := b2z a * 65536). shr_to_arith.
  rewrite !sextet_value, (sextet_top u (b2z a) c) by lia.
  rewrite !(proj2 (Z.eqb_neq _ 64)) by div_mod_lia. cbn [orb].
  pose proof (Z_group4 (c / 262144) (c / 4096 mod 64) 0 0
    ltac:(div_mod_lia) ltac:(div_mod_lia) ltac:(lia) ltac:(lia)) as E4.
  rewrite Z.shiftl_0_l, !Z.lor_0_r in E4. rewrite E4.
  replace (c / 262144 * 262144 + c / 4096 mod 64 * 4096 + 0 * 64 + 0) with c by div_mod_lia.
  rewrite ?land_65535.
  rewrite (proj2 (Z.eqb_eq (c mod 65536) 0)) by div_mod_lia. cbn [negb].
  rewrite ?Z.shiftr_div_pow2 by lia. change (2 ^ 16) with 65536.
  rewrite (z2b_byte a) by div_mod_lia. done.
Qed.

Lemma decode_body u input :
  do_base64_decode_impl (get_character_table u) (base64_body u input) = Ok input.
Proof.
  induction input as [|a|a b|a b d l IH] using list_ind3; [done| | |].
  - apply decode_tail1.
  - apply decode_tail2.
  - change (base64_body u (a :: b :: d :: l))
      with (take 4 (base64_encode_impl u [a; b; d]) ++ base64_body u l).
    by rewrite decode_group3, IH.
Qed.

(** The length of the body, and its relation to the padding. *)
Lemma base64_body_len u input :
  len (base64_body u input) = len input / 3 * 4 + match len input mod 3 with 0 => 0 | 1 => 2 | _ => 3 end
  /\ Z.of_nat (base64_padding false input) = match len input mod 3 with 0 => 0 | 1 => 2 | _ => 1 end.
Proof.
  induction input as [|a|a b|a b d l IH] using list_ind3; [done..|].
  change (base64_body u (a :: b :: d :: l))
    with (take 4 (base64_encode_impl u [a; b; d]) ++ base64_body u l).
  destruct IH as [IH1 IH2]. rewrite len_app, IH1.
  replace (len (a :: b :: d :: l)) with (len l + 1 * 3) by (rewrite !len_cons; lia).
  rewrite Z.div_add, Z.mod_add by lia. split.
  - cbn -[Z.mul]. unfold len at 1. cbn [length take]. lia.
  - rewrite <- IH2. unfold base64_padding. change (length (a :: b :: d :: l)) with (3 + length l)%nat.
    rewrite <- Nat.Div0.add_mod_idemp_l. done.
Qed.

Lemma strip_equals_stop r n :
  (forall c, head r = Some c -> c <> "="%byte) -> strip_equals r n = (reverse r, n).
Proof.
  destruct r as [|c r]; intros Hc; [done|]. cbn. rewrite bool_decide_false; [done|]. by apply Hc.
Qed.

Lemma strip_equals_padding k r n :
  (forall c, head r = Some c -> c <> "="%byte) ->
  strip_equals (replicate k "="%byte ++ r) n = (reverse r, n + Z.of_nat k).
Proof.
  intros Hc. revert n. induction k as [|k IH]; intros n; cbn [replicate app].
  - rewrite strip_equals_stop by done. f_equal. lia.
  - cbn. rewrite IH. f_equal. lia.
Qed.

(** The body holds characters of the alphabet only. *)
Lemma base64_body_chars u input :
  Forall (fun c => exists i, 0 <= i < 64 /\ c = nth_byte (get_characters u) i) (base64_body u input).
Proof.
  assert (Hm : forall z, exists i, 0 <= i < 64 /\
    nth_byte (get_characters u) (z mod 64) = nth_byte (get_characters u) i).
  { intros z. exists (z mod 64). split; [apply Z.mod_pos_bound; lia | done]. }
  assert (Ht : forall a c, 0 <= a < 256 -> a * 65536 <= c < (a + 1) * 65536 -> exists i, 0 <= i < 64 /\
    nth_byte (get_characters u) (c / 262144) = nth_byte (get_characters u) i).
  { intros a c ? ?. exists (c / 262144). split; [div_mod_lia | done]. }
  induction input as [|a|a b|a b d l IH] using list_ind3; [constructor| | |];
    pose proof (b2z_range a) as Ha; try pose proof (b2z_range b) as Hb;
    try pose proof (b2z_range d) as Hd;
    cbn -[nth_byte get_characters Z.shiftl Z.shiftr Z.land Z.lor].
  - rewrite (Z.shiftl_mul_pow2 (b2z a)) by lia. bits_to_arith.
    repeat constructor; eauto. apply (Ht (b2z a)); lia.
  - pose proof (Z_group3 (b2z a) (b2z b) 0 Ha Hb ltac:(lia)) as E. rewrite Z.lor_0_r in E.
    rewrite E. bits_to_arith. repeat constructor; eauto. apply (Ht (b2z a)); lia.
  - rewrite (Z_group3 _ _ _ Ha Hb Hd). bits_to_arith.
    repeat (constructor; [solve [eauto | apply (Ht (b2z a)); lia]|]). done.
Qed.

Lemma base64_body_last u input c : last (base64_body u input) = Some c -> c <> "="%byte.
Proof.
  intros Hl ->. pose proof (base64_body_chars u input) as Hf. rewrite Forall_forall in Hf.
  apply last_Some_elem_of in Hl. destruct (Hf _ Hl) as (i & Hi & E).
  pose proof (equals_not_character u) as Hn. rewrite E, character_value in Hn; lia.
Qed.

Lemma drop_padding_encode u input :
  base64_drop_padding u (base64_encode_impl u input) = Ok (base64_body u input).
Proof.
  unfold base64_drop_padding. rewrite base64_encode_body, reverse_app.
  rewrite reverse_replicate, strip_equals_padding.
  2: { intros c Hc. rewrite head_reverse in Hc. by eapply base64_body_last. }
  rewrite reverse_involutive, Z.add_0_l.
  destruct (base64_body_len u input) as [Hl Hp].
  pose proof (Z.mod_pos_bound (len input) 3 ltac:(lia)) as Hm.
  assert (Hc : len input mod 3 = 0 \/ len input mod 3 = 1 \/ len input mod 3 = 2) by lia.
  rewrite !land_3, Hl.
  assert (Hpu : Z.of_nat (base64_padding u input) = if u then 0 else
    match len input mod 3 with 0 => 0 | 1 => 2 | _ => 1 end) by (destruct u; done).
  rewrite Hpu.
  clear Hl Hp Hpu. generalize (len input / 3). intros q.
  destruct Hc as [E|[E|E]]; rewrite E; clear E; destruct u; cbn [negb orb andb];
    repeat match goal with
    | |- context [?a =? ?b] =>
        destruct (Z.eqb_spec a b); try (exfalso; div_mod_lia); cbn [negb orb andb]
    end; done.
Qed.

Lemma decoded_size_body u input : decoded_size (base64_body u input) = len input.
Proof.
  unfold decoded_size. rewrite land_3. destruct (base64_body_len u input) as [-> _].
  pose proof (Z.mod_pos_bound (len input) 3 ltac:(lia)).
  assert (Hc : len input mod 3 = 0 \/ len input mod 3 = 1 \/ len input mod 3 = 2) by lia.
  destruct Hc as [E|[E|E]]; rewrite E; div_mod_lia.
Qed.

(** Decoding inverts encoding, for base64 with its padding and for base64url
    without, and the decoder's output buffer has exactly the size it fills. *)
Theorem base64_roundtrip (is_url : bool) (data : bytes) :
  base64_decode_impl is_url (base64_encode_impl is_url data) = Ok data.
Proof.
  unfold base64_decode_impl. rewrite drop_padding_encode. cbn.
  rewrite decode_body. cbn. rewrite decoded_size_body.
  rewrite (proj2 (Z.leb_le _ _)) by lia. cbn.
  by rewrite Z.sub_diag, app_nil_r.
Qed.

(** * The validity test agrees with the decoder *)

Lemma list_ind4 {A} (P : list A -> Prop) :
  P [] -> (forall a, P [a]) -> (forall a b, P [a; b]) -> (forall a b c, P [a; b; c]) ->
  (forall a b c d l, P l -> P (a :: b :: c :: d :: l)) -> forall l, P l.
Proof.
  intros H0 H1 H2 H3 H4 l. induction l as [l IH] using (induction_ltof1 _ (@length A)).
  unfold ltof in IH. destruct l as [|a [|b [|c [|d l]]]]; auto. apply H4, IH. cbn. lia.
Qed.

Lemma table_value_range u c : 0 <= table_value (get_character_table u) c <= 64.
Proof.
  assert (Hc : forallb (fun c => (0 <=? table_value (get_character_table u) c)
      && (table_value (get_character_table u) c <=? 64)) all_bytes = true)
    by (destruct u; vm_compute; reflexivity).
  pose proof (byte_forall _ Hc c) as H. cbn beta in H. to_prop. lia.
Qed.

(** The tests of [is_base64_impl] on a string without padding. *)
Definition groups_ok (table : list Z) (s : bytes) : bool :=
  negb (existsb (fun c => table_value table c =? 64) s) &&
  negb ((len s mod 4 =? 2) && negb (table_value table (nth_byte s (len s - 1)) mod 16 =? 0)) &&
  negb ((len s mod 4 =? 3) && negb (table_value table (nth_byte s (len s - 1)) mod 4 =? 0)).

Lemma nth_byte_cons4 a b c d (s : bytes) :
  s <> [] -> nth_byte (a :: b :: c :: d :: s) (len (a :: b :: c :: d :: s) - 1)
  = nth_byte s (len s - 1).
Proof.
  intros Hs. unfold nth_byte, len. destruct s as [|e s]; [done|].
  cbn [length]. replace (Z.to_nat (Z.of_nat (S (S (S (S (S (length s)))))) - 1))
    with (S (S (S (S (Z.to_nat (Z.of_nat (S (length s)) - 1)))))) by lia. done.
Qed.

Lemma groups_ok_cons4 t a b c d s :
  groups_ok t (a :: b :: c :: d :: s) =
  negb ((table_value t a =? 64) || (table_value t b =? 64) || (table_value t c =? 64)
        || (table_value t d =? 64)) && groups_ok t s.
Proof.
  unfold groups_ok. replace (len (a :: b :: c :: d :: s) mod 4) with (len s mod 4)
    by (rewrite !len_cons; div_mod_lia).
  destruct s as [|e s].
  - change (len (@nil byte) mod 4) with 0. cbn [existsb Z.eqb andb negb].
    repeat match goal with |- context [table_value t ?x =? 64] => destruct (table_value t x =? 64) end;
      done.
  - rewrite nth_byte_cons4 by done. cbn [existsb].
    repeat match goal with |- context [table_value t ?x =? 64] => destruct (table_value t x =? 64) end;
      cbn; try done.
Qed.

Ltac case_values :=
  repeat match goal with
  | |- context [table_value ?t ?c =? 64] => destruct (Z.eqb_spec (table_value t c) 64); cbn [orb negb andb]
  end.

Lemma do_decode_ok u s :
  len s mod 4 <> 1 ->
  match do_base64_decode_impl (get_character_table u) s with
  | Ok r => groups_ok (get_character_table u) s = true /\ len r = decoded_size s
  | Err _ => groups_ok (get_character_table u) s = false
  | Crash => False
  end.
Proof.
  set (t := get_character_table u). unfold decoded_size. rewrite land_3.
  assert (Hv : forall x, table_value t x <> 64 -> 0 <= table_value t x < 64).
  { intros x ?. pose proof (table_value_range u x). unfold t in *. lia. }
  clearbody t.
  induction s as [|a|a b|a b c|a b c d s IH] using list_ind4; intros Hm.
  - done.
  - by destruct Hm.
  - unfold groups_ok. cbn -[table_value nth_byte len Z.shiftl Z.lor Z.land Z.shiftr Z.modulo]. case_values; try done.
    pose proof (Z_group4 (table_value t a) (table_value t b) 0 0) as E.
    rewrite Z.shiftl_0_l, !Z.lor_0_r in E. rewrite E by (auto; lia). rewrite land_65535.
    change (len [a; b] mod 4 =? 2) with true. change (len [a; b] mod 4 =? 3) with false.
    change (nth_byte [a; b] (len [a; b] - 1)) with b. cbn [andb negb].
    destruct (Z.eqb_spec (table_value t b mod 16) 0) as [E1|E1].
    + rewrite (proj2 (Z.eqb_eq _ 0)) by div_mod_lia. by split.
    + rewrite (proj2 (Z.eqb_neq _ 0)) by div_mod_lia. by cbn.
  - unfold groups_ok. cbn -[table_value nth_byte len Z.shiftl Z.lor Z.land Z.shiftr Z.modulo]. case_values; try done.
    pose proof (Z_group4 (table_value t a) (table_value t b) (table_value t c) 0) as E.
    rewrite !Z.lor_0_r in E. rewrite E by (auto; lia). rewrite ?land_255.
    change (len [a; b; c] mod 4 =? 2) with false. change (len [a; b; c] mod 4 =? 3) with true.
    change (nth_byte [a; b; c] (len [a; b; c] - 1)) with c. cbn [andb negb].
    destruct (Z.eqb_spec (table_value t c mod 4) 0) as [E1|E1].
    + rewrite (proj2 (Z.eqb_eq _ 0)) by div_mod_lia. by split.
    + rewrite (proj2 (Z.eqb_neq _ 0)) by div_mod_lia. by cbn.
  - rewrite !len_cons in *. rewrite groups_ok_cons4.
    cbn [do_base64_decode_impl].
    destruct (_ || _ || _ || _); cbn [negb andb]; [done|].
    specialize (IH ltac:(intros ?; div_mod_lia)).
    destruct (do_base64_decode_impl t s) as [r|e|]; cbn; [|done|done].
    destruct IH as [Hg Hl]. split; [done|]. rewrite !len_cons, Hl.
    replace ((1 + (1 + (1 + (1 + len s)))) mod 4) with (len s mod 4) by div_mod_lia.
    div_mod_lia.
Qed.

Lemma strip_equals_nonneg r n : 0 <= n -> 0 <= (strip_equals r n).2.
Proof.
  revert n; induction r as [|c r IH]; intros n Hn; cbn; [done|].
  case_bool_decide; [apply IH; lia | done].
Qed.

(** [is_base64]/[is_base64url] accept exactly the strings that decode, and the
    decoder never writes outside its buffer. *)
Theorem is_base64_decodable (is_url : bool) (s : bytes) :
  is_base64_impl is_url s = is_ok (base64_decode_impl is_url s) /\
  base64_decode_impl is_url s <> Crash.
Proof.
  unfold is_base64_impl, base64_decode_impl, base64_drop_padding.
  pose proof (strip_equals_nonneg (reverse s) 0 ltac:(lia)) as Hp.
  destruct (strip_equals (reverse s) 0) as [b p]. cbn in Hp. rewrite !land_3, land_15.
  destruct (Z.leb_spec 3 p); [done|].
  destruct ((negb is_url || (0 <? p)) && negb ((len b + p) mod 4 =? 0)) eqn:E1; [done|].
  destruct (is_url && (len b mod 4 =? 1)) eqn:E2; [done|].
  cbn -[nth_byte len table_value get_character_table].
  assert (Hne : len b mod 4 <> 1).
  { intros Hone. destruct is_url; cbn in E1, E2; [to_prop; lia|]. to_prop. div_mod_lia. }
  pose proof (do_decode_ok is_url b Hne) as Hd.
  destruct (do_base64_decode_impl _ b) as [r|e|];
    cbn -[nth_byte len table_value get_character_table]; [| |done].
  - destruct Hd as [Hg Hl]. unfold groups_ok in Hg. rewrite Hl, Z.leb_refl.
    cbn -[nth_byte len table_value get_character_table]. split; [|done].
    apply andb_prop in Hg as [Hg H3]. apply andb_prop in Hg as [H1 H2]. to_prop.
    by rewrite H1, H2, H3.
  - split; [|done]. unfold groups_ok in Hd.
    destruct (existsb _ b) eqn:X1; [reflexivity|].
    destruct ((len b mod 4 =? 2) && _) eqn:X2; [reflexivity|].
    destruct ((len b mod 4 =? 3) && _) eqn:X3; [reflexivity|]. done.
Qed.
