(* ===== verification/Tl.v ===== *)
(** The binary format of TL: [tdutils/td/utils/tl_parsers.h], [tl_parsers.cpp]
    and [tl_storers.h].

    [TlParser] reads through a pointer: the model keeps the object that the
    pointer points into, the message or the 64 zero bytes of [empty_data], and
    the position in it; a read outside of the object is [Crash].  A failed
    parser is moved to [empty_data], so that the unchecked reads that follow
    stay inside of an object. *)
From S2P Require Import Prelude Bytes.
#[local] Open Scope Z_scope.

(** * [TlParser] *)

Definition empty_data : bytes := zeros 64.

Definition max_size_t : Z := 2 ^ 64 - 1.

Record tl_parser := mk_parser {
  source : bytes;
  position : Z;
  data_len : Z;
  left_len : Z;
  error : option string;
  error_pos : Z;
}.

Definition new_parser (slice : bytes) : tl_parser := mk_parser slice 0 (len slice) (len slice) None max_size_t.

Definition set_error (message : string) (p : tl_parser) : outcome tl_parser :=
  match error p with
  | None => Ok (mk_parser empty_data 0 0 0 (Some message) (data_len p - left_len p))
  | Some _ =>
      _ ← check (negb (error_pos p =? max_size_t) && (data_len p =? 0) && (left_len p =? 0));
      Ok (mk_parser empty_data 0 (data_len p) (left_len p) (error p) (error_pos p))
  end.

Definition check_len (n : Z) (p : tl_parser) : outcome tl_parser :=
  if left_len p <? n then set_error "Not enough data to read" p
  else Ok (mk_parser (source p) (position p) (data_len p) (left_len p - n) (error p) (error_pos p)).

(** [memcpy] of [n] bytes from [data + offset]. *)
Definition peek (offset n : Z) (p : tl_parser) : outcome bytes :=
  _ ← check ((0 <=? position p + offset) && (position p + offset + n <=? len (source p)));
  Ok (substr (position p + offset) n (source p)).

Definition advance (n : Z) (p : tl_parser) : tl_parser :=
  mk_parser (source p) (position p + n) (data_len p) (left_len p) (error p) (error_pos p).

Definition fetch_unsafe (n : Z) (p : tl_parser) : outcome (bytes * tl_parser) :=
  x ← peek 0 n p; Ok (x, advance n p).

(** [fetch_binary<T>] with [sizeof(T) = n]. *)
Definition fetch_binary (n : Z) (p : tl_parser) : outcome (bytes * tl_parser) :=
  p ← check_len n p; fetch_unsafe n p.

Definition fetch_int (p : tl_parser) : outcome (Z * tl_parser) :=
  r ← fetch_binary 4 p; Ok (int32 (le_load r.1), r.2).

Definition int64 (z : Z) : Z := (z + 2 ^ 63) mod 2 ^ 64 - 2 ^ 63.

Definition fetch_long (p : tl_parser) : outcome (Z * tl_parser) :=
  r ← fetch_binary 8 p; Ok (int64 (le_load r.1), r.2).

Definition align_down (n : Z) : Z := Z.shiftl (Z.shiftr n 2) 2.

Definition failed (p : tl_parser) : bool := match error p with Some _ => true | None => false end.

(** The end of [fetch_string]: the bytes of the string, [offset] behind the
    pointer at its first byte. *)
Definition fetch_bytes (begin_offset result_len aligned_len header : Z) (p : tl_parser)
  : outcome (bytes * tl_parser) :=
  let q := advance header p in
  q ← check_len aligned_len q;
  if failed q then Ok ([], q)
  else result ← peek begin_offset result_len p; Ok (result, advance aligned_len q).

Definition fetch_string (p : tl_parser) : outcome (bytes * tl_parser) :=
  p ← check_len 4 p;
  b ← peek 0 1 p;
  let result_len := le_load b in
  if result_len <? 254 then fetch_bytes 1 result_len (align_down result_len) 4 p
  else if result_len =? 254 then
    b ← peek 1 3 p;
    let result_len := le_load b in
    fetch_bytes 4 result_len (align_down (result_len + 3)) 4 p
  else
    p ← check_len 4 p;
    b ← peek 1 7 p;
    let result_len := le_load b in
    if max_size_t - 3 <? result_len then
      p ← set_error "Too big string found" p; Ok ([], p)
    else fetch_bytes 8 result_len (align_down (result_len + 3)) 8 p.

Definition fetch_string_raw (size : Z) (p : tl_parser) : outcome (bytes * tl_parser) :=
  q ← check_len size p;
  if failed q then Ok ([], q)
  else result ← peek 0 size q; Ok (result, advance size q).

Definition fetch_end (p : tl_parser) : outcome tl_parser :=
  if left_len p =? 0 then Ok p else set_error "Too much data to fetch" p.

(** * The storers *)

(** [TlStorerUnsafe::store_string]: what is written; a string of 2^32 bytes or
    more ends the process. *)
Definition store_string (s : bytes) : outcome bytes :=
  let n := len s in
  if n <? 254 then
    Ok ([z2b n] ++ s ++ zeros ((- (n + 1)) mod 4))
  else if n <? 2 ^ 24 then
    Ok ([z2b 254; z2b (Z.land n 255); z2b (Z.land (Z.shiftr n 8) 255); z2b (Z.shiftr n 16)]
        ++ s ++ zeros ((- n) mod 4))
  else if n <? 2 ^ 32 then
    Ok ([z2b 255; z2b (Z.land n 255); z2b (Z.land (Z.shiftr n 8) 255); z2b (Z.land (Z.shiftr n 16) 255);
         z2b (Z.land (Z.shiftr n 24) 255); z2b 0; z2b 0; z2b 0] ++ s ++ zeros ((- n) mod 4))
  else Crash.

(** [TlStorerCalcLength::store_string]. *)
Definition calc_string (s : bytes) : Z :=
  let add := len s in
  let add := if add <? 254 then add + 1 else if add <? 2 ^ 24 then add + 4 else add + 8 in
  Z.land (add + 3) (-4).

(** The values that generated code stores and fetches. *)
Inductive tl_value :=
  | TlInt (x : Z)
  | TlLong (x : Z)
  | TlBinary (x : bytes)
  | TlString (s : bytes).

Definition store_value (v : tl_value) : outcome bytes :=
  match v with
  | TlInt x => Ok (le_store 4 x)
  | TlLong x => Ok (le_store 8 x)
  | TlBinary x => Ok x
  | TlString s => store_string s
  end.

Definition calc_value (v : tl_value) : Z :=
  match v with
  | TlInt _ => 4
  | TlLong _ => 8
  | TlBinary x => len x
  | TlString s => calc_string s
  end.

(** [tl_store_unsafe] and [tl_calc_length] of an object with these fields. *)
Fixpoint tl_store_unsafe (vs : list tl_value) : outcome bytes :=
  match vs with
  | [] => Ok []
  | v :: vs => x ← store_value v; rest ← tl_store_unsafe vs; Ok (x ++ rest)
  end.

Definition tl_calc_length (vs : list tl_value) : Z := foldl (fun n v => n + calc_value v) 0 vs.

(** The calls of a client of the parser. *)
Inductive fetch := FetchInt | FetchLong | FetchBinary (n : Z) | FetchString | FetchRaw (n : Z).

Definition fetch_value (f : fetch) (p : tl_parser) : outcome (tl_value * tl_parser) :=
  match f with
  | FetchInt => r ← fetch_int p; Ok (TlInt r.1, r.2)
  | FetchLong => r ← fetch_long p; Ok (TlLong r.1, r.2)
  | FetchBinary n => r ← fetch_binary n p; Ok (TlBinary r.1, r.2)
  | FetchString => r ← fetch_string p; Ok (TlString r.1, r.2)
  | FetchRaw n => r ← fetch_string_raw n p; Ok (TlBinary r.1, r.2)
  end.

Fixpoint fetch_values (fs : list fetch) (p : tl_parser) : outcome (list tl_value * tl_parser) :=
  match fs with
  | [] => Ok ([], p)
  | f :: fs => r ← fetch_value f p; rest ← fetch_values fs r.2; Ok (r.1 :: rest.1, rest.2)
  end.

(** [fetch_result]: the fields, then [fetch_end]. *)
Definition fetch_all (fs : list fetch) (message : bytes) : outcome (list tl_value * tl_parser) :=
  r ← fetch_values fs (new_parser message); p ← fetch_end r.2; Ok (r.1, p).

(** * A parser at a position of a message *)

Definition parsing (pre rest : bytes) : tl_parser :=
  mk_parser (pre ++ rest) (len pre) (len (pre ++ rest)) (len rest) None max_size_t.

(** A parser that has failed: no read can leave [empty_data] any more. *)
Record dead (p : tl_parser) : Prop := {
  dead_source : source p = empty_data;
  dead_len : data_len p = 0;
  dead_left : left_len p = 0;
  dead_error : exists e, error p = Some e;
  dead_pos : error_pos p <> max_size_t;
}.

Lemma land_minus4 x : Z.land x (-4) = x - x mod 4.
Proof.
  change (-4) with (Z.lnot 3). rewrite <- Z.ldiff_land. change 3 with (Z.ones 2).
  rewrite Z.ldiff_ones_r, Z.shiftr_div_pow2, Z.shiftl_mul_pow2 by lia. change (2 ^ 2) with 4. div_mod_lia.
Qed.

Lemma align_down_eq x : align_down x = x - x mod 4.
Proof.
  unfold align_down. rewrite Z.shiftr_div_pow2, Z.shiftl_mul_pow2 by lia. change (2 ^ 2) with 4. div_mod_lia.
Qed.

Lemma new_parser_eq message : new_parser message = parsing [] message.
Proof. reflexivity. Qed.

(** A working parser in the middle of a fetch, and the one that has run out of
    bytes. *)
Definition at_pos (m : bytes) (pos left : Z) : tl_parser := mk_parser m pos (len m) left None max_size_t.

Definition run_out (at_ : Z) : tl_parser := mk_parser empty_data 0 0 0 (Some "Not enough data to read") at_.

Lemma check_len_at n m pos left :
  check_len n (at_pos m pos left) = Ok (if left <? n then run_out (len m - left) else at_pos m pos (left - n)).
Proof. unfold check_len, at_pos. cbn. by destruct (left <? n). Qed.

Lemma peek_at off n pre rest left :
  0 <= off -> 0 <= n -> off + n <= len rest ->
  peek off n (at_pos (pre ++ rest) (len pre) left) = Ok (substr off n rest).
Proof.
  intros Ho Hn Hl. unfold peek, at_pos. cbn [position source].
  rewrite (proj2 (Z.leb_le _ _)), (proj2 (Z.leb_le _ _)) by len_solve. cbn [andb check]. rewrite Ok_bind.
  f_equal. unfold substr. replace (Z.to_nat (len pre + off)) with (length pre + Z.to_nat off)%nat.
  2:{ unfold len. lia. }
  by rewrite <- drop_drop, drop_app_length.
Qed.

Lemma advance_at n m pos left : advance n (at_pos m pos left) = at_pos m (pos + n) left.
Proof. reflexivity. Qed.

Lemma run_out_dead at_ : at_ <> max_size_t -> dead (run_out at_).
Proof. split; cbn; eauto. Qed.

Lemma at_pos_parsing pre rest n :
  0 <= n <= len rest ->
  at_pos (pre ++ rest) (len pre + n) (len rest - n) = parsing (pre ++ truncate n rest) (substr_from n rest).
Proof.
  intros Hn. unfold parsing, at_pos, truncate, substr_from.
  rewrite <- app_assoc, take_drop. f_equal; len_solve.
Qed.

Lemma check_len_dead n p :
  dead p -> 0 <= n -> exists q, check_len n p = Ok q /\ dead q /\ (1 <= n -> position q = 0) /\
    (n = 0 -> position q = position p).
Proof.
  destruct p as [s pos dl left [e|] ep]; intros [Hs Hd Hl [e' He] Hp] Hn; cbn in *; [|done].
  unfold check_len, set_error. cbn. subst. rewrite (proj2 (Z.eqb_neq ep max_size_t)) by done. cbn.
  destruct (Z.ltb_spec 0 n).
  - eexists. split; [done|]. split; [by split; eauto|]. split; [done|lia].
  - eexists. split; [done|]. split; [split; cbn; eauto; lia|]. split; [lia|done].
Qed.

Lemma peek_dead off n p :
  dead p -> position p = 0 -> 0 <= off -> 0 <= n -> off + n <= 64 -> peek off n p = Ok (zeros n).
Proof.
  intros [Hs _ _ _ _] Hp Ho Hn Hl. unfold peek. rewrite Hs, Hp.
  rewrite (proj2 (Z.leb_le _ _)), (proj2 (Z.leb_le _ _)) by (unfold empty_data; rewrite ?len_zeros; lia).
  cbn [andb check]. rewrite Ok_bind. f_equal. unfold substr, empty_data, zeros.
  rewrite drop_replicate, take_replicate. f_equal. lia.
Qed.

Lemma advance_dead n p : dead p -> dead (advance n p).
Proof. intros [? ? ? ? ?]. by split. Qed.

Definition fetch_ok (f : fetch) : Prop :=
  match f with
  | FetchBinary n => 1 <= n <= 64
  | FetchRaw n => 0 <= n
  | _ => True
  end.

Lemma fetch_binary_dead n p :
  dead p -> 1 <= n <= 64 -> exists q, fetch_binary n p = Ok (zeros n, q) /\ dead q.
Proof.
  intros Hd Hn. destruct (check_len_dead n p Hd) as (q & Hq & Hdq & Hpos & _); [lia|].
  unfold fetch_binary, fetch_unsafe. rewrite Hq, Ok_bind, peek_dead by (done || lia || (apply Hpos; lia)).
  rewrite Ok_bind. eexists. split; [done|]. by apply advance_dead.
Qed.

(** A failed parser stays failed and reads inside of [empty_data] only. *)
Lemma fetch_dead f p : dead p -> fetch_ok f -> exists v q, fetch_value f p = Ok (v, q) /\ dead q.
Proof.
  intros Hd Hf. destruct f as [| |n| |n]; cbn [fetch_value fetch_ok] in *.
  - unfold fetch_int. destruct (fetch_binary_dead 4 p Hd) as (q & -> & Hq); [lia|]. rewrite !Ok_bind. eauto.
  - unfold fetch_long. destruct (fetch_binary_dead 8 p Hd) as (q & -> & Hq); [lia|]. rewrite !Ok_bind. eauto.
  - destruct (fetch_binary_dead n p Hd Hf) as (q & -> & Hq). rewrite !Ok_bind. eauto.
  - unfold fetch_string. destruct (check_len_dead 4 p Hd) as (q & -> & Hdq & Hpos & _); [lia|].
    rewrite Ok_bind, (peek_dead 0 1 q) by (done || lia || (apply Hpos; lia)). rewrite Ok_bind.
    change (le_load (zeros 1)) with 0. change (0 <? 254) with true.
    unfold fetch_bytes. change (align_down 0) with 0. cbv beta iota zeta.
    destruct (check_len_dead 0 (advance 4 q)) as (q' & -> & Hdq' & _ & _); [by apply advance_dead|lia|].
    rewrite Ok_bind. unfold failed. pose proof Hdq' as [_ _ _ [e ->] _]. rewrite Ok_bind. eauto.
  - unfold fetch_string_raw. destruct (check_len_dead n p Hd Hf) as (q & -> & Hdq & _ & _).
    rewrite Ok_bind. unfold failed. pose proof Hdq as [_ _ _ [e ->] _]. rewrite Ok_bind. eauto.
Qed.

(** * What a fetch reads *)

(** The string at the front of [s] and the number of bytes that it takes. *)
Definition read_string (s : bytes) : option (bytes * Z) :=
  let found begin_ n total := if len s <? total then None else Some (substr begin_ n s, total) in
  if len s <? 4 then None
  else
    let n := le_load (substr 0 1 s) in
    if n <? 254 then found 1 n (4 + align_down n)
    else if n =? 254 then let n := le_load (substr 1 3 s) in found 4 n (4 + align_down (n + 3))
    else if len s <? 8 then None
    else let n := le_load (substr 1 7 s) in found 8 n (8 + align_down (n + 3)).

Definition read_exact (n : Z) (s : bytes) : option (bytes * Z) :=
  if len s <? n then None else Some (truncate n s, n).

Definition read_value (f : fetch) (s : bytes) : option (tl_value * Z) :=
  match f with
  | FetchInt => prod_map TlInt id <$> (prod_map (fun x => int32 (le_load x)) id <$> read_exact 4 s)
  | FetchLong => prod_map TlLong id <$> (prod_map (fun x => int64 (le_load x)) id <$> read_exact 8 s)
  | FetchBinary n | FetchRaw n => prod_map TlBinary id <$> read_exact n s
  | FetchString => prod_map TlString id <$> read_string s
  end.

Fixpoint read_values (fs : list fetch) (s : bytes) : option (list tl_value * bytes) :=
  match fs with
  | [] => Some ([], s)
  | f :: fs =>
      r ← read_value f s;
      rest ← read_values fs (substr_from r.2 s);
      Some (r.1 :: rest.1, rest.2)
  end.

(** How the parser follows a reader. *)
Definition follows {A} (run : tl_parser -> outcome (A * tl_parser)) (read : bytes -> option (A * Z)) : Prop :=
  forall pre rest, len (pre ++ rest) < max_size_t ->
  match read rest with
  | Some (v, n) =>
      0 <= n <= len rest /\
      run (parsing pre rest) = Ok (v, parsing (pre ++ truncate n rest) (substr_from n rest))
  | None => exists v q, run (parsing pre rest) = Ok (v, q) /\ dead q
  end.

Lemma parsing_at pre rest : parsing pre rest = at_pos (pre ++ rest) (len pre) (len rest).
Proof. reflexivity. Qed.

Lemma fetch_binary_follows n : 1 <= n <= 64 -> follows (fetch_binary n) (read_exact n).
Proof.
  intros Hn pre rest Hlen. unfold fetch_binary, read_exact. rewrite parsing_at, check_len_at, Ok_bind.
  unfold fetch_unsafe. destruct (Z.ltb_spec (len rest) n).
  - rewrite peek_dead; [|apply run_out_dead; len_solve|done|lia..]. rewrite Ok_bind.
    do 2 eexists. split; [done|]. apply advance_dead, run_out_dead. len_solve.
  - split; [lia|]. rewrite peek_at by lia. rewrite Ok_bind, advance_at, substr_0. by rewrite at_pos_parsing by lia.
Qed.

Lemma fetch_string_raw_follows n : 0 <= n -> follows (fetch_string_raw n) (read_exact n).
Proof.
  intros Hn pre rest Hlen. unfold fetch_string_raw, read_exact. rewrite parsing_at, check_len_at, Ok_bind.
  destruct (Z.ltb_spec (len rest) n); cbn [failed error run_out at_pos].
  - do 2 eexists. split; [done|]. apply run_out_dead. len_solve.
  - split; [lia|]. fold (at_pos (pre ++ rest) (len pre) (len rest - n)).
    rewrite peek_at by lia. rewrite Ok_bind, advance_at, substr_0. by rewrite at_pos_parsing by lia.
Qed.

Lemma fetch_bytes_follows begin_ n aligned header pre rest :
  len (pre ++ rest) < max_size_t -> 0 <= n -> 0 <= begin_ -> 0 <= aligned -> 0 <= header <= len rest ->
  begin_ + n <= header + aligned ->
  let run := fetch_bytes begin_ n aligned header (at_pos (pre ++ rest) (len pre) (len rest - header)) in
  if len rest <? header + aligned then exists v q, run = Ok (v, q) /\ dead q
  else run = Ok (substr begin_ n rest,
                 parsing (pre ++ truncate (header + aligned) rest) (substr_from (header + aligned) rest)).
Proof.
  intros Hlen Hn Hb Ha Hh Hfit. unfold fetch_bytes. cbv zeta. rewrite advance_at, check_len_at, Ok_bind.
  destruct (Z.ltb_spec (len rest) (header + aligned)).
  - rewrite (proj2 (Z.ltb_lt _ _)) by lia. cbn [failed error run_out].
    do 2 eexists. split; [done|]. apply run_out_dead. len_solve.
  - rewrite (proj2 (Z.ltb_ge _ _)) by lia. cbn [failed error at_pos].
    fold (at_pos (pre ++ rest) (len pre) (len rest - header)).
    rewrite peek_at by lia. rewrite Ok_bind. fold (at_pos (pre ++ rest) (len pre + header) (len rest - header - aligned)).
    rewrite advance_at, <- at_pos_parsing by lia. do 3 f_equal; lia.
Qed.

Lemma le_load_substr off n s : 0 <= off -> 0 <= n -> 0 <= le_load (substr off n s) < 256 ^ n.
Proof.
  intros Ho Hn. pose proof (le_load_range (substr off n s)) as [H1 H2]. split; [done|].
  eapply Z.lt_le_trans; [exact H2|]. apply Z.pow_le_mono_r; [lia|]. unfold substr. len_solve.
Qed.

Lemma fetch_string_follows : follows fetch_string read_string.
Proof.
  intros pre rest Hlen. unfold fetch_string, read_string. rewrite parsing_at, check_len_at, Ok_bind.
  destruct (Z.ltb_spec (len rest) 4) as [Hshort|H4].
  { rewrite (peek_dead 0 1) by (done || lia || (apply run_out_dead; len_solve)). rewrite Ok_bind.
    change (le_load (zeros 1)) with 0. change (0 <? 254) with true. cbv beta iota zeta.
    unfold fetch_bytes. change (align_down 0) with 0. cbn. do 2 eexists. split; [done|].
    split; cbn; [done|done|done|eauto|len_solve]. }
  rewrite (peek_at 0 1) by lia. rewrite Ok_bind.
  pose proof (le_load_substr 0 1 rest) as Hb. set (b := le_load (substr 0 1 rest)) in *.
  cbv zeta. specialize (Hb ltac:(lia) ltac:(lia)).
  destruct (Z.ltb_spec b 254); [|destruct (Z.eqb_spec b 254)].
  - pose proof (fetch_bytes_follows 1 b (align_down b) 4 pre rest) as Hf.
    rewrite align_down_eq in *. specialize (Hf Hlen ltac:(lia) ltac:(lia) ltac:(div_mod_lia) ltac:(lia) ltac:(div_mod_lia)).
    cbv zeta in Hf. destruct (Z.ltb_spec (len rest) (4 + (b - b mod 4))); [done|]. split; [div_mod_lia|done].
  - rewrite (peek_at 1 3) by lia. rewrite Ok_bind.
    pose proof (le_load_substr 1 3 rest ltac:(lia) ltac:(lia)) as Hc. set (c := le_load (substr 1 3 rest)) in *.
    pose proof (fetch_bytes_follows 4 c (align_down (c + 3)) 4 pre rest) as Hf.
    rewrite align_down_eq in *. specialize (Hf Hlen ltac:(lia) ltac:(lia) ltac:(div_mod_lia) ltac:(lia) ltac:(div_mod_lia)).
    cbv zeta in Hf. destruct (Z.ltb_spec (len rest) (4 + (c + 3 - (c + 3) mod 4))); [done|]. split; [div_mod_lia|done].
  - rewrite check_len_at, Ok_bind.
    destruct (Z.ltb_spec (len rest) 8).
    { rewrite (proj2 (Z.ltb_lt _ _)) by lia.
      rewrite (peek_dead 1 7) by (done || lia || (apply run_out_dead; len_solve)). rewrite Ok_bind.
      change (le_load (zeros 7)) with 0. cbn. do 2 eexists. split; [done|].
      split; cbn; [done|done|done|eauto|len_solve]. }
    rewrite (proj2 (Z.ltb_ge (len rest - 4) 4)) by lia. rewrite (peek_at 1 7) by lia. rewrite Ok_bind.
    pose proof (le_load_substr 1 7 rest ltac:(lia) ltac:(lia)) as Hc. set (c := le_load (substr 1 7 rest)) in *.
    rewrite (proj2 (Z.ltb_ge (max_size_t - 3) c)) by (unfold max_size_t; lia).
    pose proof (fetch_bytes_follows 8 c (align_down (c + 3)) 8 pre rest) as Hf.
    rewrite align_down_eq in *. specialize (Hf Hlen ltac:(lia) ltac:(lia) ltac:(div_mod_lia) ltac:(lia) ltac:(div_mod_lia)).
    cbv zeta in Hf. replace (len rest - 4 - 4) with (len rest - 8) by lia.
    destruct (Z.ltb_spec (len rest) (8 + (c + 3 - (c + 3) mod 4))); [done|]. split; [div_mod_lia|done].
Qed.

Lemma follows_fmap {A B} (g : A -> B) run read :
  follows run read -> follows (fun p => r ← run p; Ok (g r.1, r.2)) (fun s => prod_map g id <$> read s).
Proof.
  intros Hf pre rest Hlen. specialize (Hf pre rest Hlen). destruct (read rest) as [[v n]|]; cbn.
  - destruct Hf as [Hn ->]. split; [done|]. reflexivity.
  - destruct Hf as (v & q & -> & Hq). rewrite Ok_bind. eauto.
Qed.

Lemma fetch_value_follows f : fetch_ok f -> follows (fetch_value f) (read_value f).
Proof.
  intros Hf. destruct f; cbn [fetch_value read_value fetch_ok] in *.
  - apply (follows_fmap TlInt), (follows_fmap (fun x => int32 (le_load x))), fetch_binary_follows. lia.
  - apply (follows_fmap TlLong), (follows_fmap (fun x => int64 (le_load x))), fetch_binary_follows. lia.
  - by apply (follows_fmap TlBinary), fetch_binary_follows.
  - by apply (follows_fmap TlString), fetch_string_follows.
  - by apply (follows_fmap TlBinary), fetch_string_raw_follows.
Qed.

Lemma fetch_values_dead fs p :
  Forall fetch_ok fs -> dead p -> exists vs q, fetch_values fs p = Ok (vs, q) /\ dead q.
Proof.
  intros Hfs. revert p. induction Hfs as [|f fs Hf _ IH]; intros p Hp; cbn [fetch_values]; [eauto|].
  destruct (fetch_dead f p Hp Hf) as (v & q & -> & Hq). rewrite Ok_bind. cbn [fst snd].
  destruct (IH q Hq) as (vs & q' & -> & Hq'). rewrite Ok_bind. eauto.
Qed.

Lemma fetch_values_follow fs pre rest :
  Forall fetch_ok fs -> len (pre ++ rest) < max_size_t ->
  match read_values fs rest with
  | Some (vs, back) =>
      exists x, rest = x ++ back /\ fetch_values fs (parsing pre rest) = Ok (vs, parsing (pre ++ x) back)
  | None => exists vs q, fetch_values fs (parsing pre rest) = Ok (vs, q) /\ dead q
  end.
Proof.
  intros Hfs. revert pre rest. induction Hfs as [|f fs Hf Hfs IH]; intros pre rest Hlen; cbn [read_values fetch_values].
  { exists []. by rewrite app_nil_r. }
  pose proof (fetch_value_follows f Hf pre rest Hlen) as Hv.
  destruct (read_value f rest) as [[v n]|].
  - destruct Hv as [Hn ->]. rewrite Ok_bind. cbn [mbind option_bind fst snd].
    specialize (IH (pre ++ truncate n rest) (substr_from n rest)).
    assert (Hsplit : truncate n rest ++ substr_from n rest = rest) by apply take_drop.
    rewrite <- app_assoc, Hsplit in IH. specialize (IH Hlen).
    destruct (read_values fs (substr_from n rest)) as [[vs back]|]; cbn.
    + destruct IH as (x & Hx & ->). rewrite Ok_bind. exists (truncate n rest ++ x).
      rewrite <- app_assoc, <- Hx. split; [done|]. by rewrite <- app_assoc.
    + destruct IH as (vs & q & -> & Hq). rewrite Ok_bind. eauto.
  - cbn. destruct Hv as (v & q & -> & Hq). rewrite Ok_bind. cbn [fst snd].
    destruct (fetch_values_dead fs q Hfs Hq) as (vs & q' & -> & Hq'). rewrite Ok_bind. eauto.
Qed.

Lemma fetch_end_dead p : dead p -> fetch_end p = Ok p.
Proof. intros [_ _ Hl _ _]. unfold fetch_end. by rewrite Hl. Qed.

(** What a whole message gives. *)
Definition accepted (fs : list fetch) (message : bytes) : option (list tl_value) :=
  match read_values fs message with
  | Some (vs, []) => Some vs
  | _ => None
  end.

Lemma fetch_all_accepted fs message :
  Forall fetch_ok fs -> len message < max_size_t ->
  exists vs p, fetch_all fs message = Ok (vs, p) /\
    match accepted fs message with
    | Some vs' => vs = vs' /\ error p = None
    | None => failed p = true
    end.
Proof.
  intros Hfs Hlen. unfold fetch_all, accepted. rewrite new_parser_eq.
  pose proof (fetch_values_follow fs [] message Hfs Hlen) as Hv.
  destruct (read_values fs message) as [[vs back]|].
  - destruct Hv as (x & -> & ->). rewrite Ok_bind. cbn [fst snd app]. destruct back as [|b back].
    + do 2 eexists. split; [reflexivity|]. done.
    + unfold fetch_end, parsing. cbn [left_len]. rewrite (proj2 (Z.eqb_neq _ _)) by len_solve.
      do 2 eexists. split; [reflexivity|]. done.
  - destruct Hv as (vs & q & -> & Hq). rewrite Ok_bind. cbn [fst snd]. rewrite fetch_end_dead by done.
    do 2 eexists. split; [reflexivity|]. unfold failed. by destruct Hq as [_ _ _ [e ->] _].
Qed.

(** ** More bytes do not change what has been read *)

Lemma read_exact_app n s t : 0 <= n -> n <= len s -> read_exact n (s ++ t) = Some (truncate n s, n).
Proof.
  intros Hn Hs. unfold read_exact. rewrite (proj2 (Z.ltb_ge _ _)) by len_solve.
  unfold truncate. by rewrite take_app_le by (unfold len in Hs; lia).
Qed.

Lemma substr_app off n s t : 0 <= off -> 0 <= n -> off + n <= len s -> substr off n (s ++ t) = substr off n s.
Proof.
  intros Ho Hn Hs. unfold substr, len in *.
  rewrite drop_app_le by lia. by rewrite take_app_le by (rewrite length_drop; lia).
Qed.

Lemma read_string_app s t v n : read_string s = Some (v, n) -> read_string (s ++ t) = Some (v, n).
Proof.
  unfold read_string. rewrite !len_app. pose proof (len_nonneg t).
  destruct (Z.ltb_spec (len s) 4); [done|]. rewrite (proj2 (Z.ltb_ge (len s + len t) 4)) by lia.
  rewrite (substr_app 0 1) by lia.
  pose proof (le_load_substr 0 1 s ltac:(lia) ltac:(lia)) as Hb. set (b := le_load (substr 0 1 s)) in *. cbv zeta.
  assert (Hfound : forall from k total, 0 <= from -> 0 <= k -> from + k <= total ->
    (if len s <? total then None else Some (substr from k s, total)) = Some (v, n) ->
    (if len s + len t <? total then None else Some (substr from k (s ++ t), total)) = Some (v, n)).
  { intros from k total Hf Hk Ht. destruct (Z.ltb_spec (len s) total); [done|].
    rewrite (proj2 (Z.ltb_ge (len s + len t) total)) by lia. by rewrite substr_app by lia. }
  destruct (b <? 254); [|destruct (b =? 254)].
  - apply Hfound; rewrite ?align_down_eq; div_mod_lia.
  - rewrite (substr_app 1 3) by lia. pose proof (le_load_substr 1 3 s ltac:(lia) ltac:(lia)).
    apply Hfound; rewrite ?align_down_eq; div_mod_lia.
  - destruct (Z.ltb_spec (len s) 8); [done|]. rewrite (proj2 (Z.ltb_ge (len s + len t) 8)) by lia.
    rewrite (substr_app 1 7) by lia. pose proof (le_load_substr 1 7 s ltac:(lia) ltac:(lia)).
    apply Hfound; rewrite ?align_down_eq; div_mod_lia.
Qed.

Lemma read_value_app f s t v n :
  fetch_ok f -> len s < max_size_t -> read_value f s = Some (v, n) ->
  0 <= n <= len s /\ read_value f (s ++ t) = Some (v, n).
Proof.
  intros Hf Hlen Hr. split.
  { pose proof (fetch_value_follows f Hf [] s Hlen) as Hv. rewrite Hr in Hv. apply Hv. }
  assert (He : forall k w, 0 <= k -> read_exact k s = Some w -> read_exact k (s ++ t) = Some w).
  { intros k w Hk. unfold read_exact at 1. destruct (Z.ltb_spec (len s) k); [done|]. intros [= <-].
    by apply read_exact_app. }
  destruct f; cbn [read_value fetch_ok] in *.
  all: repeat match goal with H : _ <$> _ = Some _ |- _ => apply fmap_Some in H as ([? ?] & H & ?); simplify_eq/= end.
  all: first [erewrite He by (lia || eassumption) | erewrite read_string_app by eassumption]; done.
Qed.

Lemma read_values_app fs s t vs back :
  Forall fetch_ok fs -> len s < max_size_t -> read_values fs s = Some (vs, back) ->
  read_values fs (s ++ t) = Some (vs, back ++ t).
Proof.
  intros Hfs. revert s vs back. induction Hfs as [|f fs Hf Hfs IH]; intros s vs back Hlen; cbn [read_values].
  { by intros [= <- <-]. }
  destruct (read_value f s) as [[v n]|] eqn:Hr; [|done]. cbn [mbind option_bind fst snd].
  destruct (read_value_app f s t v n Hf Hlen Hr) as [Hn ->]. cbn [fst snd].
  destruct (read_values fs (substr_from n s)) as [[vs' back']|] eqn:Hrs; cbn; [|done]. intros [= <- <-].
  assert (Hsub : len (substr_from n s) < max_size_t) by (unfold substr_from; len_solve).
  specialize (IH _ _ _ Hsub Hrs). unfold substr_from in *. rewrite drop_app_le by (unfold len in Hn; lia).
  by rewrite IH.
Qed.

Lemma accepted_prefix_free fs s t vs vs' :
  Forall fetch_ok fs -> len s < max_size_t -> accepted fs s = Some vs -> accepted fs (s ++ t) = Some vs' -> t = [].
Proof.
  unfold accepted. intros Hfs Hlen Hs. destruct (read_values fs s) as [[us back]|] eqn:Hr; [|done].
  destruct back; [|done]. erewrite read_values_app by eassumption. cbn [app]. by destruct t.
Qed.

(** * What is stored is read again *)

Inductive fits : fetch -> tl_value -> Prop :=
  | FitsInt x : - 2 ^ 31 <= x < 2 ^ 31 -> fits FetchInt (TlInt x)
  | FitsLong x : - 2 ^ 63 <= x < 2 ^ 63 -> fits FetchLong (TlLong x)
  | FitsBinary x : 1 <= len x <= 64 -> fits (FetchBinary (len x)) (TlBinary x)
  | FitsString s : len s < 2 ^ 32 -> fits FetchString (TlString s)
  | FitsRaw x : fits (FetchRaw (len x)) (TlBinary x).

Lemma fits_ok f v : fits f v -> fetch_ok f.
Proof. destruct 1; cbn; auto with len. Qed.

Lemma read_exact_front x rest : read_exact (len x) (x ++ rest) = Some (x, len x).
Proof.
  rewrite read_exact_app by len_solve. unfold truncate, len. rewrite Nat2Z.id. by rewrite take_ge by lia.
Qed.

Lemma int32_le_store x : - 2 ^ 31 <= x < 2 ^ 31 -> int32 (le_load (le_store 4 x)) = x.
Proof. intros Hx. rewrite le_load_store. unfold int32. change (256 ^ Z.of_nat 4) with (2 ^ 32). div_mod_lia. Qed.

Lemma int64_le_store x : - 2 ^ 63 <= x < 2 ^ 63 -> int64 (le_load (le_store 8 x)) = x.
Proof. intros Hx. rewrite le_load_store. unfold int64. change (256 ^ Z.of_nat 8) with (2 ^ 64). div_mod_lia. Qed.

(** A stored string is its header, its bytes and the padding. *)
Lemma read_string_parts header s pad rest :
  let n := len s in
  (n < 254 /\ header = [z2b n] \/
   254 <= n < 2 ^ 24 /\ header = z2b 254 :: le_store 3 n \/
   2 ^ 24 <= n < 2 ^ 32 /\ header = z2b 255 :: le_store 7 n) ->
  0 <= len pad < 4 -> (len header + n + len pad) mod 4 = 0 ->
  read_string ((header ++ s ++ pad) ++ rest) = Some (s, len (header ++ s ++ pad)).
Proof.
  intros n Hh Hp Hal. pose proof (len_nonneg s) as Hs0. pose proof (len_nonneg rest) as Hr0.
  assert (Hfound : forall total, total = len (header ++ s ++ pad) ->
    (if len ((header ++ s ++ pad) ++ rest) <? total then None
     else Some (substr (len header) (len s) ((header ++ s ++ pad) ++ rest), total)) =
    Some (s, len (header ++ s ++ pad))).
  { intros total ->. rewrite (proj2 (Z.ltb_ge _ _)) by len_solve. rewrite <- !app_assoc.
    by rewrite (substr_app_mid header s (pad ++ rest)). }
  unfold read_string. subst n. destruct Hh as [[Hn ->]|[[Hn ->]|[Hn ->]]].
  - assert (Hl : 4 <= len ([z2b (len s)] ++ s ++ pad)) by (len_solve || (autorewrite with len_rw in *; div_mod_lia)).
    rewrite (proj2 (Z.ltb_ge _ 4)) by len_solve.
    change (substr 0 1 _) with [z2b (len s)]. cbn [le_load foldr]. rewrite b2z_z2b_small by lia.
    replace (len s + 256 * 0) with (len s) by lia. cbv zeta. rewrite (proj2 (Z.ltb_lt _ 254)) by lia.
    apply (Hfound (4 + align_down (len s))). rewrite align_down_eq. autorewrite with len_rw in *. div_mod_lia.
  - rewrite (proj2 (Z.ltb_ge _ 4)) by (pose proof (len_le_store 3 (len s)); len_solve).
    change (substr 0 1 _) with [z2b 254]. change (le_load [z2b 254]) with 254. cbv zeta.
    change (254 <? 254) with false. change (254 =? 254) with true. cbv iota.
    replace (substr 1 3 _) with (le_store 3 (len s)).
    2:{ cbn [app]. rewrite <- app_assoc. change (z2b 254 :: ?x) with ([z2b 254] ++ x). by rewrite (substr_app_mid' 1 3). }
    rewrite le_load_store, Z.mod_small by lia.
    apply (Hfound (4 + align_down (len s + 3))). rewrite align_down_eq. autorewrite with len_rw in *.
    div_mod_lia.
  - rewrite (proj2 (Z.ltb_ge _ 4)) by (pose proof (len_le_store 7 (len s)); len_solve).
    change (substr 0 1 _) with [z2b 255]. change (le_load [z2b 255]) with 255. cbv zeta.
    change (255 <? 254) with false. change (255 =? 254) with false. cbv iota.
    rewrite (proj2 (Z.ltb_ge _ 8)) by (pose proof (len_le_store 7 (len s)); len_solve).
    replace (substr 1 7 _) with (le_store 7 (len s)).
    2:{ cbn [app]. rewrite <- app_assoc. change (z2b 255 :: ?x) with ([z2b 255] ++ x). by rewrite (substr_app_mid' 1 7). }
    rewrite le_load_store, Z.mod_small by lia.
    apply (Hfound (8 + align_down (len s + 3))). rewrite align_down_eq. autorewrite with len_rw in *.
    div_mod_lia.
Qed.

Lemma z2b_shift n k : 0 <= k -> 0 <= n -> z2b (Z.shiftr n k) = z2b (n / 2 ^ k).
Proof. intros. by rewrite Z.shiftr_div_pow2. Qed.

Lemma z2b_land n : z2b (Z.land n 255) = z2b n.
Proof. rewrite land_255. apply z2b_mod. Qed.

Lemma store_string_read s :
  len s < 2 ^ 32 ->
  exists out, store_string s = Ok out /\ len out = calc_string s /\
    forall rest, read_string (out ++ rest) = Some (s, len out).
Proof.
  intros Hs. pose proof (len_nonneg s) as Hs0. unfold store_string, calc_string. cbv zeta.
  assert (Hpad : forall k, 0 <= (- k) mod 4 < 4) by (intros; div_mod_lia).
  destruct (Z.ltb_spec (len s) 254); [|destruct (Z.ltb_spec (len s) (2 ^ 24))].
  - eexists. split; [done|]. split.
    + rewrite land_minus4. autorewrite with len_rw. rewrite len_zeros by apply Hpad. div_mod_lia.
    + intros rest. apply read_string_parts; [by left|rewrite len_zeros; apply Hpad|].
      autorewrite with len_rw. rewrite len_zeros by apply Hpad. div_mod_lia.
  - assert (Hheader : [z2b 254; z2b (Z.land (len s) 255); z2b (Z.land (Z.shiftr (len s) 8) 255);
      z2b (Z.shiftr (len s) 16)] = z2b 254 :: le_store 3 (len s)).
    { rewrite !z2b_land, !z2b_shift by lia. cbn [le_store]. do 3 f_equal. by rewrite Z.div_div by lia. }
    rewrite Hheader. eexists. split; [done|]. split.
    + rewrite land_minus4. autorewrite with len_rw. rewrite len_zeros by apply Hpad. div_mod_lia.
    + intros rest. apply read_string_parts; [right; left; done|rewrite len_zeros; apply Hpad|].
      autorewrite with len_rw. rewrite len_zeros by apply Hpad. div_mod_lia.
  - rewrite (proj2 (Z.ltb_lt _ (2 ^ 32))) by lia.
    assert (Hheader : [z2b 255; z2b (Z.land (len s) 255); z2b (Z.land (Z.shiftr (len s) 8) 255);
      z2b (Z.land (Z.shiftr (len s) 16) 255); z2b (Z.land (Z.shiftr (len s) 24) 255); z2b 0; z2b 0; z2b 0] =
      z2b 255 :: le_store 7 (len s)).
    { rewrite !z2b_land, !z2b_shift by lia. cbn [le_store]. rewrite !Z.div_div by lia.
      change (256 * 256) with (2 ^ 16). change (256 * (256 * 256)) with (2 ^ 24).
      do 3 f_equal. do 2 f_equal. repeat match goal with |- _ :: _ = _ :: _ => f_equal end; try done.
      all: rewrite ?Z.div_div by lia; f_equal; try done; symmetry; apply Z.div_small; lia. }
    rewrite Hheader. eexists. split; [done|]. split.
    + rewrite land_minus4. autorewrite with len_rw. rewrite len_zeros by apply Hpad. div_mod_lia.
    + intros rest. apply read_string_parts; [right; right; done|rewrite len_zeros; apply Hpad|].
      autorewrite with len_rw. rewrite len_zeros by apply Hpad. div_mod_lia.
Qed.

Lemma store_value_read f v :
  fits f v ->
  exists out, store_value v = Ok out /\ len out = calc_value v /\
    forall rest, read_value f (out ++ rest) = Some (v, len out).
Proof.
  intros Hf. destruct Hf as [x Hx|x Hx|x Hx|s Hs|x]; cbn [store_value calc_value read_value].
  - eexists. split; [done|]. split; [done|]. intros rest.
    rewrite (read_exact_front (le_store 4 x)). cbn -[le_store]. by rewrite int32_le_store.
  - eexists. split; [done|]. split; [done|]. intros rest.
    rewrite (read_exact_front (le_store 8 x)). cbn -[le_store]. by rewrite int64_le_store.
  - eexists. split; [done|]. split; [done|]. intros rest. by rewrite read_exact_front.
  - destruct (store_string_read s Hs) as (out & -> & Hl & Hr). exists out. split; [done|]. split; [done|].
    intros rest. by rewrite Hr.
  - eexists. split; [done|]. split; [done|]. intros rest. by rewrite read_exact_front.
Qed.

Lemma fetch_string_stored s :
  len s < 2 ^ 32 ->
  exists out, store_string s = Ok out /\ len out <= len s + 11 /\
    forall pre rest, len (pre ++ out ++ rest) < max_size_t ->
    fetch_string (parsing pre (out ++ rest)) = Ok (s, parsing (pre ++ out) rest).
Proof.
  intros Hs. destruct (store_string_read s Hs) as (out & Ho & Hl & Hr). exists out. split; [done|]. split.
  - rewrite Hl. unfold calc_string. cbv zeta. pose proof (len_nonneg s).
    destruct (len s <? 254); [|destruct (len s <? 2 ^ 24)]; rewrite land_minus4; div_mod_lia.
  - intros pre rest Hlen. pose proof (fetch_string_follows pre (out ++ rest) Hlen) as Hv. rewrite Hr in Hv.
    destruct Hv as [_ ->]. unfold truncate, substr_from, len. by rewrite Nat2Z.id, take_app_length, drop_app_length.
Qed.

Lemma fetch_int_stored x pre rest :
  - 2 ^ 31 <= x < 2 ^ 31 -> len (pre ++ le_store 4 x ++ rest) < max_size_t ->
  fetch_int (parsing pre (le_store 4 x ++ rest)) = Ok (x, parsing (pre ++ le_store 4 x) rest).
Proof.
  intros Hx Hlen. pose proof (fetch_binary_follows 4 ltac:(lia) pre (le_store 4 x ++ rest) Hlen) as Hv.
  rewrite (read_exact_front (le_store 4 x)) in Hv. destruct Hv as [_ Hv]. unfold fetch_int.
  change (len (le_store 4 x)) with 4 in *. rewrite Hv, Ok_bind. cbn [fst snd]. rewrite int32_le_store by done.
  unfold truncate, substr_from. by rewrite (take_app_length' _ _ 4), (drop_app_length' _ _ 4).
Qed.

Lemma tl_store_app vs ws :
  tl_store_unsafe (vs ++ ws) = (x ← tl_store_unsafe vs; y ← tl_store_unsafe ws; Ok (x ++ y)).
Proof.
  induction vs as [|v vs IH]; cbn [app tl_store_unsafe].
  - rewrite Ok_bind. by destruct (tl_store_unsafe ws).
  - destruct (store_value v) as [x| |]; [|done..]. rewrite !Ok_bind, IH.
    destruct (tl_store_unsafe vs); [|done..]. rewrite !Ok_bind.
    destruct (tl_store_unsafe ws); [|done..]. rewrite !Ok_bind. by rewrite app_assoc.
Qed.

Lemma tl_calc_length_cons v vs : tl_calc_length (v :: vs) = calc_value v + tl_calc_length vs.
Proof.
  unfold tl_calc_length. cbn [foldl].
  assert (H : forall n, foldl (fun n v => n + calc_value v) n vs = n + foldl (fun n v => n + calc_value v) 0 vs).
  { induction vs as [|w vs IH]; intros n; cbn [foldl]; [lia|]. rewrite (IH (n + calc_value w)), (IH (0 + calc_value w)). lia. }
  by rewrite H.
Qed.

Lemma tl_store_read fs vs :
  Forall2 fits fs vs ->
  exists out, tl_store_unsafe vs = Ok out /\ len out = tl_calc_length vs /\ accepted fs out = Some vs.
Proof.
  intros Hfs. enough (exists out, tl_store_unsafe vs = Ok out /\ len out = tl_calc_length vs /\
    read_values fs out = Some (vs, [])) as (out & ? & ? & Hr).
  { exists out. unfold accepted. by rewrite Hr. }
  induction Hfs as [|f v fs vs Hf _ IH]; cbn [tl_store_unsafe read_values]; [by exists []|].
  destruct IH as (rest & -> & Hl & Hr), (store_value_read f v Hf) as (out & -> & Ho & Hv).
  exists (out ++ rest). split; [done|]. split; [rewrite tl_calc_length_cons; len_solve|].
  rewrite Hv. cbn [mbind option_bind fst snd]. unfold substr_from, len. rewrite Nat2Z.id, drop_app_length.
  by rewrite Hr.
Qed.

Lemma fits_all_ok fs vs : Forall2 fits fs vs -> Forall fetch_ok fs.
Proof. induction 1; constructor; eauto using fits_ok. Qed.

Lemma fetch_value_stored f v :
  fits f v ->
  exists out, store_value v = Ok out /\ forall pre rest, len (pre ++ out ++ rest) < max_size_t ->
    fetch_value f (parsing pre (out ++ rest)) = Ok (v, parsing (pre ++ out) rest).
Proof.
  intros Hf. destruct (store_value_read f v Hf) as (out & Hs & _ & Hr). exists out. split; [done|].
  intros pre rest Hlen. pose proof (fetch_value_follows f (fits_ok f v Hf) pre (out ++ rest) Hlen) as Hv.
  rewrite Hr in Hv. destruct Hv as [_ ->]. unfold truncate, substr_from, len.
  by rewrite Nat2Z.id, take_app_length, drop_app_length.
Qed.

Lemma fetch_values_stored fs vs out pre rest :
  Forall2 fits fs vs -> tl_store_unsafe vs = Ok out -> len (pre ++ out ++ rest) < max_size_t ->
  fetch_values fs (parsing pre (out ++ rest)) = Ok (vs, parsing (pre ++ out) rest).
Proof.
  intros Hfs. revert out pre. induction Hfs as [|f v fs vs Hf Hfs IH]; intros out pre; cbn [tl_store_unsafe fetch_values].
  { intros [= <-] _. by rewrite app_nil_r. }
  destruct (fetch_value_stored f v Hf) as (x & -> & Hfetch). rewrite Ok_bind.
  destruct (tl_store_unsafe vs) as [y| |] eqn:Hy; [|done..]. rewrite Ok_bind. intros [= <-] Hlen.
  rewrite <- app_assoc in *. rewrite Hfetch by done. rewrite Ok_bind. cbn [fst snd].
  rewrite (IH y (pre ++ x) eq_refl) by (by rewrite <- app_assoc). rewrite Ok_bind. cbn [fst snd]. by rewrite app_assoc.
Qed.

(** ** Any parser of a message *)

Inductive parser_of (m : bytes) : tl_parser -> Prop :=
  | LiveParser pre rest : m = pre ++ rest -> parser_of m (parsing pre rest)
  | DeadParser p : dead p -> parser_of m p.

Lemma fetch_value_parser m f p :
  parser_of m p -> fetch_ok f -> len m < max_size_t ->
  exists v q, fetch_value f p = Ok (v, q) /\ parser_of m q.
Proof.
  intros [pre rest ->|q Hd] Hf Hlen.
  - pose proof (fetch_value_follows f Hf pre rest Hlen) as Hv. destruct (read_value f rest) as [[v n]|].
    + destruct Hv as [_ ->]. do 2 eexists. split; [done|]. constructor. rewrite <- app_assoc. f_equal.
      unfold truncate, substr_from. by rewrite take_drop.
    + destruct Hv as (v & q & -> & Hq). do 2 eexists. split; [done|]. by constructor.
  - destruct (fetch_dead f q Hd Hf) as (v & q' & -> & Hq'). do 2 eexists. split; [done|]. by constructor.
Qed.

Lemma check_len_live_inv n p q : check_len n p = Ok q -> failed q = false -> failed p = false /\ source q = source p.
Proof.
  unfold check_len, set_error, failed. destruct (left_len p <? n); [|by intros [= <-]].
  destruct (error p); [|by intros [= <-]]. destruct (negb _ && _ && _); [|done]. by intros [= <-].
Qed.

Lemma peek_len off n p x : peek off n p = Ok x -> len x <= len (source p).
Proof.
  unfold peek. destruct (_ && _); [|done]. cbn [check]. rewrite Ok_bind. intros [= <-].
  unfold substr, len. rewrite length_take, length_drop. lia.
Qed.

Lemma fetch_bytes_len b n a h p s q :
  fetch_bytes b n a h p = Ok (s, q) -> s = [] \/ failed p = false /\ len s <= len (source p).
Proof.
  unfold fetch_bytes. intros Hf. apply bind_Ok_inv in Hf as (p1 & Hc & Hf). destruct (failed p1) eqn:Hp1.
  { injection Hf as <- _. by left. }
  apply check_len_live_inv in Hc as [Hp _]; [|done]. apply bind_Ok_inv in Hf as (x & Hx & Hf).
  injection Hf as <- _. right. split; [exact Hp|]. by apply peek_len in Hx.
Qed.

(** A string is not longer than the object that the parser reads. *)
Lemma fetch_string_len p s q :
  fetch_string p = Ok (s, q) -> s = [] \/ failed p = false /\ len s <= len (source p).
Proof.
  unfold fetch_string. intros Hf. apply bind_Ok_inv in Hf as (p1 & Hc & Hf). apply bind_Ok_inv in Hf as (b & _ & Hf).
  assert (Hback : s = [] \/ failed p1 = false /\ len s <= len (source p1)).
  { destruct (le_load b <? 254); [by apply fetch_bytes_len in Hf|]. destruct (le_load b =? 254).
    { apply bind_Ok_inv in Hf as (b2 & _ & Hf). by apply fetch_bytes_len in Hf. }
    apply bind_Ok_inv in Hf as (p2 & Hc2 & Hf). apply bind_Ok_inv in Hf as (b2 & _ & Hf).
    destruct (max_size_t - 3 <? le_load b2).
    { apply bind_Ok_inv in Hf as (p3 & _ & Hf). injection Hf as <- _. by left. }
    apply fetch_bytes_len in Hf as [->|[Hp2 Hl]]; [by left|]. right.
    apply check_len_live_inv in Hc2 as [? <-]; done. }
  destruct Hback as [->|[Hp1 Hl]]; [by left|]. right. by apply check_len_live_inv in Hc as [? <-].
Qed.

Lemma fetch_string_parser m p s q : parser_of m p -> fetch_string p = Ok (s, q) -> len s <= len m.
Proof.
  intros Hp Hf. apply fetch_string_len in Hf as [->|[Hnf Hl]]; [change (len (@nil byte)) with 0; apply len_nonneg|].
  destruct Hp as [pre rest ->|p [_ _ _ [e He] _]]; [done|]. unfold failed in Hnf. by rewrite He in Hnf.
Qed.

(** * Properties *)

(** C21: A parser on any message, with any calls of the client: it never reads
    outside of the message and of [empty_data] and no check fails, and it ends
    without an error exactly when the values are at the front of the message,
    one after the other, and nothing is behind them; it then returns them. *)
Theorem tl_parser_spec fs message :
  Forall fetch_ok fs -> len message < max_size_t ->
  exists vs p, fetch_all fs message = Ok (vs, p) /\
    (error p = None <-> exists us, read_values fs message = Some (us, [])) /\
    (error p = None -> read_values fs message = Some (vs, [])).
Proof.
  intros Hfs Hlen. destruct (fetch_all_accepted fs message Hfs Hlen) as (vs & p & Hp & Ha).
  exists vs, p. split; [done|]. unfold accepted, failed in Ha.
  destruct (read_values fs message) as [[us [|b back]]|].
  - destruct Ha as [-> He]. split; [by split; eauto|done].
  - destruct (error p); [|done]. split; [split|]; try done. by intros [us' [=]].
  - destruct (error p); [|done]. split; [split|]; try done. by intros [us' [=]].
Qed.

(** C29: [tl_store_unsafe] writes exactly the [tl_calc_length] bytes that the
    caller has allocated, and the parser returns the same values from them. *)
Theorem tl_roundtrip fs vs :
  Forall2 fits fs vs -> tl_calc_length vs < max_size_t ->
  exists out p, tl_store_unsafe vs = Ok out /\ len out = tl_calc_length vs /\
    fetch_all fs out = Ok (vs, p) /\ error p = None.
Proof.
  intros Hfs Hlen. destruct (tl_store_read fs vs Hfs) as (out & Hs & Hl & Ha).
  destruct (fetch_all_accepted fs out) as (us & p & Hp & Hac); [by eapply fits_all_ok|lia|].
  rewrite Ha in Hac. destruct Hac as [-> He]. eauto 10.
Qed.

(** A message that is cut, or that is followed by other bytes, is an error: two
    messages of the same type are never prefixes of each other. *)
Theorem tl_truncation_detected fs message more vs p :
  Forall fetch_ok fs -> len (message ++ more) < max_size_t -> more <> [] ->
  fetch_all fs (message ++ more) = Ok (vs, p) -> error p = None ->
  exists us q, fetch_all fs message = Ok (us, q) /\ error q <> None.
Proof.
  intros Hfs Hlen Hmore Hp He.
  destruct (fetch_all_accepted fs (message ++ more) Hfs Hlen) as (vs' & p' & Hp' & Ha').
  rewrite Hp in Hp'. injection Hp' as <- <-.
  destruct (fetch_all_accepted fs message Hfs) as (us & q & Hq & Ha); [len_solve|].
  exists us, q. split; [done|]. intros Hnone.
  destruct (accepted fs message) eqn:Hacc; [|unfold failed in Ha; by rewrite Hnone in Ha].
  destruct (accepted fs (message ++ more)) eqn:Hacc'; [|unfold failed in Ha'; by rewrite He in Ha'].
  apply Hmore. eapply accepted_prefix_free; [done| |done|done]. len_solve.
Qed.

(** ** The properties on a concrete message *)

Definition sample_values : list tl_value :=
  [TlInt (-5); TlString (str "abcde"); TlLong (2 ^ 62); TlBinary (zeros 16); TlString (replicate 300 x01)].

Definition sample_fetches : list fetch :=
  [FetchInt; FetchString; FetchLong; FetchBinary 16; FetchString].

Definition sample_message : bytes := match tl_store_unsafe sample_values with Ok out => out | _ => [] end.

Lemma tl_parser_spec_witness :
  exists vs p, fetch_all sample_fetches (truncate 30 sample_message) = Ok (vs, p) /\ error p <> None.
Proof.
  destruct (tl_parser_spec sample_fetches (truncate 30 sample_message)) as (vs & p & Hp & Hiff & _).
  - repeat constructor; done.
  - by vm_compute.
  - exists vs, p. split; [exact Hp|]. intros He. apply Hiff in He as [us Hus]. vm_compute in Hus. discriminate Hus.
Defined.

Lemma tl_roundtrip_witness :
  exists out p, tl_store_unsafe sample_values = Ok out /\ fetch_all sample_fetches out = Ok (sample_values, p) /\
    error p = None.
Proof.
  destruct (tl_roundtrip sample_fetches sample_values) as (out & p & H1 & _ & H2 & H3).
  - repeat constructor; try done. exact (FitsBinary (zeros 16) ltac:(by vm_compute)).
  - by vm_compute.
  - exists out, p. split; [exact H1|]. split; [exact H2|exact H3].
Defined.

Lemma tl_truncation_detected_witness :
  exists us q, fetch_all [FetchInt; FetchString] (str "abcd" ++ hex [2; 1; 1]) = Ok (us, q) /\ error q <> None.
Proof.
  apply (tl_truncation_detected [FetchInt; FetchString] (str "abcd" ++ hex [2; 1; 1]) (hex [0])
    [TlInt 1684234849; TlString (hex [1; 1])] (mk_parser (str "abcd" ++ hex [2; 1; 1; 0]) 8 8 0 None max_size_t));
    [repeat constructor|by vm_compute|done|by vm_compute|done].
Defined.
