(* ===== verification/ProxySecret.v ===== *)
(** Proxy secrets: [td/td/mtproto/ProxySecret.{h,cpp}]. *)
From S2P Require Import Prelude Bytes Encoding.
#[local] Open Scope Z_scope.

Definition MAX_DOMAIN_LENGTH : Z := 182.

Record ProxySecret := mk_ProxySecret { secret_ : bytes }.

#[export] Instance ProxySecret_eq_dec : EqDecision ProxySecret.
Proof. solve_decision. Defined.

Definition from_raw (raw_secret : bytes) : ProxySecret := mk_ProxySecret raw_secret.

Definition first_is (v : Z) (s : bytes) : bool := b2z (nth_byte s 0) =? v.

(** [ProxySecret::from_binary]. *)
Definition from_binary (raw_unchecked_secret : bytes) (truncate_if_needed : bool)
  : outcome ProxySecret :=
  raw ← (if 17 + MAX_DOMAIN_LENGTH <? len raw_unchecked_secret then
           if truncate_if_needed then Ok (truncate (17 + MAX_DOMAIN_LENGTH) raw_unchecked_secret)
           else Err (Error 400 "Too long secret")
         else Ok raw_unchecked_secret);
  if (len raw =? 16) || ((len raw =? 17) && first_is 0xdd raw) || ((18 <=? len raw) && first_is 0xee raw)
  then Ok (from_raw raw)
  else if len raw <? 16 then Err (Error 400 "Wrong proxy secret")
  else Err (Error 400 "Unsupported proxy secret").

(** [if (r_decoded.is_error()) r_decoded = ...]. *)
Definition or_else {A} (m : outcome A) (k : outcome A) : outcome A :=
  match m with Err _ => k | _ => m end.

(** [ProxySecret::from_link]. *)
Definition from_link (encoded_secret : bytes) (truncate_if_needed : bool) : outcome ProxySecret :=
  let r_decoded := hex_decode encoded_secret in
  let r_decoded := or_else r_decoded (base64url_decode encoded_secret) in
  let r_decoded := or_else r_decoded (base64_decode encoded_secret) in
  match r_decoded with
  | Err _ => Err (Error 400 "Wrong proxy secret")
  | Ok decoded => from_binary decoded truncate_if_needed
  | Crash => Crash
  end.

Definition get_raw_secret (s : ProxySecret) : bytes := secret_ s.

Definition get_proxy_secret (s : ProxySecret) : bytes :=
  if 17 <=? len (secret_ s) then substr 1 16 (secret_ s) else secret_ s.

Definition use_random_padding (s : ProxySecret) : bool := 17 <=? len (secret_ s).

Definition emulate_tls (s : ProxySecret) : bool := (17 <=? len (secret_ s)) && first_is 0xee (secret_ s).

Definition get_domain (s : ProxySecret) : outcome bytes :=
  _ ← check (emulate_tls s);
  Ok (substr_from 17 (secret_ s)).

Definition get_encoded_secret (s : ProxySecret) : bytes :=
  if emulate_tls s then base64url_encode (secret_ s) else hex_encode (secret_ s).

(** * What a secret accepted from the user satisfies *)

(** The three forms of a secret: plain (16 bytes), padded (0xdd and 16 bytes),
    TLS-emulating (0xee, 16 bytes and a domain of 1 to 182 bytes). *)
Definition secret_wf (s : ProxySecret) : Prop :=
  len (secret_ s) = 16 \/
  (len (secret_ s) = 17 /\ b2z (nth_byte (secret_ s) 0) = 0xdd) \/
  (18 <= len (secret_ s) <= 17 + MAX_DOMAIN_LENGTH /\ b2z (nth_byte (secret_ s) 0) = 0xee).

Lemma from_binary_Ok raw trunc s :
  from_binary raw trunc = Ok s ->
  secret_wf s /\
  secret_ s = if 17 + MAX_DOMAIN_LENGTH <? len raw
              then truncate (17 + MAX_DOMAIN_LENGTH) raw else raw.
Proof.
  unfold from_binary, secret_wf, MAX_DOMAIN_LENGTH. intros H. simp_outcome.
  assert (Hx : len x <= 199 /\ x = if 199 <? len raw then truncate 199 raw else raw).
  { change (17 + 182) with 199 in *. destruct (Z.ltb_spec 199 (len raw)).
    - destruct trunc; simp_outcome. split; [|done]. unfold truncate. len_solve.
    - by simp_outcome. }
  destruct Hx as [Hlen ->]. clear H0. change (17 + 182) with 199.
  set (x := if 199 <? len raw then truncate 199 raw else raw) in *.
  destruct (_ || _) eqn:E; [|destruct (len x <? 16); discriminate]. simp_outcome. split; [|done]. cbn.
  unfold first_is in E. apply orb_true_iff in E as [E|E]; [apply orb_true_iff in E as [E|E]|];
    to_prop; auto with lia.
Qed.

(** C36: A secret accepted by [from_binary] has one of the three documented
    forms, and the accessors agree with it: the key is always 16 bytes long, and
    TLS emulation gives a non-empty domain that fits a ClientHello. *)
Theorem from_binary_forms (raw : bytes) (truncate_if_needed : bool) (s : ProxySecret) :
  from_binary raw truncate_if_needed = Ok s ->
  secret_wf s /\ len (get_proxy_secret s) = 16 /\
  (emulate_tls s = true -> exists d, get_domain s = Ok d /\ 0 < len d <= MAX_DOMAIN_LENGTH /\
     secret_ s = z2b 0xee :: get_proxy_secret s ++ d) /\
  (emulate_tls s = false -> len (secret_ s) = 16 \/ len (secret_ s) = 17).
Proof.
  intros [Hwf _]%from_binary_Ok. split; [done|].
  assert (Hk : len (get_proxy_secret s) = 16).
  { unfold get_proxy_secret. destruct (Z.leb_spec 17 (len (secret_ s))).
    - apply len_substr; lia.
    - unfold secret_wf in Hwf. lia. }
  split; [done|]. unfold emulate_tls. split.
  - intros He. to_prop. unfold first_is in *. to_prop.
    unfold get_domain, emulate_tls, first_is.
    rewrite (proj2 (Z.leb_le _ _)), (proj2 (Z.eqb_eq _ _)) by done. cbn.
    eexists. split; [done|]. unfold secret_wf, get_proxy_secret in *.
    rewrite (proj2 (Z.leb_le _ _)) by done.
    destruct s as [[|c s]]; cbn [secret_] in *; [rewrite len_nil in *; lia|].
    change (nth_byte (c :: s) 0) with c in *. rewrite len_cons in *. split.
    + change (substr_from 17 (c :: s)) with (drop (Z.to_nat 16) s). len_solve.
    + unfold substr_from, substr. change (Z.to_nat 17) with 17%nat.
      change (Z.to_nat 16) with 16%nat. change (Z.to_nat 1) with 1%nat. cbn [drop].
      rewrite take_drop. f_equal. symmetry. apply z2b_byte. by rewrite H0.
  - intros He. unfold secret_wf in Hwf.
    destruct Hwf as [?|[[? Hc]|[? Hc]]]; [lia..|].
    rewrite (proj2 (Z.leb_le _ _)) in He by lia. cbn in He. unfold first_is in He. to_prop. done.
Qed.

(** A secret printed for sharing is parsed back to itself, whichever of the
    three text encodings [from_link] has to tell apart. *)
Theorem proxy_secret_link_roundtrip (raw : bytes) (trunc trunc' : bool) (s : ProxySecret) :
  from_binary raw trunc = Ok s -> from_link (get_encoded_secret s) trunc' = Ok s.
Proof.
  intros [Hwf _]%from_binary_Ok.
  assert (Hbin : forall t, from_binary (secret_ s) t = Ok s).
  { intros t. unfold from_binary, secret_wf, MAX_DOMAIN_LENGTH, first_is in *.
    rewrite (proj2 (Z.ltb_ge _ _)) by lia. cbn.
    assert (E : (len (secret_ s) =? 16) || (len (secret_ s) =? 17) && (b2z (nth_byte (secret_ s) 0) =? 221)
                || (18 <=? len (secret_ s)) && (b2z (nth_byte (secret_ s) 0) =? 238) = true).
    { destruct Hwf as [E|[[E1 E2]|[E1 E2]]].
      - rewrite E. done.
      - rewrite E1, E2. done.
      - rewrite E2, (proj2 (Z.leb_le _ _)) by lia. by rewrite orb_true_r. }
    rewrite E. by destruct s. }
  unfold from_link, get_encoded_secret. destruct (emulate_tls s) eqn:He.
  - unfold emulate_tls, first_is in He. to_prop.
    destruct s as [[|c [|c1 [|c2 s]]]]; cbn [secret_] in *; try (rewrite ?len_cons, len_nil in *; lia).
    assert (Hhex : exists e, hex_decode (base64url_encode (c :: c1 :: c2 :: s)) = Err e).
    { change (base64url_encode (c :: c1 :: c2 :: s)) with
        ([nth_byte (get_characters true) (Z.shiftr (Z.lor (Z.lor (Z.shiftl (b2z c) 16) (Z.shiftl (b2z c1) 8)) (b2z c2)) 18)]
         ++ nth_byte (get_characters true) (Z.land (Z.shiftr (Z.lor (Z.lor (Z.shiftl (b2z c) 16) (Z.shiftl (b2z c1) 8)) (b2z c2)) 12) 63)
         :: drop 2 (base64url_encode (c :: c1 :: c2 :: s))).
      apply hex_decode_bad. change (nth_byte (c :: c1 :: c2 :: s) 0) with c in *.
      pose proof (b2z_range c1). pose proof (b2z_range c2).
      rewrite Z_group3 by (rewrite ?H0; lia). rewrite H0. shr_to_arith.
      set (i := _ mod 64).
      assert (Hi : 32 <= i < 48) by (unfold i; div_mod_lia). clearbody i.
      assert (Hc : forallb (fun i => hex_to_int (nth_byte (get_characters true) i) =? 16) (seqZ 32 16) = true)
        by (vm_compute; reflexivity).
      rewrite forallb_forall in Hc. apply Z.eqb_eq, Hc. apply list_elem_of_In, elem_of_seqZ. lia. }
    destruct Hhex as [e ->]. cbn [or_else].
    unfold base64url_decode, base64url_encode. cbn [secret_]. rewrite base64_roundtrip. apply Hbin.
  - rewrite hex_roundtrip. cbn. apply Hbin.
Qed.

(** * The theorems at concrete secrets *)

(** A TLS-emulating secret for the domain [ya.ru]. *)
Definition sample_secret : ProxySecret := from_raw (z2b 0xee :: zeros 16 ++ str "ya.ru").

Lemma from_binary_forms_witness :
  from_binary (secret_ sample_secret) false = Ok sample_secret /\
  exists d, get_domain sample_secret = Ok d /\ 0 < len d <= MAX_DOMAIN_LENGTH /\
    secret_ sample_secret = z2b 0xee :: get_proxy_secret sample_secret ++ d.
Proof.
  assert (Hb : from_binary (secret_ sample_secret) false = Ok sample_secret) by (vm_compute; reflexivity).
  split; [exact Hb|].
  apply (from_binary_forms (secret_ sample_secret) false sample_secret Hb). vm_compute. reflexivity.
Defined.

Lemma proxy_secret_link_roundtrip_witness :
  from_link (get_encoded_secret sample_secret) false = Ok sample_secret.
Proof.
  apply (proxy_secret_link_roundtrip (secret_ sample_secret) false false sample_secret).
  vm_compute. reflexivity.
Defined.
