(* ===== verification/DpiBypass.v ===== *)
(** The DPI bypass module, [td/td/mtproto/dpi_bypass/DpiBypass.{h,cpp}]:
    choice of the TLS ClientHello profile by the masking domain, rotation of
    profiles, fragmentation of the ClientHello and dynamic record sizes.

    The two compile-time switches of DpiBypass.h are the class [DpiBuild]: the
    code is compiled with [shipped], and [docs/TDLIB_PATCHES.md] documents the
    build with [kDpiBypassStableProxyMode = false] as well, so the theorems
    speak of both. *)
From S2P Require Import Prelude Bytes Random.
From stdpp Require Import sorting.
#[local] Open Scope Z_scope.

Class DpiBuild := {
  kDpiBypassStableProxyMode : bool;
  kDpiBypassAutoRotateProfiles : bool;
}.

(** The values in DpiBypass.h. *)
Definition shipped : DpiBuild :=
  {| kDpiBypassStableProxyMode := true; kDpiBypassAutoRotateProfiles := true |}.

(** The full DPI bypass build of the documentation. *)
Definition full_bypass : DpiBuild :=
  {| kDpiBypassStableProxyMode := false; kDpiBypassAutoRotateProfiles := true |}.

(** [Time::now()] is a [double] number of seconds; the model counts
    microseconds. *)
Definition seconds (n : Z) : Z := n * 1000000.

Definition kProfileRotationIntervalSec : Z := 1800.

Inductive TlsProfile := Chrome | Firefox | Yandex | Safari | Vk | Gosuslugi.

Inductive ServiceFamily := FamilyGeneric | FamilyYandex | FamilyVk | FamilyGosuslugi.

#[export] Instance TlsProfile_eq_dec : EqDecision TlsProfile.
Proof. solve_decision. Defined.

#[export] Instance ServiceFamily_eq_dec : EqDecision ServiceFamily.
Proof. solve_decision. Defined.

(** * Domain matching *)

Definition ascii_tolower (c : byte) : byte :=
  if (b2z "A" <=? b2z c) && (b2z c <=? b2z "Z")
  then z2b (b2z c + (b2z "a" - b2z "A")) else c.

(** The loop over [i < left.size()] after the sizes compared equal. *)
Fixpoint ascii_iequals_from (lhs rhs : bytes) : bool :=
  match lhs, rhs with
  | [], _ => true
  | _, [] => true
  | l :: lhs, r :: rhs =>
      if bool_decide (ascii_tolower l <> ascii_tolower r) then false
      else ascii_iequals_from lhs rhs
  end.

Definition ascii_iequals (lhs rhs : bytes) : bool :=
  if negb (len lhs =? len rhs) then false else ascii_iequals_from lhs rhs.

Definition ascii_iequals_suffix (domain suffix : bytes) : bool :=
  if len domain <? len suffix then false
  else ascii_iequals (substr_from (len domain - len suffix) domain) suffix.

Definition domain_matches_service (domain suffix : bytes) : bool :=
  ascii_iequals domain suffix || ascii_iequals_suffix domain suffix.

Definition kDomainMappings : list (bytes * ServiceFamily) :=
  [(str "yandex.ru", FamilyYandex); (str "ya.ru", FamilyYandex);
   (str "yandex.com", FamilyYandex); (str "yandex.net", FamilyYandex);
   (str "vk.com", FamilyVk); (str "vk.ru", FamilyVk);
   (str "vkontakte.ru", FamilyVk); (str "userapi.com", FamilyVk);
   (str "gosuslugi.ru", FamilyGosuslugi); (str "gu.st", FamilyGosuslugi)].

Fixpoint first_mapping (domain : bytes) (mappings : list (bytes * ServiceFamily)) : ServiceFamily :=
  match mappings with
  | [] => FamilyGeneric
  | (suffix, family) :: rest =>
      if domain_matches_service domain suffix then family else first_mapping domain rest
  end.

Definition detect_service_family (domain : bytes) : ServiceFamily :=
  first_mapping domain kDomainMappings.

(** * Profile pools and rotation *)

Definition kYandexProfiles : list TlsProfile := [Yandex; Chrome; Firefox].
Definition kVkProfiles : list TlsProfile := [Vk; Chrome; Yandex].
Definition kGosuslugiProfiles : list TlsProfile := [Gosuslugi; Yandex; Chrome].
Definition kGenericProfiles : list TlsProfile := [Chrome; Firefox; Yandex; Safari].

Definition profile_pool_for_family (family : ServiceFamily) : list TlsProfile :=
  match family with
  | FamilyYandex => kYandexProfiles
  | FamilyVk => kVkProfiles
  | FamilyGosuslugi => kGosuslugiProfiles
  | FamilyGeneric => kGenericProfiles
  end.

Definition primary_profile_for_family (family : ServiceFamily) : TlsProfile :=
  match family with
  | FamilyYandex => Yandex
  | FamilyVk => Vk
  | FamilyGosuslugi => Gosuslugi
  | FamilyGeneric => Chrome
  end.

Record RotationState := mk_rotation {
  pool_index : Z;
  last_rotation_unix_time : Z;
  consecutive_failures : Z;
}.

(** [static RotationState states[4]], indexed by the family. *)
Definition rotation_states := ServiceFamily -> RotationState.

Definition initial_rotation : rotation_states := fun _ => mk_rotation 0 0 0.

Definition rotation_state_for_family (st : rotation_states) (f : ServiceFamily) : RotationState :=
  st f.

Definition set_rotation (f : ServiceFamily) (r : RotationState) (st : rotation_states)
  : rotation_states := fun g => if decide (g = f) then r else st g.

(** [pool.profiles[index % pool.size]]. *)
Definition profile_from_pool (family : ServiceFamily) (index : Z) : TlsProfile :=
  let pool := profile_pool_for_family family in
  nth (Z.to_nat (index mod len pool)) pool Chrome.

Definition advance_rotation (family : ServiceFamily) (now : Z) (st : rotation_states)
  : rotation_states :=
  let state := rotation_state_for_family st family in
  let pool := profile_pool_for_family family in
  set_rotation family (mk_rotation ((pool_index state + 1) mod len pool) now 0) st.

Definition get_effective_profile (domain : bytes) (st : rotation_states) : TlsProfile :=
  let family := detect_service_family domain in
  profile_from_pool family (pool_index (rotation_state_for_family st family)).

Section build.
Context {B : DpiBuild}.

Definition pick_profile_for_domain (domain : bytes) (st : rotation_states) : TlsProfile :=
  if kDpiBypassStableProxyMode
  then primary_profile_for_family (detect_service_family domain)
  else get_effective_profile domain st.

Definition on_tls_handshake_failure (domain : bytes) (now : Z) (st : rotation_states)
  : rotation_states :=
  if negb kDpiBypassAutoRotateProfiles || kDpiBypassStableProxyMode then st
  else
    let family := detect_service_family domain in
    let state := rotation_state_for_family st family in
    let st := set_rotation family
                (mk_rotation (pool_index state) (last_rotation_unix_time state)
                             (consecutive_failures state + 1)) st in
    advance_rotation family now st.

Definition maybe_rotate_profile_on_timer (domain : bytes) (now : Z) (st : rotation_states)
  : rotation_states :=
  if negb kDpiBypassAutoRotateProfiles || kDpiBypassStableProxyMode then st
  else
    let family := detect_service_family domain in
    let state := rotation_state_for_family st family in
    if last_rotation_unix_time state =? 0 then
      set_rotation family
        (mk_rotation (pool_index state) now (consecutive_failures state)) st
    else if seconds kProfileRotationIntervalSec <=? now - last_rotation_unix_time state then
      advance_rotation family now st
    else st.
End build.

(** * Random choices, fragmentation and record sizes *)

Section random_choices.
Context {B : DpiBuild} {G : Type} `{RandomSource G}.

Definition pick_random_profile (g : G) : TlsProfile * G :=
  if kDpiBypassStableProxyMode then (Chrome, g)
  else
    let '(r, g) := fast 0 5 g in
    (match r with
     | 0 => Chrome
     | 1 => Firefox
     | 2 => Yandex
     | 3 => Safari
     | 4 => Vk
     | _ => Gosuslugi
     end, g).

(** The loop [for (size_t i = 1; i < parts_count; i++)]; [None] is the early
    return of the whole packet.  [k] counts the remaining iterations. *)
Fixpoint choose_cuts (k : nat) (i parts_count size : Z) (g : G) : option (list Z) * G :=
  match k with
  | O => (Some [], g)
  | S k =>
      let min_pos := i * 32 in
      let max_pos := size - (parts_count - i) * 32 in
      if max_pos <=? min_pos then (None, g)
      else
        let '(cut, g) := fast min_pos max_pos g in
        let '(rest, g) := choose_cuts k (i + 1) parts_count size g in
        (cons cut <$> rest, g)
  end.

Fixpoint split_at_cuts (offset : Z) (cuts : list Z) (packet : bytes) : list bytes :=
  match cuts with
  | [] => [substr_from offset packet]
  | cut :: cuts => substr offset (cut - offset) packet :: split_at_cuts cut cuts packet
  end.

Definition fragment_client_hello (packet : bytes) (min_parts max_parts : Z) (g : G)
  : list bytes * G :=
  if len packet =? 0 then ([], g)
  else if kDpiBypassStableProxyMode || (min_parts <=? 1) then ([packet], g)
  else if len packet <? 64 then ([packet], g)
  else
    let '(parts_count, g) := fast min_parts max_parts g in
    let parts_count := Z.min parts_count (len packet / 32) in
    if parts_count <=? 1 then ([packet], g)
    else
      let '(cuts, g) := choose_cuts (Z.to_nat (parts_count - 1)) 1 parts_count (len packet) g in
      match cuts with
      | None => ([packet], g)
      | Some cuts => (split_at_cuts 0 (merge_sort Z.le cuts) packet, g)
      end.

Definition pick_random_record_size (default_max : Z) (g : G) : Z * G :=
  if kDpiBypassStableProxyMode then (default_max, g)
  else
    let min_size := 1024 in
    if default_max <=? min_size then (default_max, g)
    else fast min_size default_max g.
End random_choices.

(** * Domain matching: what the table decides *)

Definition ascii_lower (s : bytes) : bytes := ascii_tolower <$> s.

(** [s] is a suffix of [d] up to ASCII case. *)
Definition has_suffix (d s : bytes) : Prop := exists p, ascii_lower d = p ++ ascii_lower s.

Lemma ascii_iequals_from_spec l r :
  length l = length r -> ascii_iequals_from l r = true <-> ascii_lower l = ascii_lower r.
Proof.
  revert r; induction l as [|x l IH]; intros [|y r] Hl; try done.
  cbn in *. case_bool_decide as E; [split; [done | congruence]|].
  rewrite IH by lia. unfold ascii_lower. split; congruence.
Qed.

Lemma ascii_iequals_spec l r : ascii_iequals l r = true <-> ascii_lower l = ascii_lower r.
Proof.
  unfold ascii_iequals, len. destruct (Z.eqb_spec (Z.of_nat (length l)) (Z.of_nat (length r))).
  - apply ascii_iequals_from_spec. lia.
  - split; [done|]. intros E. apply (f_equal length) in E.
    unfold ascii_lower in E. rewrite !length_fmap in E. lia.
Qed.

Lemma domain_matches_service_spec d s : domain_matches_service d s = true <-> has_suffix d s.
Proof.
  unfold domain_matches_service, ascii_iequals_suffix, has_suffix.
  rewrite orb_true_iff, ascii_iequals_spec. split.
  - intros [E|E]; [by exists []; rewrite E|].
    destruct (Z.ltb_spec (len d) (len s)); [done|]. apply ascii_iequals_spec in E.
    exists (ascii_lower (take (Z.to_nat (len d - len s)) d)).
    rewrite <- E. unfold ascii_lower. rewrite <- fmap_app. f_equal.
    symmetry. apply take_drop.
  - intros [p E]. right.
    assert (Hl : len d = len p + len s).
    { apply (f_equal len) in E. unfold ascii_lower in E. len_solve. }
    destruct (Z.ltb_spec (len d) (len s)); [len_solve|].
    apply ascii_iequals_spec. unfold substr_from, ascii_lower in *.
    rewrite fmap_drop, E. replace (Z.to_nat (len d - len s)) with (length p)
      by (unfold len in *; lia).
    apply drop_app_length.
Qed.

(** Two suffixes of one string: one is a suffix of the other. *)
Lemma has_suffix_nested d s t : has_suffix d s -> has_suffix d t -> has_suffix s t \/ has_suffix t s.
Proof.
  unfold has_suffix. intros [p Hp] [q Hq]. rewrite Hp in Hq.
  destruct (decide (length p <= length q)%nat).
  - left. exists (drop (length p) q). apply (f_equal (drop (length p))) in Hq.
    rewrite drop_app_length, drop_app_le in Hq by done. done.
  - right. exists (drop (length q) p). apply (f_equal (drop (length q))) in Hq.
    rewrite drop_app_length, drop_app_le in Hq by lia. done.
Qed.

Lemma kDomainMappings_unambiguous s f t g :
  (s, f) ∈ kDomainMappings -> (t, g) ∈ kDomainMappings -> has_suffix s t -> f = g.
Proof.
  assert (Hc : forallb (fun a => forallb (fun b =>
      negb (domain_matches_service a.1 b.1) || bool_decide (a.2 = b.2)) kDomainMappings)
      kDomainMappings = true) by (vm_compute; reflexivity).
  intros Hs Ht Hst. rewrite forallb_forall in Hc.
  specialize (Hc (s, f) (proj1 (list_elem_of_In _ _) Hs)). rewrite forallb_forall in Hc.
  specialize (Hc (t, g) (proj1 (list_elem_of_In _ _) Ht)). cbn in Hc.
  rewrite (proj2 (domain_matches_service_spec s t) Hst) in Hc. cbn in Hc. by to_prop.
Qed.

Lemma first_mapping_found d ms :
  (exists s, (s, first_mapping d ms) ∈ ms /\ has_suffix d s) \/
  (first_mapping d ms = FamilyGeneric /\ forall s f, (s, f) ∈ ms -> ~ has_suffix d s).
Proof.
  induction ms as [|[s f] ms IH]; cbn.
  { right. split; [done|]. intros s f Hin. set_solver. }
  destruct (domain_matches_service d s) eqn:E.
  { left. exists s. rewrite domain_matches_service_spec in E. split; [apply list_elem_of_here | done]. }
  destruct IH as [(s' & Hin & Hs)|[-> Hno]]; [left; eauto using list_elem_of_further|].
  right. split; [done|]. intros s' f' [[= -> ->]|Hin]%elem_of_cons Hs; [|by eapply Hno].
  apply domain_matches_service_spec in Hs. congruence.
Qed.

(** The family of a domain does not depend on the order of the table: it is
    the family of any listed suffix, compared without ASCII case, and generic
    when there is none. *)
Theorem detect_service_family_spec (d : bytes) :
  (forall s f, (s, f) ∈ kDomainMappings -> has_suffix d s -> detect_service_family d = f) /\
  ((forall s f, (s, f) ∈ kDomainMappings -> ~ has_suffix d s) ->
   detect_service_family d = FamilyGeneric).
Proof.
  unfold detect_service_family.
  destruct (first_mapping_found d kDomainMappings) as [(t & Hin & Ht)|[Hg Hno]].
  - split; [|intros Hno; by destruct (Hno _ _ Hin)]. intros s f Hs Hd.
    destruct (has_suffix_nested d s t Hd Ht) as [Hn|Hn].
    + symmetry. by eapply kDomainMappings_unambiguous.
    + by eapply kDomainMappings_unambiguous.
  - rewrite Hg. split; [|done]. intros s f Hs Hd. by destruct (Hno s f Hs).
Qed.

(** The suffix test does not ask for a label boundary: a domain that merely
    ends with the letters of a service is treated as that service, where the
    documentation lists the domains [*.vk.com] and [*.yandex.ru]. *)
Theorem detect_service_family_no_label_boundary (p : bytes) :
  detect_service_family (p ++ str "notvk.com") = FamilyVk /\
  detect_service_family (p ++ str "evilya.ru") = FamilyYandex.
Proof.
  split.
  - apply (proj1 (detect_service_family_spec _) (str "vk.com")); [by vm_compute; set_solver|].
    exists (ascii_lower (p ++ str "not")). unfold ascii_lower. rewrite !fmap_app, <- app_assoc.
    reflexivity.
  - apply (proj1 (detect_service_family_spec _) (str "ya.ru")); [by vm_compute; set_solver|].
    exists (ascii_lower (p ++ str "evil")). unfold ascii_lower. rewrite !fmap_app, <- app_assoc.
    reflexivity.
Qed.

(** * Rotation of profiles *)

Definition pool_size (f : ServiceFamily) : Z := len (profile_pool_for_family f).

(** Every rotation state the module can reach satisfies this. *)
Definition rotation_wf (st : rotation_states) : Prop :=
  forall f, 0 <= pool_index (st f) < pool_size f /\ consecutive_failures (st f) = 0.

Lemma pool_size_pos f : 0 < pool_size f.
Proof. destruct f; reflexivity. Qed.

Lemma profile_from_pool_in f i : profile_from_pool f i ∈ profile_pool_for_family f.
Proof.
  unfold profile_from_pool. pose proof (pool_size_pos f) as Hp. unfold pool_size in Hp.
  pose proof (Z.mod_pos_bound i (len (profile_pool_for_family f)) Hp).
  apply list_elem_of_In, nth_In. unfold len in *. lia.
Qed.

Lemma set_rotation_eq f r st : set_rotation f r st f = r.
Proof. unfold set_rotation. by rewrite decide_True. Qed.

Lemma set_rotation_ne f g r st : g <> f -> set_rotation f r st g = st g.
Proof. intros. unfold set_rotation. by rewrite decide_False. Qed.

Lemma set_rotation_wf f r st :
  rotation_wf st -> 0 <= pool_index r < pool_size f -> consecutive_failures r = 0 ->
  rotation_wf (set_rotation f r st).
Proof.
  intros Hwf Hi Hc g. destruct (decide (g = f)) as [->|Hne].
  - by rewrite set_rotation_eq.
  - rewrite set_rotation_ne by done. apply Hwf.
Qed.

Lemma advance_rotation_wf f now st : rotation_wf st -> rotation_wf (advance_rotation f now st).
Proof.
  intros Hwf. apply set_rotation_wf; cbn; [done| |done].
  apply Z.mod_pos_bound, pool_size_pos.
Qed.

(** The module's calls, in any order and at any times, as a step relation. *)
Inductive rotation_step `{DpiBuild} : rotation_states -> rotation_states -> Prop :=
| step_failure domain now st :
    rotation_step st (on_tls_handshake_failure domain now st)
| step_timer domain now st :
    rotation_step st (maybe_rotate_profile_on_timer domain now st).

(** Rotation is live in this build. *)
Definition rotates `{DpiBuild} : Prop :=
  negb kDpiBypassAutoRotateProfiles || kDpiBypassStableProxyMode = false.

Lemma on_failure_lookup `{DpiBuild} d now st g :
  rotates ->
  on_tls_handshake_failure d now st g =
  if decide (g = detect_service_family d)
  then mk_rotation ((pool_index (st g) + 1) mod pool_size g) now 0 else st g.
Proof.
  unfold rotates, on_tls_handshake_failure. intros ->. cbn zeta.
  unfold advance_rotation, rotation_state_for_family.
  destruct (decide (g = detect_service_family d)) as [->|Hne].
  - by rewrite !set_rotation_eq.
  - by rewrite !set_rotation_ne.
Qed.

Lemma on_timer_lookup `{DpiBuild} d now st g :
  rotates ->
  maybe_rotate_profile_on_timer d now st g =
  if decide (g = detect_service_family d) then
    if last_rotation_unix_time (st g) =? 0 then
      mk_rotation (pool_index (st g)) now (consecutive_failures (st g))
    else if seconds kProfileRotationIntervalSec <=? now - last_rotation_unix_time (st g) then
      mk_rotation ((pool_index (st g) + 1) mod pool_size g) now 0
    else st g
  else st g.
Proof.
  unfold rotates, maybe_rotate_profile_on_timer. intros ->. cbn zeta.
  unfold advance_rotation, rotation_state_for_family.
  destruct (decide (g = detect_service_family d)) as [->|Hne].
  - destruct (_ =? 0); [by rewrite set_rotation_eq|].
    destruct (_ <=? _); [by rewrite set_rotation_eq | done].
  - destruct (_ =? 0); [by rewrite set_rotation_ne|].
    destruct (_ <=? _); [by rewrite set_rotation_ne | done].
Qed.

Lemma rotation_step_wf `{DpiBuild} st st' : rotation_wf st -> rotation_step st st' -> rotation_wf st'.
Proof.
  intros Hwf Hs g. destruct (Hwf g) as [Hi Hc].
  pose proof (Z.mod_pos_bound (pool_index (st g) + 1) _ (pool_size_pos g)).
  destruct (negb kDpiBypassAutoRotateProfiles || kDpiBypassStableProxyMode) eqn:E.
  { inversion Hs; subst; unfold on_tls_handshake_failure, maybe_rotate_profile_on_timer;
      rewrite E; done. }
  inversion Hs; subst; rewrite ?on_failure_lookup, ?on_timer_lookup by done;
    repeat case_match; done.
Qed.

(** Whatever sequence of handshake failures and timer checks happened,
    every pool index is inside its pool, the profile a new connection takes
    belongs to the family of its domain, and the failure counter reads zero
    (each failure rotates at once, so the counter is never observed above zero).
    *)
Theorem rotation_invariant `{DpiBuild} (st : rotation_states) :
  rtc rotation_step initial_rotation st ->
  rotation_wf st /\
  forall d, get_effective_profile d st ∈ profile_pool_for_family (detect_service_family d).
Proof.
  intros Hr. split; [|intros d; apply profile_from_pool_in].
  assert (Hi : rotation_wf initial_rotation).
  { intros f. cbn. pose proof (pool_size_pos f). lia. }
  induction Hr as [|x y z Hxy Hyz IH]; [done|]. eauto using rotation_step_wf.
Qed.

(** A build in stable proxy mode never rotates, and always takes the primary
    profile of the family. *)
Theorem stable_mode_is_static (st st' : rotation_states) :
  rotation_step (H := shipped) st st' ->
  st' = st /\
  forall d, pick_profile_for_domain (B := shipped) d st' =
            primary_profile_for_family (detect_service_family d).
Proof. intros Hs. inversion Hs; subst; done. Qed.

(** [n] failed handshakes with one domain. *)
Fixpoint fail_n `{DpiBuild} (d : bytes) (times : list Z) (st : rotation_states) : rotation_states :=
  match times with
  | [] => st
  | now :: times => fail_n d times (on_tls_handshake_failure d now st)
  end.

Lemma fail_n_index `{DpiBuild} d times st :
  rotates -> rotation_wf st ->
  pool_index (fail_n d times st (detect_service_family d)) =
  (pool_index (st (detect_service_family d)) + len times) mod pool_size (detect_service_family d).
Proof.
  intros Hrot. revert st. induction times as [|now times IH]; intros st Hwf.
  - cbn [fail_n]. rewrite len_nil, Z.add_0_r, Z.mod_small; [done|]. apply Hwf.
  - cbn [fail_n]. rewrite IH by eauto using rotation_step_wf, step_failure.
    rewrite on_failure_lookup by done. rewrite decide_True by done. cbn [pool_index].
    rewrite Zplus_mod_idemp_l, len_cons. f_equal. lia.
Qed.

(** With rotation enabled no profile is starved: for each profile of the
    domain's pool some number of failed handshakes, smaller than the size of the
    pool, makes it the profile of the next connection. *)
Theorem rotation_reaches_every_profile `{DpiBuild} (d : bytes) (st : rotation_states)
    (p : TlsProfile) :
  rotates -> rotation_wf st -> p ∈ profile_pool_for_family (detect_service_family d) ->
  exists n, (n < length (profile_pool_for_family (detect_service_family d)))%nat /\
    forall times, length times = n -> get_effective_profile d (fail_n d times st) = p.
Proof.
  intros Hrot Hwf Hp. set (f := detect_service_family d) in *.
  apply list_elem_of_lookup in Hp as [i Hi].
  pose proof (lookup_lt_Some _ _ _ Hi) as Hlt.
  assert (Hs : pool_size f = Z.of_nat (length (profile_pool_for_family f))) by done.
  pose proof (proj1 (Hwf f)) as Hj. set (j := pool_index (st f)) in *.
  pose proof (Z.mod_pos_bound (Z.of_nat i - j) (pool_size f) (pool_size_pos f)) as Hm.
  exists (Z.to_nat ((Z.of_nat i - j) mod pool_size f)). split; [lia|].
  intros times Ht. unfold get_effective_profile, rotation_state_for_family. fold f.
  unfold f. rewrite fail_n_index by done. fold f j. unfold profile_from_pool.
  change (len (profile_pool_for_family f)) with (pool_size f).
  rewrite Z.mod_mod by lia. unfold len. rewrite Ht, Z2Nat.id by lia.
  rewrite Zplus_mod_idemp_r. replace (j + (Z.of_nat i - j)) with (Z.of_nat i) by lia.
  rewrite Z.mod_small, Nat2Z.id by lia.
  apply nth_lookup_Some. done.
Qed.

(** The timer: a check less than 1800 s after the last rotation keeps the
    profile, a later one moves to the next profile of the pool exactly once, and
    other families are never touched. *)
Theorem timer_rotation_interval `{DpiBuild} (d : bytes) (now : Z) (st : rotation_states) :
  rotates -> last_rotation_unix_time (st (detect_service_family d)) <> 0 ->
  let f := detect_service_family d in
  let st' := maybe_rotate_profile_on_timer d now st in
  (now - last_rotation_unix_time (st f) < seconds 1800 -> st' f = st f) /\
  (seconds 1800 <= now - last_rotation_unix_time (st f) ->
     pool_index (st' f) = (pool_index (st f) + 1) mod pool_size f /\
     last_rotation_unix_time (st' f) = now) /\
  (forall g, g <> f -> st' g = st g).
Proof.
  intros Hrot Hne. cbn zeta. split_and!.
  - intros Hlt. rewrite on_timer_lookup by done. rewrite decide_True by done.
    rewrite (proj2 (Z.eqb_neq _ _)) by done.
    unfold kProfileRotationIntervalSec. rewrite (proj2 (Z.leb_gt _ _)) by lia. done.
  - intros Hge. rewrite on_timer_lookup by done. rewrite decide_True by done.
    rewrite (proj2 (Z.eqb_neq _ _)) by done.
    unfold kProfileRotationIntervalSec. rewrite (proj2 (Z.leb_le _ _)) by lia. done.
  - intros g Hg. rewrite on_timer_lookup by done. by rewrite decide_False.
Qed.

(** * Fragmentation and record sizes *)

Section fragmentation.
Context {B : DpiBuild} {G : Type} `{RandomLaws G}.

(** The fragments carry the packet, whatever the cut points. *)
Lemma split_at_cuts_concat offset cuts packet :
  0 <= offset -> Sorted Z.le (offset :: cuts) ->
  concat (split_at_cuts offset cuts packet) = substr_from offset packet.
Proof.
  revert offset. induction cuts as [|c cuts IH]; intros offset Ho Hs; cbn.
  { by rewrite app_nil_r. }
  inversion Hs as [|? ? Hs' Hle]; subst. inversion Hle; subst.
  rewrite IH by (done || lia). unfold substr, substr_from.
  replace (Z.to_nat c) with (Z.to_nat offset + Z.to_nat (c - offset))%nat by lia.
  by rewrite <- drop_drop, take_drop.
Qed.

Lemma length_split_at_cuts offset cuts packet :
  length (split_at_cuts offset cuts packet) = S (length cuts).
Proof. revert offset; induction cuts; intros; cbn; auto. Qed.

Lemma choose_cuts_spec k i parts size g cuts :
  0 < i -> i + Z.of_nat k = parts -> parts * 32 <= size < 2 ^ 30 ->
  (choose_cuts k i parts size g).1 = Some cuts ->
  length cuts = k /\ Forall (fun c => 32 <= c <= size - 32) cuts.
Proof.
  revert i g cuts. induction k as [|k IH]; intros i g cuts Hi Hk Hsz; cbn.
  { intros [= <-]. done. }
  destruct (Z.leb_spec (size - (parts - i) * 32) (i * 32)) as [|Hlt]; [done|].
  pose proof (fast_range (i * 32) (size - (parts - i) * 32) g ltac:(lia) ltac:(lia)) as Hc.
  destruct (fast _ _ g) as [c g1]. cbn in Hc.
  specialize (IH (i + 1) g1). destruct (choose_cuts k (i + 1) parts size g1) as [[r|] g2];
    cbn; [|done].
  intros [= <-]. destruct (IH r ltac:(lia) ltac:(lia) ltac:(lia) eq_refl) as [Hl Hf].
  cbn. split; [lia|]. constructor; [lia | done].
Qed.

Lemma Sorted_cons_Forall (x : Z) l : Sorted Z.le l -> Forall (Z.le x) l -> Sorted Z.le (x :: l).
Proof. intros Hs Hf. constructor; [done|]. destruct Hf; by constructor. Qed.

(** What [fragment_client_hello] promises about its result. *)
Record fragments_ok (packet : bytes) (max_parts : Z) (fs : list bytes) : Prop := {
  fragments_concat : concat fs = packet;
  fragments_count : len fs <= Z.max 1 max_parts;
  fragments_whole_or_cut : fs = [packet] \/ 2 <= len fs;
  fragments_first : forall f, head fs = Some f -> fs = [packet] \/ 32 <= len f;
  fragments_last : forall f, last fs = Some f -> fs = [packet] \/ 32 <= len f;
}.

Lemma fragments_ok_whole packet max_parts : fragments_ok packet max_parts [packet].
Proof.
  constructor; cbn; [apply app_nil_r | rewrite len_cons, len_nil; lia | auto..].
Qed.

Lemma split_head_len cuts packet f :
  cuts <> [] -> Forall (fun c => 32 <= c <= len packet - 32) cuts ->
  head (split_at_cuts 0 cuts packet) = Some f -> 32 <= len f.
Proof.
  intros Hne Hf. destruct cuts as [|c cuts]; [done|]. cbn. intros [= <-].
  inversion Hf; subst. rewrite len_substr; lia.
Qed.

Lemma split_last_len offset cuts packet f :
  cuts <> [] -> Forall (fun c => 32 <= c <= len packet - 32) cuts ->
  last (split_at_cuts offset cuts packet) = Some f -> 32 <= len f.
Proof.
  revert offset. induction cuts as [|c cuts IH]; intros offset Hne Hf; [done|].
  inversion Hf as [|? ? Hc Hf']; subst. cbn [split_at_cuts].
  destruct cuts as [|c' cuts].
  - cbn. intros [= <-]. unfold substr_from. rewrite len_drop; lia.
  - intros Hl. apply (IH c); [done|done|]. done.
Qed.

(** C37: Fragmentation never loses, reorders or duplicates a byte and never
    makes more fragments than asked for, for every sequence of random draws;
    when it cuts, the first and the last fragment have at least 32 bytes. *)
Theorem fragment_client_hello_ok (packet : bytes) (min_parts max_parts : Z) (g : G) :
  packet <> [] -> len packet < 2 ^ 30 -> min_parts <= max_parts < 2 ^ 30 ->
  fragments_ok packet max_parts (fragment_client_hello packet min_parts max_parts g).1.
Proof.
  intros Hp Hlen Hparts. unfold fragment_client_hello.
  destruct (Z.eqb_spec (len packet) 0) as [E|_]; [by apply len_zero_nil in E|].
  destruct (kDpiBypassStableProxyMode || (min_parts <=? 1)) eqn:Em;
    [apply fragments_ok_whole|]. to_prop.
  destruct (Z.ltb_spec (len packet) 64); [apply fragments_ok_whole|].
  pose proof (fast_range min_parts max_parts g ltac:(lia) ltac:(lia)) as Hn.
  destruct (fast min_parts max_parts g) as [n g1]. cbn in Hn.
  set (parts := n `min` (len packet / 32)).
  destruct (Z.leb_spec parts 1); [apply fragments_ok_whole|].
  assert (parts * 32 <= len packet).
  { pose proof (Z.mul_div_le (len packet) 32 ltac:(lia)). lia. }
  pose proof (choose_cuts_spec (Z.to_nat (parts - 1)) 1 parts (len packet) g1) as Hspec.
  destruct (choose_cuts _ _ _ _ g1) as [[cuts|] g2]; cbn; [|apply fragments_ok_whole].
  destruct (Hspec cuts ltac:(lia) ltac:(lia) ltac:(lia) eq_refl) as [Hl Hf].
  assert (Hperm : merge_sort Z.le cuts ≡ₚ cuts) by apply merge_sort_Permutation.
  assert (Hf' : Forall (fun c => 32 <= c <= len packet - 32) (merge_sort Z.le cuts))
    by (by rewrite Hperm).
  assert (Hl' : length (merge_sort Z.le cuts) = length cuts) by (by rewrite Hperm).
  assert (Hne : merge_sort Z.le cuts <> []) by (intros E; rewrite E in Hl'; cbn in Hl'; lia).
  constructor.
  - rewrite split_at_cuts_concat; [done|done|].
    apply Sorted_cons_Forall; [apply Sorted_merge_sort; apply _|].
    eapply Forall_impl; [exact Hf' | cbn; lia].
  - unfold len. rewrite length_split_at_cuts. lia.
  - right. unfold len. rewrite length_split_at_cuts. lia.
  - intros f Hh. right. by eapply split_head_len.
  - intros f Hh. right. by eapply split_last_len.
Qed.

(** The size of a TLS record: the default in stable mode, and otherwise a
    value between 1024 and the default. *)
Theorem pick_random_record_size_bounds (default_max : Z) (g : G) :
  0 < default_max < 2 ^ 30 ->
  0 < (pick_random_record_size default_max g).1 <= default_max /\
  Z.min 1024 default_max <= (pick_random_record_size default_max g).1.
Proof.
  intros Hd. unfold pick_random_record_size.
  destruct kDpiBypassStableProxyMode; [cbn; lia|].
  destruct (Z.leb_spec default_max 1024); [cbn; lia|].
  pose proof (fast_range 1024 default_max g ltac:(lia) ltac:(lia)). lia.
Qed.
End fragmentation.

(** The cut points are drawn independently, so two of them may coincide: a
    ClientHello of 128 bytes can be cut into fragments of 64, 0 and 64 bytes,
    although the code announces cut points "with a minimal fragment size". *)
Theorem fragment_client_hello_empty_fragment (packet : bytes) :
  len packet = 128 ->
  exists g : script,
    (fragment_client_hello (B := full_bypass) packet 2 3 g).1 =
    [substr 0 64 packet; []; substr_from 64 packet].
Proof.
  intros Hl. exists (mk_script [1; 32; 0] []). unfold fragment_client_hello.
  rewrite Hl. cbn -[substr substr_from merge_sort Z.le]. reflexivity.
Qed.

Lemma fragment_client_hello_empty_fragment_witness :
  exists g : script,
    (fragment_client_hello (B := full_bypass) (zeros 128) 2 3 g).1 = [zeros 64; []; zeros 64].
Proof.
  apply (fragment_client_hello_empty_fragment (zeros 128)). reflexivity.
Defined.

(** ** Witnesses *)

Lemma fragment_client_hello_ok_witness :
  fragments_ok (zeros 200) 3
    (fragment_client_hello (B := full_bypass) (zeros 200) 2 3 (mk_script [1; 7; 9] [])).1 /\
  length (fragment_client_hello (B := full_bypass) (zeros 200) 2 3 (mk_script [1; 7; 9] [])).1
    = 3%nat.
Proof.
  split; [|vm_compute; reflexivity].
  apply fragment_client_hello_ok; [discriminate | reflexivity | split; [discriminate | reflexivity]].
Defined.

Lemma pick_random_record_size_bounds_witness :
  0 < (pick_random_record_size (B := full_bypass) 2878 (mk_script [77] [])).1 <= 2878 /\
  Z.min 1024 2878 <= (pick_random_record_size (B := full_bypass) 2878 (mk_script [77] [])).1.
Proof. apply pick_random_record_size_bounds. split; reflexivity. Defined.

Lemma rotation_invariant_witness :
  let st := on_tls_handshake_failure (B := full_bypass) (str "ya.ru") 5 initial_rotation in
  (rotation_wf st /\
   forall d, get_effective_profile d st ∈ profile_pool_for_family (detect_service_family d)) /\
  get_effective_profile (str "ya.ru") st = Chrome.
Proof.
  split; [|vm_compute; reflexivity].
  apply (rotation_invariant (H := full_bypass)). eapply rtc_l; [|apply rtc_refl].
  apply (step_failure (H := full_bypass)).
Defined.

Lemma stable_mode_is_static_witness :
  let st' := maybe_rotate_profile_on_timer (B := shipped) (str "vk.com") 9 initial_rotation in
  st' = initial_rotation /\
  forall d, pick_profile_for_domain (B := shipped) d st' =
            primary_profile_for_family (detect_service_family d).
Proof.
  apply (stable_mode_is_static initial_rotation). apply (step_timer (H := shipped)).
Defined.

Lemma rotation_reaches_every_profile_witness :
  exists n, (n < 4)%nat /\ forall times, length times = n ->
    get_effective_profile (str "example.com")
      (fail_n (H := full_bypass) (str "example.com") times initial_rotation) = Safari.
Proof.
  apply (rotation_reaches_every_profile (H := full_bypass) (str "example.com") initial_rotation).
  - reflexivity.
  - intros f. destruct f; repeat split; discriminate.
  - vm_compute. repeat constructor.
Defined.

Lemma timer_rotation_interval_witness :
  let st := maybe_rotate_profile_on_timer (B := full_bypass) (str "ya.ru") (seconds 5) initial_rotation in
  pool_index (maybe_rotate_profile_on_timer (B := full_bypass) (str "ya.ru") (seconds 1805) st
    FamilyYandex) = 1.
Proof.
  set (st := maybe_rotate_profile_on_timer _ _ _). cbn zeta.
  refine (proj1 (proj1 (proj2 (timer_rotation_interval (H := full_bypass) (str "ya.ru")
    (seconds 1805) st _ _)) _)); vm_compute; congruence.
Defined.
