(* ===== verification/BigNum.v ===== *)
(** Modular arithmetic of [tdutils/td/utils/BigNum.cpp], and the generation of
    the key share of a ClientHello, [TlsHelloStore::do_op] for [Type::Key].

    A [BigNum] is a [Z].  The wrapper calls OpenSSL's [BN_mod_*], which is not
    in the repository: the operations are the class [BigNumOps] with their
    documented results as [BigNumLaws].  [ZBigNum] is an instance for concrete
    runs. *)
From S2P Require Import Prelude Bytes Random.
#[local] Open Scope Z_scope.

Class BigNumOps := {
  mod_add : Z -> Z -> Z -> Z;
  mod_sub : Z -> Z -> Z -> Z;
  mod_mul : Z -> Z -> Z -> Z;
  mod_exp : Z -> Z -> Z -> Z;
  mod_inverse : Z -> Z -> option Z;
}.

Class BigNumLaws `{BigNumOps} : Prop := {
  mod_add_spec a b m : 0 < m -> mod_add a b m = (a + b) mod m;
  mod_sub_spec a b m : 0 < m -> mod_sub a b m = (a - b) mod m;
  mod_mul_spec a b m : 0 < m -> mod_mul a b m = (a * b) mod m;
  mod_exp_spec a p m : 0 < m -> 0 <= p -> mod_exp a p m = (a ^ p) mod m;
  mod_inverse_spec a m r : 0 < m -> mod_inverse a m = Some r -> (a * r) mod m = 1 mod m;
}.

(** [BigNum::to_le_binary(exact_size)] with its [CHECK(exact_size >= num_size)]. *)
Definition to_le_binary (exact_size : Z) (x : Z) : outcome bytes :=
  _ ← check ((0 <=? x) && (x <? 256 ^ exact_size));
  Ok (le_store (Z.to_nat exact_size) x).

(** 2^255 - 19 and (2^255 - 19 - 1) / 2, the hexadecimal constants of the code. *)
Definition curve_mod : Z := 0x7fffffffffffffffffffffffffffffffffffffffffffffffffffffffffffffed.
Definition curve_pow : Z := 0x3ffffffffffffffffffffffffffffffffffffffffffffffffffffffffffffff6.

Section key.
Context `{BigNumOps}.

(** [y = x^3 + 486662 x^2 + x]. *)
Definition get_y2 (x mod_ : Z) : Z :=
  let y := mod_add x 486662 mod_ in
  let y := mod_mul y x mod_ in
  let y := mod_add y 1 mod_ in
  mod_mul y x mod_.

(** [x_2 = (x^2 - 1)^2 / (4 y^2)]; when the inverse does not exist the code
    logs an error and multiplies by the denominator. *)
Definition get_double_x (x mod_ : Z) : Z :=
  let denominator := get_y2 x mod_ in
  let denominator := mod_mul denominator 4 mod_ in
  let numerator := mod_mul x x mod_ in
  let numerator := mod_sub numerator 1 mod_ in
  let numerator := mod_mul numerator numerator mod_ in
  let denominator :=
    match mod_inverse denominator mod_ with
    | Some r => r
    | None => denominator
    end in
  mod_mul numerator denominator mod_.

Definition is_quadratic_residue (a : Z) : bool := mod_exp a curve_pow curve_mod =? 1.

Context {G : Type} `{RandomSource G}.

(** One pass of the [while (true)] loop: 32 random bytes with the top bit of
    the last one cleared, read as a big-endian number. *)
Definition key_candidate (g : G) : Z * G :=
  let '(key, g) := secure_bytes 32 g in
  let key := alter (fun c => z2b (Z.land (b2z c) 127)) 31%nat key in
  (be_load key, g).

(** The loop; [fuel] bounds the number of passes and [None] means that it is
    still running. *)
Fixpoint gen_key (fuel : nat) (g : G) : option (outcome bytes) * G :=
  match fuel with
  | O => (None, g)
  | S fuel =>
      let '(x, g) := key_candidate g in
      if is_quadratic_residue (get_y2 x curve_mod) then
        let x := get_double_x x curve_mod in
        let x := get_double_x x curve_mod in
        let x := get_double_x x curve_mod in
        (Some (to_le_binary 32 x), g)
      else gen_key fuel g
  end.

(** From [g], one of the next [fuel] candidates is accepted. *)
Fixpoint key_within (fuel : nat) (g : G) : bool :=
  match fuel with
  | O => false
  | S fuel =>
      let '(x, g) := key_candidate g in
      is_quadratic_residue (get_y2 x curve_mod) || key_within fuel g
  end.
End key.

Section key_lemmas.
Context `{BigNumLaws} {G : Type} `{RandomLaws G}.

Lemma get_y2_spec x m : 0 < m -> get_y2 x m = (x ^ 3 + 486662 * x ^ 2 + x) mod m.
Proof.
  intros Hm. unfold get_y2. rewrite !mod_mul_spec, !mod_add_spec by done.
  rewrite !Z.mul_mod_idemp_l by lia.
  set (u := (x + 486662) * x).
  replace ((u mod m + 1) * x) with (u mod m * x + x) by ring.
  rewrite <- Z.add_mod_idemp_l, Z.mul_mod_idemp_l, Z.add_mod_idemp_l by lia.
  f_equal. unfold u. ring.
Qed.

Lemma get_double_x_range x m : 0 < m -> 0 <= get_double_x x m < m.
Proof.
  intros Hm. unfold get_double_x. rewrite mod_mul_spec by done. by apply Z.mod_pos_bound.
Qed.

(** The doubling formula of the curve, when the denominator is invertible. *)
Lemma get_double_x_spec x m :
  0 < m -> is_Some (mod_inverse (mod_mul (get_y2 x m) 4 m) m) ->
  (get_double_x x m * (4 * (x ^ 3 + 486662 * x ^ 2 + x))) mod m = ((x ^ 2 - 1) ^ 2) mod m.
Proof.
  intros Hm [r Hr]. unfold get_double_x. rewrite Hr.
  apply mod_inverse_spec in Hr; [|done]. rewrite mod_mul_spec, get_y2_spec in Hr by done.
  rewrite Z.mul_mod_idemp_l, <- Z.mul_assoc, Z.mul_mod_idemp_l, Z.mul_assoc in Hr by lia.
  rewrite (mod_mul_spec x x), mod_sub_spec, !mod_mul_spec by done.
  set (Y := x ^ 3 + 486662 * x ^ 2 + x) in *.
  set (N := ((x * x) mod m - 1) mod m).
  assert (HN : N mod m = (x ^ 2 - 1) mod m).
  { unfold N. rewrite Z.mod_mod, Zminus_mod_idemp_l by lia. f_equal. ring. }
  rewrite Z.mul_mod_idemp_l, <- (Z.mul_assoc _ r), Z.mul_mod_idemp_l by lia.
  replace (N * N * (r * (4 * Y))) with (N * N * ((Y * 4) * r)) by ring.
  rewrite Z.mul_mod, Hr, <- Z.mul_mod, Z.mul_1_r by lia.
  rewrite Z.mul_mod, HN, <- Z.mul_mod by lia. f_equal. ring.
Qed.

Lemma gen_key_within fuel g :
  key_within fuel g = true ->
  exists x, (gen_key fuel g).1 = Some (Ok (le_store 32 x)) /\ 0 <= x < curve_mod.
Proof.
  revert g. induction fuel as [|fuel IH]; intros g; cbn; [done|].
  destruct (key_candidate g) as [x g'].
  destruct (is_quadratic_residue (get_y2 x curve_mod)); cbn; [|apply IH].
  intros _. set (y := get_double_x _ _).
  pose proof (get_double_x_range (get_double_x (get_double_x x curve_mod) curve_mod)
    curve_mod ltac:(done)) as Hr. fold y in Hr.
  exists y. split; [|done]. unfold to_le_binary.
  rewrite (proj2 (Z.leb_le 0 y)), (proj2 (Z.ltb_lt y (256 ^ 32))); [done| |lia].
  unfold curve_mod in Hr. lia.
Qed.
End key_lemmas.

(** * An instance for concrete runs *)

Fixpoint pow_mod_pos (a : Z) (p : positive) (m : Z) : Z :=
  match p with
  | xH => a mod m
  | xO p => let r := pow_mod_pos a p m in (r * r) mod m
  | xI p => let r := pow_mod_pos a p m in (r * r * a) mod m
  end.

Lemma pow_mod_pos_spec a p m : 0 < m -> pow_mod_pos a p m = (a ^ Z.pos p) mod m.
Proof.
  intros Hm. induction p as [p IH|p IH|]; cbn [pow_mod_pos].
  - rewrite IH, Pos2Z.inj_xI, Z.pow_add_r, Z.pow_twice_r, Z.pow_1_r by lia.
    rewrite <- (Z.mul_mod_idemp_l (_ * _) a), <- Z.mul_mod, Z.mul_mod_idemp_l by lia. done.
  - rewrite IH, Pos2Z.inj_xO, Z.pow_twice_r, <- Z.mul_mod by lia. done.
  - by rewrite Z.pow_1_r.
Qed.

#[export] Instance ZBigNum : BigNumOps := {|
  mod_add a b m := (a + b) mod m;
  mod_sub a b m := (a - b) mod m;
  mod_mul a b m := (a * b) mod m;
  mod_exp a p m := match p with Z.pos p => pow_mod_pos a p m | _ => 1 mod m end;
  mod_inverse a m :=
    let r := match m - 2 with Z.pos p => pow_mod_pos a p m | _ => 1 mod m end in
    if (a * r) mod m =? 1 mod m then Some r else None;
|}.

#[export] Instance ZBigNum_laws : BigNumLaws.
Proof.
  constructor; try done.
  - intros a [|p|p] m Hm Hp; cbn; [by rewrite Z.pow_0_r | by apply pow_mod_pos_spec | lia].
  - intros a m r Hm. unfold mod_inverse, ZBigNum.
    destruct (Z.eqb_spec ((a * match m - 2 with Z.pos p => pow_mod_pos a p m | _ => 1 mod m end) mod m)
                (1 mod m)); [|done]. by intros [= <-].
Qed.
