(* ===== verification/Factorize.v ===== *)
(** Factorization of the server's [pq]: [pq_factorize] of
    [tdutils/td/utils/crypto.cpp].

    The 64-bit version runs on [uint64] values with their wrap-around; its
    loops have a fuel that is shown to be enough.  The version for larger
    numbers works on OpenSSL's numbers, [BigNumOps] and [FactorOps].  Both are
    Pollard's rho with Brent's choice of the values that are compared; [orbit],
    [rho_gcd] and the relations [tried] and [big_tried] say what that is, over
    the integers and without any loop of the code. *)
From S2P Require Import Prelude Bytes Random BigNum.
From Stdlib Require Import Znumtheory.
#[local] Open Scope Z_scope.

(** [Random::fast_uint64]. *)
Class FastUint64 (G : Type) := { fast_uint64 : G -> Z * G }.

Class FastUint64Laws (G : Type) `{FastUint64 G} : Prop := {
  fast_uint64_range g : 0 <= (fast_uint64 g).1 < 2 ^ 64;
}.

(** [BN_gcd] and [BN_div]. *)
Class FactorOps := {
  bn_gcd : Z -> Z -> Z;
  bn_div : Z -> Z -> Z;
}.

Class FactorLaws `{FactorOps} : Prop := {
  bn_gcd_spec a b : 0 <= a -> 0 < b -> bn_gcd a b = Z.gcd a b;
  bn_div_spec a b : 0 <= a -> 0 < b -> bn_div a b = a / b;
}.

(** * 64-bit numbers *)

(** [while ((a & 1) == 0) { a >>= 1; }] *)
Fixpoint strip_twos (fuel : nat) (a : Z) : option Z :=
  match fuel with
  | O => None
  | S fuel => if Z.land a 1 =? 0 then strip_twos fuel (Z.shiftr a 1) else Some a
  end.

Fixpoint gcd_loop (fuel : nat) (a b : Z) : option Z :=
  match fuel with
  | O => None
  | S fuel =>
      if b <? a then
        a ← strip_twos 64 (Z.shiftr (uint64 (a - b)) 1); gcd_loop fuel a b
      else if a <? b then
        b ← strip_twos 64 (Z.shiftr (uint64 (b - a)) 1); gcd_loop fuel a b
      else Some a
  end.

Definition pq_gcd (a b : Z) : option Z :=
  if a =? 0 then Some b
  else a ← strip_twos 64 a; gcd_loop 65 a b.

Fixpoint add_mul_loop (fuel : nat) (c a b pq : Z) : option Z :=
  match fuel with
  | O => None
  | S fuel =>
      if b =? 0 then Some c
      else
        let c := if negb (Z.land b 1 =? 0) then
                   let c := uint64 (c + a) in if pq <=? c then uint64 (c - pq) else c
                 else c in
        let a := uint64 (a + a) in
        let a := if pq <=? a then uint64 (a - pq) else a in
        add_mul_loop fuel c a (Z.shiftr b 1) pq
  end.

Definition pq_add_mul (c a b pq : Z) : option Z := add_mul_loop 65 c a b pq.

(** The loop over [j]: [k] passes are left.  The result is [g] and [iter]. *)
Fixpoint factor_walk (k : nat) (j q pq x y g iter : Z) : option (Z * Z) :=
  match k with
  | O => Some (g, iter)
  | S k =>
      let iter := iter + 1 in
      x ← pq_add_mul q x x pq;
      let z := if x <? y then uint64 (uint64 (pq + x) - y) else uint64 (x - y) in
      g ← pq_gcd z pq;
      if negb (g =? 1) then Some (g, iter)
      else
        let y := if Z.land j (j - 1) =? 0 then x else y in
        factor_walk k (j + 1) q pq x y g iter
  end.

Section factorize.
Context {G : Type} `{RandomSource G} `{!FastUint64 G}.

(** The loop over [i]. *)
Fixpoint factor_tries (fuel : nat) (i iter g pq : Z) (gen : G) : option (Z * G) :=
  match fuel with
  | O => None
  | S fuel =>
      if (i <? 3) || (iter <? 1000) then
        let '(r, gen) := fast 17 32 gen in
        let q := r mod (pq - 1) in
        let '(u, gen) := fast_uint64 gen in
        let x := u mod (pq - 1) + 1 in
        let y := x in
        let lim := Z.shiftl 1 (Z.min 5 i + 18) in
        r ← factor_walk (Z.to_nat (lim - 1)) 1 q pq x y g iter;
        let '(g, iter) := r in
        if (1 <? g) && (g <? pq) then Some (g, gen)
        else factor_tries fuel (i + 1) iter g pq gen
      else Some (g, gen)
  end.

Definition tries_fuel : nat := 1001.

Definition pq_factorize (pq : Z) (gen : G) : option (Z * G) :=
  if (pq <=? 2) || (Z.shiftl 1 63 <? pq) then Some (1, gen)
  else if Z.land pq 1 =? 0 then Some (2, gen)
  else
    r ← factor_tries tries_fuel 0 0 0 pq gen;
    let '(g, gen) := r in
    let g := if negb (g =? 0) then let other := pq / g in if other <? g then other else g else g in
    Some (g, gen).

(** [as_big_endian_string<uint64>]. *)
Fixpoint drop_zeros (s : bytes) : bytes :=
  match s with
  | b :: s' => if b2z b =? 0 then drop_zeros s' else s
  | [] => []
  end.

Definition as_big_endian_string (from : Z) : bytes := drop_zeros (reverse (le_store 8 from)).

(** * [pq_factorize_big] *)
Context `{BigNumOps} `{FactorOps}.

(** [BN_mod_mul] fails for a modulus of zero, which is fatal. *)
Definition big_mod_mul (a b m : Z) : outcome Z :=
  _ ← check (negb (m =? 0)); Ok (mod_mul a b m).

Fixpoint big_walk (k : nat) (j t pq a b iter : Z) : outcome (option Z * Z) :=
  match k with
  | O => Ok (None, iter)
  | S k =>
      let iter := iter + 1 in
      a ← big_mod_mul a a pq;
      let a := a + t in
      let a := if pq <=? a then a - pq else a in
      let q := if b <? a then a - b else b - a in
      let p := bn_gcd q pq in
      if negb (p =? 1) then Ok (Some p, iter)
      else
        let b := if Z.land j (j - 1) =? 0 then a else b in
        big_walk k (j + 1) t pq a b iter
  end.

Fixpoint big_tries (fuel : nat) (i iter pq : Z) (gen : G) : option (outcome (option Z) * G) :=
  match fuel with
  | O => None
  | S fuel =>
      if (i <? 3) || (iter <? 1000) then
        let '(t, gen) := fast 17 32 gen in
        let '(a, gen) := fast_uint32 gen in
        let b := a in
        let lim := Z.shiftl 1 (i + 23) in
        match big_walk (Z.to_nat (lim - 1)) 1 t pq a b iter with
        | Ok (Some p, _) => Some (Ok (Some p), gen)
        | Ok (None, iter) => big_tries fuel (i + 1) iter pq gen
        | Err e => Some (Err e, gen)
        | Crash => Some (Crash, gen)
        end
      else Some (Ok None, gen)
  end.

Definition big_fuel : nat := 4.

(** [BigNum::to_binary()]: no leading zeros. *)
Definition to_binary_min (x : Z) : bytes :=
  drop_zeros (reverse (le_store (Z.to_nat (Z.log2 x / 8 + 1)) x)).

(** [-1] is [None]. *)
Definition pq_factorize_big (pq_str : bytes) (gen : G) : option (outcome (option (bytes * bytes)) * G) :=
  let pq := be_load pq_str in
  r ← big_tries big_fuel 0 0 pq gen;
  let '(r, gen) := r in
  Some (found ← r;
        match found with
        | Some p =>
            let q := bn_div pq p in
            let '(p, q) := if q <? p then (q, p) else (p, q) in
            Ok (Some (to_binary_min p, to_binary_min q))
        | None => Ok None
        end, gen).

(** [pq = (pq << 8) | ptr[i]] *)
Definition load_uint64 (s : bytes) : Z :=
  foldl (fun pq c => Z.lor (uint64 (Z.shiftl pq 8)) (b2z c)) 0 s.

Definition pq_factorize_str (pq_str : bytes) (gen : G) : option (outcome (option (bytes * bytes)) * G) :=
  let size := len pq_str in
  if (8 <? int32 size) || ((int32 size =? 8) && negb (Z.land (b2z (nth_byte pq_str 0)) 128 =? 0)) then
    pq_factorize_big pq_str gen
  else
    let pq := load_uint64 (truncate (int32 size) pq_str) in
    r ← pq_factorize pq gen;
    let '(p, gen) := r in
    if (p =? 0) || negb (pq mod p =? 0) then Some (Ok None, gen)
    else Some (Ok (Some (as_big_endian_string p, as_big_endian_string (pq / p))), gen).
End factorize.

(** * The arithmetic of the 64-bit version *)

Lemma land_1 a : Z.land a 1 = a mod 2.
Proof. change 1 with (Z.ones 1) at 1. rewrite Z.land_ones by lia. done. Qed.

Lemma shiftr_1 a : Z.shiftr a 1 = a / 2.
Proof. by rewrite Z.shiftr_div_pow2. Qed.

Lemma gcd_double a b : b mod 2 = 1 -> Z.gcd (2 * a) b = Z.gcd a b.
Proof.
  intros Hb. apply Z.divide_antisym_nonneg; try apply Z.gcd_nonneg.
  - apply Z.gcd_greatest; [|apply Z.gcd_divide_r]. set (d := Z.gcd (2 * a) b).
    apply (Z.gauss d 2 a); [apply Z.gcd_divide_l|].
    assert (Hd : (d | b)) by apply Z.gcd_divide_r. destruct Hd as [k Hk].
    destruct (Z.eq_dec (d mod 2) 0) as [He|He].
    + exfalso. apply Z.mod_divide in He as [m ->]; [|lia]. subst b.
      rewrite Z.mul_assoc, Z_mod_mult in Hb. lia.
    + assert (Hg : (Z.gcd d 2 | 2)) by apply Z.gcd_divide_r. apply Z.divide_pos_le in Hg as Hle; [|lia].
      pose proof (Z.gcd_nonneg d 2). destruct (Z.eq_dec (Z.gcd d 2) 2) as [H2|H2].
      * exfalso. apply He. apply Z.mod_divide; [lia|]. rewrite <- H2. apply Z.gcd_divide_l.
      * assert (Z.gcd d 2 <> 0) by (intros H0; apply Z.gcd_eq_0_r in H0; lia). lia.
  - apply Z.gcd_greatest; [|apply Z.gcd_divide_r]. apply Z.divide_mul_r, Z.gcd_divide_l.
Qed.

Lemma strip_twos_ok fuel a b :
  0 < a < 2 ^ Z.of_nat fuel -> b mod 2 = 1 ->
  exists a', strip_twos fuel a = Some a' /\ a' mod 2 = 1 /\ 0 < a' <= a /\ Z.gcd a' b = Z.gcd a b.
Proof.
  intros Ha Hb. revert a Ha. induction fuel as [|fuel IH]; intros a Ha; [cbn in Ha; lia|].
  cbn [strip_twos]. rewrite land_1, shiftr_1. rewrite Nat2Z.inj_succ, Z.pow_succ_r in Ha by lia.
  destruct (Z.eqb_spec (a mod 2) 0) as [He|He].
  - destruct (IH (a / 2)) as (a' & -> & Ho & Hr & Hg); [div_mod_lia|].
    exists a'. split; [done|]. split; [done|]. split; [div_mod_lia|].
    rewrite Hg, <- (gcd_double (a / 2)) by done. f_equal. div_mod_lia.
  - exists a. split; [done|]. split; [div_mod_lia|]. split; [lia|done].
Qed.

Lemma gcd_loop_ok fuel a b :
  0 < a < 2 ^ 64 -> 0 < b < 2 ^ 64 -> a mod 2 = 1 -> b mod 2 = 1 -> a + b < 2 ^ Z.of_nat fuel ->
  gcd_loop fuel a b = Some (Z.gcd a b).
Proof.
  revert a b. induction fuel as [|fuel IH]; intros a b Ha Hb Hao Hbo Hs; [cbn in Hs; lia|].
  cbn [gcd_loop]. rewrite Nat2Z.inj_succ, Z.pow_succ_r in Hs by lia.
  destruct (Z.ltb_spec b a); [|destruct (Z.ltb_spec a b)].
  - unfold uint64. rewrite shiftr_1, Z.mod_small by lia.
    destruct (strip_twos_ok 64 ((a - b) / 2) b) as (a' & -> & Ho & Hr & Hg); [div_mod_lia|done|].
    cbn [mbind option_bind]. rewrite IH by (done || div_mod_lia). f_equal.
    rewrite Hg, <- gcd_double by done. replace (2 * ((a - b) / 2)) with (a - b) by div_mod_lia.
    rewrite Z.gcd_comm, Z.gcd_sub_diag_r, Z.gcd_comm. done.
  - unfold uint64. rewrite shiftr_1, Z.mod_small by lia.
    destruct (strip_twos_ok 64 ((b - a) / 2) a) as (b' & -> & Ho & Hr & Hg); [div_mod_lia|done|].
    cbn [mbind option_bind]. rewrite IH by (done || div_mod_lia). f_equal.
    rewrite Z.gcd_comm, Hg, <- gcd_double by done. replace (2 * ((b - a) / 2)) with (b - a) by div_mod_lia.
    rewrite Z.gcd_comm, Z.gcd_sub_diag_r. done.
  - replace b with a by lia. rewrite Z.gcd_diag, Z.abs_eq by lia. done.
Qed.

Lemma pq_gcd_ok a b :
  0 <= a < 2 ^ 64 -> 0 < b < 2 ^ 64 -> b mod 2 = 1 -> pq_gcd a b = Some (Z.gcd a b).
Proof.
  intros Ha Hb Hbo. unfold pq_gcd. destruct (Z.eqb_spec a 0) as [->|Hne].
  - by rewrite Z.gcd_0_l, Z.abs_eq by lia.
  - destruct (strip_twos_ok 64 a b) as (a' & -> & Ho & Hr & Hg); [lia|done|].
    cbn [mbind option_bind]. rewrite gcd_loop_ok by (done || lia). by rewrite Hg.
Qed.

Lemma add_mul_loop_ok fuel c a b pq :
  0 < pq <= 2 ^ 63 -> 0 <= c < pq -> 0 <= a < pq -> 0 <= b < 2 ^ Z.of_nat fuel ->
  add_mul_loop (S fuel) c a b pq = Some ((c + a * b) mod pq).
Proof.
  intros Hpq. revert c a b. induction fuel as [|fuel IH]; intros c a b Hc Ha Hb.
  { cbn in Hb. replace b with 0 by lia. cbn. f_equal. rewrite Z.mul_0_r, Z.add_0_r. symmetry. by apply Z.mod_small. }
  rewrite Nat2Z.inj_succ, Z.pow_succ_r in Hb by lia.
  remember (S fuel) as f eqn:Hf. cbn [add_mul_loop]. destruct (Z.eqb_spec b 0) as [->|Hne].
  { f_equal. rewrite Z.mul_0_r, Z.add_0_r. symmetry. by apply Z.mod_small. }
  set (c' := if negb _ then _ else c). set (a' := if pq <=? _ then _ else _).
  assert (Ha' : 0 <= a' < pq /\ exists m, a' = 2 * a - m * pq).
  { subst a'. unfold uint64. rewrite (Z.mod_small (a + a)) by lia. destruct (Z.leb_spec pq (a + a)).
    - rewrite (Z.mod_small (a + a - pq)) by lia. split; [lia|]. exists 1. lia.
    - split; [lia|]. exists 0. lia. }
  assert (Hc' : 0 <= c' < pq /\ exists m, c' = c + a * (b mod 2) - m * pq).
  { subst c'. rewrite land_1. destruct (Z.eqb_spec (b mod 2) 0) as [->|He]; cbn [negb].
    - split; [lia|]. exists 0. lia.
    - replace (b mod 2) with 1 by div_mod_lia. unfold uint64. rewrite (Z.mod_small (c + a)) by lia.
      destruct (Z.leb_spec pq (c + a)); [rewrite (Z.mod_small (c + a - pq)) by lia|].
      + split; [lia|]. exists 1. lia.
      + split; [lia|]. exists 0. lia. }
  destruct Ha' as [Ha' [m Hm]], Hc' as [Hc' [n Hn]]. rewrite shiftr_1.
  rewrite IH by (done || div_mod_lia). f_equal.
  rewrite Hm, Hn. rewrite (Z.div_mod b 2) at 3 by lia.
  replace (c + a * (b mod 2) - n * pq + (2 * a - m * pq) * (b / 2))
    with (c + a * (2 * (b / 2) + b mod 2) + - (n + m * (b / 2)) * pq) by ring.
  by rewrite Z_mod_plus_full.
Qed.

Lemma pq_add_mul_ok c a b pq :
  0 < pq <= 2 ^ 63 -> 0 <= c < pq -> 0 <= a < pq -> 0 <= b < 2 ^ 64 ->
  pq_add_mul c a b pq = Some ((c + a * b) mod pq).
Proof. intros. by apply (add_mul_loop_ok 64). Qed.

Definition divisor (g pq : Z) : Prop := 0 < g /\ (g | pq).

Lemma gcd_divisor a b : 0 < b -> divisor (Z.gcd a b) b.
Proof.
  intros Hb. split; [|apply Z.gcd_divide_r].
  pose proof (Z.gcd_nonneg a b). assert (Z.gcd a b <> 0) by (intros H0; apply Z.gcd_eq_0_r in H0; lia). lia.
Qed.

Lemma divisor_le g pq : 0 < pq -> divisor g pq -> g <= pq.
Proof. intros Hpq [_ Hd]. by apply Z.divide_pos_le. Qed.

(** * Pollard's rho *)

Section rho.
Variables (pq : Z) (step : Z -> Z) (x0 : Z).

(** The values of a try. *)
Definition orbit (n : Z) : Z := Nat.iter (Z.to_nat n) step x0.

(** The value that number [n] is compared with: the one at the last power of
    two before it. *)
Definition compared (n : Z) : Z := if n <=? 1 then 0 else 2 ^ Z.log2 (n - 1).

Definition rho_gcd (n : Z) : Z := Z.gcd (orbit n - orbit (compared n)) pq.

(** The first of less than [lim] comparisons with a divisor other than 1, or the
    last one. *)
Definition rho_stops (lim g n : Z) : Prop :=
  1 <= n < lim /\ g = rho_gcd n /\ (forall i, 1 <= i < n -> rho_gcd i = 1) /\ (g <> 1 \/ n = lim - 1).

Lemma orbit_succ n : 0 <= n -> orbit (n + 1) = step (orbit n).
Proof. intros Hn. unfold orbit. by rewrite Z.add_1_r, Z2Nat.inj_succ. Qed.

(** The compared value is kept when its number is a power of two. *)
Lemma compared_succ n : 1 <= n -> compared (n + 1) = if Z.land n (n - 1) =? 0 then n else compared n.
Proof.
  intros Hn. unfold compared. rewrite (proj2 (Z.leb_gt (n + 1) 1)) by lia. replace (n + 1 - 1) with n by lia.
  destruct (Z.leb_spec n 1) as [H1|H1]; [by replace n with 1 by lia|].
  pose proof (Z.log2_spec n ltac:(lia)) as [Hl1 Hl2]. pose proof (Z.log2_pos n ltac:(lia)) as Hlp.
  set (k := Z.log2 n) in *. rewrite Z.pow_succ_r in Hl2 by lia.
  destruct (Z.eq_dec n (2 ^ k)) as [He|Hne].
  - assert (Hz : Z.land (2 ^ k) (2 ^ k - 1) = 0).
    { replace (2 ^ k - 1) with (Z.ones k) by (rewrite Z.ones_equiv; lia). by rewrite Z.land_ones, Z_mod_same_full by lia. }
    rewrite <- He in Hz. rewrite Hz. cbn [Z.eqb]. lia.
  - assert (Hlog : Z.log2 (n - 1) = k) by (apply Z.log2_unique; [lia|rewrite Z.pow_succ_r by lia; lia]).
    rewrite Hlog. destruct (Z.eqb_spec (Z.land n (n - 1)) 0) as [Hz|]; [|done]. exfalso.
    assert (Ht : Z.testbit (Z.land n (n - 1)) k = true).
    { assert (T1 : Z.testbit n k = true) by (apply Z.bit_log2; lia).
      assert (T2 : Z.testbit (n - 1) k = true) by (rewrite <- Hlog; apply Z.bit_log2; lia). by rewrite Z.land_spec, T1, T2. }
    by rewrite Hz, Z.bits_0 in Ht.
Qed.

Lemma rho_goes_on lim n :
  1 <= n -> n + 1 < lim -> rho_gcd n = 1 -> (forall i, 1 <= i < n -> rho_gcd i = 1) -> forall i, 1 <= i < n + 1 -> rho_gcd i = 1.
Proof. intros Hn Hl Hg Hall i Hi. destruct (Z.eq_dec i n) as [->|]; [done|]. apply Hall. lia. Qed.
End rho.

Lemma factor_walk_ok k j q pq x0 g iter :
  1 < pq <= 2 ^ 63 -> pq mod 2 = 1 -> 0 <= q < pq -> 0 <= x0 < pq -> 1 <= j -> (k <> O) ->
  let step x := (q + x * x) mod pq in
  (forall i, 1 <= i < j -> rho_gcd pq step x0 i = 1) ->
  exists g' n, factor_walk k j q pq (orbit step x0 (j - 1)) (orbit step x0 (compared j)) g iter = Some (g', iter + (n - j + 1)) /\
    rho_stops pq step x0 (j + Z.of_nat k) g' n /\ j <= n.
Proof.
  intros Hpq Hodd Hq Hx0. assert (Horb : forall step n, (forall x, 0 <= step x < pq) -> 0 <= orbit step x0 n < pq).
  { intros step n Hs. unfold orbit. destruct (Z.to_nat n); [done|apply Hs]. }
  revert j g iter. induction k as [|k IH]; intros j g iter Hj Hk step Hall; [done|]. cbn [factor_walk].
  assert (Hstep : forall x, 0 <= step x < pq) by (intros x; apply Z.mod_pos_bound; lia).
  pose proof (Horb step (j - 1) Hstep) as Hx. pose proof (Horb step (compared j) Hstep) as Hy.
  rewrite pq_add_mul_ok by lia. cbn [mbind option_bind]. change ((q + _ * _) mod pq) with (step (orbit step x0 (j - 1))).
  rewrite <- orbit_succ by lia. replace (j - 1 + 1) with j by lia. pose proof (Horb step j Hstep) as Hxj.
  set (z := if _ <? _ then _ else _). assert (Hz : 0 <= z < 2 ^ 64 /\ Z.gcd z pq = rho_gcd pq step x0 j).
  { unfold rho_gcd. subst z. set (x := orbit step x0 j) in *. set (y := orbit step x0 (compared j)) in *. unfold uint64. destruct (Z.ltb_spec x y).
    - rewrite (Z.mod_small (pq + x)), Z.mod_small by lia. split; [lia|].
      rewrite (Z.gcd_comm _ pq), (Z.gcd_comm _ pq), <- (Z.gcd_add_diag_r pq (x - y)). f_equal. lia.
    - rewrite Z.mod_small by lia. split; [lia|done]. }
  destruct Hz as [Hz Hgz]. rewrite pq_gcd_ok by (done || lia). cbn [mbind option_bind]. rewrite Hgz.
  destruct (Z.eqb_spec (rho_gcd pq step x0 j) 1) as [He|Hne]; cbn [negb].
  - destruct k as [|k].
    { cbn [factor_walk]. exists 1, j. split; [by rewrite He; do 2 f_equal; lia|]. split; [|lia]. split; [lia|].
      split; [done|]. split; [done|]. right. lia. }
    assert (Hc : (if Z.land j (j - 1) =? 0 then orbit step x0 j else orbit step x0 (compared j)) = orbit step x0 (compared (j + 1))).
    { rewrite compared_succ by lia. by destruct (_ =? 0). }
    rewrite Hc. destruct (IH (j + 1) (rho_gcd pq step x0 j) (iter + 1)) as (g' & n & Hw & Hs & Hn); [lia|done| |].
    { by apply (rho_goes_on pq step x0 (j + 2)); [lia|lia|..]. }
    replace (j + 1 - 1) with j in Hw by lia. fold step in Hw. exists g', n. rewrite Hw. split; [do 2 f_equal; lia|]. split; [|lia].
    by replace (j + Z.of_nat (S (S k))) with (j + 1 + Z.of_nat (S k)) by lia.
  - exists (rho_gcd pq step x0 j), j. split; [do 2 f_equal; lia|]. split; [|lia]. split; [lia|]. split; [done|]. split; [done|by left].
Qed.

Lemma rho_stops_divisor pq step x0 lim g n : 0 < pq -> rho_stops pq step x0 lim g n -> divisor g pq.
Proof. intros Hpq (_ & -> & _). by apply gcd_divisor. Qed.

(** The value that is kept of a divisor and its cofactor. *)
Lemma smaller_cofactor g pq :
  0 < pq -> divisor g pq ->
  let g' := if pq / g <? g then pq / g else g in divisor g' pq /\ g' <= pq / g'.
Proof.
  intros Hpq [Hg [k Hk]]. cbv zeta. subst pq. rewrite Z.div_mul by lia.
  assert (0 < k) by nia. destruct (Z.ltb_spec k g).
  - split; [split; [lia|]|].
    + apply Z.divide_factor_l.
    + rewrite (Z.mul_comm k), Z.div_mul by lia. lia.
  - split; [split; [lia|]|].
    + apply Z.divide_factor_r.
    + rewrite Z.div_mul by lia. lia.
Qed.

Section factorize_ok.
Context {G : Type} `{RandomLaws G} `{FastUint64Laws G}.

(** The tries of the 64-bit version, of which [i] were made, with [iter]
    comparisons, and the last one gave [g]: each draws a constant and a first
    value; a proper divisor is the answer, and without one there are at least
    three tries and a thousand comparisons, and the last value stays. *)
Inductive tried (pq : Z) : Z -> Z -> Z -> G -> Z -> G -> Prop :=
  | tried_end i iter g gen : 3 <= i -> 1000 <= iter -> tried pq i iter g gen g gen
  | tried_found i iter g gen c gen1 u gen2 g1 n :
      i < 3 \/ iter < 1000 -> fast 17 32 gen = (c, gen1) -> fast_uint64 gen1 = (u, gen2) ->
      rho_stops pq (fun x => (c mod (pq - 1) + x * x) mod pq) (u mod (pq - 1) + 1) (2 ^ (Z.min 5 i + 18)) g1 n ->
      1 < g1 < pq -> tried pq i iter g gen g1 gen2
  | tried_again i iter g gen c gen1 u gen2 g1 n g' gen' :
      i < 3 \/ iter < 1000 -> fast 17 32 gen = (c, gen1) -> fast_uint64 gen1 = (u, gen2) ->
      rho_stops pq (fun x => (c mod (pq - 1) + x * x) mod pq) (u mod (pq - 1) + 1) (2 ^ (Z.min 5 i + 18)) g1 n ->
      g1 = 1 \/ g1 = pq -> tried pq (i + 1) (iter + n) g1 gen2 g' gen' -> tried pq i iter g gen g' gen'.

Lemma factor_tries_ok fuel i iter g pq (gen : G) :
  2 < pq <= 2 ^ 63 -> pq mod 2 = 1 -> (fuel <> O) -> 1001 <= Z.of_nat fuel + i -> 0 <= i <= iter ->
  (0 < i -> divisor g pq) ->
  exists g' gen', factor_tries fuel i iter g pq gen = Some (g', gen') /\ divisor g' pq /\ tried pq i iter g gen g' gen'.
Proof.
  intros Hpq Hodd. revert i iter g gen. induction fuel as [|fuel IH]; intros i iter g gen Hf Hfuel Hi Hg; [done|].
  cbn [factor_tries]. destruct ((i <? 3) || (iter <? 1000)) eqn:Hgo.
  - assert (Hlow : i < 3 \/ iter < 1000) by (apply orb_prop in Hgo as [Hgo|Hgo]; apply Z.ltb_lt in Hgo; lia).
    destruct (fast 17 32 gen) as [r gen1] eqn:Hr. destruct (fast_uint64 gen1) as [u gen2] eqn:Hu.
    pose proof (Z.mod_pos_bound r (pq - 1) ltac:(lia)). pose proof (Z.mod_pos_bound u (pq - 1) ltac:(lia)).
    assert (Hlim : 2 ^ 18 <= Z.shiftl 1 (Z.min 5 i + 18) /\ Z.shiftl 1 (Z.min 5 i + 18) = 2 ^ (Z.min 5 i + 18)).
    { rewrite Z.shiftl_mul_pow2, Z.mul_1_l by lia. split; [apply Z.pow_le_mono_r; lia|done]. }
    destruct Hlim as [Hlim Hlim2]. set (lim := Z.shiftl 1 (Z.min 5 i + 18)) in *. clearbody lim.
    destruct (factor_walk_ok (Z.to_nat (lim - 1)) 1 (r mod (pq - 1)) pq (u mod (pq - 1) + 1) g iter)
      as (g' & n & Hw & Hs & _); [lia|done|lia|lia|lia|lia|lia|].
    change (orbit _ _ (1 - 1)) with (u mod (pq - 1) + 1) in Hw. change (orbit _ _ (compared 1)) with (u mod (pq - 1) + 1) in Hw.
    rewrite Hw. cbn [mbind option_bind]. replace (iter + (n - 1 + 1)) with (iter + n) by lia.
    replace (1 + Z.of_nat (Z.to_nat (lim - 1))) with lim in Hs by lia. rewrite Hlim2 in Hs.
    pose proof (rho_stops_divisor pq _ _ _ _ _ ltac:(lia) Hs) as Hdiv. assert (Hn : 1 <= n) by apply Hs.
    destruct ((1 <? g') && (g' <? pq)) eqn:Hproper.
    + apply andb_true_iff in Hproper as [Hlow1%Z.ltb_lt Hlow2%Z.ltb_lt]. exists g', gen2. split; [done|]. split; [done|].
      by eapply tried_found; [done|done|done|exact Hs|].
    + destruct (IH (i + 1) (iter + n) g' gen2) as (g2 & gen' & He & Hd & Ht); [lia|lia|lia|done|].
      exists g2, gen'. split; [done|]. split; [done|]. eapply tried_again; [done|done|done|exact Hs| |done].
      pose proof (divisor_le _ pq ltac:(lia) Hdiv). destruct Hdiv. apply andb_false_iff in Hproper as [Hge%Z.ltb_ge|Hge%Z.ltb_ge]; lia.
  - apply orb_false_elim in Hgo as [Hgo Hgo2]. apply Z.ltb_ge in Hgo, Hgo2.
    exists g, gen. split; [done|]. split; [apply Hg; lia|by constructor].
Qed.

(** The number that is found for [pq] with the draws of [gen]. *)
Definition rho_answer (pq : Z) (gen : G) (p : Z) (gen' : G) : Prop :=
  if pq <=? 2 then p = 1 /\ gen' = gen
  else if Z.even pq then p = 2 /\ gen' = gen
  else exists g, tried pq 0 0 0 gen g gen' /\ p = Z.min g (pq / g).

Lemma pq_factorize_ok pq (gen : G) :
  0 <= pq <= 2 ^ 63 ->
  exists p gen', pq_factorize pq gen = Some (p, gen') /\ divisor p pq /\ p < 2 ^ 64 /\ (0 < pq -> p <= pq / p) /\
    rho_answer pq gen p gen'.
Proof.
  intros Hpq. unfold pq_factorize, rho_answer. change (Z.shiftl 1 63) with (2 ^ 63). rewrite (proj2 (Z.ltb_ge _ _)), orb_false_r by lia.
  destruct (Z.leb_spec pq 2) as [Hlo|Hlo].
  { exists 1, gen. split; [done|]. split; [split; [lia|]; apply Z.divide_1_l|]. rewrite Z.div_1_r. split; [lia|]. split; [lia|done]. }
  rewrite land_1, Zmod_even. destruct (Z.even pq) eqn:He; cbn [Z.eqb].
  { exists 2, gen. apply Z.even_spec in He as [m ->]. split; [done|]. split; [split; [lia|]; apply Z.divide_factor_l|].
    rewrite Z.mul_comm, Z.div_mul by lia. split; [lia|]. split; [lia|done]. }
  destruct (factor_tries_ok tries_fuel 0 0 0 pq gen) as (g & gen' & -> & Hg & Ht); try (unfold tries_fuel; lia).
  { by rewrite Zmod_even, He. }
  cbn [mbind option_bind]. rewrite (proj2 (Z.eqb_neq g 0)) by (destruct Hg; lia). cbn [negb].
  do 2 eexists. split; [done|]. destruct (smaller_cofactor g pq ltac:(lia) Hg) as [Hd Hle]. split; [done|].
  split; [apply (divisor_le _ pq) in Hd; lia|]. split; [done|]. exists g. split; [done|].
  destruct (Z.ltb_spec (pq / g) g); lia.
Qed.
End factorize_ok.

(** * Numbers as strings *)

Lemma be_load_cons b s : be_load (b :: s) = b2z b * 256 ^ len s + be_load s.
Proof.
  unfold be_load. rewrite reverse_cons, <- (len_reverse s). induction (reverse s) as [|c t IH]; cbn [app le_load].
  - change (len (@nil byte)) with 0. lia.
  - rewrite IH, len_cons, Z.pow_add_r by (lia || apply len_nonneg). ring.
Qed.

Lemma be_load_snoc s b : be_load (s ++ [b]) = 256 * be_load s + b2z b.
Proof. unfold be_load. rewrite reverse_snoc. cbn [le_load]. lia. Qed.

Lemma be_load_range s : 0 <= be_load s < 256 ^ len s.
Proof. unfold be_load. pose proof (le_load_range (reverse s)). by rewrite len_reverse in *. Qed.

Lemma be_load_drop_zeros s : be_load (drop_zeros s) = be_load s.
Proof.
  induction s as [|b s IH]; [done|]. cbn [drop_zeros]. destruct (Z.eqb_spec (b2z b) 0) as [Hb|Hb]; [|done].
  rewrite IH, be_load_cons, Hb. lia.
Qed.

Lemma be_load_be_store n x : 0 <= x < 256 ^ Z.of_nat n -> be_load (drop_zeros (reverse (le_store n x))) = x.
Proof.
  intros Hx. rewrite be_load_drop_zeros. unfold be_load. rewrite reverse_involutive, le_load_store.
  by apply Z.mod_small.
Qed.

Lemma be_load_big_endian_string x : 0 <= x < 2 ^ 64 -> be_load (as_big_endian_string x) = x.
Proof. intros. by apply be_load_be_store. Qed.

Lemma be_load_binary_min x : 0 <= x -> be_load (to_binary_min x) = x.
Proof.
  intros Hx. apply be_load_be_store. split; [done|]. pose proof (Z.log2_nonneg x).
  rewrite Z2Nat.id by (apply Z.add_nonneg_nonneg; [apply Z.div_pos; lia|lia]).
  change 256 with (2 ^ 8). rewrite <- Z.pow_mul_r by (try apply Z.add_nonneg_nonneg; try apply Z.div_pos; lia).
  destruct (Z.eq_dec x 0) as [->|]; [done|]. pose proof (Z.log2_spec x ltac:(lia)) as [_ Hl].
  eapply Z.lt_le_trans; [exact Hl|]. apply Z.pow_le_mono_r; [lia|]. div_mod_lia.
Qed.

Lemma load_uint64_ok s : len s <= 8 -> load_uint64 s = be_load s.
Proof.
  unfold load_uint64. induction s as [|b s IH] using rev_ind; [done|]. rewrite len_app. change (len [b]) with 1.
  intros Hl. rewrite foldl_app, IH, be_load_snoc by lia. cbn [foldl].
  pose proof (be_load_range s) as [Hr0 Hr]. pose proof (b2z_range b).
  assert (Hs : be_load s < 2 ^ 56).
  { eapply Z.lt_le_trans; [exact Hr|]. change (2 ^ 56) with (256 ^ 7). apply Z.pow_le_mono_r; lia. }
  rewrite Z.shiftl_mul_pow2 by lia. unfold uint64. rewrite Z.mod_small by lia.
  rewrite (Z_lor_add 8); [lia|done|apply Z_mod_mult|lia].
Qed.

Lemma first_bit s : len s = 8 -> Z.land (b2z (nth_byte s 0)) 128 = 0 -> be_load s < 2 ^ 63.
Proof.
  intros Hl Hb. destruct s as [|b s]; [done|]. change (nth_byte (b :: s) 0) with b in Hb.
  rewrite len_cons in Hl. rewrite be_load_cons. replace (len s) with 7 by lia.
  pose proof (be_load_range s) as [Hr0 Hr]. replace (len s) with 7 in Hr by lia. pose proof (b2z_range b).
  assert (b2z b < 128); [|change (256 ^ 7) with (2 ^ 56) in *; lia].
  destruct (Z.lt_ge_cases (b2z b) 128); [done|]. exfalso.
  assert (Ht : Z.testbit (Z.land (b2z b) 128) 7 = true).
  { rewrite Z.land_spec. change (Z.testbit 128 7) with true. rewrite andb_true_r, Z.testbit_true by lia.
    change (2 ^ 7) with 128. replace (b2z b / 128) with 1 by div_mod_lia. done. }
  by rewrite Hb in Ht.
Qed.

Section factorize_big.
Context {G : Type} `{RandomLaws G} `{FastUint64Laws G} `{BigNumLaws} `{FactorLaws}.

(** The next value of the version for large numbers. *)
Definition big_step (t pq x : Z) : Z := let v := (x * x) mod pq + t in if pq <=? v then v - pq else v.

(** Its tries: at most three, until a divisor other than 1 is found. *)
Inductive big_tried (pq : Z) : Z -> G -> option Z -> G -> Prop :=
  | big_end gen : big_tried pq 3 gen None gen
  | big_found i gen t gen1 x0 gen2 g n :
      i < 3 -> fast 17 32 gen = (t, gen1) -> fast_uint32 gen1 = (x0, gen2) ->
      rho_stops pq (big_step t pq) x0 (2 ^ (i + 23)) g n -> g <> 1 -> big_tried pq i gen (Some g) gen2
  | big_again i gen t gen1 x0 gen2 n found gen' :
      i < 3 -> fast 17 32 gen = (t, gen1) -> fast_uint32 gen1 = (x0, gen2) ->
      rho_stops pq (big_step t pq) x0 (2 ^ (i + 23)) 1 n -> big_tried pq (i + 1) gen2 found gen' ->
      big_tried pq i gen found gen'.

Lemma big_walk_ok k j t pq x0 iter :
  0 < pq -> 0 <= t -> 0 <= x0 -> 1 <= j -> k <> O ->
  let step := big_step t pq in
  (forall i, 1 <= i < j -> rho_gcd pq step x0 i = 1) ->
  exists g n, big_walk k j t pq (orbit step x0 (j - 1)) (orbit step x0 (compared j)) iter =
      Ok (if g =? 1 then None else Some g, iter + (n - j + 1)) /\
    rho_stops pq step x0 (j + Z.of_nat k) g n /\ j <= n.
Proof.
  intros Hpq Ht Hx0. revert j iter. induction k as [|k IH]; intros j iter Hj Hk step Hall; [done|]. cbn [big_walk].
  assert (Hstep : forall x, 0 <= step x).
  { intros x. unfold step, big_step. pose proof (Z.mod_pos_bound (x * x) pq ltac:(lia)). cbv zeta. destruct (Z.leb_spec pq ((x * x) mod pq + t)); lia. }
  assert (Horb : forall n, 0 <= orbit step x0 n) by (intros n; unfold orbit; destruct (Z.to_nat n); [done|apply Hstep]).
  pose proof (Horb (j - 1)) as Hx. pose proof (Horb (compared j)) as Hy. pose proof (Horb j) as Hxj.
  unfold big_mod_mul. rewrite (proj2 (Z.eqb_neq pq 0)) by lia. cbn [check negb]. rewrite !Ok_bind, mod_mul_spec by lia.
  change (if pq <=? _ then _ else _) with (step (orbit step x0 (j - 1))).
  rewrite <- orbit_succ by lia. replace (j - 1 + 1) with j by lia.
  set (q := if _ <? _ then _ else _). assert (Hq : 0 <= q /\ Z.gcd q pq = rho_gcd pq step x0 j).
  { unfold rho_gcd. subst q. set (x := orbit step x0 j) in *. set (y := orbit step x0 (compared j)) in *.
    destruct (Z.ltb_spec y x); [split; [lia|done]|]. split; [lia|]. rewrite <- Z.gcd_opp_l. f_equal. lia. }
  destruct Hq as [Hq Hgq]. rewrite bn_gcd_spec, Hgq by done. destruct (Z.eqb_spec (rho_gcd pq step x0 j) 1) as [He|Hne]; cbn [negb].
  - destruct k as [|k].
    { cbn [big_walk]. exists 1, j. split; [cbn [Z.eqb Pos.eqb]; do 2 f_equal; lia|]. split; [|lia]. split; [lia|].
      split; [done|]. split; [done|]. right. lia. }
    assert (Hc : (if Z.land j (j - 1) =? 0 then orbit step x0 j else orbit step x0 (compared j)) = orbit step x0 (compared (j + 1))).
    { rewrite compared_succ by lia. by destruct (_ =? 0). }
    rewrite Hc. destruct (IH (j + 1) (iter + 1)) as (g & n & Hw & Hs & Hn); [lia|done| |].
    { by apply (rho_goes_on pq step x0 (j + 2)); [lia|lia|..]. }
    replace (j + 1 - 1) with j in Hw by lia. fold step in Hw. exists g, n. rewrite Hw. split; [do 2 f_equal; lia|]. split; [|lia].
    by replace (j + Z.of_nat (S (S k))) with (j + 1 + Z.of_nat (S k)) by lia.
  - exists (rho_gcd pq step x0 j), j. rewrite (proj2 (Z.eqb_neq _ _)) by done. split; [do 2 f_equal; lia|]. split; [|lia].
    split; [lia|]. split; [done|]. split; [done|by left].
Qed.

Lemma big_tries_ok fuel i iter pq (gen : G) :
  0 < pq -> fuel <> O -> 4 <= Z.of_nat fuel + i -> 0 <= i <= 3 -> 0 <= iter -> (0 < i -> 1000 <= iter) ->
  exists r gen', big_tries fuel i iter pq gen = Some (Ok r, gen') /\ big_tried pq i gen r gen' /\
    match r with Some p => divisor p pq | None => True end.
Proof.
  intros Hpq. revert i iter gen. induction fuel as [|fuel IH]; intros i iter gen Hf Hfuel Hi Hit Hiter; [done|].
  cbn [big_tries]. destruct ((i <? 3) || (iter <? 1000)) eqn:Hgo.
  2:{ apply orb_false_elim in Hgo as [Hgo%Z.ltb_ge _]. exists None, gen. replace i with 3 by lia. split; [done|]. split; [constructor|done]. }
  assert (Hi3 : i < 3) by (apply orb_prop in Hgo as [Hgo|Hgo]; apply Z.ltb_lt in Hgo; lia).
  pose proof (fast_range 17 32 gen ltac:(lia) ltac:(lia)) as Ht. destruct (fast 17 32 gen) as [t gen1] eqn:Et. cbn [fst] in Ht.
  pose proof (fast_uint32_range gen1) as Ha. destruct (fast_uint32 gen1) as [a gen2] eqn:Ea. cbn [fst] in Ha.
  assert (Hlim : 2 ^ 23 <= Z.shiftl 1 (i + 23) /\ Z.shiftl 1 (i + 23) = 2 ^ (i + 23)).
  { rewrite Z.shiftl_mul_pow2, Z.mul_1_l by lia. split; [apply Z.pow_le_mono_r; lia|done]. }
  destruct Hlim as [Hlim Hlim2]. set (lim := Z.shiftl 1 (i + 23)) in *. clearbody lim.
  destruct (big_walk_ok (Z.to_nat (lim - 1)) 1 t pq a iter) as (g & n & Hw & Hs & _); [lia..|].
  change (orbit _ _ (1 - 1)) with a in Hw. change (orbit _ _ (compared 1)) with a in Hw. rewrite Hw.
  replace (1 + Z.of_nat (Z.to_nat (lim - 1))) with lim in Hs by lia. pose proof (rho_stops_divisor pq _ _ _ _ _ Hpq Hs) as Hdiv.
  replace (iter + (n - 1 + 1)) with (iter + n) by lia. pose proof Hs as (Hn & _ & _ & Hlast). rewrite Hlim2 in Hs.
  destruct (Z.eqb_spec g 1) as [->|Hg].
  - destruct (IH (i + 1) (iter + n) gen2) as (r & gen' & He & Hr & Hd); [lia..|]. exists r, gen'. split; [done|]. split; [|done].
    by eapply big_again.
  - exists (Some g), gen2. split; [done|]. split; [|done]. by eapply big_found.
Qed.

(** The result of a factorization: [p * q = pq] and [p <= q]. *)
Definition factors (pq : Z) (r : bytes * bytes) : Prop :=
  be_load r.1 * be_load r.2 = pq /\ (0 < pq -> be_load r.1 <= be_load r.2).

Definition big_answer (pq : Z) (found : option Z) (r : option (bytes * bytes)) : Prop :=
  match found, r with
  | None, None => True
  | Some g, Some (p, q) => be_load p = Z.min g (pq / g) /\ be_load q = Z.max g (pq / g)
  | _, _ => False
  end.

Lemma pq_factorize_big_ok pq_str (gen : G) :
  0 < be_load pq_str ->
  exists found r gen', pq_factorize_big pq_str gen = Some (Ok r, gen') /\ big_tried (be_load pq_str) 0 gen found gen' /\
    big_answer (be_load pq_str) found r /\
    match r with Some r => factors (be_load pq_str) r | None => True end.
Proof.
  intros Hpq. unfold pq_factorize_big.
  destruct (big_tries_ok big_fuel 0 0 (be_load pq_str) gen) as ([p|] & gen' & -> & Ht & Hp); try (unfold big_fuel; lia).
  - cbn [mbind option_bind]. rewrite Ok_bind. destruct Hp as [Hp0 Hd].
    rewrite bn_div_spec by lia. exists (Some p). destruct Hd as [q Hq]. unfold big_answer, factors. rewrite Hq in *. rewrite Z.div_mul in * by lia.
    assert (0 < q) by nia.
    destruct (Z.ltb_spec q p); do 2 eexists; (split; [done|]); (split; [done|]); cbn [fst snd]; rewrite !be_load_binary_min by lia; lia.
  - exists None, None, gen'. done.
Qed.

Definition takes_big (pq_str : bytes) : bool :=
  (8 <? len pq_str) || ((len pq_str =? 8) && negb (Z.land (b2z (nth_byte pq_str 0)) 128 =? 0)).

Lemma pq_factorize_str_ok pq_str (gen : G) :
  len pq_str < 2 ^ 31 -> takes_big pq_str = false ->
  exists r gen', pq_factorize_str pq_str gen = Some (Ok (Some r), gen') /\ factors (be_load pq_str) r /\
    rho_answer (be_load pq_str) gen (be_load r.1) gen'.
Proof.
  intros Hl Hb. pose proof (len_nonneg pq_str). unfold pq_factorize_str. rewrite int32_small by lia.
  unfold takes_big in Hb. rewrite Hb. apply orb_false_elim in Hb as [Hb1 Hb2]. apply Z.ltb_ge in Hb1.
  assert (Ht : truncate (len pq_str) pq_str = pq_str)
    by (unfold truncate; apply take_ge; unfold len; lia).
  rewrite Ht, load_uint64_ok by lia.
  pose proof (be_load_range pq_str) as [Hr0 Hr].
  assert (Hpq : be_load pq_str <= 2 ^ 63).
  { destruct (Z.eqb_spec (len pq_str) 8) as [H8|H8]; cbn [andb] in Hb2.
    - apply negb_false_iff, Z.eqb_eq in Hb2. pose proof (first_bit pq_str H8 Hb2). lia.
    - apply Z.lt_le_incl. eapply Z.lt_le_trans; [exact Hr|]. etransitivity; [apply (Z.pow_le_mono_r 256 _ 7); lia|lia]. }
  destruct (pq_factorize_ok (be_load pq_str) gen) as (p & gen' & -> & [Hp [q Hq]] & Hp64 & Hle & Hrho); [lia|].
  cbn [mbind option_bind]. rewrite Hq in *. rewrite Z.div_mul in * by lia. rewrite Z_mod_mult.
  rewrite (proj2 (Z.eqb_neq p 0)) by lia. change (0 =? 0) with true. cbn [orb negb].
  do 2 eexists. split; [done|]. assert (0 <= q) by nia. assert (q < 2 ^ 64) by nia.
  unfold factors. cbn [fst snd]. rewrite !be_load_big_endian_string by lia. split; [|done]. split; [lia|done].
Qed.

Lemma be_load_zero_crashes pq_str (gen : G) :
  be_load pq_str = 0 -> exists gen', pq_factorize_big pq_str gen = Some (Crash, gen').
Proof.
  intros Hz. unfold pq_factorize_big. rewrite Hz. unfold big_fuel. cbn [big_tries].
  change ((0 <? 3) || (0 <? 1000)) with true. cbv iota.
  destruct (fast 17 32 gen) as [t gen1]. destruct (fast_uint32 gen1) as [a gen2].
  change (Z.shiftl 1 (0 + 23)) with (2 ^ 23).
  assert (Hk : exists k, Z.to_nat (2 ^ 23 - 1) = S k) by (exists (Z.to_nat (2 ^ 23 - 2)); lia).
  destruct Hk as [k ->]. cbn. by eexists.
Qed.

Lemma pq_factorize_str_factors pq_str (gen gen' : G) r :
  len pq_str < 2 ^ 31 -> pq_factorize_str pq_str gen = Some (Ok (Some r), gen') -> factors (be_load pq_str) r.
Proof.
  intros Hl Hr. destruct (takes_big pq_str) eqn:Hb.
  - unfold pq_factorize_str in Hr. rewrite int32_small in Hr by (pose proof (len_nonneg pq_str); lia).
    unfold takes_big in Hb. rewrite Hb in Hr. pose proof (be_load_range pq_str) as [Hr0 _].
    destruct (Z.eq_dec (be_load pq_str) 0) as [Hz|Hz].
    + destruct (be_load_zero_crashes pq_str gen Hz) as [g' Hg]. by rewrite Hg in Hr.
    + destruct (pq_factorize_big_ok pq_str gen) as (found & r' & g' & Hg & _ & _ & Hf); [lia|]. rewrite Hg in Hr.
      by injection Hr as -> _.
  - destruct (pq_factorize_str_ok pq_str gen Hl Hb) as (r' & g' & Hg & Hf & _). rewrite Hg in Hr.
    by injection Hr as -> _.
Qed.

(** * Properties *)

(** C23: [pq_factorize] on the string of the server ends, whatever the random
    numbers are, and its answer is that of Pollard's rho with Brent's choice of
    the values that are compared, computed without any overflow: for less than
    2^63 and at most eight bytes it succeeds, with the smaller of the first
    proper divisor that a try meets and its cofactor first (1 after at least
    three tries and a thousand comparisons without one; 1 for at most 2; 2 for
    an even number); for a larger or longer [pq] it makes three tries at most
    and succeeds exactly when one meets a divisor other than 1, which may be
    [pq] itself. The product of the two strings is [pq]. The only input that
    ends the process is a zero of nine bytes or more. *)
Theorem pq_factorize_spec pq_str (gen : G) :
  len pq_str < 2 ^ 31 ->
  let pq := be_load pq_str in
  if (8 <? len pq_str) || ((len pq_str =? 8) && negb (Z.land (b2z (nth_byte pq_str 0)) 128 =? 0)) then
    if pq =? 0 then exists gen', pq_factorize_str pq_str gen = Some (Crash, gen')
    else exists found r gen',
      pq_factorize_str pq_str gen = Some (Ok r, gen') /\ big_tried pq 0 gen found gen' /\ big_answer pq found r /\
      forall p q, r = Some (p, q) -> be_load p * be_load q = pq
  else exists p q gen',
    pq_factorize_str pq_str gen = Some (Ok (Some (p, q)), gen') /\ rho_answer pq gen (be_load p) gen' /\
    be_load p * be_load q = pq /\ (0 < pq -> be_load p <= be_load q).
Proof.
  intros Hl pq. fold (takes_big pq_str). pose proof (len_nonneg pq_str). destruct (takes_big pq_str) eqn:Hb.
  - assert (Heq : pq_factorize_str pq_str gen = pq_factorize_big pq_str gen).
    { unfold pq_factorize_str. rewrite int32_small by lia. unfold takes_big in Hb. by rewrite Hb. }
    rewrite Heq. destruct (Z.eqb_spec pq 0) as [Hz|Hz]; [by apply be_load_zero_crashes|].
    pose proof (be_load_range pq_str) as [Hr0 _].
    destruct (pq_factorize_big_ok pq_str gen) as (found & r & gen' & -> & Ht & Ha & Hr); [lia|].
    exists found, r, gen'. split; [done|]. split; [done|]. split; [done|]. intros p q ->. apply Hr.
  - destruct (pq_factorize_str_ok pq_str gen Hl Hb) as ([p q] & gen' & -> & Hr & Hrho).
    exists p, q, gen'. split; [done|]. split; [done|]. exact Hr.
Qed.

(** A [pq] of nine or more zero bytes ends the process: the modulus of
    [BN_mod_mul] is zero and its failure is fatal. *)
Theorem pq_factorize_zero n (gen : G) :
  9 <= n < 2 ^ 31 -> exists gen', pq_factorize_str (zeros n) gen = Some (Crash, gen').
Proof.
  intros Hn. unfold pq_factorize_str. rewrite len_zeros, int32_small by lia.
  rewrite (proj2 (Z.ltb_lt 8 n)) by lia. cbn [orb]. apply be_load_zero_crashes.
  rewrite <- be_load_drop_zeros. unfold zeros. induction (Z.to_nat n) as [|m IH]; [done|]. exact IH.
Qed.
End factorize_big.

(** * Concrete runs *)

#[export] Instance ZFactor : FactorOps := {| bn_gcd := Z.gcd; bn_div := Z.div |}.

#[export] Instance ZFactor_laws : FactorLaws.
Proof. by constructor. Qed.

#[export] Instance script_uint64 : FastUint64 script := {|
  fast_uint64 g :=
    match draws g with
    | [] => (0, g)
    | u :: us => (uint64 u, mk_script us (fill g))
    end;
|}.

#[export] Instance script_uint64_laws : FastUint64Laws script.
Proof. constructor. intros [[|u us] f]; cbn; [lia|]. unfold uint64. apply Z.mod_pos_bound. lia. Qed.

(** 1022117 = 1009 * 1013. *)
Lemma pq_factorize_spec_witness :
  exists p q gen', pq_factorize_str (hex [15; 152; 165]) (mk_script [3; 77] []) = Some (Ok (Some (p, q)), gen') /\
    rho_answer 1022117 (mk_script [3; 77] []) (be_load p) gen' /\ be_load p = 1009 /\ be_load q = 1013.
Proof.
  destruct (pq_factorize_spec (hex [15; 152; 165]) (mk_script [3; 77] [])) as (p & q & gen' & Hr & Ha & _).
  - vm_compute. reflexivity.
  - exists p, q, gen'. split; [exact Hr|]. split; [exact Ha|]. vm_compute in Hr. injection Hr as <- <- _.
    split; vm_compute; reflexivity.
Defined.

Lemma pq_factorize_zero_witness :
  exists gen', pq_factorize_str (zeros 9) (mk_script [3; 77] []) = Some (Crash, gen').
Proof. apply (pq_factorize_zero 9). lia. Defined.
