(* ===== verification/TlsHello.v ===== *)
(** The TLS ClientHello templates and their interpreters: [Grease],
    [TlsHello], [TlsHelloContext], [TlsHelloCalcLength] and [TlsHelloStore] of
    [td/td/mtproto/TlsInit.cpp].

    A template is a list of operations [Op].  The code runs it twice: once to
    compute the length of the message, once to store it into a buffer of that
    length.  Both interpreters are modelled with their [CHECK]s; the theorems
    about them are in TlsHelloCorrect.v. *)
From S2P Require Import Prelude Bytes Random BigNum ProxySecret DpiBypass.
#[local] Open Scope Z_scope.

(** [Grease::init]: random bytes [0x?A], neighbours of each pair different. *)
Definition grease_byte (c : byte) : byte := z2b (Z.land (b2z c) 0xF0 + 0x0A).

(** [for (i = 1; i < size; i += 2) if (res[i] == res[i-1]) res[i] ^= 0x10]. *)
Fixpoint grease_fix (res : bytes) : bytes :=
  match res with
  | a :: b :: res =>
      a :: (if bool_decide (b = a) then z2b (Z.lxor (b2z b) 0x10) else b) :: grease_fix res
  | _ => res
  end.

Definition grease_init {G} `{RandomSource G} (size : Z) (g : G) : bytes * G :=
  let '(res, g) := secure_bytes size g in (grease_fix (grease_byte <$> res), g).

(** * Operations *)

Inductive Op :=
| OpString (data : bytes)
| OpRandom (length : Z)
| OpZero (length : Z)
| OpDomain
| OpGrease (seed : Z)
| OpKey
| OpMlKem768Key
| OpBeginScope
| OpEndScope
| OpPermutation (parts : list (list Op))
| OpRandomValue (value : list Op)
| OpPadding.

Section op_draws.
Context {G : Type} `{RandomSource G}.

(** [Op::random_value]: the choice is made when the template is built. *)
Definition random_value (parts : list (list Op)) (g : G) : outcome Op * G :=
  match parts with
  | [] => (Crash, g)
  | _ =>
      let '(i, g) := fast 0 (len parts - 1) g in
      (Ok (OpRandomValue (nth (Z.to_nat i) parts [])), g)
  end.

(** [Op::ech_payload]. *)
Definition ech_payload (g : G) : Op * G :=
  let '(r, g) := fast 0 3 g in (OpRandom (r * 32 + 144), g).
End op_draws.

(** * The templates *)

Definition build_stable_proxy_ops : list Op :=
  [OpString (hex [0x16; 0x03; 0x01]);
   OpBeginScope;
   OpString (hex [0x01; 0x00]);
   OpBeginScope;
   OpString (hex [0x03; 0x03]);
   OpZero 32;
   OpString (hex [0x20]);
   OpRandom 32;
   OpString (hex [0x00; 0x20]);
   OpGrease 0;
   OpString (hex [0x13; 0x01; 0x13; 0x02; 0x13; 0x03; 0xc0; 0x2b; 0xc0; 0x2f; 0xc0; 0x2c; 0xc0;
       0x30; 0xcc; 0xa9; 0xcc; 0xa8; 0xc0; 0x13; 0xc0; 0x14; 0x00; 0x9c; 0x00; 0x9d; 0x00; 0x2f;
       0x00; 0x35; 0x01; 0x00]);
   OpBeginScope;
   OpGrease 2;
   OpString (hex [0x00; 0x00]);
   OpString (hex [0x00; 0x00]);
   OpBeginScope;
   OpBeginScope;
   OpString (hex [0x00]);
   OpBeginScope;
   OpDomain;
   OpEndScope;
   OpEndScope;
   OpEndScope;
   OpString (hex [0x00; 0x17; 0x00; 0x00]);
   OpString (hex [0xff; 0x01; 0x00; 0x01; 0x00]);
   OpString (hex [0x00; 0x0a; 0x00; 0x0c; 0x00; 0x0a]);
   OpGrease 4;
   OpString (hex [0x11; 0xec; 0x00; 0x1d; 0x00; 0x17; 0x00; 0x18]);
   OpString (hex [0x00; 0x0b; 0x00; 0x02; 0x01; 0x00]);
   OpString (hex [0x00; 0x10; 0x00; 0x0e; 0x00; 0x0c; 0x02; 0x68; 0x32; 0x08; 0x68; 0x74; 0x74;
       0x70; 0x2f; 0x31; 0x2e; 0x31]);
   OpString (hex [0x00; 0x05; 0x00; 0x05; 0x01; 0x00; 0x00; 0x00; 0x00]);
   OpString (hex [0x00; 0x0d; 0x00; 0x12; 0x00; 0x10; 0x04; 0x03; 0x08; 0x04; 0x04; 0x01; 0x05;
       0x03; 0x08; 0x05; 0x05; 0x01; 0x08; 0x06; 0x06; 0x01]);
   OpString (hex [0x00; 0x2b; 0x00; 0x07; 0x06]);
   OpGrease 6;
   OpString (hex [0x03; 0x04; 0x03; 0x03]);
   OpString (hex [0x00; 0x33; 0x00; 0x26; 0x00; 0x24]);
   OpGrease 4;
   OpString (hex [0x00; 0x1d; 0x00; 0x20]);
   OpKey;
   OpString (hex [0x00; 0x2d; 0x00; 0x02; 0x01; 0x01]);
   OpGrease 3;
   OpString (hex [0x00; 0x01; 0x00]);
   OpEndScope;
   OpEndScope;
   OpEndScope].

Definition build_chrome_ops : list Op :=
  [OpString (hex [0x16; 0x03; 0x01]);
   OpBeginScope;
   OpString (hex [0x01; 0x00]);
   OpBeginScope;
   OpString (hex [0x03; 0x03]);
   OpZero 32;
   OpString (hex [0x20]);
   OpRandom 32;
   OpString (hex [0x00; 0x20]);
   OpGrease 0;
   OpString (hex [0x13; 0x01; 0x13; 0x02; 0x13; 0x03; 0xc0; 0x2b; 0xc0; 0x2f; 0xc0; 0x2c; 0xc0;
       0x30; 0xcc; 0xa9; 0xcc; 0xa8; 0xc0; 0x13; 0xc0; 0x14; 0x00; 0x9c; 0x00; 0x9d; 0x00; 0x2f;
       0x00; 0x35; 0x01; 0x00]);
   OpBeginScope;
   OpGrease 2;
   OpString (hex [0x00; 0x00]);
   OpPermutation [
     [OpString (hex [0x00; 0x00]);
      OpBeginScope;
      OpBeginScope;
      OpString (hex [0x00]);
      OpBeginScope;
      OpDomain;
      OpEndScope;
      OpEndScope;
      OpEndScope];
     [OpString (hex [0x00; 0x05; 0x00; 0x05; 0x01; 0x00; 0x00; 0x00; 0x00])];
     [OpString (hex [0x00; 0x0a; 0x00; 0x0c; 0x00; 0x0a]);
      OpGrease 4;
      OpString (hex [0x11; 0xec; 0x00; 0x1d; 0x00; 0x17; 0x00; 0x18])];
     [OpString (hex [0x00; 0x0b; 0x00; 0x02; 0x01; 0x00])];
     [OpString (hex [0x00; 0x0d; 0x00; 0x12; 0x00; 0x10; 0x04; 0x03; 0x08; 0x04; 0x04; 0x01;
          0x05; 0x03; 0x08; 0x05; 0x05; 0x01; 0x08; 0x06; 0x06; 0x01])];
     [OpString (hex [0x00; 0x10; 0x00; 0x0e; 0x00; 0x0c; 0x02; 0x68; 0x32; 0x08; 0x68; 0x74;
          0x74; 0x70; 0x2f; 0x31; 0x2e; 0x31])];
     [OpString (hex [0x00; 0x12; 0x00; 0x00])];
     [OpString (hex [0x00; 0x17; 0x00; 0x00])];
     [OpString (hex [0x00; 0x1b; 0x00; 0x03; 0x02; 0x00; 0x02])];
     [OpString (hex [0x00; 0x23; 0x00; 0x00])];
     [OpString (hex [0x00; 0x2b; 0x00; 0x07; 0x06]);
      OpGrease 6;
      OpString (hex [0x03; 0x04; 0x03; 0x03])];
     [OpString (hex [0x00; 0x2d; 0x00; 0x02; 0x01; 0x01])];
     [OpString (hex [0x00; 0x33; 0x04; 0xef; 0x04; 0xed]);
      OpGrease 4;
      OpString (hex [0x00; 0x01; 0x00; 0x11; 0xec; 0x04; 0xc0]);
      OpMlKem768Key;
      OpKey;
      OpString (hex [0x00; 0x1d; 0x00; 0x20]);
      OpKey];
     [OpString (hex [0x44; 0xcd; 0x00; 0x05; 0x00; 0x03; 0x02; 0x68; 0x32])];
     [OpString (hex [0xff; 0x01; 0x00; 0x01; 0x00])]];
   OpGrease 3;
   OpString (hex [0x00; 0x01; 0x00]);
   OpPadding;
   OpEndScope;
   OpEndScope;
   OpEndScope].

Definition build_vk_ops : list Op :=
  [OpString (hex [0x16; 0x03; 0x01]);
   OpBeginScope;
   OpString (hex [0x01; 0x00]);
   OpBeginScope;
   OpString (hex [0x03; 0x03]);
   OpZero 32;
   OpString (hex [0x20]);
   OpRandom 32;
   OpString (hex [0x00; 0x20]);
   OpGrease 0;
   OpString (hex [0x13; 0x01; 0x13; 0x02; 0x13; 0x03; 0xc0; 0x2b; 0xc0; 0x2f; 0xc0; 0x2c; 0xc0;
       0x30; 0xcc; 0xa9; 0xcc; 0xa8; 0xc0; 0x13; 0xc0; 0x14; 0x00; 0x9c; 0x00; 0x9d; 0x00; 0x2f;
       0x00; 0x35; 0x01; 0x00]);
   OpBeginScope;
   OpGrease 2;
   OpString (hex [0x00; 0x00]);
   OpPermutation [
     [OpString (hex [0x00; 0x00]);
      OpBeginScope;
      OpBeginScope;
      OpString (hex [0x00]);
      OpBeginScope;
      OpDomain;
      OpEndScope;
      OpEndScope;
      OpEndScope];
     [OpString (hex [0x00; 0x05; 0x00; 0x05; 0x01; 0x00; 0x00; 0x00; 0x00])];
     [OpString (hex [0x00; 0x0a; 0x00; 0x0c; 0x00; 0x0a]);
      OpGrease 4;
      OpString (hex [0x11; 0xec; 0x00; 0x1d; 0x00; 0x17; 0x00; 0x18])];
     [OpString (hex [0x00; 0x0b; 0x00; 0x02; 0x01; 0x00])];
     [OpString (hex [0x00; 0x0d; 0x00; 0x12; 0x00; 0x10; 0x04; 0x03; 0x08; 0x04; 0x04; 0x01;
          0x05; 0x03; 0x08; 0x05; 0x05; 0x01; 0x08; 0x06; 0x06; 0x01])];
     [OpString (hex [0x00; 0x10; 0x00; 0x0e; 0x00; 0x0c; 0x02; 0x68; 0x32; 0x08; 0x68; 0x74;
          0x74; 0x70; 0x2f; 0x31; 0x2e; 0x31])];
     [OpString (hex [0x00; 0x12; 0x00; 0x00])];
     [OpString (hex [0x00; 0x17; 0x00; 0x00])];
     [OpString (hex [0x00; 0x2b; 0x00; 0x07; 0x06]);
      OpGrease 6;
      OpString (hex [0x03; 0x04; 0x03; 0x03])];
     [OpString (hex [0x00; 0x2d; 0x00; 0x02; 0x01; 0x01])];
     [OpString (hex [0xff; 0x01; 0x00; 0x01; 0x00])]];
   OpGrease 3;
   OpString (hex [0x00; 0x01; 0x00]);
   OpPadding;
   OpEndScope;
   OpEndScope;
   OpEndScope].

Definition build_gosuslugi_ops : list Op :=
  [OpString (hex [0x16; 0x03; 0x01]);
   OpBeginScope;
   OpString (hex [0x01; 0x00]);
   OpBeginScope;
   OpString (hex [0x03; 0x03]);
   OpZero 32;
   OpString (hex [0x20]);
   OpRandom 32;
   OpString (hex [0x00; 0x20]);
   OpGrease 0;
   OpString (hex [0x13; 0x01; 0x13; 0x02; 0x13; 0x03; 0xc0; 0x2b; 0xc0; 0x2f; 0xc0; 0x2c; 0xc0;
       0x30; 0xcc; 0xa9; 0xcc; 0xa8; 0xc0; 0x13; 0xc0; 0x14; 0x00; 0x9c; 0x00; 0x9d; 0x00; 0x2f;
       0x00; 0x35; 0x01; 0x00]);
   OpBeginScope;
   OpGrease 2;
   OpString (hex [0x00; 0x00]);
   OpPermutation [
     [OpString (hex [0x00; 0x00]);
      OpBeginScope;
      OpBeginScope;
      OpString (hex [0x00]);
      OpBeginScope;
      OpDomain;
      OpEndScope;
      OpEndScope;
      OpEndScope];
     [OpString (hex [0x00; 0x05; 0x00; 0x05; 0x01; 0x00; 0x00; 0x00; 0x00])];
     [OpString (hex [0x00; 0x10; 0x00; 0x0b; 0x00; 0x09; 0x08; 0x68; 0x74; 0x74; 0x70; 0x2f;
          0x31; 0x2e; 0x31])];
     [OpString (hex [0x00; 0x0b; 0x00; 0x02; 0x01; 0x00])];
     [OpString (hex [0x00; 0x0d; 0x00; 0x12; 0x00; 0x10; 0x04; 0x03; 0x08; 0x04; 0x04; 0x01;
          0x05; 0x03; 0x08; 0x05; 0x05; 0x01; 0x08; 0x06; 0x06; 0x01])];
     [OpString (hex [0x00; 0x12; 0x00; 0x00])];
     [OpString (hex [0x00; 0x17; 0x00; 0x00])];
     [OpString (hex [0x00; 0x2b; 0x00; 0x07; 0x06]);
      OpGrease 6;
      OpString (hex [0x03; 0x04; 0x03; 0x03])];
     [OpString (hex [0x00; 0x2d; 0x00; 0x02; 0x01; 0x01])];
     [OpString (hex [0xff; 0x01; 0x00; 0x01; 0x00])]];
   OpGrease 3;
   OpString (hex [0x00; 0x01; 0x00]);
   OpPadding;
   OpEndScope;
   OpEndScope;
   OpEndScope].

Definition build_yandex_ops : list Op :=
  [OpString (hex [0x16; 0x03; 0x01]);
   OpBeginScope;
   OpString (hex [0x01; 0x00]);
   OpBeginScope;
   OpString (hex [0x03; 0x03]);
   OpZero 32;
   OpString (hex [0x20]);
   OpRandom 32;
   OpString (hex [0x00; 0x20]);
   OpGrease 0;
   OpString (hex [0x13; 0x01; 0x13; 0x02; 0x13; 0x03; 0xc0; 0x2b; 0xc0; 0x2f; 0xc0; 0x2c; 0xc0;
       0x30; 0xcc; 0xa9; 0xcc; 0xa8; 0xc0; 0x13; 0xc0; 0x14; 0x00; 0x9c; 0x00; 0x9d; 0x00; 0x2f;
       0x00; 0x35; 0x01; 0x00]);
   OpBeginScope;
   OpGrease 2;
   OpString (hex [0x00; 0x00]);
   OpPermutation [
     [OpString (hex [0x00; 0x00]);
      OpBeginScope;
      OpBeginScope;
      OpString (hex [0x00]);
      OpBeginScope;
      OpDomain;
      OpEndScope;
      OpEndScope;
      OpEndScope];
     [OpString (hex [0x00; 0x05; 0x00; 0x05; 0x01; 0x00; 0x00; 0x00; 0x00])];
     [OpString (hex [0x00; 0x10; 0x00; 0x0b; 0x00; 0x09; 0x08; 0x68; 0x74; 0x74; 0x70; 0x2f;
          0x31; 0x2e; 0x31])];
     [OpString (hex [0x00; 0x0b; 0x00; 0x02; 0x01; 0x00])];
     [OpString (hex [0x00; 0x0d; 0x00; 0x12; 0x00; 0x10; 0x04; 0x03; 0x08; 0x04; 0x04; 0x01;
          0x05; 0x03; 0x08; 0x05; 0x05; 0x01; 0x08; 0x06; 0x06; 0x01])];
     [OpString (hex [0x00; 0x12; 0x00; 0x00])];
     [OpString (hex [0x00; 0x17; 0x00; 0x00])];
     [OpString (hex [0x00; 0x2b; 0x00; 0x07; 0x06]);
      OpGrease 6;
      OpString (hex [0x03; 0x04; 0x03; 0x03])];
     [OpString (hex [0x00; 0x2d; 0x00; 0x02; 0x01; 0x01])];
     [OpString (hex [0xff; 0x01; 0x00; 0x01; 0x00])]];
   OpGrease 3;
   OpString (hex [0x00; 0x01; 0x00]);
   OpPadding;
   OpEndScope;
   OpEndScope;
   OpEndScope].

(** A string constructed from a [const char *] ends before the first zero byte. *)
Fixpoint c_str (s : bytes) : bytes :=
  match s with
  | [] => []
  | c :: s => if bool_decide (c = x00) then [] else c :: c_str s
  end.

(** Firefox: the Chrome template with the first cipher-suite string replaced.
    The replacement is assigned as a [const char *], not as a [Slice] of the
    literal, so only the 26 bytes before the first zero byte are kept. *)
Definition firefox_suites : bytes :=
  c_str (hex [0x13; 0x03; 0x13; 0x01; 0x13; 0x02; 0xc0; 0x2c; 0xc0; 0x30; 0xc0; 0x2b; 0xc0; 0x2f; 0xcc;
       0xa9; 0xcc; 0xa8; 0xc0; 0x0a; 0xc0; 0x09; 0xc0; 0x14; 0xc0; 0x13; 0x00; 0x9d; 0x00; 0x9c;
       0x00; 0x35; 0x00; 0x2f; 0x01; 0x00]).

Fixpoint replace_suites (ops : list Op) : list Op :=
  match ops with
  | [] => []
  | op :: ops =>
      match op with
      | OpString data =>
          if (4 <? len data) && bool_decide (nth_byte data 0 = z2b 0x13)
          then OpString firefox_suites :: ops
          else op :: replace_suites ops
      | _ => op :: replace_suites ops
      end
  end.

Definition build_firefox_ops : list Op := replace_suites build_chrome_ops.

Section safari.
Context {G : Type} `{RandomSource G}.

Definition build_safari_ops (g : G) : outcome (list Op) * G :=
  let '(suites, g) := random_value [
    [OpString (hex [0x00; 0x1c]);
     OpGrease 0;
     OpString (hex [0x13; 0x02; 0x13; 0x01; 0x13; 0x03; 0xc0; 0x2c; 0xc0; 0x30; 0xc0; 0x2b;
         0xcc; 0xa9; 0xc0; 0x2f; 0xcc; 0xa8; 0xc0; 0x0a; 0xc0; 0x09; 0xc0; 0x14; 0xc0; 0x13])];
    [OpString (hex [0x00; 0x2a]);
     OpGrease 0;
     OpString (hex [0x13; 0x02; 0x13; 0x03; 0x13; 0x01; 0xc0; 0x2c; 0xc0; 0x2b; 0xcc; 0xa9;
         0xc0; 0x30; 0xc0; 0x2f; 0xcc; 0xa8; 0xc0; 0x0a; 0xc0; 0x09; 0xc0; 0x14; 0xc0; 0x13;
         0x00; 0x9d; 0x00; 0x9c; 0x00; 0x35; 0x00; 0x2f; 0xc0; 0x08; 0xc0; 0x12; 0x00; 0x0a])]] g in
  let '(alpn, g) := random_value [
    [OpString (hex [0x00; 0x10; 0x00; 0x0b; 0x00; 0x09; 0x08; 0x68; 0x74; 0x74; 0x70; 0x2f;
         0x31; 0x2e; 0x31])];
    [OpString (hex [0x00; 0x10; 0x00; 0x0e; 0x00; 0x0c; 0x02; 0x68; 0x32; 0x08; 0x68; 0x74;
         0x74; 0x70; 0x2f; 0x31; 0x2e; 0x31])]] g in
  (suites ← suites; alpn ← alpn;
   Ok [OpString (hex [0x16; 0x03; 0x01]);
     OpBeginScope;
     OpString (hex [0x01; 0x00]);
     OpBeginScope;
     OpString (hex [0x03; 0x03]);
     OpZero 32;
     OpString (hex [0x20]);
     OpRandom 32;
     suites;
     OpString (hex [0x01; 0x00]);
     OpBeginScope;
     OpGrease 2;
     OpString (hex [0x00; 0x00; 0x00; 0x00]);
     OpBeginScope;
     OpBeginScope;
     OpString (hex [0x00]);
     OpBeginScope;
     OpDomain;
     OpEndScope;
     OpEndScope;
     OpEndScope;
     OpString (hex [0x00; 0x17; 0x00; 0x00; 0xff; 0x01; 0x00; 0x01; 0x00; 0x00; 0x0a; 0x00;
         0x0e; 0x00; 0x0c]);
     OpGrease 4;
     OpString (hex [0x11; 0xec; 0x00; 0x1d; 0x00; 0x17; 0x00; 0x18; 0x00; 0x19; 0x00; 0x0b;
         0x00; 0x02; 0x01; 0x00]);
     alpn;
     OpString (hex [0x00; 0x05; 0x00; 0x05; 0x01; 0x00; 0x00; 0x00; 0x00; 0x00; 0x0d; 0x00;
         0x16; 0x00; 0x14; 0x04; 0x03; 0x08; 0x04; 0x04; 0x01; 0x05; 0x03; 0x08; 0x05; 0x08;
         0x05; 0x05; 0x01; 0x08; 0x06; 0x06; 0x01; 0x02; 0x01; 0x00; 0x12; 0x00; 0x00; 0x00;
         0x33; 0x04; 0xef; 0x04; 0xed]);
     OpGrease 4;
     OpString (hex [0x00; 0x01; 0x00; 0x11; 0xec; 0x04; 0xc0]);
     OpMlKem768Key;
     OpKey;
     OpString (hex [0x00; 0x1d; 0x00; 0x20]);
     OpKey;
     OpString (hex [0x00; 0x2d; 0x00; 0x02; 0x01; 0x01; 0x00; 0x2b; 0x00; 0x07; 0x06]);
     OpGrease 6;
     OpString (hex [0x03; 0x04; 0x03; 0x03; 0x00; 0x1b; 0x00; 0x03; 0x02; 0x00; 0x01]);
     OpGrease 3;
     OpString (hex [0x00; 0x01; 0x00]);
     OpEndScope;
     OpEndScope;
     OpEndScope], g).
End safari.

Record TlsHello := mk_TlsHello { ops_ : list Op; grease_size_ : Z }.

Section profiles.
Context {B : DpiBuild} {G : Type} `{RandomSource G}.

(** The function-local statics of [get_for_profile]: all six are built by the
    first call, and only Safari's depends on a random draw. *)
Definition hello_statics := option (list Op).

Definition init_statics (st : hello_statics) (g : G) : outcome (list Op) * G :=
  match st with
  | Some safari => (Ok safari, g)
  | None => build_safari_ops g
  end.

(** The [switch]: one static per profile. *)
Definition profile_hello (profile : TlsProfile) (safari : list Op) : TlsHello :=
  match profile with
  | Firefox => mk_TlsHello build_firefox_ops 7
  | Yandex => mk_TlsHello build_yandex_ops 7
  | Safari => mk_TlsHello safari 7
  | Vk => mk_TlsHello build_vk_ops 7
  | Gosuslugi => mk_TlsHello build_gosuslugi_ops 7
  | Chrome => mk_TlsHello build_chrome_ops 7
  end.

Definition get_for_profile (profile : TlsProfile) (st : hello_statics) (g : G)
  : outcome (TlsHello * hello_statics) * G :=
  let '(safari, g) := init_statics st g in
  (safari ← safari; Ok (profile_hello profile safari, Some safari), g).

Definition get_for_request (domain : bytes) (rot : rotation_states) (st : hello_statics) (g : G)
  : outcome (TlsHello * hello_statics) * G :=
  if kDpiBypassStableProxyMode then
    let family := detect_service_family domain in
    if decide (family = FamilyGeneric) then (Ok (mk_TlsHello build_stable_proxy_ops 7, st), g)
    else get_for_profile (pick_profile_for_domain domain rot) st g
  else get_for_profile (get_effective_profile domain rot) st g.
End profiles.

(** * [TlsHelloContext] *)

Record TlsHelloContext := mk_context { grease_ : bytes; domain_ : bytes }.

Definition new_context {G} `{RandomSource G} (grease_size : Z) (domain : bytes) (g : G)
  : TlsHelloContext * G :=
  let '(grease, g) := grease_init grease_size g in (mk_context grease domain, g).

Definition context_get_grease (c : TlsHelloContext) (i : Z) : outcome byte :=
  _ ← check (i <? len (grease_ c)); Ok (nth_byte (grease_ c) i).

Definition context_get_domain (c : TlsHelloContext) : bytes :=
  substr 0 MAX_DOMAIN_LENGTH (domain_ c).

(** [CHECK(context)] for a pointer that may be null. *)
Definition check_context (c : option TlsHelloContext) : outcome TlsHelloContext :=
  match c with Some c => Ok c | None => Crash end.

(** * [TlsHelloCalcLength] *)

Record calc := mk_calc { size_ : Z; status_ : option status; calc_scopes : list Z }.

Definition calc_init : calc := mk_calc 0 None [].

Definition calc_add (n : Z) (s : calc) : calc := mk_calc (size_ s + n) (status_ s) (calc_scopes s).

Definition calc_error (msg : string) (s : calc) : calc :=
  mk_calc (size_ s) (Some (Error 0 msg)) (calc_scopes s).

Fixpoint calc_op (context : option TlsHelloContext) (op : Op) (s : calc) {struct op} : outcome calc :=
  match status_ s with
  | Some _ => Ok s
  | None =>
      match op with
      | OpString data => Ok (calc_add (len data) s)
      | OpRandom length =>
          if (length <=? 0) || (2048 <? length) then Ok (calc_error "Invalid random length" s)
          else Ok (calc_add length s)
      | OpZero length =>
          if (length <=? 0) || (2048 <? length) then Ok (calc_error "Invalid zero length" s)
          else Ok (calc_add length s)
      | OpDomain =>
          context ← check_context context;
          Ok (calc_add (len (context_get_domain context)) s)
      | OpGrease seed =>
          context ← check_context context;
          if (seed <? 0) || (len (grease_ context) <=? seed)
          then Ok (calc_error "Invalid grease seed" s)
          else Ok (calc_add 2 s)
      | OpKey => Ok (calc_add 32 s)
      | OpMlKem768Key => Ok (calc_add 1184 s)
      | OpBeginScope =>
          let s := calc_add 2 s in
          Ok (mk_calc (size_ s) (status_ s) (size_ s :: calc_scopes s))
      | OpEndScope =>
          match calc_scopes s with
          | [] => Ok (calc_error "Unbalanced scopes" s)
          | begin_offset :: scopes =>
              let s := mk_calc (size_ s) (status_ s) scopes in
              if 2 ^ 14 <=? size_ s - begin_offset then Ok (calc_error "Scope is too big" s)
              else Ok s
          end
      | OpPermutation parts =>
          (fix go_parts parts s :=
             match parts with
             | [] => Ok s
             | part :: parts =>
                 s ← (fix go ops s :=
                        match ops with
                        | [] => Ok s
                        | op :: ops => s ← calc_op context op s; go ops s
                        end) part s;
                 go_parts parts s
             end) parts s
      | OpRandomValue value =>
          (fix go ops s :=
             match ops with
             | [] => Ok s
             | op :: ops => s ← calc_op context op s; go ops s
             end) value s
      | OpPadding =>
          if size_ s <? 513 then Ok (mk_calc 517 (status_ s) (calc_scopes s)) else Ok s
      end
  end.

Definition calc_ops (context : option TlsHelloContext) : list Op -> calc -> outcome calc :=
  fix go ops s :=
    match ops with
    | [] => Ok s
    | op :: ops => s ← calc_op context op s; go ops s
    end.

Definition calc_finish (s : calc) : outcome Z :=
  match status_ s with
  | Some e => Err e
  | None =>
      match calc_scopes s with
      | _ :: _ => Err (Error 0 "Unbalanced scopes")
      | [] => if size_ s <? 11 + 32 then Err (Error 0 "Too small for hash") else Ok (size_ s)
      end
  end.

(** * [TlsHelloStore]

    [data] is the whole buffer, [offset] is [get_offset()]: [dest_] is the part
    of the buffer from [offset] on. *)

Record store := mk_store { data : bytes; offset : Z; store_scopes : list Z }.

Definition store_init (dest : bytes) : store := mk_store dest 0 [].

Definition dest_size (s : store) : Z := len (data s) - offset s.

(** [dest_.copy_from(bs); dest_.remove_prefix(bs.size())]. *)
Definition put (bs : bytes) (s : store) : outcome store :=
  _ ← check (len bs <=? dest_size s);
  Ok (mk_store (write_at (offset s) bs (data s)) (offset s + len bs) (store_scopes s)).

Definition store_begin (s : store) : outcome store :=
  _ ← check (2 <=? dest_size s);
  Ok (mk_store (data s) (offset s + 2) (offset s :: store_scopes s)).

Definition be16 (n : Z) : bytes := [z2b (Z.shiftr n 8); z2b n].

Definition store_end (s : store) : outcome store :=
  match store_scopes s with
  | [] => Crash
  | begin_offset :: scopes =>
      let size := offset s - begin_offset - 2 in
      _ ← check (size <? 2 ^ 14);
      Ok (mk_store (write_at begin_offset (be16 size) (data s)) (offset s) scopes)
  end.

Section store.
Context {G : Type} `{RandomSource G} `{BigNumOps}.
(** The number of passes of the key loop that are followed. *)
Context (key_fuel : nat).

Definition store_random (length : Z) (s : store) (g : G) : outcome (store * G) :=
  let want := uint64 length in
  let '(bs, g) := secure_bytes (Z.min want (dest_size s)) g in
  s' ← put bs s;
  _ ← check (want <=? dest_size s);
  Ok (s', g).

(** One pair of coefficients packed into three bytes. *)
Definition ml_kem_pair (a b : Z) : bytes :=
  [z2b (Z.land a 255); z2b (Z.shiftr a 8 + Z.shiftl (Z.land b 15) 4); z2b (Z.shiftr b 4)].

Fixpoint store_ml_kem (n : nat) (s : store) (g : G) : outcome (store * G) :=
  match n with
  | O => store_random 32 s g
  | S n =>
      let '(a, g) := secure_uint32 g in
      let '(b, g) := secure_uint32 g in
      s ← put (ml_kem_pair (a mod 3329) (b mod 3329)) s;
      store_ml_kem n s g
  end.

(** The key loop; a loop still running after [key_fuel] passes has no result. *)
Definition store_key (s : store) (g : G) : outcome (store * G) :=
  let '(key, g) := gen_key key_fuel g in
  match key with
  | None => Crash
  | Some key => key ← key; s ← put key s; Ok (s, g)
  end.

Definition store_padding (s : store) : outcome store :=
  let size := 513 - offset s in
  if 0 <? size then
    s ← put (hex [0x00; 0x15]) s;
    s ← store_begin s;
    s ← put (zeros size) s;
    store_end s
  else Ok s.

Fixpoint put_all (parts : list bytes) (s : store) : outcome store :=
  match parts with
  | [] => Ok s
  | part :: parts => s ← put part s; put_all parts s
  end.

Fixpoint store_op (context : option TlsHelloContext) (op : Op) (s : store) (g : G) {struct op}
  : outcome (store * G) :=
  match op with
  | OpString data => s ← put data s; Ok (s, g)
  | OpRandom length => store_random length s g
  | OpZero length => s ← put (zeros (uint64 length)) s; Ok (s, g)
  | OpDomain =>
      context ← check_context context;
      s ← put (context_get_domain context) s; Ok (s, g)
  | OpGrease seed =>
      context ← check_context context;
      grease ← context_get_grease context (uint64 seed);
      s ← put [grease; grease] s; Ok (s, g)
  | OpKey => store_key s g
  | OpMlKem768Key => store_ml_kem 384 s g
  | OpBeginScope => s ← store_begin s; Ok (s, g)
  | OpEndScope => s ← store_end s; Ok (s, g)
  | OpPermutation parts =>
      r ← (fix go_parts parts g : outcome (list bytes * G) :=
             match parts with
             | [] => Ok ([], g)
             | part :: parts =>
                 length ← size_ <$> calc_ops context part calc_init;
                 r ← (fix go ops s g :=
                        match ops with
                        | [] => Ok (s, g)
                        | op :: ops => r ← store_op context op s g; go ops r.1 r.2
                        end) part (store_init (zeros length)) g;
                 _ ← check (offset r.1 =? length);
                 rest ← go_parts parts r.2;
                 Ok (data r.1 :: rest.1, rest.2)
             end) parts g;
      let '(shuffled, g) := shuffle r.1 r.2 in
      s ← put_all shuffled s;
      Ok (s, g)
  | OpRandomValue value =>
      (fix go ops s g :=
         match ops with
         | [] => Ok (s, g)
         | op :: ops => r ← store_op context op s g; go ops r.1 r.2
         end) value s g
  | OpPadding => s ← store_padding s; Ok (s, g)
  end.

Definition store_ops (context : option TlsHelloContext)
  : list Op -> store -> G -> outcome (store * G) :=
  fix go ops s g :=
    match ops with
    | [] => Ok (s, g)
    | op :: ops => r ← store_op context op s g; go ops r.1 r.2
    end.

Definition store_parts (context : option TlsHelloContext)
  : list (list Op) -> G -> outcome (list bytes * G) :=
  fix go_parts parts g :=
    match parts with
    | [] => Ok ([], g)
    | part :: parts =>
        length ← size_ <$> calc_ops context part calc_init;
        r ← store_ops context part (store_init (zeros length)) g;
        _ ← check (offset r.1 =? length);
        rest ← go_parts parts r.2;
        Ok (data r.1 :: rest.1, rest.2)
    end.
End store.

(** [hmac_sha256(key, message, dest)] is OpenSSL's HMAC: a class with the
    length of its result. *)
Class Hmac := { hmac_sha256 : bytes -> bytes -> bytes }.

Class HmacLaws `{Hmac} : Prop := { len_hmac_sha256 k m : len (hmac_sha256 k m) = 32 }.

(** [TlsHelloStore::finish]. *)
Definition store_finish `{Hmac} (secret : bytes) (unix_time : Z) (s : store) : outcome bytes :=
  let hash := hmac_sha256 secret (data s) in
  let old := le_load (substr_from 28 hash) in
  let hash := write_at 28 (le_store 4 (Z.lxor old (uint32 unix_time))) hash in
  _ ← check (dest_size s =? 0);
  Ok (write_at 11 hash (data s)).
