(* ===== verification/TlsHelloCorrect.v ===== *)
(** Correctness of the two interpreters of TlsHello.v.

    A template is well scoped when it is the flattening of a [tree].  [render]
    is the specification of what a tree may produce (a relation: random
    operations may produce any bytes of their length); [sym] is the part of the
    output that is the same in every run.  The theorems: on a tree that passes
    the executable test [tree_ok], the length calculation returns the length
    of [sym], and the store fills a buffer of that length exactly, fails no
    [CHECK], and produces a [render] of the tree. *)
From S2P Require Import Prelude Bytes Random BigNum ProxySecret TlsHello.
#[local] Open Scope Z_scope.

Inductive tree :=
| TOp (op : Op)
| TScope (ts : list tree)
| TPerm (parts : list (list tree))
| TValue (ts : list tree).

Section tree_ind.
Variable P : tree -> Prop.
Hypothesis HOp : forall op, P (TOp op).
Hypothesis HScope : forall ts, Forall P ts -> P (TScope ts).
Hypothesis HPerm : forall parts, Forall (Forall P) parts -> P (TPerm parts).
Hypothesis HValue : forall ts, Forall P ts -> P (TValue ts).

Fixpoint tree_ind' (t : tree) : P t :=
  let list_ind := fix go ts : Forall P ts :=
    match ts with
    | [] => Forall_nil_2 P
    | t :: ts => Forall_cons_2 P t ts (tree_ind' t) (go ts)
    end in
  match t with
  | TOp op => HOp op
  | TScope ts => HScope ts (list_ind ts)
  | TPerm parts =>
      HPerm parts ((fix go ps : Forall (Forall P) ps :=
        match ps with
        | [] => Forall_nil_2 (Forall P)
        | p :: ps => Forall_cons_2 (Forall P) p ps (list_ind p) (go ps)
        end) parts)
  | TValue ts => HValue ts (list_ind ts)
  end.
End tree_ind.

Fixpoint flatten (t : tree) : list Op :=
  match t with
  | TOp op => [op]
  | TScope ts => OpBeginScope :: flat_map flatten ts ++ [OpEndScope]
  | TPerm parts => [OpPermutation (map (flat_map flatten) parts)]
  | TValue ts => [OpRandomValue (flat_map flatten ts)]
  end.

(** The inverse direction, on well-scoped templates: [cur] holds the reversed
    trees of the open scope, [stack] those of the enclosing ones.  The fuel is
    one more than the number of operations at any nesting level. *)
Fixpoint parse_ops (fuel : nat) (ops : list Op) (cur : list tree) (stack : list (list tree))
  : option (list tree) :=
  match fuel with
  | O => None
  | S fuel =>
      match ops with
      | [] => match stack with [] => Some (reverse cur) | _ => None end
      | OpBeginScope :: ops => parse_ops fuel ops [] (cur :: stack)
      | OpEndScope :: ops =>
          match stack with
          | [] => None
          | outer :: stack => parse_ops fuel ops (TScope (reverse cur) :: outer) stack
          end
      | OpPermutation parts :: ops =>
          parts ← mapM (fun part => parse_ops fuel part [] []) parts;
          parse_ops fuel ops (TPerm parts :: cur) stack
      | OpRandomValue value :: ops =>
          ts ← parse_ops fuel value [] [];
          parse_ops fuel ops (TValue ts :: cur) stack
      | op :: ops => parse_ops fuel ops (TOp op :: cur) stack
      end
  end.

Definition trees_of (ops : list Op) : list tree := default [] (parse_ops 200 ops [] []).

(** * The fixed part of the output *)

(** A byte of the output: a constant of the template, the i-th GREASE value,
    the i-th byte of the domain, or a byte that the run chooses. *)
Inductive sbyte := SKnown (b : byte) | SGrease (i : Z) | SDomain (i : Z) | SAny.

Definition known (s : bytes) : list sbyte := SKnown <$> s.
Definition unknown (n : Z) : list sbyte := replicate (Z.to_nat n) SAny.

Definition padding_bytes (off : Z) : bytes :=
  if off <? 513 then hex [0x00; 0x15] ++ be16 (513 - off) ++ zeros (513 - off) else [].

Definition sym_leaf (dlen off : Z) (op : Op) : list sbyte :=
  match op with
  | OpString data => known data
  | OpRandom n => unknown n
  | OpZero n => known (zeros n)
  | OpDomain => SDomain <$> seqZ 0 dlen
  | OpGrease seed => [SGrease seed; SGrease seed]
  | OpKey => unknown 32
  | OpMlKem768Key => unknown 1184
  | OpPadding => known (padding_bytes off)
  | _ => []
  end.

(** The number of bytes of [sym_leaf]. *)
Definition size_leaf (dlen off : Z) (op : Op) : Z :=
  match op with
  | OpString data => len data
  | OpRandom n | OpZero n => Z.max 0 n
  | OpDomain => dlen
  | OpGrease _ => 2
  | OpKey => 32
  | OpMlKem768Key => 1184
  | OpPadding => if off <? 513 then 517 - off else 0
  | _ => 0
  end.

(** Trees one after the other, each at the offset where the previous one ended. *)
Definition sum_sizes (f : Z -> tree -> Z) : Z -> list tree -> Z :=
  fix go off ts :=
    match ts with
    | [] => 0
    | t :: ts => let n := f off t in n + go (off + n) ts
    end.

Fixpoint size (dlen off : Z) (t : tree) {struct t} : Z :=
  match t with
  | TOp op => size_leaf dlen off op
  | TScope ts => 2 + sum_sizes (size dlen) (off + 2) ts
  | TPerm parts => foldr Z.add 0 (map (sum_sizes (size dlen) 0) parts)
  | TValue ts => sum_sizes (size dlen) off ts
  end.

Definition sizes (dlen : Z) : Z -> list tree -> Z := sum_sizes (size dlen).

Definition in_sequence (dlen : Z) (f : Z -> tree -> list sbyte) : Z -> list tree -> list sbyte :=
  fix go off ts :=
    match ts with
    | [] => []
    | t :: ts => f off t ++ go (off + size dlen off t) ts
    end.

Fixpoint sym (dlen off : Z) (t : tree) {struct t} : list sbyte :=
  match t with
  | TOp op => sym_leaf dlen off op
  | TScope ts => known (be16 (sizes dlen (off + 2) ts)) ++ in_sequence dlen (sym dlen) (off + 2) ts
  | TPerm parts => concat (map (fun part => unknown (sizes dlen 0 part)) parts)
  | TValue ts => in_sequence dlen (sym dlen) off ts
  end.

Definition syms (dlen : Z) : Z -> list tree -> list sbyte := in_sequence dlen (sym dlen).

(** No padding inside: the output does not depend on the position. *)
Fixpoint no_padding (t : tree) : bool :=
  match t with
  | TOp OpPadding => false
  | TOp _ => true
  | TScope ts => forallb no_padding ts
  | TPerm parts => forallb (forallb no_padding) parts
  | TValue ts => forallb no_padding ts
  end.

Definition leaf_ok (gsize : Z) (op : Op) : bool :=
  match op with
  | OpRandom n | OpZero n => (0 <? n) && (n <=? 2048)
  | OpGrease seed => (0 <=? seed) && (seed <? gsize) && (seed <? 2 ^ 31)
  | OpString _ | OpDomain | OpKey | OpMlKem768Key | OpPadding => true
  | _ => false
  end.

Definition all_in_sequence (dlen : Z) (f : Z -> tree -> bool) : Z -> list tree -> bool :=
  fix go off ts :=
    match ts with
    | [] => true
    | t :: ts => f off t && go (off + size dlen off t) ts
    end.

Fixpoint tree_ok (dlen gsize off : Z) (t : tree) {struct t} : bool :=
  match t with
  | TOp op => leaf_ok gsize op
  | TScope ts =>
      (sizes dlen (off + 2) ts <? 2 ^ 14)
      && all_in_sequence dlen (tree_ok dlen gsize) (off + 2) ts
  | TPerm parts =>
      forallb (fun part => forallb no_padding part
                           && all_in_sequence dlen (tree_ok dlen gsize) 0 part) parts
  | TValue ts => all_in_sequence dlen (tree_ok dlen gsize) off ts
  end.

Definition trees_ok (dlen gsize : Z) : Z -> list tree -> bool :=
  all_in_sequence dlen (tree_ok dlen gsize).

(** * What a tree may produce *)

Section render.
Context (ctx : TlsHelloContext).

Definition render_leaf (off : Z) (op : Op) (out : bytes) : Prop :=
  match op with
  | OpString data => out = data
  | OpRandom n => len out = n
  | OpZero n => out = zeros n
  | OpDomain => out = context_get_domain ctx
  | OpGrease seed =>
      out = [nth_byte (grease_ ctx) seed; nth_byte (grease_ ctx) seed] /\
      0 <= seed < len (grease_ ctx)
  | OpKey => exists x, out = le_store 32 x /\ 0 <= x < curve_mod
  | OpMlKem768Key => len out = 1184
  | OpPadding => out = padding_bytes off
  | _ => False
  end.

Inductive render : Z -> tree -> bytes -> Prop :=
| render_op off op out : render_leaf off op out -> render off (TOp op) out
| render_scope off ts out :
    renders (off + 2) ts out -> render off (TScope ts) (be16 (len out) ++ out)
| render_perm off parts outs outs' :
    renders_parts parts outs -> outs' ≡ₚ outs -> render off (TPerm parts) (concat outs')
| render_value off ts out : renders off ts out -> render off (TValue ts) out
with renders : Z -> list tree -> bytes -> Prop :=
| renders_nil off : renders off [] []
| renders_cons off t ts out outs :
    render off t out -> renders (off + len out) ts outs -> renders off (t :: ts) (out ++ outs)
with renders_parts : list (list tree) -> list bytes -> Prop :=
| renders_parts_nil : renders_parts [] []
| renders_parts_cons part parts out outs :
    renders 0 part out -> renders_parts parts outs ->
    renders_parts (part :: parts) (out :: outs).
End render.

Scheme render_mind := Minimality for render Sort Prop
with renders_mind := Minimality for renders Sort Prop
with renders_parts_mind := Minimality for renders_parts Sort Prop.
Combined Scheme render_mutind from render_mind, renders_mind, renders_parts_mind.

(** What [Grease::init] guarantees: low half-byte 0xA everywhere, and the two
    values of each pair (0,1), (2,3), (4,5) different. *)
Definition grease_ok (g : bytes) : Prop :=
  Forall (fun c => b2z c mod 16 = 10) g /\
  forall i, 0 <= i -> 2 * i + 1 < len g -> nth_byte g (2 * i) <> nth_byte g (2 * i + 1).

(** A run's output agrees with the fixed part. *)
Definition sbyte_match (ctx : TlsHelloContext) (s : sbyte) (b : byte) : Prop :=
  match s with
  | SKnown x => x = b
  | SGrease i => b = nth_byte (grease_ ctx) i /\ b2z b mod 16 = 10
  | SDomain i => b = nth_byte (context_get_domain ctx) i
  | SAny => True
  end.

Definition matches (ctx : TlsHelloContext) : list sbyte -> bytes -> Prop :=
  Forall2 (sbyte_match ctx).

Lemma matches_len ctx s out : matches ctx s out -> len out = len s.
Proof. intros H. apply Forall2_length in H. unfold len. lia. Qed.

Lemma matches_known ctx s : matches ctx (known s) s.
Proof. induction s; constructor; done. Qed.

Lemma matches_known_inv ctx s out : matches ctx (known s) out -> out = s.
Proof.
  unfold matches, known. rewrite Forall2_fmap_l. induction 1 as [|x y s out Hx _ IH]; [done|].
  cbn in Hx. by subst.
Qed.

Lemma matches_unknown ctx n out : len out = n -> matches ctx (unknown n) out.
Proof.
  intros <-. unfold unknown, len. rewrite Nat2Z.id.
  induction out; constructor; done.
Qed.

Lemma matches_app ctx s t a b :
  matches ctx s a -> matches ctx t b -> matches ctx (s ++ t) (a ++ b).
Proof. apply Forall2_app. Qed.

Lemma matches_domain ctx :
  matches ctx (SDomain <$> seqZ 0 (len (context_get_domain ctx))) (context_get_domain ctx).
Proof.
  apply Forall2_fmap_l, Forall2_same_length_lookup_2.
  { rewrite length_seqZ. unfold len. lia. }
  intros i x y Hx Hy. apply lookup_seqZ in Hx as [-> Hi].
  change (y = nth_byte (context_get_domain ctx) (0 + Z.of_nat i)).
  unfold nth_byte. replace (Z.to_nat (0 + Z.of_nat i)) with i by lia.
  symmetry. by apply nth_lookup_Some.
Qed.

Lemma grease_nibble g i :
  grease_ok g -> 0 <= i < len g -> b2z (nth_byte g i) mod 16 = 10.
Proof.
  intros [Hg _] Hi. unfold len in Hi. rewrite Forall_lookup in Hg.
  destruct (lookup_lt_is_Some_2 g (Z.to_nat i) ltac:(lia)) as [x Hx].
  unfold nth_byte. rewrite (nth_lookup_Some _ _ _ _ Hx). by apply (Hg (Z.to_nat i)).
Qed.

Lemma len_known s : len (known s) = len s.
Proof. apply len_fmap. Qed.

Lemma len_unknown n : 0 <= n -> len (unknown n) = n.
Proof. apply len_replicate. Qed.

Lemma len_domain_sym n : 0 <= n -> len (SDomain <$> seqZ 0 n) = n.
Proof. intros. unfold len. rewrite length_fmap, length_seqZ. lia. Qed.

Lemma len_be16 n : len (be16 n) = 2.
Proof. reflexivity. Qed.

Lemma len_concat_perm {A} (l k : list (list A)) : l ≡ₚ k -> len (concat l) = len (concat k).
Proof. intros H. unfold len. f_equal. induction H; cbn; rewrite ?length_app; lia. Qed.

Lemma concat_unknown ls :
  Forall (fun n => 0 <= n) ls -> concat (map unknown ls) = unknown (foldr Z.add 0 ls).
Proof.
  unfold unknown. induction 1 as [|n ls Hn Hls IH]; [done|]. cbn. rewrite IH, <- replicate_add.
  f_equal. assert (0 <= foldr Z.add 0 ls) by (clear IH; induction Hls; cbn; lia). lia.
Qed.

Lemma matches_perm_parts ctx (ls : list Z) (outs outs' : list bytes) :
  Forall2 (fun n out => len out = n) ls outs -> outs' ≡ₚ outs ->
  matches ctx (concat (map unknown ls)) (concat outs').
Proof.
  intros Hf Hp. rewrite concat_unknown.
  2: { clear Hp. induction Hf; [done|]. constructor; [subst; apply len_nonneg | done]. }
  apply matches_unknown. rewrite (len_concat_perm _ _ Hp). clear Hp.
  induction Hf as [|n out ls outs <- Hf IH]; [done|]. cbn. by rewrite len_app, IH.
Qed.

Lemma sum_sizes_nonneg f ts :
  Forall (fun t => forall off, 0 <= f off t) ts -> forall off, 0 <= sum_sizes f off ts.
Proof.
  induction 1 as [|t ts Ht _ IH]; intros off; cbn; [lia|].
  pose proof (Ht off). pose proof (IH (off + f off t)). lia.
Qed.

Lemma size_nonneg dlen t : 0 <= dlen -> forall off, 0 <= size dlen off t.
Proof.
  intros Hd. induction t as [op|ts IH|parts IH|ts IH] using tree_ind'; intros off; cbn.
  - destruct op; cbn; try lia; [apply len_nonneg|].
    destruct (Z.ltb_spec off 513); lia.
  - pose proof (sum_sizes_nonneg _ _ IH (off + 2)). lia.
  - induction IH as [|part parts Hp _ IHp]; cbn; [lia|].
    pose proof (sum_sizes_nonneg _ _ Hp 0). lia.
  - by apply sum_sizes_nonneg.
Qed.

Lemma sizes_nonneg dlen off ts : 0 <= dlen -> 0 <= sizes dlen off ts.
Proof.
  intros Hd. apply sum_sizes_nonneg, Forall_true. intros. by apply size_nonneg.
Qed.

Lemma len_sym_leaf dlen off op : 0 <= dlen -> len (sym_leaf dlen off op) = size_leaf dlen off op.
Proof.
  intros Hd. destruct op; cbn [sym_leaf size_leaf]; try done.
  - apply len_known.
  - unfold unknown, len. rewrite length_replicate. lia.
  - rewrite len_known. unfold zeros, len. rewrite length_replicate. lia.
  - by apply len_domain_sym.
  - rewrite len_known. unfold padding_bytes. destruct (Z.ltb_spec off 513); [|done].
    rewrite !len_app, len_be16, len_zeros by lia. change (len (hex [0; 21])) with 2. lia.
Qed.

Lemma len_sym dlen t : 0 <= dlen -> forall off, len (sym dlen off t) = size dlen off t.
Proof.
  intros Hd.
  assert (Hl : forall ts, Forall (fun t => forall off, len (sym dlen off t) = size dlen off t) ts ->
    forall off, len (in_sequence dlen (sym dlen) off ts) = sizes dlen off ts).
  { induction 1 as [|u us Hu _ IHu]; intros off; [done|]. cbn. by rewrite len_app, Hu, IHu. }
  induction t as [op|ts IH|parts _|ts IH] using tree_ind'; intros off.
  - by apply len_sym_leaf.
  - cbn -[len be16]. by rewrite len_app, len_known, len_be16, Hl.
  - cbn. induction parts as [|part parts IHp]; [done|]. cbn.
    by rewrite len_app, IHp, len_unknown by by apply sizes_nonneg.
  - by apply Hl.
Qed.

Lemma len_syms dlen ts : 0 <= dlen -> forall off, len (syms dlen off ts) = sizes dlen off ts.
Proof.
  intros Hd. induction ts as [|t ts IH]; intros off; [done|].
  cbn. by rewrite len_app, len_sym, IH.
Qed.

(** The output of every run of a tree has the bytes of [sym] in the places
    where [sym] has any, and its length. *)
Lemma render_sym_all ctx dlen :
  grease_ok (grease_ ctx) -> len (context_get_domain ctx) = dlen ->
  (forall off t out, render ctx off t out -> matches ctx (sym dlen off t) out) /\
  (forall off ts out, renders ctx off ts out -> matches ctx (syms dlen off ts) out) /\
  (forall parts outs, renders_parts ctx parts outs ->
     Forall2 (fun part out => matches ctx (syms dlen 0 part) out) parts outs).
Proof.
  intros Hg Hd. assert (Hd0 : 0 <= dlen) by (subst; apply len_nonneg). apply render_mutind.
  - intros off op out Hr. change (sym dlen off (TOp op)) with (sym_leaf dlen off op).
    destruct op; cbn [render_leaf sym_leaf] in *; subst; try done;
      auto using matches_known, matches_unknown.
    + apply matches_domain.
    + destruct Hr as [-> Hi]. pose proof (grease_nibble _ _ Hg Hi). by repeat constructor.
    + destruct Hr as (x & -> & _). apply matches_unknown. by rewrite len_le_store.
  - intros off ts out _ Hm. change (sym dlen off (TScope ts)) with
      (known (be16 (sizes dlen (off + 2) ts)) ++ syms dlen (off + 2) ts).
    rewrite (matches_len _ _ _ Hm), len_syms by done. apply matches_app; [apply matches_known | done].
  - intros off parts outs outs' _ Hm Hp.
    change (sym dlen off (TPerm parts)) with
      (concat (map (fun part => unknown (sizes dlen 0 part)) parts)).
    rewrite <- (map_map (sizes dlen 0) unknown).
    apply (matches_perm_parts ctx _ outs); [|done]. rewrite Forall2_fmap_l.
    eapply Forall2_impl; [exact Hm|]. intros part out Hm'.
    change (len out = sizes dlen 0 part). rewrite <- len_syms by done.
    by apply (matches_len ctx).
  - done.
  - constructor.
  - intros off t ts out outs _ Ht _ Hts. cbn.
    rewrite (matches_len _ _ _ Ht), len_sym in Hts by done. by apply matches_app.
  - constructor.
  - intros. by constructor.
Qed.

Lemma renders_sym ctx dlen off ts out :
  grease_ok (grease_ ctx) -> len (context_get_domain ctx) = dlen ->
  renders ctx off ts out -> matches ctx (syms dlen off ts) out.
Proof. intros Hg Hd. apply (proj1 (proj2 (render_sym_all ctx dlen Hg Hd))). Qed.

Lemma render_sym ctx dlen off t out :
  grease_ok (grease_ ctx) -> len (context_get_domain ctx) = dlen ->
  render ctx off t out -> matches ctx (sym dlen off t) out.
Proof. intros Hg Hd. apply (proj1 (render_sym_all ctx dlen Hg Hd)). Qed.

Lemma renders_len ctx off ts out :
  grease_ok (grease_ ctx) -> renders ctx off ts out ->
  len out = sizes (len (context_get_domain ctx)) off ts.
Proof.
  intros Hg H. rewrite <- len_syms by apply len_nonneg. by apply (matches_len ctx), renders_sym.
Qed.

Lemma render_len ctx off t out :
  grease_ok (grease_ ctx) -> render ctx off t out ->
  len out = size (len (context_get_domain ctx)) off t.
Proof.
  intros Hg H. rewrite <- len_sym by apply len_nonneg. by apply (matches_len ctx), render_sym.
Qed.

(** * The length calculation *)

Lemma size_no_padding dlen t : forall o o', no_padding t = true -> size dlen o t = size dlen o' t.
Proof.
  assert (Hs : forall ts,
    Forall (fun t => forall o o', no_padding t = true -> size dlen o t = size dlen o' t) ts ->
    forall a b, forallb no_padding ts = true -> sizes dlen a ts = sizes dlen b ts).
  { induction 1 as [|u us Hu _ IHu]; intros a b; [done|]. cbn. intros Hn. to_prop.
    rewrite (Hu a b) by done. f_equal. by apply IHu. }
  induction t as [op|ts IH|parts _|ts IH] using tree_ind'; intros o o' Hn.
  - by destruct op.
  - cbn in Hn |- *. f_equal. by apply Hs.
  - done.
  - by apply Hs.
Qed.

Lemma sizes_no_padding dlen ts o o' :
  forallb no_padding ts = true -> sizes dlen o ts = sizes dlen o' ts.
Proof.
  revert o o'. induction ts as [|t ts IH]; intros o o'; cbn; [done|]. intros Hn. to_prop.
  rewrite (size_no_padding dlen t o o') by done. f_equal. by apply IH.
Qed.

Lemma tree_ok_no_padding dlen gsize t :
  forall o o', no_padding t = true -> tree_ok dlen gsize o t = tree_ok dlen gsize o' t.
Proof.
  assert (Hseq : forall ts,
    Forall (fun t => forall o o', no_padding t = true -> tree_ok dlen gsize o t = tree_ok dlen gsize o' t) ts ->
    forall a b, forallb no_padding ts = true ->
    all_in_sequence dlen (tree_ok dlen gsize) a ts = all_in_sequence dlen (tree_ok dlen gsize) b ts).
  { induction 1 as [|u ts Hu _ IHts]; [done|]. cbn. intros a b Hn. to_prop.
    rewrite (Hu a b), (size_no_padding dlen u a b) by done. f_equal. by apply IHts. }
  induction t as [op|ts IH|parts _|ts IH] using tree_ind'; intros o o' Hn; [done| |done|].
  - cbn in Hn |- *. rewrite (sizes_no_padding dlen ts (o + 2) (o' + 2)) by done.
    f_equal. by apply Hseq.
  - cbn in Hn |- *. by apply Hseq.
Qed.

Lemma trees_ok_no_padding dlen gsize ts o o' :
  forallb no_padding ts = true -> trees_ok dlen gsize o ts = trees_ok dlen gsize o' ts.
Proof.
  revert o o'. induction ts as [|t ts IH]; intros o o'; cbn; [done|]. intros Hn. to_prop.
  rewrite (tree_ok_no_padding dlen gsize t o o'), (size_no_padding dlen t o o') by done.
  f_equal. by apply IH.
Qed.

Lemma calc_ops_app ctx l k s : calc_ops ctx (l ++ k) s = calc_ops ctx l s ≫= calc_ops ctx k.
Proof.
  revert s. induction l as [|op l IH]; intros s; [done|]. cbn.
  destruct (calc_op ctx op s); cbn; [apply IH|done|done].
Qed.

Lemma calc_ops_one ctx op s : calc_ops ctx [op] s = calc_op ctx op s.
Proof. cbn. by destruct (calc_op ctx op s). Qed.

Definition calc_parts (ctx : option TlsHelloContext) : list (list Op) -> calc -> outcome calc :=
  fix go_parts parts s :=
    match parts with
    | [] => Ok s
    | part :: parts => s ← calc_ops ctx part s; go_parts parts s
    end.

Lemma calc_op_permutation ctx parts s :
  status_ s = None -> calc_op ctx (OpPermutation parts) s = calc_parts ctx parts s.
Proof. destruct s as [z st sc]. cbn. by intros ->. Qed.

Lemma calc_op_value ctx ops s :
  status_ s = None -> calc_op ctx (OpRandomValue ops) s = calc_ops ctx ops s.
Proof. destruct s as [z st sc]. cbn. by intros ->. Qed.

Lemma calc_add_add n m s : calc_add m (calc_add n s) = calc_add (n + m) s.
Proof. unfold calc_add. cbn. f_equal. lia. Qed.

Section interpreters.
Context (ctx : TlsHelloContext).
Abbreviation dlen := (len (context_get_domain ctx)).
Abbreviation gsize := (len (grease_ ctx)).

Definition calc_correct (t : tree) : Prop := forall s,
  tree_ok dlen gsize (size_ s) t = true -> status_ s = None ->
  calc_ops (Some ctx) (flatten t) s = Ok (calc_add (size dlen (size_ s) t) s).

Lemma calc_correct_list ts s :
  Forall calc_correct ts -> trees_ok dlen gsize (size_ s) ts = true -> status_ s = None ->
  calc_ops (Some ctx) (flat_map flatten ts) s = Ok (calc_add (sizes dlen (size_ s) ts) s).
Proof.
  intros Hf. revert s. induction Hf as [|t ts Ht _ IH]; intros s Hok Hst.
  { destruct s. unfold calc_add. cbn. by rewrite Z.add_0_r. }
  cbn in Hok |- *. to_prop. rewrite calc_ops_app, Ht by done. cbn.
  rewrite IH by done. by rewrite calc_add_add.
Qed.

Lemma calc_leaf op s :
  leaf_ok gsize op = true -> status_ s = None ->
  calc_op (Some ctx) op s = Ok (calc_add (size_leaf dlen (size_ s) op) s).
Proof.
  destruct s as [z st sc]. cbn. intros Hok ->. pose proof (len_nonneg (context_get_domain ctx)).
  destruct op; cbn in *; try done; to_prop.
  - rewrite (proj2 (Z.leb_gt _ _)), (proj2 (Z.ltb_ge _ _)) by lia. cbn. by rewrite Z.max_r by lia.
  - rewrite (proj2 (Z.leb_gt _ _)), (proj2 (Z.ltb_ge _ _)) by lia. cbn. by rewrite Z.max_r by lia.
  - by rewrite (proj2 (Z.ltb_ge _ _)), (proj2 (Z.leb_gt _ _)) by lia.
  - unfold calc_add. cbn. destruct (Z.ltb_spec z 513); do 2 f_equal; lia.
Qed.

Theorem calc_length_correct_tree (t : tree) : calc_correct t.
Proof.
  induction t as [op|ts IH|parts IH|ts IH] using tree_ind'; intros s Hok Hst.
  - cbn [flatten]. rewrite calc_ops_one. by apply calc_leaf.
  - cbn in Hok. to_prop. cbn [flatten].
    change (OpBeginScope :: flat_map flatten ts ++ [OpEndScope])
      with ([OpBeginScope] ++ flat_map flatten ts ++ [OpEndScope]).
    rewrite calc_ops_app, calc_ops_one. destruct s as [z st sc]; cbn in *. subst st. cbn.
    rewrite calc_ops_app. rewrite calc_correct_list by done. cbn.
    rewrite (proj2 (Z.leb_gt _ _)) by lia. cbn.
    unfold calc_add; cbn. do 2 f_equal. unfold sizes. lia.
  - cbn [flatten]. rewrite calc_ops_one, calc_op_permutation by done.
    cbn in Hok |- *.
    revert s Hok Hst. induction IH as [|part parts Hp _ IHp]; intros s Hok Hst; cbn.
    { destruct s; unfold calc_add; cbn. by rewrite Z.add_0_r. }
    cbn in Hok. to_prop. rewrite calc_correct_list; [|done| |done].
    2: { rewrite (trees_ok_no_padding _ _ _ _ 0); done. }
    cbn. rewrite IHp by done. rewrite calc_add_add.
    by rewrite (sizes_no_padding dlen part (size_ s) 0).
  - cbn [flatten]. rewrite calc_ops_one, calc_op_value by done.
    by rewrite calc_correct_list.
Qed.
End interpreters.

(** * The store *)

Lemma split_len {A} (n : Z) (l : list A) :
  0 <= n <= len l -> exists a b, l = a ++ b /\ len a = n /\ len b = len l - n.
Proof.
  intros Hn. exists (take (Z.to_nat n) l), (drop (Z.to_nat n) l). rewrite take_drop.
  split; [done|]. rewrite len_take, len_drop by lia. lia.
Qed.

(** A buffer whose cursor is behind [pre]. *)
Definition cursor (pre rest : bytes) (sc : list Z) : store := mk_store (pre ++ rest) (len pre) sc.

Lemma put_cursor pre old post bs sc :
  len bs = len old -> put bs (cursor pre (old ++ post) sc) = Ok (cursor (pre ++ bs) post sc).
Proof.
  intros Hl. unfold put, cursor, dest_size. cbn. pose proof (len_nonneg post).
  rewrite (proj2 (Z.leb_le _ _)) by (rewrite !len_app; lia). cbn.
  by rewrite write_at_app, len_app, app_assoc.
Qed.

Lemma store_begin_cursor pre m post sc :
  len m = 2 -> store_begin (cursor pre (m ++ post) sc) = Ok (cursor (pre ++ m) post (len pre :: sc)).
Proof.
  intros Hm. unfold store_begin, cursor, dest_size. cbn -[len]. pose proof (len_nonneg post).
  rewrite (proj2 (Z.leb_le _ _)) by (rewrite !len_app; lia). cbn -[len].
  by rewrite len_app, Hm, <- app_assoc.
Qed.

Lemma store_end_cursor pre m body post sc :
  len m = 2 -> len body < 2 ^ 14 ->
  store_end (cursor (pre ++ m ++ body) post (len pre :: sc)) =
    Ok (cursor (pre ++ be16 (len body) ++ body) post sc).
Proof.
  intros Hm Hb. unfold store_end, cursor. cbn -[len be16 write_at Z.pow].
  replace (len (pre ++ m ++ body) - len pre - 2) with (len body) by (rewrite !len_app; lia).
  rewrite (proj2 (Z.ltb_lt _ _)) by done. cbn -[len be16 write_at].
  rewrite <- !app_assoc, write_at_app by (by rewrite Hm).
  by rewrite !len_app, Hm, len_be16.
Qed.

Section storing.
Context {G : Type} `{RandomLaws G} `{BigNumLaws}.
Context (key_fuel : nat) (Hkey : forall g : G, key_within key_fuel g = true).

Lemma store_random_cursor n pre mid post sc g :
  0 <= n < 2 ^ 64 -> len mid = n -> exists out g',
    store_random n (cursor pre (mid ++ post) sc) g = Ok (cursor (pre ++ out) post sc, g') /\
    len out = n.
Proof.
  intros Hn Hm. unfold store_random, uint64. rewrite Z.mod_small by lia.
  pose proof (len_nonneg post) as Hp.
  assert (Hd : dest_size (cursor pre (mid ++ post) sc) = n + len post).
  { unfold dest_size, cursor. cbn. rewrite !len_app. lia. }
  rewrite Hd, Z.min_l by lia. pose proof (len_secure_bytes n g ltac:(lia)) as Hl.
  destruct (secure_bytes n g) as [bs g']; cbn in Hl.
  rewrite put_cursor by lia. cbn. rewrite (proj2 (Z.leb_le _ _)) by lia. cbn. by exists bs, g'.
Qed.

Lemma store_ml_kem_cursor k : forall pre mid post sc g,
  len mid = 3 * Z.of_nat k + 32 -> exists out g',
    store_ml_kem k (cursor pre (mid ++ post) sc) g = Ok (cursor (pre ++ out) post sc, g') /\
    len out = 3 * Z.of_nat k + 32.
Proof.
  induction k as [|k IH]; intros pre mid post sc g Hm; cbn [store_ml_kem].
  { by apply store_random_cursor. }
  destruct (secure_uint32 g) as [a g1], (secure_uint32 g1) as [b g2].
  destruct (split_len 3 mid ltac:(lia)) as (m1 & m2 & -> & Hm1 & Hm2).
  rewrite <- app_assoc, put_cursor by done. cbn.
  destruct (IH (pre ++ ml_kem_pair (a mod 3329) (b mod 3329)) m2 post sc g2 ltac:(lia))
    as (out & g' & -> & Hl).
  exists (ml_kem_pair (a mod 3329) (b mod 3329) ++ out), g'.
  rewrite app_assoc. split; [done|].
  rewrite len_app. change (len (ml_kem_pair _ _)) with 3. lia.
Qed.

Lemma store_key_cursor pre mid post sc g :
  len mid = 32 -> exists x g',
    store_key key_fuel (cursor pre (mid ++ post) sc) g =
      Ok (cursor (pre ++ le_store 32 x) post sc, g') /\ 0 <= x < curve_mod.
Proof.
  intros Hm. unfold store_key. destruct (gen_key_within key_fuel g (Hkey g)) as (x & Hx & Hr).
  destruct (gen_key key_fuel g) as [k g']. cbn -[le_store] in Hx. subst k. exists x, g'.
  cbn -[le_store cursor put].
  rewrite (put_cursor pre mid post) by (rewrite Hm; apply len_le_store). done.
Qed.

Lemma store_padding_cursor pre mid post sc :
  len mid = len (padding_bytes (len pre)) ->
  store_padding (cursor pre (mid ++ post) sc) = Ok (cursor (pre ++ padding_bytes (len pre)) post sc).
Proof.
  unfold padding_bytes, store_padding. change (offset (cursor _ _ _)) with (len pre).
  destruct (Z.ltb_spec (len pre) 513) as [Hp|Hp].
  2: { rewrite (proj2 (Z.ltb_ge _ _)) by lia. intros Hm.
       apply len_zero_nil in Hm as ->. by rewrite app_nil_r. }
  rewrite (proj2 (Z.ltb_lt _ _)) by lia. set (n := 513 - len pre) in *.
  rewrite !len_app, len_be16, len_zeros by lia. change (len (hex [0; 21])) with 2. intros Hm.
  destruct (split_len 2 mid ltac:(lia)) as (m1 & m' & -> & Hm1 & Hm').
  destruct (split_len 2 m' ltac:(lia)) as (m2 & m3 & -> & Hm2 & Hm3).
  rewrite <- !app_assoc, put_cursor by done. cbn -[put zeros store_end be16 cursor hex store_begin].
  rewrite store_begin_cursor by done. cbn -[put zeros store_end be16 cursor hex].
  rewrite put_cursor by (rewrite len_zeros; lia). cbn -[zeros store_end be16 cursor hex].
  pose proof (len_nonneg pre). rewrite <- (app_assoc _ m2), store_end_cursor; [|done|].
  2: { rewrite len_zeros; lia. }
  rewrite len_zeros by lia. by rewrite <- !app_assoc.
Qed.

Context (ctx : TlsHelloContext) (Hg : grease_ok (grease_ ctx)).
Abbreviation dlen := (len (context_get_domain ctx)).
Abbreviation gsize := (len (grease_ ctx)).

Lemma store_ops_app l k s g :
  store_ops key_fuel (Some ctx) (l ++ k) s g =
    store_ops key_fuel (Some ctx) l s g ≫= fun r => store_ops key_fuel (Some ctx) k r.1 r.2.
Proof.
  revert s g. induction l as [|op l IH]; intros s g; [done|]. cbn.
  destruct (store_op key_fuel (Some ctx) op s g) as [[s' g']| |]; cbn; [apply IH|done|done].
Qed.

Lemma store_ops_one op s g :
  store_ops key_fuel (Some ctx) [op] s g = store_op key_fuel (Some ctx) op s g.
Proof. cbn. by destruct (store_op key_fuel (Some ctx) op s g) as [[s' g']| |]. Qed.

Definition store_correct (t : tree) : Prop := forall pre mid post sc g,
  tree_ok dlen gsize (len pre) t = true -> len mid = size dlen (len pre) t ->
  exists out g',
    store_ops key_fuel (Some ctx) (flatten t) (cursor pre (mid ++ post) sc) g =
      Ok (cursor (pre ++ out) post sc, g') /\ render ctx (len pre) t out.

Lemma store_leaf op pre mid post sc g :
  leaf_ok gsize op = true -> len mid = size_leaf dlen (len pre) op ->
  exists out g',
    store_op key_fuel (Some ctx) op (cursor pre (mid ++ post) sc) g =
      Ok (cursor (pre ++ out) post sc, g') /\ render_leaf ctx (len pre) op out.
Proof.
  intros Hok Hm. pose proof (len_nonneg (context_get_domain ctx)) as Hd.
  pose proof (len_sym_leaf dlen (len pre) op Hd) as Hl.
  destruct op; cbn -[len size_leaf] in Hok; try done; cbn -[len cursor put uint64 store_ml_kem];
    cbn -[len] in Hm; to_prop.
  - rewrite put_cursor by done. cbn -[cursor]. by eexists _, _.
  - apply store_random_cursor; lia.
  - unfold uint64. rewrite Z.mod_small by lia.
    rewrite put_cursor by (rewrite len_zeros; lia). cbn -[cursor]. by eexists _, _.
  - rewrite put_cursor by done. cbn -[cursor]. by eexists _, _.
  - unfold context_get_grease, uint64. rewrite Z.mod_small by lia.
    rewrite (proj2 (Z.ltb_lt _ _)) by done. cbn -[cursor put].
    rewrite put_cursor by done. cbn -[cursor]. by eexists _, _.
  - destruct (store_key_cursor pre mid post sc g Hm) as (x & g' & -> & Hx).
    exists (le_store 32 x), g'. split; [reflexivity|]. by exists x.
  - apply store_ml_kem_cursor. lia.
  - rewrite store_padding_cursor by (cbn -[len known padding_bytes] in Hl; rewrite len_known in Hl; lia). cbn -[cursor]. by eexists _, _.
Qed.

Lemma store_correct_list ts : Forall store_correct ts -> forall pre mid post sc g,
  trees_ok dlen gsize (len pre) ts = true -> len mid = sizes dlen (len pre) ts ->
  exists out g',
    store_ops key_fuel (Some ctx) (flat_map flatten ts) (cursor pre (mid ++ post) sc) g =
      Ok (cursor (pre ++ out) post sc, g') /\ renders ctx (len pre) ts out.
Proof.
  induction 1 as [|t ts Ht _ IH]; intros pre mid post sc g Hok Hm.
  { apply len_zero_nil in Hm as ->. exists [], g. rewrite app_nil_r. split; [done|constructor]. }
  cbn -[len] in Hok, Hm. to_prop. pose proof (len_nonneg (context_get_domain ctx)) as Hd.
  pose proof (size_nonneg dlen t Hd (len pre)) as Hn.
  pose proof (sizes_nonneg dlen (len pre + size dlen (len pre) t) ts Hd) as Hn'.
  unfold sizes in Hn', Hm.
  destruct (split_len (size dlen (len pre) t) mid ltac:(lia)) as (m1 & m2 & -> & Hm1 & Hm2).
  destruct (Ht pre m1 (m2 ++ post) sc g) as (o1 & g1 & Hs1 & Hr1); [done|done|].
  pose proof (render_len _ _ _ _ Hg Hr1) as Hl1.
  destruct (IH (pre ++ o1) m2 post sc g1) as (o2 & g2 & Hs2 & Hr2).
  { by rewrite len_app, Hl1. }
  { rewrite len_app, Hl1. unfold sizes. lia. }
  exists (o1 ++ o2), g2. cbn. rewrite store_ops_app, <- app_assoc, Hs1. cbn.
  rewrite Hs2, app_assoc. split; [done|]. constructor; [done|]. by rewrite <- len_app.
Qed.

Lemma store_op_permutation parts s g :
  store_op key_fuel (Some ctx) (OpPermutation parts) s g =
    (r ← store_parts key_fuel (Some ctx) parts g;
     let '(shuffled, g) := shuffle r.1 r.2 in
     s ← put_all shuffled s; Ok (s, g)).
Proof. done. Qed.

Lemma put_all_cursor parts : forall pre mid post sc,
  len mid = len (concat parts) ->
  put_all parts (cursor pre (mid ++ post) sc) = Ok (cursor (pre ++ concat parts) post sc).
Proof.
  induction parts as [|part parts IH]; intros pre mid post sc Hm; cbn -[cursor put].
  { apply len_zero_nil in Hm as ->. by rewrite app_nil_r. }
  cbn in Hm. rewrite len_app in Hm.
  destruct (split_len (len part) mid) as (m1 & m2 & -> & Hm1 & Hm2).
  { rewrite Hm. pose proof (len_nonneg part). pose proof (len_nonneg (concat parts)). lia. }
  rewrite <- app_assoc, put_cursor by done. cbn -[cursor put].
  rewrite IH by lia. by rewrite <- app_assoc.
Qed.

Lemma calc_correct_all ts : Forall (calc_correct ctx) ts.
Proof. apply Forall_true. apply calc_length_correct_tree. Qed.

Lemma store_parts_correct parts : Forall (Forall store_correct) parts -> forall g,
  forallb (fun part => forallb no_padding part && trees_ok dlen gsize 0 part) parts = true ->
  exists outs g',
    store_parts key_fuel (Some ctx) (map (flat_map flatten) parts) g = Ok (outs, g') /\
    renders_parts ctx parts outs.
Proof.
  induction 1 as [|part parts Hp _ IH]; intros g Hok.
  { exists [], g. split; [done|constructor]. }
  cbn [forallb] in Hok. to_prop. cbn -[len store_init calc_ops].
  rewrite calc_correct_list by (done || apply calc_correct_all).
  cbn -[len store_init Z.add]. rewrite Z.add_0_l. set (n := sizes dlen 0 part).
  assert (Hn : 0 <= n) by apply sizes_nonneg, len_nonneg.
  change (store_init (zeros n)) with (cursor [] (zeros n) []). rewrite <- (app_nil_r (zeros n)).
  destruct (store_correct_list part Hp [] (zeros n) [] [] g) as (out & g1 & Hs & Hr).
  { done. } { by rewrite len_zeros. }
  rewrite Hs. cbn -[len]. rewrite app_nil_r.
  pose proof (renders_len _ _ _ _ Hg Hr) as Hl. cbn -[len] in Hl.
  fold n in Hl. rewrite (proj2 (Z.eqb_eq _ _)) by done. cbn -[len].
  destruct (IH g1) as (outs & g' & -> & Hrs); [done|]. cbn.
  exists (out :: outs), g'. split; [done|]. by constructor.
Qed.

Theorem store_correct_tree (t : tree) : store_correct t.
Proof.
  induction t as [op|ts IH|parts IH|ts IH] using tree_ind'; intros pre mid post sc g Hok Hm.
  - cbn [flatten]. rewrite store_ops_one.
    destruct (store_leaf op pre mid post sc g Hok Hm) as (out & g' & Hs & Hr).
    exists out, g'. split; [done|]. by constructor.
  - cbn -[len be16 Z.pow] in Hok, Hm. to_prop. fold (sizes dlen (len pre + 2) ts) in Hm.
    pose proof (sizes_nonneg dlen (len pre + 2) ts (len_nonneg _)) as Hn.
    destruct (split_len 2 mid ltac:(lia)) as (m1 & m2 & -> & Hm1 & Hm2).
    cbn [flatten]. change (OpBeginScope :: flat_map flatten ts ++ [OpEndScope])
      with ([OpBeginScope] ++ flat_map flatten ts ++ [OpEndScope]).
    rewrite store_ops_app, store_ops_one. cbn -[store_begin len store_ops cursor].
    rewrite <- app_assoc, store_begin_cursor by done. cbn -[len store_ops cursor].
    rewrite store_ops_app.
    destruct (store_correct_list ts IH (pre ++ m1) m2 post (len pre :: sc) g)
      as (out & g' & -> & Hr).
    { by rewrite len_app, Hm1. }
    { rewrite len_app, Hm1. lia. }
    rewrite len_app, Hm1 in Hr.
    pose proof (renders_len _ _ _ _ Hg Hr) as Hl.
    cbn -[len store_ops cursor]. rewrite store_ops_one. cbn -[store_end len cursor].
    rewrite <- app_assoc, store_end_cursor; [|done|].
    2: { by rewrite Hl. }
    cbn. exists (be16 (len out) ++ out), g'. split; [done|]. by constructor.
  - cbn [flatten]. rewrite store_ops_one, store_op_permutation.
    destruct (store_parts_correct parts IH g Hok) as (outs & g' & -> & Hr). cbn -[cursor put_all shuffle].
    pose proof (shuffle_Permutation outs g') as Hp.
    destruct (shuffle outs g') as [outs' g'']. cbn in Hp.
    assert (Hren : render ctx (len pre) (TPerm parts) (concat outs')) by by econstructor.
    rewrite (put_all_cursor outs' pre mid).
    2: { rewrite Hm. symmetry. by apply (render_len ctx). }
    cbn. eauto.
  - cbn [flatten]. rewrite store_ops_one.
    destruct (store_correct_list ts IH pre mid post sc g) as (out & g' & Hs & Hr); [done|done|].
    exists out, g'. split; [exact Hs|]. by constructor.
Qed.
End storing.
