(* ===== verification/TlsHelloSpec.v ===== *)
(** The ClientHello of RFC 8446 as a parser, and the messages of the templates
    judged by it.

    The parser reads a sequence of [sbyte]s; a received message is the
    sequence of its known bytes, [known out].  On a sequence with unknown bytes
    the parser answers [Parsed] or [Malformed] only when every completion of
    the sequence gets that answer ([parse_frame_sound], [parse_exts_sound]):
    running it once on the fixed part of a template decides for all runs. *)
From S2P Require Import Prelude Bytes Random BigNum ProxySecret TlsHello TlsHelloCorrect.
#[local] Open Scope Z_scope.

Inductive presult (A : Type) := Parsed (a : A) | Malformed | Unknown.
Arguments Parsed {A} a.
Arguments Malformed {A}.
Arguments Unknown {A}.

#[export] Instance presult_ret : MRet presult := @Parsed.
#[export] Instance presult_bind : MBind presult := fun A B f m =>
  match m with Parsed a => f a | Malformed => Malformed | Unknown => Unknown end.

Definition require (b : bool) : presult unit := if b then Parsed tt else Malformed.

Abbreviation sbytes := (list sbyte).

Definition u8 (s : sbytes) : presult (Z * sbytes) :=
  match s with
  | [] => Malformed
  | SKnown b :: s => Parsed (b2z b, s)
  | _ :: _ => Unknown
  end.

Definition u16 (s : sbytes) : presult (Z * sbytes) :=
  '(a, s) ← u8 s; '(b, s) ← u8 s; Parsed (256 * a + b, s).

Definition u24 (s : sbytes) : presult (Z * sbytes) :=
  '(a, s) ← u8 s; '(b, s) ← u16 s; Parsed (65536 * a + b, s).

Definition takes (n : Z) (s : sbytes) : presult (sbytes * sbytes) :=
  _ ← require (n <=? len s);
  Parsed (take (Z.to_nat n) s, drop (Z.to_nat n) s).

(** A vector with a length prefix that [p] reads. *)
Definition vec (p : sbytes -> presult (Z * sbytes)) (s : sbytes) : presult (sbytes * sbytes) :=
  '(n, s) ← p s; takes n s.

Definition finished (s : sbytes) : presult unit :=
  match s with [] => Parsed tt | _ => Malformed end.

(** [p] again and again until the input is used up; [fuel] is the length of
    the input where it is called. *)
Fixpoint many {A} (p : sbytes -> presult (A * sbytes)) (fuel : nat) (s : sbytes)
  : presult (list A) :=
  match s, fuel with
  | [], _ => Parsed []
  | _, O => Malformed
  | _, S fuel => '(x, s) ← p s; xs ← many p fuel s; Parsed (x :: xs)
  end.

Definition whole {A} (p : sbytes -> presult (A * sbytes)) (s : sbytes) : presult A :=
  '(x, s) ← p s; _ ← finished s; Parsed x.

(** A non-empty list of two-byte values in a vector that is the whole input. *)
Definition u16_list (p : sbytes -> presult (Z * sbytes)) (s : sbytes) : presult unit :=
  l ← whole (vec p) s;
  require (negb (len l =? 0) && (len l mod 2 =? 0)).

(** ** Extensions *)

(** The host name of a server_name extension: one entry of type host_name. *)
Definition parse_sni (data : sbytes) : presult sbytes :=
  l ← whole (vec u16) data;
  '(kind, l) ← u8 l;
  _ ← require (kind =? 0);
  name ← whole (vec u16) l;
  _ ← require (negb (len name =? 0));
  Parsed name.

(** A key share entry: a group and a non-empty key. *)
Definition parse_share (s : sbytes) : presult (unit * sbytes) :=
  '(_, s) ← takes 2 s;
  '(key, s) ← vec u16 s;
  _ ← require (negb (len key =? 0));
  Parsed (tt, s).

Definition parse_protocol (s : sbytes) : presult (unit * sbytes) :=
  '(name, s) ← vec u8 s;
  _ ← require (negb (len name =? 0));
  Parsed (tt, s).

Definition all_of {A} (p : sbytes -> presult (A * sbytes)) (s : sbytes) : presult unit :=
  _ ← many p (length s) s; Parsed tt.

(** The contents an extension of the given type must have. *)
Definition extension_body (code : Z) (data : sbytes) : presult unit :=
  if code =? 0 then _ ← parse_sni data; Parsed tt
  else if (code =? 10) || (code =? 13) then u16_list u16 data
  else if code =? 43 then u16_list u8 data
  else if code =? 51 then
    l ← whole (vec u16) data; all_of parse_share l
  else if code =? 16 then
    l ← whole (vec u16) data; all_of parse_protocol l
  else if code =? 45 then
    l ← whole (vec u8) data; require (negb (len l =? 0))
  else Parsed tt.

(** A type whose first byte is a GREASE value is one no server knows. *)
Definition extension_content (type data : sbytes) : presult unit :=
  match type with
  | [SKnown a; SKnown b] => extension_body (256 * b2z a + b2z b) data
  | [SGrease _; _] => Parsed tt
  | _ => Unknown
  end.

Abbreviation extension := (list sbyte * list sbyte)%type.

Definition parse_ext (s : sbytes) : presult (extension * sbytes) :=
  '(type, s) ← takes 2 s;
  '(data, s) ← vec u16 s;
  Parsed ((type, data), s).

Fixpoint contents_ok (exts : list extension) : presult unit :=
  match exts with
  | [] => Parsed tt
  | (type, data) :: exts => _ ← extension_content type data; contents_ok exts
  end.

(** First the list is cut, then the contents are judged. *)
Definition parse_exts (s : sbytes) : presult (list extension) :=
  exts ← many parse_ext (length s) s;
  _ ← contents_ok exts;
  Parsed exts.

(** ** The message *)

(** The session id, the cipher suites and the bytes of the extensions. *)
Definition parse_frame (s : sbytes) : presult (sbytes * sbytes * sbytes) :=
  '(kind, s) ← u24 s;
  _ ← require (kind =? 0x160301);
  record ← whole (vec u16) s;
  '(handshake, s) ← u8 record;
  _ ← require (handshake =? 1);
  body ← whole (vec u24) s;
  '(version, s) ← u16 body;
  _ ← require (version =? 0x0303);
  '(random, s) ← takes 32 s;
  '(session_id, s) ← vec u8 s;
  _ ← require (len session_id <=? 32);
  '(suites, s) ← vec u16 s;
  _ ← require (negb (len suites =? 0) && (len suites mod 2 =? 0));
  '(compression, s) ← vec u8 s;
  _ ← require (negb (len compression =? 0));
  exts ← whole (vec u16) s;
  Parsed (session_id, suites, exts).

Definition parse_client_hello (s : sbytes) : presult (sbytes * sbytes * list extension) :=
  '(session_id, suites, exts) ← parse_frame s;
  exts ← parse_exts exts;
  Parsed (session_id, suites, exts).

(** * Unknown bytes *)

Section soundness.
Context (ctx : TlsHelloContext).

(** [t] is a completion of [s]. *)
Definition completes (s t : sbytes) : Prop :=
  Forall2 (fun x y => exists b, y = SKnown b /\ sbyte_match ctx x b) s t.

Lemma completes_matches s out : completes s (known out) <-> matches ctx s out.
Proof.
  unfold completes, matches, known. rewrite Forall2_fmap_r.
  split; intros Hf; (eapply Forall2_impl; [exact Hf|]); intros x b; cbn.
  - intros (? & [= ->] & ?). done.
  - eauto.
Qed.

Lemma completes_len s t : completes s t -> len t = len s.
Proof. intros H. apply Forall2_length in H. unfold len. lia. Qed.

Lemma completes_known s t : completes (known s) t -> t = known s.
Proof.
  unfold completes, known. rewrite Forall2_fmap_l. induction 1 as [|x y s t (b & -> & <-) _ IH];
    [done|]. cbn. by rewrite IH.
Qed.

(** The relation between the two results that soundness asks for. *)
Definition agrees {A B} (R : A -> B -> Prop) (x : presult A) (y : presult B) : Prop :=
  match x with
  | Parsed a => exists b, y = Parsed b /\ R a b
  | Malformed => y = Malformed
  | Unknown => True
  end.

Lemma agrees_bind {A B A' B'} (R : A -> B -> Prop) (S : A' -> B' -> Prop) x y f g :
  agrees R x y -> (forall a b, R a b -> agrees S (f a) (g b)) -> agrees S (x ≫= f) (y ≫= g).
Proof. destruct x; cbn; [|by intros ->|done]. intros (b & -> & Hr) Hf. by apply Hf. Qed.

Lemma agrees_parsed {A B} (R : A -> B -> Prop) a b : R a b -> agrees R (Parsed a) (Parsed b).
Proof. cbn. eauto. Qed.

Lemma agrees_require b c : b = c -> agrees eq (require b) (require c).
Proof. intros ->. destruct c; cbn; eauto. Qed.

Abbreviation valued := (prod_relation (=) completes).
Abbreviation pieces := (prod_relation completes completes).

Definition sound {A} (R : relation A) (p : sbytes -> presult A) : Prop :=
  forall s t, completes s t -> agrees R (p s) (p t).

Lemma u8_sound : sound valued u8.
Proof.
  intros s t H. destruct H as [|x y s t (b & -> & Hb) Hs]; [done|].
  destruct x; cbn in Hb |- *; subst; try done. eexists; split; [done|]. by split.
Qed.

Lemma u16_sound : sound valued u16.
Proof.
  intros s t H. unfold u16. eapply agrees_bind; [by apply u8_sound|].
  intros [a s1] [a' t1] [Ha Hs1]; cbn in *; subst.
  eapply agrees_bind; [by apply u8_sound|].
  intros [b s2] [b' t2] [Hb Hs2]; cbn in *; subst. eexists; split; [done|]. by split.
Qed.

Lemma u24_sound : sound valued u24.
Proof.
  intros s t H. unfold u24. eapply agrees_bind; [by apply u8_sound|].
  intros [a s1] [a' t1] [Ha Hs1]; cbn in *; subst.
  eapply agrees_bind; [by apply u16_sound|].
  intros [b s2] [b' t2] [Hb Hs2]; cbn in *; subst. eexists; split; [done|]. by split.
Qed.

Lemma takes_sound n : sound pieces (takes n).
Proof.
  intros s t H. unfold takes. rewrite (completes_len s t H). destruct (require _); cbn; [|done..].
  eexists; split; [done|]. split; [by apply Forall2_take | by apply Forall2_drop].
Qed.

Lemma vec_sound p : sound valued p -> sound pieces (vec p).
Proof.
  intros Hp s t H. unfold vec. eapply agrees_bind; [by apply Hp|].
  intros [n s1] [n' t1] [Hn Hs]; cbn in *; subst. by apply takes_sound.
Qed.

Lemma finished_sound : sound eq finished.
Proof. intros s t H. destruct H; cbn; eauto. Qed.

Lemma whole_sound {A} (R : relation A) p :
  sound (prod_relation R completes) p -> sound R (whole p).
Proof.
  intros Hp s t H. unfold whole. eapply agrees_bind; [by apply Hp|].
  intros [a s1] [b t1] [Ha Hs]; cbn in *.
  eapply agrees_bind; [by apply finished_sound|]. intros _ _ _. by apply agrees_parsed.
Qed.

Lemma many_sound {A} (R : relation A) p fuel :
  sound (prod_relation R completes) p -> sound (Forall2 R) (many p fuel).
Proof.
  intros Hp. induction fuel as [|fuel IH]; intros s t H.
  { destruct H; cbn; eauto. }
  destruct H as [|x y s t Hx H]; [cbn; eauto|]. cbn.
  eapply agrees_bind; [by apply Hp; constructor|].
  intros [a s1] [b t1] [Ha Hs]; cbn in *.
  eapply agrees_bind; [by apply IH|]. intros xs ys Hxs. apply agrees_parsed. by constructor.
Qed.

Lemma all_of_sound {A} p :
  sound (prod_relation (=) completes) p -> sound eq (@all_of A p).
Proof.
  intros Hp s t H. unfold all_of. rewrite <- (Forall2_length _ _ _ H).
  eapply agrees_bind; [by apply (many_sound eq)|]. intros. by apply agrees_parsed.
Qed.

Lemma u16_list_sound p : sound valued p -> sound eq (u16_list p).
Proof.
  intros Hp s t H. unfold u16_list.
  eapply agrees_bind; [apply (whole_sound completes); [by apply vec_sound|done]|].
  intros l l' Hl. apply agrees_require. by rewrite (completes_len _ _ Hl).
Qed.

Lemma parse_sni_sound : sound completes parse_sni.
Proof.
  intros s t H. unfold parse_sni.
  eapply agrees_bind; [apply (whole_sound completes); [apply vec_sound, u16_sound|done]|].
  intros l l' Hl. eapply agrees_bind; [by apply u8_sound|].
  intros [k s1] [k' t1] [Hk Hs]; cbn in *; subst.
  eapply agrees_bind; [by apply agrees_require|]. intros _ _ _.
  eapply agrees_bind; [apply (whole_sound completes); [apply vec_sound, u16_sound|done]|].
  intros n n' Hn. eapply agrees_bind.
  { apply agrees_require. by rewrite (completes_len _ _ Hn). }
  intros _ _ _. by apply agrees_parsed.
Qed.

Lemma parse_share_sound : sound (prod_relation (=) completes) parse_share.
Proof.
  intros s t H. unfold parse_share. eapply agrees_bind; [by apply takes_sound|].
  intros [g s1] [g' t1] [_ Hs]; cbn in *.
  eapply agrees_bind; [by apply vec_sound, Hs; apply u16_sound|].
  intros [k s2] [k' t2] [Hk Hs2]; cbn in *.
  eapply agrees_bind; [apply agrees_require; by rewrite (completes_len _ _ Hk)|].
  intros _ _ _. by apply agrees_parsed.
Qed.

Lemma parse_protocol_sound : sound (prod_relation (=) completes) parse_protocol.
Proof.
  intros s t H. unfold parse_protocol.
  eapply agrees_bind; [by apply vec_sound, H; apply u8_sound|].
  intros [k s2] [k' t2] [Hk Hs2]; cbn in *.
  eapply agrees_bind; [apply agrees_require; by rewrite (completes_len _ _ Hk)|].
  intros _ _ _. by apply agrees_parsed.
Qed.

Lemma extension_body_sound code : sound eq (extension_body code).
Proof.
  intros s t H. unfold extension_body.
  destruct (code =? 0).
  { eapply agrees_bind; [by apply parse_sni_sound|]. intros. by apply agrees_parsed. }
  destruct (_ || _); [by apply u16_list_sound, H; apply u16_sound|].
  destruct (code =? 43); [by apply u16_list_sound, H; apply u8_sound|].
  destruct (code =? 51).
  { eapply agrees_bind; [apply (whole_sound completes); [apply vec_sound, u16_sound|done]|].
    intros l l' Hl. by apply all_of_sound, Hl; apply parse_share_sound. }
  destruct (code =? 16).
  { eapply agrees_bind; [apply (whole_sound completes); [apply vec_sound, u16_sound|done]|].
    intros l l' Hl. by apply all_of_sound, Hl; apply parse_protocol_sound. }
  destruct (code =? 45); [|by apply agrees_parsed].
  eapply agrees_bind; [apply (whole_sound completes); [apply vec_sound, u8_sound|done]|].
  intros l l' Hl. apply agrees_require. by rewrite (completes_len _ _ Hl).
Qed.

Lemma extension_content_sound type type' data data' :
  completes type type' -> completes data data' ->
  agrees eq (extension_content type data) (extension_content type' data').
Proof.
  intros Ht Hd. unfold extension_content.
  destruct Ht as [|x y type type' (b & -> & Hb) Ht]; [done|].
  destruct Ht as [|x2 y2 type type' (b2 & -> & Hb2) Ht]; [by destruct x|].
  destruct x as [a|i|i|]; [| |done..].
  - destruct x2 as [a2|?|?|]; [|done..]. destruct Ht; [|done]. cbn in Hb, Hb2. subst.
    by apply extension_body_sound.
  - destruct Ht; [|done]. cbn in Hb |- *. destruct Hb as [_ Hb].
    pose proof (b2z_range b). pose proof (b2z_range b2).
    assert (10 <= b2z b) by (pose proof (Z.mod_le (b2z b) 16); lia).
    set (code := 256 * b2z b + b2z b2). assert (Hc : 2560 <= code) by lia.
    clearbody code. unfold extension_body.
    repeat rewrite (proj2 (Z.eqb_neq _ _)) by lia. cbn. eauto.
Qed.

Lemma contents_ok_sound exts exts' :
  Forall2 pieces exts exts' -> agrees eq (contents_ok exts) (contents_ok exts').
Proof.
  induction 1 as [|[t d] [t' d'] exts exts' [Ht Hd] _ IH]; [by apply agrees_parsed|]. cbn.
  eapply agrees_bind; [by apply extension_content_sound|]. intros _ _ _. done.
Qed.

Lemma parse_ext_sound : sound (prod_relation pieces completes) parse_ext.
Proof.
  intros s t H. unfold parse_ext. eapply agrees_bind; [by apply takes_sound|].
  intros [g s1] [g' t1] [Hg Hs]; cbn in *.
  eapply agrees_bind; [by apply vec_sound, Hs; apply u16_sound|].
  intros [k s2] [k' t2] [Hk Hs2]; cbn in *. by apply agrees_parsed.
Qed.

Lemma parse_exts_sound : sound (Forall2 pieces) parse_exts.
Proof.
  intros s t H. unfold parse_exts. rewrite <- (Forall2_length _ _ _ H).
  eapply agrees_bind; [by apply (many_sound pieces _ _ parse_ext_sound)|].
  intros l l' Hl. eapply agrees_bind; [by apply contents_ok_sound|].
  intros _ _ _. by apply agrees_parsed.
Qed.

Abbreviation frames := (prod_relation pieces completes).

Ltac sound_step lem :=
  eapply agrees_bind; [first [by apply lem | by apply vec_sound, lem]|]; intros [? ?] [? ?] [? ?];
  cbn [fst snd] in *; subst.
Lemma parse_frame_sound : sound frames parse_frame.
Proof.
  intros s t H. unfold parse_frame.
  sound_step u24_sound.
  eapply agrees_bind; [by apply agrees_require|]. intros _ _ _.
  eapply agrees_bind; [apply (whole_sound completes); [apply vec_sound, u16_sound|done]|].
  intros r r' Hr. sound_step u8_sound.
  eapply agrees_bind; [by apply agrees_require|]. intros _ _ _.
  eapply agrees_bind; [apply (whole_sound completes); [apply vec_sound, u24_sound|done]|].
  intros b b' Hb. sound_step u16_sound.
  eapply agrees_bind; [by apply agrees_require|]. intros _ _ _.
  sound_step (takes_sound 32).
  eapply agrees_bind; [apply vec_sound; [apply u8_sound|done]|].
  intros [sid s1] [sid' t1] [Hsid Hs1]; cbn [fst snd] in *.
  eapply agrees_bind; [apply agrees_require; by rewrite (completes_len _ _ Hsid)|]. intros _ _ _.
  eapply agrees_bind; [apply vec_sound; [apply u16_sound|done]|].
  intros [su s2] [su' t2] [Hsu Hs2]; cbn [fst snd] in *.
  eapply agrees_bind; [apply agrees_require; by rewrite (completes_len _ _ Hsu)|]. intros _ _ _.
  eapply agrees_bind; [apply vec_sound; [apply u8_sound|done]|].
  intros [co s3] [co' t3] [Hco Hs3]; cbn [fst snd] in *.
  eapply agrees_bind; [apply agrees_require; by rewrite (completes_len _ _ Hco)|]. intros _ _ _.
  eapply agrees_bind; [apply (whole_sound completes); [apply vec_sound, u16_sound|done]|].
  intros e e' He. by apply agrees_parsed.
Qed.

Lemma parse_client_hello_sound :
  sound (prod_relation pieces (Forall2 pieces)) parse_client_hello.
Proof.
  intros s t H. unfold parse_client_hello.
  eapply agrees_bind; [by apply parse_frame_sound|].
  intros [[sid su] e] [[sid' su'] e'] [[Hsid Hsu] He]; cbn in *.
  eapply agrees_bind; [by apply parse_exts_sound|].
  intros l l' Hl. by apply agrees_parsed.
Qed.
End soundness.

(** * Shape of the parsed message *)

Lemma presult_bind_inv {A B} (m : presult A) (f : A -> presult B) b :
  m ≫= f = Parsed b -> exists a, m = Parsed a /\ f a = Parsed b.
Proof. destruct m; cbn; naive_solver. Qed.

Ltac inv_parsed :=
  repeat match goal with
  | H : _ ≫= _ = Parsed _ |- _ =>
      apply presult_bind_inv in H; let x := fresh "r" in destruct H as (x & ? & H)
  | x : (_ * _)%type |- _ => destruct x
  | H : Parsed _ = Parsed _ |- _ => injection H as H; subst
  | x : unit |- _ => destruct x
  end.

Lemma u8_suffix s x t : u8 s = Parsed (x, t) -> t `suffix_of` s.
Proof. destruct s as [|[b| | |] s]; try done. intros [= _ ->]. by exists [SKnown b]. Qed.

Lemma u16_suffix s x t : u16 s = Parsed (x, t) -> t `suffix_of` s.
Proof. unfold u16. intros H. inv_parsed. etrans; by eapply u8_suffix. Qed.

Lemma u24_suffix s x t : u24 s = Parsed (x, t) -> t `suffix_of` s.
Proof. unfold u24. intros H. inv_parsed. etrans; [by eapply u16_suffix | by eapply u8_suffix]. Qed.

Lemma takes_app n s a b : takes n s = Parsed (a, b) -> s = a ++ b.
Proof. unfold takes. intros H. inv_parsed. by rewrite take_drop. Qed.

Lemma takes_suffix n s a b : takes n s = Parsed (a, b) -> b `suffix_of` s.
Proof. intros ->%takes_app. by exists a. Qed.

Lemma vec_suffix p s a b :
  (forall s x t, p s = Parsed (x, t) -> t `suffix_of` s) ->
  vec p s = Parsed (a, b) -> b `suffix_of` s.
Proof.
  unfold vec. intros Hp H. inv_parsed. etrans; [by eapply takes_suffix | by eapply Hp].
Qed.

Lemma whole_vec_suffix p s a :
  (forall s x t, p s = Parsed (x, t) -> t `suffix_of` s) ->
  whole (vec p) s = Parsed a -> a `suffix_of` s.
Proof.
  unfold whole, vec. intros Hp H. inv_parsed.
  match goal with H : finished ?l = Parsed _ |- _ => destruct l; [|done] end.
  match goal with H : takes _ _ = Parsed _ |- _ => apply takes_app in H as -> end.
  rewrite app_nil_r in *. by eapply Hp.
Qed.

(** The extensions are the end of the message. *)
Lemma parse_frame_suffix s sid su e : parse_frame s = Parsed (sid, su, e) -> e `suffix_of` s.
Proof.
  unfold parse_frame. intros H. inv_parsed.
  repeat match goal with
  | H : whole (vec u16) _ = Parsed _ |- _ => apply (whole_vec_suffix _ _ _ u16_suffix) in H
  | H : whole (vec u24) _ = Parsed _ |- _ => apply (whole_vec_suffix _ _ _ u24_suffix) in H
  | H : vec u8 _ = Parsed _ |- _ => apply (vec_suffix _ _ _ _ u8_suffix) in H
  | H : vec u16 _ = Parsed _ |- _ => apply (vec_suffix _ _ _ _ u16_suffix) in H
  | H : takes _ _ = Parsed _ |- _ => apply takes_suffix in H
  | H : u8 _ = Parsed _ |- _ => apply u8_suffix in H
  | H : u16 _ = Parsed _ |- _ => apply u16_suffix in H
  | H : u24 _ = Parsed _ |- _ => apply u24_suffix in H
  end.
  by repeat (etrans; [eassumption|]).
Qed.

(** ** Extensions parse one after the other *)

Lemma u8_extend s x r t : u8 s = Parsed (x, r) -> u8 (s ++ t) = Parsed (x, r ++ t).
Proof. destruct s as [|[b| | |] s]; try done. cbn. by intros [= <- <-]. Qed.

Lemma u16_extend s x r t : u16 s = Parsed (x, r) -> u16 (s ++ t) = Parsed (x, r ++ t).
Proof.
  unfold u16. intros H. inv_parsed.
  repeat (erewrite u8_extend by eassumption; cbn). done.
Qed.

Lemma takes_extend n s a r t :
  takes n s = Parsed (a, r) -> takes n (s ++ t) = Parsed (a, r ++ t).
Proof.
  unfold takes. intros H. destruct (Z.leb_spec n (len s)) as [Hn|]; [|done].
  rewrite (proj2 (Z.leb_le _ _)) by (rewrite len_app; pose proof (len_nonneg t); lia).
  cbn in H |- *. injection H as <- <-.
  rewrite take_app_le, drop_app_le by (unfold len in Hn; lia). done.
Qed.

Lemma parse_ext_extend s x r t :
  parse_ext s = Parsed (x, r) -> parse_ext (s ++ t) = Parsed (x, r ++ t).
Proof.
  unfold parse_ext, vec. intros H. inv_parsed.
  erewrite takes_extend by eassumption. cbn. erewrite u16_extend by eassumption. cbn.
  by erewrite takes_extend by eassumption.
Qed.

Lemma many_fuel {A} (p : sbytes -> presult (A * sbytes)) n m s l :
  (n <= m)%nat -> many p n s = Parsed l -> many p m s = Parsed l.
Proof.
  revert m s l. induction n as [|n IH]; intros m s l Hm; destruct s as [|x s]; try done.
  { by destruct m. } { by destruct m. }
  destruct m as [|m]; [lia|]. cbn. intros H. inv_parsed.
  match goal with H : p _ = _ |- _ => rewrite H end. cbn. by erewrite IH by (eassumption || lia).
Qed.

Lemma many_app {A} (p : sbytes -> presult (A * sbytes)) :
  (forall s x r t, p s = Parsed (x, r) -> p (s ++ t) = Parsed (x, r ++ t)) ->
  forall n m s t a b,
  many p n s = Parsed a -> many p m t = Parsed b -> many p (n + m) (s ++ t) = Parsed (a ++ b).
Proof.
  intros Hp. induction n as [|n IH]; intros m s t a b; destruct s as [|x s]; try done.
  - cbn. by intros [= <-].
  - intros [= <-] Ht. eapply many_fuel; [|exact Ht]. lia.
  - intros H Ht. cbn in H. inv_parsed. cbn.
    match goal with H : p _ = _ |- _ => apply (Hp _ _ _ t) in H; cbn in H; rewrite H end. cbn.
    by erewrite IH by eassumption.
Qed.

Lemma contents_ok_app a b :
  contents_ok a = Parsed tt -> contents_ok b = Parsed tt -> contents_ok (a ++ b) = Parsed tt.
Proof.
  induction a as [|[t d] a IH]; [done|]. cbn. intros H Hb. inv_parsed.
  match goal with H : extension_content _ _ = _ |- _ => rewrite H end. cbn. by apply IH.
Qed.

Lemma parse_exts_app s t a b :
  parse_exts s = Parsed a -> parse_exts t = Parsed b -> parse_exts (s ++ t) = Parsed (a ++ b).
Proof.
  unfold parse_exts. intros Ha Hb. inv_parsed. rewrite length_app.
  erewrite many_app by (eassumption || apply parse_ext_extend). cbn.
  by rewrite contents_ok_app.
Qed.

Lemma parse_exts_concat ss ls :
  Forall2 (fun s l => parse_exts s = Parsed l) ss ls ->
  parse_exts (concat ss) = Parsed (concat ls).
Proof. induction 1; [done|]. cbn. by apply parse_exts_app. Qed.

(** * Judging a template *)

(** The last tree of a level, when it is a scope, with the position of its
    contents. *)
Definition last_scope (dlen : Z) (at_ : Z * list tree) : option (Z * list tree) :=
  let '(off, ts) := at_ in
  match reverse ts with
  | TScope us :: rts => Some (off + sizes dlen off (reverse rts) + 2, us)
  | _ => None
  end.

(** The extensions of a template are its last scope at the third level. *)
Definition extension_trees (dlen : Z) (ts : list tree) : option (Z * list tree) :=
  a ← last_scope dlen (0, ts); b ← last_scope dlen a; last_scope dlen b.

(** The extensions are judged piece by piece: stretches of trees that end
    where an extension ends, and permutations. *)
Inductive segment := SegTrees (ts : list tree) | SegPerm (parts : list (list tree)).

(** No domain and no padding inside: the output has a fixed symbolic form. *)
Fixpoint rigid (t : tree) : bool :=
  match t with
  | TOp OpPadding | TOp OpDomain => false
  | TOp _ => true
  | TScope ts => forallb rigid ts
  | TPerm parts => forallb (forallb rigid) parts
  | TValue ts => forallb rigid ts
  end.

(** A stretch ends before a permutation and behind a scope that holds the domain. *)
Fixpoint segments (ts cur : list tree) : list segment :=
  match ts with
  | [] => [SegTrees (reverse cur)]
  | TPerm parts :: ts => SegTrees (reverse cur) :: SegPerm parts :: segments ts []
  | t :: ts =>
      if rigid t then segments ts (t :: cur)
      else SegTrees (reverse (t :: cur)) :: segments ts []
  end.

(** The extensions of a stretch for a domain length and a position; computed
    once when the stretch is rigid. *)
Definition trees_exts (ts : list tree) : Z -> Z -> presult (list extension) :=
  if forallb rigid ts then let l := parse_exts (syms 0 0 ts) in fun _ _ => l
  else fun dlen off => parse_exts (syms dlen off ts).

Fixpoint all_parsed {A} (l : list (presult A)) : presult (list A) :=
  match l with
  | [] => Parsed []
  | x :: l => a ← x; l ← all_parsed l; Parsed (a :: l)
  end.

Definition segment_exts (s : segment) : Z -> Z -> presult (list extension) :=
  match s with
  | SegTrees ts => trees_exts ts
  | SegPerm parts =>
      let ps := map trees_exts parts in
      fun dlen _ => l ← all_parsed (map (fun p => p dlen 0) ps); Parsed (concat l)
  end.

Definition segment_size (dlen off : Z) (s : segment) : Z :=
  match s with
  | SegTrees ts => sizes dlen off ts
  | SegPerm parts => size dlen off (TPerm parts)
  end.

(** The extensions of a template, those of a permutation in template order. *)
Fixpoint segments_exts (segs : list (segment * (Z -> Z -> presult (list extension)))) (dlen off : Z)
  : presult (list extension) :=
  match segs with
  | [] => Parsed []
  | (s, p) :: segs =>
      a ← p dlen off; l ← segments_exts segs dlen (off + segment_size dlen off s); Parsed (a ++ l)
  end.

Definition prepare (segs : list segment) : list (segment * (Z -> Z -> presult (list extension))) :=
  map (fun s => (s, segment_exts s)) segs.

(** Bytes that differ in every run. *)
Definition apart (gsize : Z) (x y : sbyte) : bool :=
  match x, y with
  | SKnown a, SKnown b => negb (bool_decide (a = b))
  | SKnown a, SGrease _ | SGrease _, SKnown a => negb (b2z a mod 16 =? 10)
  | SGrease i, SGrease j =>
      (0 <=? i) && (i <? gsize) && (0 <=? j) && (j <? gsize) && (i / 2 =? j / 2) && negb (i =? j)
  | _, _ => false
  end.

Definition types_apart (gsize : Z) (s t : sbytes) : bool :=
  match s, t with
  | [a; b], [c; d] => apart gsize a c || apart gsize b d
  | _, _ => false
  end.

Fixpoint all_apart (gsize : Z) (types : list sbytes) : bool :=
  match types with
  | [] => true
  | t :: types => forallb (types_apart gsize t) types && all_apart gsize types
  end.

#[export] Instance sbyte_eq_dec : EqDecision sbyte.
Proof. solve_decision. Defined.

Definition names_domain (dlen : Z) (e : extension) : bool :=
  bool_decide (e.1 = known (hex [0; 0])) &&
  match parse_sni e.2 with
  | Parsed name => bool_decide (name = SDomain <$> seqZ 0 dlen)
  | _ => false
  end.

(** The message after the random field has been replaced. *)
Definition weaken (s : sbytes) : sbytes := take 11 s ++ unknown 32 ++ drop 43 s.

(** The tests for one domain length, given the extension trees prepared. *)
Definition template_ok (gsize : Z) (ts : list tree)
  (segs : list (segment * (Z -> Z -> presult (list extension)))) (dlen : Z) : bool :=
  match parse_frame (weaken (syms dlen 0 ts)), extension_trees dlen ts with
  | Parsed (sid, _, e), Some (off, us) =>
      match segments_exts segs dlen off with
      | Parsed l =>
          (len sid =? 32) && (43 <=? off) && (len e =? sizes dlen off us) && all_apart gsize (l.*1)
          && existsb (names_domain dlen) l
      | _ => false
      end
  | _, _ => false
  end.

Definition extension_segments (ts : list tree) : list segment :=
  match extension_trees 0 ts with
  | Some (_, us) => segments us []
  | None => []
  end.

(** What a server that follows the RFC reads from the message: it parses, has
    a session id of 32 bytes, no two extensions of one type, and names
    [domain]. *)
Definition client_hello_ok (domain out : bytes) : Prop :=
  exists sid suites exts,
    parse_client_hello (known out) = Parsed (sid, suites, exts) /\
    len sid = 32 /\ NoDup (exts.*1) /\
    exists data, (known (hex [0; 0]), data) ∈ exts /\ parse_sni data = Parsed (known domain).

Lemma Forall2_shuffled {A B} (R : A -> B -> Prop) l l' k :
  l ≡ₚ l' -> Forall2 R l k -> exists k', k' ≡ₚ k /\ Forall2 R l' k'.
Proof.
  intros Hp. revert k. induction Hp as [|x l l' _ IH|x y l|l l' l'' _ IH1 _ IH2]; intros k Hf.
  - exists k. by split.
  - apply Forall2_cons_inv_l in Hf as (z & k' & Hz & Hf & ->).
    destruct (IH _ Hf) as (k'' & Hk & Hf'). exists (z :: k''). split; [by rewrite Hk|by constructor].
  - apply Forall2_cons_inv_l in Hf as (z & k' & Hz & Hf & ->).
    apply Forall2_cons_inv_l in Hf as (w & k'' & Hw & Hf & ->).
    exists (w :: z :: k''). split; [constructor|by repeat constructor].
  - destruct (IH1 _ Hf) as (k1 & Hk1 & Hf1). destruct (IH2 _ Hf1) as (k2 & Hk2 & Hf2).
    exists k2. split; [by rewrite Hk2|done].
Qed.

Lemma syms_rigid d d' o o' ts : forallb rigid ts = true -> syms d o ts = syms d' o' ts.
Proof.
  assert (Hlist : forall ts,
    Forall (fun t => forall o o', rigid t = true ->
              sym d o t = sym d' o' t /\ size d o t = size d' o' t) ts ->
    forall o o', forallb rigid ts = true ->
    syms d o ts = syms d' o' ts /\ sizes d o ts = sizes d' o' ts).
  { induction 1 as [|u us Hu _ IHu]; intros a b; cbn; [done|]. intros Hr. to_prop.
    destruct (Hu a b) as [-> ->]; [done|].
    destruct (IHu (a + size d' b u) (b + size d' b u)) as [E1 E2]; [done|].
    unfold syms, sizes in *. by rewrite E1, E2. }
  intros Hr. refine (proj1 (Hlist ts _ o o' Hr)). apply Forall_true. clear ts o o' Hr.
  intros t. induction t as [op|ts IH|parts IH|ts IH] using tree_ind'; intros o o' Hr; cbn in Hr.
  - by destruct op.
  - destruct (Hlist ts IH (o + 2) (o' + 2) Hr) as [H1 H2]. unfold syms, sizes in *. cbn.
    unfold sizes. by rewrite H1, H2.
  - cbn. revert Hr. induction IH as [|part parts Hp _ IHp]; [done|]. cbn. intros Hr. to_prop.
    destruct (Hlist part Hp 0 0) as [_ Hs]; [done|].
    destruct IHp as [-> ->]; [done|]. unfold sizes in Hs |- *. by rewrite Hs.
  - by apply Hlist.
Qed.

Lemma last_scope_trees d d' o o' ts r us :
  last_scope d (o, ts) = Some (r, us) -> exists r', last_scope d' (o', ts) = Some (r', us).
Proof.
  unfold last_scope. destruct (reverse ts) as [|[| | |] rts]; try done. intros [= _ <-]. by eexists.
Qed.

Lemma extension_segments_eq d ts off us :
  extension_trees d ts = Some (off, us) -> extension_segments ts = segments us [].
Proof.
  unfold extension_segments, extension_trees.
  intros ([o1 u1] & H1 & ([o2 u2] & H2 & H3)%bind_Some)%bind_Some.
  destruct (last_scope_trees d 0 0 0 _ _ _ H1) as [r1 ->]. cbn -[last_scope].
  destruct (last_scope_trees d 0 o1 r1 _ _ _ H2) as [r2 ->]. cbn -[last_scope].
  by destruct (last_scope_trees d 0 o2 r2 _ _ _ H3) as [r3 ->].
Qed.

Section judging.
Context (ctx : TlsHelloContext) (Hg : grease_ok (grease_ ctx)).
Abbreviation dlen := (len (context_get_domain ctx)).
Abbreviation gsize := (len (grease_ ctx)).
Abbreviation pieces := (prod_relation (completes ctx) (completes ctx)).

Lemma renders_app off ts us out :
  renders ctx off (ts ++ us) out -> exists o1 o2,
    out = o1 ++ o2 /\ renders ctx off ts o1 /\ renders ctx (off + len o1) us o2.
Proof.
  revert off out. induction ts as [|t ts IH]; intros off out H.
  { exists [], out. rewrite Z.add_0_r. split; [done|]. split; [constructor|done]. }
  inversion H as [|? ? ? o1 os Ht Hts]; subst. destruct (IH _ _ Hts) as (o2 & o3 & -> & H2 & H3).
  exists (o1 ++ o2), o3. rewrite <- app_assoc. split; [done|]. split; [by constructor|].
  by rewrite len_app, Z.add_assoc.
Qed.

Lemma renders_one off t out : renders ctx off [t] out -> render ctx off t out.
Proof.
  intros H. inversion H as [|? ? ? o os Ht Hts]; subst. inversion Hts; subst.
  by rewrite app_nil_r.
Qed.

Lemma renders_last_scope off ts out off' us :
  renders ctx off ts out -> last_scope dlen (off, ts) = Some (off', us) ->
  exists pre o, out = pre ++ o /\ off' = off + len pre /\ renders ctx off' us o.
Proof.
  unfold last_scope. intros H. destruct (reverse ts) as [|[op|vs|ps|vs] rts] eqn:E; try done.
  intros [= <- <-]. apply (f_equal reverse) in E. rewrite reverse_involutive, reverse_cons in E.
  subst ts. apply renders_app in H as (o1 & o2 & -> & H1 & H2).
  apply renders_one in H2. inversion H2 as [|? ? o Hs| |]; subst.
  exists (o1 ++ be16 (len o)), o. rewrite app_assoc. split; [done|].
  rewrite <- (renders_len _ _ _ _ Hg H1). split; [|done]. rewrite len_app, len_be16. lia.
Qed.

Lemma extension_trees_render ts out off us :
  renders ctx 0 ts out -> extension_trees dlen ts = Some (off, us) ->
  exists pre o, out = pre ++ o /\ off = len pre /\ renders ctx off us o.
Proof.
  unfold extension_trees. intros H.
  intros ([o1 u1] & H1 & ([o2 u2] & H2 & H3)%bind_Some)%bind_Some.
  destruct (renders_last_scope _ _ _ _ _ H H1) as (p1 & r1 & -> & O1 & R1).
  destruct (renders_last_scope _ _ _ _ _ R1 H2) as (p2 & r2 & -> & O2 & R2).
  destruct (renders_last_scope _ _ _ _ _ R2 H3) as (p3 & r3 & -> & O3 & R3).
  exists (p1 ++ p2 ++ p3), r3. rewrite <- !app_assoc, !len_app. split; [done|]. split; [lia|done].
Qed.

Lemma parse_exts_render off ts out l :
  renders ctx off ts out -> parse_exts (syms dlen off ts) = Parsed l ->
  exists l', parse_exts (known out) = Parsed l' /\ Forall2 pieces l l'.
Proof.
  intros H Hl. pose proof (renders_sym _ _ _ _ _ Hg eq_refl H) as Hm.
  apply completes_matches in Hm. pose proof (parse_exts_sound _ _ _ Hm) as Ha.
  rewrite Hl in Ha. exact Ha.
Qed.

Lemma trees_exts_render off ts out l :
  renders ctx off ts out -> trees_exts ts dlen off = Parsed l ->
  exists l', parse_exts (known out) = Parsed l' /\ Forall2 pieces l l'.
Proof.
  intros H Hl. apply (parse_exts_render off ts); [done|]. rewrite <- Hl. unfold trees_exts.
  destruct (forallb rigid ts) eqn:E; [|done]. by rewrite (syms_rigid dlen 0 off 0).
Qed.

Lemma parse_parts_render parts outs ls :
  renders_parts ctx parts outs ->
  all_parsed (map (fun p => p dlen 0) (map trees_exts parts)) = Parsed ls ->
  exists ls', Forall2 (fun o l => parse_exts (known o) = Parsed l) outs ls' /\
              Forall2 (Forall2 pieces) ls ls'.
Proof.
  intros H. revert ls. induction H as [|part parts out outs Hr _ IH]; intros ls; cbn.
  { intros [= <-]. exists []. by split. }
  intros E. inv_parsed. destruct (IH _ ltac:(eassumption)) as (ls' & H1 & H2).
  destruct (trees_exts_render _ _ _ _ Hr ltac:(eassumption)) as (l' & H3 & H4).
  exists (l' :: ls'). by split; constructor.
Qed.

Lemma parsed_shuffled outs outs' ls :
  outs' ≡ₚ outs -> Forall2 (fun o l => parse_exts (known o) = Parsed l) outs ls ->
  exists ls', ls' ≡ₚ ls /\ parse_exts (known (concat outs')) = Parsed (concat ls').
Proof.
  intros Hp Hf. destruct (Forall2_shuffled _ _ _ _ ltac:(symmetry; exact Hp) Hf) as (ls' & Hl & Hf').
  exists ls'. split; [done|]. unfold known. change (list_fmap _ _ SKnown) with (map SKnown).
  rewrite concat_map. apply parse_exts_concat.
  by apply Forall2_fmap_l.
Qed.

Lemma known_app a b : known (a ++ b) = known a ++ known b.
Proof. apply fmap_app. Qed.

Lemma Forall2_concat {A B} (R : A -> B -> Prop) ls ks :
  Forall2 (Forall2 R) ls ks -> Forall2 R (concat ls) (concat ks).
Proof. induction 1; cbn; [constructor | by apply Forall2_app]. Qed.

Lemma concat_shuffled {A} (ls ks : list (list A)) : ls ≡ₚ ks -> concat ls ≡ₚ concat ks.
Proof.
  induction 1; cbn; [done|by apply Permutation_app| |by etrans].
  rewrite !app_assoc. apply Permutation_app; [apply Permutation_app_comm|done].
Qed.

Definition segment_trees (s : segment) : list tree :=
  match s with SegTrees ts => ts | SegPerm parts => [TPerm parts] end.

Lemma segments_trees ts cur : flat_map segment_trees (segments ts cur) = reverse cur ++ ts.
Proof.
  revert cur. induction ts as [|t ts IH]; intros cur; [done|].
  assert (Hd : forall cur, flat_map segment_trees
    (if rigid t then segments ts (t :: cur) else SegTrees (reverse (t :: cur)) :: segments ts [])
    = reverse cur ++ t :: ts).
  { intros c. destruct (rigid t); cbn [flat_map segment_trees]; rewrite IH, reverse_cons, <- app_assoc; done. }
  destruct t; try apply Hd. cbn. by rewrite IH.
Qed.

Lemma segment_render off s out l :
  renders ctx off (segment_trees s) out -> segment_exts s dlen off = Parsed l ->
  exists l' l'', parse_exts (known out) = Parsed l' /\ l' ≡ₚ l'' /\ Forall2 pieces l l''.
Proof.
  destruct s as [ts|parts]; cbn [segment_trees segment_exts]; intros H E.
  { destruct (trees_exts_render _ _ _ _ H E) as (l' & ? & ?). by exists l', l'. }
  cbn zeta in E. inv_parsed. apply renders_one in H.
  inversion H as [| |? ? outs outs' Hparts Hperm|]; subst.
  destruct (parse_parts_render _ _ _ Hparts ltac:(eassumption)) as (ls & Hls1 & Hls2).
  destruct (parsed_shuffled _ _ _ Hperm Hls1) as (ls' & Hsh & Hpp).
  exists (concat ls'), (concat ls). split; [done|]. split; [by apply concat_shuffled|].
  by apply Forall2_concat.
Qed.

Lemma segments_render segs : forall off out l,
  renders ctx off (flat_map segment_trees segs) out ->
  segments_exts (prepare segs) dlen off = Parsed l ->
  exists l' l'', parse_exts (known out) = Parsed l' /\ l' ≡ₚ l'' /\ Forall2 pieces l l''.
Proof.
  induction segs as [|s segs IH]; intros off out l H E; cbn in H, E.
  { inversion H; subst. injection E as <-. by exists [], []. }
  inv_parsed. apply renders_app in H as (o1 & o2 & -> & Hr1 & Hr2).
  assert (Hl : len o1 = segment_size dlen off s).
  { destruct s; [by apply renders_len|]. apply renders_one in Hr1. by apply render_len. }
  rewrite Hl in Hr2.
  destruct (segment_render _ _ _ _ Hr1 ltac:(eassumption)) as (a & a' & Ha & Hpa & Hfa).
  destruct (IH _ _ _ Hr2 ltac:(eassumption)) as (b & b' & Hb & Hpb & Hfb).
  exists (a ++ b), (a' ++ b'). rewrite known_app. split; [by apply parse_exts_app|].
  split; [by apply Permutation_app | by apply Forall2_app].
Qed.

Lemma apart_sound x y a b :
  apart gsize x y = true -> sbyte_match ctx x a -> sbyte_match ctx y b -> a <> b.
Proof.
  destruct x as [u|i| |], y as [v|j| |]; cbn; try done; intros H Ha Hb; to_prop; subst.
  - done.
  - destruct Hb as [_ Hb]. by intros <-.
  - destruct Ha as [_ Ha]. by intros <-.
  - destruct Ha as [-> _], Hb as [-> _], Hg as [_ Hd].
    assert (exists k, (j = 2 * k + 1 /\ i = 2 * k) \/ (i = 2 * k + 1 /\ j = 2 * k))
      as (k & [[-> ->]|[-> ->]]) by (exists (i / 2); div_mod_lia).
    + apply Hd; lia.
    + apply not_eq_sym, Hd; lia.
Qed.

Lemma types_apart_sound s t s' t' :
  types_apart gsize s t = true -> completes ctx s s' -> completes ctx t t' -> s' <> t'.
Proof.
  destruct s as [|a [|b [|]]], t as [|c [|d [|]]]; try done. cbn. intros H Hs Ht.
  apply Forall2_cons_inv_l in Hs as (? & ? & (a' & -> & Ha) & Hs & ->).
  apply Forall2_cons_inv_l in Hs as (? & ? & (b' & -> & Hb) & Hs & ->).
  apply Forall2_cons_inv_l in Ht as (? & ? & (c' & -> & Hc) & Ht & ->).
  apply Forall2_cons_inv_l in Ht as (? & ? & (d' & -> & Hd) & Ht & ->).
  intros [= <- <-]. apply orb_prop in H as [H|H]; by eapply apart_sound in H.
Qed.

Lemma all_apart_sound ts ts' :
  all_apart gsize ts = true -> Forall2 (completes ctx) ts ts' -> NoDup ts'.
Proof.
  intros H Hf. revert H. induction Hf as [|t t' ts ts' Ht Hf IH]; [constructor|]. cbn.
  intros H. to_prop. constructor; [|by apply IH].
  intros Hin. apply list_elem_of_lookup in Hin as [i Hi].
  destruct (Forall2_lookup_r _ _ _ _ _ Hf Hi) as (u & Hu & Hc).
  match goal with H : forallb _ _ = true |- _ => rename H into Hall end.
  rewrite forallb_forall in Hall. specialize (Hall u).
  eapply types_apart_sound; [|exact Ht|exact Hc|done].
  apply Hall, list_elem_of_In. by eapply list_elem_of_lookup_2.
Qed.

Lemma completes_domain t :
  completes ctx (SDomain <$> seqZ 0 dlen) t -> t = known (context_get_domain ctx).
Proof.
  intros H. pose proof (matches_domain ctx) as Hm. apply completes_matches in Hm.
  revert t H Hm. generalize (known (context_get_domain ctx)). unfold completes.
  induction (seqZ 0 dlen) as [|i l IH]; intros k t; cbn.
  { by intros ->%Forall2_nil_inv_l ->%Forall2_nil_inv_l. }
  intros (x & t' & (b & -> & Hb) & Ht & ->)%Forall2_cons_inv_l.
  intros (y & k' & (b' & -> & Hb') & Hk & ->)%Forall2_cons_inv_l. cbn in *. subst. f_equal.
  by apply IH.
Qed.

Lemma matches_weaken s out h :
  43 <= len s -> len h = 32 -> matches ctx s out -> matches ctx (weaken s) (write_at 11 h out).
Proof.
  intros Hs Hh Hm. unfold weaken, write_at.
  change (Z.to_nat 11) with 11%nat. replace (11 + length h)%nat with 43%nat by (unfold len in Hh; lia).
  apply matches_app; [by apply Forall2_take|].
  apply matches_app; [by apply matches_unknown | by apply Forall2_drop].
Qed.

Lemma write_at_prefix off h (pre o : bytes) :
  0 <= off -> off + len h <= len pre -> write_at off h (pre ++ o) = write_at off h pre ++ o.
Proof.
  intros Ho Hl. unfold write_at, len in *. rewrite take_app_le, drop_app_le by lia.
  by rewrite <- !app_assoc.
Qed.

(** A template that passes the test is a well-formed ClientHello for the
    context's domain in every run. *)
Theorem template_ok_sound ts out h :
  template_ok gsize ts (prepare (extension_segments ts)) dlen = true -> renders ctx 0 ts out -> len h = 32 ->
  client_hello_ok (context_get_domain ctx) (write_at 11 h out).
Proof.
  unfold template_ok. intros H Hr Hh.
  destruct (parse_frame (weaken (syms dlen 0 ts))) as [[[sid su] e]| |] eqn:Ef; try done.
  destruct (extension_trees dlen ts) as [[off us]|] eqn:Et; try done.
  destruct (segments_exts _ dlen off) as [l| |] eqn:El; try done. to_prop.
  destruct (extension_trees_render _ _ _ _ Hr Et) as (pre & o & -> & Hoff & Ho).
  pose proof (renders_sym _ _ _ _ _ Hg eq_refl Hr) as Hm. apply (matches_weaken _ _ h) in Hm; 
    [|rewrite <- (matches_len _ _ _ Hm), len_app; pose proof (len_nonneg o); lia|done].
  rewrite write_at_prefix in Hm by lia. apply completes_matches in Hm.
  pose proof (parse_frame_sound _ _ _ Hm) as Ha. rewrite Ef in Ha. cbn in Ha.
  destruct Ha as ([[sid' su'] e'] & Ef' & ((Hsid & Hsu) & He)). cbn in Hsid, Hsu, He.
  destruct (parse_frame_suffix _ _ _ _ Ef') as [k Hk].
  assert (e' = known o) as ->.
  { rewrite known_app in Hk. apply app_inj_2 in Hk as [_ <-]; [done|].
    apply completes_len in He. pose proof (renders_len _ _ _ _ Hg Ho) as Hlo.
    pose proof (len_known o). unfold len in *. lia. }
  rewrite <- (app_nil_l us), <- (reverse_nil (A := tree)), <- segments_trees in Ho.
  rewrite (extension_segments_eq _ _ _ _ Et) in El.
  destruct (segments_render _ _ _ _ Ho El) as (l' & l'' & Hl & Hperm & Hf).
  rewrite write_at_prefix by lia. exists sid', su', l'. unfold parse_client_hello. rewrite Ef'. cbn. rewrite Hl. split; [done|].
  split; [by rewrite (completes_len _ _ _ Hsid)|].
  split.
  { rewrite Hperm. eapply all_apart_sound; [eassumption|]. apply Forall2_fmap.
    eapply Forall2_impl; [exact Hf|]. by intros ? ? [? _]. }
  match goal with H : existsb _ _ = true |- _ => apply existsb_exists in H as (x & Hx & Hn) end.
  apply list_elem_of_In, list_elem_of_lookup in Hx as [i Hi].
  destruct (Forall2_lookup_l _ _ _ _ _ Hf Hi) as ([t d] & Hd & Hc1 & Hc2). cbn in Hc1, Hc2.
  unfold names_domain in Hn. to_prop.
  destruct (parse_sni x.2) as [name| |] eqn:Es; try done. to_prop. subst name.
  exists d. split.
  - rewrite Hperm. apply list_elem_of_lookup. exists i. rewrite Hd. do 2 f_equal.
    match goal with H : x.1 = _ |- _ => rewrite H in Hc1 end. by apply completes_known in Hc1.
  - pose proof (parse_sni_sound _ _ _ Hc2) as Ha. rewrite Es in Ha.
    destruct Ha as (name' & -> & Hname). by rewrite (completes_domain _ Hname).
Qed.
End judging.
