(* ===== verification/TlsInit.v ===== *)
(** The first message of the masking handshake: [TlsObfusaction::generate_header]
    of [td/td/mtproto/TlsInit.cpp].

    It never fails a [CHECK]; the message is a ClientHello for the profiles of
    which the template is consistent and malformed for the others, in every
    run; and a server that has the secret recovers the client's clock from it.  The
    class [TlsInit] that sends it is in TlsResponse.v. *)
From S2P Require Import Prelude Bytes Random BigNum ProxySecret DpiBypass TlsHello TlsHelloCorrect TlsHelloSpec.
#[local] Open Scope Z_scope.

(** [Result::move_as_ok] on an error is a fatal error. *)
Definition move_as_ok {A} (m : outcome A) : outcome A :=
  match m with Err _ => Crash | _ => m end.

Section header.
Context {B : DpiBuild} {G : Type} `{RandomSource G} `{BigNumOps} `{Hmac}.
Context (key_fuel : nat).

(** The part of [generate_header] after the profile is chosen. *)
Definition build_hello (hello : TlsHello) (domain secret : bytes) (unix_time : Z) (g : G)
  : outcome (bytes * G) :=
  let '(context, g) := new_context (grease_size_ hello) domain g in
  calc ← calc_ops (Some context) (ops_ hello) calc_init;
  length ← move_as_ok (calc_finish calc);
  r ← store_ops key_fuel (Some context) (ops_ hello) (store_init (zeros length)) g;
  data ← store_finish secret unix_time r.1;
  Ok (data, r.2).

(** [now] is [Time::now()] when the profile timer is checked. *)
Definition generate_header (domain secret : bytes) (unix_time now : Z)
  (rot : rotation_states) (st : hello_statics) (g : G)
  : outcome (bytes * rotation_states * hello_statics * G) :=
  _ ← check (negb (len domain =? 0));
  _ ← check (len secret =? 16);
  let rot := maybe_rotate_profile_on_timer domain now rot in
  let '(hello, g) := get_for_request domain rot st g in
  hello ← hello;
  r ← build_hello hello.1 domain secret unix_time g;
  Ok (r.1, rot, hello.2, r.2).
End header.

(** * Facts about the templates *)

(** A template passes the tests for every domain length. *)
Definition writable (ts : list tree) : bool :=
  forallb (fun dlen =>
    trees_ok dlen 7 0 ts &&
    (43 <=? sizes dlen 0 ts) && (sizes dlen 0 ts <? 2 ^ 16)
    && bool_decide (take 32 (drop 11 (syms dlen 0 ts)) = known (zeros 32)))
    (seqZ 0 (MAX_DOMAIN_LENGTH + 1)).

Definition well_formed (ts : list tree) : bool :=
  let segs := prepare (extension_segments ts) in
  forallb (template_ok 7 ts segs) (seqZ 1 MAX_DOMAIN_LENGTH).

(** [ops] can be stored, and the message is a ClientHello when [good]. *)
Record template (ops : list Op) (good : bool) : Prop := {
  template_flat : flat_map flatten (trees_of ops) = ops;
  template_writable : writable (trees_of ops) = true;
  template_good : good = true -> well_formed (trees_of ops) = true;
}.

Lemma stable_proxy_template : template build_stable_proxy_ops false.
Proof. by split; [vm_compute; reflexivity..|]. Qed.

Lemma firefox_template : template build_firefox_ops false.
Proof. by split; [vm_compute; reflexivity..|]. Qed.

Lemma chrome_template : template build_chrome_ops true.
Proof. split; [| |intros _]; vm_compute; reflexivity. Qed.

Lemma vk_template : template build_vk_ops true.
Proof. split; [| |intros _]; vm_compute; reflexivity. Qed.

Lemma gosuslugi_template : template build_gosuslugi_ops true.
Proof. split; [| |intros _]; vm_compute; reflexivity. Qed.

Lemma yandex_template : template build_yandex_ops true.
Proof. split; [| |intros _]; vm_compute; reflexivity. Qed.

Lemma safari_template `{RandomLaws G} (g : G) :
  exists ops, (build_safari_ops g).1 = Ok ops /\ template ops true.
Proof.
  unfold build_safari_ops, random_value.
  pose proof (fast_range 0 1 g ltac:(lia) ltac:(lia)) as Hi.
  change (len [_; _] - 1) with 1.
  destruct (fast 0 1 g) as [i g1]. cbn [fst] in Hi.
  pose proof (fast_range 0 1 g1 ltac:(lia) ltac:(lia)) as Hj.
  change (len [_; _] - 1) with 1.
  destruct (fast 0 1 g1) as [j g2]. cbn [fst] in Hj.
  assert (Ei : i = 0 \/ i = 1) by lia. assert (Ej : j = 0 \/ j = 1) by lia.
  destruct Ei as [-> | ->], Ej as [-> | ->];
    (eexists; split; [reflexivity|]; split; [| |intros _]; vm_compute; reflexivity).
Qed.

Lemma stable_proxy_malformed :
  forallb (fun dlen => bool_decide
    (match parse_client_hello (weaken (syms dlen 0 (trees_of build_stable_proxy_ops))) with
     | Malformed => true | _ => false end = true)) (seqZ 1 MAX_DOMAIN_LENGTH) = true.
Proof. vm_compute. reflexivity. Qed.

Lemma firefox_malformed :
  forallb (fun dlen => bool_decide
    (match parse_client_hello (weaken (syms dlen 0 (trees_of build_firefox_ops))) with
     | Malformed => true | _ => false end = true)) (seqZ 1 MAX_DOMAIN_LENGTH) = true.
Proof. vm_compute. reflexivity. Qed.

Lemma forallb_seqZ (f : Z -> bool) m n i :
  forallb f (seqZ m n) = true -> m <= i < m + n -> f i = true.
Proof. rewrite forallb_forall. intros H Hi. by apply H, list_elem_of_In, elem_of_seqZ. Qed.

Lemma well_formed_at ts d :
  well_formed ts = true -> 1 <= d <= MAX_DOMAIN_LENGTH ->
  template_ok 7 ts (prepare (extension_segments ts)) d = true.
Proof.
  intros H Hd.
  apply (forallb_seqZ (template_ok 7 ts (prepare (extension_segments ts))) 1 MAX_DOMAIN_LENGTH d H).
  lia.
Qed.

(** * GREASE values *)

Lemma grease_byte_nibble c : b2z (grease_byte c) mod 16 = 10.
Proof.
  apply Z.eqb_eq, (byte_forall (fun c => b2z (grease_byte c) mod 16 =? 10)). vm_compute. reflexivity.
Qed.

Lemma flip_nibble c :
  b2z c mod 16 = 10 ->
  b2z (z2b (Z.lxor (b2z c) 0x10)) mod 16 = 10 /\ z2b (Z.lxor (b2z c) 0x10) <> c.
Proof.
  pose proof (byte_forall (fun c => negb (b2z c mod 16 =? 10) ||
    (b2z (z2b (Z.lxor (b2z c) 0x10)) mod 16 =? 10) && negb (b2z (z2b (Z.lxor (b2z c) 0x10)) =? b2z c))
    ltac:(vm_compute; reflexivity) c) as H.
  cbn beta in H. intros E. rewrite E in H. cbn -[Z.lxor b2z z2b] in H. to_prop.
  split; [done|]. congruence.
Qed.

Lemma length_grease_fix n : forall res, (length res <= n)%nat -> length (grease_fix res) = length res.
Proof.
  induction n as [|n IH]; intros [|a [|b res]]; cbn; try lia. intros H. rewrite IH; lia.
Qed.

Lemma grease_fix_ok n : forall res, (length res <= n)%nat ->
  Forall (fun c => b2z c mod 16 = 10) res -> grease_ok (grease_fix res).
Proof.
  induction n as [|n IH]; intros [|a [|b res]] Hl Hf; cbn in Hl |- *; try lia.
  - split; [done|]. intros i. unfold len. cbn [length]. lia.
  - split; [done|]. intros i. unfold len. cbn [length]. lia.
  - split; [done|]. intros i. unfold len. cbn [length]. lia.
  - inversion Hf as [|? ? Ha Hf']; subst. inversion Hf' as [|? ? Hb Hf'']; subst.
    destruct (IH res ltac:(lia) Hf'') as [H1 H2].
    set (b' := if bool_decide (b = a) then z2b (Z.lxor (b2z b) 0x10) else b).
    assert (Hb' : b2z b' mod 16 = 10 /\ b' <> a).
    { unfold b'. case_bool_decide as E; [|done]. subst b. by apply flip_nibble. }
    split; [by rewrite !Forall_cons; destruct Hb'|].
    intros i Hi Hlen. rewrite !len_cons in Hlen.
    destruct (Z.eq_dec i 0) as [->|Hne]; [cbn; apply not_eq_sym, Hb'|].
    unfold nth_byte in *. specialize (H2 (i - 1)).
    replace (Z.to_nat (2 * i)) with (S (S (Z.to_nat (2 * (i - 1))))) by lia.
    replace (Z.to_nat (2 * i + 1)) with (S (S (Z.to_nat (2 * (i - 1) + 1)))) by lia.
    cbn [nth]. apply H2; lia.
Qed.

(** [Grease::init], for every outcome of the random draw. *)
Lemma grease_init_ok `{RandomLaws G} size (g : G) :
  0 <= size -> grease_ok (grease_init size g).1 /\ len (grease_init size g).1 = size.
Proof.
  intros Hs. unfold grease_init. pose proof (len_secure_bytes size g Hs) as Hl.
  destruct (secure_bytes size g) as [res g']. cbn in Hl |- *. split.
  - apply (grease_fix_ok (length (grease_byte <$> res))); [done|].
    apply Forall_fmap, Forall_true. intros c. apply grease_byte_nibble.
  - unfold len. rewrite (length_grease_fix (length (grease_byte <$> res))) by done.
    rewrite length_fmap. exact Hl.
Qed.

(** * Building a message *)

(** What a server with the secret makes of a message: it checks the digest in
    the random field and reads the client's clock. *)
Definition verify_hello `{Hmac} (secret hello : bytes) : option Z :=
  let rand := substr 11 32 hello in
  let digest := hmac_sha256 secret (write_at 11 (zeros 32) hello) in
  if (43 <=? len hello) && bool_decide (truncate 28 rand = truncate 28 digest)
  then Some (Z.lxor (le_load (substr_from 28 rand)) (le_load (substr_from 28 digest)))
  else None.

Section building.
Context {B : DpiBuild} {G : Type} `{RandomLaws G} `{BigNumLaws} `{HmacLaws}.
Context (key_fuel : nat) (Hkey : forall g : G, key_within key_fuel g = true).

Lemma write_at_twice off (a b data : bytes) :
  0 <= off -> off + len a <= len data -> len b = len a ->
  write_at off b (write_at off a data) = write_at off b data.
Proof.
  intros Ho Ha Hb. unfold write_at, len in *.
  rewrite take_app_le by (rewrite length_take; lia).
  rewrite take_take, Nat.min_id. f_equal. f_equal.
  rewrite drop_app_ge by (rewrite length_take; lia).
  rewrite drop_app_ge by (rewrite length_take; lia).
  rewrite drop_drop. f_equal. rewrite length_take. lia.
Qed.

Lemma substr_write_at off (a data : bytes) :
  0 <= off -> off + len a <= len data -> substr off (len a) (write_at off a data) = a.
Proof.
  intros Ho Ha. unfold write_at.
  apply (substr_app_mid' off (len a) (take (Z.to_nat off) data) a); [|done].
  rewrite len_take by done. pose proof (len_nonneg a). lia.
Qed.

(** The fields of the result of [finish] on a full buffer with a zero random
    field. *)
Lemma store_finish_verified secret unix_time plain :
  43 <= len plain -> substr 11 32 plain = zeros 32 ->
  exists h, store_finish secret unix_time (cursor plain [] []) = Ok (write_at 11 h plain) /\
    len h = 32 /\ verify_hello secret (write_at 11 h plain) = Some (uint32 unix_time).
Proof.
  intros Hl Hz. unfold store_finish, cursor, dest_size.
  cbn -[substr_from write_at Z.lxor uint32 len le_store le_load]. rewrite app_nil_r.
  set (d := hmac_sha256 secret plain).
  assert (Hd : len d = 32) by apply len_hmac_sha256.
  set (old := le_load (substr_from 28 d)).
  set (h := write_at 28 (le_store 4 (Z.lxor old (uint32 unix_time))) d).
  assert (Hh : len h = 32) by (unfold h; rewrite len_write_at; rewrite ?len_le_store; lia).
  exists h. rewrite (proj2 (Z.eqb_eq _ _)) by lia. cbn -[write_at]. split; [done|]. split; [done|].
  assert (Hplain : write_at 11 (zeros 32) (write_at 11 h plain) = plain).
  { rewrite write_at_twice by (rewrite ?len_zeros; lia). rewrite <- Hz. unfold write_at, substr.
    change (Z.to_nat 11) with 11%nat. change (Z.to_nat 32) with 32%nat.
    rewrite length_take_le by (rewrite length_drop; unfold len in Hl; lia).
    rewrite <- drop_drop, !take_drop. done. }
  assert (Hrand : substr 11 32 (write_at 11 h plain) = h).
  { rewrite <- Hh at 1. apply substr_write_at; lia. }
  unfold verify_hello. rewrite Hplain, Hrand. fold d.
  rewrite (proj2 (Z.leb_le _ _)) by (rewrite len_write_at; lia).
  assert (Ht : truncate 28 h = truncate 28 d).
  { unfold h, write_at, truncate. rewrite take_app_le; [|rewrite length_take; unfold len in Hd; lia].
    by rewrite take_take. }
  assert (Hs : substr_from 28 h = le_store 4 (Z.lxor old (uint32 unix_time))).
  { unfold h, write_at, substr_from. change (Z.to_nat 28) with 28%nat.
    rewrite drop_app_ge by (rewrite length_take; lia).
    rewrite length_take_le by (unfold len in Hd; lia). cbn [Nat.sub drop].
    rewrite length_le_store. cbn [Nat.add]. rewrite (drop_ge d) by (unfold len in Hd; lia).
    apply app_nil_r. }
  rewrite Ht, bool_decide_eq_true_2 by done. cbn [andb]. rewrite Hs. fold old. f_equal.
  rewrite le_load_store. change (256 ^ Z.of_nat 4) with (2 ^ 32).
  assert (Ho : 0 <= old < 2 ^ 32).
  { pose proof (le_load_range (substr_from 28 d)) as Hr. fold old in Hr.
    replace (len (substr_from 28 d)) with 4 in Hr; [exact Hr|].
    unfold substr_from. rewrite len_drop; lia. }
  assert (Hu : 0 <= uint32 unix_time < 2 ^ 32) by (apply Z.mod_pos_bound; lia).
  rewrite Z.mod_small by (apply lxor_range; lia).
  by rewrite Z.lxor_comm, <- Z.lxor_assoc, Z.lxor_nilpotent, Z.lxor_0_l.
Qed.

(** What a run of a template leaves behind. *)
Record built (ops : list Op) (domain secret : bytes) (unix_time : Z) (out : bytes) : Prop := {
  built_verified : verify_hello secret out = Some (uint32 unix_time);
  built_message : exists ctx plain h,
    domain_ ctx = domain /\ len (grease_ ctx) = 7 /\ grease_ok (grease_ ctx) /\
    renders ctx 0 (trees_of ops) plain /\ 43 <= len plain < 2 ^ 16 /\ len h = 32 /\
    out = write_at 11 h plain
}.

Lemma domain_length domain :
  domain <> [] -> 1 <= len (substr 0 MAX_DOMAIN_LENGTH domain) <= MAX_DOMAIN_LENGTH.
Proof.
  intros Hd. rewrite substr_0. unfold truncate, MAX_DOMAIN_LENGTH. rewrite len_take by lia.
  destruct domain; [done|]. rewrite len_cons. pose proof (len_nonneg domain). lia.
Qed.

(** A writable template on a context: the calculated length is reached, and
    the random field is zero before [finish]. *)
Lemma template_stored (ts : list tree) (ctx : TlsHelloContext) (g : G) :
  writable ts = true -> grease_ok (grease_ ctx) -> len (grease_ ctx) = 7 ->
  len (context_get_domain ctx) <= MAX_DOMAIN_LENGTH ->
  exists n plain g',
    (calc_ops (Some ctx) (flat_map flatten ts) calc_init ≫= calc_finish) = Ok n /\
    calc_ops (Some ctx) (flat_map flatten ts) calc_init = Ok (calc_add n calc_init) /\
    store_ops key_fuel (Some ctx) (flat_map flatten ts) (store_init (zeros n)) g =
      Ok (cursor plain [] [], g') /\
    renders ctx 0 ts plain /\ 43 <= len plain < 2 ^ 16 /\ substr 11 32 plain = zeros 32.
Proof.
  intros Hw Hg Hgl Hd. pose proof (len_nonneg (context_get_domain ctx)) as Hd0.
  apply (forallb_seqZ _ _ _ (len (context_get_domain ctx))) in Hw; [|lia].
  cbn beta in Hw. to_prop.
  rename H5 into Hok, H7 into Hn, H8 into Hn2, H6 into Hzero.
  rewrite <- Hgl in Hok. exists (sizes (len (context_get_domain ctx)) 0 ts).
  remember (sizes (len (context_get_domain ctx)) 0 ts) as n eqn:En.
  assert (Hc : calc_ops (Some ctx) (flat_map flatten ts) calc_init = Ok (calc_add n calc_init)).
  { rewrite calc_correct_list by (done || apply calc_correct_all). by rewrite En. }
  destruct (store_correct_list key_fuel ctx Hg ts) with (pre := @nil byte) (mid := zeros n)
    (post := @nil byte) (sc := @nil Z) (g := g) as (plain & g' & Hs & Hr).
  { apply Forall_true. intros t. by apply (store_correct_tree key_fuel Hkey ctx Hg t). }
  { exact Hok. }
  { rewrite len_zeros by lia. exact En. }
  rewrite app_nil_r in Hs. cbn [app] in Hs. rewrite len_nil in Hr.
  pose proof (renders_len ctx _ _ _ Hg Hr) as Hl. rewrite <- En in Hl.
  exists plain, g'. split.
  { rewrite Hc, Ok_bind. unfold calc_finish. cbn [status_ calc_add calc_init calc_scopes size_].
    by rewrite Z.add_0_l, (proj2 (Z.ltb_ge _ _)) by lia. }
  split; [exact Hc|]. split; [exact Hs|]. split; [exact Hr|]. split; [lia|].
  apply (matches_known_inv ctx). rewrite <- Hzero. apply Forall2_take, Forall2_drop.
  by apply renders_sym.
Qed.

Lemma build_hello_built hello good domain secret unix_time g :
  template (ops_ hello) good -> grease_size_ hello = 7 -> domain <> [] ->
  exists out g', build_hello key_fuel hello domain secret unix_time g = Ok (out, g') /\
    built (ops_ hello) domain secret unix_time out.
Proof.
  intros [Hflat Hw _] Hsize Hdom. unfold build_hello, new_context. rewrite Hsize.
  destruct (grease_init_ok 7 g ltac:(lia)) as [Hg Hgl].
  destruct (grease_init 7 g) as [grease g1]. cbn [fst] in Hg, Hgl.
  destruct (template_stored (trees_of (ops_ hello)) (mk_context grease domain) g1 Hw Hg Hgl)
    as (n & plain & g' & Hf & Hc & Hs & Hr & Hl & Hz).
  { apply (domain_length domain Hdom). }
  rewrite Hflat in Hf, Hc, Hs. rewrite Hc in Hf. rewrite Ok_bind in Hf. rewrite Hc, Ok_bind, Hf.
  cbn [move_as_ok]. rewrite Ok_bind, Hs, Ok_bind. cbn [fst snd].
  destruct (store_finish_verified secret unix_time plain (proj1 Hl) Hz) as (h & Hfin & Hh & Hv).
  rewrite Hfin, Ok_bind. exists (write_at 11 h plain), g'. split; [reflexivity|].
  split; [exact Hv|]. exists (mk_context grease domain), plain, h.
  split; [reflexivity|]. split; [exact Hgl|]. split; [exact Hg|]. split; [exact Hr|].
  split; [exact Hl|]. by split.
Qed.

(** The function-local statics hold a template, once they are built. *)
Definition statics_ok (st : hello_statics) : Prop :=
  match st with None => True | Some ops => template ops true end.

(** The profile that [get_for_request] settles on; [None] is the template of
    the stable proxy mode. *)
Definition chosen_profile (domain : bytes) (rot : rotation_states) : option TlsProfile :=
  if kDpiBypassStableProxyMode then
    if decide (detect_service_family domain = FamilyGeneric) then None
    else Some (pick_profile_for_domain domain rot)
  else Some (get_effective_profile domain rot).

(** Two templates do not make a ClientHello. *)
Definition profile_good (p : option TlsProfile) : bool :=
  match p with None | Some Firefox => false | _ => true end.

Definition profile_ops (p : option TlsProfile) (safari : list Op) : list Op :=
  match p with
  | None => build_stable_proxy_ops
  | Some p => ops_ (profile_hello p safari)
  end.

Lemma profile_template profile safari :
  template safari true ->
  template (profile_ops (Some profile) safari) (profile_good (Some profile)) /\
  grease_size_ (profile_hello profile safari) = 7.
Proof.
  intros Hs. split; [|by destruct profile].
  destruct profile; cbn [profile_ops profile_hello ops_ profile_good].
  - exact chrome_template.
  - exact firefox_template.
  - exact yandex_template.
  - exact Hs.
  - exact vk_template.
  - exact gosuslugi_template.
Qed.

(** What is known about a chosen template. *)
Definition hello_chosen (p : option TlsProfile) (hello : TlsHello) : Prop :=
  template (ops_ hello) (profile_good p) /\ grease_size_ hello = 7 /\
  exists safari, ops_ hello = profile_ops p safari.

Lemma get_for_profile_template profile st (g : G) :
  statics_ok st -> exists hello st',
    (get_for_profile profile st g).1 = Ok (hello, st') /\ statics_ok st' /\
    hello_chosen (Some profile) hello.
Proof.
  intros Hst. unfold get_for_profile.
  assert (Hs : exists safari, (init_statics st g).1 = Ok safari /\ template safari true).
  { destruct st as [safari|]; [by exists safari|]. apply safari_template. }
  destruct Hs as (safari & Hs & Ht). destruct (init_statics st g) as [r g']. cbn [fst] in *.
  subst r. destruct (profile_template profile safari Ht) as [Hp1 Hp2].
  rewrite Ok_bind. exists (profile_hello profile safari), (Some safari).
  split; [reflexivity|]. split; [exact Ht|]. split; [exact Hp1|]. split; [exact Hp2|].
  by exists safari.
Qed.

Lemma get_for_request_template domain rot st (g : G) :
  statics_ok st -> exists hello st',
    (get_for_request domain rot st g).1 = Ok (hello, st') /\ statics_ok st' /\
    hello_chosen (chosen_profile domain rot) hello.
Proof.
  intros Hst. unfold get_for_request, chosen_profile. destruct kDpiBypassStableProxyMode;
    [|by apply get_for_profile_template].
  destruct (decide _); [|by apply get_for_profile_template].
  exists (mk_TlsHello build_stable_proxy_ops 7), st. split; [reflexivity|].
  split; [exact Hst|]. split; [exact stable_proxy_template|]. split; [reflexivity|].
  by exists [].
Qed.

Lemma built_well_formed ops domain secret unix_time out :
  domain <> [] -> template ops true -> built ops domain secret unix_time out ->
  client_hello_ok (substr 0 MAX_DOMAIN_LENGTH domain) out.
Proof.
  intros Hdom [_ _ Hwf] [_ (ctx & plain & h & Hd & Hgl & Hg & Hr & _ & Hh & ->)].
  pose proof (domain_length domain Hdom) as Hlen. subst domain.
  apply (template_ok_sound ctx Hg (trees_of ops)); [|exact Hr|exact Hh].
  rewrite Hgl. apply well_formed_at; [by apply Hwf|exact Hlen].
Qed.

(** For the two defective templates the message has no reading. *)
Lemma built_malformed ops domain secret unix_time out :
  forallb (fun dlen => bool_decide
    (match parse_client_hello (weaken (syms dlen 0 (trees_of ops))) with
     | Malformed => true | _ => false end = true)) (seqZ 1 MAX_DOMAIN_LENGTH) = true ->
  domain <> [] -> built ops domain secret unix_time out ->
  parse_client_hello (known out) = Malformed.
Proof.
  intros Hbad Hdom [_ (ctx & plain & h & Hd & Hgl & Hg & Hr & Hl & Hh & Hout)].
  pose proof (domain_length domain Hdom) as Hlen. subst domain.
  apply (forallb_seqZ _ _ _ (len (context_get_domain ctx))) in Hbad;
    [|unfold context_get_domain; lia].
  cbn beta in Hbad. apply bool_decide_eq_true in Hbad.
  pose proof (renders_sym _ _ _ _ _ Hg eq_refl Hr) as Hm.
  rewrite (matches_len _ _ _ Hm) in Hl.
  apply (matches_weaken _ _ _ h) in Hm; [|lia|done]. rewrite <- Hout in Hm.
  apply completes_matches in Hm. pose proof (parse_client_hello_sound _ _ _ Hm) as Ha.
  by destruct (parse_client_hello (weaken _)).
Qed.

(** What a receiver makes of the message of a profile. *)
Definition hello_reading (p : option TlsProfile) (domain out : bytes) : Prop :=
  if profile_good p then client_hello_ok (substr 0 MAX_DOMAIN_LENGTH domain) out
  else parse_client_hello (known out) = Malformed.

Lemma built_reading p hello domain secret unix_time out :
  domain <> [] -> hello_chosen p hello -> built (ops_ hello) domain secret unix_time out ->
  hello_reading p domain out.
Proof.
  intros Hdom (Ht & _ & safari & Hops) Hb. unfold hello_reading.
  destruct (profile_good p) eqn:Hp; [by eapply built_well_formed|]. rewrite Hops in Hb.
  destruct p as [[| | | | |]|]; try discriminate Hp.
  - exact (built_malformed _ _ _ _ _ firefox_malformed Hdom Hb).
  - exact (built_malformed _ _ _ _ _ stable_proxy_malformed Hdom Hb).
Qed.

Lemma generate_header_run (domain secret : bytes) (unix_time now : Z)
  (rot : rotation_states) (st : hello_statics) (g : G) :
  domain <> [] -> len secret = 16 -> statics_ok st ->
  let rot' := maybe_rotate_profile_on_timer domain now rot in
  exists out st' g' ops,
    generate_header key_fuel domain secret unix_time now rot st g = Ok (out, rot', st', g') /\
    statics_ok st' /\ built ops domain secret unix_time out /\
    hello_reading (chosen_profile domain rot') domain out.
Proof.
  intros Hdom Hsec Hst rot'. unfold generate_header.
  rewrite (proj2 (Z.eqb_neq (len domain) 0)).
  2: { intros E. by apply len_zero_nil in E. }
  rewrite (proj2 (Z.eqb_eq _ _) Hsec). cbn [negb check]. rewrite !Ok_bind. cbn zeta. fold rot'.
  destruct (get_for_request_template domain rot' st g Hst) as (hello & st' & Hreq & Hst' & Ht).
  destruct (get_for_request _ _ st g) as [r g1]. cbn [fst] in Hreq. subst r. rewrite Ok_bind.
  cbn [fst snd].
  destruct (build_hello_built hello _ domain secret unix_time g1 (proj1 Ht) (proj1 (proj2 Ht)) Hdom)
    as (out & g' & Hb & Hbuilt).
  rewrite Hb, Ok_bind. cbn [fst snd]. exists out, st', g', (ops_ hello).
  split; [reflexivity|]. split; [exact Hst'|]. split; [exact Hbuilt|]. by eapply built_reading.
Qed.

(** C25: [generate_header] returns a message for every domain that is not empty,
    16-byte secret, clock, rotation state and state of the hello's static data,
    for a source of random bytes each of whose states gives a usable x
    coordinate within [key_fuel] draws (the code draws until it has one): no
    [CHECK] fails and the calculated length is the stored length. A server with
    the secret recovers the clock from the message. With the Chrome, Yandex,
    Safari, Vk and Gosuslugi profiles the message is a well-formed ClientHello
    of RFC 8446 that names the domain, with a 32-byte session id and no repeated
    extension; with the Firefox profile, whose cipher suites are cut at their
    first zero byte, and with the template of the stable proxy mode it is
    malformed in every run. *)
Theorem generate_header_ok (domain secret : bytes) (unix_time now : Z)
  (rot : rotation_states) (st : hello_statics) (g : G) :
  domain <> [] -> len secret = 16 -> statics_ok st ->
  let rot' := maybe_rotate_profile_on_timer domain now rot in
  exists out st' g',
    generate_header key_fuel domain secret unix_time now rot st g = Ok (out, rot', st', g') /\
    statics_ok st' /\ verify_hello secret out = Some (uint32 unix_time) /\
    hello_reading (chosen_profile domain rot') domain out.
Proof.
  intros Hdom Hsec Hst rot'.
  destruct (generate_header_run domain secret unix_time now rot st g Hdom Hsec Hst)
    as (out & st' & g' & ops & Hgen & Hst' & Hb & Hread).
  exists out, st', g'. split; [exact Hgen|]. split; [exact Hst'|]. split; [apply Hb|exact Hread].
Qed.
End building.

(** The build that is shipped: its message for every domain outside the
    three service families is not a ClientHello. The key_share extension is two
    bytes longer than it declares, and the extension list cannot be read. *)
Theorem shipped_generic_hello_malformed {G} `{RandomLaws G} `{BigNumLaws} `{HmacLaws}
  (key_fuel : nat) (domain secret : bytes) (unix_time now : Z)
  (rot : rotation_states) (st : hello_statics) (g : G) :
  (forall g : G, key_within key_fuel g = true) ->
  domain <> [] -> len secret = 16 -> statics_ok st ->
  detect_service_family domain = FamilyGeneric ->
  exists out rot' st' g',
    generate_header (B := shipped) key_fuel domain secret unix_time now rot st g =
      Ok (out, rot', st', g') /\
    parse_client_hello (known out) = Malformed.
Proof.
  intros Hkey Hdom Hsec Hst Hfam.
  destruct (generate_header_run (B := shipped) key_fuel Hkey domain secret unix_time now rot st g
    Hdom Hsec Hst) as (out & st' & g' & ops & Hgen & _ & _ & Hread).
  exists out. eexists _, st', g'. split; [exact Hgen|].
  unfold hello_reading, chosen_profile in Hread. cbn [kDpiBypassStableProxyMode shipped] in Hread.
  by rewrite decide_True in Hread.
Qed.

(** * Concrete runs

    A source that always gives the bytes of x = 9, the base point of the curve,
    and a keyed "digest" of fixed length. *)
Module FixedSource.
Definition pattern : bytes := zeros 31 ++ [z2b 9].

#[export] Instance source : RandomSource unit := {|
  secure_bytes n g := (take (Z.to_nat n) (pattern ++ zeros n), g);
  fast_uint32 g := (0, g);
|}.

#[export] Instance laws : RandomLaws unit.
Proof.
  constructor.
  - intros n g Hn. cbn. rewrite len_take, len_app, len_zeros by done.
    pose proof (len_nonneg pattern). lia.
  - intros g. cbn. lia.
Qed.

Definition digest (k m : bytes) : bytes := take 32 (k ++ m ++ zeros 32).

#[export] Instance hmac : Hmac := {| hmac_sha256 := digest |}.

#[export] Instance hmac_laws : HmacLaws.
Proof.
  constructor. intros k m. cbn. unfold digest. change 32%nat with (Z.to_nat 32).
  rewrite len_take, !len_app, len_zeros by lia.
  pose proof (len_nonneg k). pose proof (len_nonneg m). lia.
Qed.

Lemma accepted (g : unit) : key_within 1 g = true.
Proof. vm_compute. reflexivity. Qed.
End FixedSource.
Import FixedSource.

Lemma generate_header_ok_witness :
  exists out st' g',
    generate_header (B := shipped) 1 (str "ya.ru") (zeros 16) 1700000000 5 initial_rotation None tt =
      Ok (out, initial_rotation, st', g') /\
    statics_ok st' /\ verify_hello (zeros 16) out = Some (uint32 1700000000) /\
    client_hello_ok (str "ya.ru") out.
Proof.
  exact (generate_header_ok (B := shipped) 1 FixedSource.accepted (str "ya.ru") (zeros 16) 1700000000 5
    initial_rotation None tt ltac:(discriminate) eq_refl I).
Defined.

Lemma shipped_generic_hello_malformed_witness :
  exists out rot' st' g',
    generate_header (B := shipped) 1 (str "example.com") (zeros 16) 7 5 initial_rotation None tt =
      Ok (out, rot', st', g') /\
    parse_client_hello (known out) = Malformed.
Proof.
  apply (shipped_generic_hello_malformed 1); [exact FixedSource.accepted|discriminate|reflexivity|exact I|].
  vm_compute. reflexivity.
Defined.
