(* ===== verification/TlsResponse.v ===== *)
(** The client's side of the masking handshake: class [TlsInit] of
    [td/td/mtproto/TlsInit.{h,cpp}] on top of [TransparentProxy]
    ([tdnet/td/net/TransparentProxy.cpp]).

    [wait_hello_response] runs each time bytes arrive and re-reads the input
    buffer from its start: the theorems state that it consumes exactly the
    server's answer, that it waits on every proper prefix of an answer, and
    that a bad answer is an error that rotates the masking profile. *)
From S2P Require Import Prelude Bytes Random BigNum ProxySecret DpiBypass TlsHello TlsHelloCorrect TlsHelloSpec TlsInit.
#[local] Open Scope Z_scope.

Inductive init_state := SendHello | WaitHelloResponse.

(** The actor: [domain_] is [username_] and [secret_] is [password_] of the
    base class; [stopped] is the effect of [stop()]. *)
Record tls_init := mk_init {
  state_ : init_state;
  username_ : bytes;
  password_ : bytes;
  hello_rand_ : bytes;
  input_buffer : bytes;
  output_buffer : bytes;
  stopped : bool;
}.

(** The process-wide state that the actor uses. *)
Record shared (G : Type) := mk_shared {
  rotation : rotation_states;
  statics : hello_statics;
  random : G;
}.
Arguments mk_shared {G}.
Arguments rotation {G}.
Arguments statics {G}.
Arguments random {G}.

Definition first_prefix : bytes := hex [0x16; 0x03; 0x03].
Definition second_prefix : bytes := hex [0x14; 0x03; 0x03; 0x00; 0x01; 0x01; 0x17; 0x03; 0x03].
Definition response_prefixes : list bytes := [first_prefix; second_prefix].

(** The loop over the two prefixes: the rest of the input behind the answer. *)
Inductive scan_result := ScanWait | ScanBad | ScanDone (rest : bytes).

Fixpoint scan_response (prefixes : list bytes) (it : bytes) : scan_result :=
  match prefixes with
  | [] => ScanDone it
  | prefix :: prefixes =>
      if len it <? len prefix + 2 then ScanWait
      else
        let response_prefix := truncate (len prefix) it in
        let it := substr_from (len prefix) it in
        if bool_decide (prefix <> response_prefix) then ScanBad
        else
          let skip_size := Z.shiftl (b2z (nth_byte it 0)) 8 + b2z (nth_byte it 1) in
          let it := substr_from 2 it in
          if len it <? skip_size then ScanWait
          else scan_response prefixes (substr_from skip_size it)
  end.

Section tls_init.
Context {B : DpiBuild} {G : Type} `{RandomSource G} `{BigNumOps} `{Hmac}.
Context (key_fuel : nat).

(** [static_cast<int32>(Time::now() + server_time_difference_)] is
    [unix_time]; [now] is the clock of the profile timer. *)
Definition send_hello (unix_time now : Z) (self : tls_init) (env : shared G)
  : outcome (tls_init * shared G) :=
  r ← generate_header key_fuel (username_ self) (password_ self) unix_time now
        (rotation env) (statics env) (random env);
  let '(hello, rot, st, g) := r in
  let '(fragments, g) := fragment_client_hello hello 2 3 g in
  Ok (mk_init WaitHelloResponse (username_ self) (password_ self) (substr 11 32 hello)
        (input_buffer self) (output_buffer self ++ concat fragments) (stopped self),
      mk_shared rot st g).

Definition handshake_failure (now : Z) (self : tls_init) (env : shared G) : shared G :=
  mk_shared (on_tls_handshake_failure (username_ self) now (rotation env)) (statics env) (random env).

Definition set_input (input : bytes) (self : tls_init) : tls_init :=
  mk_init (state_ self) (username_ self) (password_ self) (hello_rand_ self) input
    (output_buffer self) (stopped self).

Definition stop (self : tls_init) : tls_init :=
  mk_init (state_ self) (username_ self) (password_ self) (hello_rand_ self) (input_buffer self)
    (output_buffer self) true.

(** The returned [Status] is the first component: [None] is [Status::OK()]. *)
Definition wait_hello_response (now : Z) (self : tls_init) (env : shared G)
  : outcome (option status * tls_init * shared G) :=
  match scan_response response_prefixes (input_buffer self) with
  | ScanWait => Ok (None, self, env)
  | ScanBad =>
      Ok (Some (Error 0 "First part of response to hello is invalid"), self,
          handshake_failure now self env)
  | ScanDone rest =>
      let response := truncate (len (input_buffer self) - len rest) (input_buffer self) in
      let self := set_input rest self in
      _ ← check (11 <=? len response);
      let response_rand := substr 11 32 response in
      let response := write_at 11 (zeros (len response_rand)) response in
      let hash_dest := hmac_sha256 (password_ self) (hello_rand_ self ++ response) in
      if bool_decide (hash_dest <> response_rand) then
        Ok (Some (Error 0 "Response hash mismatch"), self, handshake_failure now self env)
      else Ok (None, stop self, env)
  end.

Definition loop_impl (unix_time now : Z) (self : tls_init) (env : shared G)
  : outcome (option status * tls_init * shared G) :=
  match state_ self with
  | SendHello => r ← send_hello unix_time now self env; Ok (None, r.1, r.2)
  | WaitHelloResponse => wait_hello_response now self env
  end.
End tls_init.

(** * The server's answer *)

(** A record of type [prefix] with its length. *)
Definition answer_part (prefix body : bytes) : bytes := prefix ++ be16 (len body) ++ body.

Definition answer (body1 body2 : bytes) : bytes :=
  answer_part first_prefix body1 ++ answer_part second_prefix body2.

Lemma be16_value n : 0 <= n < 2 ^ 16 ->
  Z.shiftl (b2z (nth_byte (be16 n) 0)) 8 + b2z (nth_byte (be16 n) 1) = n.
Proof.
  intros Hn. change (nth_byte (be16 n) 0) with (z2b (Z.shiftr n 8)).
  change (nth_byte (be16 n) 1) with (z2b n).
  rewrite !b2z_z2b. bits_to_arith. change (2 ^ 16) with 65536 in Hn.
  rewrite (Z.mod_small (n / 256)) by div_mod_lia. div_mod_lia.
Qed.

Lemma nth_byte_app_l (a b : bytes) i : 0 <= i < len a -> nth_byte (a ++ b) i = nth_byte a i.
Proof. intros Hi. unfold nth_byte, len in *. apply app_nth1. lia. Qed.

Lemma substr_from_app (a b : bytes) : substr_from (len a) (a ++ b) = b.
Proof. unfold substr_from, len. rewrite Nat2Z.id. apply drop_app_length. Qed.

Lemma truncate_app (a b : bytes) : truncate (len a) (a ++ b) = a.
Proof. unfold truncate, len. rewrite Nat2Z.id. apply take_app_length. Qed.

Lemma scan_answer_part prefix body rest prefixes :
  len body < 2 ^ 16 ->
  scan_response (prefix :: prefixes) (answer_part prefix body ++ rest) = scan_response prefixes rest.
Proof.
  intros Hb. pose proof (len_nonneg body). pose proof (len_nonneg rest).
  unfold answer_part. rewrite <- !app_assoc. cbn [scan_response].
  rewrite (proj2 (Z.ltb_ge _ _)) by (rewrite !len_app, len_be16; lia). cbn zeta.
  rewrite truncate_app, substr_from_app, bool_decide_eq_false_2 by tauto.
  rewrite !nth_byte_app_l by (rewrite len_be16; lia). rewrite be16_value by lia.
  change 2 with (len (be16 (len body))) at 1 2. rewrite substr_from_app.
  rewrite (proj2 (Z.ltb_ge _ _)) by (rewrite len_app; lia). by rewrite substr_from_app.
Qed.

Lemma scan_answer body1 body2 rest :
  len body1 < 2 ^ 16 -> len body2 < 2 ^ 16 ->
  scan_response response_prefixes (answer body1 body2 ++ rest) = ScanDone rest.
Proof.
  intros H1 H2. unfold answer, response_prefixes. rewrite <- app_assoc.
  by rewrite !scan_answer_part.
Qed.

(** Whatever the scan accepts is an answer followed by the rest. *)
Lemma scan_done_part prefix prefixes it rest :
  scan_response (prefix :: prefixes) it = ScanDone rest ->
  exists body it', it = answer_part prefix body ++ it' /\ len body < 2 ^ 16 /\
    scan_response prefixes it' = ScanDone rest.
Proof.
  cbn [scan_response]. destruct (Z.ltb_spec (len it) (len prefix + 2)) as [|Hl]; [done|]. cbn zeta.
  case_bool_decide as Hp; [done|].
  set (it2 := substr_from (len prefix) it).
  assert (Hit : it = prefix ++ it2).
  { rewrite Hp at 1. unfold it2, truncate, substr_from. by rewrite take_drop. }
  assert (Hl2 : 2 <= len it2) by (rewrite Hit, len_app in Hl; lia). clearbody it2. subst it.
  destruct it2 as [|a [|b it3]]; try (rewrite ?len_cons, len_nil in Hl2; lia).
  change (nth_byte (a :: b :: it3) 0) with a. change (nth_byte (a :: b :: it3) 1) with b.
  change (substr_from 2 (a :: b :: it3)) with it3.
  pose proof (b2z_range a). pose proof (b2z_range b). bits_to_arith.
  set (n := b2z a * 256 + b2z b). destruct (Z.ltb_spec (len it3) n) as [|Hn]; [done|].
  intros Hs. exists (truncate n it3), (substr_from n it3).
  assert (Hlen : len (truncate n it3) = n) by (unfold truncate; rewrite len_take; lia).
  split; [|split; [lia|exact Hs]].
  unfold answer_part. rewrite Hlen, <- !app_assoc. f_equal.
  assert (be16 n = [a; b]) as ->.
  { unfold be16. bits_to_arith. f_equal; [|f_equal]; apply z2b_byte; unfold n; div_mod_lia. }
  cbn [app]. do 2 f_equal. unfold truncate, substr_from. by rewrite take_drop.
Qed.

Lemma scan_done it rest :
  scan_response response_prefixes it = ScanDone rest ->
  exists body1 body2, it = answer body1 body2 ++ rest /\ len body1 < 2 ^ 16 /\ len body2 < 2 ^ 16.
Proof.
  intros H. apply scan_done_part in H as (b1 & it1 & -> & H1 & H).
  apply scan_done_part in H as (b2 & it2 & -> & H2 & H). cbn in H. injection H as <-.
  exists b1, b2. unfold answer. by rewrite <- app_assoc.
Qed.

(** A proper prefix of an answer is neither complete nor bad. *)
Lemma scan_prefix prefixes : forall bodies front back,
  length bodies = length prefixes -> Forall (fun b => len b < 2 ^ 16) bodies ->
  back <> [] -> front ++ back = concat (zip_with answer_part prefixes bodies) ->
  scan_response prefixes front = ScanWait.
Proof.
  induction prefixes as [|p ps IH]; intros [|b bs] front back Hl Hf Hb E; try done.
  { cbn in E. by apply app_eq_nil in E as [_ ->]. }
  inversion Hf as [|? ? Hb16 Hf']; subst. cbn [zip_with concat] in E.
  destruct (decide (len (answer_part p b) <= len front)) as [Hle|Hlt].
  - assert (exists f, front = answer_part p b ++ f) as (f & ->).
    { exists (drop (length (answer_part p b)) front).
      assert (take (length (answer_part p b)) front = answer_part p b) as Et.
      { apply (f_equal (take (length (answer_part p b)))) in E. rewrite take_app_length in E.
        rewrite take_app_le in E; [done|]. unfold len in Hle. lia. }
      rewrite <- Et at 1. by rewrite take_drop. }
    rewrite <- app_assoc in E. apply app_inv_head in E.
    rewrite scan_answer_part by done. apply (IH bs f back); [cbn in Hl; lia|done..].
  - assert (exists c, answer_part p b = front ++ c /\ c <> []) as (c & Ec & Hc).
    { exists (drop (length front) (answer_part p b)).
      assert (take (length front) (answer_part p b) = front) as Et.
      { apply (f_equal (take (length front))) in E. rewrite take_app_length in E.
        rewrite take_app_le in E; [done|]. unfold len in Hlt. lia. }
      split; [rewrite <- Et at 1; by rewrite take_drop|].
      intros E0. apply (f_equal length) in E0. rewrite length_drop in E0. cbn in E0.
      unfold len in Hlt. lia. }
    clear E IH Hf' Hf Hl Hlt. cbn [scan_response].
    destruct (Z.ltb_spec (len front) (len p + 2)) as [|Hfl]; [done|]. cbn zeta.
    unfold answer_part in Ec.
    assert (exists f, front = p ++ be16 (len b) ++ f) as (f & ->).
    { exists (drop (length (p ++ be16 (len b))) front).
      assert (take (length (p ++ be16 (len b))) front = p ++ be16 (len b)) as Et.
      { apply (f_equal (take (length (p ++ be16 (len b))))) in Ec.
        rewrite app_assoc, take_app_length in Ec. rewrite take_app_le in Ec; [done|].
        rewrite length_app. unfold len in Hfl. cbn. lia. }
      rewrite app_assoc. rewrite <- Et at 1. by rewrite take_drop. }
    rewrite truncate_app, substr_from_app, bool_decide_eq_false_2 by tauto.
    rewrite !nth_byte_app_l by (rewrite len_be16; lia). pose proof (len_nonneg b).
    rewrite be16_value by lia. change 2 with (len (be16 (len b))) at 1. rewrite substr_from_app.
    rewrite <- !app_assoc in Ec. do 2 apply app_inv_head in Ec. subst b.
    rewrite (proj2 (Z.ltb_lt _ _)); [done|]. rewrite len_app.
    destruct c; [done|]. rewrite len_cons. pose proof (len_nonneg c). lia.
Qed.

(** The server signs its answer: the digest of the client's random field and
    the answer with a zero random field goes to bytes 11..42. *)
Definition sign_answer `{Hmac} (secret hello_rand unsigned : bytes) : bytes :=
  write_at 11 (hmac_sha256 secret (hello_rand ++ write_at 11 (zeros 32) unsigned)) unsigned.

(** The condition under which an answer is accepted. *)
Definition answer_valid `{Hmac} (secret hello_rand response : bytes) : Prop :=
  let rand := substr 11 32 response in
  rand = hmac_sha256 secret (hello_rand ++ write_at 11 (zeros (len rand)) response).

Lemma answer_len body1 body2 : len (answer body1 body2) = 16 + len body1 + len body2.
Proof.
  unfold answer, answer_part. rewrite !len_app, !len_be16.
  change (len first_prefix) with 3. change (len second_prefix) with 9. lia.
Qed.

(** The digest lies inside the body of the first record. *)
Lemma write_at_answer body1 body2 h :
  len h = 32 -> 38 <= len body1 ->
  write_at 11 h (answer body1 body2) = answer (write_at 6 h body1) body2 /\
  len (write_at 6 h body1) = len body1.
Proof.
  intros Hh Hb. assert (Hl : len (write_at 6 h body1) = len body1) by (apply len_write_at; lia).
  split; [|exact Hl]. unfold answer, answer_part. rewrite Hl.
  destruct (split_len 6 body1 ltac:(lia)) as (p & m' & -> & Hp & Hm').
  rewrite len_app in Hm', Hb. destruct (split_len 32 m' ltac:(lia)) as (m & q & -> & Hm & Hq).
  rewrite (write_at_app' 6 p m q h) by lia. rewrite <- !app_assoc.
  rewrite !(app_assoc first_prefix), !(app_assoc (first_prefix ++ _)).
  rewrite (write_at_app' 11 _ m); [by rewrite <- !app_assoc| |lia].
  rewrite !len_app, len_be16, Hp. reflexivity.
Qed.

Section response.
Context {B : DpiBuild} {G : Type} `{RandomLaws G} `{BigNumOps} `{HmacLaws}.
Context (now : Z) (self : tls_init) (env : shared G).

(** What is promised about a call with the answer still awaited: it waits, or
    it rejects the first bytes, or the buffer starts with an answer, which is
    removed from the buffer and accepted exactly when its digest is right. A
    rejection reports the failure to the rotation of masking profiles. *)
Definition response_contract (r : outcome (option status * tls_init * shared G)) : Prop :=
  match scan_response response_prefixes (input_buffer self) with
  | ScanWait => r = Ok (None, self, env)
  | ScanBad =>
      r = Ok (Some (Error 0 "First part of response to hello is invalid"), self,
              handshake_failure now self env)
  | ScanDone rest =>
      exists body1 body2,
        input_buffer self = answer body1 body2 ++ rest /\
        len body1 < 2 ^ 16 /\ len body2 < 2 ^ 16 /\
        (answer_valid (password_ self) (hello_rand_ self) (answer body1 body2) ->
         r = Ok (None, stop (set_input rest self), env)) /\
        (~ answer_valid (password_ self) (hello_rand_ self) (answer body1 body2) ->
         r = Ok (Some (Error 0 "Response hash mismatch"), set_input rest self,
                 handshake_failure now (set_input rest self) env))
  end.

Lemma wait_hello_response_branches : response_contract (wait_hello_response now self env).
Proof.
  unfold response_contract, wait_hello_response.
  destruct (scan_response response_prefixes (input_buffer self)) as [| |rest] eqn:E; try reflexivity.
  destruct (scan_done _ _ E) as (b1 & b2 & Hin & Hl1 & Hl2). exists b1, b2.
  split; [exact Hin|]. split; [exact Hl1|]. split; [exact Hl2|].
  assert (Hresp : truncate (len (input_buffer self) - len rest) (input_buffer self) = answer b1 b2).
  { rewrite Hin, len_app. replace (_ + _ - _) with (len (answer b1 b2)) by lia. apply truncate_app. }
  rewrite Hresp. pose proof (len_nonneg b1). pose proof (len_nonneg b2).
  rewrite (proj2 (Z.leb_le 11 _)) by (rewrite answer_len; lia).
  unfold check. rewrite Ok_bind. cbn [password_ hello_rand_ set_input]. unfold answer_valid.
  set (rand := substr 11 32 (answer b1 b2)). set (digest := hmac_sha256 _ _).
  split; intros Hv.
  - by rewrite bool_decide_eq_false_2 by (intros Hne; by apply Hne).
  - by rewrite bool_decide_eq_true_2 by congruence.
Qed.

Lemma wait_hello_response_waits (body1 body2 : bytes) (missing : bytes) :
  len body1 < 2 ^ 16 -> len body2 < 2 ^ 16 -> missing <> [] ->
  input_buffer self ++ missing = answer body1 body2 ->
  wait_hello_response now self env = Ok (None, self, env).
Proof.
  intros Hl1 Hl2 Hm E. unfold wait_hello_response.
  rewrite (scan_prefix response_prefixes [body1; body2] (input_buffer self) missing);
    [reflexivity|reflexivity|by repeat constructor|done|].
  rewrite E. unfold answer. cbn. by rewrite app_nil_r.
Qed.

Lemma signed_answer_accepted (body1 body2 rest : bytes) :
  38 <= len body1 < 2 ^ 16 -> len body2 < 2 ^ 16 ->
  input_buffer self = sign_answer (password_ self) (hello_rand_ self) (answer body1 body2) ++ rest ->
  wait_hello_response now self env = Ok (None, stop (set_input rest self), env).
Proof.
  intros Hl1 Hl2 E. unfold sign_answer in E.
  set (h := hmac_sha256 _ _) in E. assert (Hh : len h = 32) by apply len_hmac_sha256.
  pose proof (len_nonneg body2) as Hn2.
  assert (Hal : 43 <= len (answer body1 body2)) by (rewrite answer_len; lia).
  destruct (write_at_answer body1 body2 h Hh ltac:(lia)) as [Hw Hlen].
  assert (Hin : input_buffer self = answer (write_at 6 h body1) body2 ++ rest) by (by rewrite E, Hw).
  assert (Hscan : scan_response response_prefixes (input_buffer self) = ScanDone rest).
  { rewrite Hin. apply scan_answer; lia. }
  pose proof wait_hello_response_branches as Hspec. unfold response_contract in Hspec. rewrite Hscan in Hspec.
  destruct Hspec as (b1 & b2 & Hin' & _ & _ & Hok & _). apply Hok. rewrite Hin in Hin'.
  apply app_inv_tail in Hin'. rewrite <- Hin', <- Hw. unfold answer_valid.
  assert (Hrand : substr 11 32 (write_at 11 h (answer body1 body2)) = h).
  { rewrite <- Hh at 1. apply substr_write_at; lia. }
  rewrite Hrand, Hh. rewrite (write_at_twice 11 h) by (rewrite ?len_zeros; lia). reflexivity.
Qed.
End response.

Section handshake.
Context {B : DpiBuild} {G : Type} `{RandomLaws G} `{BigNumLaws} `{HmacLaws}.
Context (key_fuel : nat) (Hkey : forall g : G, key_within key_fuel g = true).

(** The complete contract of the actor once the ClientHello is sent, for
    every content of the input buffer: wait, reject the first bytes, or take
    exactly one answer off the buffer and accept it when its digest is right. No
    branch fails a [CHECK]. *)
Theorem wait_hello_response_spec (unix_time now : Z) (self : tls_init) (env : shared G) :
  state_ self = WaitHelloResponse ->
  response_contract now self env (loop_impl key_fuel unix_time now self env).
Proof. intros Hst. unfold loop_impl. rewrite Hst. apply wait_hello_response_branches. Qed.

Lemma sign_answer_answer secret rand body1 body2 :
  38 <= len body1 < 2 ^ 16 ->
  exists body1', sign_answer secret rand (answer body1 body2) = answer body1' body2 /\
    len body1' = len body1.
Proof.
  intros Hl. unfold sign_answer.
  destruct (write_at_answer body1 body2 (hmac_sha256 secret (rand ++ write_at 11 (zeros 32)
    (answer body1 body2))) (len_hmac_sha256 _ _) ltac:(lia)) as [-> Hlen]. eauto.
Qed.

(** C30: The whole handshake. A new actor with a domain and a 16-byte secret
    sends one ClientHello that the server can verify, for a source of random
    bytes each of whose states gives a usable x coordinate within [key_fuel]
    draws; the answer that the server signs may arrive in pieces, the actor
    waits until it is complete, then takes it and stops, and leaves the bytes
    behind it in the input. *)
Theorem masking_handshake (unix_time now : Z) (self : tls_init) (env : shared G) :
  state_ self = SendHello -> username_ self <> [] -> len (password_ self) = 16 ->
  statics_ok (statics env) ->
  exists self' env' hello,
    loop_impl key_fuel unix_time now self env = Ok (None, self', env') /\
    output_buffer self' = output_buffer self ++ hello /\
    verify_hello (password_ self) hello = Some (uint32 unix_time) /\
    forall body1 body2 later now' t',
      38 <= len body1 < 2 ^ 16 -> len body2 < 2 ^ 16 ->
      let signed := sign_answer (password_ self) (substr 11 32 hello) (answer body1 body2) in
      (forall front back, front ++ back = signed -> back <> [] ->
         loop_impl key_fuel t' now' (set_input front self') env' =
           Ok (None, set_input front self', env')) /\
      loop_impl key_fuel t' now' (set_input (signed ++ later) self') env' =
        Ok (None, stop (set_input later self'), env').
Proof.
  intros Hst Hdom Hsec Hstat. unfold loop_impl at 1. rewrite Hst. unfold send_hello.
  destruct (generate_header_run key_fuel Hkey (username_ self) (password_ self) unix_time now
    (rotation env) (statics env) (random env) Hdom Hsec Hstat)
    as (out & st' & g' & ops & Hgen & _ & Hbuilt & _).
  rewrite Hgen, Ok_bind. destruct Hbuilt as [Hv (ctx & plain & h & _ & _ & _ & _ & Hlen & Hh & Hout)].
  assert (Hl : len out = len plain) by (rewrite Hout; apply len_write_at; lia).
  assert (Hfr : concat (fragment_client_hello out 2 3 g').1 = out).
  { apply (fragments_concat out 3), fragment_client_hello_ok; [|lia|lia].
    intros E. rewrite E, len_nil in Hl. lia. }
  destruct (fragment_client_hello out 2 3 g') as [fragments g2]. cbn [fst] in Hfr.
  rewrite Ok_bind, Hfr. cbn [fst snd].
  eexists _, _, out. split; [reflexivity|]. split; [reflexivity|]. split; [exact Hv|].
  intros body1 body2 later now' t' Hl1 Hl2 . split.
  - intros front back E Hb. unfold loop_impl. cbn [state_ set_input].
    destruct (sign_answer_answer (password_ self) (substr 11 32 out) body1 body2 Hl1)
      as (b1 & Eb & Hb1).
    apply (wait_hello_response_waits _ _ _ b1 body2 back); [lia|done|done|].
    cbn [input_buffer set_input]. rewrite E. exact Eb.
  - unfold loop_impl. cbn [state_ set_input].
    rewrite (signed_answer_accepted _ _ _ body1 body2 later); [reflexivity|done|done|reflexivity].
Qed.
End handshake.

Import FixedSource.

Definition fresh_init : tls_init := mk_init SendHello (str "ya.ru") (zeros 16) [] [] [] false.
Definition waiting_init (input : bytes) : tls_init :=
  mk_init WaitHelloResponse (str "ya.ru") (zeros 16) (zeros 32) input [] false.
Definition fresh_shared : shared unit := mk_shared initial_rotation None tt.

Lemma wait_hello_response_spec_witness :
  response_contract (B := full_bypass) 5 (waiting_init (hex [0x15; 3; 3; 0; 2])) fresh_shared
    (loop_impl (B := full_bypass) 1 7 5 (waiting_init (hex [0x15; 3; 3; 0; 2])) fresh_shared) /\
  scan_response response_prefixes (hex [0x15; 3; 3; 0; 2]) = ScanBad.
Proof.
  split; [|vm_compute; reflexivity].
  apply (wait_hello_response_spec (B := full_bypass) 1 7 5 (waiting_init (hex [0x15; 3; 3; 0; 2]))).
  reflexivity.
Defined.

Lemma masking_handshake_witness :
  exists self' env' hello,
    loop_impl (B := shipped) 1 7 5 fresh_init fresh_shared = Ok (None, self', env') /\
    output_buffer self' = hello /\
    verify_hello (zeros 16) hello = Some 7 /\
    let signed := sign_answer (zeros 16) (substr 11 32 hello) (answer (zeros 38) []) in
    loop_impl (B := shipped) 1 9 5 (set_input (signed ++ []) self') env' =
      Ok (None, stop (set_input [] self'), env').
Proof.
  destruct (masking_handshake (B := shipped) 1 FixedSource.accepted 7 5 fresh_init fresh_shared
    eq_refl ltac:(discriminate) eq_refl I) as (self' & env' & hello & H1 & H2 & H3 & H4).
  exists self', env', hello. split; [exact H1|]. split; [exact H2|]. split; [exact H3|].
  refine (proj2 (H4 (zeros 38) [] [] 5 9 _ _)); [split; [discriminate|]|]; reflexivity.
Defined.
