(* ===== verification/Crypto.v ===== *)
(** The primitives of [tdutils/td/utils/crypto.h] that OpenSSL computes, as
    classes: what the transport code relies on is in the [Laws] classes.  The
    [Toy] instances make concrete runs possible; only the witnesses use them. *)
From S2P Require Import Prelude Bytes.
#[local] Open Scope Z_scope.

(** [AesCtrState]: a stream cipher; encryption and decryption are the same. *)
Class AesCtr (S : Type) := {
  ctr_init : bytes -> bytes -> S;
  ctr_encrypt : bytes -> S -> bytes * S;
}.

Class AesCtrLaws (S : Type) `{AesCtr S} : Prop := {
  len_ctr_encrypt x (s : S) : len (ctr_encrypt x s).1 = len x;
  ctr_encrypt_app x y (s : S) :
    ctr_encrypt (x ++ y) s =
      ((ctr_encrypt x s).1 ++ (ctr_encrypt y (ctr_encrypt x s).2).1,
       (ctr_encrypt y (ctr_encrypt x s).2).2);
  ctr_encrypt_twice x (s : S) :
    ctr_encrypt (ctr_encrypt x s).1 s = (x, (ctr_encrypt x s).2);
  (** the keystream does not depend on the data *)
  ctr_encrypt_state x y (s : S) :
    len x = len y -> (ctr_encrypt x s).2 = (ctr_encrypt y s).2;
}.

Lemma ctr_encrypt_nil {S} `{AesCtrLaws S} (s : S) : (ctr_encrypt [] s).1 = [].
Proof. apply len_zero_nil. by rewrite len_ctr_encrypt. Qed.

Class Sha := { sha1 : bytes -> bytes; sha256 : bytes -> bytes }.

Class ShaLaws `{Sha} : Prop := {
  len_sha1 x : len (sha1 x) = 20;
  len_sha256 x : len (sha256 x) = 32;
}.

(** [aes_ige_encrypt(key, iv, from, to)]; the callers do not use the updated iv. *)
Class AesIge := {
  aes_ige_encrypt : bytes -> bytes -> bytes -> bytes;
  aes_ige_decrypt : bytes -> bytes -> bytes -> bytes;
}.

Class AesIgeLaws `{AesIge} : Prop := {
  len_aes_ige_encrypt k iv x : len x mod 16 = 0 -> len (aes_ige_encrypt k iv x) = len x;
  len_aes_ige_decrypt k iv x : len x mod 16 = 0 -> len (aes_ige_decrypt k iv x) = len x;
  aes_ige_roundtrip k iv x :
    len x mod 16 = 0 -> aes_ige_decrypt k iv (aes_ige_encrypt k iv x) = x;
  aes_ige_inverse k iv x :
    len x mod 16 = 0 -> aes_ige_encrypt k iv (aes_ige_decrypt k iv x) = x;
}.

Module Toy.
Fixpoint stream (x : bytes) (s : Z) : bytes * Z :=
  match x with
  | [] => ([], s)
  | b :: x => let r := stream x (s + 1) in (z2b (Z.lxor (b2z b) (s mod 256)) :: r.1, r.2)
  end.

#[export] Instance ctr : AesCtr Z := {|
  ctr_init k iv := le_load k + le_load iv;
  ctr_encrypt := stream;
|}.

#[export] Instance ctr_laws : AesCtrLaws Z.
Proof.
  constructor; cbn; intros x.
  - induction x as [|b x IH]; intros s; [done|]. cbn. by rewrite !len_cons, IH.
  - induction x as [|b x IH]; intros y s; cbn; [by destruct (stream y s)|]. by rewrite IH.
  - induction x as [|b x IH]; intros s; [done|]. cbn. rewrite IH. cbn. do 2 f_equal.
    rewrite <- (b2z_z2b s). apply byte_xor_cancel.
  - induction x as [|b x IH]; intros [|c y] s Hl; rewrite ?len_cons, ?len_nil in Hl.
    + done.
    + pose proof (len_nonneg y). lia.
    + pose proof (len_nonneg x). lia.
    + cbn. apply IH. lia.
Qed.

Definition digest (n : nat) (x : bytes) : bytes := take n (x ++ zeros (Z.of_nat n)).

#[export] Instance sha : Sha := {| sha1 := digest 20; sha256 := digest 32 |}.

#[export] Instance sha_laws : ShaLaws.
Proof.
  constructor; intros x; cbn; unfold digest, len, zeros;
    rewrite length_take, length_app, length_replicate; lia.
Qed.

#[export] Instance ige : AesIge := {|
  aes_ige_encrypt k iv x := reverse x;
  aes_ige_decrypt k iv x := reverse x;
|}.

#[export] Instance ige_laws : AesIgeLaws.
Proof.
  constructor; cbn; intros.
  - apply len_reverse.
  - apply len_reverse.
  - apply reverse_involutive.
  - apply reverse_involutive.
Qed.
End Toy.
