(* ===== verification/Buffer.v ===== *)
(** Buffers with room at both ends: [BufferWriter] and [BufferBuilder] of
    [tdutils/td/utils/buffer.{h,cpp}].

    A [BufferWriter] is its contents with the free room before and behind
    them; [ChainBufferReader] and [ChainBufferWriter] are byte strings, since
    the code that is modelled never looks at the borders of their nodes.  The
    theorem is that a builder holds the concatenation of what was put into it,
    whichever of the two representations (in place, or a list of pieces) each
    call took. *)
From S2P Require Import Prelude Bytes.
#[local] Open Scope Z_scope.

Record BufferWriter := mk_writer {
  room_before : Z;
  contents : bytes;
  room_after : Z;
  was_reader : bool;
}.

(** [BufferAllocator::create_writer(size, prepend, append)] with the contents
    that the caller then stores: at least 512 bytes, rounded up to 8. *)
Definition buffer_raw_size (size : Z) : Z := Z.land (size + 7) (-8).

Definition create_writer (data : bytes) (prepend append : Z) : BufferWriter :=
  let size := buffer_raw_size (Z.max 512 (len data + prepend + append)) in
  mk_writer prepend data (size - prepend - len data) false.

(** [prepare_prepend], copy, [confirm_prepend]. *)
Definition writer_prepend (s : bytes) (w : BufferWriter) : outcome BufferWriter :=
  _ ← check (negb (was_reader w));
  _ ← check (len s <=? room_before w);
  Ok (mk_writer (room_before w - len s) (s ++ contents w) (room_after w) (was_reader w)).

(** [prepare_append], copy, [confirm_append]. *)
Definition writer_append (s : bytes) (w : BufferWriter) : outcome BufferWriter :=
  _ ← check (len s <=? room_after w);
  Ok (mk_writer (room_before w) (contents w ++ s) (room_after w - len s) (was_reader w)).

Record BufferBuilder := mk_builder {
  buffer_writer_ : option BufferWriter;
  to_append_ : list bytes;
  to_prepend_ : list bytes;
}.

Definition empty_builder : BufferBuilder := mk_builder None [] [].
Definition builder_of (w : BufferWriter) : BufferBuilder := mk_builder (Some w) [] [].

(** [append_inplace]; [None] is the result [false]. *)
Definition append_inplace (s : bytes) (b : BufferBuilder) : option BufferBuilder :=
  match to_append_ b with
  | _ :: _ => None
  | [] =>
      match buffer_writer_ b with
      | None => if 0 <? len s then None else Some b
      | Some w =>
          if room_after w <? len s then None
          else Some (mk_builder (Some (mk_writer (room_before w) (contents w ++ s)
                                         (room_after w - len s) (was_reader w))) [] (to_prepend_ b))
      end
  end.

Definition builder_append (s : bytes) (b : BufferBuilder) : BufferBuilder :=
  match append_inplace s b with
  | Some b => b
  | None => mk_builder (buffer_writer_ b) (to_append_ b ++ [s]) (to_prepend_ b)
  end.

(** [prepend_inplace], with the [CHECK] of [prepare_prepend]. *)
Definition prepend_inplace (s : bytes) (b : BufferBuilder) : outcome (option BufferBuilder) :=
  match to_prepend_ b with
  | _ :: _ => Ok None
  | [] =>
      match buffer_writer_ b with
      | None => Ok (if 0 <? len s then None else Some b)
      | Some w =>
          _ ← check (negb (was_reader w));
          Ok (if room_before w <? len s then None
              else Some (mk_builder (Some (mk_writer (room_before w - len s) (s ++ contents w)
                                             (room_after w) (was_reader w))) (to_append_ b) []))
      end
  end.

Definition builder_prepend (s : bytes) (b : BufferBuilder) : outcome BufferBuilder :=
  r ← prepend_inplace s b;
  Ok (match r with
      | Some b => b
      | None => mk_builder (buffer_writer_ b) (to_append_ b) (to_prepend_ b ++ [s])
      end).

(** The slices that [for_each] visits. *)
Definition builder_slices (b : BufferBuilder) : list bytes :=
  reverse (to_prepend_ b)
  ++ match buffer_writer_ b with
     | Some w => if len (contents w) =? 0 then [] else [contents w]
     | None => []
     end
  ++ to_append_ b.

Definition builder_size (b : BufferBuilder) : Z := foldr Z.add 0 (len <$> builder_slices b).

(** [extract]: the pieces are copied into a new writer. *)
Fixpoint copy_slices (slices : list bytes) (w : BufferWriter) : outcome BufferWriter :=
  match slices with
  | [] => Ok w
  | s :: slices => w ← writer_append s w; copy_slices slices w
  end.

Definition builder_extract (b : BufferBuilder) : outcome bytes :=
  match to_append_ b, to_prepend_ b with
  | [], [] =>
      (** a null writer has no buffer to read from *)
      match buffer_writer_ b with Some w => Ok (contents w) | None => Crash end
  | _, _ => w ← copy_slices (builder_slices b) (create_writer [] 0 (builder_size b)); Ok (contents w)
  end.

(** * A builder is the concatenation of its pieces *)

Definition builder_bytes (b : BufferBuilder) : bytes :=
  concat (reverse (to_prepend_ b))
  ++ match buffer_writer_ b with Some w => contents w | None => [] end
  ++ concat (to_append_ b).

(** Nobody reads the writer's own buffer yet, so it may be extended in front. *)
Definition builder_fresh (b : BufferBuilder) : Prop :=
  match buffer_writer_ b with Some w => was_reader w = false | None => True end.

Lemma builder_bytes_slices b : concat (builder_slices b) = builder_bytes b.
Proof.
  unfold builder_slices, builder_bytes. rewrite !concat_app. do 2 f_equal.
  destruct (buffer_writer_ b) as [w|]; [|done].
  destruct (Z.eqb_spec (len (contents w)) 0) as [->%len_zero_nil|]; [done|]. cbn. apply app_nil_r.
Qed.

Lemma builder_append_bytes s b :
  builder_bytes (builder_append s b) = builder_bytes b ++ s /\
  (builder_fresh b -> builder_fresh (builder_append s b)).
Proof.
  unfold builder_append, append_inplace, builder_fresh, builder_bytes.
  destruct b as [[w|] [|a l] p]; cbn [to_append_ buffer_writer_ to_prepend_ concat].
  - destruct (_ <? _); cbn; (split; [|done]); rewrite ?app_nil_r, <- ?app_assoc; reflexivity.
  - cbn. rewrite concat_app. cbn. by rewrite app_nil_r, <- !app_assoc.
  - destruct (Z.ltb_spec 0 (len s)) as [|Hs]; cbn.
    { split; [by rewrite !app_nil_r | done]. }
    split; [|done]. rewrite (len_zero_nil s); [by rewrite !app_nil_r|].
    pose proof (len_nonneg s). lia.
  - cbn. rewrite concat_app. cbn. by rewrite app_nil_r, <- !app_assoc.
Qed.

Lemma builder_prepend_bytes s b :
  builder_fresh b ->
  exists b', builder_prepend s b = Ok b' /\ builder_bytes b' = s ++ builder_bytes b /\ builder_fresh b'.
Proof.
  unfold builder_prepend, prepend_inplace, builder_fresh, builder_bytes.
  destruct b as [[w|] l [|a p]]; cbn [to_append_ buffer_writer_ to_prepend_ concat].
  - intros Hw. rewrite Hw. cbn. destruct (room_before w <? len s); eexists; (split; [reflexivity|]);
      (split; [|first [exact Hw | reflexivity]]); cbn; rewrite ?app_nil_r, <- ?app_assoc; reflexivity.
  - intros Hw. eexists. split; [reflexivity|]. cbn [to_append_ buffer_writer_ to_prepend_].
    rewrite reverse_app. cbn. by split; [rewrite <- ?app_assoc|].
  - intros _. cbn. destruct (Z.ltb_spec 0 (len s)) as [|Hs];
      eexists; (split; [reflexivity|]); cbn; (split; [|done]); [by rewrite app_nil_r|].
    rewrite (len_zero_nil s); [done|]. pose proof (len_nonneg s). lia.
  - intros _. eexists. split; [reflexivity|]. cbn [to_append_ buffer_writer_ to_prepend_].
    rewrite reverse_app. cbn. by split; [rewrite <- ?app_assoc|].
Qed.

Lemma buffer_raw_size_ge n : n <= buffer_raw_size n.
Proof.
  unfold buffer_raw_size. change (-8) with (Z.lnot (Z.ones 3)).
  rewrite <- Z.ldiff_land, Z.ldiff_ones_r, Z.shiftr_div_pow2, Z.shiftl_mul_pow2 by lia.
  change (2 ^ 3) with 8. div_mod_lia.
Qed.

Lemma copy_slices_ok slices w :
  foldr Z.add 0 (len <$> slices) <= room_after w ->
  exists w', copy_slices slices w = Ok w' /\ contents w' = contents w ++ concat slices.
Proof.
  revert w. induction slices as [|s slices IH]; intros w; cbn.
  { intros _. exists w. by rewrite app_nil_r. }
  intros Hr. assert (0 <= foldr Z.add 0 (len <$> slices)).
  { clear. induction slices; cbn; [lia|]. pose proof (len_nonneg a). lia. }
  unfold writer_append. rewrite (proj2 (Z.leb_le _ _)) by lia. cbn.
  destruct (IH (mk_writer (room_before w) (contents w ++ s) (room_after w - len s) (was_reader w)))
    as (w' & Hw & Hc); [cbn; lia|].
  exists w'. split; [exact Hw|]. rewrite Hc. cbn. by rewrite <- app_assoc.
Qed.

(** [extract] returns the concatenation, and the buffer it allocates is always
    large enough. *)
Lemma builder_extract_bytes b :
  (buffer_writer_ b <> None \/ to_append_ b <> [] \/ to_prepend_ b <> []) ->
  builder_extract b = Ok (builder_bytes b).
Proof.
  intros Hne. unfold builder_extract.
  assert (Hcopy : (w ← copy_slices (builder_slices b) (create_writer [] 0 (builder_size b));
                   Ok (contents w)) = Ok (builder_bytes b)).
  { destruct (copy_slices_ok (builder_slices b) (create_writer [] 0 (builder_size b)))
      as (w & Hw & Hc).
    - unfold create_writer. cbn [room_after]. change (len (@nil byte)) with 0.
      pose proof (buffer_raw_size_ge (Z.max 512 (0 + 0 + builder_size b))).
      unfold builder_size in *. lia.
    - rewrite Hw, Ok_bind, Hc. change (contents (create_writer [] 0 _)) with (@nil byte).
      cbn [app]. f_equal. apply builder_bytes_slices. }
  destruct b as [w [|a l] [|c p]]; cbn [to_append_ to_prepend_ buffer_writer_] in *; try exact Hcopy.
  destruct w as [w|]; [|naive_solver]. unfold builder_bytes. cbn. by rewrite app_nil_r.
Qed.

Lemma builder_size_bytes b : builder_size b = len (builder_bytes b).
Proof.
  rewrite <- builder_bytes_slices. unfold builder_size. induction (builder_slices b); [done|].
  cbn. by rewrite len_app, IHl.
Qed.

Lemma builder_prepend_some s b b' : s <> [] -> builder_prepend s b = Ok b' ->
  buffer_writer_ b' <> None \/ to_append_ b' <> [] \/ to_prepend_ b' <> [].
Proof.
  intros Hs. unfold builder_prepend, prepend_inplace.
  assert (0 < len s) by (destruct s; [done|]; rewrite len_cons; pose proof (len_nonneg s); lia).
  destruct b as [[w|] l [|c p]]; cbn [to_append_ buffer_writer_ to_prepend_].
  - destruct (was_reader w); [done|]. cbn. destruct (_ <? _); intros [= <-]; cbn; by left.
  - intros [= <-]. cbn. by left.
  - rewrite (proj2 (Z.ltb_lt _ _)) by done. intros [= <-]. cbn. by right; right.
  - intros [= <-]. cbn. by right; right.
Qed.

(** A builder with [pre] in front of its bytes, extracted. *)
Lemma builder_prepend_extract pre b :
  builder_fresh b -> pre <> [] ->
  exists b', builder_prepend pre b = Ok b' /\ builder_fresh b' /\
    builder_bytes b' = pre ++ builder_bytes b /\ builder_extract b' = Ok (pre ++ builder_bytes b).
Proof.
  intros Hf Hp. destruct (builder_prepend_bytes pre b Hf) as (b' & Hb & Hbytes & Hf').
  exists b'. split; [done|]. split; [done|]. split; [done|]. rewrite <- Hbytes.
  by eapply builder_extract_bytes, builder_prepend_some.
Qed.
