(* ===== verification/TlsFlow.v ===== *)
(** The reader of masked records: [TlsReaderByteFlow]
    ([td/td/mtproto/TlsReaderByteFlow.cpp]) inside the scheduling loop
    [ByteFlowBaseCommon::wakeup] ([tdutils/td/utils/ByteFlow.h]).

    [wakeup] calls [loop] as long as the input reaches the size that [loop]
    asked for.  The theorems: the flow delivers the payloads of exactly the
    complete records of the input, in order; delivery does not depend on how
    the input was cut when it arrived; and after a bad record header the flow
    stops for good, without delivering the records found by the same wakeup. *)
From S2P Require Import Prelude Bytes.
#[local] Open Scope Z_scope.

Definition record_prefix : bytes := hex [0x17; 0x03; 0x03].

(** One call of [TlsReaderByteFlow::loop]. *)
Inductive loop_result := LoopAgain (payload rest : bytes) | LoopNeed (size : Z) | LoopClose.

Definition tls_loop (input : bytes) : loop_result :=
  if len input <? 5 then LoopNeed 5
  else
    let buf := truncate 5 input in
    let it := substr_from 5 input in
    if bool_decide (truncate 3 buf <> record_prefix) then LoopClose
    else
      let size := Z.lor (Z.shiftl (b2z (nth_byte buf 3)) 8) (b2z (nth_byte buf 4)) in
      if len it <? size then LoopNeed (5 + size)
      else LoopAgain (truncate size it) (substr_from size it).

(** The state of the flow: its input, what [loop] asked for, the output that
    the next flow has not been woken up for yet, and [stop_flag_]. *)
Record flow := mk_flow {
  flow_input : bytes;
  need_size_ : Z;
  flow_output : bytes;
  stop_flag_ : bool;
}.

(** The loop of [wakeup] with the default watermarks, [can_write] always true;
    a pass that goes on consumes at least five bytes of input. *)
Fixpoint flow_passes (fuel : nat) (f : flow) : flow :=
  match fuel with
  | O => f
  | S fuel =>
      if stop_flag_ f then f
      else if len (flow_input f) <? need_size_ f then f
      else
        match tls_loop (flow_input f) with
        | LoopAgain payload rest => flow_passes fuel (mk_flow rest 0 (flow_output f ++ payload) false)
        | LoopNeed n =>
            let size := len (flow_input f) in
            flow_passes fuel
              (mk_flow (flow_input f) (if n <=? size then size + 1 else n) (flow_output f) false)
        | LoopClose => mk_flow (flow_input f) 0 (flow_output f) true
        end
  end.

Definition flow_fuel (f : flow) : nat := S (S (length (flow_input f))).

(** The whole [wakeup]; the second component is what the next flow reads when
    it is woken up at the end. A flow that has stopped wakes nobody. *)
Definition tls_wakeup (f : flow) : flow * bytes :=
  if stop_flag_ f then (f, [])
  else
    let f := flow_passes (flow_fuel f) f in
    if stop_flag_ f then (f, [])
    else (mk_flow (flow_input f) (need_size_ f) [] false, flow_output f).

Definition flow_receive (data : bytes) (f : flow) : flow :=
  mk_flow (flow_input f ++ data) (need_size_ f) (flow_output f) (stop_flag_ f).

Definition flow_start : flow := mk_flow [] 0 [] false.

(** * Records *)

Definition tls_record (payload : bytes) : bytes :=
  record_prefix ++ [z2b (Z.shiftr (len payload) 8); z2b (len payload)] ++ payload.

Lemma len_tls_record payload : len (tls_record payload) = 5 + len payload.
Proof.
  unfold tls_record. rewrite !len_app. change (len record_prefix) with 3.
  change (len [_; _]) with 2. lia.
Qed.

Lemma size_bytes n : 0 <= n < 2 ^ 16 ->
  Z.lor (Z.shiftl (b2z (z2b (Z.shiftr n 8))) 8) (b2z (z2b n)) = n.
Proof.
  intros Hn. rewrite !b2z_z2b. bits_to_arith. change (2 ^ 16) with 65536 in Hn.
  rewrite (Z.mod_small (n / 256)) by div_mod_lia.
  rewrite (Z_lor_add 8); [div_mod_lia|lia| |change (2 ^ 8) with 256; div_mod_lia].
  change (2 ^ 8) with 256. apply Z.mod_mul. lia.
Qed.

Lemma tls_loop_record payload rest :
  len payload < 2 ^ 16 -> tls_loop (tls_record payload ++ rest) = LoopAgain payload rest.
Proof.
  intros Hp. pose proof (len_nonneg payload). pose proof (len_nonneg rest).
  unfold tls_loop. rewrite (proj2 (Z.ltb_ge _ _)) by (rewrite len_app, len_tls_record; lia).
  unfold tls_record. set (a := z2b (Z.shiftr (len payload) 8)). set (b := z2b (len payload)).
  change (truncate 5 ((record_prefix ++ [a; b] ++ payload) ++ rest)) with (record_prefix ++ [a; b]).
  change (substr_from 5 ((record_prefix ++ [a; b] ++ payload) ++ rest)) with (payload ++ rest).
  cbn zeta. change (truncate 3 (record_prefix ++ [a; b])) with record_prefix.
  rewrite bool_decide_eq_false_2 by tauto.
  change (nth_byte (record_prefix ++ [a; b]) 3) with a.
  change (nth_byte (record_prefix ++ [a; b]) 4) with b. unfold a, b. rewrite size_bytes by lia.
  rewrite (proj2 (Z.ltb_ge _ _)) by (rewrite len_app; lia).
  unfold truncate, substr_from, len. by rewrite Nat2Z.id, take_app_length, drop_app_length.
Qed.

(** Only a record makes [loop] go on. *)
Lemma tls_loop_again input payload rest :
  tls_loop input = LoopAgain payload rest ->
  input = tls_record payload ++ rest /\ len payload < 2 ^ 16.
Proof.
  unfold tls_loop. destruct (Z.ltb_spec (len input) 5) as [|Hl]; [done|]. cbn zeta.
  destruct input as [|i0 [|i1 [|i2 [|a [|b it]]]]]; try (repeat rewrite len_cons in Hl; rewrite len_nil in Hl; lia).
  change (truncate 5 (i0 :: i1 :: i2 :: a :: b :: it)) with [i0; i1; i2; a; b].
  change (substr_from 5 (i0 :: i1 :: i2 :: a :: b :: it)) with it.
  change (truncate 3 [i0; i1; i2; a; b]) with [i0; i1; i2].
  change (nth_byte [i0; i1; i2; a; b] 3) with a. change (nth_byte [i0; i1; i2; a; b] 4) with b.
  case_bool_decide as Hp; [done|].
  pose proof (b2z_range a). pose proof (b2z_range b).
  rewrite (Z_lor_add 8) by (rewrite ?Z.shiftl_mul_pow2 by lia; change (2 ^ 8) with 256;
    first [lia | apply Z.mod_mul; lia]).
  bits_to_arith. set (n := b2z a * 256 + b2z b). destruct (Z.ltb_spec (len it) n) as [|Hn]; [done|].
  intros [= <- <-]. assert (Hlen : len (truncate n it) = n) by (unfold truncate; rewrite len_take; lia).
  split; [|lia]. unfold tls_record. rewrite Hlen. rewrite <- Hp.
  replace (z2b (Z.shiftr n 8)) with a.
  2: { symmetry. bits_to_arith. apply z2b_byte. unfold n. div_mod_lia. }
  replace (z2b n) with b by (symmetry; apply z2b_byte; unfold n; div_mod_lia).
  cbn. do 5 f_equal. unfold truncate, substr_from. by rewrite take_drop.
Qed.

(** Where [loop] asks for more, it still asks for the same with more input that
    does not reach that size, and never answers with an error. *)
Lemma tls_loop_need input n more :
  tls_loop input = LoopNeed n ->
  len input < n /\ 5 <= n /\
  (len (input ++ more) < n -> tls_loop (input ++ more) = LoopNeed n).
Proof.
  unfold tls_loop at 1. destruct (Z.ltb_spec (len input) 5) as [Hl|Hl].
  { intros [= <-]. split; [done|]. split; [lia|]. intros Hm.
    unfold tls_loop. by rewrite (proj2 (Z.ltb_lt _ _)). }
  cbn zeta.
  destruct input as [|i0 [|i1 [|i2 [|a [|b it]]]]]; try (repeat rewrite len_cons in Hl; rewrite len_nil in Hl; lia).
  change (truncate 5 (i0 :: i1 :: i2 :: a :: b :: it)) with [i0; i1; i2; a; b].
  change (substr_from 5 (i0 :: i1 :: i2 :: a :: b :: it)) with it.
  destruct (bool_decide (truncate 3 [i0; i1; i2; a; b] <> record_prefix)) eqn:Hp; [done|].
  set (size := Z.lor _ _). destruct (Z.ltb_spec (len it) size) as [Hn|]; [|done].
  intros [= <-]. rewrite !len_cons. pose proof (len_nonneg it). split; [lia|]. split; [lia|].
  intros Hm. unfold tls_loop.
  change ((i0 :: i1 :: i2 :: a :: b :: it) ++ more) with (i0 :: i1 :: i2 :: a :: b :: (it ++ more)) in *.
  rewrite (proj2 (Z.ltb_ge _ _)).
  2: { rewrite !len_cons. pose proof (len_nonneg (it ++ more)). lia. }
  change (truncate 5 (i0 :: i1 :: i2 :: a :: b :: it ++ more)) with [i0; i1; i2; a; b].
  change (substr_from 5 (i0 :: i1 :: i2 :: a :: b :: it ++ more)) with (it ++ more).
  cbn zeta. rewrite Hp. fold size. rewrite !len_cons in Hm.
  by rewrite (proj2 (Z.ltb_lt _ _)) by lia.
Qed.

Lemma tls_loop_close input more : tls_loop input = LoopClose -> tls_loop (input ++ more) = LoopClose.
Proof.
  unfold tls_loop at 1. destruct (Z.ltb_spec (len input) 5) as [|Hl]; [done|]. cbn zeta.
  destruct input as [|i0 [|i1 [|i2 [|a [|b it]]]]]; try (repeat rewrite len_cons in Hl; rewrite len_nil in Hl; lia).
  change (truncate 5 (i0 :: i1 :: i2 :: a :: b :: it)) with [i0; i1; i2; a; b].
  destruct (bool_decide (truncate 3 [i0; i1; i2; a; b] <> record_prefix)) eqn:Hp;
    [|by destruct (_ <? _)].
  intros _. unfold tls_loop. rewrite (proj2 (Z.ltb_ge _ _)).
  2: { rewrite len_app. pose proof (len_nonneg more). lia. }
  change ((i0 :: i1 :: i2 :: a :: b :: it) ++ more) with (i0 :: i1 :: i2 :: a :: b :: (it ++ more)).
  change (truncate 5 (i0 :: i1 :: i2 :: a :: b :: it ++ more)) with [i0; i1; i2; a; b].
  cbn zeta. by rewrite Hp.
Qed.

(** [input] is the records of [ps] and then [rest], which does not start with
    a complete record. *)
Record decodes (input : bytes) (ps : list bytes) (rest : bytes) : Prop := {
  decodes_eq : input = concat (map tls_record ps) ++ rest;
  decodes_small : Forall (fun p => len p < 2 ^ 16) ps;
  decodes_end : forall p r, tls_loop rest <> LoopAgain p r;
}.

Lemma decodes_cons p input ps rest :
  len p < 2 ^ 16 -> decodes input ps rest -> decodes (tls_record p ++ input) (p :: ps) rest.
Proof.
  intros Hp [-> Hs He]. split; [|by constructor|done]. cbn. by rewrite <- app_assoc.
Qed.

Lemma decodes_exists n : forall input, (length input <= n)%nat -> exists ps rest, decodes input ps rest.
Proof.
  induction n as [|n IH]; intros input Hn.
  - destruct input; [|cbn in Hn; lia]. exists [], []. by split.
  - destruct (tls_loop input) as [p r|m|] eqn:E.
    + destruct (tls_loop_again _ _ _ E) as [-> Hp]. destruct (IH r) as (ps & rest & Hd).
      { rewrite length_app in Hn. assert (5 <= length (tls_record p))%nat; [|lia].
        pose proof (len_tls_record p). pose proof (len_nonneg p). unfold len in *. lia. }
      exists (p :: ps), rest. by apply decodes_cons.
    + exists [], input. split; [done|done|]. by rewrite E.
    + exists [], input. split; [done|done|]. by rewrite E.
Qed.

Lemma decodes_step input ps rest :
  decodes input ps rest ->
  match ps with
  | [] => input = rest
  | p :: ps => exists r, tls_loop input = LoopAgain p r /\ decodes r ps rest
  end.
Proof.
  intros [Heq Hs He]. destruct ps as [|p ps]; [done|].
  inversion Hs as [|? ? Hp Hs']; subst. exists (concat (map tls_record ps) ++ rest). split.
  - cbn. rewrite <- app_assoc. by apply tls_loop_record.
  - by split.
Qed.

Lemma decodes_unique ps : forall input rest ps' rest',
  decodes input ps rest -> decodes input ps' rest' -> ps = ps' /\ rest = rest'.
Proof.
  induction ps as [|p ps IH]; intros input rest [|p' ps'] rest' H H';
    pose proof (decodes_step _ _ _ H) as S1; pose proof (decodes_step _ _ _ H') as S2; cbn in S1, S2.
  - split; congruence.
  - destruct S2 as (r & E & _). subst. destruct H. naive_solver.
  - destruct S1 as (r & E & _). subst. destruct H'. naive_solver.
  - destruct S1 as (r & E & D), S2 as (r' & E' & D'). rewrite E in E'. injection E' as <- <-.
    destruct (IH _ _ _ _ D D') as [-> ->]. done.
Qed.

Lemma decodes_app a b ps r ps' r' :
  decodes a ps r -> decodes (r ++ b) ps' r' -> decodes (a ++ b) (ps ++ ps') r'.
Proof.
  intros [-> Hs _] [Heq Hs' He]. split; [|by apply Forall_app|done].
  by rewrite map_app, concat_app, <- !app_assoc, Heq.
Qed.

(** * Delivery *)

(** Between two wakeups: nothing is kept back, and the flow waits for a size
    only while [loop] needs it. *)
Definition flow_ok (f : flow) : Prop :=
  stop_flag_ f = false /\ flow_output f = [] /\
  (len (flow_input f) < need_size_ f -> tls_loop (flow_input f) = LoopNeed (need_size_ f)).

Lemma flow_receive_ok data f : flow_ok f -> flow_ok (flow_receive data f).
Proof.
  intros (Hs & Ho & Hn). split; [done|]. split; [done|]. cbn. intros Hl.
  assert (len (flow_input f) < need_size_ f) as Hl'.
  { rewrite len_app in Hl. pose proof (len_nonneg data). lia. }
  by apply (proj2 (proj2 (tls_loop_need _ _ data (Hn Hl')))).
Qed.

Lemma flow_passes_records ps : forall fuel input out rest,
  decodes input ps rest -> (length input + 2 <= fuel)%nat ->
  exists k, (length rest + 2 <= k)%nat /\
    flow_passes fuel (mk_flow input 0 out false) = flow_passes k (mk_flow rest 0 (out ++ concat ps) false).
Proof.
  induction ps as [|p ps IH]; intros fuel input out rest Hd Hf; pose proof (decodes_step _ _ _ Hd) as Hs.
  - cbn in Hs. subst rest. exists fuel. split; [done|]. by rewrite app_nil_r.
  - destruct Hs as (r & E & Hr). pose proof (proj1 (tls_loop_again _ _ _ E)) as Ei.
    assert (Hlr : (length r + 5 <= length input)%nat).
    { rewrite Ei, length_app. pose proof (len_tls_record p). pose proof (len_nonneg p).
      unfold len in *. lia. }
    destruct fuel as [|fuel]; [lia|].
    destruct (IH fuel r (out ++ p) rest Hr ltac:(lia)) as (k & Hk & Hp).
    exists k. split; [done|]. cbn [flow_passes stop_flag_ flow_input need_size_].
    rewrite (proj2 (Z.ltb_ge _ _)) by apply len_nonneg. rewrite E. cbn [flow_output].
    rewrite Hp. cbn. by rewrite <- app_assoc.
Qed.

(** One wakeup delivers the payloads of the complete records, in order; after
    a bad header it delivers nothing and stops. *)
Lemma tls_wakeup_delivers f ps rest :
  flow_ok f -> decodes (flow_input f) ps rest ->
  match tls_loop rest with
  | LoopNeed n => exists need, tls_wakeup f = (mk_flow rest need [] false, concat ps) /\
                               flow_ok (mk_flow rest need [] false)
  | _ => stop_flag_ (tls_wakeup f).1 = true /\ (tls_wakeup f).2 = []
  end.
Proof.
  intros (Hs & Ho & Hn) Hd. unfold tls_wakeup. rewrite Hs.
  destruct (Z.lt_ge_cases (len (flow_input f)) (need_size_ f)) as [Hlt|Hge].
  - specialize (Hn Hlt). pose proof (decodes_step _ _ _ Hd) as Hst.
    destruct ps as [|p ps]; [|destruct Hst as (r & E & _); congruence]. cbn in Hst. subst rest.
    rewrite Hn. unfold flow_fuel. cbn [flow_passes]. rewrite Hs, (proj2 (Z.ltb_lt _ _) Hlt), Hs.
    exists (need_size_ f). rewrite Ho. split; [done|]. split; [done|]. by split.
  - assert (Hp : flow_passes (flow_fuel f) f =
                 flow_passes (flow_fuel f) (mk_flow (flow_input f) 0 [] false)).
    { unfold flow_fuel. cbn [flow_passes stop_flag_ flow_input need_size_ flow_output].
      rewrite Hs, Ho, (proj2 (Z.ltb_ge _ _) Hge). by rewrite (proj2 (Z.ltb_ge _ 0)) by apply len_nonneg. }
    rewrite Hp. destruct (flow_passes_records ps (flow_fuel f) (flow_input f) [] rest Hd) as (k & Hk & ->).
    { unfold flow_fuel. lia. }
    destruct k as [|[|k]]; [lia..|]. cbn [app flow_passes stop_flag_ flow_input need_size_ flow_output].
    rewrite (proj2 (Z.ltb_ge _ 0)) by apply len_nonneg.
    destruct (tls_loop rest) as [p r|n|] eqn:E; [by destruct (decodes_end _ _ _ Hd p r)| |done].
    destruct (tls_loop_need rest n [] E) as (Hl & _ & _).
    rewrite (proj2 (Z.leb_gt _ _)), (proj2 (Z.ltb_lt _ _)) by lia. cbn.
    exists n. split; [done|]. split; [done|]. by split.
Qed.

(** Bytes arrive in pieces, each followed by a wakeup. *)
Fixpoint flow_run (pieces : list bytes) (f : flow) : flow * bytes :=
  match pieces with
  | [] => (f, [])
  | piece :: pieces =>
      let '(f, out) := tls_wakeup (flow_receive piece f) in
      let '(f, outs) := flow_run pieces f in
      (f, out ++ outs)
  end.

Lemma flow_run_delivers pieces : forall f ps rest n,
  flow_ok f -> decodes (flow_input f) [] (flow_input f) ->
  decodes (flow_input f ++ concat pieces) ps rest -> tls_loop rest = LoopNeed n ->
  (flow_run pieces f).2 = concat ps /\ flow_input (flow_run pieces f).1 = rest /\
  flow_ok (flow_run pieces f).1.
Proof.
  induction pieces as [|piece pieces IH]; intros f ps rest n Hok H0 Hd Hend.
  - cbn in Hd. rewrite app_nil_r in Hd. by destruct (decodes_unique _ _ _ _ _ Hd H0) as [-> ->].
  - cbn [flow_run concat] in *.
    destruct (decodes_exists _ (flow_input (flow_receive piece f)) (le_n _)) as (ps1 & r1 & Hd1).
    pose proof (flow_receive_ok piece f Hok) as Hok1.
    pose proof (tls_wakeup_delivers _ _ _ Hok1 Hd1) as Hw. cbn [flow_receive flow_input] in Hd1.
    destruct (decodes_exists _ (r1 ++ concat pieces) (le_n _)) as (ps2 & r2 & Hd2).
    pose proof (decodes_app _ _ _ _ _ _ Hd1 Hd2) as Hd12. rewrite <- app_assoc in Hd12.
    destruct (decodes_unique _ _ _ _ _ Hd Hd12) as [-> ->].
    destruct (tls_loop r1) as [p r|m|] eqn:E1.
    + by destruct (decodes_end _ _ _ Hd1 p r).
    + destruct Hw as (need & -> & Hok2).
      destruct (IH _ ps2 r2 n Hok2) as (Ho & Hi & Hok3); [| |done|].
      { cbn. split; [done|done|]. by rewrite E1. }
      { exact Hd2. }
      destruct (flow_run pieces _) as [f' outs]. cbn in Ho, Hi, Hok3 |- *. rewrite Ho, concat_app. done.
    + exfalso. pose proof (tls_loop_close _ (concat pieces) E1) as Ec.
      pose proof (decodes_step _ _ _ Hd2) as Hst. destruct ps2 as [|p ps2].
      * cbn in Hst. congruence.
      * destruct Hst as (r & E & _). congruence.
Qed.

(** However the input is cut into pieces, the flow delivers the payloads of
    the complete records in order and keeps the incomplete one. *)
Theorem tls_flow_chunking (pieces ps : list bytes) (partial : bytes) (n : Z) :
  Forall (fun p => len p < 2 ^ 16) ps -> tls_loop partial = LoopNeed n ->
  concat pieces = concat (map tls_record ps) ++ partial ->
  (flow_run pieces flow_start).2 = concat ps /\
  flow_input (flow_run pieces flow_start).1 = partial /\
  stop_flag_ (flow_run pieces flow_start).1 = false.
Proof.
  intros Hps Hn Hc.
  assert (Hd : decodes (concat pieces) ps partial) by (split; [done|done|by rewrite Hn]).
  assert (H0 : decodes [] [] []) by (split; [done|done|by vm_compute]).
  assert (Hok : flow_ok flow_start) by (split; [done|]; split; [done|]; intros Hl; by vm_compute in Hl).
  destruct (flow_run_delivers pieces flow_start ps partial n Hok H0 Hd Hn) as (Ho & Hi & Hs & _).
  done.
Qed.

Lemma flow_run_stopped pieces f : stop_flag_ f = true ->
  (flow_run pieces f).2 = [] /\ stop_flag_ (flow_run pieces f).1 = true.
Proof.
  revert f. induction pieces as [|p pieces IH]; intros f Hs; [done|]. cbn. unfold tls_wakeup at 1 2.
  cbn [flow_receive stop_flag_]. rewrite Hs.
  destruct (IH (flow_receive p f) Hs) as [Ho Hst]. destruct (flow_run pieces _) as [f' outs].
  cbn in *. by rewrite Ho.
Qed.

(** A bad record header stops the flow for good: nothing is delivered by
    that wakeup, not even the complete records in front of the bad one, nor by
    any later one. *)
Theorem tls_flow_bad_record (f : flow) (piece bad : bytes) (ps more : list bytes) :
  flow_ok f -> Forall (fun p => len p < 2 ^ 16) ps -> tls_loop bad = LoopClose ->
  flow_input f ++ piece = concat (map tls_record ps) ++ bad ->
  (flow_run (piece :: more) f).2 = [] /\ stop_flag_ (flow_run (piece :: more) f).1 = true.
Proof.
  intros Hok Hps Hbad Heq.
  assert (Hd : decodes (flow_input (flow_receive piece f)) ps bad)
    by (split; [done|done|by rewrite Hbad]).
  pose proof (tls_wakeup_delivers _ _ _ (flow_receive_ok piece f Hok) Hd) as Hw. rewrite Hbad in Hw.
  cbn [flow_run]. destruct (tls_wakeup (flow_receive piece f)) as [f' out]. destruct Hw as [Hs Ho].
  cbn in Hs, Ho. subst out. destruct (flow_run_stopped more f' Hs) as [Hr Hst].
  destruct (flow_run more f') as [f'' outs]. cbn in *. by subst.
Qed.

Lemma tls_flow_chunking_witness :
  let r := flow_run [hex [0x17; 3]; hex [3; 0; 1; 7; 0x17; 3; 3; 0; 2]; hex [8]] flow_start in
  r.2 = hex [7] /\ flow_input r.1 = hex [0x17; 3; 3; 0; 2; 8] /\ stop_flag_ r.1 = false.
Proof.
  apply (tls_flow_chunking _ [hex [7]] _ 7); [repeat constructor | reflexivity | reflexivity].
Defined.

Lemma tls_flow_bad_record_witness :
  let r := flow_run [hex [0x17; 3; 3; 0; 1; 7; 0x15; 3; 3; 0; 2]; tls_record (hex [9])] flow_start in
  r.2 = [] /\ stop_flag_ r.1 = true.
Proof.
  apply (tls_flow_bad_record flow_start _ (hex [0x15; 3; 3; 0; 2]) [hex [7]]).
  - repeat split; vm_compute; congruence.
  - repeat constructor.
  - reflexivity.
  - reflexivity.
Defined.

(** Whole records in one piece. *)
Lemma tls_flow_output data ps :
  Forall (fun p => len p < 2 ^ 16) ps -> data = concat (map tls_record ps) ->
  (flow_run [data] flow_start).2 = concat ps.
Proof.
  intros Hps ->. assert (Hd : decodes (concat (map tls_record ps)) ps [])
    by (split; [by rewrite app_nil_r|done|done]).
  assert (Hok : flow_ok flow_start) by (split; [done|]; split; [done|]; intros Hl; by vm_compute in Hl).
  pose proof (tls_wakeup_delivers (flow_receive (concat (map tls_record ps)) flow_start) ps []
    (flow_receive_ok _ _ Hok) Hd) as Hw.
  cbn [flow_run]. change (tls_loop []) with (LoopNeed 5) in Hw.
  destruct Hw as (need & Hw & _). rewrite Hw. apply app_nil_r.
Qed.
