(* ===== verification/TcpTransport.v ===== *)
(** The stream transports: [td/td/mtproto/TcpTransport.{h,cpp}].

    [IntermediateTransport] frames messages; [ObfuscatedTransport] encrypts the
    frames with AES-CTR under keys that its 64-byte header carries, and wraps
    the result in TLS records when the proxy secret asks for it.  The last
    section puts the two ends together: what a sequence of [write]s sends,
    a proxy that reads the header and removes the layers gets back. *)
From S2P Require Import Prelude Bytes Random ProxySecret DpiBypass Crypto Buffer TlsFlow.
#[local] Open Scope Z_scope.

(** * [IntermediateTransport] *)

(** [read_from_stream]: the returned size (0 when a message or a quick
    acknowledgement was taken), the rest of the stream, and what was taken. *)
Record read_result := mk_read {
  read_need : Z;
  read_stream : bytes;
  read_message : option bytes;
  read_quick_ack : option Z;
}.

Definition read_from_stream (stream : bytes) : read_result :=
  let header_size := 4 in
  if len stream <? header_size then mk_read header_size stream None None
  else
    let data_size := le_load (truncate header_size stream) in
    if Z.testbit data_size 31 then
      mk_read 0 (substr_from header_size stream) None (Some data_size)
    else
      let total_size := data_size + header_size in
      if len stream <? total_size then mk_read total_size stream None None
      else
        let stream := substr_from header_size stream in
        mk_read 0 (substr_from data_size stream) (Some (truncate data_size stream)) None.

Section intermediate.
Context {G : Type} `{RandomSource G}.

Definition write_prepare_inplace (with_padding : bool) (message : BufferWriter) (quick_ack : bool) (g : G)
  : outcome (BufferWriter * G) :=
  let size := len (contents message) in
  _ ← check (size mod 4 =? 0);
  _ ← check (size <? 2 ^ 24);
  let size := if quick_ack then Z.lor size (2 ^ 31) else size in
  message ← writer_prepend (zeros 4) message;
  let '(r, g) := if with_padding then secure_uint32 g else (0, g) in
  let append_size := if with_padding then r mod 16 else 0 in
  let '(padding, g) := if with_padding then secure_bytes append_size g else ([], g) in
  message ← (if with_padding then writer_append padding message else Ok message);
  Ok (mk_writer (room_before message)
        (write_at 0 (le_store 4 (uint32 (size + append_size))) (contents message))
        (room_after message) (was_reader message), g).

Definition init_output_stream (with_padding : bool) : bytes :=
  le_store 4 (if with_padding then 0xdddddddd else 0xeeeeeeee).
End intermediate.

(** * [ObfuscatedTransport] *)

Record transport (S : Type) := mk_transport {
  dc_id_ : Z;
  secret_of : ProxySecret;
  is_first_tls_packet_ : bool;
  max_tls_packet_length_ : Z;
  header_ : bytes;
  output_state_ : S;
  output_ : bytes;
  tls_reader : flow;
  aes_ctr_state : S;
  byte_flow_sink_ : bytes;
}.
Arguments mk_transport {S}.
Arguments dc_id_ {S}.
Arguments secret_of {S}.
Arguments is_first_tls_packet_ {S}.
Arguments max_tls_packet_length_ {S}.
Arguments header_ {S}.
Arguments output_state_ {S}.
Arguments output_ {S}.
Arguments tls_reader {S}.
Arguments aes_ctr_state {S}.
Arguments byte_flow_sink_ {S}.

Definition MAX_TLS_PACKET_LENGTH : Z := 2878.

(** The first bytes of other protocols, which a header must not look like. *)
Definition header_forbidden (header : bytes) : bool :=
  let first_int := le_load (substr 0 4 header) in
  let second_int := le_load (substr 4 4 header) in
  (b2z (nth_byte header 0) =? 0xef)
  || existsb (Z.eqb first_int)
       [0x44414548; 0x54534f50; 0x20544547; 0x4954504f; 0xdddddddd; 0xeeeeeeee; 0x02010316]
  || (second_int =? 0).

Definition with_padding {S} (t : transport S) : bool := use_random_padding (secret_of t).

Section obfuscated.
Context {B : DpiBuild} {S : Type} `{AesCtr S} `{Sha} {G : Type} `{RandomSource G}.

(** The [while (true)] loop with [CHECK(try_cnt < 10)]: [tries] passes are left. *)
Fixpoint choose_header (tries : nat) (emulate : bool) (g : G) : outcome (bytes * G) :=
  match tries with
  | O => Crash
  | Datatypes.S tries =>
      let '(header, g) := secure_bytes 64 g in
      if emulate then Ok (header, g)
      else if header_forbidden header then choose_header tries emulate g
      else Ok (header, g)
  end.

Definition mark_header (padding : bool) (dc_id : Z) (header : bytes) : bytes :=
  let header := write_at 56 (init_output_stream padding) header in
  if dc_id =? 0 then header else write_at 60 (le_store 2 (uint16 dc_id)) header.

(** [fix_key]. *)
Definition fix_key (proxy_secret key : bytes) : bytes :=
  if len proxy_secret =? 0 then key else sha256 (key ++ proxy_secret).

Definition stream_state (secret : ProxySecret) (header : bytes) : S :=
  ctr_init (fix_key (get_proxy_secret secret) (substr 8 32 header)) (substr 40 16 header).

Definition init (dc_id : Z) (secret : ProxySecret) (g : G) : outcome (transport S * G) :=
  r ← choose_header 9 (emulate_tls secret) g;
  let '(header, g) := r in
  let header := mark_header (use_random_padding secret) dc_id header in
  let aes := stream_state secret (reverse header) in
  let '(max_length, g) :=
    if emulate_tls secret then pick_random_record_size MAX_TLS_PACKET_LENGTH g
    else (MAX_TLS_PACKET_LENGTH, g) in
  let '(encrypted, out) := ctr_encrypt header (stream_state secret header) in
  Ok (mk_transport dc_id secret true max_length
        (write_at 56 (substr_from 56 encrypted) header) out [] flow_start aes [], g).

Definition set_output (header : bytes) (first : bool) (output : bytes) (t : transport S) : transport S :=
  mk_transport (dc_id_ t) (secret_of t) first (max_tls_packet_length_ t) header (output_state_ t)
    output (tls_reader t) (aes_ctr_state t) (byte_flow_sink_ t).

Definition set_output_state (s : S) (t : transport S) : transport S :=
  mk_transport (dc_id_ t) (secret_of t) (is_first_tls_packet_ t) (max_tls_packet_length_ t) (header_ t)
    s (output_ t) (tls_reader t) (aes_ctr_state t) (byte_flow_sink_ t).

Definition set_sink (f : flow) (aes : S) (sink : bytes) (t : transport S) : transport S :=
  mk_transport (dc_id_ t) (secret_of t) (is_first_tls_packet_ t) (max_tls_packet_length_ t) (header_ t)
    (output_state_ t) (output_ t) f aes sink.

(** [if (!header_.empty()) { builder.prepend(header_); header_ = {}; }]. *)
Definition prepend_header (b : BufferBuilder) (t : transport S) : outcome BufferBuilder :=
  if len (header_ t) =? 0 then Ok b else builder_prepend (header_ t) b.

Definition do_write_main (message : BufferWriter) (t : transport S) : outcome (transport S) :=
  b ← prepend_header (builder_of message) t;
  out ← builder_extract b;
  Ok (set_output [] (is_first_tls_packet_ t) (output_ t ++ out) t).

Definition change_cipher_spec : bytes := hex [0x14; 0x03; 0x03; 0x00; 0x01; 0x01].

(** [do_write_tls(BufferBuilder &&)]. *)
Definition do_write_tls_builder (b : BufferBuilder) (t : transport S) : outcome (transport S) :=
  b ← prepend_header b t;
  let size := builder_size b in
  _ ← check (size <=? max_tls_packet_length_ t);
  b ← builder_prepend (record_prefix ++ [z2b (Z.land (Z.shiftr size 8) 0xff); z2b (Z.land size 0xff)]) b;
  b ← (if is_first_tls_packet_ t then builder_prepend change_cipher_spec b else Ok b);
  out ← builder_extract b;
  Ok (set_output [] false (output_ t ++ out) t).

(** The [while (!slice.empty())] loop; a pass takes at least one byte. *)
Fixpoint write_slices (fuel : nat) (slice : bytes) (t : transport S) : outcome (transport S) :=
  match slice, fuel with
  | [], _ => Ok t
  | _, O => Crash
  | _, Datatypes.S fuel =>
      let buf := substr 0 (max_tls_packet_length_ t - len (header_ t)) slice in
      t ← do_write_tls_builder (builder_append buf empty_builder) t;
      write_slices fuel (substr_from (len buf) slice) t
  end.

(** [do_write_tls(BufferWriter &&)]. *)
Definition do_write_tls (message : BufferWriter) (t : transport S) : outcome (transport S) :=
  _ ← check (len (header_ t) <=? max_tls_packet_length_ t);
  if max_tls_packet_length_ t <? len (contents message) + len (header_ t)
  then write_slices (length (contents message)) (contents message) t
  else do_write_tls_builder (builder_of message) t.

Definition write (message : BufferWriter) (quick_ack : bool) (t : transport S) (g : G)
  : outcome (transport S * G) :=
  r ← write_prepare_inplace (with_padding t) message quick_ack g;
  let '(message, g) := r in
  let '(encrypted, out) := ctr_encrypt (contents message) (output_state_ t) in
  let message := mk_writer (room_before message) encrypted (room_after message) (was_reader message) in
  let t := set_output_state out t in
  t ← (if emulate_tls (secret_of t) then do_write_tls message t else do_write_main message t);
  Ok (t, g).

(** [read_next]: the flows run on what has arrived, then a message is taken
    from the sink. The AES flow has no boundaries of its own. *)
Definition wakeup_flows (t : transport S) : transport S :=
  let '(f, ready) :=
    if emulate_tls (secret_of t) then tls_wakeup (tls_reader t)
    else (mk_flow [] 0 [] (stop_flag_ (tls_reader t)), flow_input (tls_reader t)) in
  let '(plain, aes) := ctr_encrypt ready (aes_ctr_state t) in
  set_sink f aes (byte_flow_sink_ t ++ plain) t.

Definition read_next (t : transport S) : read_result * transport S :=
  let t := wakeup_flows t in
  let r := read_from_stream (byte_flow_sink_ t) in
  (r, set_sink (tls_reader t) (aes_ctr_state t) (read_stream r) t).

Definition max_prepend_size (t : transport S) : Z :=
  let res := 4 in
  let res := if emulate_tls (secret_of t) then res + 5 + (if is_first_tls_packet_ t then 6 else 0) else res in
  let res := res + len (header_ t) in
  if Z.land res 3 =? 0 then res else res + (4 - Z.land res 3).

Definition max_append_size : Z := 15.
End obfuscated.

(** * Frames *)

(** What [write_prepare_inplace] makes of a message. *)
Definition frame (quick_ack : bool) (message padding : bytes) : bytes :=
  let size := if quick_ack then Z.lor (len message) (2 ^ 31) else len message in
  le_store 4 (uint32 (size + len padding)) ++ message ++ padding.

(** A message buffer that the callers may hand to [write]. *)
Record message_ok (m : BufferWriter) : Prop := {
  message_aligned : len (contents m) mod 4 = 0;
  message_small : len (contents m) < 2 ^ 24;
  message_unread : was_reader m = false;
  message_front : 4 <= room_before m;
  message_back : 15 <= room_after m;
}.

Section frames.
Context {G : Type} `{RandomLaws G}.

Lemma write_prepare_inplace_ok padded m quick_ack (g : G) :
  message_ok m -> exists m' g' padding,
    write_prepare_inplace padded m quick_ack g = Ok (m', g') /\
    contents m' = frame quick_ack (contents m) padding /\
    len padding <= 15 /\ (padded = false -> padding = []) /\ was_reader m' = false.
Proof.
  intros [Ha Hs Hr Hf Hb]. unfold write_prepare_inplace, writer_prepend.
  rewrite (proj2 (Z.eqb_eq _ _) Ha), (proj2 (Z.ltb_lt _ _) Hs), Hr. cbn [negb check]. rewrite !Ok_bind.
  change (len (zeros 4)) with 4. rewrite (proj2 (Z.leb_le _ _) Hf). unfold check. rewrite !Ok_bind.
  assert (Hw : forall pad : bytes, write_at 0 (le_store 4 (uint32 ((if quick_ack then
      Z.lor (len (contents m)) (2 ^ 31) else len (contents m)) + len pad))) ((zeros 4 ++ contents m) ++ pad)
      = frame quick_ack (contents m) pad).
  { intros pad. rewrite <- app_assoc. apply (write_at_app' 0 [] (zeros 4)); [done|].
    rewrite len_le_store. reflexivity. }
  destruct padded.
  - pose proof (secure_uint32_range g) as Hu. destruct (secure_uint32 g) as [u g1]. cbn [fst] in Hu.
    pose proof (Z.mod_pos_bound u 16 ltac:(lia)) as Hm.
    pose proof (len_secure_bytes (u mod 16) g1 ltac:(lia)) as Hl.
    destruct (secure_bytes (u mod 16) g1) as [pad g2]. cbn [fst] in Hl.
    unfold writer_append. cbn [room_after]. rewrite (proj2 (Z.leb_le _ _)) by lia.
    unfold check. rewrite Ok_bind. cbn [contents room_before room_after was_reader]. rewrite Ok_bind.
    eexists _, g2, pad. split; [reflexivity|]. cbn [contents was_reader].
    rewrite <- Hl, Hw. split; [reflexivity|]. split; [lia|]. by split; [discriminate|].
  - rewrite Ok_bind. cbn [contents room_before room_after was_reader].
    eexists _, g, []. split; [reflexivity|]. cbn [contents was_reader].
    rewrite <- (app_nil_r (zeros 4 ++ _)). split; [apply (Hw [])|]. by repeat split.
Qed.

Lemma len_frame q m p : len (frame q m p) = 4 + len m + len p.
Proof. unfold frame. rewrite !len_app, len_le_store. lia. Qed.

Lemma frame_header (m padding : bytes) :
  len m + len padding < 2 ^ 31 ->
  le_load (le_store 4 (uint32 (len m + len padding))) = len m + len padding /\
  Z.testbit (len m + len padding) 31 = false.
Proof.
  intros Hl. pose proof (len_nonneg m). pose proof (len_nonneg padding).
  rewrite le_load_store. change (256 ^ Z.of_nat 4) with (2 ^ 32). unfold uint32.
  rewrite Z.mod_mod, Z.mod_small by lia. split; [done|].
  rewrite Z.testbit_false by lia. by rewrite Z.div_small by lia.
Qed.

(** A frame without a quick-acknowledgement request is read back with its
    padding, and the stream goes on behind it. *)
Lemma read_frame (m padding rest : bytes) :
  len m + len padding < 2 ^ 31 ->
  read_from_stream (frame false m padding ++ rest) = mk_read 0 rest (Some (m ++ padding)) None.
Proof.
  intros Hl. destruct (frame_header m padding Hl) as [Hh Hb].
  unfold read_from_stream. pose proof (len_nonneg rest). pose proof (len_nonneg m).
  pose proof (len_nonneg padding).
  rewrite (proj2 (Z.ltb_ge _ _)) by (rewrite len_app, len_frame; lia).
  unfold frame. set (h := le_store 4 _) in *. rewrite <- !app_assoc.
  assert (Hlh : len h = 4) by apply len_le_store.
  assert (Ht : truncate 4 (h ++ m ++ padding ++ rest) = h).
  { unfold truncate. apply take_app_length'. unfold len in Hlh. lia. }
  assert (Hd : substr_from 4 (h ++ m ++ padding ++ rest) = m ++ padding ++ rest).
  { unfold substr_from. apply drop_app_length'. unfold len in Hlh. lia. }
  rewrite Ht, Hd, Hh, Hb. cbn zeta.
  rewrite (proj2 (Z.ltb_ge _ _)) by (rewrite !len_app; lia).
  rewrite (app_assoc m). unfold truncate, substr_from.
  replace (Z.to_nat (len m + len padding)) with (length (m ++ padding))
    by (rewrite <- len_app; unfold len; lia).
  by rewrite take_app_length, drop_app_length.
Qed.

(** On a proper prefix of a frame the reader takes nothing and asks for more
    than it has, but never for more than the frame. *)
Lemma read_frame_prefix (m padding front back : bytes) :
  len m + len padding < 2 ^ 31 -> front ++ back = frame false m padding -> back <> [] ->
  exists need, read_from_stream front = mk_read need front None None /\
    len front < need <= len (frame false m padding).
Proof.
  intros Hl E Hb. pose proof (f_equal len E) as El. rewrite len_app in El.
  assert (0 < len back) by (destruct back; [done|]; rewrite len_cons; pose proof (len_nonneg back); lia).
  rewrite len_frame in *. pose proof (len_nonneg m). pose proof (len_nonneg padding).
  unfold read_from_stream. destruct (Z.ltb_spec (len front) 4) as [|Hf].
  { exists 4. split; [done|lia]. }
  destruct (frame_header m padding Hl) as [Hh Hbit].
  assert (Ht : truncate 4 front = le_store 4 (uint32 (len m + len padding))).
  { unfold frame in E. set (h := le_store 4 _) in *.
    assert (Hlh : length h = 4%nat) by apply length_le_store.
    apply (f_equal (take 4)) in E. rewrite take_app_le in E by (unfold len in Hf; lia).
    rewrite (take_app_length' h) in E by done. exact E. }
  rewrite Ht, Hh, Hbit. cbn zeta. rewrite (proj2 (Z.ltb_lt _ _)) by lia.
  exists (len m + len padding + 4). split; [done|lia].
Qed.
End frames.

(** * What is sent *)

Section sending.
Context {B : DpiBuild} {S : Type} `{AesCtrLaws S} `{ShaLaws} {G : Type} `{RandomLaws G}.

(** The bytes on the wire for a chunked byte string: masked records behind a
    change_cipher_spec record, or the bytes themselves. *)
Definition wire (emulate first : bool) (chunks : list bytes) : bytes :=
  if emulate then
    match chunks with
    | [] => []
    | _ => (if first then change_cipher_spec else []) ++ concat (map tls_record chunks)
    end
  else concat chunks.

Lemma tls_size_bytes n : z2b (Z.land (Z.shiftr n 8) 0xff) = z2b (Z.shiftr n 8) /\
                         z2b (Z.land n 0xff) = z2b n.
Proof. change 0xff with 255. rewrite !land_255. by rewrite !z2b_mod. Qed.

Lemma prepend_header_ok b (t : transport S) :
  builder_fresh b -> exists b', prepend_header b t = Ok b' /\ builder_fresh b' /\
    builder_bytes b' = header_ t ++ builder_bytes b /\
    (header_ t = [] -> b' = b) /\
    (header_ t <> [] -> builder_extract b' = Ok (builder_bytes b')).
Proof.
  intros Hf. unfold prepend_header. destruct (Z.eqb_spec (len (header_ t)) 0) as [E|E].
  - apply len_zero_nil in E. rewrite E. exists b. by split.
  - assert (Hne : header_ t <> []) by (intros E'; by rewrite E' in E).
    destruct (builder_prepend_extract (header_ t) b Hf Hne) as (b' & Hb & Hf' & Hbytes & Hex).
    exists b'. rewrite Hbytes. by repeat split.
Qed.

Lemma do_write_tls_builder_ok b (t : transport S) :
  builder_fresh b -> len (header_ t) + len (builder_bytes b) <= max_tls_packet_length_ t ->
  do_write_tls_builder b t =
    Ok (set_output [] false
          (output_ t ++ (if is_first_tls_packet_ t then change_cipher_spec else [])
           ++ tls_record (header_ t ++ builder_bytes b)) t).
Proof.
  intros Hf Hl. unfold do_write_tls_builder.
  destruct (prepend_header_ok b t Hf) as (b1 & -> & Hf1 & Hb1 & _). rewrite Ok_bind. cbn zeta.
  rewrite builder_size_bytes, Hb1, len_app, (proj2 (Z.leb_le _ _) Hl). unfold check.
  rewrite Ok_bind, <- len_app.
  destruct (tls_size_bytes (len (header_ t ++ builder_bytes b))) as [-> ->].
  set (pre := record_prefix ++ _).
  destruct (builder_prepend_extract pre b1 Hf1) as (b2 & -> & Hf2 & Hb2 & Hx2); [done|].
  rewrite Ok_bind. rewrite Hb1 in Hb2, Hx2.
  assert (Hrec : pre ++ header_ t ++ builder_bytes b = tls_record (header_ t ++ builder_bytes b)).
  { unfold pre, tls_record. by rewrite <- app_assoc. }
  rewrite Hrec in *.
  destruct (is_first_tls_packet_ t).
  - destruct (builder_prepend_extract change_cipher_spec b2 Hf2) as (b3 & -> & _ & _ & Hx3); [done|].
    rewrite Ok_bind, Hx3, Ok_bind, Hb2. done.
  - rewrite Ok_bind, Hx2, Ok_bind. done.
Qed.

(** The splitting loop. *)
Lemma write_slices_ok fuel : forall slice (t : transport S),
  (length slice <= fuel)%nat -> slice <> [] -> len (header_ t) < max_tls_packet_length_ t ->
  exists chunks, chunks <> [] /\ concat chunks = header_ t ++ slice /\
    Forall (fun c => len c <= max_tls_packet_length_ t) chunks /\
    write_slices fuel slice t =
      Ok (set_output [] false (output_ t ++ wire true (is_first_tls_packet_ t) chunks) t).
Proof.
  induction fuel as [|fuel IH]; intros slice t Hf Hne Hh.
  { destruct slice; [done|cbn in Hf; lia]. }
  destruct slice as [|x slice]; [done|]. cbn [write_slices].
  set (s := x :: slice) in *. set (n := max_tls_packet_length_ t - len (header_ t)).
  assert (Hs : 0 < len s) by (unfold s; rewrite len_cons; pose proof (len_nonneg slice); lia).
  set (buf := substr 0 n s).
  assert (Hbl : len buf = Z.min n (len s)).
  { unfold buf. rewrite substr_0. unfold truncate. rewrite len_take; lia. }
  assert (Hsplit : s = buf ++ substr_from (len buf) s).
  { unfold buf. rewrite substr_0. symmetry. apply truncate_split. }
  destruct (builder_append_bytes buf empty_builder) as [Hb0 Hf0]. cbn [app] in Hb0.
  change (builder_bytes empty_builder) with (@nil byte) in Hb0. cbn [app] in Hb0.
  rewrite (do_write_tls_builder_ok (builder_append buf empty_builder) t);
    [|by apply Hf0|rewrite Hb0; lia].
  rewrite Hb0, Ok_bind. set (t1 := set_output _ _ _ _). set (rest := substr_from (len buf) s) in *.
  assert (Hrl : (length rest <= fuel)%nat).
  { apply (f_equal length) in Hsplit. rewrite length_app in Hsplit. unfold len in Hbl, Hs.
    unfold s in *. cbn [length] in *. lia. }
  clearbody rest s. destruct rest as [|y rest].
  - exists [header_ t ++ buf]. split; [done|]. rewrite app_nil_r in Hsplit.
    split; [cbn; by rewrite app_nil_r, <- Hsplit|].
    split; [constructor; [rewrite len_app; lia|done]|].
    destruct fuel; cbn [write_slices]; unfold t1, wire; cbn; by rewrite app_nil_r.
  - destruct (IH (y :: rest) t1 Hrl) as (chunks & Hc & Hcat & Hsz & Hw); [done| |].
    { change (0 < max_tls_packet_length_ t). pose proof (len_nonneg (header_ t)). lia. }
    rewrite Hw. exists ((header_ t ++ buf) :: chunks). split; [done|].
    cbn [header_ t1 set_output app] in Hcat.
    split; [cbn; by rewrite Hcat, <- app_assoc, <- Hsplit|].
    split; [constructor; [rewrite len_app; lia|exact Hsz]|].
    unfold t1, wire. cbn -[tls_record change_cipher_spec concat]. destruct chunks; [done|].
    unfold set_output. cbn -[tls_record change_cipher_spec]. by rewrite <- !app_assoc.
Qed.

Lemma do_write_tls_ok m (t : transport S) :
  was_reader m = false -> contents m <> [] -> len (header_ t) < max_tls_packet_length_ t ->
  exists chunks, chunks <> [] /\ concat chunks = header_ t ++ contents m /\
    Forall (fun c => len c <= max_tls_packet_length_ t) chunks /\
    do_write_tls m t =
      Ok (set_output [] false (output_ t ++ wire true (is_first_tls_packet_ t) chunks) t).
Proof.
  intros Hr Hne Hh. unfold do_write_tls. rewrite (proj2 (Z.leb_le _ _)) by lia.
  unfold check. rewrite Ok_bind.
  destruct (Z.ltb_spec (max_tls_packet_length_ t) (len (contents m) + len (header_ t))) as [|Hl].
  { by apply write_slices_ok. }
  assert (Hb : builder_bytes (builder_of m) = contents m) by (cbn; apply app_nil_r).
  rewrite do_write_tls_builder_ok; [|done|rewrite Hb; lia]. rewrite Hb.
  exists [header_ t ++ contents m]. split; [done|]. split; [apply app_nil_r|].
  split; [constructor; [rewrite len_app; lia|done]|].
  unfold wire. cbn -[tls_record change_cipher_spec]. by rewrite app_nil_r.
Qed.

Lemma do_write_main_ok m (t : transport S) :
  was_reader m = false -> contents m <> [] ->
  do_write_main m t =
    Ok (set_output [] (is_first_tls_packet_ t) (output_ t ++ header_ t ++ contents m) t).
Proof.
  intros Hr Hne. unfold do_write_main.
  assert (Hb : builder_bytes (builder_of m) = contents m) by (cbn; apply app_nil_r).
  destruct (prepend_header_ok (builder_of m) t Hr) as (b & -> & _ & Hbytes & Hnil & Hsome).
  rewrite Ok_bind. rewrite Hb in Hbytes.
  destruct (decide (header_ t = [])) as [E|E].
  - rewrite (Hnil E), E. rewrite builder_extract_bytes by (by left). by rewrite Ok_bind, Hb.
  - by rewrite (Hsome E), Ok_bind, Hbytes.
Qed.

(** The state of the sending side: [stream] is what went out so far, [plain]
    the frames that it carries behind the header. *)
Record sent (secret : ProxySecret) (header : bytes) (t : transport S) (chunks : list bytes)
  (plain : bytes) : Prop := {
  sent_secret : secret_of t = secret;
  sent_max : 1024 <= max_tls_packet_length_ t <= MAX_TLS_PACKET_LENGTH;
  sent_header : header_ t = [] \/ chunks = [];
  sent_header_len : len (header_ t) <= 64;
  sent_state : output_state_ t = (ctr_encrypt (header ++ plain) (stream_state secret header)).2;
  sent_stream :
    concat chunks ++ header_ t =
      truncate 56 header ++ substr_from 56 (ctr_encrypt (header ++ plain) (stream_state secret header)).1;
  sent_sizes : emulate_tls secret = true -> Forall (fun c => len c <= MAX_TLS_PACKET_LENGTH) chunks;
  sent_output : output_ t = wire (emulate_tls secret) true chunks;
  sent_first : emulate_tls secret = true -> is_first_tls_packet_ t = true <-> chunks = [];
}.

Lemma wire_app secret (t : transport S) chunks chunks' :
  (emulate_tls secret = true -> is_first_tls_packet_ t = true <-> chunks = []) -> chunks' <> [] ->
  wire (emulate_tls secret) true chunks ++ wire (emulate_tls secret) (is_first_tls_packet_ t) chunks' =
  wire (emulate_tls secret) true (chunks ++ chunks').
Proof.
  intros Hf Hne. unfold wire. destruct (emulate_tls secret); [|by rewrite concat_app].
  specialize (Hf eq_refl). destruct chunks as [|c chunks].
  - rewrite (proj2 Hf eq_refl). done.
  - destruct (is_first_tls_packet_ t) in Hf |- *; [discriminate (proj1 Hf eq_refl)|].
    destruct chunks' as [|c' chunks']; [done|].
    change ((c :: chunks) ++ c' :: chunks') with (c :: (chunks ++ c' :: chunks')).
    cbn [app]. rewrite <- app_assoc. f_equal.
    change (c :: chunks ++ c' :: chunks') with ((c :: chunks) ++ c' :: chunks').
    by rewrite map_app, concat_app.
Qed.

Lemma write_sent secret header (t : transport S) chunks plain m quick_ack (g : G) :
  len header = 64 -> sent secret header t chunks plain -> message_ok m ->
  exists t' g' chunks' padding,
    write m quick_ack t g = Ok (t', g') /\
    sent secret header t' chunks' (plain ++ frame quick_ack (contents m) padding) /\
    header_ t' = [] /\ len padding <= 15 /\ (use_random_padding secret = false -> padding = []).
Proof.
  intros Hhl [Hsec Hmax Hh Hhlen Hst Hstr Hsz Hout Hfirst] Hm. unfold write.
  destruct (write_prepare_inplace_ok (with_padding t) m quick_ack g Hm)
    as (m' & g' & padding & -> & Hc & Hp & Hnp & Hr). rewrite Ok_bind.
  set (fr := frame quick_ack (contents m) padding) in *.
  destruct (ctr_encrypt (contents m') (output_state_ t)) as [enc out] eqn:Ee.
  assert (Henc : enc = (ctr_encrypt fr (output_state_ t)).1) by (rewrite <- Hc, Ee; done).
  assert (Hout' : out = (ctr_encrypt fr (output_state_ t)).2) by (rewrite <- Hc, Ee; done).
  assert (Hne : enc <> []).
  { intros E. pose proof (len_ctr_encrypt fr (output_state_ t)) as Hl. rewrite <- Henc, E in Hl.
    unfold fr in Hl. rewrite len_frame in Hl. change (len (@nil byte)) with 0 in Hl.
    pose proof (len_nonneg (contents m)). pose proof (len_nonneg padding). lia. }
  set (t1 := set_output_state out t). set (m1 := mk_writer _ enc _ _).
  assert (Hall : forall st, ctr_encrypt (header ++ plain ++ fr) st =
    ((ctr_encrypt (header ++ plain) st).1 ++ (ctr_encrypt fr (ctr_encrypt (header ++ plain) st).2).1,
     (ctr_encrypt fr (ctr_encrypt (header ++ plain) st).2).2)).
  { intros st. rewrite app_assoc. apply ctr_encrypt_app. }
  assert (Hstate : out = (ctr_encrypt (header ++ plain ++ fr) (stream_state secret header)).2).
  { rewrite Hall. cbn [snd]. rewrite <- Hst. exact Hout'. }
  assert (Hstream : concat chunks ++ header_ t ++ enc = truncate 56 header ++
    substr_from 56 (ctr_encrypt (header ++ plain ++ fr) (stream_state secret header)).1).
  { rewrite Hall. cbn [fst]. rewrite app_assoc, Hstr, <- Hst, <- Henc, <- app_assoc. f_equal.
    unfold substr_from. symmetry. apply drop_app_le.
    pose proof (len_ctr_encrypt (header ++ plain) (stream_state secret header)) as Hl.
    rewrite len_app in Hl. pose proof (len_nonneg plain). unfold len in *. lia. }
  change (secret_of t1) with (secret_of t). rewrite Hsec.
  destruct (emulate_tls secret) eqn:Etls.
  - destruct (do_write_tls_ok m1 t1) as (cs & Hcs & Hcat & Hcsz & ->); [done|done| |].
    { change (len (header_ t) < max_tls_packet_length_ t). lia. }
    change (header_ t1) with (header_ t) in Hcat. change (contents m1) with enc in Hcat.
    rewrite Ok_bind. eexists _, g', (chunks ++ cs), padding. split; [reflexivity|].
    split; [|split; [done|split; [done|]]].
    2: { unfold with_padding in Hnp. by rewrite Hsec in Hnp. }
    split; cbn [secret_of set_output t1 set_output_state max_tls_packet_length_ header_ output_state_
      output_ is_first_tls_packet_].
    + done.
    + done.
    + by left.
    + rewrite len_nil. lia.
    + exact Hstate.
    + by rewrite app_nil_r, concat_app, Hcat.
    + intros _. apply Forall_app. split; [by apply Hsz|].
      eapply Forall_impl; [exact Hcsz|]. cbn. change (max_tls_packet_length_ t1) with (max_tls_packet_length_ t). lia.
    + rewrite Hout. pose proof (wire_app secret t chunks cs) as Hwa. rewrite Etls in Hwa |- *.
      by apply Hwa.
    + intros _. split; [done|]. intros E. apply app_eq_nil in E as [_ ->]. done.
  - rewrite do_write_main_ok by done. rewrite Ok_bind.
    eexists _, g', (chunks ++ [header_ t ++ enc]), padding. split; [reflexivity|].
    split; [|split; [done|split; [done|]]].
    2: { unfold with_padding in Hnp. by rewrite Hsec in Hnp. }
    split; cbn [secret_of set_output t1 set_output_state max_tls_packet_length_ header_ output_state_
      output_ is_first_tls_packet_]; try done.
    + by left.
    + rewrite concat_app. cbn. rewrite !app_nil_r. exact Hstream.
    + rewrite Etls. discriminate.
    + rewrite Hout, Etls. cbn. rewrite concat_app. cbn. by rewrite app_nil_r.
    + rewrite Etls. discriminate.
Qed.

(** The k-th header that [choose_header] would draw. *)
Fixpoint header_draw (k : nat) (g : G) : bytes :=
  match k with
  | O => (secure_bytes 64 g).1
  | Datatypes.S k => header_draw k (secure_bytes 64 g).2
  end.

Definition header_available (emulate : bool) (tries : nat) (g : G) : Prop :=
  emulate = true \/ exists k, (k < tries)%nat /\ header_forbidden (header_draw k g) = false.

Lemma choose_header_ok tries emulate (g : G) :
  (0 < tries)%nat -> header_available emulate tries g -> exists header g',
    choose_header tries emulate g = Ok (header, g') /\ len header = 64 /\
    (emulate = false -> header_forbidden header = false).
Proof.
  revert g. induction tries as [|tries IH]; intros g Ht Ha; [lia|]. cbn [choose_header].
  pose proof (len_secure_bytes 64 g ltac:(lia)) as Hl.
  destruct (secure_bytes 64 g) as [h g1] eqn:E. cbn [fst] in Hl.
  destruct emulate; [by exists h, g1|].
  destruct (header_forbidden h) eqn:Hf; [|by exists h, g1].
  destruct Ha as [|(k & Hk & Hd)]; [done|]. destruct k as [|k].
  { cbn in Hd. rewrite E in Hd. cbn in Hd. congruence. }
  cbn in Hd. rewrite E in Hd. apply IH; [lia|]. right. exists k. split; [lia|done].
Qed.

Lemma len_mark_header padding dc header : len header = 64 -> len (mark_header padding dc header) = 64.
Proof.
  intros Hl. unfold mark_header.
  assert (H56 : len (write_at 56 (init_output_stream padding) header) = 64).
  { rewrite len_write_at; [done|lia|]. unfold init_output_stream. rewrite len_le_store. lia. }
  destruct (dc =? 0); [done|]. rewrite len_write_at; [done|lia|]. rewrite len_le_store. lia.
Qed.

Lemma truncate_write_at n off s data :
  0 <= n <= off -> off <= len data -> truncate n (write_at off s data) = truncate n data.
Proof.
  intros Hn Hl. unfold truncate, write_at, len in *. rewrite take_app_le by (rewrite length_take; lia).
  rewrite take_take. f_equal. lia.
Qed.

Lemma truncate_mark_header n padding dc header :
  len header = 64 -> 0 <= n <= 56 -> truncate n (mark_header padding dc header) = truncate n header.
Proof.
  intros Hl Hn. unfold mark_header.
  assert (Htr : truncate n (write_at 56 (init_output_stream padding) header) = truncate n header).
  { apply truncate_write_at; lia. }
  destruct (dc =? 0); [done|]. rewrite truncate_write_at; [done|lia|].
  rewrite len_write_at; [lia|lia|]. unfold init_output_stream. rewrite len_le_store. lia.
Qed.

(** [init] on a lawful source: the connection is set up, and the header is
    not the start of another protocol. *)
Lemma init_sent dc_id secret (g : G) :
  header_available (emulate_tls secret) 9 g ->
  exists raw t g', init dc_id secret g = Ok (t, g') /\ len raw = 64 /\
    (emulate_tls secret = false -> header_forbidden raw = false) /\
    sent secret (mark_header (use_random_padding secret) dc_id raw) t [] [].
Proof.
  intros Ha. unfold init.
  destruct (choose_header_ok 9 (emulate_tls secret) g ltac:(lia) Ha) as (raw & g1 & -> & Hl & Hf).
  rewrite Ok_bind. set (header := mark_header (use_random_padding secret) dc_id raw).
  assert (Hh : len header = 64) by (by apply len_mark_header).
  pose proof (pick_random_record_size_bounds MAX_TLS_PACKET_LENGTH g1) as Hpick.
  destruct (if emulate_tls secret then pick_random_record_size MAX_TLS_PACKET_LENGTH g1
            else (MAX_TLS_PACKET_LENGTH, g1)) as [mx g2] eqn:Emx.
  assert (Hmx : 1024 <= mx <= MAX_TLS_PACKET_LENGTH).
  { destruct (emulate_tls secret).
    - rewrite Emx in Hpick. cbn in Hpick. unfold MAX_TLS_PACKET_LENGTH in *. lia.
    - injection Emx as <- _. unfold MAX_TLS_PACKET_LENGTH. lia. }
  destruct (ctr_encrypt header (stream_state secret header)) as [enc out] eqn:Ee.
  pose proof (len_ctr_encrypt header (stream_state secret header)) as Hle. rewrite Ee in Hle. cbn [fst] in Hle.
  eexists raw, _, g2. split; [reflexivity|]. split; [done|]. split; [done|].
  split; cbn [secret_of max_tls_packet_length_ header_ output_state_ output_ is_first_tls_packet_]; try done.
  - by right.
  - rewrite len_write_at; [lia|lia|]. unfold substr_from. rewrite len_drop; lia.
  - rewrite app_nil_r. fold header. by rewrite Ee.
  - rewrite app_nil_r. fold header. rewrite Ee. cbn [concat app fst]. unfold write_at, truncate, substr_from.
    change (Z.to_nat 56) with 56%nat. rewrite length_drop. f_equal.
    rewrite (drop_ge header); [apply app_nil_r|]. unfold len in *. lia.
  - unfold wire. by destruct (emulate_tls secret).
Qed.

(** Writing one message after the other. *)
Fixpoint writes (ms : list (BufferWriter * bool)) (t : transport S) (g : G) : outcome (transport S * G) :=
  match ms with
  | [] => Ok (t, g)
  | (m, quick_ack) :: ms => r ← write m quick_ack t g; writes ms r.1 r.2
  end.

Definition frames (ms : list (BufferWriter * bool)) (paddings : list bytes) : bytes :=
  concat (zip_with (fun m p => frame m.2 (contents m.1) p) ms paddings).

Lemma writes_sent secret header ms : forall t chunks plain (g : G),
  len header = 64 -> sent secret header t chunks plain -> Forall (fun m => message_ok m.1) ms ->
  exists t' g' chunks' paddings,
    writes ms t g = Ok (t', g') /\ length paddings = length ms /\
    Forall (fun p => len p <= 15 /\ (use_random_padding secret = false -> p = [])) paddings /\
    sent secret header t' chunks' (plain ++ frames ms paddings) /\ (ms <> [] -> header_ t' = []).
Proof.
  induction ms as [|[m q] ms IH]; intros t chunks plain g Hl Hs Hok.
  { exists t, g, chunks, []. unfold frames. cbn. rewrite app_nil_r. by split. }
  inversion Hok as [|? ? Hm Hok']; subst. cbn [writes].
  destruct (write_sent secret header t chunks plain m q g Hl Hs Hm)
    as (t1 & g1 & cs1 & p1 & -> & Hs1 & Hh1 & Hp1 & Hnp1).
  rewrite Ok_bind. cbn [fst snd].
  destruct (IH t1 cs1 _ g1 Hl Hs1 Hok') as (t2 & g2 & cs2 & ps & Hw & Hlen & Hps & Hs2 & Hh2).
  exists t2, g2, cs2, (p1 :: ps). split; [done|]. split; [cbn; lia|]. split; [by constructor|].
  rewrite <- app_assoc in Hs2. split; [exact Hs2|]. intros _. destruct ms; [|by apply Hh2].
  cbn in Hw. injection Hw as <- _. done.
Qed.

(** What a proxy with the secret makes of the stream: the keys are in the
    first 56 bytes, which are sent in the clear. *)
Definition proxy_view (secret : ProxySecret) (stream : bytes) : bytes :=
  (ctr_encrypt stream (stream_state secret stream)).1.

Lemma stream_state_prefix secret a b :
  56 <= len a -> truncate 56 a = truncate 56 b -> (stream_state secret a : S) = stream_state secret b.
Proof.
  intros Ha E.
  assert (Hsub : forall i n, 0 <= i -> 0 <= n -> i + n <= 56 -> substr i n a = substr i n b).
  { intros i n Hi Hn Hin. unfold substr, truncate in *.
    change (Z.to_nat 56) with 56%nat in E.
    rewrite !take_drop_commute.
    replace (take (Z.to_nat i + Z.to_nat n) a) with (take (Z.to_nat i + Z.to_nat n) (take 56 a))
      by (rewrite take_take; f_equal; lia).
    rewrite E, take_take. do 2 f_equal. lia. }
  unfold stream_state. by rewrite !Hsub by lia.
Qed.

Lemma proxy_view_sent secret header (t : transport S) chunks plain :
  len header = 64 -> sent secret header t chunks plain -> header_ t = [] ->
  substr_from 56 (proxy_view secret (concat chunks)) = substr_from 56 header ++ plain /\
  truncate 56 (concat chunks) = truncate 56 header.
Proof.
  intros Hl Hs Hh. pose proof (sent_stream _ _ _ _ _ Hs) as Hstr. rewrite Hh, app_nil_r in Hstr.
  set (st := stream_state secret header : S) in *.
  set (enc := (ctr_encrypt (header ++ plain) st).1) in *.
  assert (Hle : len enc = 64 + len plain).
  { unfold enc. rewrite len_ctr_encrypt, len_app. lia. }
  pose proof (len_nonneg plain) as Hp.
  assert (Ht : truncate 56 (concat chunks) = truncate 56 header).
  { rewrite Hstr. unfold truncate. apply take_app_length'. rewrite length_take. unfold len in *. lia. }
  split; [|exact Ht]. unfold proxy_view.
  assert (Hst : (stream_state secret (concat chunks) : S) = st).
  { apply stream_state_prefix; [|done]. rewrite Hstr, len_app. unfold truncate, substr_from.
    rewrite len_take, len_drop by lia. lia. }
  rewrite Hst.
  assert (Hdec : ctr_encrypt enc st = (header ++ plain, (ctr_encrypt (header ++ plain) st).2)).
  { apply ctr_encrypt_twice. }
  assert (Esplit : enc = truncate 56 enc ++ substr_from 56 enc)
    by (unfold truncate, substr_from; by rewrite take_drop).
  assert (Hlt : len (truncate 56 enc) = 56) by (unfold truncate; rewrite len_take; lia).
  assert (Hlh : len (truncate 56 header) = 56) by (unfold truncate; rewrite len_take; lia).
  rewrite Esplit, ctr_encrypt_app in Hdec. injection Hdec as Hd _.
  rewrite Hstr, ctr_encrypt_app. cbn [fst].
  rewrite (ctr_encrypt_state (truncate 56 header) (truncate 56 enc)) by lia.
  set (tail := (ctr_encrypt (substr_from 56 enc) _).1) in *.
  assert (Hd1 : forall x : bytes, len x = 56 -> substr_from 56 (x ++ tail) = tail).
  { intros x Hx. unfold substr_from. apply drop_app_length'. unfold len in Hx. lia. }
  rewrite Hd1 by (by rewrite len_ctr_encrypt). apply (f_equal (substr_from 56)) in Hd.
  rewrite Hd1 in Hd by (by rewrite len_ctr_encrypt). rewrite Hd.
  unfold substr_from. apply drop_app_le. unfold len in Hl. lia.
Qed.
End sending.

(** The test looks at the first eight bytes only. *)
Lemma header_forbidden_prefix a b :
  truncate 8 a = truncate 8 b -> header_forbidden a = header_forbidden b.
Proof.
  intros E. unfold header_forbidden.
  assert (Hsub : forall i, 0 <= i <= 4 -> substr i 4 a = substr i 4 b).
  { intros i Hi. unfold substr, truncate in *. change (Z.to_nat 8) with 8%nat in E.
    rewrite !take_drop_commute. f_equal.
    replace (take (Z.to_nat i + Z.to_nat 4) a) with (take (Z.to_nat i + Z.to_nat 4) (take 8 a))
      by (rewrite take_take; f_equal; lia).
    rewrite E, take_take. f_equal. lia. }
  assert (H0 : nth_byte a 0 = nth_byte b 0).
  { unfold truncate in E. change (Z.to_nat 8) with 8%nat in E.
    destruct a, b; try discriminate E; [done|]. injection E as Eb _. unfold nth_byte. cbn. exact Eb. }
  by rewrite !Hsub, H0 by lia.
Qed.

(** * Properties *)

(** Framing and reading back: a message that is written is the next message
    read, with its padding of at most 15 bytes, wherever the stream goes on; on
    any proper prefix the reader takes nothing and asks for more bytes than it
    has and for no more than the frame. *)
Theorem intermediate_roundtrip `{RandomLaws G} (padded : bool) (m : BufferWriter) (g : G) :
  message_ok m -> exists m' g' padding,
    write_prepare_inplace padded m false g = Ok (m', g') /\
    len padding <= 15 /\ (padded = false -> padding = []) /\
    (forall rest, read_from_stream (contents m' ++ rest) =
       mk_read 0 rest (Some (contents m ++ padding)) None) /\
    (forall front back, front ++ back = contents m' -> back <> [] ->
       exists need, read_from_stream front = mk_read need front None None /\
         len front < need <= len (contents m')).
Proof.
  intros Hm. destruct (write_prepare_inplace_ok padded m false g Hm)
    as (m' & g' & padding & Hw & Hc & Hp & Hnp & _).
  exists m', g', padding. split; [done|]. split; [done|]. split; [done|].
  assert (Hl : len (contents m) + len padding < 2 ^ 31) by (destruct Hm; lia).
  rewrite Hc. split; [intros rest; by apply read_frame|].
  intros front back E Hb. by apply (read_frame_prefix _ _ _ back).
Qed.

(** A four-byte word with the top bit set is a quick acknowledgement: it is
    taken off the stream, no message is read, and nothing else is consumed. *)
Lemma read_ack (token : Z) (rest : bytes) :
  2 ^ 31 <= token < 2 ^ 32 ->
  read_from_stream (le_store 4 token ++ rest) = mk_read 0 rest None (Some token).
Proof.
  intros Ht. pose proof (len_nonneg rest). unfold read_from_stream.
  set (h := le_store 4 token). assert (Hlh : len h = 4) by apply len_le_store.
  rewrite (proj2 (Z.ltb_ge _ _)) by (rewrite len_app; lia).
  assert (Htr : truncate 4 (h ++ rest) = h) by (apply take_app_length'; unfold len in Hlh; lia).
  assert (Hd : substr_from 4 (h ++ rest) = rest) by (apply drop_app_length'; unfold len in Hlh; lia).
  rewrite Htr, Hd. unfold h. rewrite le_load_store. change (256 ^ Z.of_nat 4) with (2 ^ 32).
  rewrite Z.mod_small by lia.
  assert (Hb : Z.testbit token 31 = true); [|by rewrite Hb].
  rewrite Z.testbit_true by lia. assert (token / 2 ^ 31 = 1) as ->; [|done].
  symmetry. apply (Z.div_unique _ _ _ (token - 2 ^ 31)); lia.
Qed.

Section session.
Context {B : DpiBuild} {S : Type} `{AesCtrLaws S} `{ShaLaws} {G : Type} `{RandomLaws G}.

(** C16: A whole sending session, from [init] on. If one of the nine headers
    that may be drawn does not look like another protocol, [init] and every
    [write] of a well-formed message succeed. What is on the wire is, for a
    masking secret, a change_cipher_spec record and TLS records of at most 2878
    bytes from which [TlsReaderByteFlow] gets the stream back, and otherwise the
    stream itself. A proxy that takes the keys from the first 56 bytes of the
    stream decrypts it to the protocol tag, the data centre and exactly the
    frames of the messages in order. *)
Theorem obfuscated_session (dc_id : Z) (secret : ProxySecret)
  (ms : list (BufferWriter * bool)) (g : G) :
  header_available (emulate_tls secret) 9 g -> Forall (fun m => message_ok m.1) ms -> ms <> [] ->
  exists raw t0 g0 t g' chunks paddings,
    let header := mark_header (use_random_padding secret) dc_id raw in
    let stream := concat chunks in
    init dc_id secret g = Ok (t0, g0) /\ writes ms t0 g0 = Ok (t, g') /\
    output_ t = wire (emulate_tls secret) true chunks /\
    (emulate_tls secret = true ->
       Forall (fun c => len c <= MAX_TLS_PACKET_LENGTH) chunks /\
       (flow_run [substr_from (len change_cipher_spec) (output_ t)] flow_start).2 = stream) /\
    (emulate_tls secret = false -> header_forbidden stream = false) /\
    length paddings = length ms /\
    Forall (fun p => len p <= 15 /\ (use_random_padding secret = false -> p = [])) paddings /\
    substr_from 56 (proxy_view secret stream) = substr_from 56 header ++ frames ms paddings.
Proof.
  intros Ha Hok Hne. destruct (init_sent dc_id secret g Ha) as (raw & t0 & g0 & Hi & Hl & Hf & Hs0).
  set (header := mark_header (use_random_padding secret) dc_id raw) in *.
  assert (Hh : len header = 64) by (by apply len_mark_header).
  destruct (writes_sent secret header ms t0 [] [] g0 Hh Hs0 Hok)
    as (t & g' & chunks & paddings & Hw & Hlen & Hpad & Hs & Hh').
  cbn [app] in Hs. destruct (proxy_view_sent secret header t chunks _ Hh Hs (Hh' Hne)) as [Hview Hpre].
  exists raw, t0, g0, t, g', chunks, paddings. cbn zeta. fold header.
  split; [exact Hi|]. split; [exact Hw|]. split; [apply Hs|].
  split; [|split; [|by split; [|split]]].
  - intros Htls. pose proof (sent_sizes _ _ _ _ _ Hs Htls) as Hsz. split; [done|].
    rewrite (sent_output _ _ _ _ _ Hs), Htls.
    assert (Hout : substr_from (len change_cipher_spec) (wire true true chunks) =
                   concat (map tls_record chunks)).
    { unfold wire, substr_from, len. rewrite Nat2Z.id. destruct chunks; [done|].
      apply drop_app_length. }
    rewrite Hout. apply (tls_flow_output _ chunks); [|done].
    eapply Forall_impl; [exact Hsz|]. cbn. unfold MAX_TLS_PACKET_LENGTH. lia.
  - intros Htls. rewrite <- (Hf Htls). apply header_forbidden_prefix.
    apply (f_equal (truncate 8)) in Hpre.
    assert (H8 : forall s : bytes, truncate 8 (truncate 56 s) = truncate 8 s).
    { intros s. unfold truncate. by rewrite take_take. }
    rewrite !H8 in Hpre. rewrite Hpre. by apply truncate_mark_header.
Qed.

(** The receiving side with a masking secret: when the records that have
    arrived carry the encryption of a plaintext that completes the next frame,
    [read_next] returns its message; the incomplete record and the rest of the
    plaintext are kept for the next call. *)
Theorem obfuscated_read_next (t : transport S) (ps : list bytes) (partial plain : bytes) (n : Z)
  (m padding more : bytes) :
  emulate_tls (secret_of t) = true -> flow_ok (tls_reader t) ->
  decodes (flow_input (tls_reader t)) ps partial -> tls_loop partial = LoopNeed n ->
  concat ps = (ctr_encrypt plain (aes_ctr_state t)).1 ->
  byte_flow_sink_ t ++ plain = frame false m padding ++ more ->
  len m + len padding < 2 ^ 31 ->
  exists t', read_next t = (mk_read 0 more (Some (m ++ padding)) None, t') /\
    byte_flow_sink_ t' = more /\ flow_input (tls_reader t') = partial /\
    flow_ok (tls_reader t') /\
    aes_ctr_state t' = (ctr_encrypt plain (aes_ctr_state t)).2 /\ output_ t' = output_ t.
Proof.
  intros Htls Hok Hd Hn Hps Hplain Hl. unfold read_next, wakeup_flows. rewrite Htls.
  pose proof (tls_wakeup_delivers _ _ _ Hok Hd) as Hw. rewrite Hn in Hw.
  destruct Hw as (need & -> & Hok'). rewrite Hps, ctr_encrypt_twice.
  cbn [byte_flow_sink_ set_sink tls_reader aes_ctr_state]. rewrite Hplain, read_frame by done.
  eexists. split; [reflexivity|]. cbn. split; [done|]. split; [done|]. split; [exact Hok'|]. done.
Qed.
End session.

(** ** Witnesses *)

Import Toy.

Definition sample_message (n : Z) : BufferWriter := create_writer (zeros n) 100 15.

Lemma sample_message_ok n : 0 <= n < 2 ^ 20 -> n mod 4 = 0 -> message_ok (sample_message n).
Proof.
  intros Hn Hm. assert (Hl : len (zeros n) = n) by (apply len_zeros; lia).
  pose proof (buffer_raw_size_ge (Z.max 512 (n + 100 + 15))).
  split; cbn [contents sample_message create_writer room_before room_after was_reader];
    rewrite ?Hl; first [lia | done].
Qed.

Definition sample_source : script := mk_script [] (hex [1; 2; 3; 4; 5; 6; 7; 8]).

Lemma intermediate_roundtrip_witness : exists m' g' padding,
  write_prepare_inplace true (sample_message 8) false sample_source = Ok (m', g') /\
  read_from_stream (contents m' ++ hex [9]) = mk_read 0 (hex [9]) (Some (zeros 8 ++ padding)) None.
Proof.
  destruct (intermediate_roundtrip true (sample_message 8) sample_source)
    as (m' & g' & padding & Hw & _ & _ & Hr & _).
  { apply sample_message_ok; [split; [discriminate|reflexivity]|reflexivity]. }
  exists m', g', padding. split; [exact Hw | exact (Hr (hex [9]))].
Defined.

Definition masking_secret : ProxySecret :=
  mk_ProxySecret (z2b 0xee :: zeros 16 ++ str "ya.ru").

Lemma obfuscated_session_witness :
  exists raw t0 g0 t g' chunks paddings,
    init (B := shipped) 2 masking_secret sample_source = Ok (t0, g0) /\
    writes [(sample_message 4000, false); (sample_message 8, true)] t0 g0 = Ok (t, g') /\
    (flow_run [substr_from 6 (output_ t)] flow_start).2 = concat chunks /\
    substr_from 56 (proxy_view masking_secret (concat chunks)) =
      substr_from 56 (mark_header true 2 raw)
      ++ frames [(sample_message 4000, false); (sample_message 8, true)] paddings.
Proof.
  destruct (obfuscated_session (B := shipped) (S := Z) 2 masking_secret
    [(sample_message 4000, false); (sample_message 8, true)] sample_source)
    as (raw & t0 & g0 & t & g' & chunks & paddings & Hi & Hw & _ & Htls & _ & _ & _ & Hv).
  - left. reflexivity.
  - repeat constructor; apply sample_message_ok; try reflexivity; (split; [discriminate|reflexivity]).
  - discriminate.
  - exists raw, t0, g0, t, g', chunks, paddings. split; [exact Hi|]. split; [exact Hw|].
    split; [exact (proj2 (Htls eq_refl))|exact Hv].
Defined.

(** Two records carry one padded frame and a byte of the next. *)
Lemma obfuscated_read_next_witness :
  let plain := frame false (zeros 8) (hex [1; 2]) ++ hex [9] in
  let wire := (ctr_encrypt plain 77).1 in
  let input := tls_record (take 3 wire) ++ tls_record (drop 3 wire) in
  let t := mk_transport 2 masking_secret false 2878 [] 5 [] (mk_flow input 5 [] false) 77 [] in
  exists t', read_next t = (mk_read 0 (hex [9]) (Some (zeros 8 ++ hex [1; 2])) None, t') /\
    byte_flow_sink_ t' = hex [9] /\ flow_input (tls_reader t') = [].
Proof.
  intros plain wire input t.
  destruct (obfuscated_read_next (S := Z) t [take 3 wire; drop 3 wire] [] plain 5
    (zeros 8) (hex [1; 2]) (hex [9])) as (t' & Hr & Hs & Hi & _).
  - reflexivity.
  - split; [done|]. split; [done|]. intros Hl. by vm_compute in Hl.
  - split; [vm_compute; reflexivity | repeat constructor; by vm_compute | done].
  - reflexivity.
  - reflexivity.
  - reflexivity.
  - reflexivity.
  - by exists t'.
Defined.
