(* ===== verification/DhHandshake.v ===== *)
(** Diffie-Hellman: [mtproto/DhHandshake.cpp], [DhHandshake.h], and the cache of
    checked primes, [telegram/DhCache.cpp].

    A [BigNum] is a [Z].  OpenSSL's primality test is the class [BnPrime] and
    its random numbers are the class [BnRand].  The [DhCallback] that a
    handshake is given is an interface; [DhCache] implements it. *)
From S2P Require Import Prelude Bytes Random Tl BigNum Factorize Crypto.
#[local] Open Scope Z_scope.

(** [BN_check_prime]. *)
Class BnPrime := { bn_is_prime : Z -> bool }.

(** [BN_rand(bits, -1, 0)]. *)
Class BnRand (G : Type) := { bn_rand : Z -> G -> Z * G }.

Class BnRandLaws (G : Type) `{BnRand G} : Prop := {
  bn_rand_range bits g : 0 <= bits -> 0 <= (bn_rand bits g).1 < 2 ^ bits;
}.

Class DhCallback (C : Type) := {
  is_good_prime : bytes -> C -> outcome Z;
  add_good_prime : bytes -> C -> C;
  add_bad_prime : bytes -> C -> C;
}.

(** * [BigNum] operations with their checks *)

(** [narrow_cast<int>(str.size())]. *)
Definition from_binary (s : bytes) : outcome Z :=
  _ ← check (len s <? 2 ^ 31); Ok (be_load s).

Definition get_num_bits (x : Z) : Z := if x =? 0 then 0 else Z.log2 x + 1.

(** [to_binary(exact_size)]; [to_binary()] is [to_binary_min]. *)
Definition to_binary (exact_size : Z) (x : Z) : outcome bytes :=
  _ ← check (len (to_binary_min x) <=? exact_size);
  Ok (zeros (exact_size - len (to_binary_min x)) ++ to_binary_min x).

(** [BN_mod_exp] fails for a modulus of zero, which is fatal. *)
Definition big_mod_exp `{BigNumOps} (a p m : Z) : outcome Z :=
  _ ← check (negb (m =? 0)); Ok (mod_exp a p m).

Section handshake.
Context `{BigNumOps} `{BnPrime} `{Sha} {G : Type} `{BnRand G} {C : Type} `{DhCallback C}.

(** [check_config(prime_str, prime, g_int, ctx, callback)]; the callback may be
    a null pointer. *)
Definition is_residue (prime g_int : Z) : bool :=
  if g_int =? 2 then prime mod 8 =? 7
  else if g_int =? 3 then prime mod 3 =? 2
  else if g_int =? 4 then true
  else if g_int =? 5 then let mod_r := prime mod 5 in (mod_r =? 1) || (mod_r =? 4)
  else if g_int =? 6 then let mod_r := prime mod 24 in (mod_r =? 19) || (mod_r =? 23)
  else if g_int =? 7 then let mod_r := prime mod 7 in (mod_r =? 3) || (mod_r =? 5) || (mod_r =? 6)
  else false.

Definition check_config (prime_str : bytes) (prime g_int : Z) (callback : option C)
  : outcome unit * option C :=
  if negb (get_num_bits prime =? 2048) then (Err (Error 0 "p is not 2048-bit number"), callback)
  else if negb (is_residue prime g_int) then (Err (Error 0 "Bad prime mod 4g"), callback)
  else
    match match callback with Some c => is_good_prime prime_str c | None => Ok (-1) end with
    | Err e => (Err e, callback)
    | Crash => (Crash, callback)
    | Ok is_good_prime =>
        if negb (is_good_prime =? -1) then
          (if negb (is_good_prime =? 0) then Ok tt else Err (Error 0 "p or (p - 1) / 2 is not a prime number"), callback)
        else if negb (bn_is_prime prime) then
          (Err (Error 0 "p is not a prime number"), add_bad_prime prime_str <$> callback)
        else
          let half_prime := (prime - 1) / 2 in
          if negb (bn_is_prime half_prime) then
            (Err (Error 0 "(p - 1) / 2 is not a prime number"), add_bad_prime prime_str <$> callback)
          else (Ok tt, add_good_prime prime_str <$> callback)
    end.

(** The public [check_config]. *)
Definition check_config_str (g_int : Z) (prime_str : bytes) (callback : option C) : outcome unit * option C :=
  match from_binary prime_str with
  | Ok prime => check_config prime_str prime g_int callback
  | Err e => (Err e, callback)
  | Crash => (Crash, callback)
  end.

Definition dh_check (prime g_a g_b : Z) : outcome unit :=
  _ ← check (get_num_bits prime =? 2048);
  let left := Z.setbit 0 (2048 - 64) in
  let right := prime - left in
  if (g_a <? left) || (right <? g_a) || (g_b <? left) || (right <? g_b) then
    Err (Error 0 "g^a or g^b is not between 2^{2048-64} and dh_prime - 2^{2048-64}")
  else Ok tt.

Record dh_handshake := mk_dh {
  prime_str_ : bytes;
  prime_ : Z;
  g_ : Z;
  g_int_ : Z;
  b_ : Z;
  g_b_ : Z;
  g_a_ : Z;
  g_a_hash_ : bytes;
  has_g_a_hash_ : bool;
  ok_g_a_hash_ : bool;
  has_config_ : bool;
  has_g_a_ : bool;
}.

Definition new_dh : dh_handshake := mk_dh [] 0 0 0 0 0 0 [] false false false false.

Definition set_config (g_int : Z) (prime_str : bytes) (h : dh_handshake) (gen : G) : outcome dh_handshake * G :=
  match from_binary prime_str with
  | Ok prime =>
      let '(b, gen) := bn_rand 2048 gen in
      let g := uint32 g_int in
      (g_b ← big_mod_exp g b prime;
       Ok (mk_dh prime_str prime g g_int b g_b (g_a_ h) (g_a_hash_ h) (has_g_a_hash_ h) (ok_g_a_hash_ h) true
             (has_g_a_ h)), gen)
  | Err e => (Err e, gen)
  | Crash => (Crash, gen)
  end.

Definition set_g_a_hash (g_a_hash : bytes) (h : dh_handshake) : outcome dh_handshake :=
  _ ← check (negb (has_g_a_ h));
  Ok (mk_dh (prime_str_ h) (prime_ h) (g_ h) (g_int_ h) (b_ h) (g_b_ h) (g_a_ h) g_a_hash true false
        (has_config_ h) (has_g_a_ h)).

Definition set_g_a (g_a_str : bytes) (h : dh_handshake) : outcome dh_handshake :=
  let ok := if has_g_a_hash_ h then bool_decide (sha256 g_a_str = g_a_hash_ h) else ok_g_a_hash_ h in
  g_a ← from_binary g_a_str;
  Ok (mk_dh (prime_str_ h) (prime_ h) (g_ h) (g_int_ h) (b_ h) (g_b_ h) g_a (g_a_hash_ h) (has_g_a_hash_ h) ok
        (has_config_ h) true).

Definition get_g_a (h : dh_handshake) : outcome bytes := _ ← check (has_g_a_ h); Ok (to_binary_min (g_a_ h)).

Definition get_g_b (h : dh_handshake) : outcome bytes := _ ← check (has_config_ h); Ok (to_binary_min (g_b_ h)).

Definition get_g_b_hash (h : dh_handshake) : outcome bytes := g_b ← get_g_b h; Ok (sha256 g_b).

Definition run_checks (skip_config_check : bool) (callback : option C) (h : dh_handshake)
  : outcome unit * option C :=
  if negb (has_g_a_ h && has_config_ h) then (Crash, callback)
  else if has_g_a_hash_ h && negb (ok_g_a_hash_ h) then (Err (Error 0 "g_a_hash mismatch"), callback)
  else
    let '(r, callback) :=
      if negb skip_config_check then check_config (prime_str_ h) (prime_ h) (g_int_ h) callback
      else (Ok tt, callback) in
    (_ ← r; dh_check (prime_ h) (g_a_ h) (g_b_ h), callback).

Definition get_g (h : dh_handshake) : outcome Z := _ ← check (has_config_ h); Ok (g_ h).

Definition get_p (h : dh_handshake) : outcome Z := _ ← check (has_config_ h); Ok (prime_ h).

Definition get_b (h : dh_handshake) : outcome Z := _ ← check (has_config_ h); Ok (b_ h).

Definition get_g_ab (h : dh_handshake) : outcome Z :=
  _ ← check (has_g_a_ h && has_config_ h); big_mod_exp (g_a_ h) (b_ h) (prime_ h).

Definition calc_key_id (auth_key : bytes) : Z := int64 (le_load (substr 12 8 (sha1 auth_key))).

Definition gen_key (h : dh_handshake) : outcome (Z * bytes) :=
  g_ab ← get_g_ab h;
  key ← to_binary (2048 / 8) g_ab;
  Ok (calc_key_id key, key).

(** ** Storing *)

Definition HasConfig : Z := 1.
Definition HasGA : Z := 2.

Definition store_config (h : dh_handshake) : list tl_value :=
  [TlString (prime_str_ h); TlString (to_binary_min (b_ h)); TlInt (g_int_ h); TlString (to_binary_min (g_b_ h))].

Definition store_dh (h : dh_handshake) : list tl_value :=
  let flags := Z.lor (if has_config_ h then HasConfig else 0) (if has_g_a_ h then HasGA else 0) in
  [TlInt flags] ++
  (if has_config_ h then store_config h else []) ++
  (if has_g_a_ h then [TlString (to_binary_min (g_a_ h))] else []).

Definition parse_config (h : dh_handshake) (p : tl_parser) : outcome (dh_handshake * tl_parser) :=
  r ← fetch_string p;
  let prime_str := r.1 in
  prime ← from_binary prime_str;
  r ← fetch_string r.2;
  b ← from_binary r.1;
  r ← fetch_int r.2;
  let g_int := r.1 in
  r ← fetch_string r.2;
  g_b ← from_binary r.1;
  Ok (mk_dh prime_str prime (uint32 g_int) g_int b g_b (g_a_ h) (g_a_hash_ h) (has_g_a_hash_ h) (ok_g_a_hash_ h)
        (has_config_ h) (has_g_a_ h), r.2).

Definition parse_g_a (h : dh_handshake) (p : tl_parser) : outcome (dh_handshake * tl_parser) :=
  r ← fetch_string p;
  g_a ← from_binary r.1;
  Ok (mk_dh (prime_str_ h) (prime_ h) (g_ h) (g_int_ h) (b_ h) (g_b_ h) g_a (g_a_hash_ h) (has_g_a_hash_ h)
        (ok_g_a_hash_ h) (has_config_ h) (has_g_a_ h), r.2).

(** [parse] into the object [h]. *)
Definition parse_dh (h : dh_handshake) (p : tl_parser) : outcome (dh_handshake * tl_parser) :=
  r ← fetch_int p;
  let flags := r.1 in
  let has_config := has_config_ h || negb (Z.land flags HasConfig =? 0) in
  let has_g_a := has_g_a_ h || negb (Z.land flags HasGA =? 0) in
  let h := mk_dh (prime_str_ h) (prime_ h) (g_ h) (g_int_ h) (b_ h) (g_b_ h) (g_a_ h) (g_a_hash_ h)
             (has_g_a_hash_ h) (ok_g_a_hash_ h) has_config has_g_a in
  r ← (if has_config then parse_config h r.2 else Ok (h, r.2));
  if has_g_a then parse_g_a r.1 r.2 else Ok r.
End handshake.

(** * The configuration check *)

(** What the code asks of [p], apart from its size and of [g]. *)
Definition is_safe `{BnPrime} (prime : Z) : bool := bn_is_prime prime && bn_is_prime ((prime - 1) / 2).

(** What a callback promises: its verdicts are those of the primality test, and
    what it is told it answers. *)
Class DhCallbackLaws `{BnPrime} (C : Type) `{DhCallback C} (inv : C -> Prop) : Prop := {
  is_good_prime_sound s c :
    inv c -> is_good_prime s c = Ok (-1) \/ is_good_prime s c = Ok (if is_safe (be_load s) then 1 else 0);
  add_good_prime_inv s c :
    inv c -> is_safe (be_load s) = true ->
    inv (add_good_prime s c) /\ is_good_prime s (add_good_prime s c) = Ok 1;
  add_bad_prime_inv s c :
    inv c -> is_safe (be_load s) = false ->
    inv (add_bad_prime s c) /\ is_good_prime s (add_bad_prime s c) = Ok 0;
}.

Definition good_config `{BnPrime} (prime g_int : Z) : bool :=
  (get_num_bits prime =? 2048) && is_residue prime g_int && is_safe prime.

(** The callback has the verdict on a number. *)
Definition remembers `{DhCallback C} (s : bytes) (safe : bool) (callback : option C) : Prop :=
  match callback with
  | Some c => is_good_prime s c = Ok (if safe then 1 else 0)
  | None => True
  end.

Definition from_option_inv {C} (inv : C -> Prop) (callback : option C) : Prop :=
  match callback with Some c => inv c | None => True end.

Section config.
Context `{BnPrime} {C : Type} {inv : C -> Prop} `{DhCallbackLaws C inv}.

Lemma check_config_ok prime_str g_int (callback : option C) :
  from_option_inv inv callback ->
  let prime := be_load prime_str in
  let '(r, callback') := check_config prime_str prime g_int callback in
  from_option_inv inv callback' /\ r <> Crash /\ (r = Ok tt <-> good_config prime g_int = true) /\
  (get_num_bits prime = 2048 -> is_residue prime g_int = true ->
   remembers prime_str (is_safe prime) callback').
Proof.
  intros Hc prime. unfold check_config, good_config.
  destruct (Z.eqb_spec (get_num_bits prime) 2048) as [Hb|Hb]; cbn [negb andb].
  2:{ repeat split; [done..|]. by intros. }
  destruct (is_residue prime g_int) eqn:Hr; cbn [negb andb].
  2:{ repeat split; [done..|]. by intros. }
  assert (Hsplit : is_safe prime = bn_is_prime prime && bn_is_prime ((prime - 1) / 2)) by done.
  assert (Hfresh : forall cb : option C, from_option_inv inv cb ->
    let '(r, callback') :=
      if negb (bn_is_prime prime) then
        (@Err unit (Error 0 "p is not a prime number"), add_bad_prime prime_str <$> cb)
      else if negb (bn_is_prime ((prime - 1) / 2)) then
        (Err (Error 0 "(p - 1) / 2 is not a prime number"), add_bad_prime prime_str <$> cb)
      else (Ok tt, add_good_prime prime_str <$> cb) in
    from_option_inv inv callback' /\ r <> Crash /\ (r = Ok tt <-> is_safe prime = true) /\
    (get_num_bits prime = 2048 -> true = true -> remembers prime_str (is_safe prime) callback')).
  { intros cb Hcb. rewrite Hsplit.
    destruct (bn_is_prime prime) eqn:Hp; cbn [negb andb]; [destruct (bn_is_prime ((prime - 1) / 2)) eqn:Hh; cbn [negb]|].
    all: destruct cb as [c|]; cbn [fmap option_fmap option_map from_option_inv remembers] in *; try done.
    - destruct (add_good_prime_inv prime_str c Hcb) as [? ?]; [by fold prime; rewrite Hsplit|]. done.
    - destruct (add_bad_prime_inv prime_str c Hcb) as [? ?]; [by fold prime; rewrite Hsplit|]. done.
    - destruct (add_bad_prime_inv prime_str c Hcb) as [? ?]; [by fold prime; rewrite Hsplit|]. done. }
  destruct callback as [c|]; [|exact (Hfresh None I)].
  destruct (is_good_prime_sound prime_str c Hc) as [Hg|Hg]; rewrite Hg; [exact (Hfresh (Some c) Hc)|].
  fold prime in Hg |- *. cbn [from_option_inv remembers].
  by destruct (is_safe prime); cbn [negb].
Qed.
End config.

(** * [DhCache] *)

Module DhCache.
Section cache.
Context `{BnPrime}.

(** The key-value store behind [G()->td_db()->get_binlog_pmc()]; a missing key
    has the empty value. *)
Definition pmc : Type := bytes -> bytes.

Definition pmc_set (key value : bytes) (db : pmc) : pmc :=
  fun k => if decide (k = key) then value else db k.

Definition good_prime_key (prime_str : bytes) : bytes := str "good_prime:" ++ prime_str.

Definition built_in_good_prime_number : Z :=
  0xc71caeb9c6b1c9048e6c522f70f13f73980d40238e3e21c14934d037563d930f48198a0aa7c14058229493d22530f4dbfa336f6e0ac925139543aed44cce7c3720fd51f69458705ac68cd4fe6b6b13abdc9746512969328454f18faf8c595f642477fe96bb2a941d5bcd1d4ac8cc49880708fa9b378e3c4f3a9060bee67cf9a4a4a695811051907e162753b56b0f6b410dba74d8a84b2a14b3144e0ef1284754fd17ed950d5965b4b9dd46582db1178d169c6bc465b0d6ff9ca3928fef5b9ae4e418fc15e83ebea0f87fa9ff5eed70050ded2849f47bf959d956850ce929851f0d8115f635b105ee2e4e15d04b2454bf6f4fadf034b10403119cd8e3b92fcc5b.

Definition built_in_good_prime : bytes := reverse (le_store 256 built_in_good_prime_number).

Definition is_good_prime (prime_str : bytes) (db : pmc) : outcome Z :=
  if decide (prime_str = built_in_good_prime) then Ok 1
  else
    let value := db (good_prime_key prime_str) in
    if decide (value = str "good") then Ok 1
    else if decide (value = str "bad") then Ok 0
    else _ ← check (bool_decide (value = [])); Ok (-1).

Definition add_good_prime (prime_str : bytes) (db : pmc) : pmc := pmc_set (good_prime_key prime_str) (str "good") db.

Definition add_bad_prime (prime_str : bytes) (db : pmc) : pmc := pmc_set (good_prime_key prime_str) (str "bad") db.

#[export] Instance cache : DhCallback pmc := {|
  DhHandshake.is_good_prime := is_good_prime;
  DhHandshake.add_good_prime := add_good_prime;
  DhHandshake.add_bad_prime := add_bad_prime;
|}.

(** The verdicts in the store are right, and nothing else is under their keys. *)
Definition sound (db : pmc) : Prop :=
  forall s, let value := db (good_prime_key s) in
  value = [] \/ value = if is_safe (be_load s) then str "good" else str "bad".

Lemma pmc_set_key s t value db :
  pmc_set (good_prime_key s) value db (good_prime_key t) = if decide (t = s) then value else db (good_prime_key t).
Proof.
  unfold pmc_set. destruct (decide (t = s)) as [->|Hne]; [by rewrite decide_True|].
  rewrite decide_False; [done|]. intros Hk. by apply app_inv_head in Hk.
Qed.

Lemma sound_set s db :
  sound db -> sound (pmc_set (good_prime_key s) (if is_safe (be_load s) then str "good" else str "bad") db).
Proof.
  intros Hs t. cbv zeta. rewrite pmc_set_key. destruct (decide (t = s)) as [->|]; [by right|]. apply Hs.
Qed.

(** That OpenSSL accepts the built-in number. *)
Context (built_in : is_safe (be_load built_in_good_prime) = true).

#[export] Instance cache_laws : DhCallbackLaws pmc sound.
Proof.
  constructor; cbn [DhHandshake.is_good_prime DhHandshake.add_good_prime DhHandshake.add_bad_prime cache].
  - intros s db Hs. unfold is_good_prime.
    destruct (decide (s = built_in_good_prime)) as [->|]; [right; by rewrite built_in|].
    specialize (Hs s). cbv zeta in Hs. destruct Hs as [->| ->]; [by left|].
    right. by destruct (is_safe (be_load s)).
  - intros s db Hs Hsafe. unfold is_good_prime, add_good_prime. pose proof (sound_set s db Hs) as Hset.
    rewrite Hsafe in Hset. split; [done|]. rewrite pmc_set_key, (decide_True (P := s = s)) by done.
    by destruct (decide (s = built_in_good_prime)).
  - intros s db Hs Hsafe. unfold is_good_prime, add_bad_prime. pose proof (sound_set s db Hs) as Hset.
    rewrite Hsafe in Hset. split; [done|]. rewrite pmc_set_key, (decide_True (P := s = s)) by done.
    destruct (decide (s = built_in_good_prime)) as [->|]; [by rewrite built_in in Hsafe|]. done.
Qed.
End cache.
End DhCache.

(** * The range of the powers *)

Lemma get_num_bits_range x n : 0 <= x -> 0 < n -> get_num_bits x = n -> 2 ^ (n - 1) <= x < 2 ^ n.
Proof.
  intros Hx Hn. unfold get_num_bits. destruct (Z.eqb_spec x 0); [lia|]. intros Hl.
  replace (n - 1) with (Z.log2 x) by lia. replace n with (Z.succ (Z.log2 x)) by lia. apply Z.log2_spec. lia.
Qed.
Definition dh_range (prime g_a : Z) : Prop := 2 ^ (2048 - 64) <= g_a <= prime - 2 ^ (2048 - 64).

Lemma in_dh_range prime g_a :
  (2 ^ (2048 - 64) <=? g_a) && (g_a <=? prime - 2 ^ (2048 - 64)) = true -> dh_range prime g_a.
Proof. intros H. apply andb_prop in H as [H1 H2]. split; by apply Z.leb_le. Qed.

Lemma dh_check_ok prime g_a g_b :
  get_num_bits prime = 2048 ->
  dh_check prime g_a g_b <> Crash /\
  (dh_check prime g_a g_b = Ok tt <-> dh_range prime g_a /\ dh_range prime g_b).
Proof.
  intros Hp. unfold dh_check, dh_range. rewrite Hp, Z.eqb_refl. cbn [check].
  rewrite Ok_bind, Z.setbit_spec', Z.lor_0_l.
  set (left := 2 ^ (2048 - 64)). clearbody left.
  destruct (Z.ltb_spec g_a left), (Z.ltb_spec (prime - left) g_a), (Z.ltb_spec g_b left),
    (Z.ltb_spec (prime - left) g_b); cbn [orb]; (split; [done|]); split; (done || lia).
Qed.

(** * Numbers as strings *)

Lemma bn_from_binary_Ok s x : from_binary s = Ok x -> x = be_load s /\ len s < 2 ^ 31.
Proof.
  unfold from_binary. destruct (Z.ltb_spec (len s) (2 ^ 31)); cbn [check]; [|done].
  rewrite Ok_bind. by intros [= <-].
Qed.

Lemma be_load_nonneg s : 0 <= be_load s.
Proof. apply be_load_range. Qed.

Lemma len_drop_zeros s : len (drop_zeros s) <= len s.
Proof.
  induction s as [|b s IH]; [done|]. cbn [drop_zeros]. destruct (b2z b =? 0); [|done].
  rewrite len_cons. lia.
Qed.

Lemma len_to_binary_min x n : 0 <= x < 256 ^ n -> 0 <= n -> len (to_binary_min x) <= n.
Proof.
  intros Hx Hn. destruct (Z.eq_dec x 0) as [->|Hne]; [change (len (to_binary_min 0)) with 0; lia|].
  unfold to_binary_min. etrans; [apply len_drop_zeros|]. rewrite len_reverse, len_le_store.
  pose proof (Z.log2_nonneg x) as Hl0. rewrite Z2Nat.id by (apply Z.add_nonneg_nonneg; [apply Z.div_pos; lia|lia]).
  assert (Hl : Z.log2 x < 8 * n).
  { apply Z.log2_lt_pow2; [lia|]. rewrite Z.pow_mul_r by lia. change (2 ^ 8) with 256. lia. }
  div_mod_lia.
Qed.

Lemma len_to_binary_min_be_load s : len (to_binary_min (be_load s)) <= len s.
Proof. apply len_to_binary_min; [apply be_load_range|apply len_nonneg]. Qed.

Lemma be_load_zeros n s : be_load (zeros n ++ s) = be_load s.
Proof.
  unfold zeros. induction (Z.to_nat n) as [|m IH]; [done|]. cbn [replicate app].
  rewrite be_load_cons, IH. change (b2z x00) with 0. lia.
Qed.

Lemma bytes_2048 : 256 ^ 256 = 2 ^ 2048.
Proof. change 256 with (2 ^ 8) at 1. by rewrite <- Z.pow_mul_r. Qed.

Lemma to_binary_ok n x :
  0 <= x < 256 ^ n -> 0 <= n -> exists s, to_binary n x = Ok s /\ len s = n /\ be_load s = x.
Proof.
  intros Hx Hn. pose proof (len_to_binary_min x n Hx Hn) as Hl. unfold to_binary.
  rewrite (proj2 (Z.leb_le _ _)) by done. cbn [check]. rewrite Ok_bind. eexists. split; [done|]. split.
  - rewrite len_app, len_zeros by lia. lia.
  - rewrite be_load_zeros, be_load_binary_min; lia.
Qed.

(** * Reachable handshakes *)

Section reachable.
Context `{BigNumLaws} `{BnPrime} `{Sha} {G : Type} `{BnRandLaws G}.

(** The calls that change a handshake. *)
Inductive reachable : dh_handshake -> Prop :=
  | ReachNew : reachable new_dh
  | ReachConfig h g_int prime_str gen h' gen' :
      reachable h -> - 2 ^ 31 <= g_int < 2 ^ 31 -> set_config (G := G) g_int prime_str h gen = (Ok h', gen') -> reachable h'
  | ReachHash h g_a_hash h' : reachable h -> set_g_a_hash g_a_hash h = Ok h' -> reachable h'
  | ReachGa h g_a_str h' : reachable h -> set_g_a g_a_str h = Ok h' -> reachable h'.

Record config_ok (h : dh_handshake) : Prop := {
  config_prime : prime_ h = be_load (prime_str_ h);
  config_prime_str : len (prime_str_ h) < 2 ^ 31;
  config_g_int : - 2 ^ 31 <= g_int_ h < 2 ^ 31;
  config_pos : 0 < prime_ h;
  config_g : g_ h = uint32 (g_int_ h);
  config_b : 0 <= b_ h < 2 ^ 2048;
  config_g_b : g_b_ h = (g_ h ^ b_ h) mod prime_ h;
}.

Record dh_wf (h : dh_handshake) : Prop := {
  wf_config : has_config_ h = true -> config_ok h;
  wf_no_config : has_config_ h = false ->
    prime_str_ h = [] /\ prime_ h = 0 /\ g_ h = 0 /\ g_int_ h = 0 /\ b_ h = 0 /\ g_b_ h = 0;
  wf_g_a : has_g_a_ h = true -> exists s, be_load s = g_a_ h /\ len s < 2 ^ 31;
  wf_no_g_a : has_g_a_ h = false -> g_a_ h = 0;
  wf_hash : ok_g_a_hash_ h = true ->
    has_g_a_hash_ h = true /\ exists s, sha256 s = g_a_hash_ h /\ be_load s = g_a_ h;
}.

Lemma set_config_inv g_int prime_str h gen h' gen' :
  set_config g_int prime_str h gen = (Ok h', gen') ->
  exists b, 0 <= b < 2 ^ 2048 /\ be_load prime_str <> 0 /\ len prime_str < 2 ^ 31 /\
    h' = mk_dh prime_str (be_load prime_str) (uint32 g_int) g_int b (uint32 g_int ^ b mod be_load prime_str)
           (g_a_ h) (g_a_hash_ h) (has_g_a_hash_ h) (ok_g_a_hash_ h) true (has_g_a_ h).
Proof.
  unfold set_config. destruct (from_binary prime_str) as [prime| |] eqn:Hp; [|done..].
  apply bn_from_binary_Ok in Hp as [-> Hlen]. pose proof (bn_rand_range 2048 gen ltac:(lia)) as Hb.
  destruct (bn_rand 2048 gen) as [b gen1]. cbn [fst] in Hb. unfold big_mod_exp.
  destruct (Z.eqb_spec (be_load prime_str) 0) as [|Hne]; cbn [negb check]; [done|].
  rewrite !Ok_bind. intros [= <- _]. exists b. split; [done|]. split; [done|]. split; [done|].
  pose proof (be_load_nonneg prime_str). by rewrite mod_exp_spec by lia.
Qed.

Lemma reachable_wf h : reachable h -> dh_wf h.
Proof.
  induction 1 as [|h g_int s gen h' gen' _ IH Hg Hs|h hash h' _ IH Hs|h s h' _ IH Hs].
  - by split.
  - apply set_config_inv in Hs as (b & Hb & Hp & Hl & ->). pose proof (be_load_nonneg s).
    destruct IH as [_ _ Hga Hnga Hh].
    split; cbn; [|done|done|done|done]. intros _. split; cbn; (done || lia).
  - unfold set_g_a_hash in Hs. destruct (has_g_a_ h) eqn:Ha; cbn in Hs; [done|]. injection Hs as <-.
    destruct IH as [Hc Hnc _ Hnga _]; split; cbn; [|done|by (rewrite ?Ha)|intros _; by apply Hnga|done].
    intros Hhas. destruct (Hc Hhas). by split.
  - unfold set_g_a in Hs. destruct (from_binary s) as [g_a| |] eqn:Hg; [|done..].
    apply bn_from_binary_Ok in Hg as [-> Hl]. cbn in Hs. injection Hs as <-.
    destruct IH as [Hc Hnc _ _ Hh]; split; cbn; [|done|eauto|done|].
    + intros Hhas. destruct (Hc Hhas). by split.
    + destruct (has_g_a_hash_ h); [|intros Hok; by destruct (Hh Hok)].
      intros Hok. apply bool_decide_eq_true in Hok. eauto.
Qed.

Lemma config_g_b_range h : config_ok h -> 0 <= g_b_ h < prime_ h.
Proof. intros [_ _ _ Hp _ _ ->]. by apply Z.mod_pos_bound. Qed.

Lemma len_g_b h : config_ok h -> len (to_binary_min (g_b_ h)) < 2 ^ 31.
Proof.
  intros Hc. pose proof (config_g_b_range h Hc) as Hr. destruct Hc as [Hp Hl _ _ _ _ _].
  pose proof (be_load_range (prime_str_ h)). pose proof (len_nonneg (prime_str_ h)).
  pose proof (len_to_binary_min (g_b_ h) (len (prime_str_ h)) ltac:(lia) ltac:(done)). lia.
Qed.

(** The key that [gen_key] gives; when the other side's number is a power of
    [g], it is the power of the product of the exponents. *)
Lemma gen_key_value h :
  config_ok h -> has_config_ h = true -> has_g_a_ h = true -> prime_ h < 2 ^ 2048 ->
  exists key, gen_key h = Ok (calc_key_id key, key) /\ len key = 256 /\
    be_load key = (g_a_ h ^ b_ h) mod prime_ h.
Proof.
  intros Hc Hhas Hga Hp. unfold gen_key, get_g_ab, big_mod_exp. rewrite Hhas, Hga. cbn [andb check].
  rewrite Ok_bind. destruct Hc as [_ _ _ Hpos _ Hb _]. rewrite (proj2 (Z.eqb_neq _ _)) by lia. cbn [negb check].
  rewrite !Ok_bind, mod_exp_spec by lia.
  pose proof (Z.mod_pos_bound (g_a_ h ^ b_ h) (prime_ h) Hpos) as Hr.
  destruct (to_binary_ok (2048 / 8) (g_a_ h ^ b_ h mod prime_ h)) as (key & -> & Hl & Hk).
  - change (2048 / 8) with 256. rewrite bytes_2048. split; [lia|]. etrans; [apply Hr|]. exact Hp.
  - done.
  - rewrite Ok_bind. eauto.
Qed.

Lemma mod_pow_pow g a b p : 0 <= a -> 0 <= b -> ((g ^ a) mod p) ^ b mod p = g ^ (b * a) mod p.
Proof. intros Ha Hb. by rewrite Z.mod_pow_l, (Z.mul_comm b), Z.pow_mul_r. Qed.

Lemma gen_key_ok h g_a e :
  config_ok h -> has_config_ h = true -> has_g_a_ h = true -> prime_ h < 2 ^ 2048 -> 0 <= e ->
  g_a_ h = g_a mod prime_ h -> g_a = g_ h ^ e ->
  exists key, gen_key h = Ok (calc_key_id key, key) /\ len key = 256 /\
    be_load key = (g_ h ^ (b_ h * e)) mod prime_ h.
Proof.
  intros Hc Hhas Hga Hp He Hg ->. destruct (gen_key_value h Hc Hhas Hga Hp) as (key & Hk & Hl & Hv).
  exists key. split; [done|]. split; [done|]. rewrite Hv, Hg. apply mod_pow_pow; [done|]. apply Hc.
Qed.
End reachable.

(** * What is stored is restored *)

(** A restored handshake does not know the hash that was given in advance. *)
Definition forget_hash (h : dh_handshake) : dh_handshake :=
  mk_dh (prime_str_ h) (prime_ h) (g_ h) (g_int_ h) (b_ h) (g_b_ h) (g_a_ h) [] false false (has_config_ h)
    (has_g_a_ h).

(** Closing a step of [parse_dh]: the next string that was stored. *)
Lemma from_binary_min x : 0 <= x -> len (to_binary_min x) < 2 ^ 31 -> from_binary (to_binary_min x) = Ok x.
Proof.
  intros Hx Hl. unfold from_binary. rewrite (proj2 (Z.ltb_lt _ _)) by done. cbn [check].
  by rewrite Ok_bind, be_load_binary_min.
Qed.

Section storing.
Context `{BigNumLaws} {G : Type} `{BnRandLaws G} `{Sha}.

Lemma parse_config_stored h0 h :
  config_ok h ->
  exists out, tl_store_unsafe (store_config h) = Ok out /\ len out <= 2 ^ 33 /\
    forall pre rest, len (pre ++ out ++ rest) < max_size_t ->
    parse_config h0 (parsing pre (out ++ rest)) =
      Ok (mk_dh (prime_str_ h) (prime_ h) (g_ h) (g_int_ h) (b_ h) (g_b_ h) (g_a_ h0) (g_a_hash_ h0)
            (has_g_a_hash_ h0) (ok_g_a_hash_ h0) (has_config_ h0) (has_g_a_ h0), parsing (pre ++ out) rest).
Proof.
  intros Hc. pose proof (config_g_b_range _ Hc) as Hgb. pose proof (len_g_b _ Hc) as Hlgb.
  destruct Hc as [Hp Hl Hgi Hpos Hg Hb _].
  assert (Hlb : len (to_binary_min (b_ h)) <= 256) by (apply len_to_binary_min; [rewrite bytes_2048; exact Hb|lia]).
  destruct (fetch_string_stored (prime_str_ h)) as (o1 & Ho1 & Hl1 & Hf1); [lia|].
  destruct (fetch_string_stored (to_binary_min (b_ h))) as (o2 & Ho2 & Hl2 & Hf2); [lia|].
  destruct (fetch_string_stored (to_binary_min (g_b_ h))) as (o3 & Ho3 & Hl3 & Hf3); [lia|].
  unfold store_config. cbn [tl_store_unsafe store_value]. rewrite Ho1, Ho2, Ho3, !Ok_bind.
  eexists. split; [done|]. rewrite !len_app, len_le_store. change (len (@nil byte)) with 0. split; [lia|].
  intros pre rest Htot. unfold parse_config. rewrite <- !app_assoc in *.
  rewrite Hf1 by exact Htot. rewrite Ok_bind. cbn [fst snd].
  assert (Hfb : from_binary (prime_str_ h) = Ok (prime_ h)).
  { unfold from_binary. rewrite (proj2 (Z.ltb_lt _ _)) by done. cbn [check]. by rewrite Ok_bind, Hp. }
  rewrite Hfb, Ok_bind.
  rewrite Hf2 by (rewrite <- !app_assoc; exact Htot). rewrite Ok_bind. cbn [fst snd].
  rewrite from_binary_min, Ok_bind by lia.
  rewrite fetch_int_stored by (lia || (rewrite <- !app_assoc; exact Htot)). rewrite Ok_bind. cbn [fst snd].
  rewrite Hf3 by (rewrite <- !app_assoc; exact Htot). rewrite Ok_bind. cbn [fst snd].
  rewrite from_binary_min, Ok_bind by lia. rewrite <- Hg. cbn [app]. by rewrite app_nil_r, <- !app_assoc.
Qed.

Lemma parse_g_a_stored h0 h :
  dh_wf h -> has_g_a_ h = true ->
  exists out, tl_store_unsafe [TlString (to_binary_min (g_a_ h))] = Ok out /\ len out <= 2 ^ 33 /\
    forall pre rest, len (pre ++ out ++ rest) < max_size_t ->
    parse_g_a h0 (parsing pre (out ++ rest)) =
      Ok (mk_dh (prime_str_ h0) (prime_ h0) (g_ h0) (g_int_ h0) (b_ h0) (g_b_ h0) (g_a_ h) (g_a_hash_ h0)
            (has_g_a_hash_ h0) (ok_g_a_hash_ h0) (has_config_ h0) (has_g_a_ h0), parsing (pre ++ out) rest).
Proof.
  intros Hwf Ha. destruct (wf_g_a _ Hwf Ha) as (s & <- & Hs).
  pose proof (len_to_binary_min_be_load s). pose proof (be_load_nonneg s).
  destruct (fetch_string_stored (to_binary_min (be_load s))) as (o & Ho & Hl & Hf); [lia|].
  cbn [tl_store_unsafe store_value]. rewrite Ho, !Ok_bind, app_nil_r. eexists. split; [done|]. split; [lia|].
  intros pre rest Htot. unfold parse_g_a. rewrite Hf by done. rewrite Ok_bind. cbn [fst snd].
  by rewrite from_binary_min, Ok_bind by lia.
Qed.

Lemma fetch_flags x rest :
  - 2 ^ 31 <= x < 2 ^ 31 -> len rest <= 2 ^ 40 ->
  fetch_int (new_parser (le_store 4 x ++ rest)) = Ok (x, parsing (le_store 4 x) rest).
Proof.
  intros Hx Hr. rewrite new_parser_eq, fetch_int_stored; [done..|].
  cbn [app]. rewrite len_app, len_le_store. unfold max_size_t. lia.
Qed.

Lemma parse_stored h :
  dh_wf h ->
  exists out, tl_store_unsafe (store_dh h) = Ok out /\
    parse_dh new_dh (new_parser out) = Ok (forget_hash h, parsing out []).
Proof.
  intros Hwf. unfold store_dh. rewrite tl_store_app. cbn [tl_store_unsafe store_value]. rewrite !Ok_bind, tl_store_app.
  set (flags := Z.lor _ _). rewrite app_nil_r.
  assert (Hflags : - 2 ^ 31 <= flags < 2 ^ 31) by (subst flags; destruct (has_config_ h), (has_g_a_ h); vm_compute; split; congruence).
  assert (Hbit1 : negb (Z.land flags HasConfig =? 0) = has_config_ h)
    by (subst flags; by destruct (has_config_ h), (has_g_a_ h)).
  assert (Hbit2 : negb (Z.land flags HasGA =? 0) = has_g_a_ h)
    by (subst flags; by destruct (has_config_ h), (has_g_a_ h)).
  clearbody flags. unfold parse_dh, forget_hash.
  assert (Htot : forall a b, len a <= 2 ^ 33 -> len b <= 2 ^ 33 -> len (le_store 4 flags ++ a ++ b) < max_size_t)
    by (intros; rewrite !len_app, len_le_store; unfold max_size_t; lia).
  set (h0 := mk_dh [] 0 0 0 0 0 0 [] false false (has_config_ h) (has_g_a_ h)).
  destruct (has_config_ h) eqn:Hc, (has_g_a_ h) eqn:Ha.
  - destruct (parse_config_stored h0 h (wf_config _ Hwf Hc)) as (o1 & -> & Hl1 & Hp1).
    destruct (parse_g_a_stored (mk_dh (prime_str_ h) (prime_ h) (g_ h) (g_int_ h) (b_ h) (g_b_ h) 0 [] false false
      true true) h Hwf Ha) as (o2 & -> & Hl2 & Hp2).
    rewrite !Ok_bind. eexists. split; [done|]. rewrite fetch_flags by (rewrite ?len_app; lia). rewrite Ok_bind.
    cbn -[le_store]. rewrite Hbit1, Hbit2. fold h0. rewrite Hp1 by (by apply Htot). rewrite Ok_bind.
    cbn -[le_store]. rewrite <- (app_nil_r o2) at 1.
    rewrite Hp2 by (rewrite app_nil_r, <- app_assoc; by apply Htot). cbn -[le_store].
    by rewrite <- app_assoc.
  - destruct (parse_config_stored h0 h (wf_config _ Hwf Hc)) as (o1 & -> & Hl1 & Hp1).
    cbn [tl_store_unsafe]. rewrite !Ok_bind. eexists. split; [done|].
    rewrite fetch_flags by (rewrite ?app_nil_r; lia). rewrite Ok_bind.
    cbn -[le_store]. rewrite Hbit1, Hbit2. fold h0. rewrite Hp1 by (by apply Htot). rewrite Ok_bind.
    cbn -[le_store]. by rewrite (wf_no_g_a _ Hwf Ha), app_nil_r.
  - destruct (wf_no_config _ Hwf Hc) as (-> & -> & -> & -> & -> & ->).
    destruct (parse_g_a_stored h0 h Hwf Ha) as (o2 & -> & Hl2 & Hp2).
    cbn [tl_store_unsafe]. rewrite !Ok_bind. eexists. split; [done|]. cbn [app]. rewrite fetch_flags by lia.
    rewrite Ok_bind. cbn -[le_store]. rewrite Hbit1, Hbit2. fold h0. rewrite Ok_bind. cbn [fst snd].
    rewrite <- (app_nil_r o2) at 1. rewrite Hp2 by (by apply Htot). done.
  - destruct (wf_no_config _ Hwf Hc) as (-> & -> & -> & -> & -> & ->). rewrite (wf_no_g_a _ Hwf Ha).
    cbn [tl_store_unsafe]. rewrite !Ok_bind. eexists. split; [done|]. rewrite fetch_flags by (lia || done).
    rewrite Ok_bind. cbn -[le_store]. rewrite Hbit1, Hbit2. by rewrite app_nil_r.
Qed.
End storing.

(** * Properties *)

Section properties.
Context `{BigNumLaws} `{BnPrime} `{Sha} {G : Type} `{BnRandLaws G} {C : Type} {inv : C -> Prop} `{DhCallbackLaws C inv}.

Lemma run_checks_ok h skip (callback : option C) :
  reachable (G := G) h -> has_g_a_ h = true -> has_config_ h = true -> from_option_inv inv callback ->
  (skip = true -> get_num_bits (prime_ h) = 2048) ->
  let '(r, callback') := run_checks skip callback h in
  r <> Crash /\ from_option_inv inv callback' /\
  (r = Ok tt <->
     (has_g_a_hash_ h = true -> ok_g_a_hash_ h = true) /\
     (skip = false -> good_config (prime_ h) (g_int_ h) = true) /\
     dh_range (prime_ h) (g_a_ h) /\ dh_range (prime_ h) (g_b_ h)) /\
  (r = Ok tt -> has_g_a_hash_ h = true -> exists s, sha256 s = g_a_hash_ h /\ be_load s = g_a_ h).
Proof.
  intros Hh Hga Hcfg Hc Hskip.
  apply reachable_wf in Hh as [Hconf _ _ _ Hhash]. specialize (Hconf Hcfg).
  unfold run_checks. rewrite Hga, Hcfg. cbn [andb negb].
  destruct (has_g_a_hash_ h) eqn:Hhas, (ok_g_a_hash_ h) eqn:Hok; cbn [negb andb].
  2:{ split; [done|]. split; [done|]. split; [|done]. split; [done|]. intros [Hbad _]. by specialize (Hbad eq_refl). }
  all: assert (Hcommit : forall P : Prop, (P -> has_g_a_hash_ h = true ->
    exists s, sha256 s = g_a_hash_ h /\ be_load s = g_a_ h)) by
    (intros P _ Hb; rewrite Hhas in Hb; first [done | by destruct (Hhash eq_refl)]).
  all: rewrite Hhas in Hcommit.
  all: destruct skip; cbn [negb].
  1, 3, 5: destruct (dh_check_ok (prime_ h) (g_a_ h) (g_b_ h) (Hskip eq_refl)) as [Hnc Hiff];
    rewrite Ok_bind; split; [done|]; split; [done|]; split; [|apply Hcommit]; rewrite Hiff; naive_solver.
  all: rewrite (config_prime _ Hconf) in *.
  all: pose proof (check_config_ok (prime_str_ h) (g_int_ h) callback Hc) as Hcc; cbv zeta in Hcc.
  all: destruct (check_config (prime_str_ h) (be_load (prime_str_ h)) (g_int_ h) callback) as [r c'].
  all: destruct Hcc as (Hinv & Hnc & Hiff & _).
  all: destruct r as [[]|e|]; [|split; [done|]; split; [done|]; split; [|done]; naive_solver|done].
  all: rewrite Ok_bind; assert (Hgood : good_config (be_load (prime_str_ h)) (g_int_ h) = true) by (by apply Hiff).
  all: destruct (dh_check_ok (be_load (prime_str_ h)) (g_a_ h) (g_b_ h)) as [Hnc' Hiff'];
    [unfold good_config in Hgood; by to_prop|].
  all: split; [done|]; split; [done|]; split; [|apply Hcommit]; rewrite Hiff'; naive_solver.
Qed.

(** C19: [run_checks] never fails a check on a handshake that has a
    configuration and the other side's number (when it skips the configuration,
    the caller has checked the size of the prime). It succeeds exactly when the
    hash given in advance, if any, was right, the configuration is good (2048
    bits, the residue condition of [g], both primality tests) and both powers
    are between 2^1984 and p - 2^1984. After a success with a hash, the number
    is one that has this hash. The cache stays sound. *)
Theorem run_checks_spec h skip (callback : option C) r callback' :
  reachable (G := G) h -> has_g_a_ h = true -> has_config_ h = true -> from_option_inv inv callback ->
  (skip = true -> get_num_bits (prime_ h) = 2048) ->
  run_checks skip callback h = (r, callback') ->
  r <> Crash /\ from_option_inv inv callback' /\
  (r = Ok tt <->
     (has_g_a_hash_ h = true -> ok_g_a_hash_ h = true) /\
     (skip = false -> good_config (prime_ h) (g_int_ h) = true) /\
     dh_range (prime_ h) (g_a_ h) /\ dh_range (prime_ h) (g_b_ h)) /\
  (r = Ok tt -> has_g_a_hash_ h = true -> exists s, sha256 s = g_a_hash_ h /\ be_load s = g_a_ h).
Proof.
  intros Hh Hga Hcfg Hc Hskip Hrun. pose proof (run_checks_ok h skip callback Hh Hga Hcfg Hc Hskip) as Hok.
  by rewrite Hrun in Hok.
Qed.

(** C27: Two handshakes with the same configuration, each given the number that
    the other one sends, generate the same key, of 256 bytes. *)
Theorem key_agreement h1 h2 s1 s2 h1' h2' :
  reachable (G := G) h1 -> reachable (G := G) h2 -> has_config_ h1 = true -> has_config_ h2 = true ->
  prime_ h1 = prime_ h2 -> g_int_ h1 = g_int_ h2 -> prime_ h1 < 2 ^ 2048 ->
  get_g_b h1 = Ok s1 -> get_g_b h2 = Ok s2 -> set_g_a s2 h1 = Ok h1' -> set_g_a s1 h2 = Ok h2' ->
  exists key, gen_key h1' = Ok (calc_key_id key, key) /\ gen_key h2' = Ok (calc_key_id key, key) /\ len key = 256.
Proof.
  intros Hr1 Hr2 Hc1 Hc2 Hp Hg Hlt Hs1 Hs2 Hset1 Hset2.
  pose proof (wf_config _ (reachable_wf _ Hr1) Hc1) as Hok1. pose proof (wf_config _ (reachable_wf _ Hr2) Hc2) as Hok2.
  pose proof (config_g_b_range _ Hok1) as Hb1. pose proof (config_g_b_range _ Hok2) as Hb2.
  unfold get_g_b in Hs1, Hs2. rewrite Hc1 in Hs1. rewrite Hc2 in Hs2. cbn [check] in Hs1, Hs2. rewrite Ok_bind in Hs1, Hs2.
  injection Hs1 as <-. injection Hs2 as <-.
  pose proof (wf_config _ (reachable_wf _ (ReachGa _ _ _ Hr1 Hset1))) as Hok1'.
  pose proof (wf_config _ (reachable_wf _ (ReachGa _ _ _ Hr2 Hset2))) as Hok2'.
  unfold set_g_a in Hset1, Hset2.
  destruct (from_binary (to_binary_min (g_b_ h2))) as [x2| |] eqn:Hx2; [|done..].
  destruct (from_binary (to_binary_min (g_b_ h1))) as [x1| |] eqn:Hx1; [|done..].
  apply bn_from_binary_Ok in Hx1 as [-> _]. apply bn_from_binary_Ok in Hx2 as [-> _].
  rewrite be_load_binary_min in Hset1, Hset2 by lia. rewrite Ok_bind in Hset1, Hset2.
  injection Hset1 as <-. injection Hset2 as <-.
  assert (Hgg : g_ h1 = g_ h2) by (rewrite (config_g _ Hok1), (config_g _ Hok2); by rewrite Hg).
  destruct (gen_key_ok _ (g_ h1 ^ b_ h2) (b_ h2) (Hok1' Hc1)) as (k1 & Hk1 & Hl1 & Hv1); cbn; try done.
  { apply Hok2. }
  { by rewrite (config_g_b _ Hok2), Hgg, Hp. }
  destruct (gen_key_ok _ (g_ h2 ^ b_ h1) (b_ h1) (Hok2' Hc2)) as (k2 & Hk2 & Hl2 & Hv2); cbn; try done.
  { by rewrite <- Hp. }
  { apply Hok1. }
  { by rewrite (config_g_b _ Hok1), Hgg, Hp. }
  exists k1. split; [done|]. split; [|done]. cbn in Hv1, Hv2. rewrite Hk2. enough (k2 = k1) as -> by done.
  unfold be_load in *. apply (inj reverse), le_load_inj.
  - rewrite !length_reverse. unfold len in *. lia.
  - rewrite Hv1, Hv2. by rewrite Hgg, Hp, Z.mul_comm.
Qed.
(** A handshake that is stored and parsed again, in the middle of whatever
    the client is doing, is the same one, apart from the hash given in advance,
    which is not stored; the parser has no error and nothing is left. *)
Theorem dh_store_roundtrip h :
  reachable (G := G) h ->
  exists out p, tl_store_unsafe (store_dh h) = Ok out /\
    parse_dh new_dh (new_parser out) = Ok (forget_hash h, p) /\ error p = None /\ left_len p = 0.
Proof.
  intros Hh. apply reachable_wf in Hh. destruct (parse_stored h Hh) as (out & Hs & Hp).
  exists out, (parsing out []). done.
Qed.
End properties.

(** * Concrete runs *)

#[export] Instance script_rand : BnRand script := {|
  bn_rand bits g :=
    match draws g with
    | [] => (0, g)
    | u :: us => (u mod 2 ^ bits, mk_script us (fill g))
    end;
|}.

#[export] Instance script_rand_laws : BnRandLaws script.
Proof.
  constructor. intros bits [[|u us] f] Hb; cbn [bn_rand script_rand draws fst].
  - split; [lia|]. by apply Z.pow_pos_nonneg.
  - by apply Z.mod_pos_bound, Z.pow_pos_nonneg.
Qed.

(** A test that accepts every number. *)
Module AnyPrime.
#[export] Instance any_prime : BnPrime := {| bn_is_prime _ := true |}.
End AnyPrime.
Import AnyPrime Toy.
#[export] Existing Instance DhCache.cache.

Definition started (g_int : Z) (prime_str : bytes) (b : Z) : dh_handshake :=
  match set_config (G := script) g_int prime_str new_dh (mk_script [b] []) with
  | (Ok h, _) => h
  | _ => new_dh
  end.

Definition answered (g_a : bytes) (h : dh_handshake) : dh_handshake :=
  match set_g_a g_a h with Ok h => h | _ => h end.

Lemma started_reachable g_int prime_str b :
  - 2 ^ 31 <= g_int < 2 ^ 31 -> reachable (G := script) (started g_int prime_str b).
Proof.
  intros Hg. unfold started. destruct (set_config g_int prime_str new_dh (mk_script [b] [])) as [[h| |] gen] eqn:Hs;
    [|apply ReachNew..]. eapply ReachConfig; [apply ReachNew|exact Hg|exact Hs].
Qed.

Lemma answered_reachable g_a h : reachable (G := script) h -> reachable (G := script) (answered g_a h).
Proof. intros Hh. unfold answered. destruct (set_g_a g_a h) eqn:Hs; [|done..]. by eapply ReachGa. Qed.

Definition sample_dh : dh_handshake :=
  answered (z2b 1 :: zeros 250) (started 2 (z2b 128 :: zeros 254 ++ [z2b 7]) 2000).

Lemma run_checks_spec_witness :
  (run_checks (C := DhCache.pmc) false (Some (fun _ => [])) sample_dh).1 = Ok tt.
Proof.
  pose proof (DhCache.cache_laws eq_refl : DhCallbackLaws DhCache.pmc DhCache.sound) as Hlaws.
  assert (Hr : reachable (G := script) sample_dh)
    by (apply answered_reachable, started_reachable; split; vm_compute; congruence).
  destruct (run_checks (C := DhCache.pmc) false (Some (fun _ => [])) sample_dh) as [r c'] eqn:Hrun.
  destruct (run_checks_spec (G := script) (inv := DhCache.sound) sample_dh false (Some (fun _ => [])) r c' Hr
    ltac:(by vm_compute) ltac:(by vm_compute) ltac:(by left) ltac:(discriminate) Hrun) as (_ & _ & Hiff & _).
  cbn [fst]. apply Hiff. split; [by vm_compute|]. split; [by vm_compute|].
  split; apply in_dh_range; by vm_compute.
Defined.

Lemma key_agreement_witness :
  exists key, gen_key (answered (hex [8]) (started 5 (hex [23]) 15)) = Ok (calc_key_id key, key) /\
    gen_key (answered (hex [19]) (started 5 (hex [23]) 6)) = Ok (calc_key_id key, key) /\ len key = 256.
Proof.
  apply (key_agreement (G := script) (started 5 (hex [23]) 15) (started 5 (hex [23]) 6) (hex [19]) (hex [8])).
  - apply started_reachable. split; vm_compute; congruence.
  - apply started_reachable. split; vm_compute; congruence.
  - reflexivity.
  - reflexivity.
  - reflexivity.
  - reflexivity.
  - by vm_compute.
  - by vm_compute.
  - by vm_compute.
  - by vm_compute.
  - by vm_compute.
Defined.

Lemma dh_store_roundtrip_witness :
  exists out p, tl_store_unsafe (store_dh (started 5 (hex [23]) 15)) = Ok out /\
    parse_dh new_dh (new_parser out) = Ok (forget_hash (started 5 (hex [23]) 15), p) /\
    error p = None /\ left_len p = 0.
Proof.
  apply (dh_store_roundtrip (G := script)). apply started_reachable. split; vm_compute; congruence.
Defined.
