(* ===== verification/Kdf.v ===== *)
(** Key derivation: [mtproto/KDF.cpp], with the [UInt128]/[UInt256] values as
    byte strings and the stack buffers as byte strings that are overwritten.
    The theorems say that the buffers hold the concatenations of the MTProto
    documentation, for the 256-byte keys the callers have. *)
From S2P Require Import Prelude Bytes Crypto.
#[local] Open Scope Z_scope.

Section kdf.
Context `{Sha}.

(** [as<UInt<n>>(ptr)]: [n / 8] bytes at an offset. *)
Definition KDF (auth_key msg_key : bytes) (X : Z) : outcome (bytes * bytes) :=
  _ ← check (len auth_key =? 256);
  let buf := zeros 48 in
  let buf := write_at 0 msg_key buf in
  let buf := write_at 16 (substr X 32 auth_key) buf in
  let sha1_a := sha1 buf in
  let buf := write_at 0 (substr (X + 32) 16 auth_key) buf in
  let buf := write_at 16 msg_key buf in
  let buf := write_at 32 (substr (X + 48) 16 auth_key) buf in
  let sha1_b := sha1 buf in
  let buf := write_at 0 (substr (64 + X) 32 auth_key) buf in
  let buf := write_at 32 msg_key buf in
  let sha1_c := sha1 buf in
  let buf := write_at 0 msg_key buf in
  let buf := write_at 16 (substr (96 + X) 32 auth_key) buf in
  let sha1_d := sha1 buf in
  let aes_key := zeros 32 in
  let aes_key := write_at 0 (substr 0 8 sha1_a) aes_key in
  let aes_key := write_at 8 (substr 8 12 sha1_b) aes_key in
  let aes_key := write_at 20 (substr 4 12 sha1_c) aes_key in
  let aes_iv := zeros 32 in
  let aes_iv := write_at 0 (substr 8 12 sha1_a) aes_iv in
  let aes_iv := write_at 12 (substr 0 8 sha1_b) aes_iv in
  let aes_iv := write_at 20 (substr 16 4 sha1_c) aes_iv in
  let aes_iv := write_at 24 (substr 0 8 sha1_d) aes_iv in
  Ok (aes_key, aes_iv).

Definition tmp_KDF (server_nonce new_nonce : bytes) : bytes * bytes :=
  let buf := zeros 64 in
  let buf := write_at 0 new_nonce buf in
  let buf := write_at 32 server_nonce buf in
  let tmp_aes_key := write_at 0 (sha1 (substr 0 48 buf)) (zeros 32) in
  let buf := write_at 0 server_nonce buf in
  let buf := write_at 16 new_nonce buf in
  let sha1_server_new := sha1 (substr 0 48 buf) in
  let tmp_aes_key := write_at 20 (substr 0 12 sha1_server_new) tmp_aes_key in
  let tmp_aes_iv := write_at 0 (substr 12 8 sha1_server_new) (zeros 32) in
  let buf := write_at 0 new_nonce buf in
  let buf := write_at 32 new_nonce buf in
  let tmp_aes_iv := write_at 8 (sha1 (substr 0 64 buf)) tmp_aes_iv in
  let tmp_aes_iv := write_at 28 (substr 0 4 new_nonce) tmp_aes_iv in
  (tmp_aes_key, tmp_aes_iv).

(** [Slice::substr] checks its offset. *)
Definition KDF2 (auth_key msg_key : bytes) (X : Z) : outcome (bytes * bytes) :=
  let buf := write_at 0 msg_key (zeros 52) in
  _ ← check (X <=? len auth_key);
  let buf := write_at 16 (substr X 36 auth_key) buf in
  let sha256_a := sha256 buf in
  _ ← check (40 + X <=? len auth_key);
  let buf := write_at 0 (substr (40 + X) 36 auth_key) buf in
  let buf := write_at 36 msg_key buf in
  let sha256_b := sha256 buf in
  let aes_key := write_at 0 (substr 0 8 sha256_a) (zeros 32) in
  let aes_key := write_at 8 (substr 8 16 sha256_b) aes_key in
  let aes_key := write_at 24 (substr 24 8 sha256_a) aes_key in
  let aes_iv := write_at 0 (substr 0 8 sha256_b) (zeros 32) in
  let aes_iv := write_at 8 (substr 8 16 sha256_a) aes_iv in
  let aes_iv := write_at 24 (substr 24 8 sha256_b) aes_iv in
  Ok (aes_key, aes_iv).
End kdf.

(** * Buffers *)

(** A buffer of which every byte is written holds what was written. *)
Lemma write_at_all off s data :
  off = 0 -> len s = len data -> write_at off s data = s.
Proof.
  intros -> Hl. unfold write_at, len in *. change (Z.to_nat 0) with 0%nat. cbn [take app].
  rewrite drop_ge by lia. apply app_nil_r.
Qed.

(** Two writes that meet. *)
Lemma write_at_seq n off a b data :
  n = off + len a -> 0 <= off -> n + len b <= len data ->
  write_at n b (write_at off a data) = write_at off (a ++ b) data.
Proof.
  intros -> Ho Hl. pose proof (len_nonneg a). pose proof (len_nonneg b).
  unfold write_at. set (pre := take (Z.to_nat off) data).
  assert (Hp : length pre = Z.to_nat off) by (unfold pre, len in *; rewrite length_take; lia).
  assert (Hn : Z.to_nat (off + len a) = length (pre ++ a)) by (rewrite length_app; unfold len; lia).
  rewrite Hn, (app_assoc pre a), take_app_length, <- drop_drop, drop_app_length, drop_drop, <- !app_assoc.
  do 4 f_equal. rewrite length_app. lia.
Qed.

Lemma two_writes n a b data :
  n = len a -> len a + len b = len data -> write_at n b (write_at 0 a data) = a ++ b.
Proof.
  intros -> Hl. pose proof (len_nonneg a). pose proof (len_nonneg b).
  rewrite (write_at_seq (len a) 0) by lia. apply write_at_all; rewrite ?len_app; lia.
Qed.

Lemma three_writes n m a b c data :
  n = len a -> m = len a + len b -> len a + len b + len c = len data ->
  write_at m c (write_at n b (write_at 0 a data)) = a ++ b ++ c.
Proof.
  intros -> -> Hl. pose proof (len_nonneg a). pose proof (len_nonneg b). pose proof (len_nonneg c).
  rewrite (write_at_seq (len a) 0) by lia. rewrite app_assoc.
  apply (two_writes _ (a ++ b)); rewrite ?len_app; lia.
Qed.

Lemma four_writes n m k a b c d data :
  n = len a -> m = len a + len b -> k = len a + len b + len c ->
  len a + len b + len c + len d = len data ->
  write_at k d (write_at m c (write_at n b (write_at 0 a data))) = a ++ b ++ c ++ d.
Proof.
  intros -> -> -> Hl. pose proof (len_nonneg a). pose proof (len_nonneg b).
  pose proof (len_nonneg c). pose proof (len_nonneg d).
  rewrite (write_at_seq (len a) 0) by lia. rewrite app_assoc.
  apply (three_writes _ _ (a ++ b)); rewrite ?len_app; lia.
Qed.

(** A buffer of which a front part is used. *)
Lemma front_writes k n a b data :
  n = len a -> k = len a + len b -> k <= len data ->
  substr 0 k (write_at n b (write_at 0 a data)) = a ++ b.
Proof.
  intros -> -> Hl. pose proof (len_nonneg a). pose proof (len_nonneg b).
  rewrite (write_at_seq (len a) 0) by lia. unfold substr, write_at.
  change (Z.to_nat 0) with 0%nat. rewrite drop_0, take_0, app_nil_l, <- len_app. unfold len at 1.
  rewrite Nat2Z.id. apply take_app_length.
Qed.

(** * The documented formulas *)

Section formulas.
Context `{Sha}.

(** MTProto 1.0, with [x] for the offset into the key. *)
Definition kdf_formula (key msg_key : bytes) (x : Z) : bytes * bytes :=
  let a := sha1 (msg_key ++ substr x 32 key) in
  let b := sha1 (substr (x + 32) 16 key ++ msg_key ++ substr (x + 48) 16 key) in
  let c := sha1 (substr (64 + x) 32 key ++ msg_key) in
  let d := sha1 (msg_key ++ substr (96 + x) 32 key) in
  (substr 0 8 a ++ substr 8 12 b ++ substr 4 12 c,
   substr 8 12 a ++ substr 0 8 b ++ substr 16 4 c ++ substr 0 8 d).

(** MTProto 2.0. *)
Definition kdf2_formula (key msg_key : bytes) (x : Z) : bytes * bytes :=
  let a := sha256 (msg_key ++ substr x 36 key) in
  let b := sha256 (substr (40 + x) 36 key ++ msg_key) in
  (substr 0 8 a ++ substr 8 16 b ++ substr 24 8 a,
   substr 0 8 b ++ substr 8 16 a ++ substr 24 8 b).

(** The key of the handshake. *)
Definition tmp_kdf_formula (server_nonce new_nonce : bytes) : bytes * bytes :=
  let server_new := sha1 (server_nonce ++ new_nonce) in
  (sha1 (new_nonce ++ server_nonce) ++ substr 0 12 server_new,
   substr 12 8 server_new ++ sha1 (new_nonce ++ new_nonce) ++ substr 0 4 new_nonce).
End formulas.

Section correct.
Context `{ShaLaws}.

Lemma len_kdf2_formula key msg_key x :
  len (kdf2_formula key msg_key x).1 = 32 /\ len (kdf2_formula key msg_key x).2 = 32.
Proof.
  unfold kdf2_formula. cbn [fst snd]. rewrite !len_app, !len_substr; rewrite ?len_sha256; lia.
Qed.

Ltac lens :=
  rewrite ?len_app, ?len_substr, ?len_sha1, ?len_sha256, ?len_zeros
    by (rewrite ?len_sha1, ?len_sha256; lia); lia.

Ltac buf_lens := repeat (rewrite len_write_at by buf_lens); lens.

Ltac buffers :=
  repeat first
    [ rewrite four_writes by lens | rewrite three_writes by lens | rewrite two_writes by lens ].

Lemma KDF2_ok key msg_key x :
  len key = 256 -> len msg_key = 16 -> 0 <= x <= 8 ->
  KDF2 key msg_key x = Ok (kdf2_formula key msg_key x).
Proof.
  intros Hk Hm Hx. unfold KDF2, kdf2_formula. cbn zeta.
  rewrite !(proj2 (Z.leb_le _ _)) by lia. cbn [check]. rewrite !Ok_bind.
  buffers. reflexivity.
Qed.

Lemma KDF_ok key msg_key x :
  len key = 256 -> len msg_key = 16 -> 0 <= x <= 8 ->
  KDF key msg_key x = Ok (kdf_formula key msg_key x).
Proof.
  intros Hk Hm Hx. unfold KDF, kdf_formula. cbn zeta. rewrite Hk. cbn [check Z.eqb Pos.eqb].
  rewrite !Ok_bind. buffers. reflexivity.
Qed.

Lemma tmp_KDF_ok server_nonce new_nonce :
  len server_nonce = 16 -> len new_nonce = 32 ->
  tmp_KDF server_nonce new_nonce = tmp_kdf_formula server_nonce new_nonce.
Proof.
  intros Hs Hn. unfold tmp_KDF, tmp_kdf_formula. cbn zeta.
  rewrite (front_writes 48 32 new_nonce server_nonce) by lens.
  rewrite (front_writes 48 16 server_nonce new_nonce) by buf_lens.
  rewrite (front_writes 64 32 new_nonce new_nonce) by buf_lens.
  buffers. reflexivity.
Qed.

(** The two derivations of the packet keys and the one of the handshake are
    the documented formulas, and give a 32-byte key and a 32-byte iv. *)
Theorem key_derivation (key msg_key server_nonce new_nonce : bytes) (x : Z) :
  len key = 256 -> len msg_key = 16 -> 0 <= x <= 8 ->
  len server_nonce = 16 -> len new_nonce = 32 ->
  KDF key msg_key x = Ok (kdf_formula key msg_key x) /\
  KDF2 key msg_key x = Ok (kdf2_formula key msg_key x) /\
  tmp_KDF server_nonce new_nonce = tmp_kdf_formula server_nonce new_nonce /\
  Forall (fun kiv => len kiv.1 = 32 /\ len kiv.2 = 32)
    [kdf_formula key msg_key x; kdf2_formula key msg_key x; tmp_kdf_formula server_nonce new_nonce].
Proof.
  intros Hk Hm Hx Hs Hn.
  split; [by apply KDF_ok|]. split; [by apply KDF2_ok|]. split; [by apply tmp_KDF_ok|].
  repeat constructor; cbn [fst snd kdf_formula kdf2_formula tmp_kdf_formula]; lens.
Qed.
End correct.

Import Toy.

Lemma key_derivation_witness :
  KDF (zeros 256) (zeros 16) 8 = Ok (kdf_formula (zeros 256) (zeros 16) 8) /\
  KDF2 (zeros 256) (zeros 16) 8 = Ok (kdf2_formula (zeros 256) (zeros 16) 8).
Proof.
  destruct (key_derivation (zeros 256) (zeros 16) (zeros 16) (zeros 32) 8)
    as (Hkdf & Hkdf2 & _); try reflexivity.
  - split; discriminate.
  - split; [exact Hkdf | exact Hkdf2].
Defined.
