(* ===== verification/Transport.v ===== *)
(** MTProto packets: [mtproto/Transport.{h,cpp}] with [PacketInfo.h] and the
    part of [AuthKey.h] it uses.

    A packet is a byte string; [CryptoHeader] and [EndToEndHeader], which the
    code lays over the buffer with [reinterpret_cast], are offsets into it (the
    structures are packed to four bytes and have no holes).  Reading decrypts
    in place, so the readers return the buffer as it is afterwards.  Whatever a
    reader takes from the buffer it takes by [slice], which is [Crash] when it
    does not lie inside. *)
From S2P Require Import Prelude Bytes Random Crypto Buffer Kdf.
#[local] Open Scope Z_scope.

Inductive packet_type := Common | EndToEnd.

Record PacketInfo := mk_info {
  type_ : packet_type;
  message_ack : Z;
  salt : Z;
  session_id : Z;
  message_id : Z;
  seq_no : Z;
  version : Z;
  no_crypto_flag : bool;
  is_creator : bool;
  check_mod4 : bool;
  random_padding : bool;
}.

Definition set_message_ack (ack : Z) (i : PacketInfo) : PacketInfo :=
  mk_info (type_ i) ack (salt i) (session_id i) (message_id i) (seq_no i) (version i)
    (no_crypto_flag i) (is_creator i) (check_mod4 i) (random_padding i).

Definition set_no_crypto_flag (b : bool) (i : PacketInfo) : PacketInfo :=
  mk_info (type_ i) (message_ack i) (salt i) (session_id i) (message_id i) (seq_no i) (version i)
    b (is_creator i) (check_mod4 i) (random_padding i).

Definition set_type (t : packet_type) (i : PacketInfo) : PacketInfo :=
  mk_info t (message_ack i) (salt i) (session_id i) (message_id i) (seq_no i) (version i)
    (no_crypto_flag i) (is_creator i) (check_mod4 i) (random_padding i).

Definition set_header (salt session_id message_id seq_no : Z) (i : PacketInfo) : PacketInfo :=
  mk_info (type_ i) (message_ack i) salt session_id message_id seq_no (version i)
    (no_crypto_flag i) (is_creator i) (check_mod4 i) (random_padding i).

Record AuthKey := mk_AuthKey { id : Z; key : bytes }.

(** [Storer]: the size it announces and the bytes that [store] writes. *)
Record storer := mk_storer { storer_size : Z; stored : bytes }.

(** The template parameters [HeaderT] and [PrefixT]. *)
Inductive header_type := CryptoHeader | EndToEndHeader.

Definition sizeof_header (h : header_type) : Z :=
  match h with CryptoHeader => 40 | EndToEndHeader => 24 end.

Definition encrypted_header_size (h : header_type) : Z :=
  match h with CryptoHeader => 16 | EndToEndHeader => 0 end.

Definition sizeof_prefix (h : header_type) : Z :=
  match h with CryptoHeader => 16 | EndToEndHeader => 4 end.

(** The offset of [encrypt_begin()]. *)
Definition encrypt_offset (h : header_type) : Z := sizeof_header h - encrypted_header_size h.

(** [message_data_length] is the last field of either prefix. *)
Definition message_data_length (h : header_type) (data : bytes) : Z :=
  le_load (substr (sizeof_prefix h - 4) 4 data).

Definition sizeof_NoCryptoHeader : Z := 8.

(** [Transport::ReadResult]. *)
Inductive ReadResult :=
| Packet (packet : bytes)
| Nop
| ErrorCode (code : Z)
| Quickack (quick_ack : Z).

(** Memory of the buffer; reading outside of it is undefined behaviour. *)
Definition slice (from size : Z) (s : bytes) : outcome bytes :=
  _ ← check ((0 <=? from) && (0 <=? size) && (from + size <=? len s)); Ok (substr from size s).

Definition make_packet (packet : bytes) : outcome ReadResult :=
  _ ← check (negb (len packet =? 0)); Ok (Packet packet).

(** * Sizes *)

(** [(n + 15) & ~15]. *)
Definition round16 (n : Z) : Z := Z.land (n + 15) (-16).

Definition calc_crypto_size (h : header_type) (data_size : Z) : Z :=
  let enc_size := encrypted_header_size h in
  let raw_size := sizeof_header h - enc_size in
  raw_size + round16 (enc_size + data_size).

Definition padded_sizes : list Z := [64; 128; 192; 256; 384; 512; 768; 1024; 1280; 0].

Fixpoint first_fitting (n : Z) (sizes : list Z) : option Z :=
  match sizes with
  | [] => None
  | size :: sizes => if n <=? size then Some size else first_fitting n sizes
  end.

Definition do_calc_crypto_size2_basic (data_size enc_size raw_size : Z) : Z :=
  let encrypted_size := round16 (enc_size + data_size + 12) in
  match first_fitting encrypted_size padded_sizes with
  | Some size => raw_size + size
  | None =>
      let encrypted_size := (encrypted_size - 1280 + 447) / 448 * 448 + 1280 in
      raw_size + encrypted_size
  end.

Definition calc_no_crypto_size (data_size : Z) : Z := sizeof_NoCryptoHeader + data_size.

Definition read_auth_key_id (message : bytes) : outcome Z :=
  _ ← fail_if (len message <? 8) (Error 0 "Invalid MTProto message: smaller than 8 bytes");
  field ← slice 0 8 message;
  Ok (le_load field).

Section sizes.
Context {G : Type} `{RandomSource G}.

Definition do_calc_crypto_size2_rand (data_size enc_size raw_size : Z) (g : G) : Z * G :=
  let '(u, g) := secure_uint32 g in
  let rand_data_size := Z.land u 0xff in
  let encrypted_size := round16 (enc_size + data_size + rand_data_size + 12) in
  (raw_size + encrypted_size, g).

Definition calc_crypto_size2 (h : header_type) (data_size : Z) (info : PacketInfo) (g : G) : Z * G :=
  let enc_size := encrypted_header_size h in
  let raw_size := sizeof_header h - enc_size in
  if random_padding info then do_calc_crypto_size2_rand data_size enc_size raw_size g
  else (do_calc_crypto_size2_basic data_size enc_size raw_size, g).
End sizes.

(** * Message keys *)

Section keys.
Context `{Sha}.

(** [part] is the slice from [encrypt_begin()] to the end of the data. *)
Definition calc_message_ack_and_key (part : bytes) : Z * bytes :=
  let message_sha1 := sha1 part in
  (Z.lor (le_load (truncate 4 message_sha1)) (2 ^ 31), substr 4 16 message_sha1).

Definition calc_message_key2 (auth_key : AuthKey) (X : Z) (to_encrypt : bytes) : outcome (Z * bytes) :=
  _ ← check (88 + X <=? len (key auth_key));
  let msg_key_large := sha256 (substr (88 + X) 32 (key auth_key) ++ to_encrypt) in
  Ok (Z.lor (le_load (truncate 4 msg_key_large)) (2 ^ 31), substr 8 16 msg_key_large).
End keys.

(** The loop that compares the keys in constant time. *)
Fixpoint is_key_bad (real found : bytes) : Z :=
  match real, found with
  | a :: real, b :: found => Z.lor (Z.lxor (b2z a) (b2z b)) (is_key_bad real found)
  | _, _ => 0
  end.

(** * Reading *)

(** The result, the buffer and the packet info when a reader returns. *)
Definition reading : Type := outcome bytes * bytes * PacketInfo.

(** A value that is computed on the way. *)
Definition with_value {A} (r : outcome A) (message : bytes) (info : PacketInfo) (rest : A -> reading) : reading :=
  match r with
  | Ok a => rest a
  | Err e => (Err e, message, info)
  | Crash => (Crash, message, info)
  end.

Definition read_no_crypto (message : bytes) (info : PacketInfo) : reading :=
  if len message <? sizeof_NoCryptoHeader
  then (Err (Error 0 "Invalid MTProto message: too small"), message, info)
  else
    let data_size := len message - sizeof_NoCryptoHeader in
    ((_ ← check (len message =? calc_no_crypto_size data_size);
      slice sizeof_NoCryptoHeader data_size message), message, info).

Section crypto.
Context `{Sha} `{AesIge}.

(** What is checked once the message key is known to be right. *)
Definition check_length (h : header_type) (info : PacketInfo) (length tail_size : Z)
  (is_length_bad : bool) : outcome unit :=
  let data_size := length + sizeof_prefix h in
  if version info =? 2 then
    _ ← fail_if (check_mod4 info && negb (length mod 4 =? 0))
          (Error 0 "Invalid MTProto message: invalid length (not divisible by four)");
    _ ← fail_if (tail_size - sizeof_prefix h <? length)
          (Error 0 "Invalid MTProto message: invalid length (message_data_length is too big)");
    let pad_size := tail_size - data_size in
    fail_if ((pad_size <? 12) || (1024 <? pad_size))
      (Error 0 "Invalid MTProto message: invalid length (invalid padding length)")
  else fail_if is_length_bad (Error 0 "Invalid MTProto message: invalid length ").

Definition derive_key (info : PacketInfo) (key message_key : bytes) (X : Z)
  : outcome (bytes * bytes) :=
  if version info =? 1 then KDF key message_key X else KDF2 key message_key X.

(** From the decrypted buffer on. *)
Definition read_decrypted (h : header_type) (X : Z) (auth_key : AuthKey) (message_key to_decrypt message : bytes)
  (info : PacketInfo) : reading :=
  let tail_size := len message - sizeof_header h in
  if tail_size <? sizeof_prefix h then (Err (Error 0 "Too small encrypted part"), message, info)
  else
    with_value (slice (sizeof_header h) (sizeof_prefix h) message) message info (fun prefix =>
    let length := message_data_length h prefix in
    let data_size := length + sizeof_prefix h in
    let is_length_bad :=
      (version info =? 1) &&
      ((check_mod4 info && negb (length mod 4 =? 0))
       || negb (calc_crypto_size h data_size =? len message)) in
    let real :=
      if version info =? 1 then
        let check_size := if is_length_bad then tail_size else data_size in
        part ← slice (encrypt_offset h) (encrypted_header_size h + check_size) message;
        Ok (calc_message_ack_and_key part)
      else calc_message_key2 auth_key X to_decrypt in
    with_value real message info (fun '(ack, real_message_key) =>
      let info := set_message_ack ack info in
      ((_ ← fail_if (negb (is_key_bad real_message_key message_key =? 0))
              (Error 0 "Invalid MTProto message: message_key mismatch");
        _ ← check_length h info length tail_size is_length_bad;
        slice (sizeof_header h) data_size message), message, info))).

Definition read_crypto_impl (h : header_type) (X : Z) (message : bytes) (auth_key : AuthKey)
  (info : PacketInfo) : reading :=
  if len message <? sizeof_header h
  then (Err (Error 0 "Invalid MTProto message: too small"), message, info)
  else
    with_value (slice (encrypt_offset h) (len message - encrypt_offset h) message) message info (fun to_decrypt =>
    let to_decrypt := truncate (len to_decrypt - Z.land (len to_decrypt) 15) to_decrypt in
    with_value (slice 0 8 message) message info (fun auth_key_id =>
    if negb (le_load auth_key_id =? id auth_key)
    then (Err (Error 0 "Invalid MTProto message: auth_key_id mismatch"), message, info)
    else
      with_value (slice 8 16 message) message info (fun message_key =>
      with_value (derive_key info (key auth_key) message_key X) message info (fun '(aes_key, aes_iv) =>
        let decrypted := aes_ige_decrypt aes_key aes_iv to_decrypt in
        read_decrypted h X auth_key message_key decrypted
          (write_at (encrypt_offset h) decrypted message) info)))).

(** [TRY_STATUS], then the fields of the header and of the prefix. *)
Definition read_crypto (message : bytes) (auth_key : AuthKey) (info : PacketInfo) : reading :=
  match read_crypto_impl CryptoHeader 8 message auth_key info with
  | (Ok data, message, info) =>
      let info := set_type Common info in
      with_value (slice 24 8 message) message info (fun salt =>
      with_value (slice 32 8 message) message info (fun session_id =>
      with_value (slice 0 8 data) message info (fun msg_id =>
      with_value (slice 8 4 data) message info (fun seq_no =>
        (Ok data, message,
         set_header (le_load salt) (le_load session_id) (le_load msg_id) (int32 (le_load seq_no)) info)))))
  | r => r
  end.

Definition read_e2e_crypto (message : bytes) (auth_key : AuthKey) (info : PacketInfo) : reading :=
  let X := if is_creator info && negb (version info =? 1) then 8 else 0 in
  match read_crypto_impl EndToEndHeader X message auth_key info with
  | (Ok data, message, info) => (Ok data, message, set_type EndToEnd info)
  | r => r
  end.

Definition read_packet (message : bytes) (auth_key : AuthKey) (info : PacketInfo) : reading :=
  with_value (slice 0 8 message) message info (fun auth_key_id =>
  let info := set_no_crypto_flag (le_load auth_key_id =? 0) info in
  match type_ info with
  | EndToEnd => read_e2e_crypto message auth_key info
  | Common =>
      if no_crypto_flag info then read_no_crypto message info
      else if len (key auth_key) =? 0
      then (Err (Error 0 "Failed to decrypt MTProto message: auth key is empty"), message, info)
      else read_crypto message auth_key info
  end).

Definition read (message : bytes) (error_code : Z) (auth_key : AuthKey) (info : PacketInfo)
  : outcome ReadResult * bytes * PacketInfo :=
  if 300 <=? error_code then (Ok (ErrorCode (- error_code)), message, info)
  else if len message <? 16 then
    let result :=
      _ ← fail_if (len message <? 4) (Error 0 "Invalid MTProto message: smaller than 4 bytes");
      field ← slice 0 4 message;
      let code := int32 (le_load field) in
      if code =? 0 then Ok Nop
      else if (code =? -1) && (8 <=? len message) then
        quick_ack ← slice 4 4 message; Ok (Quickack (le_load quick_ack))
      else Ok (ErrorCode code) in
    (result, message, info)
  else
    let '(data, message, info) := read_packet message auth_key info in
    ((data ← data; make_packet data), message, info).
End crypto.

(** * Writing *)

Section write.
Context `{Sha} `{AesIge} {G : Type} `{RandomSource G}.

Definition write_no_crypto (s : storer) (prepend_size append_size : Z) : outcome BufferWriter :=
  _ ← check (len (stored s) =? storer_size s);
  Ok (create_writer (le_store 8 0 ++ stored s) prepend_size append_size).

(** [enc_header] is the part of the header that is encrypted, the salt and
    the session; the result is the whole packet. *)
Definition write_crypto_impl (h : header_type) (X : Z) (s : storer) (auth_key : AuthKey)
  (info : PacketInfo) (enc_header : bytes) (data_size padded_size : Z) (g : G)
  : outcome (bytes * PacketInfo * G) :=
  _ ← check (len (stored s) =? data_size);
  let pad_size := padded_size - (sizeof_header h + data_size) in
  let '(pad, g) := secure_bytes pad_size g in
  let to_encrypt := enc_header ++ stored s ++ pad in
  r ← (if version info =? 1 then Ok (calc_message_ack_and_key (enc_header ++ stored s))
       else calc_message_key2 auth_key X to_encrypt);
  let '(ack, message_key) := r in
  kiv ← derive_key info (key auth_key) message_key X;
  let '(aes_key, aes_iv) := kiv in
  Ok (le_store 8 (id auth_key) ++ message_key ++ aes_ige_encrypt aes_key aes_iv to_encrypt,
      set_message_ack ack info, g).

Definition padded_size (h : header_type) (data_size : Z) (info : PacketInfo) (g : G) : Z * G :=
  if version info =? 1 then (calc_crypto_size h data_size, g)
  else calc_crypto_size2 h data_size info g.

Definition write_crypto (s : storer) (auth_key : AuthKey) (info : PacketInfo)
  (prepend_size append_size : Z) (g : G) : outcome (BufferWriter * PacketInfo * G) :=
  let data_size := storer_size s in
  let '(padded_size, g) := padded_size CryptoHeader data_size info g in
  let enc_header := le_store 8 (salt info) ++ le_store 8 (session_id info) in
  r ← write_crypto_impl CryptoHeader 0 s auth_key info enc_header data_size padded_size g;
  let '(packet, info, g) := r in
  Ok (create_writer packet prepend_size append_size, info, g).

Definition write_e2e_crypto (s : storer) (auth_key : AuthKey) (info : PacketInfo)
  (prepend_size append_size : Z) (g : G) : outcome (BufferWriter * PacketInfo * G) :=
  let data_size := storer_size s in
  let '(padded_size, g) := padded_size EndToEndHeader data_size info g in
  let X := if is_creator info || (version info =? 1) then 0 else 8 in
  r ← write_crypto_impl EndToEndHeader X s auth_key info [] data_size padded_size g;
  let '(packet, info, g) := r in
  Ok (create_writer packet prepend_size append_size, info, g).

Definition write (s : storer) (auth_key : AuthKey) (info : PacketInfo)
  (prepend_size append_size : Z) (g : G) : outcome (BufferWriter * PacketInfo * G) :=
  match type_ info with
  | EndToEnd => write_e2e_crypto s auth_key info prepend_size append_size g
  | Common =>
      if no_crypto_flag info then
        packet ← write_no_crypto s prepend_size append_size; Ok (packet, info, g)
      else
        _ ← check (negb (len (key auth_key) =? 0));
        write_crypto s auth_key info prepend_size append_size g
  end.
End write.

(** * Sealed packets *)

Lemma round16_spec n : 0 <= n -> round16 n mod 16 = 0 /\ n <= round16 n < n + 16.
Proof.
  intros Hn. unfold round16. change (-16) with (Z.lnot (Z.ones 4)).
  rewrite <- Z.ldiff_land, Z.ldiff_ones_r, Z.shiftr_div_pow2, Z.shiftl_mul_pow2 by lia.
  change (2 ^ 4) with 16. split; [apply Z.mod_mul; lia | div_mod_lia].
Qed.

Lemma is_key_bad_spec real found :
  length real = length found -> is_key_bad real found = 0 <-> real = found.
Proof.
  revert found. induction real as [|a real IH]; intros [|b found] Hl; try done.
  injection Hl as Hl. cbn [is_key_bad].
  rewrite Z.lor_eq_0_iff, Z.lxor_eq_0_iff. rewrite (IH found Hl).
  split; [|by intros [= -> ->]].
  intros [E ->]. by rewrite (b2z_inj _ _ E).
Qed.

Lemma encrypt_offset_24 h : encrypt_offset h = 24.
Proof. by destruct h. Qed.

Lemma slice_ok from size s : 0 <= from -> 0 <= size -> from + size <= len s -> slice from size s = Ok (substr from size s).
Proof. intros Hf Hs Hl. unfold slice. by rewrite !(proj2 (Z.leb_le _ _)) by lia. Qed.

Lemma slice_app n (a b c : bytes) : n = len a -> slice n (len b) (a ++ b ++ c) = Ok b.
Proof.
  intros ->. pose proof (len_nonneg a). pose proof (len_nonneg b). pose proof (len_nonneg c).
  rewrite slice_ok by (rewrite ?len_app; lia). f_equal. by apply substr_app_mid'.
Qed.

Lemma prefix_field h s :
  sizeof_header h + sizeof_prefix h <= len s ->
  message_data_length h (substr (sizeof_header h) (sizeof_prefix h) s) = message_data_length h (substr_from (sizeof_header h) s).
Proof.
  intros Hl. unfold message_data_length, substr, substr_from. f_equal. set (T := drop _ s).
  assert (Hn : (Z.to_nat (sizeof_prefix h - 4) + Z.to_nat 4 = Z.to_nat (sizeof_prefix h))%nat) by (destruct h; cbn; lia).
  rewrite <- Hn, <- take_drop_commute, take_take. done.
Qed.

(** ** Inside of the buffer *)

Section inside.
Context `{Sha} `{AesIge}.

(** The checks of the sizes keep every slice inside of the buffer. *)
Lemma read_decrypted_inside h X k mk td message info :
  sizeof_header h <= len message ->
  read_decrypted h X k mk td message info =
  let tail_size := len message - sizeof_header h in
  if tail_size <? sizeof_prefix h then (Err (Error 0 "Too small encrypted part"), message, info)
  else
    let length := message_data_length h (substr_from (sizeof_header h) message) in
    let data_size := length + sizeof_prefix h in
    let is_length_bad :=
      (version info =? 1) &&
      ((check_mod4 info && negb (length mod 4 =? 0))
       || negb (calc_crypto_size h data_size =? len message)) in
    let real :=
      if version info =? 1 then
        let check_size := if is_length_bad then tail_size else data_size in
        Ok (calc_message_ack_and_key
              (substr (encrypt_offset h) (encrypted_header_size h + check_size) message))
      else calc_message_key2 k X td in
    with_value real message info (fun '(ack, real_message_key) =>
      let info := set_message_ack ack info in
      ((_ ← fail_if (negb (is_key_bad real_message_key mk =? 0))
              (Error 0 "Invalid MTProto message: message_key mismatch");
        _ ← check_length h info length tail_size is_length_bad;
        slice (sizeof_header h) data_size message), message, info)).
Proof.
  intros Hl. unfold read_decrypted. cbv zeta. destruct (Z.ltb_spec (len message - sizeof_header h) (sizeof_prefix h)) as [|Hp]; [done|].
  rewrite slice_ok by (destruct h; cbn in *; lia). cbn [with_value]. rewrite prefix_field by lia.
  assert (Hn : 0 <= message_data_length h (substr_from (sizeof_header h) message)) by apply le_load_range.
  set (n := message_data_length h _) in *. set (bad := (version info =? 1) && _).
  destruct (version info =? 1) eqn:Ev; [|done]. rewrite slice_ok; [done|destruct h; done| |].
  - destruct bad; destruct h; cbn in *; lia.
  - rewrite encrypt_offset_24. destruct bad eqn:Eb; [destruct h; cbn in *; lia|]. unfold bad in Eb. cbn [andb] in Eb.
    apply orb_false_iff in Eb as [_ Eb]. apply negb_false_iff, Z.eqb_eq in Eb. unfold calc_crypto_size in Eb.
    destruct (round16_spec (encrypted_header_size h + (n + sizeof_prefix h))) as [_ Hr]; [destruct h; cbn; lia|].
    destruct h; cbn in *; lia.
Qed.

Lemma read_crypto_impl_inside h X message k info :
  read_crypto_impl h X message k info =
  if len message <? sizeof_header h
  then (Err (Error 0 "Invalid MTProto message: too small"), message, info)
  else
    let message_key := substr 8 16 message in
    let to_decrypt := substr_from (encrypt_offset h) message in
    let to_decrypt := truncate (len to_decrypt - Z.land (len to_decrypt) 15) to_decrypt in
    if negb (le_load (truncate 8 message) =? id k)
    then (Err (Error 0 "Invalid MTProto message: auth_key_id mismatch"), message, info)
    else
      with_value (derive_key info (key k) message_key X) message info (fun '(aes_key, aes_iv) =>
        let decrypted := aes_ige_decrypt aes_key aes_iv to_decrypt in
        read_decrypted h X k message_key decrypted (write_at (encrypt_offset h) decrypted message) info).
Proof.
  unfold read_crypto_impl. destruct (Z.ltb_spec (len message) (sizeof_header h)) as [|Hl]; [done|].
  assert (H24 : 24 <= len message) by (destruct h; cbn in Hl; lia). rewrite encrypt_offset_24.
  rewrite !slice_ok by lia. cbn [with_value].
  replace (substr 24 (len message - 24) message) with (substr_from 24 message); [done|]. unfold substr, substr_from.
  symmetry. apply take_ge. rewrite length_drop. unfold len in *. lia.
Qed.

Lemma read_packet_inside message k info :
  8 <= len message ->
  read_packet message k info =
  let info := set_no_crypto_flag (le_load (truncate 8 message) =? 0) info in
  match type_ info with
  | EndToEnd => read_e2e_crypto message k info
  | Common =>
      if no_crypto_flag info then read_no_crypto message info
      else if len (key k) =? 0
      then (Err (Error 0 "Failed to decrypt MTProto message: auth key is empty"), message, info)
      else read_crypto message k info
  end.
Proof. intros Hl. unfold read_packet. by rewrite slice_ok by lia. Qed.
End inside.

Section seal.
Context `{Sha} `{AesIge}.

(** The message key and the acknowledgement token of the two versions: of
    the data without its padding (1.0), of a part of the key and all that is
    encrypted (2.0). *)
Definition key_digest (v : Z) (auth_key : AuthKey) (X : Z) (part padding : bytes) : bytes :=
  if v =? 1 then sha1 part else sha256 (substr (88 + X) 32 (key auth_key) ++ part ++ padding).

Definition message_key_of (v : Z) (auth_key : AuthKey) (X : Z) (part padding : bytes) : bytes :=
  substr (if v =? 1 then 4 else 8) 16 (key_digest v auth_key X part padding).

Definition ack_of (v : Z) (auth_key : AuthKey) (X : Z) (part padding : bytes) : Z :=
  Z.lor (le_load (truncate 4 (key_digest v auth_key X part padding))) (2 ^ 31).

Definition key_iv_of (v : Z) (auth_key : AuthKey) (X : Z) (message_key : bytes) : bytes * bytes :=
  if v =? 1 then kdf_formula (key auth_key) message_key X
  else kdf2_formula (key auth_key) message_key X.

(** The packet of the MTProto documentation: key id, message key, AES-IGE. *)
Definition seal (v : Z) (auth_key : AuthKey) (X : Z) (part padding : bytes) : bytes :=
  let message_key := message_key_of v auth_key X part padding in
  let key_iv := key_iv_of v auth_key X message_key in
  le_store 8 (id auth_key) ++ message_key
    ++ aes_ige_encrypt key_iv.1 key_iv.2 (part ++ padding).

(** The data of a packet: a prefix whose length field is right. *)
Record data_ok (h : header_type) (mod4 : bool) (data : bytes) : Prop := {
  data_prefix : sizeof_prefix h <= len data;
  data_length : len data = message_data_length h data + sizeof_prefix h;
  data_mod4 : mod4 = true -> message_data_length h data mod 4 = 0;
}.

Record key_ok (auth_key : AuthKey) : Prop := {
  key_size : len (key auth_key) = 256;
  id_range : 0 <= id auth_key < 2 ^ 64;
}.
End seal.

Section reading.
Context `{ShaLaws} `{AesIgeLaws}.

Lemma len_message_key v k X part padding : len (message_key_of v k X part padding) = 16.
Proof.
  unfold message_key_of, key_digest. destruct (v =? 1); rewrite len_substr; rewrite ?len_sha1, ?len_sha256; lia.
Qed.

Lemma derive_key_ok info k message_key X :
  key_ok k -> len message_key = 16 -> 0 <= X <= 8 ->
  derive_key info (key k) message_key X = Ok (key_iv_of (version info) k X message_key).
Proof.
  intros [Hk _] Hm HX. unfold derive_key, key_iv_of.
  destruct (version info =? 1); [by apply KDF_ok | by apply KDF2_ok].
Qed.

Lemma message_key2_ok v k X part padding :
  key_ok k -> 0 <= X <= 8 -> v <> 1 ->
  calc_message_key2 k X (part ++ padding) =
    Ok (ack_of v k X part padding, message_key_of v k X part padding).
Proof.
  intros [Hk _] HX Hv. unfold calc_message_key2, ack_of, message_key_of, key_digest.
  rewrite (proj2 (Z.leb_le _ _)) by lia. by rewrite (proj2 (Z.eqb_neq v 1)) by done.
Qed.

(** A packet of at least a header, taken apart. *)
Lemma packet_split (message : bytes) :
  24 <= len message -> exists key_id message_key body rest,
    message = key_id ++ message_key ++ body ++ rest /\ len key_id = 8 /\ len message_key = 16 /\
    len body mod 16 = 0 /\ len rest < 16.
Proof.
  intros Hl.
  assert (Hsplit : forall n (s : bytes), 0 <= n <= len s -> exists a b, s = a ++ b /\ len a = n).
  { intros n s Hn. exists (take (Z.to_nat n) s), (drop (Z.to_nat n) s).
    split; [by rewrite take_drop|]. rewrite len_take by lia. lia. }
  destruct (Hsplit 8 message ltac:(lia)) as (a & m1 & -> & Ha). rewrite len_app in Hl.
  destruct (Hsplit 16 m1 ltac:(lia)) as (b & m2 & -> & Hb). rewrite len_app in Hl.
  pose proof (len_nonneg m2).
  destruct (Hsplit (len m2 - len m2 mod 16) m2) as (c & d & -> & Hc); [div_mod_lia|].
  exists a, b, c, d. rewrite len_app in *. repeat split; try done; [|div_mod_lia].
  rewrite Hc. div_mod_lia.
Qed.

(** Up to the decryption. *)
Lemma read_opened h X key_id message_key body rest k info :
  key_ok k -> 0 <= X <= 8 -> len key_id = 8 -> len message_key = 16 -> len body mod 16 = 0 ->
  len rest < 16 -> sizeof_header h <= len (key_id ++ message_key ++ body ++ rest) ->
  le_load key_id = id k ->
  let kiv := key_iv_of (version info) k X message_key in
  let plain := aes_ige_decrypt kiv.1 kiv.2 body in
  read_crypto_impl h X (key_id ++ message_key ++ body ++ rest) k info =
    read_decrypted h X k message_key plain (key_id ++ message_key ++ plain ++ rest) info.
Proof.
  intros Hk HX Hi Hm Hb Hr Hl Hid kiv plain. rewrite read_crypto_impl_inside.
  rewrite (proj2 (Z.ltb_ge _ _)) by done. rewrite encrypt_offset_24.
  assert (Hkey : substr 8 16 (key_id ++ message_key ++ body ++ rest) = message_key)
    by (apply substr_app_mid'; lia).
  assert (Ht : truncate 8 (key_id ++ message_key ++ body ++ rest) = key_id).
  { rewrite <- Hi. unfold truncate, len. rewrite Nat2Z.id. apply take_app_length. }
  assert (Hs : substr_from 24 (key_id ++ message_key ++ body ++ rest) = body ++ rest).
  { rewrite app_assoc. replace 24 with (len (key_id ++ message_key)) by (rewrite len_app; lia).
    unfold substr_from, len. rewrite Nat2Z.id. apply drop_app_length. }
  rewrite Hkey, Ht, Hs, Hid, Z.eqb_refl. cbn [negb].
  cbv zeta. rewrite derive_key_ok by done. fold kiv. destruct kiv as [aes_key aes_iv] eqn:Ekiv. cbn [with_value].
  cbn [fst snd] in plain.
  assert (Hcut : truncate (len (body ++ rest) - Z.land (len (body ++ rest)) 15) (body ++ rest) = body).
  { pose proof (len_nonneg body). pose proof (len_nonneg rest). rewrite land_15, len_app.
    replace (len body + len rest - (len body + len rest) mod 16) with (len body) by div_mod_lia.
    unfold truncate, len. rewrite Nat2Z.id. apply take_app_length. }
  rewrite Hcut. fold plain. f_equal. rewrite !(app_assoc key_id).
  apply write_at_app'; [rewrite len_app; lia|]. unfold plain. by apply len_aes_ige_decrypt.
Qed.
End reading.

(** * What is accepted *)

Lemma message_data_length_app h data padding :
  sizeof_prefix h <= len data ->
  message_data_length h (data ++ padding) = message_data_length h data.
Proof.
  intros Hl. unfold message_data_length, substr. f_equal.
  assert (Hp : 4 <= sizeof_prefix h) by (by destruct h). unfold len in Hl.
  rewrite drop_app_le, take_app_le; [done| |]; rewrite ?length_drop; lia.
Qed.

Lemma message_data_length_nonneg h data : 0 <= message_data_length h data.
Proof. apply le_load_range. Qed.

(** The data of an accepted packet is a front part of what follows the header. *)
Lemma data_ok_take h mod4 T :
  sizeof_prefix h <= len T -> message_data_length h T + sizeof_prefix h <= len T ->
  (mod4 = true -> message_data_length h T mod 4 = 0) ->
  let data := take (Z.to_nat (message_data_length h T + sizeof_prefix h)) T in
  data_ok h mod4 data /\ message_data_length h data = message_data_length h T /\
  len data = message_data_length h T + sizeof_prefix h.
Proof.
  intros Hp Hl H4 data. pose proof (message_data_length_nonneg h T).
  assert (0 < sizeof_prefix h) by (by destruct h).
  assert (Hd : len data = message_data_length h T + sizeof_prefix h)
    by (unfold data; rewrite len_take; lia).
  assert (Hm : message_data_length h T = message_data_length h data).
  { rewrite <- (message_data_length_app h data (drop (Z.to_nat (message_data_length h T + sizeof_prefix h)) T))
      by lia. unfold data. by rewrite take_drop. }
  split; [|by split]. split; [lia | lia | by rewrite <- Hm].
Qed.

Section accept.
Context `{ShaLaws} `{AesIgeLaws}.
Context (h : header_type) (X : Z) (k : AuthKey) (message_key plain pre enc T : bytes) (info : PacketInfo).
Context (Hk : key_ok k) (HX : 0 <= X <= 8) (Hm : len message_key = 16).
Context (Hpre : len pre = 24) (Henc : len enc = encrypted_header_size h).

Lemma sizeof_header_split : sizeof_header h = len (pre ++ enc).
Proof. rewrite len_app, Hpre, Henc. by destruct h. Qed.

Lemma tail_slice : substr_from (sizeof_header h) (pre ++ enc ++ T) = T.
Proof.
  rewrite sizeof_header_split, app_assoc. unfold substr_from, len. rewrite Nat2Z.id.
  apply drop_app_length.
Qed.

Lemma data_slice n : 0 <= n -> substr (sizeof_header h) n (pre ++ enc ++ T) = take (Z.to_nat n) T.
Proof. intros Hn. unfold substr. f_equal. apply tail_slice. Qed.

Lemma part_slice n : 0 <= n ->
  substr (encrypt_offset h) (encrypted_header_size h + n) (pre ++ enc ++ T) = enc ++ take (Z.to_nat n) T.
Proof.
  intros Hn. rewrite encrypt_offset_24, <- Henc, <- Hpre. unfold substr, len. rewrite Nat2Z.id.
  rewrite drop_app_length. replace (Z.to_nat (Z.of_nat (length enc) + n)) with (length enc + Z.to_nat n)%nat by lia.
  by rewrite take_app_add.
Qed.

Lemma tail_size : len (pre ++ enc ++ T) - sizeof_header h = len T.
Proof. rewrite sizeof_header_split, !len_app. lia. Qed.

Lemma header_inside : sizeof_header h <= len (pre ++ enc ++ T).
Proof. rewrite app_assoc, len_app, <- sizeof_header_split. pose proof (len_nonneg T). lia. Qed.

Lemma data_inside n : 0 <= n <= len T -> slice (sizeof_header h) n (pre ++ enc ++ T) = Ok (take (Z.to_nat n) T).
Proof.
  intros Hn. pose proof tail_size. rewrite slice_ok, data_slice by (lia || by destruct h). done.
Qed.

(** A slice of the data, or nothing. *)
Lemma data_inside_ok n r : 0 <= n -> slice (sizeof_header h) n (pre ++ enc ++ T) = Ok r -> n <= len T /\ r = take (Z.to_nat n) T.
Proof.
  intros Hn Hr. pose proof tail_size. destruct (Z.le_gt_cases n (len T)) as [Hle|Hgt].
  - rewrite data_inside in Hr by lia. by injection Hr.
  - unfold slice in Hr. rewrite (proj2 (Z.leb_gt (_ + _) _)), andb_false_r in Hr by lia. done.
Qed.

Lemma key_checked (real found : bytes) :
  len real = 16 -> len found = 16 -> negb (is_key_bad real found =? 0) = false <-> found = real.
Proof.
  intros Hr Hf. rewrite negb_false_iff, Z.eqb_eq, is_key_bad_spec by (unfold len in *; lia).
  naive_solver.
Qed.

Lemma read_decrypted_2 data message' info' :
  version info = 2 ->
  read_decrypted h X k message_key plain (pre ++ enc ++ T) info = (Ok data, message', info') <->
  message_key = message_key_of 2 k X plain [] /\ message' = pre ++ enc ++ T /\
  info' = set_message_ack (ack_of 2 k X plain []) info /\
  exists padding, T = data ++ padding /\ data_ok h (check_mod4 info) data /\ 12 <= len padding <= 1024.
Proof.
  intros Hv. rewrite read_decrypted_inside by exact header_inside. rewrite tail_size, tail_slice, Hv. cbn [Z.eqb Pos.eqb andb].
  pose proof (message_key2_ok 2 k X plain [] Hk HX ltac:(lia)) as Hkey. rewrite app_nil_r in Hkey.
  rewrite Hkey. cbv zeta. cbn [with_value]. set (real := message_key_of 2 k X plain []). pose proof (message_data_length_nonneg h T).
  assert (Hp : 4 <= sizeof_prefix h) by (by destruct h).
  assert (Hc := key_checked real message_key (len_message_key _ _ _ _ _) Hm).
  unfold check_length. cbn [version set_message_ack check_mod4]. rewrite Hv. cbn [Z.eqb Pos.eqb].
  split.
  - destruct (len T <? sizeof_prefix h) eqn:E0; [by intros [=]|]. intros [= Hr <- <-].
    simp_outcome. to_prop. apply data_inside_ok in Hr as [_ ->]; [|lia].
    destruct (data_ok_take h (check_mod4 info) T) as (Hd & Hl1 & Hl2); try lia.
    { destruct (check_mod4 info); [|done]. cbn in *. to_prop. intros _. lia. }
    split; [by apply Hc, negb_false_iff, Z.eqb_eq|]. split; [done|]. split; [done|].
    eexists. split; [symmetry; apply take_drop|]. split; [done|]. rewrite len_drop by lia. lia.
  - intros (Hkeq & -> & -> & padding & -> & [Hd1 Hd2 Hd3] & Hpad).
    rewrite message_data_length_app by done. rewrite !len_app. pose proof (len_nonneg padding).
    rewrite (proj2 (Z.ltb_ge _ _)) by lia. rewrite (proj2 Hc) by done. cbn [fail_if]. rewrite Ok_bind.
    assert (check_mod4 info && negb (message_data_length h data mod 4 =? 0) = false) as ->.
    { destruct (check_mod4 info); [|done]. by rewrite Hd3. }
    cbn [fail_if]. rewrite !(proj2 (Z.ltb_ge _ _)) by lia. cbn [fail_if orb]. rewrite !Ok_bind.
    rewrite <- Hd2, app_assoc. by rewrite slice_app by exact sizeof_header_split.
Qed.

Lemma read_decrypted_1 data message' info' :
  version info = 1 ->
  read_decrypted h X k message_key plain (pre ++ enc ++ T) info = (Ok data, message', info') <->
  exists padding, T = data ++ padding /\ data_ok h (check_mod4 info) data /\
    round16 (len (enc ++ data)) = len (enc ++ T) /\
    message_key = message_key_of 1 k X (enc ++ data) padding /\ message' = pre ++ enc ++ T /\
    info' = set_message_ack (ack_of 1 k X (enc ++ data) padding) info.
Proof.
  intros Hv. rewrite read_decrypted_inside by exact header_inside. rewrite tail_size, tail_slice, Hv. cbn [Z.eqb Pos.eqb andb].
  pose proof (message_data_length_nonneg h T). pose proof (len_nonneg T).
  assert (Hp : 4 <= sizeof_prefix h) by (by destruct h).
  assert (Hsize : forall n, calc_crypto_size h n = 24 + round16 (len enc + n)).
  { intros n. rewrite Henc. unfold calc_crypto_size. by destruct h. }
  rewrite Hsize.
  unfold check_length. cbn [version set_message_ack check_mod4]. rewrite Hv. cbn [Z.eqb Pos.eqb].
  destruct (len T <? sizeof_prefix h) eqn:E0.
  { split; [by intros [=]|]. intros (padding & -> & [Hd1 _ _] & _). to_prop.
    rewrite len_app in E0. pose proof (len_nonneg padding). lia. }
  destruct (check_mod4 info && negb (message_data_length h T mod 4 =? 0)
            || negb (24 + round16 (len enc + (message_data_length h T + sizeof_prefix h)) =?
                       len (pre ++ enc ++ T))) eqn:Ebad.
  - cbv zeta. cbn [with_value]. rewrite part_slice by lia. unfold calc_message_ack_and_key. split.
    + intros [= Hr _ _]. simp_outcome.
    + intros (padding & -> & [Hd1 Hd2 Hd3] & Hround & _). exfalso.
      rewrite message_data_length_app in Ebad by done.
      apply orb_true_iff in Ebad as [Ebad|Ebad].
      * apply andb_true_iff in Ebad as [E4 Ebad]. rewrite (Hd3 E4) in Ebad. done.
      * apply negb_true_iff, Z.eqb_neq in Ebad. apply Ebad. rewrite (len_app pre), Hpre.
        by rewrite <- Hround, len_app, Hd2.
  - cbv zeta. cbn [with_value]. rewrite part_slice by lia. unfold calc_message_ack_and_key. to_prop.
    rewrite (len_app pre), Hpre in *. remember (message_data_length h T + sizeof_prefix h) as n eqn:En.
    rewrite len_app in *. pose proof (len_nonneg enc).
    pose proof (round16_spec (len enc + n) ltac:(lia)).
    destruct (data_ok_take h (check_mod4 info) T) as (Hd & Hl1 & Hl2); [lia|lia|..].
    { destruct (check_mod4 info); [|done]. cbn in *. to_prop. intros _. lia. }
    rewrite <- En in Hd, Hl1, Hl2. set (d := take (Z.to_nat n) T) in *.
    change (substr 4 16 (sha1 (enc ++ d))) with (message_key_of 1 k X (enc ++ d) []).
    change (Z.lor (le_load (truncate 4 (sha1 (enc ++ d)))) (2 ^ 31)) with (ack_of 1 k X (enc ++ d) []).
    assert (Hc := key_checked (message_key_of 1 k X (enc ++ d) []) message_key (len_message_key _ _ _ _ _) Hm).
    rewrite data_inside by lia. fold d. cbn [fail_if]. split.
    + intros [= Hr <- <-]. simp_outcome. eexists.
      split; [symmetry; apply take_drop|]. split; [done|]. split; [rewrite len_app, Hl2; lia|].
      split; [by refine (proj1 Hc _) | by split].
    + intros (padding & ET & [Hd1 Hd2 Hd3] & _ & Hkeq & -> & ->).
      assert (Hdd : d = data).
      { unfold d. rewrite En, ET, message_data_length_app, <- Hd2 by done. unfold len.
        by rewrite Nat2Z.id, take_app_length. }
      rewrite Hdd in *. by rewrite (proj2 Hc).
Qed.
End accept.

Section accepted_packets.
Context `{ShaLaws} `{AesIgeLaws}.
Context (h : header_type) (X : Z) (k : AuthKey) (Hk : key_ok k) (HX : 0 <= X <= 8).

Definition clear_header (message_key : bytes) : bytes := le_store 8 (id k) ++ message_key.

Lemma len_clear_header mk : len mk = 16 -> len (clear_header mk) = 24.
Proof. intros Hm. unfold clear_header. rewrite len_app, len_le_store. lia. Qed.

Lemma id_stored : le_load (le_store 8 (id k)) = id k.
Proof. rewrite le_load_store. apply Z.mod_small. apply Hk. Qed.

(** A packet of the format, as the reader sees it after the decryption. *)
Lemma read_sealed part padding rest info :
  len (part ++ padding) mod 16 = 0 -> len rest < 16 ->
  encrypted_header_size h <= len ((part ++ padding) ++ rest) ->
  let mk := message_key_of (version info) k X part padding in
  read_crypto_impl h X (seal (version info) k X part padding ++ rest) k info =
    read_decrypted h X k mk (part ++ padding) (clear_header mk ++ (part ++ padding) ++ rest) info.
Proof.
  intros H16 Hr Hl mk. unfold seal. fold mk. rewrite <- !app_assoc.
  set (kiv := key_iv_of (version info) k X mk).
  assert (Hm : len mk = 16) by apply len_message_key.
  rewrite (read_opened h X) ; try done.
  - fold kiv. rewrite aes_ige_roundtrip by done. unfold clear_header. by rewrite <- !app_assoc.
  - by rewrite len_aes_ige_encrypt.
  - rewrite !len_app, len_le_store, len_aes_ige_encrypt by done. rewrite !len_app in *.
    destruct h; cbn in *; lia.
  - apply id_stored.
Qed.

(** What is known of a message that was read. *)
Lemma read_unsealed message info r :
  read_crypto_impl h X message k info = r -> is_ok r.1.1 = true ->
  exists mk plain rest,
    let kiv := key_iv_of (version info) k X mk in
    message = clear_header mk ++ aes_ige_encrypt kiv.1 kiv.2 plain ++ rest /\ len mk = 16 /\
    len plain mod 16 = 0 /\ len rest < 16 /\ encrypted_header_size h <= len (plain ++ rest) /\
    read_decrypted h X k mk plain (clear_header mk ++ plain ++ rest) info = r.
Proof.
  intros Hr Hok.
  assert (Hlen : sizeof_header h <= len message).
  { rewrite read_crypto_impl_inside in Hr. destruct (len message <? sizeof_header h) eqn:E; to_prop; [|done].
    subst r. done. }
  destruct (packet_split message) as (a & mk & body & rest & E & Ha & Hm & Hb & Hs);
    [destruct h; cbn in Hlen; lia|].
  assert (Hid : le_load a = id k).
  { rewrite read_crypto_impl_inside in Hr. rewrite (proj2 (Z.ltb_ge _ _)) in Hr by done.
    replace (truncate 8 message) with a in Hr.
    - destruct (negb (le_load a =? id k)) eqn:Ei; to_prop; [by subst r | done].
    - rewrite E, <- Ha. unfold truncate, len. rewrite Nat2Z.id. symmetry. apply take_app_length. }
  assert (Ea : a = le_store 8 (id k)).
  { rewrite <- Hid. symmetry. apply le_store_load. unfold len in Ha. lia. }
  subst message. rewrite (read_opened h X) in Hr by done. cbn zeta in Hr.
  set (kiv := key_iv_of (version info) k X mk) in *.
  set (plain := aes_ige_decrypt kiv.1 kiv.2 body) in *.
  assert (Hpl : len plain = len body) by (by apply len_aes_ige_decrypt).
  exists mk, plain, rest. cbn zeta. fold kiv. unfold plain at 1.
  rewrite aes_ige_inverse by done. unfold clear_header. rewrite <- Ea, <- !app_assoc, Hpl.
  split; [done|]. split; [done|]. split; [done|]. split; [done|]. split; [|exact Hr].
  rewrite !len_app, Hpl in *. destruct h; cbn in *; lia.
Qed.

Lemma split_header (s : bytes) :
  encrypted_header_size h <= len s -> exists enc T, s = enc ++ T /\ len enc = encrypted_header_size h.
Proof.
  intros Hl. exists (take (Z.to_nat (encrypted_header_size h)) s), (drop (Z.to_nat (encrypted_header_size h)) s).
  split; [by rewrite take_drop|]. rewrite len_take; destruct h; cbn in *; lia.
Qed.

Lemma seal_clear v part padding rest :
  let mk := message_key_of v k X part padding in
  let kiv := key_iv_of v k X mk in
  seal v k X part padding ++ rest = clear_header mk ++ aes_ige_encrypt kiv.1 kiv.2 (part ++ padding) ++ rest.
Proof. unfold seal, clear_header. by rewrite <- !app_assoc. Qed.

Lemma truncate_clear mk s : len mk = 16 -> truncate 24 (clear_header mk ++ s) = clear_header mk.
Proof.
  intros Hm. rewrite <- (len_clear_header mk Hm). unfold truncate, len. rewrite Nat2Z.id.
  apply take_app_length.
Qed.

(** An MTProto 2.0 packet is accepted exactly when it is the seal of a
    16-byte aligned plaintext, followed by less than 16 bytes of transport
    padding, such that behind the header come the data, with a right length
    field, and 12 to 1024 bytes of padding. *)
Lemma read_accepts_2 message info data message' info' :
  version info = 2 ->
  read_crypto_impl h X message k info = (Ok data, message', info') <->
  exists enc plain padding rest,
    message = seal 2 k X plain [] ++ rest /\ plain ++ rest = enc ++ data ++ padding /\
    len plain mod 16 = 0 /\ len rest < 16 /\ len enc = encrypted_header_size h /\
    data_ok h (check_mod4 info) data /\ 12 <= len padding <= 1024 /\
    message' = truncate 24 message ++ plain ++ rest /\
    info' = set_message_ack (ack_of 2 k X plain []) info.
Proof.
  intros Hv. split.
  - intros Hr. destruct (read_unsealed _ _ _ Hr eq_refl) as (mk & plain & rest & E & Hm & H16 & Hs & Hl & Hd).
    cbn zeta in E. destruct (split_header _ Hl) as (enc & T & ET & He). rewrite ET in Hd.
    apply read_decrypted_2 in Hd; try done; [|by apply len_clear_header].
    destruct Hd as (-> & -> & -> & padding & -> & Hok & Hp).
    exists enc, plain, padding, rest. rewrite seal_clear, app_nil_r, E, Hv.
    rewrite truncate_clear by done. by rewrite ET.
  - intros (enc & plain & padding & rest & -> & ET & H16 & Hs & He & Hok & Hp & -> & ->).
    assert (Hl : encrypted_header_size h <= len ((plain ++ []) ++ rest)).
    { rewrite app_nil_r, ET, len_app. pose proof (len_nonneg (data ++ padding)). lia. }
    pose proof (read_sealed plain [] rest info) as Hr. rewrite app_nil_r in *. rewrite Hv in Hr.
    rewrite Hr, ET by done. rewrite seal_clear, truncate_clear by apply len_message_key.
    apply read_decrypted_2; try done; [apply len_message_key | by apply len_clear_header, len_message_key |].
    split; [done|]. split; [done|]. split; [done|]. by exists padding.
Qed.

(** An MTProto 1.0 packet is accepted exactly when it is the seal of header
    and data with the least padding, and nothing follows. *)
Lemma read_accepts_1 message info data message' info' :
  version info = 1 ->
  read_crypto_impl h X message k info = (Ok data, message', info') <->
  exists enc padding,
    message = seal 1 k X (enc ++ data) padding /\ len padding < 16 /\
    len ((enc ++ data) ++ padding) mod 16 = 0 /\ len enc = encrypted_header_size h /\
    data_ok h (check_mod4 info) data /\
    message' = truncate 24 message ++ enc ++ data ++ padding /\
    info' = set_message_ack (ack_of 1 k X (enc ++ data) padding) info.
Proof.
  intros Hv. split.
  - intros Hr. destruct (read_unsealed _ _ _ Hr eq_refl) as (mk & plain & rest & E & Hm & H16 & Hs & Hl & Hd).
    cbn zeta in E. destruct (split_header _ Hl) as (enc & T & ET & He). rewrite ET in Hd.
    apply read_decrypted_1 in Hd; try done; [|by apply len_clear_header].
    destruct Hd as (padding & -> & Hok & Hround & Hmk & -> & ->).
    pose proof (round16_spec (len (enc ++ data)) (len_nonneg _)) as [Hr16 Hrl].
    pose proof (f_equal len ET) as Hlen. rewrite (len_app plain) in Hlen.
    assert (Hrest : rest = []).
    { apply len_zero_nil. pose proof (len_nonneg rest). rewrite Hround, <- Hlen in Hr16.
      div_mod_lia. }
    rewrite Hrest, app_nil_r in *.
    exists enc, padding. rewrite <- (app_nil_r (seal _ _ _ _ _)), seal_clear, <- Hmk, app_nil_r.
    rewrite <- Hv, <- app_assoc, <- ET, E, truncate_clear by done.
    split; [done|]. split; [|split; [|by split]].
    + rewrite Hround, app_assoc, (len_app (enc ++ data)) in Hrl. lia.
    + exact H16.
  - intros (enc & padding & -> & Hp & H16 & He & Hok & -> & ->).
    pose proof (len_nonneg data). pose proof (len_nonneg padding). pose proof (len_nonneg enc).
    assert (Hl : encrypted_header_size h <= len (((enc ++ data) ++ padding) ++ [])).
    { rewrite !len_app, len_nil. lia. }
    pose proof (read_sealed (enc ++ data) padding [] info H16 ltac:(rewrite len_nil; lia) Hl) as Hr.
    rewrite Hv, !app_nil_r in Hr. cbn zeta in Hr. rewrite Hr, <- app_assoc.
    rewrite <- (app_nil_r (seal _ _ _ _ _)), seal_clear, truncate_clear by apply len_message_key.
    apply read_decrypted_1; try done; [apply len_message_key | by apply len_clear_header, len_message_key |].
    exists padding. split; [done|]. split; [done|]. split; [|done].
    pose proof (round16_spec (len (enc ++ data)) (len_nonneg _)).
    rewrite !len_app in *. div_mod_lia.
Qed.
End accepted_packets.

(** * Sizes of written packets *)

Lemma basic_size_spec data_size enc_size raw_size :
  0 <= data_size -> 0 <= enc_size ->
  let p := do_calc_crypto_size2_basic data_size enc_size raw_size - raw_size in
  p mod 16 = 0 /\ enc_size + data_size + 12 <= p <= enc_size + data_size + 480.
Proof.
  intros Hd He. unfold do_calc_crypto_size2_basic.
  destruct (round16_spec (enc_size + data_size + 12) ltac:(lia)) as [Hm Hr].
  set (n := round16 _) in *. cbn [first_fitting padded_sizes].
  repeat match goal with |- context [if ?a <=? ?b then _ else _] => destruct (Z.leb_spec a b) end;
    cbn zeta; div_mod_lia.
Qed.

Section sizes_correct.
Context {G : Type} `{RandomLaws G}.

Lemma rand_size_spec data_size enc_size raw_size g :
  0 <= data_size -> 0 <= enc_size ->
  let p := (do_calc_crypto_size2_rand data_size enc_size raw_size g).1 - raw_size in
  p mod 16 = 0 /\ enc_size + data_size + 12 <= p <= enc_size + data_size + 480.
Proof.
  intros Hd He. unfold do_calc_crypto_size2_rand. destruct (secure_uint32 g) as [u g']. cbn [fst].
  change 0xff with 255. rewrite land_255. pose proof (Z.mod_pos_bound u 256 ltac:(lia)).
  destruct (round16_spec (enc_size + data_size + u mod 256 + 12) ltac:(lia)) as [Hm Hr].
  cbn zeta. replace (_ - raw_size) with (round16 (enc_size + data_size + u mod 256 + 12)) by lia.
  split; [done | lia].
Qed.

Lemma padded_size_spec h data_size info g :
  0 <= data_size ->
  let p := (padded_size h data_size info g).1 in
  (p - 24) mod 16 = 0 /\
  (if version info =? 1 then 0 <= p - (sizeof_header h + data_size) < 16
   else 12 <= p - (sizeof_header h + data_size) <= 480).
Proof.
  intros Hd. unfold padded_size. destruct (version info =? 1).
  - cbn [fst]. unfold calc_crypto_size.
    destruct (round16_spec (encrypted_header_size h + data_size)) as [Hm Hr]; [destruct h; cbn; lia|].
    destruct h; cbn in *; (split; [|lia]); div_mod_lia.
  - unfold calc_crypto_size2. destruct (random_padding info).
    + destruct (rand_size_spec data_size (encrypted_header_size h)
        (sizeof_header h - encrypted_header_size h) g) as [Hm Hr]; [done|by destruct h|].
      destruct h; cbn [sizeof_header encrypted_header_size] in *; (split; [|lia]); div_mod_lia.
    + destruct (basic_size_spec data_size (encrypted_header_size h)
        (sizeof_header h - encrypted_header_size h)) as [Hm Hr]; [done|by destruct h|].
      cbn [fst]. destruct h; cbn [sizeof_header encrypted_header_size] in *; (split; [|lia]); div_mod_lia.
Qed.
End sizes_correct.

(** * Written packets are read *)

Section written.
Context `{ShaLaws} `{AesIgeLaws} {G : Type} `{RandomLaws G}.
Context (h : header_type) (X : Z) (k : AuthKey) (Hk : key_ok k) (HX : 0 <= X <= 8).

Lemma write_sealed s enc info g :
  storer_size s = len (stored s) ->
  let r := padded_size h (storer_size s) info g in
  exists padding g',
    write_crypto_impl h X s k info enc (storer_size s) r.1 r.2 =
      Ok (seal (version info) k X (enc ++ stored s) padding,
          set_message_ack (ack_of (version info) k X (enc ++ stored s) padding) info, g') /\
    len padding = r.1 - (sizeof_header h + storer_size s).
Proof.
  intros Hs r. pose proof (padded_size_spec h (storer_size s) info g) as Hp. fold r in Hp.
  cbn zeta in Hp. destruct Hp as [_ Hp]; [rewrite Hs; apply len_nonneg|].
  destruct r as [p g0]. cbn [fst snd] in *. unfold write_crypto_impl. rewrite Hs, Z.eqb_refl.
  cbn [check]. rewrite Ok_bind. rewrite <- Hs.
  pose proof (len_secure_bytes (p - (sizeof_header h + storer_size s)) g0) as Hl.
  destruct (secure_bytes _ g0) as [pad g1]. cbn [fst] in Hl.
  exists pad, g1. split; [|apply Hl; destruct (version info =? 1); lia].
  assert (Hkey : (if version info =? 1 then Ok (calc_message_ack_and_key (enc ++ stored s))
                  else calc_message_key2 k X (enc ++ stored s ++ pad)) =
                 Ok (ack_of (version info) k X (enc ++ stored s) pad,
                     message_key_of (version info) k X (enc ++ stored s) pad)).
  { destruct (version info =? 1) eqn:Ev; to_prop.
    - by rewrite Ev.
    - rewrite app_assoc. by apply message_key2_ok. }
  rewrite Hkey, Ok_bind. rewrite derive_key_ok by (done || apply len_message_key).
  unfold seal. rewrite Ok_bind, <- app_assoc. by destruct (key_iv_of _ _ _ _).
Qed.

Lemma message_key_all v part padding :
  v <> 1 -> message_key_of v k X (part ++ padding) [] = message_key_of v k X part padding /\
    ack_of v k X (part ++ padding) [] = ack_of v k X part padding /\
    seal v k X (part ++ padding) [] = seal v k X part padding.
Proof.
  intros Hv. unfold seal, message_key_of, ack_of, key_digest.
  rewrite (proj2 (Z.eqb_neq v 1)) by done. by rewrite !app_nil_r.
Qed.

Lemma seal_id v part padding rest :
  le_load (truncate 8 (seal v k X part padding ++ rest)) = id k.
Proof.
  unfold seal. rewrite <- !app_assoc. change (truncate 8) with (truncate (Z.of_nat 8)).
  rewrite <- (len_le_store 8 (id k)). unfold truncate, len. rewrite Nat2Z.id, take_app_length.
  by apply id_stored.
Qed.

Lemma len_seal v part padding :
  len (part ++ padding) mod 16 = 0 -> len (seal v k X part padding) = 24 + len (part ++ padding).
Proof.
  intros H16. unfold seal. rewrite (len_app (le_store 8 _)), (len_app (message_key_of _ _ _ _ _)).
  rewrite len_le_store, len_message_key, len_aes_ige_encrypt by done. lia.
Qed.

(** The packet of a writer is read by a reader of the same version with the
    same [X], behind TCP padding as well in version 2.0. *)
Lemma written_read s enc iw g :
  storer_size s = len (stored s) -> len enc = encrypted_header_size h ->
  version iw = 1 \/ version iw = 2 ->
  let r := padded_size h (storer_size s) iw g in
  exists packet padding ack g',
    write_crypto_impl h X s k iw enc (storer_size s) r.1 r.2 = Ok (packet, set_message_ack ack iw, g') /\
    len packet mod 4 = 0 /\ 24 <= len packet <= sizeof_header h + len (stored s) + 480 /\
    forall ir rest, version ir = version iw -> data_ok h (check_mod4 ir) (stored s) ->
      (version ir = 1 -> rest = []) -> len rest < 16 ->
      le_load (truncate 8 (packet ++ rest)) = id k /\
      exists front, len front = 24 /\
      read_crypto_impl h X (packet ++ rest) k ir =
        (Ok (stored s), front ++ enc ++ stored s ++ padding ++ rest, set_message_ack ack ir).
Proof.
  intros Hs He Hv r. destruct (write_sealed s enc iw g Hs) as (padding & g' & Hw & Hl).
  fold r in Hw, Hl. cbn zeta in Hw, Hl.
  pose proof (padded_size_spec h (storer_size s) iw g) as Hp. fold r in Hp. cbn zeta in Hp.
  destruct Hp as [Hp16 Hp]; [rewrite Hs; apply len_nonneg|].
  assert (H16 : len ((enc ++ stored s) ++ padding) mod 16 = 0).
  { rewrite !len_app, He, Hl, <- Hs. rewrite <- Hp16. f_equal. destruct h; cbn; lia. }
  assert (Hsum : len ((enc ++ stored s) ++ padding) = r.1 - 24).
  { rewrite !len_app, He, Hl, <- Hs. destruct h; cbn; lia. }
  eexists _, padding, _, g'. split; [exact Hw|]. split; [rewrite len_seal by done; div_mod_lia|].
  split.
  { rewrite len_seal by done. pose proof (len_nonneg ((enc ++ stored s) ++ padding)).
    rewrite <- Hs. destruct (version iw =? 1); lia. }
  intros ir rest Hvv Hd Hrest Hr. split; [apply seal_id|]. rewrite <- Hvv in *.
  exists (clear_header k (message_key_of (version ir) k X (enc ++ stored s) padding)).
  split; [apply len_clear_header, len_message_key|]. destruct Hv as [Hv|Hv]; rewrite Hv in *.
  - rewrite (Hrest eq_refl), !app_nil_r. apply (read_accepts_1 h X k Hk HX); [done|].
    exists enc, padding. split; [done|]. split; [cbn in Hp; lia|]. split; [done|].
    split; [done|]. split; [done|]. split; [|done].
    rewrite <- (app_nil_r (seal _ _ _ _ _)), seal_clear, truncate_clear by apply len_message_key. done.
  - destruct (message_key_all 2 (enc ++ stored s) padding) as (E1 & E2 & E3); [done|].
    apply (read_accepts_2 h X k Hk HX); [done|].
    exists enc, ((enc ++ stored s) ++ padding), (padding ++ rest), rest.
    rewrite E2, E3. split; [done|]. split; [by rewrite <- !app_assoc|]. split; [done|].
    split; [done|]. split; [done|]. split; [done|].
    split; [rewrite len_app; cbn in Hp; pose proof (len_nonneg rest); lia|].
    split; [|done]. rewrite <- (app_nil_r ((enc ++ stored s) ++ padding)) at 1.
    rewrite <- E3, seal_clear, truncate_clear by apply len_message_key.
    by rewrite E1, <- !app_assoc.
Qed.
End written.

(** * No packet ends the process *)

(** A reader that neither fails nor changes the size [n] of the buffer, and
    whose data has [low] to [n] bytes. *)
Definition well (low n : Z) (r : reading) : Prop :=
  len r.1.2 = n /\ match r.1.1 with Ok data => low <= len data <= n | Err _ => True | Crash => False end.

Lemma well_value {A} low n (r : outcome A) message i rest :
  r <> Crash -> len message = n -> (forall a, r = Ok a -> well low n (rest a)) -> well low n (with_value r message i rest).
Proof. intros Hr Hl Ha. destruct r as [a|e|]; [by apply Ha|by split|done]. Qed.

Section no_crash.
Context `{ShaLaws} `{AesIgeLaws}.
Context (k : AuthKey) (info : PacketInfo) (Hv : version info = 1 \/ version info = 2).

Lemma read_decrypted_fine h X mk td message :
  len (key k) = 256 -> 0 <= X <= 8 -> sizeof_header h <= len message ->
  well (sizeof_prefix h) (len message) (read_decrypted h X k mk td message info).
Proof.
  intros Hk HX Hl. rewrite read_decrypted_inside by done. cbv zeta.
  destruct (_ <? sizeof_prefix h) eqn:E0; [by split|]. to_prop.
  set (n := message_data_length h (substr_from (sizeof_header h) message)).
  assert (Hn : 0 <= n) by apply message_data_length_nonneg.
  assert (Hp : 4 <= sizeof_prefix h <= 16) by (by destruct h). assert (Hh : 0 <= sizeof_header h) by (by destruct h).
  set (bad := (version info =? 1) && _). apply well_value; [|done|].
  - destruct (version info =? 1); [done|]. unfold calc_message_key2. by rewrite (proj2 (Z.leb_le _ _)) by lia.
  - intros [ack real] _. split; [done|]. cbn [fst].
    destruct (negb (is_key_bad real mk =? 0)); [exact I|]. cbn [fail_if]. rewrite Ok_bind.
    destruct (check_length h (set_message_ack ack info) n _ bad) as [[]| |] eqn:Ec; [|exact I|].
    2:{ clearbody bad. unfold check_length in Ec. destruct (version _ =? 2); [|by destruct bad].
        destruct (check_mod4 _ && _); [done|]. cbn [fail_if] in Ec. rewrite Ok_bind in Ec. destruct (_ <? n); [done|].
        cbn [fail_if] in Ec. rewrite Ok_bind in Ec. by destruct (_ || _). }
    rewrite Ok_bind. assert (Hle : n + sizeof_prefix h <= len message - sizeof_header h).
    { unfold check_length in Ec. cbn [version set_message_ack check_mod4] in Ec. destruct Hv as [E|E]; rewrite E in Ec; cbn [Z.eqb Pos.eqb] in Ec.
      - destruct bad eqn:Eb; [done|]. unfold bad in Eb. rewrite E in Eb. cbn [Z.eqb Pos.eqb andb] in Eb. apply orb_false_iff in Eb as [_ Eb].
        apply negb_false_iff, Z.eqb_eq in Eb. unfold calc_crypto_size in Eb.
        destruct (round16_spec (encrypted_header_size h + (n + sizeof_prefix h))) as [_ Hr]; [destruct h; cbn; lia|].
        destruct h; cbn in *; lia.
      - destruct (check_mod4 info && _); [done|]. cbn [fail_if] in Ec. rewrite Ok_bind in Ec.
        destruct (Z.ltb_spec (len message - sizeof_header h - sizeof_prefix h) n); [done|lia]. }
    rewrite slice_ok by lia. rewrite len_substr; lia.
Qed.

Lemma read_crypto_impl_fine h X message :
  len (key k) = 256 -> 0 <= X <= 8 ->
  well (sizeof_prefix h) (len message) (read_crypto_impl h X message k info) /\
  ((read_crypto_impl h X message k info).1.1 <> Err (Error 0 "Invalid MTProto message: too small") -> sizeof_header h <= len message).
Proof.
  intros Hk HX. rewrite read_crypto_impl_inside. destruct (len message <? sizeof_header h) eqn:E; [by split|].
  to_prop. split; [|done]. cbv zeta. destruct (negb _); [by split|].
  assert (Hm : len (substr 8 16 message) = 16) by (apply len_substr; destruct h; cbn in E; lia).
  assert (Hkiv : exists kiv, derive_key info (key k) (substr 8 16 message) X = Ok kiv).
  { unfold derive_key. destruct (version info =? 1).
    - eexists. by apply KDF_ok.
    - eexists. by apply KDF2_ok. }
  destruct Hkiv as ([aes_key aes_iv] & ->). cbn [with_value].
  rewrite encrypt_offset_24. set (body := substr_from 24 message).
  assert (Hb : len body = len message - 24)
    by (unfold body, substr_from; rewrite len_drop by lia; destruct h; cbn in E; lia).
  rewrite land_15. set (td := truncate _ body).
  assert (Ht : len td = len body - len body mod 16)
    by (unfold td, truncate; pose proof (len_nonneg body); rewrite len_take; div_mod_lia).
  assert (Hw : len (write_at 24 (aes_ige_decrypt aes_key aes_iv td) message) = len message)
    by (rewrite len_write_at; rewrite ?len_aes_ige_decrypt; rewrite ?Ht; try lia; div_mod_lia).
  rewrite <- Hw at 1. apply read_decrypted_fine; [done|done|lia].
Qed.

Lemma read_crypto_fine message :
  len (key k) = 256 -> well 4 (len message) (read_crypto message k info).
Proof.
  intros Hk. destruct (read_crypto_impl_fine CryptoHeader 8 message Hk ltac:(lia)) as [[Hl Hd] Hbig]. unfold read_crypto.
  destruct (read_crypto_impl _ _ _ _ _) as [[[data|e|] m] i]; cbn [fst snd] in *; [|by split|done].
  specialize (Hbig ltac:(done)). cbn in Hd, Hbig. rewrite !slice_ok by lia. cbn [with_value]. split; cbn [fst snd]; [done|lia].
Qed.

Lemma read_e2e_crypto_fine message :
  len (key k) = 256 -> well 4 (len message) (read_e2e_crypto message k info).
Proof.
  intros Hk. unfold read_e2e_crypto. set (X := if _ : bool then 8 else 0).
  assert (HX : 0 <= X <= 8) by (unfold X; destruct (_ && _); lia).
  destruct (read_crypto_impl_fine EndToEndHeader X message Hk HX) as [[Hl Hd] _].
  destruct (read_crypto_impl _ _ _ _ _) as [[[data|e|] m] i]; by split.
Qed.
End no_crash.

(** * Properties *)

Section properties.
Context `{ShaLaws} `{AesIgeLaws} {G : Type} `{RandomLaws G}.

(** C10: The reader accepts exactly the packets of the protocol. Version 2.0:
    the seal of a 16-byte aligned plaintext, then less than 16 bytes of
    transport padding, where behind the header come data with a right length
    field and 12 to 1024 bytes of padding. Version 1.0: the seal of header and
    data with the least padding, and nothing behind it. *)
Theorem packet_acceptance h X k message info data message' info' :
  key_ok k -> 0 <= X <= 8 -> version info = 1 \/ version info = 2 ->
  read_crypto_impl h X message k info = (Ok data, message', info') <->
  exists enc padding plain rest ack,
    plain ++ rest = enc ++ data ++ padding /\ len enc = encrypted_header_size h /\
    data_ok h (check_mod4 info) data /\ len plain mod 16 = 0 /\ len rest < 16 /\
    message' = truncate 24 message ++ plain ++ rest /\ info' = set_message_ack ack info /\
    if version info =? 1
    then message = seal 1 k X (enc ++ data) padding /\ rest = [] /\ len padding < 16 /\
      ack = ack_of 1 k X (enc ++ data) padding
    else message = seal 2 k X plain [] ++ rest /\ 12 <= len padding <= 1024 /\
      ack = ack_of 2 k X plain [].
Proof.
  intros Hk HX [Hv|Hv]; rewrite Hv; cbn [Z.eqb Pos.eqb].
  - rewrite (read_accepts_1 h X k Hk HX) by done. split.
    + intros (enc & padding & -> & Hp & H16 & He & Hd & -> & ->).
      exists enc, padding, ((enc ++ data) ++ padding), [], (ack_of 1 k X (enc ++ data) padding).
      rewrite !app_nil_r, <- !app_assoc in *. by split_and!.
    + intros (enc & padding & plain & rest & ack & E & He & Hd & H16 & Hr & -> & -> & -> & -> & Hp & ->).
      rewrite app_nil_r in E. exists enc, padding. rewrite app_nil_r, E, <- app_assoc, <- E in *.
      by split_and!.
  - rewrite (read_accepts_2 h X k Hk HX) by done. split.
    + intros (enc & plain & padding & rest & -> & E & H16 & Hr & He & Hd & Hp & -> & ->).
      by exists enc, padding, plain, rest, (ack_of 2 k X plain []).
    + intros (enc & padding & plain & rest & ack & E & He & Hd & H16 & Hr & -> & -> & -> & Hp & ->).
      by exists enc, plain, padding, rest.
Qed.

(** C1: Everything the version 2.0 reader hands out is authenticated: the packet
    is the seal, under the shared key, of a plaintext of which the data is a
    part. The less than 16 bytes behind the last whole block, which no digest
    covers, never become data where lengths are checked to be multiples of four.
    *)
Theorem accepted_data_authenticated h X k message info data message' info' :
  key_ok k -> 0 <= X <= 8 -> version info = 2 -> check_mod4 info = true ->
  read_crypto_impl h X message k info = (Ok data, message', info') ->
  exists enc padding rest,
    message = seal 2 k X (enc ++ data ++ padding) [] ++ rest /\
    len enc = encrypted_header_size h /\ len rest < 16.
Proof.
  intros Hk HX Hv Hc4 Hr. apply (read_accepts_2 h X k Hk HX) in Hr; [|done].
  destruct Hr as (enc & plain & padding & rest & -> & E & H16 & Hs & He & [Hd1 Hd2 Hd3] & Hp & _).
  specialize (Hd3 Hc4). rewrite app_assoc in E.
  assert (Hle : len (enc ++ data) <= len plain).
  { pose proof (f_equal len E) as El. rewrite !len_app in *. pose proof (len_nonneg rest).
    assert (len enc mod 4 = 0 /\ sizeof_prefix h mod 4 = 0) by (rewrite He; by destruct h).
    div_mod_lia. }
  destruct (app_eq_app plain rest (enc ++ data) padding E) as (l & [[E1 E2]|[E1 E2]]).
  - exists enc, l, rest. by rewrite E1, <- app_assoc.
  - assert (l = []) as ->.
    { apply len_zero_nil. rewrite E1, len_app in Hle. pose proof (len_nonneg l). lia. }
    exists enc, [], rest. rewrite app_nil_r in E1. by rewrite app_nil_r, E1.
Qed.

(** C35: What [write] puts on the wire, for every kind of connection. Without
    encryption: eight zero bytes and the data. Otherwise the packet is the seal,
    under the part of the key that the writer uses, of the header fields, the
    data and random padding: 12 to 480 bytes of it in version 2.0, less than 16
    in version 1.0, such that the encrypted part is whole blocks; and the packet
    info keeps its acknowledgement token. A client uses the first part of the
    key; in a secret chat of version 2.0 the creator uses the first part for
    writing and the other side the second. *)
Theorem written_packet s k info prepend append g :
  key_ok k -> storer_size s = len (stored s) -> version info = 1 \/ version info = 2 ->
  let secret := match type_ info with EndToEnd => true | Common => false end in
  let X := if secret && (version info =? 2) && negb (is_creator info) then 8 else 0 in
  let enc := if secret then [] else le_store 8 (salt info) ++ le_store 8 (session_id info) in
  if negb secret && no_crypto_flag info
  then exists packet, write s k info prepend append g = Ok (packet, info, g) /\ contents packet = zeros 8 ++ stored s
  else
    exists packet padding g',
      write s k info prepend append g =
        Ok (packet, set_message_ack (ack_of (version info) k X (enc ++ stored s) padding) info, g') /\
      contents packet = seal (version info) k X (enc ++ stored s) padding /\
      len ((enc ++ stored s) ++ padding) mod 16 = 0 /\ len (contents packet) = 24 + len ((enc ++ stored s) ++ padding) /\
      (if version info =? 1 then len padding < 16 else 12 <= len padding <= 480).
Proof.
  intros Hk Hs Hv secret X enc. assert (HX : 0 <= X <= 8) by (unfold X; destruct (_ && _); lia).
  set (h := if secret then EndToEndHeader else CryptoHeader).
  assert (He : len enc = encrypted_header_size h) by (unfold enc, h; destruct secret; [done|]; by rewrite len_app, !len_le_store).
  destruct (write_sealed h X k Hk HX s enc info g Hs) as (padding & g' & Hw & Hl).
  pose proof (padded_size_spec h (storer_size s) info g ltac:(rewrite Hs; apply len_nonneg)) as [H16 Hp]. cbv zeta in *.
  set (r := padded_size h (storer_size s) info g) in *. rewrite <- Hl in Hp.
  assert (Hlen : len ((enc ++ stored s) ++ padding) = r.1 - 24).
  { rewrite !len_app, He, Hl, Hs. unfold h. destruct secret; cbn; lia. }
  assert (Hres : write s k info prepend append g =
      Ok (create_writer (seal (version info) k X (enc ++ stored s) padding) prepend append,
          set_message_ack (ack_of (version info) k X (enc ++ stored s) padding) info, g') ->
    exists packet padding g',
      write s k info prepend append g =
        Ok (packet, set_message_ack (ack_of (version info) k X (enc ++ stored s) padding) info, g') /\
      contents packet = seal (version info) k X (enc ++ stored s) padding /\
      len ((enc ++ stored s) ++ padding) mod 16 = 0 /\ len (contents packet) = 24 + len ((enc ++ stored s) ++ padding) /\
      (if version info =? 1 then len padding < 16 else 12 <= len padding <= 480)).
  { intros ->. eexists _, padding, g'. split; [reflexivity|]. split; [reflexivity|]. split; [by rewrite Hlen|]. split.
    - apply len_seal. by rewrite Hlen.
    - destruct (version info =? 1); lia. }
  unfold write in *. destruct (type_ info) eqn:Et; cbn [negb andb].
  - change secret with false in *. cbn [negb andb]. destruct (no_crypto_flag info).
    + unfold write_no_crypto. rewrite Hs, Z.eqb_refl. cbn [check]. rewrite !Ok_bind. eexists. by split.
    + apply Hres. rewrite (proj2 (Z.eqb_neq _ _)) by (destruct Hk; lia). cbn [negb check]. rewrite Ok_bind.
      unfold write_crypto. change (padded_size CryptoHeader (storer_size s) info g) with r. destruct r as [size g0].
      cbn [fst snd] in Hw. change (write_crypto_impl CryptoHeader 0 s k info enc (storer_size s) size g0 =
        Ok (seal (version info) k X (enc ++ stored s) padding,
            set_message_ack (ack_of (version info) k X (enc ++ stored s) padding) info, g')) in Hw.
      change (le_store 8 (salt info) ++ le_store 8 (session_id info)) with enc. by rewrite Hw, Ok_bind.
  - change secret with true in *. cbn [negb andb]. apply Hres. unfold write_e2e_crypto. fold h r.
    assert (HXw : (if is_creator info || (version info =? 1) then 0 else 8) = X).
    { unfold X. destruct Hv as [-> | ->]; by destruct (is_creator info). }
    rewrite HXw. destruct r as [size g0]. cbn [fst snd] in Hw. change (@nil byte) with enc. by rewrite Hw, Ok_bind.
Qed.

Lemma read_fine message code k info :
  version info = 1 \/ version info = 2 ->
  len (key k) = 256 \/ type_ info = Common /\ key k = [] ->
  (read message code k info).1.1 <> Crash /\
  forall data, (read message code k info).1.1 = Ok (Packet data) -> len data <= len message.
Proof.
  intros Hv Hk. unfold read. destruct (300 <=? code); [done|].
  destruct (len message <? 16) eqn:El.
  { cbn [fst]. destruct (Z.ltb_spec (len message) 4) as [|E4]; [done|]. cbn [fail_if]. rewrite Ok_bind, (slice_ok 0 4) by lia.
    rewrite Ok_bind. cbv zeta. destruct (_ =? 0); [done|]. destruct (_ =? -1); cbn [andb]; [|done].
    destruct (Z.leb_spec 8 (len message)); [|done]. by rewrite (slice_ok 4 4) by lia. }
  to_prop. assert (Hfine : well 1 (len message) (read_packet message k info)).
  { rewrite read_packet_inside by lia. cbv zeta. set (info0 := set_no_crypto_flag _ info).
    assert (Hv0 : version info0 = 1 \/ version info0 = 2) by done.
    assert (Hweak : forall n r, well 4 n r -> well 1 n r).
    { intros n r [Hn Hr]. split; [done|]. destruct (r.1.1); [lia|done..]. }
    change (type_ info0) with (type_ info). destruct (type_ info) eqn:Et.
    - destruct (no_crypto_flag info0).
      + unfold read_no_crypto, calc_no_crypto_size, sizeof_NoCryptoHeader.
        rewrite (proj2 (Z.ltb_ge _ _)) by lia. split; [done|]. cbn [fst].
        rewrite (proj2 (Z.eqb_eq _ _)) by lia. cbn [check]. rewrite Ok_bind, slice_ok by lia. rewrite len_substr; lia.
      + destruct (len (key k) =? 0) eqn:Ek; [by split|]. to_prop.
        destruct Hk as [Hk|[_ Hk]]; [|by rewrite Hk in Ek]. by apply Hweak, read_crypto_fine.
    - destruct Hk as [Hk|[Hk _]]; [|congruence]. by apply Hweak, read_e2e_crypto_fine. }
  destruct (read_packet message k info) as [[[d| |] m] i]; destruct Hfine as [_ Hfine]; cbn [fst] in *; try done.
  rewrite Ok_bind. unfold make_packet. rewrite (proj2 (Z.eqb_neq _ _)) by lia. cbn [negb check]. rewrite Ok_bind.
  split; [done|]. intros data [= <-]. lia.
Qed.

(** C34: No bytes from the network make the reader fail a check or take a slice
    that does not lie inside of the buffer, for a key of 256 bytes, or without a
    key on a connection to a server, and for both versions. *)
Theorem read_never_crashes message code k info :
  version info = 1 \/ version info = 2 ->
  len (key k) = 256 \/ type_ info = Common /\ key k = [] ->
  (read message code k info).1.1 <> Crash.
Proof. apply read_fine. Qed.

(** C31: Secret chats: what one side writes, the other side reads, with the same
    acknowledgement token on both sides. The packet is sealed with the first
    part of the key by the creator of the chat and with the second part ([X =
    8]) by the other side, so in version 2.0 each side uses one part for writing
    and the other for reading; version 1.0 uses the first part for both. *)
Theorem e2e_roundtrip s k iw ir g prepend append :
  key_ok k -> storer_size s = len (stored s) -> data_ok EndToEndHeader (check_mod4 ir) (stored s) ->
  type_ iw = EndToEnd -> type_ ir = EndToEnd -> version iw = version ir ->
  version ir = 1 \/ version ir = 2 -> is_creator ir = negb (is_creator iw) ->
  exists packet iw' g' padding, write s k iw prepend append g = Ok (packet, iw', g') /\
    contents packet = seal (version iw) k (if (version iw =? 1) || is_creator iw then 0 else 8) (stored s) padding /\
    forall rest, (version ir = 1 -> rest = []) -> len rest < 16 ->
      exists message' ir',
        read (contents packet ++ rest) 0 k ir = (Ok (Packet (stored s)), message', ir') /\
        message_ack ir' = message_ack iw' /\ type_ ir' = EndToEnd.
Proof.
  intros Hk Hs Hd Htw Htr Hvv Hv Hc. unfold write. rewrite Htw. unfold write_e2e_crypto.
  set (X := if is_creator iw || (version iw =? 1) then 0 else 8).
  assert (HX : 0 <= X <= 8) by (unfold X; destruct (_ || _); lia).
  destruct (written_read EndToEndHeader X k Hk HX s [] iw g Hs eq_refl) as
    (packet & padding & ack & g' & Hw & _ & Hl & Hr); [by rewrite Hvv|].
  destruct (write_sealed EndToEndHeader X k Hk HX s [] iw g Hs) as (pad & g2 & Hw2 & _). rewrite Hw in Hw2.
  injection Hw2 as Hp _ _. cbn [app] in Hp.
  destruct (padded_size EndToEndHeader (storer_size s) iw g) as [p g0]. cbn [fst snd] in Hw.
  rewrite Hw, Ok_bind. eexists _, _, _, pad. split; [reflexivity|].
  change (contents (create_writer packet prepend append)) with packet.
  split; [rewrite Hp; unfold X; by rewrite orb_comm|]. intros rest Hrest Hlen.
  set (ir0 := set_no_crypto_flag (le_load (truncate 8 (packet ++ rest)) =? 0) ir).
  destruct (Hr ir0 rest (eq_sym Hvv) Hd Hrest Hlen) as (_ & front & _ & E).
  eexists _, (set_type EndToEnd (set_message_ack ack ir0)). split; [|by split].
  assert (H16 : 16 <= len (packet ++ rest)) by (rewrite len_app; pose proof (len_nonneg rest); lia).
  unfold read. rewrite read_packet_inside by lia. cbv zeta. fold ir0. change (type_ ir0) with (type_ ir). rewrite Htr.
  cbn [Z.leb Z.compare]. rewrite (proj2 (Z.ltb_ge _ _)) by lia.
  unfold read_e2e_crypto. change (version ir0) with (version ir). change (is_creator ir0) with (is_creator ir).
  assert (HXr : (if is_creator ir && negb (version ir =? 1) then 8 else 0) = X).
  { unfold X. rewrite Hc, Hvv. by destruct (is_creator iw), (version ir =? 1). }
  rewrite HXr, E, Ok_bind. unfold make_packet.
  rewrite (proj2 (Z.eqb_neq _ _)); [reflexivity|]. destruct Hd as [Hd _ _]. cbn in Hd. lia.
Qed.

(** A server's packet in reply: it is sealed with the other part of the key
    ([X = 8]), and the reader gets the data and the fields of the header. *)
Theorem server_packet_read s k iw ir g packet iw' g' rest :
  key_ok k -> id k <> 0 -> storer_size s = len (stored s) ->
  data_ok CryptoHeader (check_mod4 ir) (stored s) ->
  0 <= salt iw < 2 ^ 64 -> 0 <= session_id iw < 2 ^ 64 ->
  version iw = 2 -> version ir = 2 -> type_ ir = Common -> len rest < 16 ->
  let enc := le_store 8 (salt iw) ++ le_store 8 (session_id iw) in
  let r := padded_size CryptoHeader (storer_size s) iw g in
  write_crypto_impl CryptoHeader 8 s k iw enc (storer_size s) r.1 r.2 = Ok (packet, iw', g') ->
  exists message' ir',
    read (packet ++ rest) 0 k ir = (Ok (Packet (stored s)), message', ir') /\
    message_ack ir' = message_ack iw' /\ salt ir' = salt iw /\ session_id ir' = session_id iw /\
    message_id ir' = le_load (substr 0 8 (stored s)) /\
    seq_no ir' = int32 (le_load (substr 8 4 (stored s))).
Proof.
  intros Hk Hid Hs Hd Hsalt Hsession Hvw Hvr Ht Hlen enc r Hw.
  destruct (written_read CryptoHeader 8 k Hk ltac:(lia) s enc iw g Hs) as
    (packet2 & padding & ack & g2 & Hw2 & _ & Hl & Hr); [|by right|].
  { unfold enc. by rewrite len_app, !len_le_store. }
  fold r in Hw2. rewrite Hw in Hw2. injection Hw2 as -> -> ->.
  set (ir0 := set_no_crypto_flag false ir).
  destruct (Hr ir0 rest) as (Hi & front & Hf & E); [by change (version ir = version iw); congruence|done|by intros Hv1; change (version ir = 1) in Hv1; congruence|done|].
  assert (Hfield : forall a b c : bytes, forall n m, n = len a -> m = 8 -> len b = 8 ->
    substr n m (a ++ b ++ c) = b) by (intros a b c n m -> -> Hb; by apply substr_app_mid').
  eexists _, _. split.
  - assert (H16 : 16 <= len (packet2 ++ rest)) by (rewrite len_app; pose proof (len_nonneg rest); lia).
    unfold read. cbn [Z.leb Z.compare]. rewrite read_packet_inside, (proj2 (Z.ltb_ge _ _)) by lia.
    rewrite Hi, (proj2 (Z.eqb_neq _ _)) by done. cbv zeta. fold ir0.
    change (type_ ir0) with (type_ ir). rewrite Ht. cbn [no_crypto_flag ir0 set_no_crypto_flag].
    rewrite (proj2 (Z.eqb_neq _ _)) by (destruct Hk as [-> _]; done).
    unfold read_crypto. rewrite E. cbv zeta. destruct Hd as [Hd _ _]. cbn in Hd.
    assert (He : len enc = 16) by (unfold enc; by rewrite len_app, !len_le_store).
    rewrite !slice_ok by (rewrite ?len_app; pose proof (len_nonneg padding); pose proof (len_nonneg rest); lia).
    cbn [with_value]. rewrite Ok_bind. unfold make_packet. rewrite (proj2 (Z.eqb_neq _ _)); [reflexivity|lia].
  - cbn [message_ack salt session_id message_id seq_no set_header set_type set_message_ack].
    split; [done|]. unfold enc. rewrite <- !app_assoc.
    rewrite (Hfield front) by (done || apply len_le_store).
    rewrite (app_assoc front), (Hfield (front ++ _)) by (rewrite ?len_app, ?len_le_store; done || lia).
    rewrite !le_load_store, !Z.mod_small by done. done.
Qed.
End properties.

(** ** Witnesses *)

Import Toy.

Definition sample_key : AuthKey := mk_AuthKey 77 (zeros 256).

Lemma sample_key_ok : key_ok sample_key.
Proof. split; [reflexivity | split; [discriminate | reflexivity]]. Qed.

Definition sample_info (t : packet_type) (v : Z) (creator : bool) : PacketInfo :=
  mk_info t 0 11 12 0 0 v false creator true false.

(** A length field and a payload of [n] bytes, behind the ids of a message. *)
Definition sample_storer (h : header_type) (n : Z) : storer :=
  mk_storer (sizeof_prefix h + n)
    (take (Z.to_nat (sizeof_prefix h - 4)) (hex [1; 2; 3; 4; 5; 6; 7; 8; 9; 10; 11; 12])
     ++ le_store 4 n ++ zeros n).

Definition sample_draws : script := mk_script [] [].

Lemma e2e_roundtrip_witness : exists packet iw' g' message' ir',
  write (sample_storer EndToEndHeader 8) sample_key (sample_info EndToEnd 2 true) 0 0 sample_draws =
    Ok (packet, iw', g') /\
  read (contents packet ++ hex [5]) 0 sample_key (sample_info EndToEnd 2 false) =
    (Ok (Packet (stored (sample_storer EndToEndHeader 8))), message', ir').
Proof.
  destruct (e2e_roundtrip (sample_storer EndToEndHeader 8) sample_key (sample_info EndToEnd 2 true)
    (sample_info EndToEnd 2 false) sample_draws 0 0 sample_key_ok) as (packet & iw' & g' & padding & Hw & _ & Hr);
    try reflexivity.
  - split; [discriminate | reflexivity | reflexivity].
  - right. reflexivity.
  - destruct (Hr (hex [5])) as (message' & ir' & E & _); [discriminate | reflexivity |].
    exists packet, iw', g', message', ir'. split; [exact Hw | exact E].
Defined.

Definition sample_sealed : bytes * PacketInfo * script :=
  let info := sample_info Common 2 true in
  let r := padded_size CryptoHeader 24 info sample_draws in
  match write_crypto_impl CryptoHeader 8 (sample_storer CryptoHeader 8) sample_key info
          (le_store 8 11 ++ le_store 8 12) 24 r.1 r.2 with
  | Ok packet => packet
  | _ => ([], info, sample_draws)
  end.

Lemma server_packet_read_witness : exists message' ir',
  read (sample_sealed.1.1 ++ hex [1; 2; 3]) 0 sample_key (sample_info Common 2 false) =
    (Ok (Packet (stored (sample_storer CryptoHeader 8))), message', ir') /\
  salt ir' = 11 /\ seq_no ir' = 0x0c0b0a09.
Proof.
  destruct (server_packet_read (sample_storer CryptoHeader 8) sample_key (sample_info Common 2 true)
    (sample_info Common 2 false) sample_draws sample_sealed.1.1 sample_sealed.1.2 sample_sealed.2
    (hex [1; 2; 3])) as (message' & ir' & Hr & _ & Hs & _ & _ & Hq);
    [apply sample_key_ok | discriminate | reflexivity | split; [discriminate | reflexivity | reflexivity]
    | split; [discriminate | reflexivity] | split; [discriminate | reflexivity]
    | reflexivity | reflexivity | reflexivity | reflexivity | vm_compute; reflexivity |].
  exists message', ir'. split; [exact Hr|]. split; [exact Hs|exact Hq].
Defined.

Lemma packet_acceptance_witness : exists data message' info',
  read_crypto_impl CryptoHeader 8 sample_sealed.1.1 sample_key (sample_info Common 2 false) =
    (Ok data, message', info').
Proof.
  set (data := stored (sample_storer CryptoHeader 8)).
  set (enc := le_store 8 11 ++ le_store 8 12).
  set (plain := enc ++ data ++ zeros 24).
  exists data. do 2 eexists.
  apply (packet_acceptance CryptoHeader 8 sample_key sample_sealed.1.1 (sample_info Common 2 false) data
    _ _ sample_key_ok ltac:(lia) (or_intror eq_refl)).
  exists enc, (zeros 24), plain, [], (ack_of 2 sample_key 8 plain []).
  split; [reflexivity|]. split; [reflexivity|]. split; [split; [discriminate | reflexivity | reflexivity]|].
  split; [reflexivity|]. split; [reflexivity|]. split; [reflexivity|]. split; [reflexivity|].
  split; [vm_compute; reflexivity|]. split; [split; discriminate|reflexivity].
Defined.

Lemma accepted_data_authenticated_witness : exists enc padding rest,
  sample_sealed.1.1 ++ hex [1] =
    seal 2 sample_key 8 (enc ++ stored (sample_storer CryptoHeader 8) ++ padding) [] ++ rest.
Proof.
  destruct (accepted_data_authenticated CryptoHeader 8 sample_key (sample_sealed.1.1 ++ hex [1])
    (sample_info Common 2 false) (stored (sample_storer CryptoHeader 8))
    (read_crypto_impl CryptoHeader 8 (sample_sealed.1.1 ++ hex [1]) sample_key (sample_info Common 2 false)).1.2
    (read_crypto_impl CryptoHeader 8 (sample_sealed.1.1 ++ hex [1]) sample_key (sample_info Common 2 false)).2
    sample_key_ok) as (enc & padding & rest & E & _);
    [lia | reflexivity | reflexivity | vm_compute; reflexivity |].
  exists enc, padding, rest. exact E.
Defined.

Lemma written_packet_witness : exists packet padding info' g',
  write (sample_storer CryptoHeader 8) sample_key (sample_info Common 2 true) 0 0 sample_draws = Ok (packet, info', g') /\
  contents packet = seal 2 sample_key 0 ((le_store 8 11 ++ le_store 8 12) ++ stored (sample_storer CryptoHeader 8)) padding /\
  12 <= len padding <= 480.
Proof.
  destruct (written_packet (sample_storer CryptoHeader 8) sample_key (sample_info Common 2 true) 0 0 sample_draws sample_key_ok)
    as (packet & padding & g' & Hw & Hc & _ & _ & Hp); [reflexivity|right; reflexivity|].
  exists packet, padding. do 2 eexists. split; [exact Hw|]. split; [exact Hc|exact Hp].
Defined.

Lemma read_never_crashes_witness :
  (read (hex [77; 0; 0; 0; 0; 0; 0; 0] ++ zeros 90) 0 sample_key (sample_info Common 2 false)).1.1 <> Crash.
Proof.
  apply (read_never_crashes (hex [77; 0; 0; 0; 0; 0; 0; 0] ++ zeros 90) 0 sample_key
    (sample_info Common 2 false)); [right; reflexivity | left; reflexivity].
Defined.
