(* ===== verification/MessageIds.v ===== *)
(** [check_message_id_duplicates] and [MessageIdDuplicateChecker]
    ([mtproto/AuthData.{h,cpp}]): the window of received message identifiers
    that protects a session from replayed messages.  The saved identifiers are
    an array of [2 * max_size] cells of which the first [end_pos] are in use. *)
From S2P Require Import Prelude.
#[local] Open Scope Z_scope.

(** [std::lower_bound] on a sorted range: the first index whose value is not
    less than [x]. *)
Fixpoint lower_bound (l : list Z) (x : Z) : nat :=
  match l with
  | [] => O
  | y :: l => if y <? x then S (lower_bound l x) else O
  end.

Record checker := mk_checker { saved_message_ids : list Z; end_pos : nat }.

(** [std::copy_n(&saved[max_size], max_size, &saved[0]); end_pos = max_size]. *)
Definition forget_oldest (max_size : nat) (c : checker) : checker :=
  if (end_pos c =? 2 * max_size)%nat
  then mk_checker (take max_size (drop max_size (saved_message_ids c))
                   ++ drop max_size (saved_message_ids c)) max_size
  else c.

(** [std::copy_backward(it, end, end + 1); *it = message_id]. *)
Definition insert_at (it stop : nat) (message_id : Z) (saved : list Z) : list Z :=
  take it saved ++ [message_id] ++ take (stop - it) (drop it saved) ++ drop (S stop) saved.

Definition check_message_id_duplicates (max_size : nat) (message_id : Z) (c : checker)
  : outcome unit * checker :=
  let c := forget_oldest max_size c in
  let saved := saved_message_ids c in
  let stop := end_pos c in
  if (stop =? 0)%nat || (nth (stop - 1) saved 0 <? message_id) then
    (Ok tt, mk_checker (<[stop := message_id]> saved) (S stop))
  else if (max_size <=? stop)%nat && (message_id <? nth 0 saved 0) then
    (Err (Error 2 "Ignore very old "), c)
  else
    let it := lower_bound (take stop saved) message_id in
    if nth it saved 0 =? message_id then (Err (Error 1 "Ignore already processed "), c)
    else (Ok tt, mk_checker (insert_at it stop message_id saved) (S stop)).

(** [MessageIdDuplicateChecker<max_size>]: a new checker has zeros. *)
Definition new_checker (max_size : nat) : checker := mk_checker (replicate (2 * max_size) 0) 0.

(** * The window *)

Definition window (c : checker) : list Z := take (end_pos c) (saved_message_ids c).

Record checker_ok (max_size : nat) (c : checker) : Prop := {
  checker_cells : length (saved_message_ids c) = (2 * max_size)%nat;
  checker_end : (end_pos c <= 2 * max_size)%nat;
  checker_sorted : StronglySorted Z.lt (window c);
}.

Lemma length_window max_size c : checker_ok max_size c -> length (window c) = end_pos c.
Proof. intros [Hl He _]. unfold window. rewrite length_take. lia. Qed.

Lemma new_checker_ok max_size : checker_ok max_size (new_checker max_size).
Proof.
  split; cbn; [by rewrite length_replicate | lia |]. unfold window. cbn. constructor.
Qed.

(** ** Sorted lists *)

Lemma lower_bound_split l x :
  StronglySorted Z.lt l ->
  (lower_bound l x <= length l)%nat /\
  (forall y, y ∈ take (lower_bound l x) l -> y < x) /\
  (forall y, y ∈ drop (lower_bound l x) l -> x <= y).
Proof.
  induction l as [|a l IH]; intros Hs; cbn.
  - split; [lia|]. by split; intros y Hy; apply elem_of_nil in Hy.
  - inversion Hs as [|? ? Hs' Ha]; subst. rewrite Forall_forall in Ha.
    destruct (Z.ltb_spec a x) as [Hax|Hax]; cbn.
    + destruct (IH Hs') as (Hn & Hlt & Hge). split; [lia|]. split; [|exact Hge].
      intros y Hy. apply elem_of_cons in Hy as [->|Hy]; [done|]. by apply Hlt.
    + split; [lia|]. split; [intros y Hy; by apply elem_of_nil in Hy|].
      intros y Hy. apply elem_of_cons in Hy as [->|Hy]; [done|]. specialize (Ha y Hy). lia.
Qed.

(** ** The specification: a bounded, sorted set *)

(** The window that [check] looks at: when it is full, its upper half. *)
Definition kept (max_size : nat) (w : list Z) : list Z :=
  if (length w =? 2 * max_size)%nat then drop max_size w else w.

(** An identifier is refused when it is in the window, or when the window is
    at least half full and it is older than all of it. *)
Definition refused (max_size : nat) (w : list Z) (message_id : Z) : Prop :=
  message_id ∈ w \/ (max_size <= length w)%nat /\ Forall (Z.lt message_id) w.

(** [w'] is [w] with one more identifier. *)
Definition extended (w : list Z) (message_id : Z) (w' : list Z) : Prop :=
  StronglySorted Z.lt w' /\ w' ≡ₚ message_id :: w.

Lemma forget_oldest_ok max_size c :
  (1 <= max_size)%nat -> checker_ok max_size c ->
  checker_ok max_size (forget_oldest max_size c) /\
  (end_pos (forget_oldest max_size c) < 2 * max_size)%nat /\
  window (forget_oldest max_size c) = kept max_size (window c).
Proof.
  intros Hm [Hl He Hs]. unfold kept. rewrite (length_window max_size) by done. unfold forget_oldest.
  destruct (Nat.eqb_spec (end_pos c) (2 * max_size)) as [E|E].
  - assert (Hw : window c = saved_message_ids c) by (unfold window; apply take_ge; lia).
    assert (Hd : length (drop max_size (saved_message_ids c)) = max_size) by (rewrite length_drop; lia).
    assert (Hwin : take max_size (take max_size (drop max_size (saved_message_ids c))
                     ++ drop max_size (saved_message_ids c)) = drop max_size (saved_message_ids c)).
    { rewrite (take_ge (drop max_size _)) by lia. rewrite take_app_le by lia. apply take_ge. lia. }
    rewrite Hw in *. split; [|split; [cbn; lia | by unfold window; cbn]].
    split; unfold window; cbn [saved_message_ids end_pos].
    + rewrite length_app, length_take, Hd. lia.
    + lia.
    + rewrite Hwin. rewrite <- (take_drop max_size (saved_message_ids c)) in Hs.
      by apply sorted_app in Hs as (_ & Hs & _).
  - split; [by split|]. split; [lia|done].
Qed.

Lemma window_push c message_id :
  (end_pos c < length (saved_message_ids c))%nat ->
  window (mk_checker (<[end_pos c := message_id]> (saved_message_ids c)) (S (end_pos c))) =
    window c ++ [message_id].
Proof.
  intros Hl. unfold window; cbn. rewrite take_S_r with (x := message_id).
  - rewrite take_insert_ge by lia. done.
  - by apply list_lookup_insert_eq.
Qed.

Lemma window_insert c it message_id :
  (it <= end_pos c)%nat -> (end_pos c < length (saved_message_ids c))%nat ->
  window (mk_checker (insert_at it (end_pos c) message_id (saved_message_ids c)) (S (end_pos c))) =
    take it (window c) ++ message_id :: drop it (window c) /\
  length (insert_at it (end_pos c) message_id (saved_message_ids c)) = length (saved_message_ids c).
Proof.
  intros Hi Hl. unfold window, insert_at; cbn [saved_message_ids end_pos].
  set (s := saved_message_ids c) in *. set (e := end_pos c) in *. split.
  - rewrite !app_assoc, take_app_le.
    + rewrite take_ge; [|rewrite !length_app, !length_take, length_drop; cbn; lia].
      rewrite take_take, Nat.min_l, take_drop_commute by lia.
      replace (it + (e - it))%nat with e by lia. by rewrite <- app_assoc.
    + rewrite !length_app, !length_take, length_drop. cbn. lia.
  - rewrite !length_app, !length_take, !length_drop. cbn. lia.
Qed.

Lemma window_last c :
  (0 < end_pos c <= length (saved_message_ids c))%nat ->
  window c = take (end_pos c - 1) (saved_message_ids c)
             ++ [nth (end_pos c - 1) (saved_message_ids c) 0].
Proof.
  intros Hl. unfold window. replace (end_pos c) with (S (end_pos c - 1)) at 1 by lia.
  apply take_S_r. destruct (nth_lookup_or_length (saved_message_ids c) (end_pos c - 1) 0); [done | lia].
Qed.

Lemma nth_window c n : (n < end_pos c)%nat -> nth n (saved_message_ids c) 0 = nth n (window c) 0.
Proof.
  intros Hn. unfold window. rewrite !nth_lookup. by rewrite lookup_take_lt.
Qed.

Lemma sorted_last_lt (l : list Z) x y :
  StronglySorted Z.lt (l ++ [x]) -> x < y -> StronglySorted Z.lt ((l ++ [x]) ++ [y]).
Proof.
  intros Hs Hxy. apply sorted_app. split; [done|]. split; [repeat constructor|].
  intros a b Ha Hb. apply list_elem_of_singleton in Hb as ->.
  apply sorted_app in Hs as (_ & _ & Hlt). apply elem_of_app in Ha as [Ha|Ha].
  - specialize (Hlt a x Ha). rewrite list_elem_of_singleton in Hlt. specialize (Hlt eq_refl). lia.
  - by apply list_elem_of_singleton in Ha as ->.
Qed.

Lemma sorted_head_refused w (message_id : Z) :
  StronglySorted Z.lt w -> w <> [] -> message_id < nth 0 w 0 <-> Forall (Z.lt message_id) w /\ w <> [].
Proof.
  intros Hs Hne. destruct w as [|a w]; [done|]. cbn. inversion Hs as [|? ? _ Ha]; subst. split.
  - intros Hlt. split; [|done]. constructor; [done|]. rewrite Forall_forall in *. intros y Hy.
    specialize (Ha y Hy). lia.
  - intros [Hf _]. by inversion Hf.
Qed.

Lemma refused_nil max_size (message_id : Z) : (1 <= max_size)%nat -> ~ refused max_size [] message_id.
Proof. intros Hm [Hin|[Hn _]]; [by apply elem_of_nil in Hin | cbn in Hn; lia]. Qed.

(** The fast path: the identifier is newer than all that is known. *)
Lemma push_spec max_size message_id c :
  (1 <= max_size)%nat -> checker_ok max_size c ->
  (end_pos c =? 0)%nat || (nth (end_pos c - 1) (saved_message_ids c) 0 <? message_id) = true ->
  extended (window c) message_id (window c ++ [message_id]) /\ ~ refused max_size (window c) message_id.
Proof.
  intros Hm Hok Efast. pose proof (length_window _ _ Hok) as Hlen. destruct Hok as [Hl He Hs].
  destruct (decide (end_pos c = 0%nat)) as [E0|E0].
  { rewrite E0 in Hlen. destruct (window c); [|done]. split; [|by apply refused_nil].
    split; [repeat constructor|done]. }
  apply orb_true_iff in Efast as [E|Elast]; [by apply Nat.eqb_eq in E|].
  apply Z.ltb_lt in Elast. pose proof (window_last c ltac:(lia)) as Hwl.
  set (last := nth (end_pos c - 1) _ 0) in *.
  set (front := take (end_pos c - 1) _) in *. rewrite Hwl in *.
  pose proof (sorted_last_lt _ _ _ Hs Elast) as Hs2. split.
  - split; [done|]. by rewrite Permutation_app_comm.
  - apply sorted_app in Hs2 as (_ & _ & Hlt). intros [Hin|[_ Hf]].
    + specialize (Hlt _ message_id Hin ltac:(by apply list_elem_of_singleton)). lia.
    + apply Forall_app in Hf as [_ Hf]. inversion Hf as [|? ? Hlast _]; subst. lia.
Qed.

Lemma extended_insert (l k : list Z) a x :
  StronglySorted Z.lt (l ++ a :: k) -> (forall y, y ∈ l -> y < x) -> x < a ->
  extended (l ++ a :: k) x (l ++ x :: a :: k).
Proof.
  intros Hs Hl Ha. split; [|symmetry; apply Permutation_middle].
  apply sorted_app in Hs as (Hsl & Hsk & Hlk). apply sorted_app. split; [done|].
  inversion Hsk as [|? ? _ Hak]; subst. split.
  - constructor; [done|]. constructor; [done|]. rewrite Forall_forall in *. intros y Hy.
    specialize (Hak y Hy). lia.
  - intros u v Hu Hv. apply elem_of_cons in Hv as [->|Hv]; [by apply Hl|]. by apply Hlk.
Qed.

(** The slow path: the position that [lower_bound] finds is in use. *)
Lemma search_spec max_size message_id c :
  checker_ok max_size c -> end_pos c <> 0%nat ->
  message_id <= nth (end_pos c - 1) (saved_message_ids c) 0 ->
  exists l a k, window c = l ++ a :: k /\ lower_bound (window c) message_id = length l /\
    nth (lower_bound (window c) message_id) (saved_message_ids c) 0 = a /\
    (forall y, y ∈ l -> y < message_id) /\ message_id <= a.
Proof.
  intros Hok E0 Elast. pose proof (length_window _ _ Hok) as Hlen. destruct Hok as [Hl He Hs].
  destruct (lower_bound_split (window c) message_id Hs) as (Hn & Hlt & Hge).
  set (it := lower_bound (window c) message_id) in *.
  assert (Hit : (it < length (window c))%nat).
  { destruct (decide (it = length (window c))) as [E|E]; [|lia]. exfalso.
    rewrite E, firstn_all in Hlt. pose proof (window_last c ltac:(lia)) as Hwl.
    rewrite Hwl in Hlt.
    specialize (Hlt (nth (end_pos c - 1) (saved_message_ids c) 0)).
    rewrite elem_of_app, list_elem_of_singleton in Hlt. specialize (Hlt (or_intror eq_refl)). lia. }
  destruct (drop it (window c)) as [|a k] eqn:Ed.
  { apply (f_equal length) in Ed. rewrite length_drop in Ed. cbn in Ed. lia. }
  assert (Hw : window c = take it (window c) ++ a :: k) by (by rewrite <- Ed, take_drop).
  exists (take it (window c)), a, k.
  assert (Hlen' : length (take it (window c)) = it) by (rewrite length_take; lia).
  split; [done|]. split; [done|]. split; [|split; [done|apply Hge; by left]].
  rewrite nth_window by lia. rewrite Hw, <- Hlen' at 1. rewrite app_nth2, Nat.sub_diag by lia. done.
Qed.

(** [check] on the window. *)
Lemma check_spec max_size message_id c :
  (1 <= max_size)%nat -> checker_ok max_size c ->
  let w := kept max_size (window c) in
  let r := check_message_id_duplicates max_size message_id c in
  checker_ok max_size r.2 /\
  match r.1 with
  | Ok _ => ~ refused max_size w message_id /\ extended w message_id (window r.2)
  | Err _ => refused max_size w message_id /\ window r.2 = w
  | Crash => False
  end.
Proof.
  intros Hm Hok w r. destruct (forget_oldest_ok max_size c Hm Hok) as (Hok' & Hend & Hw).
  unfold r, check_message_id_duplicates. fold w in Hw. set (c' := forget_oldest max_size c) in *.
  clearbody c'. pose proof (length_window _ _ Hok') as Hlen. pose proof Hok' as [Hl He Hs].
  rewrite <- Hw. clear w Hw r.
  destruct (_ || _) eqn:Efast.
  - destruct (push_spec max_size message_id c' Hm Hok' Efast) as [Hext Href].
    pose proof (window_push c' message_id ltac:(lia)) as Hpw.
    cbn [fst snd]. rewrite Hpw. split; [|by split].
    split; cbn [saved_message_ids end_pos]; [by rewrite length_insert | lia |].
    rewrite Hpw. apply Hext.
  - apply orb_false_iff in Efast as [E0 Elast]. apply Nat.eqb_neq in E0. apply Z.ltb_ge in Elast.
    assert (Hne : window c' <> []) by (intros E; rewrite E in Hlen; cbn in Hlen; lia).
    rewrite (nth_window c' 0) by lia. destruct (_ && _) eqn:Eold.
    + apply andb_true_iff in Eold as [Em Eold]. apply Nat.leb_le in Em. apply Z.ltb_lt in Eold.
      split; [done|]. cbn [fst snd]. split; [|done]. right. split; [lia|].
      by apply sorted_head_refused in Eold as [? _].
    + fold (window c').
      destruct (search_spec max_size message_id c' Hok' E0 Elast) as (l & a & k & Hw & Hit & -> & Hlt & Hge).
      destruct (Z.eqb_spec a message_id) as [->|Ha]; cbn [fst snd].
      { split; [done|]. split; [|done]. left. rewrite Hw. apply elem_of_app. right. by left. }
      rewrite Hit. destruct (window_insert c' (length l) message_id) as [Hwi Hli]; [|lia|].
      { apply (f_equal length) in Hw. rewrite length_app in Hw. lia. }
      rewrite Hwi, Hw, take_app_length, drop_app_length.
      assert (Hext : extended (l ++ a :: k) message_id (l ++ message_id :: a :: k))
        by (apply extended_insert; [by rewrite <- Hw | done | lia]).
      split; [|split; [|exact Hext]].
      * split; cbn [saved_message_ids end_pos]; [by rewrite Hli | lia |].
        rewrite Hwi, Hw, take_app_length, drop_app_length. apply Hext.
      * rewrite <- Hw. intros [Hin|[Hfull Hall]].
        -- rewrite Hw in Hin, Hs. destruct Hext as [Hsort _]. apply sorted_app in Hsort as (_ & Hsk & _).
           inversion Hsk as [|? ? _ Hf]; subst. rewrite Forall_forall in Hf.
           apply elem_of_app in Hin as [Hin|Hin]; [specialize (Hlt _ Hin) | specialize (Hf _ Hin)]; lia.
        -- rewrite (proj2 (Nat.leb_le _ _)) in Eold by lia. cbn in Eold. apply Z.ltb_ge in Eold.
           destruct (window c'); [done|]. inversion Hall; subst. cbn in Eold. lia.
Qed.

(** * Sequences of checks *)

(** The identifiers that are accepted, the last one first. *)
Fixpoint check_all (max_size : nat) (ids : list Z) (acc : list Z) (c : checker) : list Z * checker :=
  match ids with
  | [] => (acc, c)
  | message_id :: ids =>
      match check_message_id_duplicates max_size message_id c with
      | (Ok _, c) => check_all max_size ids (message_id :: acc) c
      | (_, c) => check_all max_size ids acc c
      end
  end.

(** Every accepted identifier would be refused, and the window is a part of
    what was accepted. *)
Record history_ok (max_size : nat) (acc : list Z) (c : checker) : Prop := {
  history_checker : checker_ok max_size c;
  history_nodup : NoDup acc;
  history_refused : forall x, x ∈ acc -> refused max_size (kept max_size (window c)) x;
  history_window : forall x, x ∈ window c -> x ∈ acc;
}.

Lemma kept_refused max_size w x :
  StronglySorted Z.lt w -> (length w <= 2 * max_size)%nat ->
  refused max_size w x -> refused max_size (kept max_size w) x.
Proof.
  intros Hs Hl Hr. unfold kept. destruct (Nat.eqb_spec (length w) (2 * max_size)) as [E|E]; [|done].
  rewrite <- (take_drop max_size w) in Hs, Hr. apply sorted_app in Hs as (_ & _ & Hlt).
  assert (Hd : (max_size <= length (drop max_size w))%nat) by (rewrite length_drop; lia).
  destruct Hr as [Hin|[_ Hall]].
  - apply elem_of_app in Hin as [Hin|Hin]; [|by left]. right. split; [done|].
    apply Forall_forall. intros y Hy. by apply Hlt.
  - right. split; [done|]. by apply Forall_app in Hall as [_ Hall].
Qed.

Lemma extended_refused max_size w x w' y :
  ~ refused max_size w x -> extended w x w' -> refused max_size w y -> refused max_size w' y.
Proof.
  intros Hx [_ Hp] [Hin|[Hl Hall]].
  - left. rewrite Hp. by right.
  - right. rewrite Hp. split; [cbn; lia|]. constructor; [|done].
    destruct (decide (y < x)) as [|Hxy]; [done|]. destruct Hx. right. split; [done|].
    eapply Forall_impl; [exact Hall|]. cbn. lia.
Qed.

Lemma check_history max_size x acc c :
  (1 <= max_size)%nat -> history_ok max_size acc c ->
  let r := check_message_id_duplicates max_size x c in
  match r.1 with
  | Ok _ => x ∉ acc /\ history_ok max_size (x :: acc) r.2
  | _ => history_ok max_size acc r.2 /\
      (x ∈ acc \/ exists newer, newer ⊆ acc /\ NoDup newer /\ (max_size <= length newer)%nat /\ Forall (Z.lt x) newer)
  end.
Proof.
  intros Hm [Hc Hn Hr Hw] r. pose proof (check_spec max_size x c Hm Hc) as [Hok Hspec]. fold r in Hok, Hspec.
  cbn zeta in Hspec. set (w := kept max_size (window c)) in *.
  assert (Hsub : forall y, y ∈ w -> y ∈ window c).
  { intros y Hy. unfold w, kept in Hy. destruct (_ =? _)%nat; [|done].
    rewrite <- (take_drop max_size (window c)). apply elem_of_app. by right. }
  assert (Hlen : (length (window r.2) <= 2 * max_size)%nat)
    by (rewrite (length_window max_size) by done; by destruct Hok).
  assert (Hsorted : StronglySorted Z.lt (window r.2)) by (by destruct Hok).
  assert (Hsw : StronglySorted Z.lt w).
  { unfold w, kept. destruct Hc as [_ _ Hs]. destruct (_ =? _)%nat; [|done].
    rewrite <- (take_drop max_size (window c)) in Hs. by apply sorted_app in Hs as (_ & ? & _). }
  destruct r.1 as [u|e|].
  - destruct Hspec as [Hx Hext]. assert (Hxn : x ∉ acc) by (intros Hin; by apply Hx, Hr).
    split; [done|]. split; [done | by constructor | |].
    + intros y Hy. apply kept_refused; [done|done|]. apply elem_of_cons in Hy as [->|Hy].
      * left. destruct Hext as [_ ->]. by left.
      * by apply (extended_refused _ w x), Hr.
    + intros y Hy. destruct Hext as [_ Hp]. rewrite Hp in Hy.
      apply elem_of_cons in Hy as [->|Hy]; [by left|]. right. by apply Hw, Hsub.
  - destruct Hspec as [Hx Heq]. split.
    + split; [done|done| |].
      * intros y Hy. apply kept_refused; [done|done|]. rewrite Heq. by apply Hr.
      * intros y Hy. rewrite Heq in Hy. by apply Hw, Hsub.
    + destruct Hx as [Hin|[Hl Hall]]; [left; by apply Hw, Hsub|]. right. exists w.
      split; [intros y Hy; by apply Hw, Hsub|]. split; [|by split].
      clear -Hsw. induction Hsw as [|a l Hs IH Ha]; constructor; [|done].
      intros Hin. rewrite Forall_forall in Ha. specialize (Ha a Hin). lia.
  - done.
Qed.

Lemma check_all_history max_size ids acc c :
  (1 <= max_size)%nat -> history_ok max_size acc c ->
  history_ok max_size (check_all max_size ids acc c).1 (check_all max_size ids acc c).2.
Proof.
  intros Hm. revert acc c. induction ids as [|x ids IH]; intros acc c Hh; [done|]. cbn [check_all].
  pose proof (check_history max_size x acc c Hm Hh) as Hc. cbn zeta in Hc.
  destruct (check_message_id_duplicates max_size x c) as [[u|e|] c']; cbn [fst snd] in Hc; apply IH; apply Hc.
Qed.

(** C6: No message identifier is accepted twice, in whatever order identifiers
    arrive; and one is refused only if it was accepted before or if at least
    [max_size] newer ones were. *)
Theorem no_replay (max_size : nat) (ids : list Z) (x : Z) :
  (1 <= max_size)%nat ->
  let '(accepted, c) := check_all max_size ids [] (new_checker max_size) in
  NoDup accepted /\
  match (check_message_id_duplicates max_size x c).1 with
  | Ok _ => x ∉ accepted
  | Err _ => x ∈ accepted \/ exists newer, newer ⊆ accepted /\ NoDup newer /\
      (max_size <= length newer)%nat /\ Forall (Z.lt x) newer
  | Crash => False
  end.
Proof.
  intros Hm. assert (Hh : history_ok max_size [] (new_checker max_size)).
  { split; [apply new_checker_ok | constructor | |]; intros y Hy; by apply elem_of_nil in Hy. }
  pose proof (check_all_history max_size ids [] _ Hm Hh) as Hall.
  destruct (check_all max_size ids [] (new_checker max_size)) as [accepted c]. cbn [fst snd] in Hall.
  split; [by destruct Hall|]. pose proof (check_history max_size x accepted c Hm Hall) as Hc.
  pose proof (check_spec max_size x c Hm (history_checker _ _ _ Hall)) as [_ Hs]. cbn zeta in *.
  destruct (check_message_id_duplicates max_size x c).1; [apply Hc | apply Hc | done].
Qed.

(** Every check stays inside of the array and keeps the saved identifiers
    strictly increasing; it accepts what is not refused, and says what is known
    afterwards. *)
Theorem duplicate_check (max_size : nat) (message_id : Z) (c : checker) :
  (1 <= max_size)%nat -> checker_ok max_size c ->
  let w := kept max_size (window c) in
  let '(result, c') := check_message_id_duplicates max_size message_id c in
  checker_ok max_size c' /\ (end_pos (forget_oldest max_size c) < length (saved_message_ids c))%nat /\
  match result with
  | Ok _ => ~ refused max_size w message_id /\ extended w message_id (window c')
  | Err _ => refused max_size w message_id /\ window c' = w
  | Crash => False
  end.
Proof.
  intros Hm Hok w. pose proof (check_spec max_size message_id c Hm Hok) as [Hok' Hs].
  destruct (forget_oldest_ok max_size c Hm Hok) as (_ & Hend & _). destruct Hok as [Hl _ _].
  destruct (check_message_id_duplicates max_size message_id c) as [r c']. by rewrite Hl.
Qed.

Lemma no_replay_witness :
  let '(accepted, c) := check_all 2 [5; 9; 7; 5; 11; 13; 7] [] (new_checker 2) in
  NoDup accepted /\ accepted = [13; 11; 7; 9; 5].
Proof.
  pose proof (no_replay 2 [5; 9; 7; 5; 11; 13; 7] 9 ltac:(lia)) as [Hn _].
  split; [exact Hn | reflexivity].
Defined.

Lemma duplicate_check_witness :
  let '(result, c) := check_message_id_duplicates 2 6 (mk_checker [3; 8; 0; 0] 2) in
  checker_ok 2 c /\ extended [3; 8] 6 (window c).
Proof.
  pose proof (duplicate_check 2 6 (mk_checker [3; 8; 0; 0] 2) ltac:(lia)) as Hc.
  cbn in Hc. destruct Hc as (Hok & _ & _ & Hext).
  - split; [reflexivity | cbn; lia | repeat constructor].
  - split; [exact Hok | exact Hext].
Defined.
