(* ===== verification/AuthData.v ===== *)
(** The state of an MTProto session's keys, salts, clock and counters:
    [mtproto/AuthData.{h,cpp}] and [AuthKey.h].

    A [double] is the rational number that it denotes, and an operation on
    doubles is the rounding ([rnd]) of the exact result; what is relied on of
    the rounding is in [RoundingLaws].  [now] is an argument everywhere, also
    where the code calls [Time::now()] itself. *)
From Stdlib Require Import QArith Qabs Qround Lqa.
From S2P Require Import Prelude Bytes Random Transport MessageIds.
#[local] Open Scope Z_scope.

(** * Doubles *)

Class Rounding := { rnd : Q -> Q }.

(** IEEE-754 rounding to nearest: the relative error is at most [2^-53], and
    the error is tiny where numbers are subnormal.  Rounding is monotone, it does
    not change a double again, and small integers are doubles. *)
Class RoundingLaws `{Rounding} : Prop := {
  rnd_error x : (Qabs (rnd x - x) <= Qabs x * (1 # 2 ^ 53) + (1 # 2 ^ 60))%Q;
  rnd_mono x y : (x <= y)%Q -> (rnd x <= rnd y)%Q;
  rnd_idem x : (rnd (rnd x) == rnd x)%Q;
  rnd_integer z : Z.abs z <= 2 ^ 53 -> (rnd (inject_Z z) == inject_Z z)%Q;
}.

(** Seconds of the Unix epoch, with an error of less than a microsecond. *)
Lemma rnd_seconds `{RoundingLaws} x :
  (- inject_Z (2 ^ 33) <= x <= inject_Z (2 ^ 33))%Q ->
  (x - (1 # 1000000) <= rnd x <= x + (1 # 1000000))%Q.
Proof.
  intros [Hl Hu]. pose proof (rnd_error x) as He. apply Qabs_Qle_condition in He.
  assert (Ha : (Qabs x <= inject_Z (2 ^ 33))%Q) by (apply Qabs_Qle_condition; split; lra).
  change (inject_Z (2 ^ 33)) with (8589934592 # 1)%Q in *.
  assert (Hb : (Qabs x * (1 # 2 ^ 53) <= (8589934592 # 1) * (1 # 2 ^ 53))%Q)
    by (apply Qmult_le_compat_r; [done|by compute]).
  assert (Hc : ((8589934592 # 1) * (1 # 2 ^ 53) + (1 # 2 ^ 60) <= 1 # 1000000)%Q) by (by compute).
  lra.
Qed.

Definition Qltb (x y : Q) : bool := negb (Qle_bool y x).

Lemma Qltb_lt x y : Qltb x y = true <-> (x < y)%Q.
Proof. unfold Qltb. rewrite negb_true_iff, <- not_true_iff_false, Qle_bool_iff. split; [apply Qnot_le_lt | apply Qlt_not_le]. Qed.

Lemma Qltb_ge x y : Qltb x y = false <-> (y <= x)%Q.
Proof. unfold Qltb. by rewrite negb_false_iff, Qle_bool_iff. Qed.

(** * Keys *)

Record auth_key_state := mk_key_state {
  auth_key : AuthKey;
  auth_flag_ : bool;
  have_header_ : bool;
  header_expires_at_ : Q;
  expires_at : Q;
  created_at : Q;
}.

(** [AuthKey()]. *)
Definition no_key : auth_key_state := mk_key_state (mk_AuthKey 0 []) false true 0 0 0.

Definition key_empty (k : auth_key_state) : bool := len (key (auth_key k)) =? 0.

(** [break_key]: the first byte of the key must exist. *)
Definition break_key (k : auth_key_state) : outcome auth_key_state :=
  match key (auth_key k) with
  | [] => Crash
  | b :: rest =>
      Ok (mk_key_state (mk_AuthKey (uint64 (id (auth_key k) + 1)) (z2b (b2z b + 1) :: rest))
            (auth_flag_ k) (have_header_ k) (header_expires_at_ k) (expires_at k) (created_at k))
  end.

Definition set_key_auth_flag (b : bool) (k : auth_key_state) : auth_key_state :=
  mk_key_state (auth_key k) b (have_header_ k) (header_expires_at_ k) (expires_at k) (created_at k).

Definition need_header (now : Q) (k : auth_key_state) : bool :=
  have_header_ k || Qltb now (header_expires_at_ k).

Definition restore_header (k : auth_key_state) : auth_key_state :=
  mk_key_state (auth_key k) (auth_flag_ k) true (header_expires_at_ k) (expires_at k) (created_at k).

Definition set_expires_at (t : Q) (k : auth_key_state) : auth_key_state :=
  mk_key_state (auth_key k) (auth_flag_ k) (have_header_ k) (header_expires_at_ k) t (created_at k).

Definition set_created_at (t : Q) (k : auth_key_state) : auth_key_state :=
  mk_key_state (auth_key k) (auth_flag_ k) (have_header_ k) (header_expires_at_ k) (expires_at k) t.

(** * Salts *)

Record ServerSalt := mk_salt { salt_value : Z; valid_since : Q; valid_until : Q }.

(** [std::sort] by decreasing [valid_since]. *)
Fixpoint insert_salt (s : ServerSalt) (l : list ServerSalt) : list ServerSalt :=
  match l with
  | [] => [s]
  | t :: l => if Qltb (valid_since s) (valid_since t) then t :: insert_salt s l else s :: t :: l
  end.

Definition sort_salts (l : list ServerSalt) : list ServerSalt := foldr insert_salt [] l.

(** * [AuthData] *)

Record AuthData := mk_AuthData {
  use_pfs : bool;
  main_auth_key_ : auth_key_state;
  tmp_auth_key_ : auth_key_state;
  server_time_difference_was_updated_ : bool;
  server_time_difference_ : Q;
  server_salt_ : ServerSalt;
  last_message_id_ : Z;
  seq_no_ : Z;
  header_ : bytes;
  session_id_ : Z;
  future_salts_ : list ServerSalt;
  duplicate_checker_ : checker;
  updates_duplicate_checker_ : checker;
  updates_duplicate_rechecker_ : checker;
}.

Definition set_time (updated : bool) (diff : Q) (a : AuthData) : AuthData :=
  mk_AuthData (use_pfs a) (main_auth_key_ a) (tmp_auth_key_ a) updated diff (server_salt_ a)
    (last_message_id_ a) (seq_no_ a) (header_ a) (session_id_ a) (future_salts_ a)
    (duplicate_checker_ a) (updates_duplicate_checker_ a) (updates_duplicate_rechecker_ a).

Definition set_salts (current : ServerSalt) (future : list ServerSalt) (a : AuthData) : AuthData :=
  mk_AuthData (use_pfs a) (main_auth_key_ a) (tmp_auth_key_ a) (server_time_difference_was_updated_ a)
    (server_time_difference_ a) current (last_message_id_ a) (seq_no_ a) (header_ a) (session_id_ a) future
    (duplicate_checker_ a) (updates_duplicate_checker_ a) (updates_duplicate_rechecker_ a).

Definition set_counters (last seq : Z) (a : AuthData) : AuthData :=
  mk_AuthData (use_pfs a) (main_auth_key_ a) (tmp_auth_key_ a) (server_time_difference_was_updated_ a)
    (server_time_difference_ a) (server_salt_ a) last seq (header_ a) (session_id_ a) (future_salts_ a)
    (duplicate_checker_ a) (updates_duplicate_checker_ a) (updates_duplicate_rechecker_ a).

Definition set_keys (main tmp : auth_key_state) (a : AuthData) : AuthData :=
  mk_AuthData (use_pfs a) main tmp (server_time_difference_was_updated_ a)
    (server_time_difference_ a) (server_salt_ a) (last_message_id_ a) (seq_no_ a) (header_ a) (session_id_ a)
    (future_salts_ a) (duplicate_checker_ a) (updates_duplicate_checker_ a) (updates_duplicate_rechecker_ a).

Definition set_checkers (packets updates recheck : checker) (a : AuthData) : AuthData :=
  mk_AuthData (use_pfs a) (main_auth_key_ a) (tmp_auth_key_ a) (server_time_difference_was_updated_ a)
    (server_time_difference_ a) (server_salt_ a) (last_message_id_ a) (seq_no_ a) (header_ a) (session_id_ a)
    (future_salts_ a) packets updates recheck.

(** ** Keys of a session *)

Definition has_main_auth_key (a : AuthData) : bool := negb (key_empty (main_auth_key_ a)).

Definition set_tmp_auth_key (k : auth_key_state) (a : AuthData) : outcome AuthData :=
  _ ← check (negb (key_empty k)); Ok (set_keys (main_auth_key_ a) k a).

Definition drop_tmp_auth_key (a : AuthData) : AuthData := set_keys (main_auth_key_ a) no_key a.

Definition has_tmp_auth_key (now : Q) (a : AuthData) : bool :=
  if negb (use_pfs a) then false
  else if key_empty (tmp_auth_key_ a) then false
  else if Qltb (expires_at (tmp_auth_key_ a)) now then false
  else true.

Definition get_auth_key (a : AuthData) : auth_key_state :=
  if use_pfs a then tmp_auth_key_ a else main_auth_key_ a.

Definition has_auth_key (now : Q) (a : AuthData) : bool :=
  if use_pfs a then has_tmp_auth_key now a else has_main_auth_key a.

Definition set_auth_flag (b : bool) (a : AuthData) : AuthData :=
  let a := set_keys (set_key_auth_flag b (main_auth_key_ a)) (tmp_auth_key_ a) a in
  if negb b then drop_tmp_auth_key a else a.

Definition get_bind_flag (a : AuthData) : bool := negb (use_pfs a) || auth_flag_ (tmp_auth_key_ a).

Definition on_bind (a : AuthData) : outcome AuthData :=
  _ ← check (use_pfs a); Ok (set_keys (main_auth_key_ a) (set_key_auth_flag true (tmp_auth_key_ a)) a).

Definition get_header (now : Q) (a : AuthData) : bytes :=
  if need_header now (get_auth_key a) then header_ a else [].

Definition on_connection_not_inited (a : AuthData) : AuthData :=
  if use_pfs a then set_keys (main_auth_key_ a) (restore_header (tmp_auth_key_ a)) a
  else set_keys (restore_header (main_auth_key_ a)) (tmp_auth_key_ a) a.

(** ** The plain setters *)

Definition set_main_auth_key (k : auth_key_state) (a : AuthData) : AuthData :=
  set_keys k (tmp_auth_key_ a) a.

Definition break_main_auth_key (a : AuthData) : outcome AuthData :=
  k ← break_key (main_auth_key_ a); Ok (set_main_auth_key k a).

Definition drop_main_auth_key (a : AuthData) : AuthData := set_main_auth_key no_key a.

Definition was_tmp_auth_key (a : AuthData) : bool := use_pfs a && negb (key_empty (tmp_auth_key_ a)).

Definition set_identity (pfs : bool) (header : bytes) (session : Z) (a : AuthData) : AuthData :=
  mk_AuthData pfs (main_auth_key_ a) (tmp_auth_key_ a) (server_time_difference_was_updated_ a)
    (server_time_difference_ a) (server_salt_ a) (last_message_id_ a) (seq_no_ a) header session
    (future_salts_ a) (duplicate_checker_ a) (updates_duplicate_checker_ a) (updates_duplicate_rechecker_ a).

Definition set_header (header : bytes) (a : AuthData) : AuthData :=
  set_identity (use_pfs a) header (session_id_ a) a.

Definition set_session_id (session : Z) (a : AuthData) : AuthData :=
  set_identity (use_pfs a) (header_ a) session a.

Definition set_use_pfs (pfs : bool) (a : AuthData) : AuthData :=
  set_identity pfs (header_ a) (session_id_ a) a.

Definition clear_seq_no (a : AuthData) : AuthData := set_counters (last_message_id_ a) 0 a.

(** [AuthData::AuthData]: a random salt that was never valid. *)
Definition new_auth_data {G} `{RandomSource G} (g : G) : AuthData * G :=
  let '(s, g) := secure_bytes 8 g in
  let never := inject_Z (- 10 ^ 10) in
  (mk_AuthData true no_key no_key false 0 (mk_salt (le_load s) never never) 0 0 [] 0 []
     (new_checker 1000) (new_checker 1000) (new_checker 100), g).

Definition get_session_id (a : AuthData) : outcome Z :=
  _ ← check (negb (session_id_ a =? 0)); Ok (session_id_ a).

(** [int32 res = seq_no_; if (content) { res |= 1; seq_no_ += 2; }]. *)
Definition next_seq_no (is_content_related : bool) (a : AuthData) : Z * AuthData :=
  if is_content_related
  then (Z.lor (seq_no_ a) 1, set_counters (last_message_id_ a) (int32 (seq_no_ a + 2)) a)
  else (seq_no_ a, a).

Definition check_update (message_id : Z) (a : AuthData) : outcome unit * AuthData :=
  let '(r, c) := check_message_id_duplicates 1000 message_id (updates_duplicate_checker_ a) in
  (r, set_checkers (duplicate_checker_ a) c (updates_duplicate_rechecker_ a) a).

Definition recheck_update (message_id : Z) (a : AuthData) : outcome unit * AuthData :=
  let '(r, c) := check_message_id_duplicates 100 message_id (updates_duplicate_rechecker_ a) in
  (r, set_checkers (duplicate_checker_ a) (updates_duplicate_checker_ a) c a).

Section clock.
Context `{Rounding}.

Definition need_tmp_auth_key (now refresh_margin : Q) (a : AuthData) : bool :=
  if negb (use_pfs a) then false
  else if key_empty (tmp_auth_key_ a) then true
  else if Qltb (rnd (expires_at (tmp_auth_key_ a) - refresh_margin)) now then true
  else false.

Definition remove_header (now : Q) (k : auth_key_state) : auth_key_state :=
  if auth_flag_ k && have_header_ k
  then mk_key_state (auth_key k) (auth_flag_ k) false (rnd (now + 3)) (expires_at k) (created_at k)
  else k.

Definition on_api_response (now : Q) (a : AuthData) : AuthData :=
  if use_pfs a then set_keys (main_auth_key_ a) (remove_header now (tmp_auth_key_ a)) a
  else set_keys (remove_header now (main_auth_key_ a)) (tmp_auth_key_ a) a.

(** ** Server time *)

Definition get_server_time (now : Q) (a : AuthData) : Q := rnd (server_time_difference_ a + now).

Definition tolerance : Q := rnd (1 # 10000).

Definition update_server_time_difference (diff : Q) (a : AuthData) : bool * AuthData :=
  if negb (server_time_difference_was_updated_ a) then (true, set_time true diff a)
  else if Qltb (rnd (server_time_difference_ a + tolerance)) diff
  then (true, set_time (server_time_difference_was_updated_ a) diff a)
  else (false, a).

Definition reset_server_time_difference (diff : Q) (a : AuthData) : AuthData := set_time false diff a.

(** ** Salts *)

(** The [while] loop; the vector is sorted by decreasing [valid_since], and
    [back()] is the end of the list. *)
Fixpoint pop_salts (server_time : Q) (current : ServerSalt) (reversed : list ServerSalt)
  : ServerSalt * list ServerSalt :=
  match reversed with
  | s :: rest => if Qltb (valid_since s) server_time then pop_salts server_time s rest
                 else (current, reversed)
  | [] => (current, [])
  end.

Definition update_salt (now : Q) (a : AuthData) : AuthData :=
  let '(current, reversed) :=
    pop_salts (get_server_time now a) (server_salt_ a) (reverse (future_salts_ a)) in
  set_salts current (reverse reversed) a.

Definition get_server_salt (now : Q) (a : AuthData) : Z * AuthData :=
  let a := update_salt now a in (salt_value (server_salt_ a), a).

Definition set_server_salt (salt : Z) (now : Q) (a : AuthData) : AuthData :=
  let server_time := get_server_time now a in
  set_salts (mk_salt salt server_time (rnd (server_time + 60 * 10))) [] a.

Definition is_server_salt_valid (now : Q) (a : AuthData) : bool :=
  Qltb (rnd (get_server_time now a + 60)) (valid_until (server_salt_ a)).

Definition has_salt (now : Q) (a : AuthData) : bool * AuthData :=
  let a := update_salt now a in (is_server_salt_valid now a, a).

Definition need_future_salts (now : Q) (a : AuthData) : bool * AuthData :=
  let a := update_salt now a in
  ((len (future_salts_ a) =? 0) || negb (is_server_salt_valid now a), a).

Definition set_future_salts (salts : list ServerSalt) (now : Q) (a : AuthData) : AuthData :=
  if len salts =? 0 then a
  else update_salt now (set_salts (server_salt_ a) (sort_salts salts) a).

Definition get_future_salts (a : AuthData) : list ServerSalt := future_salts_ a ++ [server_salt_ a].

Definition is_ready (now : Q) (a : AuthData) : bool * AuthData :=
  if negb (has_main_auth_key a) then (false, a)
  else if use_pfs a && negb (has_tmp_auth_key now a) then (false, a)
  else let '(has, a) := has_salt now a in
       if negb has then (false, a) else (true, a).

(** ** Message identifiers *)

(** [static_cast<uint64>(double)]; out of range is undefined behaviour. *)
Definition truncate_double (x : Q) : Z := if Qle_bool 0 x then Qfloor x else Qceiling x.

Definition message_time (now : Q) (a : AuthData) : Z :=
  uint64 (truncate_double (rnd (get_server_time now a * inject_Z (2 ^ 32)))).

Definition next_message_id {G} `{RandomSource G} (now : Q) (a : AuthData) (g : G) : Z * AuthData * G :=
  let t := message_time now a in
  let '(rx, g) := secure_int32 g in
  let to_xor := Z.land rx (Z.shiftl 1 22 - 1) in
  let t := Z.lxor t to_xor in
  let result := Z.land t (uint64 (-4)) in
  let result :=
    if result <=? last_message_id_ a then
      let to_mul := Z.land (Z.shiftr rx 22) 1023 + 1 in
      uint64 (last_message_id_ a + 8 * to_mul)
    else result in
  (result, set_counters result (seq_no_ a) a, g).

Definition id_time (message_id : Z) : Q := rnd (rnd (inject_Z message_id) / inject_Z (2 ^ 32)).

Definition is_valid_outbound_msg_id (message_id : Z) (now : Q) (a : AuthData) : bool :=
  let server_time := get_server_time now a in
  Qltb (rnd (server_time - 150)) (id_time message_id)
  && Qltb (id_time message_id) (rnd (server_time + 30)).

Definition is_valid_inbound_msg_id (message_id : Z) (now : Q) (a : AuthData) : bool :=
  let server_time := get_server_time now a in
  Qltb (rnd (server_time - 300)) (id_time message_id)
  && Qltb (id_time message_id) (rnd (server_time + 30)).

(** The status, the output argument [time_difference_was_updated] and the
    state. *)
Definition check_packet (session_id message_id : Z) (now : Q) (updated : bool) (a : AuthData)
  : outcome unit * bool * AuthData :=
  match get_session_id a with
  | Ok current =>
      if negb (current =? session_id)
      then (Err (Error 0 "Receive packet from different session "), updated, a)
      else if Z.land message_id 1 =? 0
      then (Err (Error 0 "Receive invalid "), updated, a)
      else
        let '(r, c) := check_message_id_duplicates 1000 message_id (duplicate_checker_ a) in
        let a := set_checkers c (updates_duplicate_checker_ a) (updates_duplicate_rechecker_ a) a in
        match r with
        | Ok _ =>
            let '(updated, a) :=
              update_server_time_difference
                (rnd (inject_Z (uint32 (Z.shiftr message_id 32)) - now)) a in
            if server_time_difference_was_updated_ a && negb (is_valid_inbound_msg_id message_id now a)
            then (Err (Error 0 "Ignore too old or too new "), updated, a)
            else (Ok tt, updated, a)
        | Err e => (Err e, updated, a)
        | Crash => (Crash, updated, a)
        end
  | Err e => (Err e, updated, a)
  | Crash => (Crash, updated, a)
  end.
End clock.

(** * Message identifiers increase *)

Lemma land_uint64_minus4 t : 0 <= t < 2 ^ 64 -> Z.land t (uint64 (-4)) = t - t mod 4.
Proof.
  intros Ht. change (uint64 (-4)) with (Z.ldiff (Z.ones 64) (Z.ones 2)).
  assert (E : Z.land t (Z.ldiff (Z.ones 64) (Z.ones 2)) = Z.ldiff t (Z.ones 2)).
  { apply Z.bits_inj'. intros i Hi. rewrite Z.land_spec, !Z.ldiff_spec, !Z.testbit_ones_nonneg by lia.
    destruct (Z.ltb_spec i 64) as [Hlt|Hge]; [done|].
    rewrite <- (Z.mod_small t (2 ^ 64)), Z.mod_pow2_bits_high by lia. done. }
  rewrite E, Z.ldiff_ones_r, Z.shiftr_div_pow2, Z.shiftl_mul_pow2 by lia.
  change (2 ^ 2) with 4. div_mod_lia.
Qed.

Section ids.
Context `{Rounding} {G : Type} `{RandomLaws G}.

(** Successive calls at the times [nows]. *)
Fixpoint next_message_ids (nows : list Q) (a : AuthData) (g : G) : list Z * AuthData * G :=
  match nows with
  | [] => ([], a, g)
  | now :: nows =>
      let '(message_id, a, g) := next_message_id now a g in
      let '(ids, a, g) := next_message_ids nows a g in
      (message_id :: ids, a, g)
  end.

Lemma next_message_id_spec now a g :
  0 <= last_message_id_ a < 2 ^ 64 - 2 ^ 13 -> last_message_id_ a mod 4 = 0 ->
  let '(message_id, a', _) := next_message_id now a g in
  last_message_id_ a < message_id < 2 ^ 64 /\ message_id mod 4 = 0 /\
  (message_id <= last_message_id_ a + 2 ^ 13 \/ message_id < message_time now a + 2 ^ 22) /\
  last_message_id_ a' = message_id /\ server_time_difference_ a' = server_time_difference_ a.
Proof.
  intros Hl Hm. unfold next_message_id. destruct (secure_int32 g) as [rx g'].
  set (x := Z.land rx (Z.shiftl 1 22 - 1)).
  assert (Hx : 0 <= x < 2 ^ 22) by (unfold x; change (Z.shiftl 1 22) with (2 ^ 22); rewrite (Z_land_mod rx 22) by lia; apply Z.mod_pos_bound; lia).
  assert (Ht : 0 <= message_time now a < 2 ^ 64) by (apply Z.mod_pos_bound; lia).
  set (t := message_time now a) in *.
  assert (Htx : 0 <= Z.lxor t x < 2 ^ 64) by (apply lxor_range; lia).
  rewrite (land_uint64_minus4 _ Htx). set (u := Z.land (Z.shiftr rx 22) 1023).
  assert (Hu : 0 <= u < 1024) by (unfold u; rewrite (Z_land_mod _ 10) by lia; apply Z.mod_pos_bound; lia).
  destruct (Z.leb_spec (Z.lxor t x - Z.lxor t x mod 4) (last_message_id_ a)) as [Hle|Hgt].
  - unfold uint64. rewrite Z.mod_small by lia. split; [lia|]. split; [|by split; [lia|]].
    replace (_ + _) with (last_message_id_ a + 2 * (u + 1) * 4) by lia. by rewrite Z.mod_add.
  - pose proof (Z.mod_pos_bound (Z.lxor t x) 4 ltac:(lia)).
    split; [lia|]. split; [div_mod_lia|]. split; [right|by split].
    pose proof (Z.add_lxor_2land t x). assert (0 <= Z.land t x) by (apply Z.land_nonneg; lia). lia.
Qed.

Lemma message_time_difference now a b :
  server_time_difference_ b = server_time_difference_ a -> message_time now b = message_time now a.
Proof. unfold message_time, get_server_time. by intros ->. Qed.

Lemma next_message_ids_sorted nows a g :
  Forall (fun now => message_time now a + 2 ^ 22 <= 2 ^ 63) nows ->
  0 <= last_message_id_ a -> last_message_id_ a mod 4 = 0 ->
  last_message_id_ a + 2 ^ 13 * len nows < 2 ^ 64 - 2 ^ 13 -> len nows < 2 ^ 49 ->
  let ids := (next_message_ids nows a g).1.1 in
  len ids = len nows /\ StronglySorted Z.lt (last_message_id_ a :: ids) /\
  Forall (fun message_id => message_id mod 4 = 0) ids.
Proof.
  revert a g. induction nows as [|now nows IH]; intros a g Ht Hl Hm Hb Hn.
  { cbn. split; [done|]. by split; repeat constructor. }
  inversion Ht as [|? ? Hnow Hnows]; subst. cbn [next_message_ids]. rewrite len_cons in *.
  pose proof (len_nonneg nows).
  pose proof (next_message_id_spec now a g ltac:(lia) Hm) as Hs.
  destruct (next_message_id now a g) as [[message_id a'] g1].
  destruct Hs as (Hlt & Hm4 & Hbound & Hlast & Hdiff).
  destruct (IH a' g1) as (Hlen & Hsort & Hall).
  { eapply Forall_impl; [exact Hnows|]. intros now' Hle. cbn in Hle.
    by rewrite (message_time_difference now' a a'). }
  { lia. } { by rewrite Hlast. } { lia. } { lia. }
  destruct (next_message_ids nows a' g1) as [[ids a2] g2]. cbn [fst] in *. rewrite Hlast in Hsort.
  split; [by rewrite len_cons, Hlen|]. split; [|by constructor].
  constructor; [done|]. inversion Hsort as [|? ? _ Hge]; subst. constructor; [lia|].
  eapply Forall_impl; [exact Hge|]. cbn. lia.
Qed.

(** C33: However the clock moves and whatever the random bits are, the
    identifiers of a session strictly increase and are multiples of four, as the
    server requires of a client's messages. *)
Theorem message_ids_increase (nows : list Q) (a : AuthData) (g : G) :
  Forall (fun now => message_time now a + 2 ^ 22 <= 2 ^ 63) nows ->
  0 <= last_message_id_ a <= 2 ^ 63 -> last_message_id_ a mod 4 = 0 -> len nows < 2 ^ 49 ->
  let ids := (next_message_ids nows a g).1.1 in
  len ids = len nows /\ StronglySorted Z.lt (last_message_id_ a :: ids) /\
  Forall (fun message_id => message_id mod 4 = 0) ids.
Proof. intros Ht Hl Hm Hn. apply next_message_ids_sorted; [done|lia|done|lia|done]. Qed.
End ids.

(** Sequence numbers: [2 n] is sent with the n content-related messages that
    precede, one more for a content-related message. *)
Definition seq_nos (content : list bool) (a : AuthData) : list Z :=
  (fix go (content : list bool) (a : AuthData) : list Z :=
    match content with
    | [] => []
    | b :: content => let '(n, a) := next_seq_no b a in n :: go content a
    end) content a.

Fixpoint expected_seq_nos (sent : Z) (content : list bool) : list Z :=
  match content with
  | [] => []
  | true :: content => 2 * sent + 1 :: expected_seq_nos (sent + 1) content
  | false :: content => 2 * sent :: expected_seq_nos sent content
  end.

(** A session numbers its messages as the protocol demands: twice the
    number of content-related messages before, plus one for a content-related
    message, as long as the counter stays in its 31 bits. *)
Theorem seq_nos_count (content : list bool) (a : AuthData) (sent : Z) :
  seq_no_ a = 2 * sent -> 0 <= sent -> sent + len content < 2 ^ 30 ->
  seq_nos content a = expected_seq_nos sent content.
Proof.
  revert a sent. induction content as [|[] content IH]; intros a sent Ha Hs Hn; [done| |];
    rewrite len_cons in Hn; pose proof (len_nonneg content); cbn.
  - f_equal.
    + rewrite Ha. destruct sent as [|p|p]; done.
    + apply IH; [cbn|lia|lia]. unfold int32. rewrite Z.mod_small by lia. lia.
  - f_equal; [done|]. apply IH; [done|lia|lia].
Qed.

(** * Salts *)

Definition later (s t : ServerSalt) : Prop := (valid_since t <= valid_since s)%Q.

Lemma insert_salt_spec s l :
  StronglySorted later l -> StronglySorted later (insert_salt s l) /\ insert_salt s l ≡ₚ s :: l.
Proof.
  induction l as [|t l IH]; intros Hs; cbn; [split; [repeat constructor|done]|].
  inversion Hs as [|? ? Hs' Ht]; subst. destruct (IH Hs') as [Hi Hp].
  destruct (Qltb (valid_since s) (valid_since t)) eqn:E.
  - apply Qltb_lt in E. split; [|rewrite Hp; constructor].
    constructor; [done|]. rewrite Hp. constructor; [|done]. unfold later. lra.
  - apply Qltb_ge in E. split; [|done]. constructor; [done|]. constructor; [done|].
    eapply Forall_impl; [exact Ht|]. unfold later. cbn. intros u Hu. lra.
Qed.

Lemma sort_salts_spec l : StronglySorted later (sort_salts l) /\ sort_salts l ≡ₚ l.
Proof.
  induction l as [|s l IH]; [split; constructor|]. cbn. destruct IH as [Hs Hp].
  destruct (insert_salt_spec s _ Hs) as [Hi Hpi]. split; [done|]. by rewrite Hpi, Hp.
Qed.

(** The salts that have started are taken off, and the latest one is current. *)
Lemma pop_salts_spec st current l :
  StronglySorted later l ->
  exists waiting started, l = waiting ++ started /\
    pop_salts st current (reverse l) = (match started with [] => current | s :: _ => s end, reverse waiting) /\
    Forall (fun s => valid_since s < st)%Q started /\ Forall (fun s => st <= valid_since s)%Q waiting.
Proof.
  revert current. induction l as [|s l IH] using rev_ind; intros current Hs.
  { by exists [], []. }
  apply sorted_app in Hs as (Hl & _ & Hlast). rewrite reverse_snoc. cbn [pop_salts].
  destruct (Qltb (valid_since s) st) eqn:E.
  - apply Qltb_lt in E. destruct (IH s Hl) as (waiting & started & -> & Hp & Hst & Hw).
    exists waiting, (started ++ [s]). rewrite app_assoc, Hp. split; [done|]. split; [by destruct started|].
    split; [|done]. apply Forall_app. split; [done|by repeat constructor].
  - apply Qltb_ge in E. exists (l ++ [s]), []. rewrite app_nil_r, reverse_snoc. split; [done|].
    split; [done|]. split; [done|]. apply Forall_app. split; [|by repeat constructor].
    apply Forall_forall. intros t Ht. specialize (Hlast t s Ht ltac:(by left)). unfold later in Hlast. lra.
Qed.

Section salts.
Context `{Rounding}.

Lemma update_salt_spec now a :
  StronglySorted later (future_salts_ a) ->
  exists waiting started, future_salts_ a = waiting ++ started /\
    update_salt now a = set_salts (hd (server_salt_ a) started) waiting a /\
    Forall (fun s => valid_since s < get_server_time now a)%Q started /\
    Forall (fun s => get_server_time now a <= valid_since s)%Q waiting.
Proof.
  intros Hs. destruct (pop_salts_spec (get_server_time now a) (server_salt_ a) _ Hs)
    as (w & s & E & Hp & Hst & Hw).
  exists w, s. split; [done|]. split; [|done]. unfold update_salt. rewrite Hp, reverse_involutive.
  by destruct s.
Qed.

(** After [set_future_salts] the salts that have started are gone from the
    list, the current salt is the latest of them (the old one if none has), and
    the rest waits, the next one last; and so on at every later time. *)
Theorem salt_rotation (salts : list ServerSalt) (now now' : Q) (a : AuthData) :
  salts <> [] ->
  let '(salt, a') := get_server_salt now' (set_future_salts salts now a) in
  salt = salt_value (server_salt_ a') /\
  exists started2 started1,
    salts ≡ₚ future_salts_ a' ++ started2 ++ started1 /\ StronglySorted later (future_salts_ a') /\
    Forall (fun s => valid_since s < get_server_time now a)%Q started1 /\
    Forall (fun s => get_server_time now a <= valid_since s)%Q (future_salts_ a' ++ started2) /\
    Forall (fun s => valid_since s < get_server_time now' a)%Q started2 /\
    Forall (fun s => get_server_time now' a <= valid_since s)%Q (future_salts_ a') /\
    match started2 ++ started1 with
    | [] => server_salt_ a' = server_salt_ a
    | started => server_salt_ a' ∈ started /\ Forall (later (server_salt_ a')) started
    end.
Proof.
  intros Hne. destruct (sort_salts_spec salts) as [Hsorted Hperm].
  unfold get_server_salt, set_future_salts.
  rewrite (proj2 (Z.eqb_neq _ _)) by (intros E; by apply len_zero_nil in E).
  set (a0 := set_salts (server_salt_ a) (sort_salts salts) a).
  destruct (update_salt_spec now a0 Hsorted) as (w1 & s1 & E1 & -> & Hs1 & Hw1).
  cbn [future_salts_ set_salts a0] in E1. rewrite E1 in Hsorted.
  pose proof Hsorted as Hsw. apply sorted_app in Hsw as (Hsw1 & _ & _).
  set (a1 := set_salts _ w1 a0).
  destruct (update_salt_spec now' a1 Hsw1) as (w2 & s2 & E2 & -> & Hs2 & Hw2).
  cbn [future_salts_ set_salts a1] in E2. subst w1. split; [done|]. exists s2, s1.
  cbn [future_salts_ server_salt_ set_salts a1 a0].
  rewrite <- app_assoc in Hsorted. split; [by rewrite <- Hperm, E1, <- app_assoc|].
  apply sorted_app in Hsorted as (Hsw2 & Hss & _).
  do 5 (split; [done|]). destruct s2 as [|s s2].
  - cbn. destruct s1 as [|s s1]; [done|]. split; [by left|]. constructor; [apply Qle_refl|].
    by inversion Hss.
  - cbn. split; [by left|]. constructor; [apply Qle_refl|].
    by inversion Hss.
Qed.
End salts.

(** * The clock *)

Section time.
Context `{RoundingLaws}.

Fixpoint update_all (diffs : list Q) (a : AuthData) : AuthData :=
  match diffs with
  | [] => a
  | diff :: diffs => update_all diffs (update_server_time_difference diff a).2
  end.

Definition diff_ok (diff : Q) : Prop := (- inject_Z (2 ^ 32) <= diff <= inject_Z (2 ^ 32))%Q.

Lemma tolerance_value : ((98 # 1000000) <= tolerance <= (102 # 1000000))%Q.
Proof.
  unfold tolerance. pose proof (rnd_seconds (1 # 10000)) as Ht.
  assert (Hb : (- inject_Z (2 ^ 33) <= 1 # 10000 <= inject_Z (2 ^ 33))%Q) by (split; by compute).
  specialize (Ht Hb). lra.
Qed.

Lemma step_back diff :
  diff_ok diff -> (diff + (97 # 1000000) <= rnd (diff + tolerance) <= diff + (103 # 1000000))%Q.
Proof.
  intros [Hl Hu]. pose proof tolerance_value as Ht.
  change (inject_Z (2 ^ 32)) with (4294967296 # 1)%Q in *.
  assert (Hb : (- inject_Z (2 ^ 33) <= diff + tolerance <= inject_Z (2 ^ 33))%Q).
  { change (inject_Z (2 ^ 33)) with (8589934592 # 1)%Q. lra. }
  pose proof (rnd_seconds _ Hb). lra.
Qed.

Lemma update_server_time_difference_spec diff a :
  let a' := (update_server_time_difference diff a).2 in
  server_time_difference_was_updated_ a' = true /\
  (server_time_difference_was_updated_ a = false -> server_time_difference_ a' = diff) /\
  (server_time_difference_was_updated_ a = true ->
    server_time_difference_ a' = diff /\ (rnd (server_time_difference_ a + tolerance) < diff)%Q \/
    server_time_difference_ a' = server_time_difference_ a /\
    (diff <= rnd (server_time_difference_ a + tolerance))%Q).
Proof.
  unfold update_server_time_difference. destruct (server_time_difference_was_updated_ a) eqn:Eu; cbn [negb].
  - destruct (Qltb _ diff) eqn:E; cbn.
    + apply Qltb_lt in E. split; [done|]. split; [done|]. intros _. by left.
    + apply Qltb_ge in E. split; [done|]. split; [done|]. intros _. by right.
  - by cbn.
Qed.

(** The difference to the server's clock is one of the differences that
    were seen since the last reset, and is less than all others by at most the
    tolerance of 1e-4 seconds: it never runs behind a message of the server. *)
Theorem time_difference (diffs : list Q) (reset diff : Q) (a : AuthData) :
  diff_ok diff -> Forall diff_ok diffs ->
  let final := server_time_difference_ (update_all (diff :: diffs) (reset_server_time_difference reset a)) in
  final ∈ diff :: diffs /\ Forall (fun d => d <= final + (2 # 10000))%Q (diff :: diffs).
Proof.
  intros Hd Hds. cbn [update_all].
  destruct (update_server_time_difference_spec diff (reset_server_time_difference reset a)) as (Hu & Hf & _).
  specialize (Hf eq_refl). set (a1 := (update_server_time_difference diff _).2) in *. clearbody a1.
  enough (Hall : forall seen, diff_ok (server_time_difference_ a1) -> server_time_difference_ a1 ∈ seen ->
    Forall (fun d => d <= server_time_difference_ a1 + (103 # 1000000))%Q seen ->
    let final := server_time_difference_ (update_all diffs a1) in
    final ∈ seen ++ diffs /\ Forall (fun d => d <= final + (103 # 1000000))%Q (seen ++ diffs)).
  { destruct (Hall [diff]) as [Hin Hle].
    - by rewrite Hf.
    - rewrite Hf. by left.
    - repeat constructor. rewrite Hf. lra.
    - split; [done|]. eapply Forall_impl; [exact Hle|]. cbn. intros. lra. }
  clear Hf Hd reset a diff. revert a1 Hu. induction diffs as [|d diffs IH]; intros a1 Hu seen Hok Hin Hle.
  { by rewrite app_nil_r. }
  inversion Hds as [|? ? Hd Hds']; subst. cbn [update_all].
  destruct (update_server_time_difference_spec d a1) as (Hu' & _ & Hup). specialize (Hup Hu).
  set (a2 := (update_server_time_difference d a1).2) in *. clearbody a2.
  pose proof (step_back _ Hok) as Hsb.
  replace (seen ++ d :: diffs) with ((seen ++ [d]) ++ diffs) by (by rewrite <- app_assoc).
  destruct Hup as [[E Hlt]|[E Hge]]; apply IH; try done; rewrite E; try done.
  - apply elem_of_app. right. by left.
  - apply Forall_app. split; [|repeat constructor; lra].
    eapply Forall_impl; [exact Hle|]. cbn. intros x Hx. lra.
  - apply elem_of_app. by left.
  - apply Forall_app. split; [done|]. repeat constructor. lra.
Qed.

Lemma update_set_checkers diff c u r a :
  update_server_time_difference diff (set_checkers c u r a) =
    ((update_server_time_difference diff a).1, set_checkers c u r (update_server_time_difference diff a).2).
Proof.
  unfold update_server_time_difference. cbn [server_time_difference_was_updated_ set_checkers
    server_time_difference_].
  destruct (server_time_difference_was_updated_ a); cbn [negb]; [by destruct (Qltb _ diff)|done].
Qed.

(** ** Received packets *)

(** What [check_packet] does, by its own tests. *)
Lemma check_packet_cases (session_id message_id : Z) (now : Q) (updated : bool) (a : AuthData) :
  session_id_ a <> 0 -> checker_ok 1000 (duplicate_checker_ a) ->
  let w := kept 1000 (window (duplicate_checker_ a)) in
  let diff := rnd (inject_Z (uint32 (Z.shiftr message_id 32)) - now) in
  let moved := update_server_time_difference diff a in
  let '(result, updated', a') := check_packet session_id message_id now updated a in
  checker_ok 1000 (duplicate_checker_ a') /\
  (session_id_ a <> session_id ->
     result = Err (Error 0 "Receive packet from different session ") /\ a' = a /\ updated' = updated) /\
  (session_id_ a = session_id -> Z.odd message_id = false ->
     result = Err (Error 0 "Receive invalid ") /\ a' = a /\ updated' = updated) /\
  (session_id_ a = session_id -> Z.odd message_id = true ->
     refused 1000 w message_id /\ (exists e, result = Err e) /\ window (duplicate_checker_ a') = w /\
       server_time_difference_ a' = server_time_difference_ a /\
       server_time_difference_was_updated_ a' = server_time_difference_was_updated_ a /\ updated' = updated \/
     ~ refused 1000 w message_id /\ extended w message_id (window (duplicate_checker_ a')) /\
       server_time_difference_ a' = server_time_difference_ (snd moved) /\
       server_time_difference_was_updated_ a' = true /\ updated' = fst moved /\
       result = (if is_valid_inbound_msg_id message_id now (snd moved) then Ok tt
                 else Err (Error 0 "Ignore too old or too new "))).
Proof.
  intros Hs Hc w diff moved. unfold check_packet, get_session_id.
  rewrite (proj2 (Z.eqb_neq _ _)) by done. cbn [negb check]. rewrite Ok_bind.
  destruct (Z.eqb_spec (session_id_ a) session_id) as [Esid|Esid]; cbn [negb].
  2: { split; [done|]. split; [done|]. by split. }
  assert (Hodd : (Z.land message_id 1 =? 0) = negb (Z.odd message_id)).
  { change 1 with (Z.ones 1). rewrite Z.land_ones by lia. change (2 ^ 1) with 2.
    rewrite Zmod_odd. by destruct (Z.odd message_id). }
  rewrite Hodd. destruct (Z.odd message_id) eqn:Eodd; cbn [negb].
  2: { split; [done|]. split; [done|]. by split. }
  pose proof (check_spec 1000 message_id _ ltac:(lia) Hc) as [Hc' Hspec]. fold w in Hspec.
  cbn zeta in Hspec.
  destruct (check_message_id_duplicates 1000 message_id (duplicate_checker_ a)) as [r c].
  cbn [fst snd] in *. destruct r as [u|e|]; [|destruct Hspec as [Href Hw]|done].
  2: { split; [done|]. split; [done|]. split; [done|]. intros _ _. left. split_and!; try done. by exists e. }
  destruct Hspec as [Href Hext]. fold diff. rewrite update_set_checkers. fold moved.
  destruct (update_server_time_difference_spec diff a) as [Hu _]. fold moved in Hu.
  destruct moved as [b a1]. cbn [fst snd] in *.
  change (server_time_difference_was_updated_ (set_checkers _ _ _ a1))
    with (server_time_difference_was_updated_ a1).
  change (is_valid_inbound_msg_id message_id now (set_checkers _ _ _ a1))
    with (is_valid_inbound_msg_id message_id now a1).
  rewrite Hu. cbn [andb]. destruct (is_valid_inbound_msg_id message_id now a1); cbn [negb];
    (split; [exact Hc'|]; split; [done|]; split; [done|]; intros _ _; right; split_and!; done).
Qed.

(** C32: [check_packet] of an object with a session identifier (without one it
    fails its check). A packet of another session, then one with an even
    identifier is an error and changes nothing; an identifier that the duplicate
    window refuses is an error and leaves the clock alone. Any other packet is
    entered into the window, and it sets the clock when the clock was not set,
    or is behind the packet by more than 1e-4 seconds. It is then accepted
    exactly when its time is less than 300 seconds before and less than 30
    seconds after the server's time on that clock, computed in doubles -- so a
    packet that sets the clock is measured against itself, and the rule of the
    comment that those over 30 seconds in the future are ignored holds for no
    packet that moves the clock. *)
Theorem check_packet_spec (session_id message_id : Z) (now : Q) (updated : bool) (a : AuthData) :
  checker_ok 1000 (duplicate_checker_ a) ->
  let w := kept 1000 (window (duplicate_checker_ a)) in
  let diff := rnd (inject_Z (message_id / 2 ^ 32 mod 2 ^ 32) - now) in
  let moves := negb (server_time_difference_was_updated_ a)
               || Qltb (rnd (server_time_difference_ a + rnd (1 # 10000))) diff in
  let clock := if moves then diff else server_time_difference_ a in
  let server_time := rnd (clock + now) in
  let sent_at := rnd (rnd (inject_Z message_id) / inject_Z (2 ^ 32)) in
  let '(result, updated', a') := check_packet session_id message_id now updated a in
  checker_ok 1000 (duplicate_checker_ a') /\
  if session_id_ a =? 0 then result = Crash /\ a' = a
  else if negb (session_id_ a =? session_id)
  then result = Err (Error 0 "Receive packet from different session ") /\ a' = a /\ updated' = updated
  else if negb (Z.odd message_id)
  then result = Err (Error 0 "Receive invalid ") /\ a' = a /\ updated' = updated
  else
    refused 1000 w message_id /\ (exists e, result = Err e) /\ window (duplicate_checker_ a') = w /\
      server_time_difference_ a' = server_time_difference_ a /\
      server_time_difference_was_updated_ a' = server_time_difference_was_updated_ a /\ updated' = updated \/
    ~ refused 1000 w message_id /\ extended w message_id (window (duplicate_checker_ a')) /\
      server_time_difference_ a' = clock /\ server_time_difference_was_updated_ a' = true /\ updated' = moves /\
      (result = Ok tt <-> (rnd (server_time - 300) < sent_at)%Q /\ (sent_at < rnd (server_time + 30))%Q) /\
      (result = Ok tt \/ result = Err (Error 0 "Ignore too old or too new ")).
Proof.
  intros Hc w diff moves clock server_time sent_at.
  destruct (Z.eqb_spec (session_id_ a) 0) as [E0|Hs].
  { unfold check_packet, get_session_id. by rewrite E0. }
  pose proof (check_packet_cases session_id message_id now updated a Hs Hc) as Hcases. cbv zeta in Hcases.
  assert (Hd : rnd (inject_Z (uint32 (Z.shiftr message_id 32)) - now) = diff).
  { unfold diff, uint32. by rewrite Z.shiftr_div_pow2 by lia. }
  rewrite Hd in Hcases. assert (Hm : update_server_time_difference diff a = (moves, if moves then set_time true diff a else a)).
  { unfold update_server_time_difference, moves, tolerance. destruct (server_time_difference_was_updated_ a); cbn [negb orb]; [|done].
    by destruct (Qltb _ diff). }
  rewrite Hm in Hcases. cbn [fst snd] in Hcases. fold w in Hcases.
  destruct (check_packet session_id message_id now updated a) as [[result u] a'].
  destruct Hcases as (Hok & Hdiff & Heven & Hrest). split; [exact Hok|].
  destruct (Z.eqb_spec (session_id_ a) session_id) as [Esid|Esid]; cbn [negb]; [|by apply Hdiff].
  destruct (Z.odd message_id) eqn:Eodd; cbn [negb]; [|by apply Heven].
  destruct (Hrest Esid eq_refl) as [Hr|(Href & Hext & Ht & Hw & Hu & Hres)]; [by left|right].
  assert (Hclock : server_time_difference_ (if moves then set_time true diff a else a) = clock) by (unfold clock; by destruct moves).
  split_and!; [done|done|congruence|done|done| |].
  - rewrite Hres. unfold is_valid_inbound_msg_id, get_server_time, id_time. rewrite Hclock. fold server_time sent_at.
    rewrite <- !Qltb_lt, <- andb_true_iff. by destruct (_ && _).
  - rewrite Hres. destruct (is_valid_inbound_msg_id _ _ _); [by left|by right].
Qed.

Lemma id_time_seconds message_id :
  0 <= message_id < 2 ^ 63 ->
  (inject_Z (Z.shiftr message_id 32) - (1 # 1000) <= id_time message_id
     <= inject_Z (Z.shiftr message_id 32) + 1 + (1 # 1000))%Q.
Proof.
  intros Hm. unfold id_time. rewrite Z.shiftr_div_pow2 by lia. set (T := message_id / 2 ^ 32).
  assert (HT : 0 <= T < 2 ^ 31) by (unfold T; split; [apply Z.div_pos; lia | apply Z.div_lt_upper_bound; lia]).
  assert (HTm : T * 2 ^ 32 <= message_id <= T * 2 ^ 32 + 2 ^ 32) by (unfold T; div_mod_lia).
  pose proof (rnd_error (inject_Z message_id)) as He. apply Qabs_Qle_condition in He.
  assert (Hq : (inject_Z T * (4294967296 # 1) <= inject_Z message_id
                <= inject_Z T * (4294967296 # 1) + (4294967296 # 1))%Q).
  { change (4294967296 # 1)%Q with (inject_Z (2 ^ 32)).
    rewrite <- inject_Z_mult, <- inject_Z_plus, <- !Zle_Qle. lia. }
  assert (Ha : (Qabs (inject_Z message_id) <= inject_Z (2 ^ 63))%Q)
    by (rewrite Qabs_pos; [by rewrite <- Zle_Qle; lia | by rewrite <- (Zle_Qle 0); lia]).
  assert (Hb : (Qabs (inject_Z message_id) * (1 # 2 ^ 53) <= inject_Z (2 ^ 63) * (1 # 2 ^ 53))%Q)
    by (apply Qmult_le_compat_r; [done|by compute]).
  assert (Hc : (inject_Z (2 ^ 63) * (1 # 2 ^ 53) + (1 # 2 ^ 60) <= 1025 # 1)%Q) by (by compute).
  assert (HT2 : (0 <= inject_Z T <= 2147483648 # 1)%Q).
  { change (2147483648 # 1)%Q with (inject_Z (2 ^ 31)). rewrite <- (Zle_Qle 0), <- Zle_Qle. lia. }
  set (r := rnd (inject_Z message_id)) in *.
  assert (Hr : (inject_Z T - (1 # 1000000) <= r / inject_Z (2 ^ 32) <= inject_Z T + 1 + (1 # 1000000))%Q).
  { change (r / inject_Z (2 ^ 32))%Q with (r * (1 # 4294967296))%Q. lra. }
  assert (Hs : (- inject_Z (2 ^ 33) <= r / inject_Z (2 ^ 32) <= inject_Z (2 ^ 33))%Q).
  { change (inject_Z (2 ^ 33)) with (8589934592 # 1)%Q. lra. }
  pose proof (rnd_seconds _ Hs). lra.
Qed.

(** A packet that is ahead of the server's clock is never ignored, however
    far in the future its identifier is: the clock is moved before the time
    window is checked. *)
Theorem future_packet_accepted (message_id : Z) (now : Q) (updated : bool) (a : AuthData) :
  session_id_ a <> 0 -> checker_ok 1000 (duplicate_checker_ a) ->
  Z.odd message_id = true -> ~ refused 1000 (kept 1000 (window (duplicate_checker_ a))) message_id ->
  0 <= message_id < 2 ^ 63 -> (0 <= now <= inject_Z (2 ^ 32))%Q ->
  let diff := rnd (inject_Z (uint32 (Z.shiftr message_id 32)) - now) in
  server_time_difference_was_updated_ a = false \/ (rnd (server_time_difference_ a + tolerance) < diff)%Q ->
  let '(result, _, a') := check_packet (session_id_ a) message_id now updated a in
  result = Ok tt /\ server_time_difference_ a' = diff.
Proof.
  intros Hs Hc Hodd Href Hm Hnow diff Hahead.
  assert (Hd : server_time_difference_ (update_server_time_difference diff a).2 = diff).
  { destruct (update_server_time_difference_spec diff a) as (_ & Hf & Hu).
    destruct (server_time_difference_was_updated_ a); [|by apply Hf].
    destruct Hahead as [|Hlt]; [done|]. destruct (Hu eq_refl) as [[? _]|[_ Hge]]; [done|]. lra. }
  pose proof (check_packet_cases (session_id_ a) message_id now updated a Hs Hc) as Hcases.
  cbn zeta in Hcases. fold diff in Hcases.
  destruct (check_packet (session_id_ a) message_id now updated a) as [[result u] a'].
  destruct Hcases as (_ & _ & _ & Hcases). destruct (Hcases eq_refl Hodd) as [[? _]|(_ & _ & Heff & _ & _ & Hok)]; [done|].
  enough (Hv : is_valid_inbound_msg_id message_id now (update_server_time_difference diff a).2 = true).
  { rewrite Hv in Hok. split; [done|]. by rewrite <- Hd. }
  unfold is_valid_inbound_msg_id, get_server_time. rewrite Hd.
  pose proof (id_time_seconds _ Hm) as Hid.
  assert (HT : 0 <= Z.shiftr message_id 32 < 2 ^ 31).
  { rewrite Z.shiftr_div_pow2 by lia. split; [apply Z.div_pos; lia | apply Z.div_lt_upper_bound; lia]. }
  unfold diff, uint32. rewrite Z.mod_small by lia. set (T := Z.shiftr message_id 32) in *.
  assert (HT2 : (0 <= inject_Z T <= 2147483648 # 1)%Q).
  { change (2147483648 # 1)%Q with (inject_Z (2 ^ 31)). rewrite <- (Zle_Qle 0), <- Zle_Qle. lia. }
  change (inject_Z (2 ^ 32)) with (4294967296 # 1)%Q in Hnow.
  assert (Hr : forall x, (- (8589934592 # 1) <= x <= 8589934592 # 1)%Q ->
    (x - (1 # 1000000) <= rnd x <= x + (1 # 1000000))%Q) by apply rnd_seconds.
  pose proof (Hr (inject_Z T - now)%Q ltac:(lra)) as H1. set (d := rnd (inject_Z T - now)) in *.
  pose proof (Hr (d + now)%Q ltac:(lra)) as H2. set (st := rnd (d + now)) in *.
  pose proof (Hr (st - 300)%Q ltac:(lra)) as H3. pose proof (Hr (st + 30)%Q ltac:(lra)) as H4.
  apply andb_true_iff. split; apply Qltb_lt; lra.
Qed.
End time.

(** ** Witnesses *)

(** Exact arithmetic. *)
Module ExactTime.
#[export] Instance exact : Rounding := {| rnd x := x |}.

#[export] Instance exact_laws : RoundingLaws.
Proof.
  constructor; [|done..]. intros x. change (rnd x) with x. pose proof (Qabs_nonneg x).
  assert (Qabs (x - x) <= 0)%Q by (apply Qabs_Qle_condition; split; lra).
  assert (0 <= Qabs x * (1 # 2 ^ 53))%Q by (apply Qmult_le_0_compat; [done|by compute]).
  assert (0 <= 1 # 2 ^ 60)%Q by (by compute). lra.
Qed.
End ExactTime.
Import ExactTime.

Definition sample_auth (diff : Q) (updated : bool) : AuthData :=
  mk_AuthData true no_key no_key updated diff (mk_salt 1 0 0) 0 0 [] 9 []
    (new_checker 1000) (new_checker 1000) (new_checker 100).

Lemma message_ids_increase_witness :
  let ids := (next_message_ids [100; 99; 200]%Q (sample_auth 0 true) sample_draws).1.1 in
  StronglySorted Z.lt (0 :: ids) /\ len ids = 3.
Proof.
  destruct (message_ids_increase [100; 99; 200]%Q (sample_auth 0 true) sample_draws) as (Hl & Hs & _).
  - repeat constructor; vm_compute; discriminate.
  - split; discriminate.
  - reflexivity.
  - reflexivity.
  - split; [exact Hs | exact Hl].
Defined.

Lemma seq_nos_count_witness : seq_nos [true; false; true] (sample_auth 0 true) = [1; 2; 3].
Proof. apply (seq_nos_count [true; false; true] (sample_auth 0 true) 0); [reflexivity | lia | reflexivity]. Defined.

Lemma salt_rotation_witness :
  let '(salt, a) := get_server_salt 25 (set_future_salts
    [mk_salt 10 10 40; mk_salt 30 30 60; mk_salt 20 20 50]%Q 15 (sample_auth 0 true)) in
  salt = salt_value (server_salt_ a) /\ salt = 20.
Proof.
  pose proof (salt_rotation [mk_salt 10 10 40; mk_salt 30 30 60; mk_salt 20 20 50]%Q 15 25
    (sample_auth 0 true) ltac:(discriminate)) as [Hs _].
  split; [exact Hs | reflexivity].
Defined.

Lemma time_difference_witness :
  let final := server_time_difference_
    (update_all [5; 7; 6]%Q (reset_server_time_difference 100 (sample_auth 0 true))) in
  final ∈ [5; 7; 6]%Q /\ Forall (fun d => d <= final + (2 # 10000))%Q [5; 7; 6]%Q.
Proof.
  apply (time_difference [7; 6]%Q 100 5 (sample_auth 0 true)).
  - split; by compute.
  - repeat constructor; by compute.
Defined.

Lemma check_packet_spec_witness :
  let '(result, moved, a') := check_packet 9 (5 * 2 ^ 32 + 1) 3 false (sample_auth 0 true) in
  result = Ok tt /\ moved = true /\ (server_time_difference_ a' == 2)%Q.
Proof.
  pose proof (check_packet_spec 9 (5 * 2 ^ 32 + 1) 3 false (sample_auth 0 true) (new_checker_ok 1000)) as Hspec.
  cbv zeta in Hspec.
  destruct (check_packet 9 (5 * 2 ^ 32 + 1) 3 false (sample_auth 0 true)) as [[r u] a'].
  destruct Hspec as [_ [[Href _]|(_ & _ & Hclock & _ & Hmoved & Hres & _)]].
  - exfalso. revert Href. apply refused_nil. lia.
  - split; [apply Hres; split; vm_compute; reflexivity|]. split; [rewrite Hmoved; vm_compute; reflexivity|].
    rewrite Hclock. vm_compute. reflexivity.
Defined.

(** A packet from the far future. *)
Lemma future_packet_accepted_witness :
  let '(result, _, a) := check_packet 9 (1000000 * 2 ^ 32 + 1) 3 false (sample_auth 0 true) in
  result = Ok tt /\ server_time_difference_ a = rnd (inject_Z (uint32 (Z.shiftr (1000000 * 2 ^ 32 + 1) 32)) - 3).
Proof.
  apply (future_packet_accepted (1000000 * 2 ^ 32 + 1) 3 false (sample_auth 0 true)).
  - discriminate.
  - apply new_checker_ok.
  - reflexivity.
  - apply refused_nil. lia.
  - split; [discriminate | reflexivity].
  - split; by compute.
  - right. by compute.
Defined.
