(* ===== verification/TlObject.v ===== *)
(** What generated TL code is made of: [td/tl/tl_object_parse.h],
    [td/tl/tl_object_store.h], and the storers of [tdutils/td/utils/Storer.h],
    [mtproto/utils.h] and [mtproto/PacketStorer.h].

    A storer is the size that it announces and the bytes that it writes
    ([Transport.storer]); a storer is sound when the two agree.  What an object
    stores is the list of the calls that it makes, which is the same for
    [TlStorerCalcLength] and [TlStorerUnsafe]. *)
From S2P Require Import Prelude Bytes Tl Transport.
#[local] Open Scope Z_scope.

(** * Fetching *)

Definition TlFetchBoxed {A} (constructor_id : Z) (default_value : A) (parse : tl_parser -> outcome (A * tl_parser))
  (p : tl_parser) : outcome (A * tl_parser) :=
  r ← fetch_int p;
  if negb (r.1 =? int32 constructor_id) then p ← set_error "Wrong constructor " r.2; Ok (default_value, p)
  else parse r.2.

Fixpoint fetch_elements {A} (parse : tl_parser -> outcome (A * tl_parser)) (n : nat) (p : tl_parser)
  : outcome (list A * tl_parser) :=
  match n with
  | O => Ok ([], p)
  | S n => r ← parse p; rest ← fetch_elements parse n r.2; Ok (r.1 :: rest.1, rest.2)
  end.

Definition TlFetchVector {A} (parse : tl_parser -> outcome (A * tl_parser)) (p : tl_parser)
  : outcome (list A * tl_parser) :=
  r ← fetch_int p;
  let multiplicity := uint32 r.1 in
  if left_len r.2 <? multiplicity then p ← set_error "Wrong vector length" r.2; Ok ([], p)
  else fetch_elements parse (Z.to_nat multiplicity) r.2.

(** * Storing *)

(** [narrow_cast<int32>] of a size ends the process when it does not fit. *)
Definition narrow_int32 (n : Z) : outcome Z := _ ← check (int32 n =? n); Ok (int32 n).

Definition TlStoreVector {A} (store : A -> list tl_value) (vec : list A) : outcome (list tl_value) :=
  n ← narrow_int32 (len vec); Ok (TlInt n :: concat (store <$> vec)).

(** [store_storer] is a call of its own. *)
Inductive store_call := StoreValue (v : tl_value) | StoreStorer (s : storer).

Definition call_size (c : store_call) : Z :=
  match c with StoreValue v => calc_value v | StoreStorer s => storer_size s end.

Definition call_bytes (c : store_call) : outcome bytes :=
  match c with StoreValue v => store_value v | StoreStorer s => Ok (stored s) end.

Fixpoint calls_bytes (cs : list store_call) : outcome bytes :=
  match cs with
  | [] => Ok []
  | c :: cs => x ← call_bytes c; rest ← calls_bytes cs; Ok (x ++ rest)
  end.

Definition calls_size (cs : list store_call) : Z := foldr (fun c n => call_size c + n) 0 cs.

(** [PacketStorer<Impl>] with what its [do_store] calls. *)
Definition PacketStorer (do_store : list store_call) : outcome storer :=
  out ← calls_bytes do_store; Ok (mk_storer (calls_size do_store) out).

Definition SliceStorer (slice : bytes) : storer := mk_storer (len slice) slice.

Definition ConcatStorer (a b : storer) : storer := mk_storer (storer_size a + storer_size b) (stored a ++ stored b).

(** [DefaultStorer<T>] of an object whose [store] makes these calls. *)
Definition DefaultStorer (object : list tl_value) : outcome storer :=
  out ← tl_store_unsafe object; Ok (mk_storer (tl_calc_length object) out).

(** [TLObjectStorer<T>]: the constructor in front of the object. *)
Definition TLObjectStorer (id : Z) (object : list tl_value) : outcome storer :=
  DefaultStorer (TlInt id :: object).

(** * Storers announce what they write *)

Definition sound_storer (s : storer) : Prop := storer_size s = len (stored s).

Definition sound_call (c : store_call) : Prop :=
  match c with StoreValue _ => True | StoreStorer s => sound_storer s end.

Lemma store_value_len v out : store_value v = Ok out -> len out = calc_value v.
Proof.
  destruct v as [x|x|x|s]; cbn [store_value calc_value]; [by intros [= <-]..|].
  intros Hs. destruct (Z.lt_ge_cases (len s) (2 ^ 32)) as [Hl|Hl].
  - destruct (store_string_read s Hl) as (out' & Ho & Hlen & _). congruence.
  - unfold store_string in Hs. rewrite !(proj2 (Z.ltb_ge _ _)) in Hs by lia. done.
Qed.

Lemma tl_store_len vs out : tl_store_unsafe vs = Ok out -> len out = tl_calc_length vs.
Proof.
  revert out. induction vs as [|v vs IH]; intros out; cbn [tl_store_unsafe]; [by intros [= <-]|].
  intros Hs. simp_outcome. rewrite tl_calc_length_cons, len_app. f_equal; [by apply store_value_len|by apply IH].
Qed.

Lemma calls_bytes_len cs out : Forall sound_call cs -> calls_bytes cs = Ok out -> len out = calls_size cs.
Proof.
  intros Hcs. revert out. induction Hcs as [|c cs Hc _ IH]; intros out; cbn [calls_bytes]; [by intros [= <-]|].
  intros Hs. simp_outcome. rewrite len_app. cbn [calls_size foldr]. f_equal; [|by apply IH].
  destruct c; cbn [call_bytes call_size] in *; [by apply store_value_len|]. by simp_outcome.
Qed.

Lemma PacketStorer_sound cs s : Forall sound_call cs -> PacketStorer cs = Ok s -> sound_storer s.
Proof. intros Hcs Hs. unfold PacketStorer in Hs. simp_outcome. by rewrite <- calls_bytes_len with (out := x). Qed.

Lemma DefaultStorer_sound vs s : DefaultStorer vs = Ok s -> sound_storer s.
Proof. intros Hs. unfold DefaultStorer in Hs. simp_outcome. by rewrite <- tl_store_len with (out := x). Qed.

Lemma SliceStorer_sound slice : sound_storer (SliceStorer slice).
Proof. done. Qed.

Lemma ConcatStorer_sound a b : sound_storer a -> sound_storer b -> sound_storer (ConcatStorer a b).
Proof. unfold sound_storer, ConcatStorer. cbn. intros -> ->. by rewrite len_app. Qed.

#[export] Hint Resolve PacketStorer_sound DefaultStorer_sound SliceStorer_sound ConcatStorer_sound : len.

Lemma calls_bytes_app cs ds x y :
  calls_bytes cs = Ok x -> calls_bytes ds = Ok y -> calls_bytes (cs ++ ds) = Ok (x ++ y).
Proof.
  revert x. induction cs as [|c cs IH]; intros x; cbn [calls_bytes app]; [by intros [= <-]|].
  intros Hx Hy. simp_outcome. rewrite (IH _ H0 Hy), H, !Ok_bind. by rewrite <- app_assoc.
Qed.

(** * Fetches that cannot crash *)

(** Run on a parser of a message, [parse] gives a value and a parser of it. *)
Definition total_fetch {A} (parse : tl_parser -> outcome (A * tl_parser)) : Prop :=
  forall m p, len m < max_size_t -> parser_of m p -> exists v q, parse p = Ok (v, q) /\ parser_of m q.

Lemma total_fetch_int : total_fetch fetch_int.
Proof.
  intros m p Hl Hp. destruct (fetch_value_parser m FetchInt p Hp I Hl) as (v & q & Hv & Hq). cbn in Hv.
  destruct (fetch_int p) as [[x q']| |]; [|done..]. rewrite Ok_bind in Hv. injection Hv as _ <-. eauto.
Qed.

Lemma total_fetch_long : total_fetch fetch_long.
Proof.
  intros m p Hl Hp. destruct (fetch_value_parser m FetchLong p Hp I Hl) as (v & q & Hv & Hq). cbn in Hv.
  destruct (fetch_long p) as [[x q']| |]; [|done..]. rewrite Ok_bind in Hv. injection Hv as _ <-. eauto.
Qed.

Lemma total_fetch_string : total_fetch fetch_string.
Proof.
  intros m p Hl Hp. destruct (fetch_value_parser m FetchString p Hp I Hl) as (v & q & Hv & Hq). cbn in Hv.
  destruct (fetch_string p) as [[x q']| |]; [|done..]. rewrite Ok_bind in Hv. injection Hv as _ <-. eauto.
Qed.

Lemma total_set_error m e p :
  len m < max_size_t -> parser_of m p -> exists q, set_error e p = Ok q /\ parser_of m q.
Proof.
  intros Hl [pre rest ->|p' [Hs Hd Hll [e' He] Hpos]]; unfold set_error.
  - eexists. split; [done|]. apply DeadParser. split; cbn; try done; [eauto|]. len_solve.
  - rewrite He, Hd, Hll, (proj2 (Z.eqb_neq _ _)) by done. cbn. eexists. split; [done|].
    apply DeadParser. by split; cbn; eauto.
Qed.

Lemma total_ret {A} (a : A) : total_fetch (fun p => Ok (a, p)).
Proof. intros m p _ Hp. eauto. Qed.

Lemma total_bind {A B} (f : tl_parser -> outcome (A * tl_parser)) (g : A -> tl_parser -> outcome (B * tl_parser)) :
  total_fetch f -> (forall a, total_fetch (g a)) -> total_fetch (fun p => r ← f p; g r.1 r.2).
Proof.
  intros Hf Hg m p Hl Hp. destruct (Hf m p Hl Hp) as (a & q & -> & Hq). rewrite Ok_bind. by apply Hg.
Qed.

Lemma total_boxed {A} id (a : A) parse : total_fetch parse -> total_fetch (TlFetchBoxed id a parse).
Proof.
  intros Hf. apply (total_bind fetch_int (fun x p =>
    if negb (x =? int32 id) then p ← set_error "Wrong constructor " p; Ok (a, p) else parse p)); [apply total_fetch_int|].
  intros x m p Hl Hp. destruct (negb _); [|by apply Hf].
  destruct (total_set_error m "Wrong constructor " p Hl Hp) as (q & -> & Hq). rewrite Ok_bind. eauto.
Qed.

Lemma total_elements {A} (parse : tl_parser -> outcome (A * tl_parser)) n :
  total_fetch parse -> total_fetch (fetch_elements parse n).
Proof.
  intros Hf. induction n as [|n IH]; [apply total_ret|].
  apply (total_bind parse (fun x p => rest ← fetch_elements parse n p; Ok (x :: rest.1, rest.2))); [done|].
  intros x. apply (total_bind (fetch_elements parse n) (fun l p => Ok (x :: l, p))); [done|].
  intros l. apply total_ret.
Qed.

Lemma total_vector {A} (parse : tl_parser -> outcome (A * tl_parser)) :
  total_fetch parse -> total_fetch (TlFetchVector parse).
Proof.
  intros Hf. unfold TlFetchVector. intros m p Hl Hp. destruct (total_fetch_int m p Hl Hp) as (n & q & -> & Hq).
  rewrite Ok_bind. cbn [fst snd]. cbv zeta. destruct (_ <? _); [|by apply total_elements].
  destruct (total_set_error m "Wrong vector length" q Hl Hq) as (q' & -> & Hq'). rewrite Ok_bind. eauto.
Qed.

Create HintDb fetch discriminated.
#[export] Hint Resolve total_fetch_int total_fetch_long total_fetch_string total_ret total_boxed total_vector : fetch.
