(* ===== verification/ServiceApi.v ===== *)
(** The service messages of MTProto that a session sends and receives:
    [td/generate/scheme/mtproto_api.tl].

    Fetching and storing them is generated code: the class [ServiceApi].  What
    a session relies on is in [ServiceLaws]; [SchemeServices] writes the code
    for the scheme and meets the laws. *)
From S2P Require Import Prelude Bytes Tl Transport TlObject.
#[local] Open Scope Z_scope.

Record future_salt := mk_future_salt { fs_valid_since : Z; fs_valid_until : Z; fs_salt : Z }.

(** The objects that have a handler of their own, and all others. *)
Inductive object :=
  | destroy_auth_key_ok
  | destroy_auth_key_none
  | destroy_auth_key_fail
  | new_session_created (first_msg_id unique_id server_salt : Z)
  | bad_msg_notification (bad_msg_id bad_msg_seqno error_code : Z)
  | bad_server_salt (bad_msg_id bad_msg_seqno error_code new_server_salt : Z)
  | msgs_ack (msg_ids : list Z)
  | gzip_packed (packed_data : bytes)
  | pong (msg_id ping_id : Z)
  | future_salts (req_msg_id now : Z) (salts : list future_salt)
  | msgs_state_info (req_msg_id : Z) (info : bytes)
  | msgs_all_info (msg_ids : list Z) (info : bytes)
  | msg_detailed_info (msg_id answer_msg_id size status : Z)
  | msg_new_detailed_info (answer_msg_id size status : Z)
  | unsupported (id : Z).

Definition msg_container_ID : Z := int32 0x73f1f8dc.
Definition rpc_result_ID : Z := -212046591.
Definition rpc_error_ID : Z := int32 0x2144ca19.
Definition gzip_packed_ID : Z := int32 0x3072cfa1.
Definition msgs_ack_ID : Z := int32 0x62d6b459.
Definition msg_resend_req_ID : Z := int32 0x7d861a08.
Definition msgs_state_req_ID : Z := int32 0xda69fb52.
Definition bind_auth_key_inner_ID : Z := int32 0x75a3f765.

(** The generated code.  [is_service] tells whether [downcast_call] knows the
    constructor; [fetch_object id] is the [fetch] of the type with that
    constructor, after its identifier.  The other fields are what [store] calls:
    of an object its fields, of a function its identifier and its fields. *)
Class ServiceApi := {
  is_service : Z -> bool;
  fetch_object : Z -> tl_parser -> outcome (object * tl_parser);
  fetch_rpc_error : tl_parser -> outcome ((Z * bytes) * tl_parser);
  fetch_gzip_packed : tl_parser -> outcome (bytes * tl_parser);
  store_msgs_ack : list Z -> outcome (list tl_value);
  store_msgs_state_req : list Z -> outcome (list tl_value);
  store_msg_resend_req : list Z -> outcome (list tl_value);
  store_gzip_packed : bytes -> list tl_value;
  store_bind_auth_key_inner : Z -> Z -> Z -> Z -> Z -> list tl_value;
  store_ping_delay_disconnect : Z -> Z -> list tl_value;
  store_http_wait : Z -> Z -> Z -> list tl_value;
  store_get_future_salts : Z -> list tl_value;
  store_rpc_drop_answer : Z -> list tl_value;
  store_destroy_auth_key : list tl_value;
}.

(** Values of whole words, and no string that is too long to be stored. *)
Definition plain_value (v : tl_value) : Prop :=
  match v with TlInt _ | TlLong _ => True | TlBinary x => len x mod 4 = 0 | TlString s => len s < 2 ^ 32 end.

(** A storable object of at most [n] bytes. *)
Definition short_object (n : Z) (vs : list tl_value) : Prop := Forall plain_value vs /\ tl_calc_length vs <= n.

Class ServiceLaws `{ServiceApi} : Prop := {
  object_total id : total_fetch (fetch_object id);
  rpc_error_total : total_fetch fetch_rpc_error;
  gzip_packed_total : total_fetch fetch_gzip_packed;
  vector_stored (ids : list Z) : len ids < 2 ^ 31 ->
    exists acks states resends, store_msgs_ack ids = Ok acks /\ store_msgs_state_req ids = Ok states /\
      store_msg_resend_req ids = Ok resends /\ Forall (short_object (16 + 8 * len ids)) [acks; states; resends];
  gzip_stored data : len data < 2 ^ 31 -> short_object (len data + 16) (store_gzip_packed data);
  functions_stored a b c : Forall (short_object 64) [store_ping_delay_disconnect a b; store_http_wait a b c;
    store_get_future_salts a; store_rpc_drop_answer a; store_destroy_auth_key];
  bind_stored a b c d e : Forall plain_value (store_bind_auth_key_inner a b c d e);
}.

Lemma plain_stored vs :
  Forall plain_value vs -> exists out, tl_store_unsafe vs = Ok out /\ len out = tl_calc_length vs /\ len out mod 4 = 0.
Proof.
  induction 1 as [|v vs Hv _ (rest & Hs & Hl & Hm)]; cbn [tl_store_unsafe]; [by exists []|].
  assert (Ho : exists x, store_value v = Ok x /\ len x mod 4 = 0).
  { destruct v as [x|x|x|s]; cbn [store_value plain_value] in *; try by eexists.
    destruct (store_string_read s Hv) as (out & -> & Hl' & _). exists out. split; [done|]. rewrite Hl'.
    unfold calc_string. cbv zeta. destruct (len s <? 254); [|destruct (len s <? 2 ^ 24)]; rewrite land_minus4; div_mod_lia. }
  destruct Ho as (x & Hx & Hxm). rewrite Hx, Hs, !Ok_bind. eexists. split; [done|]. rewrite tl_calc_length_cons, len_app, Hl.
  rewrite (store_value_len v x Hx). split; [done|]. rewrite <- (store_value_len v x Hx), <- Hl. div_mod_lia.
Qed.

Module SchemeServices.

Definition fetch_longs : tl_parser -> outcome (list Z * tl_parser) :=
  TlFetchBoxed 0x1cb5c415 [] (TlFetchVector fetch_long).

Definition fetch_salt (p : tl_parser) : outcome (future_salt * tl_parser) :=
  since ← fetch_int p; until ← fetch_int since.2; salt ← fetch_long until.2;
  Ok (mk_future_salt since.1 until.1 salt.1, salt.2).

Definition service_ids : list Z := int32 <$>
  [0x05162463; 0xa9f55f95; 0x56fddf88; 0xd0e8075c; 0xb5890dba; 0x6643b654; 0x3bcbf734; 0x46dc1fb9; 0xa69dae02;
   0x75a3f765; 0x2144ca19; 0x5e2ad36e; 0xcd78e586; 0xa43ad8b7; 0x0949d9dc; 0xae500895; 0x347773c5; 0x9ec20908;
   0x3072cfa1; 0x62d6b459; 0xa7eff811; 0xedab447b; 0x7d861a08; 0xda69fb52; 0x04deb57d; 0x8cc0d131; 0x276d3ec6;
   0x809db6df; 0xf660e1d4; 0x0a9f2259; 0xea109b13].

(** The objects without a handler are not looked into. *)
Definition fetch_service (id : Z) (p : tl_parser) : outcome (object * tl_parser) :=
  let ctor n := id =? int32 n in
  if ctor 0xf660e1d4 then Ok (destroy_auth_key_ok, p)
  else if ctor 0x0a9f2259 then Ok (destroy_auth_key_none, p)
  else if ctor 0xea109b13 then Ok (destroy_auth_key_fail, p)
  else if ctor 0x9ec20908 then
    a ← fetch_long p; b ← fetch_long a.2; c ← fetch_long b.2; Ok (new_session_created a.1 b.1 c.1, c.2)
  else if ctor 0xa7eff811 then
    a ← fetch_long p; b ← fetch_int a.2; c ← fetch_int b.2; Ok (bad_msg_notification a.1 b.1 c.1, c.2)
  else if ctor 0xedab447b then
    a ← fetch_long p; b ← fetch_int a.2; c ← fetch_int b.2; d ← fetch_long c.2;
    Ok (bad_server_salt a.1 b.1 c.1 d.1, d.2)
  else if ctor 0x62d6b459 then ids ← fetch_longs p; Ok (msgs_ack ids.1, ids.2)
  else if ctor 0x3072cfa1 then s ← fetch_string p; Ok (gzip_packed s.1, s.2)
  else if ctor 0x347773c5 then a ← fetch_long p; b ← fetch_long a.2; Ok (pong a.1 b.1, b.2)
  else if ctor 0xae500895 then
    a ← fetch_long p; b ← fetch_int a.2; salts ← TlFetchVector fetch_salt b.2;
    Ok (future_salts a.1 b.1 salts.1, salts.2)
  else if ctor 0x04deb57d then a ← fetch_long p; s ← fetch_string a.2; Ok (msgs_state_info a.1 s.1, s.2)
  else if ctor 0x8cc0d131 then ids ← fetch_longs p; s ← fetch_string ids.2; Ok (msgs_all_info ids.1 s.1, s.2)
  else if ctor 0x276d3ec6 then
    a ← fetch_long p; b ← fetch_long a.2; c ← fetch_int b.2; d ← fetch_int c.2;
    Ok (msg_detailed_info a.1 b.1 c.1 d.1, d.2)
  else if ctor 0x809db6df then
    a ← fetch_long p; b ← fetch_int a.2; c ← fetch_int b.2; Ok (msg_new_detailed_info a.1 b.1 c.1, c.2)
  else Ok (unsupported id, p).

Definition store_longs (ids : list Z) : outcome (list tl_value) :=
  vs ← TlStoreVector (fun id => [TlLong id]) ids; Ok (TlInt (int32 0x1cb5c415) :: vs).

#[export] Instance services : ServiceApi := {|
  is_service id := bool_decide (id ∈ service_ids);
  fetch_object := fetch_service;
  fetch_rpc_error p := code ← fetch_int p; s ← fetch_string code.2; Ok ((code.1, s.1), s.2);
  fetch_gzip_packed := fetch_string;
  store_msgs_ack := store_longs;
  store_msgs_state_req := store_longs;
  store_msg_resend_req := store_longs;
  store_gzip_packed data := [TlString data];
  store_bind_auth_key_inner a b c d e := [TlLong a; TlLong b; TlLong c; TlLong d; TlInt e];
  store_ping_delay_disconnect id delay := [TlInt (int32 0xf3427b8c); TlLong id; TlInt delay];
  store_http_wait a b c := [TlInt (int32 0x9299359f); TlInt a; TlInt b; TlInt c];
  store_get_future_salts n := [TlInt (int32 0xb921bd04); TlInt n];
  store_rpc_drop_answer id := [TlInt (int32 0x58e4a740); TlLong id];
  store_destroy_auth_key := [TlInt (int32 0xd1435160)];
|}.

(** A chain of total fetches is total. *)
Ltac total :=
  intros m p Hl Hp;
  repeat match goal with
  | Hp : parser_of _ ?p |- exists v q, (?f ?p ≫= _) = _ /\ _ =>
      let H := fresh in
      assert (H : total_fetch f) by eauto with fetch; destruct (H m p Hl Hp) as (? & ? & -> & ?);
      clear H; rewrite Ok_bind; cbn [fst snd]
  end; eauto.

Lemma total_salt : total_fetch fetch_salt.
Proof. unfold fetch_salt. total. Qed.

Lemma total_longs : total_fetch fetch_longs.
Proof. unfold fetch_longs. eauto with fetch. Qed.

#[local] Hint Resolve total_salt total_longs : fetch.

Lemma total_service id : total_fetch (fetch_service id).
Proof.
  unfold fetch_service. cbv zeta. repeat (destruct (id =? _); [total|]). total.
Qed.

Lemma longs_size ids : tl_calc_length (concat ((fun id => [TlLong id]) <$> ids)) = 8 * len ids.
Proof.
  induction ids as [|id ids IH]; [done|]. cbn [fmap list_fmap concat app]. rewrite tl_calc_length_cons, len_cons.
  change (concat (list_fmap _ _ _ ids)) with (concat ((fun id => [TlLong id]) <$> ids)). rewrite IH. cbn [calc_value]. lia.
Qed.

Lemma stored_longs ids :
  len ids < 2 ^ 31 -> exists vs, store_longs ids = Ok vs /\ short_object (16 + 8 * len ids) vs.
Proof.
  intros Hl. unfold store_longs, TlStoreVector, narrow_int32. pose proof (len_nonneg ids).
  rewrite (int32_small (len ids)), Z.eqb_refl by lia. cbn [check]. rewrite !Ok_bind. eexists. split; [done|]. split.
  - repeat constructor. apply Forall_concat, Forall_fmap, Forall_true. intros id. repeat constructor.
  - rewrite !tl_calc_length_cons, longs_size. cbn [calc_value]. lia.
Qed.

#[export] Instance services_laws : ServiceLaws.
Proof.
  constructor; cbn -[store_longs].
  - apply total_service.
  - total.
  - apply total_fetch_string.
  - intros ids Hl. destruct (stored_longs ids Hl) as (vs & Hs & Hp). exists vs, vs, vs. split_and!; [done..|]. by rewrite !Forall_cons.
  - intros data Hl. split; [repeat constructor; cbn; lia|]. rewrite tl_calc_length_cons. cbn [calc_value].
    change (tl_calc_length []) with 0. unfold calc_string. cbv zeta. pose proof (len_nonneg data).
    destruct (Z.ltb_spec (len data) 254); [|destruct (Z.ltb_spec (len data) (2 ^ 24))]; rewrite land_minus4; div_mod_lia.
  - intros a b c. by repeat constructor.
  - intros a b c d e. repeat constructor.
Qed.
End SchemeServices.
