(* ===== verification/CryptoStorer.v ===== *)
(** The packet that a session sends: [mtproto/CryptoStorer.h] and
    [mtproto/MtprotoQuery.h].

    A packet is one message, or a container of several: the queries, and the
    service messages that [CryptoImpl] makes out of what the session has to
    tell.  The service messages get their identifiers while [CryptoImpl] is
    constructed, one after the other in the order of its members. *)
From Stdlib Require Import QArith.
From S2P Require Import Prelude Bytes Random Tl Transport AuthData TlObject ServiceApi.
#[local] Open Scope Z_scope.

Record MtprotoQuery := mk_query {
  query_message_id : Z;
  query_seq_no : Z;
  packet : bytes;
  gzip_flag : bool;
  invoke_after_message_ids : list Z;
  use_quick_ack : bool;
}.

Record ObjectImpl := mk_ObjectImpl {
  not_empty : bool;
  object_storer : storer;
  object_message_id : Z;
  object_seq_no : Z;
}.

(** [object_storer_] is not looked at, and the identifiers are not set. *)
Definition empty_ObjectImpl : ObjectImpl := mk_ObjectImpl false (mk_storer 0 []) 0 0.

Definition ObjectImpl_do_store (o : ObjectImpl) : list store_call :=
  if negb (not_empty o) then []
  else [StoreValue (TlLong (object_message_id o)); StoreValue (TlInt (object_seq_no o));
        StoreValue (TlInt (int32 (storer_size (object_storer o)))); StoreStorer (object_storer o)].

Definition CancelVectorImpl_do_store (storers : list ObjectImpl) : outcome (list store_call) :=
  foldr (fun o rest => s ← PacketStorer (ObjectImpl_do_store o); cs ← rest; Ok (StoreStorer s :: cs)) (Ok []) storers.

Definition CancelVectorImpl_get_message_id (storers : list ObjectImpl) : outcome Z :=
  match storers with [o] => Ok (object_message_id o) | _ => Crash end.

Definition InvokeAfter_store (message_ids : list Z) : outcome (list tl_value) :=
  match message_ids with
  | [] => Ok []
  | [message_id] => Ok [TlInt (int32 0xcb9f372d); TlLong message_id]
  | _ =>
      n ← narrow_int32 (len message_ids);
      Ok (TlInt (int32 0x3dc4b4f0) :: TlInt (int32 0x1cb5c415) :: TlInt n :: (TlLong <$> message_ids))
  end.

(** The types of a packet; [Mixed] is a container. *)
Inductive crypto_type :=
  | OnlyQuery | OnlyAck | OnlyPing | OnlyHttpWait | OnlyGetFutureSalts | OnlyResend | OnlyCancel | OnlyGetInfo
  | OnlyDestroyKey | Mixed.

Record CryptoImpl := mk_CryptoImpl {
  to_send : list MtprotoQuery;
  storer_header : bytes;
  ack_storer_ : ObjectImpl;
  http_wait_storer_ : ObjectImpl;
  get_future_salts_storer_ : ObjectImpl;
  get_info_storer_ : ObjectImpl;
  resend_storer_ : ObjectImpl;
  cancel_storer_ : list ObjectImpl;
  destroy_key_storer_ : ObjectImpl;
  ping_storer_ : ObjectImpl;
  cnt_ : Z;
  type_ : crypto_type;
  message_id_ : Z;
  crypto_seq_no_ : Z;
}.

(** The identifiers that the caller gets back; zero where none is given. *)
Record sent_ids := mk_sent_ids {
  container_message_id : Z;
  get_info_message_id : Z;
  resend_message_id : Z;
  ping_message_id : Z;
  parent_message_id : Z;
}.

Definition get_message_id (o : ObjectImpl) : Z := object_message_id o.

Definition b2n (b : bool) : Z := if b then 1 else 0.

Section storer.
Context `{ServiceApi} `{Rounding} {G : Type} `{RandomSource G}.

(** [QueryImpl::do_store]. *)
Definition query_body (header : bytes) (q : MtprotoQuery) : outcome storer :=
  after ← InvokeAfter_store (invoke_after_message_ids q);
  invoke_after_storer ← DefaultStorer after;
  data_storer ← (if gzip_flag q then TLObjectStorer gzip_packed_ID (store_gzip_packed (packet q))
                 else Ok (SliceStorer (packet q)));
  Ok (ConcatStorer (SliceStorer header) (ConcatStorer invoke_after_storer data_storer)).

Definition QueryImpl_do_store (header : bytes) (q : MtprotoQuery) : outcome (list store_call) :=
  all_storer ← query_body header q;
  Ok [StoreValue (TlLong (query_message_id q)); StoreValue (TlInt (query_seq_no q));
      StoreValue (TlInt (uint32 (storer_size all_storer))); StoreStorer all_storer].

Fixpoint QueryVectorImpl_do_store (header : bytes) (qs : list MtprotoQuery) : outcome (list store_call) :=
  match qs with
  | [] => Ok []
  | q :: qs =>
      cs ← QueryImpl_do_store header q;
      s ← PacketStorer cs;
      rest ← QueryVectorImpl_do_store header qs;
      Ok (StoreStorer s :: rest)
  end.

(** The constructor of [ObjectImpl]; [s] is [*auth_data] with the random bits
    that it draws. *)
Definition new_ObjectImpl (now : Q) (not_empty : bool) (object_storer : outcome storer) (s : AuthData * G)
  : outcome (ObjectImpl * (AuthData * G)) :=
  if negb not_empty then Ok (empty_ObjectImpl, s)
  else
    o ← object_storer;
    let '(message_id, a, g) := next_message_id now s.1 s.2 in
    let '(seq_no, a) := next_seq_no false a in
    Ok (mk_ObjectImpl true o message_id seq_no, (a, g)).

Fixpoint new_CancelVectorImpl (now : Q) (to_cancel : list Z) (s : AuthData * G)
  : outcome (list ObjectImpl * (AuthData * G)) :=
  match to_cancel with
  | [] => Ok ([], s)
  | request_id :: to_cancel =>
      o ← new_ObjectImpl now true (DefaultStorer (store_rpc_drop_answer request_id)) s;
      rest ← new_CancelVectorImpl now to_cancel o.2;
      Ok (o.1 :: rest.1, rest.2)
  end.

(** An object of a vector, as [TLObjectStorer] writes it. *)
Definition vector_storer (id : Z) (fields : outcome (list tl_value)) : outcome storer :=
  vs ← fields; TLObjectStorer id vs.

(** The constructor: first the members, in their order, ... *)
Definition new_members (now : Q) (queries : list MtprotoQuery) (header : bytes) (to_ack : list Z)
  (ping_id ping_timeout max_delay max_after max_wait future_salt_n : Z) (get_info resend cancel : list Z)
  (destroy_key : bool) (s : AuthData * G) : outcome (CryptoImpl * (AuthData * G)) :=
  ack ← new_ObjectImpl now (negb (len to_ack =? 0)) (vector_storer msgs_ack_ID (store_msgs_ack to_ack)) s;
  http_wait ← new_ObjectImpl now (0 <=? max_delay) (DefaultStorer (store_http_wait max_delay max_after max_wait)) ack.2;
  salts ← new_ObjectImpl now (0 <? future_salt_n) (DefaultStorer (store_get_future_salts future_salt_n)) http_wait.2;
  info ← new_ObjectImpl now (negb (len get_info =? 0))
           (vector_storer msgs_state_req_ID (store_msgs_state_req get_info)) salts.2;
  again ← new_ObjectImpl now (negb (len resend =? 0))
            (vector_storer msg_resend_req_ID (store_msg_resend_req resend)) info.2;
  drop ← new_CancelVectorImpl now cancel again.2;
  destroy ← new_ObjectImpl now destroy_key (DefaultStorer store_destroy_auth_key) drop.2;
  ping ← new_ObjectImpl now (negb (ping_id =? 0))
           (DefaultStorer (store_ping_delay_disconnect ping_id ping_timeout)) destroy.2;
  let cnt := int32 (int32 (len queries) + b2n (not_empty ack.1) + b2n (not_empty ping.1) + b2n (not_empty http_wait.1)
               + b2n (not_empty salts.1) + b2n (not_empty info.1) + b2n (not_empty again.1) + int32 (len cancel)
               + b2n (not_empty destroy.1)) in
  Ok (mk_CryptoImpl queries header ack.1 http_wait.1 salts.1 info.1 again.1 drop.1 destroy.1 ping.1 cnt Mixed 0 0,
      ping.2).

(** ... then the type, the identifier of a container, and the identifiers for
    the caller. *)
Definition only_type (c : CryptoImpl) : outcome (crypto_type * Z) :=
  match to_send c with
  | q :: _ => _ ← check (len (to_send c) =? 1); Ok (OnlyQuery, query_message_id q)
  | [] =>
      if not_empty (ack_storer_ c) then Ok (OnlyAck, get_message_id (ack_storer_ c))
      else if not_empty (ping_storer_ c) then Ok (OnlyPing, get_message_id (ping_storer_ c))
      else if not_empty (http_wait_storer_ c) then Ok (OnlyHttpWait, get_message_id (http_wait_storer_ c))
      else if not_empty (get_future_salts_storer_ c) then
        Ok (OnlyGetFutureSalts, get_message_id (get_future_salts_storer_ c))
      else if not_empty (get_info_storer_ c) then Ok (OnlyGetInfo, get_message_id (get_info_storer_ c))
      else if not_empty (resend_storer_ c) then Ok (OnlyResend, get_message_id (resend_storer_ c))
      else if negb (len (cancel_storer_ c) =? 0) then
        message_id ← CancelVectorImpl_get_message_id (cancel_storer_ c); Ok (OnlyCancel, message_id)
      else if not_empty (destroy_key_storer_ c) then Ok (OnlyDestroyKey, get_message_id (destroy_key_storer_ c))
      else Crash
  end.

Definition set_type (t : crypto_type) (message_id seq_no : Z) (c : CryptoImpl) : CryptoImpl :=
  mk_CryptoImpl (to_send c) (storer_header c) (ack_storer_ c) (http_wait_storer_ c) (get_future_salts_storer_ c)
    (get_info_storer_ c) (resend_storer_ c) (cancel_storer_ c) (destroy_key_storer_ c) (ping_storer_ c) (cnt_ c)
    t message_id seq_no.

(** The first query has an identifier that the server would refuse by now. *)
Definition first_is_late (now : Q) (queries : list MtprotoQuery) (a : AuthData) : bool :=
  match queries with
  | q :: _ => negb (is_valid_outbound_msg_id (query_message_id q) now a)
  | [] => false
  end.

Definition id_of (o : ObjectImpl) : Z := if not_empty o then get_message_id o else 0.

Definition finish_CryptoImpl (now : Q) (c : CryptoImpl) (s : AuthData * G)
  : outcome (CryptoImpl * sent_ids * (AuthData * G)) :=
  _ ← check (negb (cnt_ c =? 0));
  let ids container parent :=
    mk_sent_ids container (id_of (get_info_storer_ c)) (id_of (resend_storer_ c)) (id_of (ping_storer_ c)) parent in
  if (1 <? cnt_ c) || first_is_late now (to_send c) s.1 then
    let '(message_id, a, g) := next_message_id now s.1 s.2 in
    let '(seq_no, a) := next_seq_no false a in
    Ok (set_type Mixed message_id seq_no c, ids message_id message_id, (a, g))
  else
    t ← only_type c;
    Ok (set_type t.1 0 0 c, ids 0 t.2, s).

Definition new_CryptoImpl (now : Q) (queries : list MtprotoQuery) (header : bytes) (to_ack : list Z)
  (ping_id ping_timeout max_delay max_after max_wait future_salt_n : Z) (get_info resend cancel : list Z)
  (destroy_key : bool) (s : AuthData * G) : outcome (CryptoImpl * sent_ids * (AuthData * G)) :=
  c ← new_members now queries header to_ack ping_id ping_timeout max_delay max_after max_wait future_salt_n get_info
        resend cancel destroy_key s;
  finish_CryptoImpl now c.1 c.2.

Definition object_packet (o : ObjectImpl) : outcome storer := PacketStorer (ObjectImpl_do_store o).

Definition query_packet (c : CryptoImpl) : outcome storer :=
  cs ← QueryVectorImpl_do_store (storer_header c) (to_send c); PacketStorer cs.

Definition cancel_packet (c : CryptoImpl) : outcome storer :=
  cs ← CancelVectorImpl_do_store (cancel_storer_ c); PacketStorer cs.

(** [concat_storer_] and [container_storer_]. *)
Definition concat_storer (c : CryptoImpl) : outcome storer :=
  queries ← query_packet c;
  ack ← object_packet (ack_storer_ c);
  http_wait ← object_packet (http_wait_storer_ c);
  salts ← object_packet (get_future_salts_storer_ c);
  info ← object_packet (get_info_storer_ c);
  resend ← object_packet (resend_storer_ c);
  cancel ← cancel_packet c;
  destroy ← object_packet (destroy_key_storer_ c);
  ping ← object_packet (ping_storer_ c);
  Ok (ConcatStorer (ConcatStorer (ConcatStorer (ConcatStorer (ConcatStorer (ConcatStorer (ConcatStorer
       (ConcatStorer queries ack) http_wait) salts) info) resend) cancel) destroy) ping).

Definition ContainerImpl (cnt : Z) (s : storer) : outcome storer :=
  PacketStorer [StoreValue (TlInt msg_container_ID); StoreValue (TlInt cnt); StoreStorer s].

(** [CryptoImpl::do_store]. *)
Definition crypto_packet (c : CryptoImpl) : outcome storer :=
  match type_ c with
  | OnlyAck => s ← object_packet (ack_storer_ c); PacketStorer [StoreStorer s]
  | OnlyQuery => s ← query_packet c; PacketStorer [StoreStorer s]
  | OnlyPing => s ← object_packet (ping_storer_ c); PacketStorer [StoreStorer s]
  | OnlyHttpWait => s ← object_packet (http_wait_storer_ c); PacketStorer [StoreStorer s]
  | OnlyGetFutureSalts => s ← object_packet (get_future_salts_storer_ c); PacketStorer [StoreStorer s]
  | OnlyResend => s ← object_packet (resend_storer_ c); PacketStorer [StoreStorer s]
  | OnlyCancel => s ← cancel_packet c; PacketStorer [StoreStorer s]
  | OnlyGetInfo => s ← object_packet (get_info_storer_ c); PacketStorer [StoreStorer s]
  | OnlyDestroyKey => s ← object_packet (destroy_key_storer_ c); PacketStorer [StoreStorer s]
  | Mixed =>
      s ← concat_storer c;
      container ← ContainerImpl (cnt_ c) s;
      PacketStorer [StoreValue (TlLong (message_id_ c)); StoreValue (TlInt (crypto_seq_no_ c));
                    StoreValue (TlInt (int32 (storer_size container))); StoreStorer container]
  end.
End storer.
