(* ===== verification/CryptoStorerSpec.v ===== *)
(** What [CryptoImpl] writes: one message, or a container of messages, in a
    fixed order and with sizes that are right. *)
From Stdlib Require Import QArith.
From S2P Require Import Prelude Bytes Random Tl Transport AuthData TlObject ServiceApi CryptoStorer.
#[local] Open Scope Z_scope.

(** * Messages *)

Record message := mk_message { msg_id : Z; msg_seqno : Z; msg_body : bytes }.

Definition message_bytes (m : message) : bytes :=
  le_store 8 (msg_id m) ++ le_store 4 (msg_seqno m) ++ le_store 4 (len (msg_body m)) ++ msg_body m.

Definition messages_bytes (ms : list message) : bytes := concat (message_bytes <$> ms).

Definition container_body (ms : list message) : bytes :=
  le_store 4 msg_container_ID ++ le_store 4 (len ms) ++ messages_bytes ms.

Lemma messages_bytes_app ms ns : messages_bytes (ms ++ ns) = messages_bytes ms ++ messages_bytes ns.
Proof. unfold messages_bytes. by rewrite fmap_app, concat_app. Qed.

Lemma len_message_bytes m : len (message_bytes m) = 16 + len (msg_body m).
Proof. unfold message_bytes. rewrite !len_app, !len_le_store. lia. Qed.

(** A storer of the message. *)
Lemma message_packet (id seqno size : Z) (body : storer) :
  sound_storer body -> le_store 4 size = le_store 4 (storer_size body) ->
  exists s, PacketStorer [StoreValue (TlLong id); StoreValue (TlInt seqno); StoreValue (TlInt size); StoreStorer body] =
    Ok s /\ sound_storer s /\ stored s = message_bytes (mk_message id seqno (stored body)).
Proof.
  intros Hb Hs. eexists. split; [reflexivity|]. cbn [stored]. rewrite Hs, Hb, app_nil_r. split; [|done].
  unfold sound_storer. cbn -[le_store]. rewrite !len_app, !len_le_store. change (len (@nil byte)) with 0. rewrite Hb. lia.
Qed.

(** ** The service messages *)

Definition sound_object (o : ObjectImpl) : Prop := not_empty o = true -> sound_storer (object_storer o).

Definition object_messages (o : ObjectImpl) : list message :=
  if not_empty o then [mk_message (object_message_id o) (object_seq_no o) (stored (object_storer o))] else [].

Lemma object_packet_ok o :
  sound_object o ->
  exists s, object_packet o = Ok s /\ sound_storer s /\ stored s = messages_bytes (object_messages o).
Proof.
  intros Ho. unfold object_packet, ObjectImpl_do_store, object_messages, messages_bytes.
  destruct (not_empty o) eqn:E; cbn [negb].
  - destruct (message_packet (object_message_id o) (object_seq_no o) (int32 (storer_size (object_storer o)))
      (object_storer o) (Ho E) (le_store_int32 _)) as (s & Hs & ? & Hst).
    exists s. split; [done|]. split; [done|]. cbn [fmap list_fmap concat]. by rewrite app_nil_r.
  - by eexists.
Qed.

Lemma cancel_calls_ok os :
  Forall sound_object os ->
  exists cs out, CancelVectorImpl_do_store os = Ok cs /\ Forall sound_call cs /\ calls_bytes cs = Ok out /\
    out = messages_bytes (concat (object_messages <$> os)).
Proof.
  induction 1 as [|o os Ho _ (cs & out & Hcs & Hs & Hout & E)]; [by exists [], []|].
  destruct (object_packet_ok o Ho) as (s & Hp & Hsound & Hst). unfold object_packet in Hp.
  cbn [CancelVectorImpl_do_store foldr]. fold (CancelVectorImpl_do_store os). rewrite Hp, Ok_bind, Hcs, Ok_bind.
  eexists _, _. split; [done|]. split; [by constructor|]. split; [by cbn; rewrite Hout|].
  cbn [fmap list_fmap concat]. by rewrite messages_bytes_app, Hst, E.
Qed.

Lemma calls_packet cs out :
  Forall sound_call cs -> calls_bytes cs = Ok out ->
  exists s, PacketStorer cs = Ok s /\ sound_storer s /\ stored s = out.
Proof.
  intros Hcs Ho. unfold PacketStorer. rewrite Ho, Ok_bind. eexists. split; [done|]. split; [|done].
  unfold sound_storer. cbn. symmetry. by apply calls_bytes_len.
Qed.

Section storer.
Context `{ServiceApi} `{Rounding} {G : Type} `{RandomSource G}.

(** ** The queries *)

Definition body_of (m : outcome storer) : bytes := match m with Ok s => stored s | _ => [] end.

Definition query_message (header : bytes) (q : MtprotoQuery) : message :=
  mk_message (query_message_id q) (query_seq_no q) (body_of (query_body header q)).

(** What the server reads: the header, the queries to wait for, the query. *)
Definition query_fits (q : MtprotoQuery) : Prop :=
  len (invoke_after_message_ids q) < 2 ^ 31 /\
  (gzip_flag q = true -> exists s, TLObjectStorer gzip_packed_ID (store_gzip_packed (packet q)) = Ok s).

Definition after_bytes (ids : list Z) : bytes :=
  match ids with
  | [] => []
  | [id] => le_store 4 0xcb9f372d ++ le_store 8 id
  | _ => le_store 4 0x3dc4b4f0 ++ le_store 4 0x1cb5c415 ++ le_store 4 (len ids) ++ concat (le_store 8 <$> ids)
  end.

Lemma tl_store_longs ids : tl_store_unsafe (TlLong <$> ids) = Ok (concat (le_store 8 <$> ids)).
Proof. induction ids as [|id ids IH]; [done|]. cbn -[le_store]. by rewrite IH. Qed.

Lemma InvokeAfter_ok ids :
  len ids < 2 ^ 31 -> exists vs, InvokeAfter_store ids = Ok vs /\ tl_store_unsafe vs = Ok (after_bytes ids).
Proof.
  intros Hl. destruct ids as [|id [|id' ids]]; cbn [InvokeAfter_store after_bytes]; [by eexists|by eexists|].
  unfold narrow_int32. pose proof (len_nonneg (id :: id' :: ids)).
  rewrite (int32_small (len (id :: id' :: ids))), Z.eqb_refl by lia. cbn [check]. rewrite !Ok_bind. eexists. split; [done|].
  cbn [tl_store_unsafe store_value]. rewrite tl_store_longs, !Ok_bind, !le_store_int32. done.
Qed.

Lemma query_body_ok header q :
  query_fits q ->
  exists s, query_body header q = Ok s /\ sound_storer s /\
    stored s = header ++ after_bytes (invoke_after_message_ids q) ++
      (if gzip_flag q then body_of (TLObjectStorer gzip_packed_ID (store_gzip_packed (packet q))) else packet q).
Proof.
  intros [Hl Hz]. unfold query_body. destruct (InvokeAfter_ok _ Hl) as (vs & -> & Hv). rewrite Ok_bind.
  destruct (DefaultStorer vs) as [a| |] eqn:Ha; [|by unfold DefaultStorer in Ha; rewrite Hv in Ha..].
  assert (Hsa : stored a = after_bytes (invoke_after_message_ids q))
    by (unfold DefaultStorer in Ha; rewrite Hv in Ha; cbn in Ha; by injection Ha as <-).
  rewrite Ok_bind. destruct (gzip_flag q).
  - destruct (Hz eq_refl) as (z & Hz'). rewrite Hz', !Ok_bind. eexists. split; [done|].
    split; [eauto using DefaultStorer_sound with len|]. cbn. by rewrite Hsa.
  - rewrite Ok_bind. eexists. split; [done|]. split; [eauto using DefaultStorer_sound with len|]. cbn. by rewrite Hsa.
Qed.

Lemma query_calls_ok header qs :
  Forall query_fits qs ->
  exists cs out, QueryVectorImpl_do_store header qs = Ok cs /\ Forall sound_call cs /\ calls_bytes cs = Ok out /\
    out = messages_bytes (query_message header <$> qs).
Proof.
  induction 1 as [|q qs Hq _ (cs & out & Hcs & Hs & Hout & E)]; [by exists [], []|].
  destruct (query_body_ok header q Hq) as (b & Hb & Hsb & _).
  destruct (message_packet (query_message_id q) (query_seq_no q) (uint32 (storer_size b)) b Hsb (le_store_uint32 _))
    as (s & Hp & Hss & Hst).
  cbn [QueryVectorImpl_do_store]. unfold QueryImpl_do_store. rewrite Hb, !Ok_bind, Hp, !Ok_bind, Hcs, Ok_bind.
  eexists _, _. split; [done|]. split; [by constructor|]. split; [by cbn; rewrite Hout|].
  cbn [fmap list_fmap messages_bytes concat]. unfold query_message at 1. by rewrite Hst, Hb, E.
Qed.

Lemma query_packet_ok c :
  Forall query_fits (to_send c) ->
  exists s, query_packet c = Ok s /\ sound_storer s /\
    stored s = messages_bytes (query_message (storer_header c) <$> to_send c).
Proof.
  intros Hq. destruct (query_calls_ok (storer_header c) _ Hq) as (cs & out & Hcs & Hs & Hout & E).
  unfold query_packet. rewrite Hcs, Ok_bind. destruct (calls_packet cs out Hs Hout) as (s & ? & ? & ?).
  exists s. split; [done|]. split; [done|]. congruence.
Qed.

Lemma cancel_packet_ok c :
  Forall sound_object (cancel_storer_ c) ->
  exists s, cancel_packet c = Ok s /\ sound_storer s /\
    stored s = messages_bytes (concat (object_messages <$> cancel_storer_ c)).
Proof.
  intros Hc. destruct (cancel_calls_ok _ Hc) as (cs & out & Hcs & Hs & Hout & E).
  unfold cancel_packet. rewrite Hcs, Ok_bind. destruct (calls_packet cs out Hs Hout) as (s & ? & ? & ?).
  exists s. split; [done|]. split; [done|]. congruence.
Qed.

(** ** All messages of a packet *)

Definition packet_messages (c : CryptoImpl) : list message :=
  (query_message (storer_header c) <$> to_send c) ++ object_messages (ack_storer_ c) ++
  object_messages (http_wait_storer_ c) ++ object_messages (get_future_salts_storer_ c) ++
  object_messages (get_info_storer_ c) ++ object_messages (resend_storer_ c) ++
  concat (object_messages <$> cancel_storer_ c) ++ object_messages (destroy_key_storer_ c) ++
  object_messages (ping_storer_ c).

Record sound_crypto (c : CryptoImpl) : Prop := {
  sound_queries : Forall query_fits (to_send c);
  sound_objects : Forall sound_object [ack_storer_ c; http_wait_storer_ c; get_future_salts_storer_ c;
    get_info_storer_ c; resend_storer_ c; destroy_key_storer_ c; ping_storer_ c];
  sound_cancel : Forall sound_object (cancel_storer_ c);
}.

Lemma concat_storer_ok c :
  sound_crypto c ->
  exists s, concat_storer c = Ok s /\ sound_storer s /\ stored s = messages_bytes (packet_messages c).
Proof.
  intros [Hq Ho Hc]. rewrite !Forall_cons in Ho. destruct Ho as (Ho1 & Ho2 & Ho3 & Ho4 & Ho5 & Ho6 & Ho7 & _).
  unfold concat_storer, packet_messages.
  destruct (query_packet_ok c Hq) as (? & -> & ? & ?). rewrite Ok_bind.
  do 5 (match goal with Hf : sound_object (?f c) |- context [object_packet (?f c) ≫= _] =>
    destruct (object_packet_ok _ Hf) as (? & -> & ? & ?); clear Hf; rewrite Ok_bind end).
  destruct (cancel_packet_ok c Hc) as (? & -> & ? & ?). rewrite Ok_bind.
  do 2 (match goal with Hf : sound_object (?f c) |- context [object_packet (?f c) ≫= _] =>
    destruct (object_packet_ok _ Hf) as (? & -> & ? & ?); clear Hf; rewrite Ok_bind end).
  eexists. split; [done|]. split; [eauto 10 with len|]. rewrite !messages_bytes_app. cbn [stored ConcatStorer].
  rewrite <- !app_assoc. congruence.
Qed.

(** ** The service messages get their identifiers one after the other *)

(** From [s], messages with the given bodies have got the next identifiers. *)
Record made (now : Q) (s s' : AuthData * G) (bodies : list bytes) (ms : list message) : Prop := {
  made_bodies : msg_body <$> ms = bodies;
  made_seqno : Forall (fun m => msg_seqno m = seq_no_ s.1) ms;
  made_ids : next_message_ids (replicate (length ms) now) s.1 s.2 = (msg_id <$> ms, s'.1, s'.2);
}.

Lemma next_message_ids_app nows nows' a g :
  next_message_ids (nows ++ nows') a g =
    let '(ids, a, g) := next_message_ids nows a g in
    let '(ids', a, g) := next_message_ids nows' a g in (ids ++ ids', a, g).
Proof.
  revert a g. induction nows as [|now nows IH]; intros a g; cbn [next_message_ids app].
  - by destruct (next_message_ids nows' a g) as [[]].
  - destruct (next_message_id now a g) as [[id a1] g1]. rewrite IH.
    destruct (next_message_ids nows a1 g1) as [[ids a2] g2]. by destruct (next_message_ids nows' a2 g2) as [[]].
Qed.

(** Only the last identifier changes. *)
Lemma next_message_id_frame now a g :
  let r := next_message_id now a g in r.1.2 = set_counters r.1.1 (seq_no_ a) a.
Proof. unfold next_message_id. by destruct (secure_int32 g). Qed.

Lemma next_message_ids_frame nows a g :
  let a' := (next_message_ids nows a g).1.2 in a' = set_counters (last_message_id_ a') (seq_no_ a) a.
Proof.
  revert a g. induction nows as [|now nows IH]; intros a g; cbn [next_message_ids]; [by destruct a|].
  pose proof (next_message_id_frame now a g) as Hf. destruct (next_message_id now a g) as [[id a1] g1].
  specialize (IH a1 g1). destruct (next_message_ids nows a1 g1) as [[ids a2] g2]. cbn [fst snd] in *.
  rewrite IH, Hf. by destruct a.
Qed.

Lemma made_frame now s s' bodies ms :
  made now s s' bodies ms -> s'.1 = set_counters (last_message_id_ s'.1) (seq_no_ s.1) s.1.
Proof.
  intros [_ _ Hi]. pose proof (next_message_ids_frame (replicate (length ms) now) s.1 s.2) as Hf.
  by rewrite Hi in Hf.
Qed.

Lemma made_nil now s : made now s s [] [].
Proof. split; [done|constructor|by destruct s]. Qed.

Lemma made_app now s s1 s2 bs cs ms ns :
  made now s s1 bs ms -> made now s1 s2 cs ns -> made now s s2 (bs ++ cs) (ms ++ ns).
Proof.
  intros Hm Hn. pose proof (made_frame _ _ _ _ _ Hm) as Hf. destruct Hm as [Hb Hq Hi], Hn as [Hb' Hq' Hi'].
  split.
  - by rewrite fmap_app, Hb, Hb'.
  - apply Forall_app. split; [done|]. eapply Forall_impl; [exact Hq'|]. cbn. intros m ->. by rewrite Hf.
  - by rewrite length_app, replicate_add, next_message_ids_app, Hi, Hi', fmap_app.
Qed.

Definition bodies_of (b : bool) (object : outcome storer) : list bytes := if b then [body_of object] else [].

Lemma new_ObjectImpl_ok now b object s :
  (b = true -> exists o, object = Ok o /\ sound_storer o) ->
  exists x s', new_ObjectImpl now b object s = Ok (x, s') /\ not_empty x = b /\ sound_object x /\
    made now s s' (bodies_of b object) (object_messages x).
Proof.
  intros Ho. unfold new_ObjectImpl, bodies_of. destruct b; cbn [negb].
  - destruct (Ho eq_refl) as (o & -> & Hs). rewrite Ok_bind.
    destruct (next_message_id now s.1 s.2) as [[id a] g] eqn:E. cbn [next_seq_no].
    eexists _, _. split; [done|]. split; [done|]. split; [by intros _|]. unfold object_messages.
    cbn [not_empty object_message_id object_seq_no object_storer].
    assert (Hseq : seq_no_ a = seq_no_ s.1).
    { pose proof (next_message_id_frame now s.1 s.2) as Hf. rewrite E in Hf. cbn in Hf. by rewrite Hf. }
    split; [done|by constructor|]. cbn. by rewrite E.
  - eexists _, _. split; [done|]. split; [done|]. split; [done|]. apply made_nil.
Qed.

Lemma new_CancelVectorImpl_ok now ids s :
  Forall (fun id => exists o, DefaultStorer (store_rpc_drop_answer id) = Ok o) ids ->
  exists xs s', new_CancelVectorImpl now ids s = Ok (xs, s') /\ length xs = length ids /\
    Forall (fun x => not_empty x = true /\ sound_object x) xs /\
    made now s s' ((fun id => body_of (DefaultStorer (store_rpc_drop_answer id))) <$> ids)
      (concat (object_messages <$> xs)).
Proof.
  intros Hids. revert s. induction Hids as [|id ids (o & Ho) _ IH]; intros s; cbn [new_CancelVectorImpl].
  - eexists _, _. split; [done|]. split; [done|]. split; [done|]. apply made_nil.
  - destruct (new_ObjectImpl_ok now true (DefaultStorer (store_rpc_drop_answer id)) s) as (x & s1 & -> & Hn & Hx & Hm).
    { intros _. exists o. split; [done|]. by eapply DefaultStorer_sound. }
    rewrite Ok_bind. cbn [fst snd]. destruct (IH s1) as (xs & s2 & -> & Hl & Hxs & Hms). rewrite Ok_bind.
    eexists _, _. split; [done|]. split; [cbn; by rewrite Hl|]. split; [by constructor|].
    by apply (made_app now s s1 s2 [_]).
Qed.

Section packet.
Context (now : Q) (queries : list MtprotoQuery) (header : bytes) (to_ack : list Z)
  (ping_id ping_timeout max_delay max_after max_wait future_salt_n : Z) (get_info resend cancel : list Z)
  (destroy_key : bool).
Context `{!ServiceLaws}.

(** The bodies of the service messages, in their order. *)
Definition service_bodies : list bytes :=
  bodies_of (negb (len to_ack =? 0)) (vector_storer msgs_ack_ID (store_msgs_ack to_ack)) ++
  bodies_of (0 <=? max_delay) (DefaultStorer (store_http_wait max_delay max_after max_wait)) ++
  bodies_of (0 <? future_salt_n) (DefaultStorer (store_get_future_salts future_salt_n)) ++
  bodies_of (negb (len get_info =? 0)) (vector_storer msgs_state_req_ID (store_msgs_state_req get_info)) ++
  bodies_of (negb (len resend =? 0)) (vector_storer msg_resend_req_ID (store_msg_resend_req resend)) ++
  ((fun id => body_of (DefaultStorer (store_rpc_drop_answer id))) <$> cancel) ++
  bodies_of destroy_key (DefaultStorer store_destroy_auth_key) ++
  bodies_of (negb (ping_id =? 0)) (DefaultStorer (store_ping_delay_disconnect ping_id ping_timeout)).

Record packet_fits : Prop := {
  fit_queries : Forall query_fits queries;
  fit_vectors : len to_ack < 2 ^ 31 /\ len get_info < 2 ^ 31 /\ len resend < 2 ^ 31;
  fit_count : len queries + len cancel + 7 < 2 ^ 31;
}.

(** A storer of whole words, at most [n] bytes. *)
Definition stores (n : Z) (m : outcome storer) : Prop :=
  exists o, m = Ok o /\ sound_storer o /\ len (stored o) mod 4 = 0 /\ len (stored o) <= n.

Lemma stores_sound n m : stores n m -> exists o, m = Ok o /\ sound_storer o.
Proof. intros (o & ? & ? & _). by exists o. Qed.

Lemma stores_body n m : stores n m -> len (body_of m) mod 4 = 0 /\ len (body_of m) <= n.
Proof. by intros (o & -> & _ & ? & ?). Qed.

Lemma short_stores n vs : short_object n vs -> stores n (DefaultStorer vs).
Proof.
  intros [Hv Hn]. destruct (plain_stored vs Hv) as (out & Ho & Hl & Hm). unfold stores, DefaultStorer. rewrite Ho, Ok_bind.
  eexists. split; [done|]. unfold sound_storer. cbn [storer_size stored]. rewrite Hl in *. by split_and!.
Qed.

Lemma vector_stores id fields vs n : fields = Ok vs -> short_object n vs -> stores (4 + n) (vector_storer id fields).
Proof.
  intros -> [Hv Hn]. unfold vector_storer, TLObjectStorer. rewrite Ok_bind. apply short_stores.
  split; [by constructor|]. rewrite tl_calc_length_cons. cbn [calc_value]. lia.
Qed.

Lemma vector_storers ids :
  len ids < 2 ^ 31 ->
  stores (20 + 8 * len ids) (vector_storer msgs_ack_ID (store_msgs_ack ids)) /\
  stores (20 + 8 * len ids) (vector_storer msgs_state_req_ID (store_msgs_state_req ids)) /\
  stores (20 + 8 * len ids) (vector_storer msg_resend_req_ID (store_msg_resend_req ids)).
Proof.
  intros Hl. destruct (vector_stored ids Hl) as (xs & ys & zs & Hx & Hy & Hz & Hp). rewrite !Forall_cons in Hp.
  destruct Hp as (Hpx & Hpy & Hpz & _). replace (20 + 8 * len ids) with (4 + (16 + 8 * len ids)) by lia.
  split_and!; by eapply vector_stores.
Qed.

Lemma function_storers a b c :
  stores 64 (DefaultStorer (store_ping_delay_disconnect a b)) /\
  stores 64 (DefaultStorer (store_http_wait a b c)) /\
  stores 64 (DefaultStorer (store_get_future_salts a)) /\
  stores 64 (DefaultStorer (store_rpc_drop_answer a)) /\
  stores 64 (DefaultStorer store_destroy_auth_key).
Proof.
  pose proof (functions_stored a b c) as Hp. rewrite !Forall_cons in Hp. destruct_and!. split_and!; by apply short_stores.
Qed.

Lemma object_count x : len (object_messages x) = b2n (not_empty x).
Proof. unfold object_messages. by destruct (not_empty x). Qed.

Lemma cancel_count xs :
  Forall (fun x => not_empty x = true /\ sound_object x) xs -> len (concat (object_messages <$> xs)) = len xs.
Proof.
  induction 1 as [|x xs [Hx _] _ IH]; [done|]. cbn [fmap list_fmap concat]. rewrite len_app, len_cons, IH.
  unfold object_messages. rewrite Hx. by rewrite len_cons.
Qed.

(** The members are constructed, and their messages are the queries and the
    service messages. *)
Lemma new_members_ok s :
  packet_fits ->
  exists c s' ms, new_members now queries header to_ack ping_id ping_timeout max_delay max_after max_wait future_salt_n
      get_info resend cancel destroy_key s = Ok (c, s') /\
    sound_crypto c /\ to_send c = queries /\ storer_header c = header /\ made now s s' service_bodies ms /\
    packet_messages c = (query_message header <$> queries) ++ ms /\ cnt_ c = len (packet_messages c) /\
    Forall (fun x => not_empty x = true) (cancel_storer_ c) /\
    not_empty (get_info_storer_ c) = negb (len get_info =? 0) /\ not_empty (resend_storer_ c) = negb (len resend =? 0) /\
    not_empty (ping_storer_ c) = negb (ping_id =? 0).
Proof.
  intros [Hq (Ha & Hi & Hr) Hcount]. unfold new_members.
  destruct (vector_storers to_ack Ha) as (Hack & _), (vector_storers get_info Hi) as (_ & Hinfo & _),
    (vector_storers resend Hr) as (_ & _ & Hresend).
  destruct (function_storers max_delay max_after max_wait) as (_ & Hwait & _).
  destruct (function_storers future_salt_n 0 0) as (_ & _ & Hsalts & _ & Hdestroy).
  destruct (function_storers ping_id ping_timeout 0) as (Hping & _).
  destruct (new_ObjectImpl_ok now (negb (len to_ack =? 0)) _ s (fun _ => stores_sound _ _ Hack)) as (x1 & s1 & -> & N1 & S1 & M1).
  rewrite Ok_bind; cbn [fst snd].
  destruct (new_ObjectImpl_ok now (0 <=? max_delay) _ s1 (fun _ => stores_sound _ _ Hwait)) as (x2 & s2 & -> & N2 & S2 & M2).
  rewrite Ok_bind; cbn [fst snd].
  destruct (new_ObjectImpl_ok now (0 <? future_salt_n) _ s2 (fun _ => stores_sound _ _ Hsalts)) as (x3 & s3 & -> & N3 & S3 & M3).
  rewrite Ok_bind; cbn [fst snd].
  destruct (new_ObjectImpl_ok now (negb (len get_info =? 0)) _ s3 (fun _ => stores_sound _ _ Hinfo)) as (x4 & s4 & -> & N4 & S4 & M4).
  rewrite Ok_bind; cbn [fst snd].
  destruct (new_ObjectImpl_ok now (negb (len resend =? 0)) _ s4 (fun _ => stores_sound _ _ Hresend)) as (x5 & s5 & -> & N5 & S5 & M5).
  rewrite Ok_bind; cbn [fst snd].
  destruct (new_CancelVectorImpl_ok now cancel s5) as (xs & s6 & -> & Nl & Hxs & M6).
  { apply Forall_true. intros id. destruct (function_storers id 0 0) as (_ & _ & _ & (o & Ho & _) & _). by exists o. }
  rewrite Ok_bind; cbn [fst snd].
  destruct (new_ObjectImpl_ok now destroy_key _ s6 (fun _ => stores_sound _ _ Hdestroy)) as (x7 & s7 & -> & N7 & S7 & M7).
  rewrite Ok_bind; cbn [fst snd].
  destruct (new_ObjectImpl_ok now (negb (ping_id =? 0)) _ s7 (fun _ => stores_sound _ _ Hping)) as (x8 & s8 & -> & N8 & S8 & M8).
  rewrite Ok_bind; cbn [fst snd].
  eexists _, s8, _. split; [reflexivity|].
  split; [split; [done|by repeat constructor|by eapply Forall_impl; [exact Hxs|intros ? []]]|].
  split; [done|]. split; [done|].
  split; [exact (made_app _ _ _ _ _ _ _ _ M1 (made_app _ _ _ _ _ _ _ _ M2 (made_app _ _ _ _ _ _ _ _ M3
    (made_app _ _ _ _ _ _ _ _ M4 (made_app _ _ _ _ _ _ _ _ M5 (made_app _ _ _ _ _ _ _ _ M6
    (made_app _ _ _ _ _ _ _ _ M7 M8)))))))|].
  split; [done|]. cbn [cnt_ cancel_storer_ get_info_storer_ resend_storer_ ping_storer_]. split_and!; try done.
  - unfold packet_messages. cbn [to_send storer_header ack_storer_ http_wait_storer_ get_future_salts_storer_ get_info_storer_
      resend_storer_ cancel_storer_ destroy_key_storer_ ping_storer_]. rewrite !len_app, len_fmap, (cancel_count xs Hxs).
    rewrite !object_count. assert (Hlx : len xs = len cancel) by (unfold len; by rewrite Nl).
    pose proof (len_nonneg queries). pose proof (len_nonneg cancel).
    assert (Hb : forall b, 0 <= b2n b <= 1) by (by intros []).
    pose proof (Hb (not_empty x1)). pose proof (Hb (not_empty x2)). pose proof (Hb (not_empty x3)).
    pose proof (Hb (not_empty x4)). pose proof (Hb (not_empty x5)). pose proof (Hb (not_empty x7)).
    pose proof (Hb (not_empty x8)).
    rewrite (int32_small (len queries)), (int32_small (len cancel)) by lia. rewrite int32_small; lia.
  - by eapply Forall_impl; [exact Hxs|intros ? []].
Qed.

(** A packet of one message. *)
Lemma single_message {A} (l : list A) m : m ∈ l -> len l = 1 -> l = [m].
Proof.
  intros Hm Hl. destruct l as [|x [|y l]]; [done| |rewrite !len_cons in Hl; pose proof (len_nonneg l); lia].
  by apply list_elem_of_singleton in Hm as ->.
Qed.

(** [s] writes the only message [top] of the packet. *)
Definition writes_only (c : CryptoImpl) (s : outcome storer) (top : message) : Prop :=
  exists p, (s ← s; PacketStorer [StoreStorer s]) = Ok p /\ sound_storer p /\ stored p = message_bytes top /\
    packet_messages c = [top].

Lemma writes_only_packet c s p top :
  s = Ok p -> sound_storer p -> stored p = message_bytes top -> packet_messages c = [top] -> writes_only c s top.
Proof.
  intros -> Hp Hst Hm. exists (mk_storer (storer_size p + 0) (stored p ++ [])). rewrite Ok_bind.
  split; [done|]. rewrite app_nil_r. split; [unfold sound_storer in *; cbn; lia|done].
Qed.

Lemma object_only c x :
  object_messages x ⊆ packet_messages c -> len (packet_messages c) = 1 -> not_empty x = true -> sound_object x ->
  exists top, writes_only c (object_packet x) top /\ msg_id top = get_message_id x.
Proof.
  intros Hc Hl Hn Hx. destruct (object_packet_ok x Hx) as (p & Hp & Hs & Hst).
  unfold object_messages in *. rewrite Hn in *. eexists. split.
  - eapply writes_only_packet; [done|done|rewrite Hst; apply app_nil_r|]. apply single_message; [|done]. apply Hc. by left.
  - done.
Qed.

Lemma cancel_only c :
  concat (object_messages <$> cancel_storer_ c) ⊆ packet_messages c ->
  len (concat (object_messages <$> cancel_storer_ c)) <= len (packet_messages c) -> len (packet_messages c) = 1 ->
  Forall (fun x => not_empty x = true) (cancel_storer_ c) -> Forall sound_object (cancel_storer_ c) ->
  len (cancel_storer_ c) <> 0 ->
  exists top, CancelVectorImpl_get_message_id (cancel_storer_ c) = Ok (msg_id top) /\ writes_only c (cancel_packet c) top.
Proof.
  intros Hc Hle Hl Hn Hs Hne. destruct (cancel_packet_ok c Hs) as (p & Hp & Hsp & Hst).
  rewrite cancel_count in Hle by (apply Forall_and; by split).
  destruct (cancel_storer_ c) as [|x [|y xs]] eqn:E.
  - done.
  - rewrite Forall_singleton in Hn. exists (mk_message (object_message_id x) (object_seq_no x) (stored (object_storer x))).
    split; [done|]. cbn [fmap list_fmap concat] in Hc, Hst. unfold object_messages in Hc, Hst.
    rewrite Hn, app_nil_r in Hc, Hst. eapply writes_only_packet; [done|done|rewrite Hst; apply app_nil_r|].
    apply single_message; [|done]. apply Hc. by left.
  - exfalso. rewrite !len_cons in Hle. pose proof (len_nonneg xs). lia.
Qed.

(** The only message is that of the object whose flag is [E]. *)
Ltac object_case c Hwrite Hl E S :=
  lazymatch type of E with
  | not_empty ?x = true =>
      destruct (object_only c x) as (top & Hw & <-);
      [unfold packet_messages; intros m Hm; rewrite !elem_of_app; tauto|exact Hl|exact E|exact S|]; by eapply Hwrite
  end.

(** The type of a packet that is not a container. *)
Lemma only_type_ok c :
  sound_crypto c -> Forall (fun x => not_empty x = true) (cancel_storer_ c) -> len (packet_messages c) = 1 ->
  exists t top p, only_type c = Ok (t, msg_id top) /\ crypto_packet (set_type t 0 0 c) = Ok p /\ t <> Mixed /\
    sound_storer p /\ stored p = message_bytes top /\ packet_messages c = [top].
Proof.
  intros [Hq Ho Hc] Hn Hl. unfold only_type.
  rewrite !Forall_cons in Ho. destruct Ho as (S1 & S2 & S3 & S4 & S5 & S7 & S8 & _).
  assert (Hwrite : forall t top s, writes_only c s top -> t <> Mixed ->
    crypto_packet (set_type t 0 0 c) = (s ← s; PacketStorer [StoreStorer s]) ->
    exists t' top' p, Ok (A := crypto_type * Z) (t, msg_id top) = Ok (t', msg_id top') /\
      crypto_packet (set_type t' 0 0 c) = Ok p /\
      t' <> Mixed /\ sound_storer p /\ stored p = message_bytes top' /\ packet_messages c = [top']).
  { intros t top s (p & Hp & Hs & Hst & Hm) Ht Hcp. exists t, top, p. by rewrite Hcp. }
  destruct (to_send c) as [|q qs] eqn:Eq.
  2:{ destruct (query_packet_ok c) as (p & Hp & Hs & Hst); [by rewrite Eq|].
      assert (Hall : packet_messages c = [query_message (storer_header c) q]).
      { apply single_message; [|done]. unfold packet_messages. rewrite Eq, elem_of_app. left. by left. }
      assert (Hqs : qs = []).
      { apply len_zero_nil. unfold packet_messages in Hl. rewrite Eq, len_app, len_fmap, len_cons in Hl.
        match type of Hl with _ + len ?r = _ => pose proof (len_nonneg r) end. pose proof (len_nonneg qs). lia. }
      rewrite Hqs. change (len [q] =? 1) with true. cbn [check]. rewrite Ok_bind.
      apply (Hwrite OnlyQuery (query_message (storer_header c) q) (query_packet c)); [|done|done].
      eapply writes_only_packet; [done|done| |done]. rewrite Hst, Eq, Hqs. apply app_nil_r. }
  destruct (not_empty (ack_storer_ c)) eqn:E1; [object_case c Hwrite Hl E1 S1|].
  destruct (not_empty (ping_storer_ c)) eqn:E8; [object_case c Hwrite Hl E8 S8|].
  destruct (not_empty (http_wait_storer_ c)) eqn:E2; [object_case c Hwrite Hl E2 S2|].
  destruct (not_empty (get_future_salts_storer_ c)) eqn:E3; [object_case c Hwrite Hl E3 S3|].
  destruct (not_empty (get_info_storer_ c)) eqn:E4; [object_case c Hwrite Hl E4 S4|].
  destruct (not_empty (resend_storer_ c)) eqn:E5; [object_case c Hwrite Hl E5 S5|].
  destruct (Z.eqb_spec (len (cancel_storer_ c)) 0) as [E6|E6]; cbn [negb].
  - destruct (not_empty (destroy_key_storer_ c)) eqn:E7; [object_case c Hwrite Hl E7 S7|].
    exfalso. unfold packet_messages, object_messages in Hl.
    rewrite Eq, E1, E2, E3, E4, E5, E7, E8, (len_zero_nil _ E6) in Hl. done.
  - destruct (cancel_only c) as (top & -> & Hw); try done.
    + unfold packet_messages. intros m Hm. rewrite !elem_of_app. tauto.
    + unfold packet_messages. rewrite !len_app. repeat match goal with |- context [len ?l] =>
        lazymatch goal with Hx : 0 <= len l |- _ => fail | _ => pose proof (len_nonneg l) end end. lia.
    + rewrite Ok_bind. by eapply Hwrite.
Qed.

(** What the caller gets: the packet [top] of the messages [all], the queries
    and then the service messages [ms]; a container gets its identifier last. *)
(** More than one message, or one query of which the identifier is not, by now,
    less than 150 seconds behind and 30 seconds ahead of the server's clock. *)
Definition contained (a : AuthData) : bool :=
  (1 <? len queries + len service_bodies) ||
  match queries with
  | q :: _ =>
      let server_time := rnd (server_time_difference_ a + now) in
      Qle_bool (id_time (query_message_id q)) (rnd (server_time - 150)) ||
      Qle_bool (rnd (server_time + 30)) (id_time (query_message_id q))
  | [] => false
  end.

Record written (s s' : AuthData * G) (c : CryptoImpl) (ids : sent_ids) (top : message) (ms : list message) : Prop := {
  written_bytes : exists p, crypto_packet c = Ok p /\ sound_storer p /\ stored p = message_bytes top;
  written_parent : parent_message_id ids = msg_id top;
  written_form :
    let all := (query_message header <$> queries) ++ ms in
    container_message_id ids = 0 /\ all = [top] /\ made now s s' service_bodies ms \/
    container_message_id ids = msg_id top /\
      made now s s' (service_bodies ++ [container_body all]) (ms ++ [top]);
  written_info : len get_info = 0 /\ get_info_message_id ids = 0 \/
    len get_info <> 0 /\ exists m : message, m ∈ ms /\ msg_id m = get_info_message_id ids;
  written_resend : len resend = 0 /\ resend_message_id ids = 0 \/
    len resend <> 0 /\ exists m : message, m ∈ ms /\ msg_id m = resend_message_id ids;
  written_ping : ping_id = 0 /\ ping_message_id ids = 0 \/
    ping_id <> 0 /\ exists m : message, m ∈ ms /\ msg_id m = ping_message_id ids;
  written_contained :
    let all := (query_message header <$> queries) ++ ms in
    if contained s.1 then made now s s' (service_bodies ++ [container_body all]) (ms ++ [top])
    else all = [top] /\ made now s s' service_bodies ms;
}.

Lemma id_of_messages x (ms : list message) n :
  not_empty x = negb (n =? 0) -> object_messages x ⊆ ms ->
  n = 0 /\ id_of x = 0 \/ n <> 0 /\ exists m : message, m ∈ ms /\ msg_id m = id_of x.
Proof.
  intros Hb Hx. unfold id_of, object_messages in *. rewrite Hb in *. destruct (Z.eqb_spec n 0); [by left|right].
  split; [done|]. eexists. split; [apply Hx; by left|done].
Qed.

Lemma new_CryptoImpl_ok s :
  packet_fits -> len queries + len service_bodies <> 0 ->
  exists c ids s' top ms, new_CryptoImpl now queries header to_ack ping_id ping_timeout max_delay max_after max_wait
      future_salt_n get_info resend cancel destroy_key s = Ok (c, ids, s') /\ written s s' c ids top ms.
Proof.
  intros Hfits Hne. unfold new_CryptoImpl.
  destruct (new_members_ok s Hfits) as (c & s1 & ms & -> & Hs & Hq & Hh & Hm & Hall & Hcnt & Hcancel & Hi & Hr & Hp).
  rewrite Ok_bind. cbn [fst snd]. unfold finish_CryptoImpl.
  assert (Hlen : len (packet_messages c) = len queries + len service_bodies).
  { rewrite Hall, len_app, len_fmap. f_equal. rewrite <- (made_bodies _ _ _ _ _ Hm). by rewrite len_fmap. }
  assert (Hms : object_messages (get_info_storer_ c) ⊆ ms /\ object_messages (resend_storer_ c) ⊆ ms /\
    object_messages (ping_storer_ c) ⊆ ms).
  { pose proof Hall as E. unfold packet_messages in E. rewrite Hq, Hh in E. apply app_inv_head in E. rewrite <- E.
    split_and!; intros m; rewrite !elem_of_app; tauto. }
  destruct Hms as (Hmi & Hmr & Hmp).
  pose proof (id_of_messages _ ms _ Hi Hmi) as Wi. pose proof (id_of_messages _ ms _ Hr Hmr) as Wr.
  pose proof (id_of_messages _ ms _ Hp Hmp) as Wp.
  rewrite Hcnt, (proj2 (Z.eqb_neq _ 0)) by lia. cbn [negb check]. rewrite Ok_bind.
  assert (Hcontained : contained s.1 = (1 <? len (packet_messages c)) || first_is_late now (to_send c) s1.1).
  { unfold contained. rewrite Hlen, Hq. f_equal. pose proof (made_frame _ _ _ _ _ Hm) as Hfr. unfold first_is_late. destruct queries as [|q qs]; [done|].
    unfold is_valid_outbound_msg_id, get_server_time. rewrite Hfr. cbn [server_time_difference_ set_counters].
    unfold Qltb. cbv zeta. by rewrite negb_andb, !negb_involutive. }
  destruct ((1 <? len (packet_messages c)) || first_is_late now (to_send c) s1.1) eqn:E.
  - destruct (next_message_id now s1.1 s1.2) as [[id a] g] eqn:Eid. cbn [next_seq_no].
    assert (Hcont : made now s1 (a, g) [container_body (packet_messages c)]
      [mk_message id (seq_no_ a) (container_body (packet_messages c))]).
    { split; [done| |by cbn; rewrite Eid]. constructor; [|constructor]. cbn.
      pose proof (next_message_id_frame now s1.1 s1.2) as Hf. rewrite Eid in Hf. cbn in Hf. by rewrite Hf. }
    destruct (concat_storer_ok c Hs) as (p & Hcp & Hps & Hpst).
    set (body := container_body (packet_messages c)) in *.
    eexists _, _, _, (mk_message id (seq_no_ a) body), ms. split; [reflexivity|]. split; cbn [parent_message_id
      container_message_id get_info_message_id resend_message_id ping_message_id msg_id]; try done.
    + unfold crypto_packet. cbn [type_ set_type]. change (concat_storer (set_type Mixed id (seq_no_ a) c)) with (concat_storer c).
      rewrite Hcp, Ok_bind. destruct (calls_packet [StoreValue (TlInt msg_container_ID); StoreValue (TlInt (cnt_ c)); StoreStorer p] body)
        as (q & Hq' & Hqs & Hqst); [by repeat constructor| |].
      { cbn [calls_bytes call_bytes store_value]. rewrite !Ok_bind. unfold body, container_body. by rewrite Hpst, app_nil_r, Hcnt. }
      unfold ContainerImpl. cbn [cnt_ set_type message_id_ crypto_seq_no_]. rewrite Hq', Ok_bind, <- Hqst.
      apply message_packet; [done|apply le_store_int32].
    + right. split; [done|]. unfold body in *. rewrite <- Hall. by eapply made_app.
    + rewrite Hcontained. unfold body in *. rewrite <- Hall. by eapply made_app.
  - apply orb_false_elim in E as [E _]. apply Z.ltb_ge in E. pose proof (len_nonneg (packet_messages c)).
    destruct (only_type_ok c Hs Hcancel ltac:(lia)) as (t & top & p & Ht & Hcp & _ & Hps & Hpst & Hone).
    rewrite Ht, Ok_bind. eexists _, _, _, top, ms. split; [reflexivity|].
    split; cbn [parent_message_id container_message_id get_info_message_id resend_message_id ping_message_id]; try done.
    + by exists p.
    + left. split; [done|]. split; [|done]. by rewrite <- Hall.
    + rewrite Hcontained. split; [|done]. by rewrite <- Hall.
Qed.
(** ** Sizes *)

Definition bodies_size (bs : list bytes) : Z := foldr (fun b n => 16 + len b + n) 0 bs.

Definition aligned (b : bytes) : Prop := len b mod 4 = 0.

Lemma bodies_size_cons b bs : bodies_size (b :: bs) = 16 + len b + bodies_size bs.
Proof. reflexivity. Qed.

Lemma bodies_size_app bs cs : bodies_size (bs ++ cs) = bodies_size bs + bodies_size cs.
Proof. induction bs as [|b bs IH]; [done|]. cbn [app]. rewrite !bodies_size_cons. lia. Qed.

Lemma len_messages_bytes ms : len (messages_bytes ms) = bodies_size (msg_body <$> ms).
Proof.
  induction ms as [|m ms IH]; [done|]. unfold messages_bytes in *. cbn [fmap list_fmap concat].
  rewrite len_app, len_message_bytes, IH, bodies_size_cons. lia.
Qed.

Lemma bodies_of_size b m n : (b = true -> stores n m) -> 0 <= n ->
  Forall aligned (bodies_of b m) /\ bodies_size (bodies_of b m) <= 16 + n.
Proof.
  intros Hs Hn. unfold bodies_of. destruct b; [|split; [constructor|cbn; lia]].
  destruct (stores_body n m (Hs eq_refl)) as [Ha Hl]. split; [by repeat constructor|]. rewrite bodies_size_cons. cbn. lia.
Qed.

Lemma cancel_bodies_size ids :
  let bs := (fun id => body_of (DefaultStorer (store_rpc_drop_answer id))) <$> ids in
  Forall aligned bs /\ bodies_size bs <= 80 * len ids.
Proof.
  induction ids as [|id ids [Ha Hs]]; cbn zeta in *; [done|]. cbn [fmap list_fmap]. rewrite len_cons.
  destruct (function_storers id 0 0) as (_ & _ & _ & Hd & _). destruct (stores_body 64 _ Hd) as [Ha' Hl'].
  split; [by constructor|]. rewrite bodies_size_cons. lia.
Qed.

Definition services_size : Z := 428 + 8 * (len to_ack + len get_info + len resend) + 80 * len cancel.

Lemma service_bodies_size : packet_fits -> Forall aligned service_bodies /\ bodies_size service_bodies <= services_size.
Proof.
  intros [_ (Ha & Hi & Hr) _]. unfold service_bodies, services_size.
  destruct (vector_storers to_ack Ha) as (Hack & _), (vector_storers get_info Hi) as (_ & Hinfo & _),
    (vector_storers resend Hr) as (_ & _ & Hresend).
  destruct (function_storers max_delay max_after max_wait) as (_ & Hwait & _).
  destruct (function_storers future_salt_n 0 0) as (_ & _ & Hsalts & _ & Hdestroy).
  destruct (function_storers ping_id ping_timeout 0) as (Hping & _).
  pose proof (len_nonneg to_ack). pose proof (len_nonneg get_info). pose proof (len_nonneg resend).
  destruct (bodies_of_size (negb (len to_ack =? 0)) _ _ (fun _ => Hack) ltac:(lia)).
  destruct (bodies_of_size (0 <=? max_delay) _ _ (fun _ => Hwait) ltac:(lia)).
  destruct (bodies_of_size (0 <? future_salt_n) _ _ (fun _ => Hsalts) ltac:(lia)).
  destruct (bodies_of_size (negb (len get_info =? 0)) _ _ (fun _ => Hinfo) ltac:(lia)).
  destruct (bodies_of_size (negb (len resend =? 0)) _ _ (fun _ => Hresend) ltac:(lia)).
  destruct (cancel_bodies_size cancel).
  destruct (bodies_of_size destroy_key _ _ (fun _ => Hdestroy) ltac:(lia)).
  destruct (bodies_of_size (negb (ping_id =? 0)) _ _ (fun _ => Hping) ltac:(lia)).
  rewrite !Forall_app, !bodies_size_app. split; [by split_and!|lia].
Qed.

(** At most this much of a packet is for one query. *)
Definition query_size (q : MtprotoQuery) : Z :=
  len header + 8 * len (invoke_after_message_ids q) + len (packet q) + 48.

Definition queries_size (qs : list MtprotoQuery) : Z := foldr (fun q n => query_size q + n) 0 qs.

(** Queries are whole words, unless they are packed. *)
Definition query_small (q : MtprotoQuery) : Prop :=
  len (invoke_after_message_ids q) < 2 ^ 31 /\ len (packet q) < 2 ^ 31 /\ (gzip_flag q = false -> aligned (packet q)).

Lemma gzip_stores q : len (packet q) < 2 ^ 31 ->
  stores (len (packet q) + 20) (TLObjectStorer gzip_packed_ID (store_gzip_packed (packet q))).
Proof.
  intros Hl. replace (len (packet q) + 20) with (4 + (len (packet q) + 16)) by lia.
  apply (vector_stores gzip_packed_ID (Ok (store_gzip_packed (packet q))) (store_gzip_packed (packet q))); [done|by apply gzip_stored].
Qed.

Lemma query_small_fits q : query_small q -> query_fits q.
Proof. intros (Ha & Hl & _). split; [done|]. intros _. destruct (gzip_stores q Hl) as (o & Ho & _). by exists o. Qed.

Lemma len_longs (ids : list Z) : len (concat (le_store 8 <$> ids)) = 8 * len ids.
Proof.
  induction ids as [|id ids IH]; [done|]. cbn [fmap list_fmap concat]. rewrite len_app, len_le_store, IH, len_cons. lia.
Qed.

Lemma after_bytes_size ids : aligned (after_bytes ids) /\ len (after_bytes ids) <= 12 + 8 * len ids.
Proof.
  unfold aligned, after_bytes. destruct ids as [|id [|id' ids]]; [done|done|].
  rewrite !len_app, !len_le_store, len_longs, !len_cons. pose proof (len_nonneg ids). split; [div_mod_lia|lia].
Qed.

Lemma query_message_size q :
  aligned header -> query_small q ->
  aligned (msg_body (query_message header q)) /\ 16 + len (msg_body (query_message header q)) <= query_size q.
Proof.
  intros Hh Hq. pose proof (query_small_fits q Hq) as Hf. destruct Hq as (_ & Hl & Hw).
  destruct (query_body_ok header q Hf) as (b & Hb & _ & Hst). unfold query_message, query_size. cbn [msg_body].
  rewrite Hb. cbn [body_of]. rewrite Hst. destruct (after_bytes_size (invoke_after_message_ids q)) as [Ha Hs].
  assert (Hd : let d := if gzip_flag q then body_of (TLObjectStorer gzip_packed_ID (store_gzip_packed (packet q))) else packet q in
    aligned d /\ len d <= len (packet q) + 20).
  { cbn zeta. destruct (gzip_flag q); [by apply stores_body, gzip_stores|]. split; [by apply Hw|lia]. }
  cbn zeta in Hd. destruct Hd as [Hda Hds]. unfold aligned in *. rewrite !len_app. split; [|lia].
  rewrite Z.add_mod, (Z.add_mod (len (after_bytes _))), Hh, Ha, Hda by lia. done.
Qed.

Lemma query_messages_size qs :
  aligned header -> Forall query_small qs ->
  Forall aligned (msg_body <$> (query_message header <$> qs)) /\
  bodies_size (msg_body <$> (query_message header <$> qs)) <= queries_size qs.
Proof.
  intros Hh. induction 1 as [|q qs Hq _ [Ha Hs]]; [done|]. destruct (query_message_size q Hh Hq) as [Ha' Hs'].
  cbn [fmap list_fmap]. split; [by constructor|]. rewrite bodies_size_cons. cbn [queries_size foldr]. unfold queries_size in Hs. lia.
Qed.

(** All messages, and the packet that holds them. *)
Lemma written_size s s' c ids top ms :
  aligned header -> Forall query_small queries -> packet_fits -> written s s' c ids top ms ->
  Forall aligned (msg_body <$> ((query_message header <$> queries) ++ ms)) /\
  bodies_size (msg_body <$> ((query_message header <$> queries) ++ ms)) <= queries_size queries + services_size /\
  aligned (msg_body top) /\ len (message_bytes top) <= 24 + queries_size queries + services_size.
Proof.
  intros Hh Hq Hfits [_ _ Hform _ _ _ _]. destruct (query_messages_size queries Hh Hq) as [Ha Hs].
  destruct (service_bodies_size Hfits) as [Ha' Hs']. cbn zeta in Hform.
  assert (Hms : msg_body <$> ms = service_bodies /\
    (aligned (msg_body top) /\ len (message_bytes top) <= 24 + queries_size queries + services_size \/
     msg_body top = container_body ((query_message header <$> queries) ++ ms) \/ (query_message header <$> queries) ++ ms = [top])).
  { destruct Hform as [(_ & Hall & [Hb _ _])|(_ & [Hb _ _])]; [split; [done|by right; right]|].
    rewrite fmap_app in Hb. cbn [fmap list_fmap] in Hb. apply app_inj_2 in Hb as [Hb Hc]; [|done].
    split; [done|]. right. left. by injection Hc. }
  destruct Hms as [Hb Htop]. rewrite fmap_app, Hb, Forall_app, bodies_size_app. split; [done|]. split; [lia|].
  destruct Htop as [|[Hc|Hall]]; [done| |].
  - rewrite len_message_bytes, Hc. unfold container_body. rewrite !len_app, !len_le_store, len_messages_bytes, fmap_app, Hb, bodies_size_app.
    split; [|lia]. unfold aligned. rewrite !len_app, !len_le_store, len_messages_bytes, fmap_app, Hb.
    assert (Hmod : forall bs, Forall aligned bs -> bodies_size bs mod 4 = 0).
    { induction 1 as [|x bs Hx _ IH]; [done|]. rewrite bodies_size_cons. unfold aligned in Hx. div_mod_lia. }
    pose proof (Hmod _ (proj2 (Forall_app _ _ _) (conj Ha Ha'))). div_mod_lia.
  - pose proof (f_equal (fun l => bodies_size (msg_body <$> l)) Hall) as E. cbn beta in E.
    rewrite fmap_app, Hb, bodies_size_app in E. cbn [fmap list_fmap] in E. rewrite bodies_size_cons in E.
    change (bodies_size []) with 0 in E. rewrite len_message_bytes.
    split; [|lia]. assert (Hin : top ∈ (query_message header <$> queries) ++ ms) by (rewrite Hall; by left).
    apply (list_elem_of_fmap_2 msg_body) in Hin. rewrite fmap_app, Hb in Hin.
    by apply (proj1 (Forall_forall aligned _) (proj2 (Forall_app _ _ _) (conj Ha Ha'))) in Hin.
Qed.
End packet.
End storer.
