(* ===== verification/Handshake.v ===== *)
(** The creation of an authorization key: [mtproto/Handshake.{h,cpp}],
    [RSA::encrypt] of [mtproto/RSA.cpp] and the key ring of
    [telegram/net/PublicRsaKeySharedMain.cpp].

    The messages are those of [mtproto_api.tl]; the code that stores and fetches
    them is generated, so it is the class [MtprotoApi].  A handler is a
    computation [M] on the handshake and on its surroundings: the random
    numbers, the cache of primes, the key ring and the messages that were sent.
    It gives no result when the loops run out of fuel.  [now] is an argument. *)
From Stdlib Require Import QArith.
From S2P Require Import Prelude Bytes Random Tl BigNum Factorize Crypto DhHandshake Kdf Transport AuthData.
#[local] Open Scope Z_scope.

(** * RSA *)

Record RSA := mk_RSA { n_ : Z; e_ : Z }.

Definition rsa_encrypt `{BigNumOps} (rsa : RSA) (from : bytes) : outcome (option bytes) :=
  _ ← check (len from =? 256);
  let bits := get_num_bits (n_ rsa) in
  _ ← check ((2041 <=? bits) && (bits <=? 2048));
  x ← from_binary from;
  if n_ rsa <=? x then Ok None
  else
    y ← big_mod_exp x (e_ rsa) (n_ rsa);
    to ← to_binary 256 y;
    Ok (Some to).

(** [PublicRsaKeyInterface]. *)
Class RsaKeys (R : Type) := {
  get_rsa_key : list Z -> R -> outcome (RSA * Z);
  drop_keys : R -> R;
}.

Module SharedMain.
Definition keys : Type := list (RSA * Z).

Fixpoint find_key (fingerprint : Z) (ks : keys) : option (RSA * Z) :=
  match ks with
  | [] => None
  | (rsa, f) :: ks => if f =? fingerprint then Some (rsa, fingerprint) else find_key fingerprint ks
  end.

Fixpoint get_rsa_key (fingerprints : list Z) (ks : keys) : outcome (RSA * Z) :=
  match fingerprints with
  | [] => Err (Error 0 "Unknown Main fingerprints ")
  | f :: fs => match find_key f ks with Some r => Ok r | None => get_rsa_key fs ks end
  end.

#[export] Instance shared_main : RsaKeys keys := {|
  Handshake.get_rsa_key := get_rsa_key;
  Handshake.drop_keys ks := ks;
|}.
End SharedMain.

(** * Messages *)

Record res_pq := mk_res_pq {
  rp_nonce : bytes;
  rp_server_nonce : bytes;
  rp_pq : bytes;
  rp_fingerprints : list Z;
}.

Record dh_params := mk_dh_params {
  dp_nonce : bytes;
  dp_server_nonce : bytes;
  dp_encrypted_answer : bytes;
}.

Record dh_inner := mk_dh_inner {
  di_nonce : bytes;
  di_server_nonce : bytes;
  di_g : Z;
  di_dh_prime : bytes;
  di_g_a : bytes;
  di_server_time : Z;
}.

Inductive dh_answer :=
  | dh_gen_ok (nonce server_nonce new_nonce_hash1 : bytes)
  | dh_gen_retry (nonce server_nonce new_nonce_hash2 : bytes)
  | dh_gen_fail (nonce server_nonce new_nonce_hash3 : bytes).

(** The generated code: [T::fetch_result], the constructor of
    [server_DH_inner_data] from a parser, and what is stored of an object. *)
Class MtprotoApi := {
  req_pq_multi_fetch : tl_parser -> outcome (res_pq * tl_parser);
  req_DH_params_fetch : tl_parser -> outcome (dh_params * tl_parser);
  set_client_DH_params_fetch : tl_parser -> outcome (dh_answer * tl_parser);
  server_DH_inner_data : tl_parser -> outcome (dh_inner * tl_parser);
  p_q_inner_data_dc : bytes -> bytes -> bytes -> bytes -> bytes -> bytes -> Z -> bytes;
  p_q_inner_data_temp_dc : bytes -> bytes -> bytes -> bytes -> bytes -> bytes -> Z -> Z -> bytes;
  client_DH_inner_data : bytes -> bytes -> Z -> bytes -> bytes;
  req_pq_multi : bytes -> bytes;
  req_DH_params : bytes -> bytes -> bytes -> bytes -> Z -> bytes -> bytes;
  set_client_DH_params : bytes -> bytes -> bytes -> bytes;
}.

(** [g] is an [int32]; [pq] and the encrypted answer are parts of the message; a
    constructor that does not fail reads a prefix of what the parser has left. *)
Class MtprotoApiLaws `{MtprotoApi} : Prop := {
  res_pq_len message r : len message < max_size_t -> req_pq_multi_fetch (new_parser message) = Ok r -> len (rp_pq r.1) <= len message;
  dh_params_len message r : len message < max_size_t -> req_DH_params_fetch (new_parser message) = Ok r -> len (dp_encrypted_answer r.1) <= len message;
  inner_g_range p r : server_DH_inner_data p = Ok r -> - 2 ^ 31 <= di_g r.1 < 2 ^ 31;
  inner_consumes pre rest r : len (pre ++ rest) < max_size_t -> server_DH_inner_data (parsing pre rest) = Ok r -> failed r.2 = false ->
    exists fields back, rest = fields ++ back /\ r.2 = parsing (pre ++ fields) back;
}.

Definition server_DH_inner_data_ID : Z := int32 0xb5890dba.

Definition fetch_result {T} (fetch : tl_parser -> outcome (T * tl_parser)) (message : bytes) (check_end : bool)
  : outcome T :=
  r ← fetch (new_parser message);
  parser ← (if check_end then fetch_end r.2 else Ok r.2);
  match error parser with
  | Some e => Err (Error 500 e)
  | None => Ok r.1
  end.

(** * The handshake *)

Inductive State := Start | ResPQ | ServerDHParams | DHGenResponse | Finish.

Inductive Mode := Main | Temp.

Record handshake := mk_handshake {
  state_ : State;
  mode_ : Mode;
  dc_id_ : Z;
  expires_in_ : Z;
  expires_at_ : Q;
  start_time_ : Q;
  timeout_in_ : Q;
  auth_key_ : auth_key_state;
  server_time_diff_ : Q;
  handshake_salt_ : Z;
  nonce_ : bytes;
  server_nonce_ : bytes;
  new_nonce_ : bytes;
  last_query_ : bytes;
}.

Definition new_handshake (now : Q) (dc_id expires_in : Z) : handshake :=
  mk_handshake Start (if expires_in =? 0 then Main else Temp) dc_id expires_in 0 now 1000000000 no_key 0 0
    (zeros 16) (zeros 16) (zeros 32) [].

Definition set_state (s : State) (h : handshake) : handshake :=
  mk_handshake s (mode_ h) (dc_id_ h) (expires_in_ h) (expires_at_ h) (start_time_ h) (timeout_in_ h) (auth_key_ h)
    (server_time_diff_ h) (handshake_salt_ h) (nonce_ h) (server_nonce_ h) (new_nonce_ h) (last_query_ h).

Definition set_nonces (nonce server_nonce new_nonce : bytes) (h : handshake) : handshake :=
  mk_handshake (state_ h) (mode_ h) (dc_id_ h) (expires_in_ h) (expires_at_ h) (start_time_ h) (timeout_in_ h)
    (auth_key_ h) (server_time_diff_ h) (handshake_salt_ h) nonce server_nonce new_nonce (last_query_ h).

Definition set_key_expires_at (t : Q) (h : handshake) : handshake :=
  mk_handshake (state_ h) (mode_ h) (dc_id_ h) (expires_in_ h) t (start_time_ h) (timeout_in_ h) (auth_key_ h)
    (server_time_diff_ h) (handshake_salt_ h) (nonce_ h) (server_nonce_ h) (new_nonce_ h) (last_query_ h).

Definition set_time_diff (t : Q) (h : handshake) : handshake :=
  mk_handshake (state_ h) (mode_ h) (dc_id_ h) (expires_in_ h) (expires_at_ h) (start_time_ h) (timeout_in_ h)
    (auth_key_ h) t (handshake_salt_ h) (nonce_ h) (server_nonce_ h) (new_nonce_ h) (last_query_ h).

Definition set_key (k : auth_key_state) (salt : Z) (h : handshake) : handshake :=
  mk_handshake (state_ h) (mode_ h) (dc_id_ h) (expires_in_ h) (expires_at_ h) (start_time_ h) (timeout_in_ h) k
    (server_time_diff_ h) salt (nonce_ h) (server_nonce_ h) (new_nonce_ h) (last_query_ h).

Definition set_last_query (q : bytes) (h : handshake) : handshake :=
  mk_handshake (state_ h) (mode_ h) (dc_id_ h) (expires_in_ h) (expires_at_ h) (start_time_ h) (timeout_in_ h)
    (auth_key_ h) (server_time_diff_ h) (handshake_salt_ h) (nonce_ h) (server_nonce_ h) (new_nonce_ h) q.

Definition set_timeout_in (now timeout_in : Q) (h : handshake) : handshake :=
  mk_handshake (state_ h) (mode_ h) (dc_id_ h) (expires_in_ h) (expires_at_ h) now timeout_in (auth_key_ h)
    (server_time_diff_ h) (handshake_salt_ h) (nonce_ h) (server_nonce_ h) (new_nonce_ h) (last_query_ h).

Definition clear (now : Q) (h : handshake) : handshake :=
  set_timeout_in now 1000000000 (set_state Start (set_last_query [] h)).

Definition is_ready_for_finish (h : handshake) : bool := match state_ h with Finish => true | _ => false end.

Definition on_finish (now : Q) (h : handshake) : handshake := clear now h.

(** * Computations on a handshake *)

Section handlers.
Context `{MtprotoApi} `{Sha} `{AesIge} `{BigNumOps} `{FactorOps} `{BnPrime} `{Rounding}.
Context {G : Type} `{RandomSource G} `{FastUint64 G} `{BnRand G} {C : Type} `{DhCallback C} {R : Type} `{RsaKeys R}.

Record world := mk_world {
  gen : G;
  dh_callback : option C;
  rsa_keys : R;
  sent : list bytes;
}.

Definition M (A : Type) : Type := handshake * world -> option (outcome A * (handshake * world)).

#[local] Instance M_ret : MRet M := fun A a s => Some (Ok a, s).

#[local] Instance M_bind : MBind M := fun A B f m s =>
  match m s with
  | Some (Ok a, s) => f a s
  | Some (Err e, s) => Some (Err e, s)
  | Some (Crash, s) => Some (Crash, s)
  | None => None
  end.

Definition lift {A} (m : outcome A) : M A := fun s => Some (m, s).

(** [return Status::Error(...)] under a condition. *)
Definition fail_when (b : bool) (message : string) : M unit := lift (fail_if b (Error 0 message)).

Definition read {A} (f : handshake -> A) : M A := fun s => Some (Ok (f s.1), s).

Definition update (f : handshake -> handshake) : M unit := fun s => Some (Ok tt, (f s.1, s.2)).

Definition set_gen (g : G) (w : world) : world := mk_world g (dh_callback w) (rsa_keys w) (sent w).

Definition random_bytes (n : Z) : M bytes := fun s =>
  let '(x, g) := secure_bytes n (gen s.2) in Some (Ok x, (s.1, set_gen g s.2)).

Definition with_gen {A} (f : G -> option (outcome A * G)) : M A := fun s =>
  match f (gen s.2) with
  | Some (r, g) => Some (r, (s.1, set_gen g s.2))
  | None => None
  end.

(** [public_rsa_key->get_rsa_key(...)], with [drop_keys] on an error. *)
Definition rsa_key_for (fingerprints : list Z) : M (RSA * Z) := fun s =>
  match get_rsa_key fingerprints (rsa_keys s.2) with
  | Err e => Some (Err e, (s.1, mk_world (gen s.2) (dh_callback s.2) (drop_keys (rsa_keys s.2)) (sent s.2)))
  | r => Some (r, s)
  end.

Definition run_dh_checks (h : dh_handshake) : M unit := fun s =>
  let '(r, callback) := run_checks false (dh_callback s.2) h in
  Some (r, (s.1, mk_world (gen s.2) callback (rsa_keys s.2) (sent s.2))).

(** [connection->send_no_crypto]. *)
Definition do_send (query : bytes) : M unit := fun s =>
  Some (Ok tt, (s.1, mk_world (gen s.2) (dh_callback s.2) (rsa_keys s.2) (sent s.2 ++ [query]))).

Definition send (query : bytes) : M unit :=
  _ ← update (set_last_query query); do_send query.

(** * [on_res_pq] *)

(** One pass of the padding loop: what is encrypted with RSA. *)
Definition rsa_pad (aes_key data : bytes) : bytes :=
  let data_with_hash := data ++ sha256 (aes_key ++ data) in
  let data_with_hash := reverse (truncate (len data) data_with_hash) ++ substr_from (len data) data_with_hash in
  let aes_iv := zeros 32 in
  let encrypted := aes_ige_encrypt aes_key aes_iv data_with_hash in
  let hash := sha256 encrypted in
  xor_bytes aes_key hash ++ encrypted.

(** The [while (true)] loop. *)
Fixpoint rsa_pad_loop (fuel : nat) (rsa : RSA) (data : bytes) : M bytes :=
  match fuel with
  | O => fun _ => None
  | S fuel =>
      aes_key ← random_bytes 32;
      encrypted ← lift (rsa_encrypt rsa (rsa_pad aes_key data));
      match encrypted with
      | Some encrypted_data => mret encrypted_data
      | None => rsa_pad_loop fuel rsa data
      end
  end.

Definition expired (now : Q) (share : Q) (h : handshake) : bool :=
  Qle_bool (rnd (start_time_ h + rnd (timeout_in_ h * rnd share))) now.

Definition on_res_pq (fuel : nat) (now : Q) (message : bytes) : M unit :=
  late ← read (expired now (6 # 10));
  _ ← fail_when late "Handshake ResPQ timeout expired";
  res_pq ← lift (fetch_result req_pq_multi_fetch message false);
  nonce ← read nonce_;
  _ ← fail_when (bool_decide (rp_nonce res_pq <> nonce)) "Nonce mismatch";
  let server_nonce := rp_server_nonce res_pq in
  _ ← update (fun h => set_nonces nonce server_nonce (new_nonce_ h) h);
  rsa_key ← rsa_key_for (rp_fingerprints res_pq);
  factors ← with_gen (pq_factorize_str (rp_pq res_pq));
  match factors with
  | None => lift (Err (Error 0 "Failed to factorize"))
  | Some (p, q) =>
      new_nonce ← random_bytes 32;
      _ ← update (fun h => set_nonces nonce server_nonce new_nonce h);
      mode ← read mode_;
      dc_id ← read dc_id_;
      expires_in ← read expires_in_;
      data ← match mode with
             | Main => mret (p_q_inner_data_dc (rp_pq res_pq) p q nonce server_nonce new_nonce dc_id)
             | Temp =>
                 _ ← update (set_key_expires_at (rnd (now + inject_Z expires_in)));
                 mret (p_q_inner_data_temp_dc (rp_pq res_pq) p q nonce server_nonce new_nonce dc_id expires_in)
             end;
      let data_size := len data in
      _ ← fail_when (144 <? data_size) "Too big data";
      padding ← random_bytes (192 - data_size);
      encrypted_data ← rsa_pad_loop fuel rsa_key.1 (data ++ padding);
      _ ← send (req_DH_params nonce server_nonce p q rsa_key.2 encrypted_data);
      update (set_state ServerDHParams)
  end.

(** * [on_server_dh_params] *)

(** The decrypted answer: its inner data, when its hash is right. *)
Definition open_answer (answer : bytes) : outcome dh_inner :=
  r ← fetch_binary 20 (new_parser answer);
  let answer_sha1 := r.1 in
  r ← fetch_int r.2;
  _ ← fail_if (negb (r.1 =? server_DH_inner_data_ID)) (Error 0 "Failed to fetch server_DH_inner_data");
  r ← server_DH_inner_data r.2;
  let dh_inner_data := r.1 in
  let answer_parser := r.2 in
  _ ← fail_if (failed answer_parser) (Error 0 "Failed to fetch server_DH_inner_data");
  let pad := left_len answer_parser in
  _ ← fail_if (16 <=? pad) (Error 0 "Too much pad");
  let dh_inner_data_size := len answer - pad - 20 in
  _ ← fail_if (bool_decide (answer_sha1 <> sha1 (substr 20 dh_inner_data_size answer))) (Error 0 "SHA1 mismatch");
  Ok dh_inner_data.

(** What is sent back: hash, data and random padding, encrypted. *)
Definition seal (key iv data padding : bytes) : bytes :=
  aes_ige_encrypt key iv (sha1 data ++ data ++ padding).

Definition on_server_dh_params (now : Q) (message : bytes) : M unit :=
  late ← read (expired now (8 # 10));
  _ ← fail_when late "Handshake DH params timeout expired";
  dh_params ← lift (fetch_result req_DH_params_fetch message false);
  nonce ← read nonce_;
  server_nonce ← read server_nonce_;
  new_nonce ← read new_nonce_;
  _ ← fail_when (bool_decide (dp_nonce dh_params <> nonce)) "Nonce mismatch";
  _ ← fail_when (bool_decide (dp_server_nonce dh_params <> server_nonce)) "Server nonce mismatch";
  _ ← fail_when (negb (Z.land (len (dp_encrypted_answer dh_params)) 15 =? 0)) "Bad padding for encrypted part";
  let tmp_aes := tmp_KDF server_nonce new_nonce in
  let answer := aes_ige_decrypt tmp_aes.1 tmp_aes.2 (dp_encrypted_answer dh_params) in
  inner ← lift (open_answer answer);
  _ ← fail_when (bool_decide (di_nonce inner <> nonce)) "Nonce mismatch";
  _ ← fail_when (bool_decide (di_server_nonce inner <> server_nonce)) "Server nonce mismatch";
  _ ← update (set_time_diff (rnd (inject_Z (di_server_time inner) - now)));
  dh ← with_gen (fun g => Some (set_config (di_g inner) (di_dh_prime inner) new_dh g));
  dh ← lift (set_g_a (di_g_a inner) dh);
  _ ← run_dh_checks dh;
  g_b ← lift (get_g_b dh);
  auth_key_params ← lift (gen_key dh);
  let data := client_DH_inner_data nonce server_nonce 0 g_b in
  let encrypted_data_size := 20 + len data in
  let encrypted_data_size_with_pad := Z.land (encrypted_data_size + 15) (-16) in
  padding ← random_bytes (encrypted_data_size_with_pad - encrypted_data_size);
  _ ← send (set_client_DH_params nonce server_nonce (seal tmp_aes.1 tmp_aes.2 data padding));
  mode ← read mode_;
  expires_at ← read expires_at_;
  let key := mk_key_state (mk_AuthKey (uint64 auth_key_params.1) auth_key_params.2) false true 0 0 0 in
  let key := match mode with Temp => set_expires_at expires_at key | Main => key end in
  let key := set_created_at (inject_Z (di_server_time inner)) key in
  let salt := Z.lxor (le_load (substr 0 8 new_nonce)) (le_load (substr 0 8 server_nonce)) in
  _ ← update (set_key key salt);
  update (set_state DHGenResponse).

(** * [on_dh_gen_response] *)

Definition new_nonce_hash1 (new_nonce auth_key : bytes) : bytes :=
  let auth_key_sha1 := sha1 auth_key in
  let new_nonce_hash := sha1 (new_nonce ++ [z2b 1] ++ substr 0 8 auth_key_sha1) in
  substr_from 4 new_nonce_hash.

Definition on_dh_gen_response (message : bytes) : M unit :=
  answer ← lift (fetch_result set_client_DH_params_fetch message false);
  match answer with
  | dh_gen_ok nonce server_nonce hash1 =>
      h ← read (fun h => h);
      _ ← fail_when (bool_decide (nonce <> nonce_ h)) "Nonce mismatch";
      _ ← fail_when (bool_decide (server_nonce <> server_nonce_ h)) "Server nonce mismatch";
      _ ← fail_when (bool_decide (hash1 <> new_nonce_hash1 (new_nonce_ h) (key (auth_key (auth_key_ h)))))
            "New nonce hash mismatch";
      update (set_state Finish)
  | dh_gen_fail _ _ _ => lift (Err (Error 0 "DhGenFail"))
  | dh_gen_retry _ _ _ => lift (Err (Error 0 "DhGenRetry"))
  end.

(** * The state machine *)

Definition on_start (now : Q) : M unit :=
  state ← read state_;
  match state with
  | Start =>
      nonce ← random_bytes 16;
      _ ← update (fun h => set_nonces nonce (server_nonce_ h) (new_nonce_ h) h);
      _ ← send (req_pq_multi nonce);
      update (set_state ResPQ)
  | _ => _ ← update (clear now); lift (Err (Error 0 "on_start called after start "))
  end.

(** A computation of which the status is dropped, [ignore()]. *)
Definition ignore (m : M unit) : M unit := fun s =>
  match m s with
  | Some (Err _, s) => Some (Ok tt, s)
  | r => r
  end.

Definition resume (now : Q) : M unit :=
  state ← read state_;
  last_query ← read last_query_;
  match state with
  | Start => ignore (on_start now)
  | Finish => update (clear now)
  | _ => if len last_query =? 0 then update (clear now) else do_send last_query
  end.

Definition dispatch (fuel : nat) (now : Q) (message : bytes) : M unit :=
  state ← read state_;
  match state with
  | ResPQ => on_res_pq fuel now message
  | ServerDHParams => on_server_dh_params now message
  | DHGenResponse => on_dh_gen_response message
  | _ => lift Crash
  end.

Definition on_message (fuel : nat) (now : Q) (message : bytes) : M unit := fun s =>
  match dispatch fuel now message s with
  | Some (Err e, s) => Some (Err e, (clear now s.1, s.2))
  | r => r
  end.
End handlers.

(** * Reasoning about computations *)

Section frames.
Context `{MtprotoApi} `{Sha} `{AesIge} `{BigNumOps} `{FactorOps} `{BnPrime} `{Rounding}.
Context {G : Type} `{RandomSource G} `{FastUint64 G} `{BnRand G} {C : Type} `{DhCallback C} {R : Type} `{RsaKeys R}.

#[local] Existing Instance M_ret.
#[local] Existing Instance M_bind.

Implicit Types (s t : handshake * world (G := G) (C := C) (R := R)).

(** What only the ends of the handlers change. *)
Record frame s t : Prop := {
  frame_state : state_ t.1 = state_ s.1;
  frame_query : last_query_ t.1 = last_query_ s.1;
  frame_key : auth_key_ t.1 = auth_key_ s.1;
  frame_salt : handshake_salt_ t.1 = handshake_salt_ s.1;
  frame_mode : mode_ t.1 = mode_ s.1;
  frame_sent : sent t.2 = sent s.2;
}.

Lemma frame_refl s : frame s s.
Proof. by split. Qed.

Lemma frame_trans s t u : frame s t -> frame t u -> frame s u.
Proof. intros [] []. split; congruence. Qed.

Definition quiet {A} (m : M A) : Prop := forall s r t, m s = Some (r, t) -> frame s t.

Lemma quiet_ret {A} (a : A) : quiet (mret a : M A).
Proof. intros s r t [= <- <-]. apply frame_refl. Qed.

Lemma quiet_lift {A} (m : outcome A) : quiet (lift m).
Proof. intros s r t [= <- <-]. apply frame_refl. Qed.

Lemma quiet_fail_when b message : quiet (fail_when b message).
Proof. apply quiet_lift. Qed.

Lemma quiet_read {A} (f : handshake -> A) : quiet (read f).
Proof. intros s r t [= <- <-]. apply frame_refl. Qed.

Lemma quiet_random n : quiet (random_bytes n).
Proof. intros s r t. unfold random_bytes. destruct (secure_bytes n (gen s.2)). intros [= <- <-]. by split. Qed.

Lemma quiet_with_gen {A} (f : G -> option (outcome A * G)) : quiet (with_gen f).
Proof. intros s r t. unfold with_gen. destruct (f (gen s.2)) as [[? ?]|]; [|done]. intros [= <- <-]. by split. Qed.

Lemma quiet_rsa_key fs : quiet (rsa_key_for fs).
Proof. intros s r t. unfold rsa_key_for. by destruct (get_rsa_key fs (rsa_keys s.2)); intros [= <- <-]; split. Qed.

Lemma quiet_checks h : quiet (run_dh_checks h).
Proof. intros s r t. unfold run_dh_checks. destruct (run_checks false (dh_callback s.2) h). intros [= <- <-]. by split. Qed.

Lemma quiet_update f :
  (forall h, state_ (f h) = state_ h /\ last_query_ (f h) = last_query_ h /\ auth_key_ (f h) = auth_key_ h /\
     handshake_salt_ (f h) = handshake_salt_ h /\ mode_ (f h) = mode_ h) -> quiet (update f).
Proof. intros Hf s r t [= <- <-]. destruct (Hf s.1) as (? & ? & ? & ? & ?). split; cbn; done. Qed.

Lemma quiet_bind {A B} (m : M A) (f : A -> M B) : quiet m -> (forall a, quiet (f a)) -> quiet (m ≫= f).
Proof.
  intros Hm Hf s r t. unfold mbind, M_bind. destruct (m s) as [[[a|e|] s1]|] eqn:Hms; [| | |done].
  - intros Hb. exact (frame_trans _ _ _ (Hm _ _ _ Hms) (Hf a _ _ _ Hb)).
  - intros [= <- <-]. exact (Hm _ _ _ Hms).
  - intros [= <- <-]. exact (Hm _ _ _ Hms).
Qed.

Lemma quiet_rsa_pad_loop fuel rsa data : quiet (rsa_pad_loop fuel rsa data).
Proof.
  induction fuel as [|fuel IH]; cbn [rsa_pad_loop]; [by intros s r t|].
  apply quiet_bind; [apply quiet_random|]. intros aes_key. apply quiet_bind; [apply quiet_lift|].
  intros [x|]; [apply quiet_ret|apply IH].
Qed.

(** ** Successful computations, step by step *)

Lemma bind_Ok {A B} (m : M A) (f : A -> M B) s b t :
  (m ≫= f) s = Some (Ok b, t) -> exists a s1, m s = Some (Ok a, s1) /\ f a s1 = Some (Ok b, t).
Proof. unfold mbind, M_bind. destruct (m s) as [[[a|e|] s1]|]; [eauto|done..]. Qed.

Lemma lift_Ok {A} (m : outcome A) s a t : lift m s = Some (Ok a, t) -> m = Ok a /\ t = s.
Proof. by intros [= -> <-]. Qed.

Lemma fail_when_Ok b message s u t : fail_when b message s = Some (Ok u, t) -> b = false /\ t = s.
Proof. intros Hf. apply lift_Ok in Hf as [Hf ->]. by apply fail_if_Ok in Hf. Qed.

Lemma read_Ok {A} (f : handshake -> A) s a t : read f s = Some (Ok a, t) -> a = f s.1 /\ t = s.
Proof. by intros [= <- <-]. Qed.

(** A computation that sends one query at its end and moves to a state. *)
Definition emits (next : State) (m : M unit) : Prop := forall s r t, m s = Some (r, t) ->
  match r with
  | Ok _ => state_ t.1 = next /\ exists q, last_query_ t.1 = q /\ sent t.2 = sent s.2 ++ [q]
  | Err _ => frame s t
  | Crash => True
  end.

Lemma emits_bind {A} next (m : M A) (f : A -> M unit) :
  quiet m -> (forall a, emits next (f a)) -> emits next (m ≫= f).
Proof.
  intros Hm Hf s r t. unfold mbind, M_bind. destruct (m s) as [[[a|e|] s1]|] eqn:Hms; [| | |done].
  - intros Hb. specialize (Hm _ _ _ Hms). specialize (Hf _ _ _ _ Hb). destruct r as [u|e|]; [| |done].
    + destruct Hf as (? & q & ? & Hs). split; [done|]. exists q. split; [done|]. by rewrite Hs, (frame_sent _ _ Hm).
    + by eapply frame_trans.
  - intros [= <- <-]. exact (Hm _ _ _ Hms).
  - by intros [= <- <-].
Qed.

Lemma emits_lift_err next e : emits next (lift (Err e)).
Proof. intros s r t [= <- <-]. apply frame_refl. Qed.

(** The last steps of a handler, behind [send]. *)
Lemma emits_send next q (m : M unit) :
  (forall s r t, m s = Some (r, t) -> r = Ok tt /\ state_ t.1 = next /\ last_query_ t.1 = last_query_ s.1 /\
     sent t.2 = sent s.2) ->
  emits next (_ ← send q; m).
Proof.
  intros Hm s r t Hs. cbn in Hs. unfold M_bind, update, do_send in Hs. cbn in Hs.
  apply Hm in Hs as (-> & Hst & Hq & Hse). cbn in *. split; [done|]. by exists q.
Qed.

End frames.

Create HintDb quiet discriminated.
#[export] Hint Resolve quiet_ret quiet_lift quiet_fail_when quiet_read quiet_random quiet_with_gen quiet_rsa_key
  quiet_checks quiet_rsa_pad_loop : quiet.

(** Takes the first step off a successful computation. *)
Ltac step H a s1 H1 := apply bind_Ok in H as (a & s1 & H1 & H).

(** The same for the steps that only read or check. *)
Ltac pure_step H :=
  let a := fresh "a" in let s1 := fresh "s" in let H1 := fresh "Hstep" in
  step H a s1 H1;
  first
    [ apply fail_when_Ok in H1 as [H1 ->]
    | apply read_Ok in H1 as [-> ->]
    | apply lift_Ok in H1 as [H1 ->] ].

(** Peels the computations in front of the last [send]. *)
Ltac emits_quiet :=
  repeat first
    [ apply emits_lift_err
    | apply emits_bind; [solve [auto with quiet | apply quiet_update; done]|intros ?] ].

Section machine.
Context `{MtprotoApi} `{Sha} `{AesIge} `{BigNumOps} `{FactorOps} `{BnPrime} `{Rounding}.
Context {G : Type} `{RandomSource G} `{FastUint64 G} `{BnRand G} {C : Type} `{DhCallback C} {R : Type} `{RsaKeys R}.

#[local] Existing Instance M_ret.
#[local] Existing Instance M_bind.

Implicit Types (s t : handshake * world (G := G) (C := C) (R := R)).

Lemma on_res_pq_emits fuel now message : emits ServerDHParams (on_res_pq (G := G) (C := C) (R := R) fuel now message).
Proof.
  unfold on_res_pq. emits_quiet.
  match goal with |- emits _ (match ?x with _ => _ end) => destruct x as [[p q]|] end; emits_quiet.
  apply emits_bind.
  { match goal with |- quiet (match ?x with _ => _ end) => destruct x end; [apply quiet_ret|].
    apply quiet_bind; [by apply quiet_update|]. intros []. apply quiet_ret. }
  intros data. emits_quiet. apply emits_send. by intros s r t [= <- <-].
Qed.

Lemma on_server_dh_params_emits now message :
  emits DHGenResponse (on_server_dh_params (G := G) (C := C) (R := R) now message).
Proof.
  unfold on_server_dh_params. emits_quiet.
  apply emits_send. by intros s r t [= <- <-].
Qed.

Lemma on_dh_gen_response_quiet message s r t :
  on_dh_gen_response (G := G) (C := C) (R := R) message s = Some (r, t) ->
  sent t.2 = sent s.2 /\
  match r with
  | Ok _ => state_ t.1 = Finish /\ auth_key_ t.1 = auth_key_ s.1 /\ handshake_salt_ t.1 = handshake_salt_ s.1
  | _ => frame s t
  end.
Proof.
  unfold on_dh_gen_response. unfold mbind, M_bind at 1, lift at 1.
  destruct (fetch_result set_client_DH_params_fetch message false) as [a|e|]; [|by intros [= <- <-]; split..].
  destruct a; [|by intros [= <- <-]; split..].
  unfold M_bind, read, fail_when, lift, fail_if. cbn [fst].
  do 3 (destruct (bool_decide _); [by intros [= <- <-]; split|]). by intros [= <- <-].
Qed.

(** ** The keys *)

Lemma neq_false {A} `{EqDecision A} (x y : A) : bool_decide (x <> y) = false -> x = y.
Proof. intros Hb. apply bool_decide_eq_false in Hb. by apply dec_stable. Qed.

Section accepted.
Context `{!MtprotoApiLaws} `{!BigNumLaws} `{!BnRandLaws G} {inv : C -> Prop} `{!DhCallbackLaws C inv}.

(** The numbers of an exchange: the checked ones of the server, the exponent
    that was drawn, the number that is sent and the key. *)
Record exchange (inner : dh_inner) (b : Z) (g_b key : bytes) : Prop := {
  ex_config : good_config (be_load (di_dh_prime inner)) (di_g inner) = true;
  ex_g_a : dh_range (be_load (di_dh_prime inner)) (be_load (di_g_a inner));
  ex_b : 0 <= b < 2 ^ 2048;
  ex_g_b : be_load g_b = uint32 (di_g inner) ^ b mod be_load (di_dh_prime inner);
  ex_g_b_range : dh_range (be_load (di_dh_prime inner)) (be_load g_b);
  ex_key : be_load key = be_load (di_g_a inner) ^ b mod be_load (di_dh_prime inner);
  ex_key_len : len key = 256;
}.

(** The server, which knows the exponent of its number, gets the same key. *)
Lemma exchange_server inner b g_b key a :
  exchange inner b g_b key -> 0 <= a ->
  be_load (di_g_a inner) = uint32 (di_g inner) ^ a mod be_load (di_dh_prime inner) ->
  be_load key = be_load g_b ^ a mod be_load (di_dh_prime inner).
Proof.
  intros [_ _ Hb Hgb _ Hk _] Ha Hga. rewrite Hk, Hgb, Hga, !mod_pow_pow by lia. by rewrite Z.mul_comm.
Qed.

Lemma open_answer_g answer inner : open_answer answer = Ok inner -> - 2 ^ 31 <= di_g inner < 2 ^ 31.
Proof.
  unfold open_answer. intros Ho. simp_outcome.
  eapply inner_g_range. eassumption.
Qed.

(** Steps of the exchange, from [set_config] to [gen_key]. *)
Lemma exchange_steps inner dh dh' (w : world (G := G) (C := C) (R := R)) g1 g_b pair r c' :
  from_option_inv inv (dh_callback w) ->
  set_config (di_g inner) (di_dh_prime inner) new_dh (gen w) = (Ok dh, g1) ->
  - 2 ^ 31 <= di_g inner < 2 ^ 31 ->
  set_g_a (di_g_a inner) dh = Ok dh' ->
  run_checks false (dh_callback w) dh' = (Ok r, c') ->
  get_g_b dh' = Ok g_b -> gen_key dh' = Ok pair ->
  exists b, exchange inner b g_b pair.2 /\ pair.1 = calc_key_id pair.2.
Proof.
  intros Hinv Hset Hg Hga Hrun Hgb Hkey.
  assert (Hr : reachable (G := G) dh) by (eapply ReachConfig; [apply ReachNew|exact Hg|exact Hset]).
  assert (Hr' : reachable (G := G) dh') by (by eapply ReachGa).
  apply set_config_inv in Hset as (b & Hb & Hp & _ & ->).
  unfold set_g_a in Hga. destruct (from_binary (di_g_a inner)) as [g_a| |] eqn:Hfb; [|done..].
  apply bn_from_binary_Ok in Hfb as [-> _]. rewrite Ok_bind in Hga. cbn in Hga. injection Hga as <-.
  pose proof (run_checks_ok (G := G) (inv := inv) _ false (dh_callback w) Hr' eq_refl eq_refl Hinv ltac:(done)) as Hok.
  rewrite Hrun in Hok. destruct r. destruct Hok as (_ & _ & [Hok _] & _). specialize (Hok eq_refl).
  destruct Hok as (_ & Hcfg & Hra & Hrb). cbn in Hcfg, Hra, Hrb. specialize (Hcfg eq_refl).
  pose proof (wf_config _ (reachable_wf _ Hr') eq_refl) as Hconf.
  assert (Hlt : be_load (di_dh_prime inner) < 2 ^ 2048).
  { unfold good_config in Hcfg. apply andb_prop in Hcfg as [Hcfg _]. apply andb_prop in Hcfg as [Hcfg _].
    apply Z.eqb_eq in Hcfg. apply get_num_bits_range in Hcfg; [lia|apply be_load_nonneg|done]. }
  destruct (gen_key_value _ Hconf eq_refl eq_refl Hlt) as (key & Hk & Hl & Hv). rewrite Hk in Hkey.
  injection Hkey as <-. cbn in Hgb. injection Hgb as <-. cbn in Hv.
  pose proof (config_g_b_range _ Hconf) as Hgb. cbn in Hgb.
  exists b. split; [|done]. split; cbn [fst snd]; rewrite ?be_load_binary_min by lia; done.
Qed.

(** An answer that is accepted: the hash of the body, the body, and less than 16
    bytes more.  The body is the constructor's number and the fields of [inner]. *)
Definition opened (answer : bytes) (inner : dh_inner) : Prop :=
  exists fields pad,
    let body := le_store 4 server_DH_inner_data_ID ++ fields in
    answer = sha1 body ++ body ++ pad /\ len pad < 16 /\
    server_DH_inner_data (parsing (truncate 24 answer) (substr_from 24 answer)) =
      Ok (inner, parsing (truncate 24 answer ++ fields) pad).

(** What has been read, unless the parser has run out of bytes. *)
Lemma fetch_binary_alive n pre rest x q :
  1 <= n <= 64 -> len (pre ++ rest) < max_size_t -> fetch_binary n (parsing pre rest) = Ok (x, q) ->
  dead q /\ x = zeros n \/ n <= len rest /\ x = truncate n rest /\ q = parsing (pre ++ truncate n rest) (substr_from n rest).
Proof.
  intros Hn Hlen Hf. pose proof (fetch_binary_follows n Hn pre rest Hlen) as Hv. unfold read_exact in Hv.
  destruct (Z.ltb_spec (len rest) n) as [Hlt|Hge].
  - left. destruct Hv as (v & q' & Hf' & Hd). rewrite Hf in Hf'. injection Hf' as <- <-. split; [done|].
    unfold fetch_binary in Hf. rewrite parsing_at, check_len_at, (proj2 (Z.ltb_lt _ _)), Ok_bind in Hf by done. unfold fetch_unsafe in Hf.
    rewrite peek_dead in Hf; [by injection Hf as <- _| |done|lia|lia|lia]. apply run_out_dead. len_solve.
  - right. rewrite Hf in Hv. destruct Hv as [_ Hv]. injection Hv as -> ->. done.
Qed.

Lemma open_answer_opened answer inner :
  len answer < max_size_t -> open_answer answer = Ok inner -> opened answer inner.
Proof.
  intros Hlen Ho. unfold open_answer in Ho. rewrite new_parser_eq in Ho.
  apply bind_Ok_inv in Ho as ([hash p1] & Hhash & Ho). cbn [fst snd] in Ho. apply bind_Ok_inv in Ho as ([id p2] & Hint & Ho). cbn [fst snd] in Ho.
  apply bind_Ok_inv in Ho as (? & Hid & Ho). apply fail_if_Ok, negb_false_iff, Z.eqb_eq in Hid. subst id.
  apply bind_Ok_inv in Ho as ([i q] & Hin & Ho). cbn [fst snd] in Ho. apply bind_Ok_inv in Ho as (? & Hq & Ho). apply fail_if_Ok in Hq.
  apply bind_Ok_inv in Ho as (? & Hpad & Ho). apply fail_if_Ok, Z.leb_gt in Hpad. apply bind_Ok_inv in Ho as (? & Hsha & Ho). apply fail_if_Ok, neq_false in Hsha.
  injection Ho as <-. apply bind_Ok_inv in Hint as ([word p2'] & Hint & Hid). cbn [fst snd] in Hid. injection Hid as Hid <-.
  assert (Hno : forall y, y = zeros 4 -> int32 (le_load y) = server_DH_inner_data_ID -> False) by (intros ? -> Hz; by vm_compute in Hz).
  apply fetch_binary_alive in Hhash as [[Hd _]|(Hl1 & -> & ->)]; [| |lia|done].
  { destruct (fetch_binary_dead 4 p1 Hd ltac:(lia)) as (q' & Hint' & _). rewrite Hint' in Hint. injection Hint as <- _. by exfalso; eapply Hno. }
  assert (Hs1 : truncate 20 answer ++ substr_from 20 answer = answer) by apply take_drop.
  apply fetch_binary_alive in Hint as [[_ Hx]|(Hl2 & -> & ->)]; [by exfalso; eapply Hno| |lia|by rewrite app_nil_l, Hs1].
  set (id := truncate 4 (substr_from 20 answer)) in *. set (rest := substr_from 4 (substr_from 20 answer)) in *.
  assert (Hs2 : id ++ rest = substr_from 20 answer) by apply take_drop. rewrite app_nil_l in *.
  assert (Hall : answer = (truncate 20 answer ++ id) ++ rest) by by rewrite <- app_assoc, Hs2, Hs1.
  assert (Hl20 : len (truncate 20 answer) = 20) by (unfold truncate; rewrite len_take; lia).
  assert (Hl4 : len id = 4) by (unfold id, truncate; rewrite len_take; lia).
  assert (H24 : truncate 24 answer = truncate 20 answer ++ id /\ substr_from 24 answer = rest).
  { assert (Hl24 : 24%nat = length (truncate 20 answer ++ id)) by (unfold len in Hl20, Hl4; rewrite length_app; lia).
    unfold truncate at 1, substr_from at 1. change (Z.to_nat 24) with 24%nat. rewrite Hall at 1 3. split; [by apply take_app_length'|by apply drop_app_length']. }
  destruct H24 as [H24 H24']. destruct (inner_consumes (truncate 20 answer ++ id) rest (i, q)) as (fields & back & Hr & Hqq); [by rewrite <- Hall|done|done|].
  cbn [snd] in Hqq. subst q. change (left_len (parsing _ back)) with (len back) in *.
  assert (Hid' : id = le_store 4 server_DH_inner_data_ID) by (rewrite <- Hid, le_store_int32; symmetry; apply le_store_load; unfold len in Hl4; lia).
  assert (Hbody : substr 20 (len answer - len back - 20) answer = id ++ fields).
  { rewrite Hall at 2. rewrite Hr, <- app_assoc, app_assoc. rewrite <- (app_assoc _ id), (app_assoc id).
    apply substr_app_mid'; [done|]. rewrite Hall, Hr, !len_app. lia. }
  exists fields, back. cbv zeta. rewrite <- Hid', <- Hbody, <- Hsha, H24, H24', Hbody. split; [|by split].
  by rewrite <- app_assoc, <- Hr, Hs2, Hs1.
Qed.

(** The checks of [on_server_dh_params] that do not compute. *)
Record answer_for (h : handshake) (message : bytes) (inner : dh_inner) : Prop := {
  for_message : exists p, fetch_result req_DH_params_fetch message false = Ok p /\
    dp_nonce p = nonce_ h /\ dp_server_nonce p = server_nonce_ h /\ len (dp_encrypted_answer p) mod 16 = 0 /\
    opened (aes_ige_decrypt (tmp_KDF (server_nonce_ h) (new_nonce_ h)).1 (tmp_KDF (server_nonce_ h) (new_nonce_ h)).2
              (dp_encrypted_answer p)) inner;
  for_nonce : di_nonce inner = nonce_ h;
  for_server_nonce : di_server_nonce inner = server_nonce_ h;
}.

Lemma fetched_answer_len message p :
  len message < max_size_t -> fetch_result req_DH_params_fetch message false = Ok p -> len (dp_encrypted_answer p) <= len message.
Proof.
  intros Hlen Hf. unfold fetch_result in Hf. apply bind_Ok_inv in Hf as (r & Hr & Hf). apply dh_params_len in Hr; [|done].
  rewrite Ok_bind in Hf. destruct (error r.2); [done|]. by injection Hf as <-.
Qed.

Lemma on_server_dh_params_ok `{!AesIgeLaws} now message s u t :
  from_option_inv inv (dh_callback s.2) -> len message < max_size_t ->
  on_server_dh_params now message s = Some (Ok u, t) ->
  exists inner b g_b padding, answer_for s.1 message inner /\ exchange inner b g_b (key (auth_key (auth_key_ t.1))) /\
    sent t.2 = sent s.2 ++ [set_client_DH_params (nonce_ s.1) (server_nonce_ s.1)
      (seal (tmp_KDF (server_nonce_ s.1) (new_nonce_ s.1)).1 (tmp_KDF (server_nonce_ s.1) (new_nonce_ s.1)).2
         (client_DH_inner_data (nonce_ s.1) (server_nonce_ s.1) 0 g_b) padding)] /\
    Transport.id (auth_key (auth_key_ t.1)) = uint64 (calc_key_id (key (auth_key (auth_key_ t.1)))) /\
    handshake_salt_ t.1 = Z.lxor (le_load (substr 0 8 (new_nonce_ s.1))) (le_load (substr 0 8 (server_nonce_ s.1))).
Proof.
  intros Hinv Hlen Hm. unfold on_server_dh_params in Hm. do 9 pure_step Hm.
  do 3 pure_step Hm.
  step Hm v s1 Hupd. injection Hupd as _ <-. step Hm dh s2 Hset. step Hm dh' s3 Hga.
  apply lift_Ok in Hga as [Hga ->]. step Hm v2 s4 Hrun. do 2 pure_step Hm.
  step Hm padding s5 Hpad. step Hm v3 s6 Hsend.
  unfold with_gen in Hset. cbn in Hset.
  destruct (set_config (di_g a4) (di_dh_prime a4) new_dh (gen s.2)) as [o g1] eqn:Hcfg. injection Hset as -> <-.
  unfold run_dh_checks in Hrun. cbn in Hrun.
  destruct (run_checks false (dh_callback s.2) dh') as [r c'] eqn:Hchk. injection Hrun as -> <-.
  unfold random_bytes in Hpad. cbn in Hpad.
  match type of Hpad with context [secure_bytes ?n g1] => destruct (secure_bytes n g1) as [pad g2] end.
  injection Hpad as <- <-. cbn in Hsend. injection Hsend as _ <-. cbn in Hm. injection Hm as _ <-.
  destruct (exchange_steps a4 dh dh' s.2 g1 a7 a8 v2 c' Hinv Hcfg (open_answer_g _ _ Hstep4) Hga Hchk Hstep7 Hstep8)
    as (b & Hex & Hid).
  exists a4, b, a7, pad. cbn. destruct (mode_ s.1); cbn; rewrite <- Hid.
  all: split; [|split; [done|split; [done|split; [done|done]]]].
  all: split; [|by apply neq_false|by apply neq_false].
  all: exists a0; split_and!; [done|by apply neq_false|by apply neq_false|to_prop; by rewrite <- land_15|].
  all: apply open_answer_opened; [|done].
  all: rewrite len_aes_ige_decrypt by (to_prop; by rewrite <- land_15).
  all: eapply Z.le_lt_trans; [eapply fetched_answer_len; eassumption|exact Hlen].
Qed.
(** ** Honest answers *)

Lemma server_id_range : - 2 ^ 31 <= server_DH_inner_data_ID < 2 ^ 31.
Proof. vm_compute. split; congruence. Qed.

(** The bytes [fields] are those of [inner]. *)
Definition fields_of (inner : dh_inner) (fields : bytes) : Prop :=
  forall pre rest, len (pre ++ fields ++ rest) < max_size_t ->
  server_DH_inner_data (parsing pre (fields ++ rest)) = Ok (inner, parsing (pre ++ fields) rest).

(** The answer of the documentation: SHA1(answer) + answer + (0-15 bytes). *)
Definition honest_answer (fields pad : bytes) : bytes :=
  let body := le_store 4 server_DH_inner_data_ID ++ fields in sha1 body ++ body ++ pad.

Lemma open_honest_answer `{!ShaLaws} inner fields pad :
  fields_of inner fields -> len pad < 16 -> len fields < 2 ^ 32 ->
  open_answer (honest_answer fields pad) = Ok inner.
Proof.
  intros Hf Hpad Hlen. unfold open_answer, honest_answer. pose proof (len_nonneg pad). pose proof (len_nonneg fields).
  set (body := le_store 4 server_DH_inner_data_ID ++ fields).
  assert (Hbody : len body = 4 + len fields) by (unfold body; rewrite len_app, len_le_store; lia).
  assert (Htot : len (sha1 body ++ body ++ pad) < max_size_t)
    by (rewrite !len_app, len_sha1, Hbody; unfold max_size_t; lia).
  rewrite new_parser_eq. pose proof (fetch_binary_follows 20 ltac:(lia) [] (sha1 body ++ body ++ pad) Htot) as Hv.
  pose proof (read_exact_front (sha1 body) (body ++ pad)) as Hre. rewrite len_sha1 in Hre.
  rewrite Hre in Hv. destruct Hv as [_ ->]. rewrite Ok_bind.
  cbn [fst snd app]. unfold truncate, substr_from.
  pose proof (len_sha1 body) as Hs1. unfold len in Hs1.
  rewrite (take_app_length' _ _ (Z.to_nat 20)), (drop_app_length' _ _ (Z.to_nat 20)) by lia.
  assert (Hb : body ++ pad = le_store 4 server_DH_inner_data_ID ++ fields ++ pad) by (unfold body; by rewrite <- app_assoc).
  rewrite Hb in *.
  rewrite fetch_int_stored; [|apply server_id_range|exact Htot].
  rewrite Ok_bind. cbn [fst snd]. rewrite Z.eqb_refl. cbn [negb fail_if]. rewrite Ok_bind.
  rewrite Hf by (rewrite <- !app_assoc; exact Htot). rewrite Ok_bind. cbn [fst snd]. rewrite <- Hb.
  change (failed (parsing _ _)) with false. cbn [fail_if]. rewrite Ok_bind. change (left_len (parsing _ _)) with (len pad).
  rewrite (proj2 (Z.leb_gt 16 (len pad))) by lia. cbn [fail_if]. rewrite Ok_bind.
  rewrite (substr_app_mid' 20 _ (sha1 body) body pad).
  - rewrite bool_decide_false by (intros Hn; by apply Hn). done.
  - by rewrite len_sha1.
  - rewrite !len_app, len_sha1. lia.
Qed.

Lemma bind_run {A B} (m : M (G := G) (C := C) (R := R) A) (f : A -> M B) s a s1 :
  m s = Some (Ok a, s1) -> (m ≫= f) s = f a s1.
Proof. intros Hm. unfold mbind, M_bind. by rewrite Hm. Qed.

Lemma fail_when_run b message s : b = false -> fail_when (G := G) (C := C) (R := R) b message s = Some (Ok tt, s).
Proof. by intros ->. Qed.

(** An honest answer to the handshake [h]: the server has the nonces, and the
    key and iv that are derived from them. *)
Record honest (h : handshake) (message : bytes) (inner : dh_inner) : Prop := {
  honest_message : exists fields pad,
    fetch_result req_DH_params_fetch message false =
      Ok (mk_dh_params (nonce_ h) (server_nonce_ h)
            (aes_ige_encrypt (tmp_KDF (server_nonce_ h) (new_nonce_ h)).1 (tmp_KDF (server_nonce_ h) (new_nonce_ h)).2
               (honest_answer fields pad))) /\
    fields_of inner fields /\ len pad < 16 /\ len fields < 2 ^ 32 /\ len (honest_answer fields pad) mod 16 = 0;
  honest_nonce : di_nonce inner = nonce_ h;
  honest_server_nonce : di_server_nonce inner = server_nonce_ h;
  honest_prime : len (di_dh_prime inner) < 2 ^ 31;
  honest_config : good_config (be_load (di_dh_prime inner)) (di_g inner) = true;
  honest_g_a_len : len (di_g_a inner) < 2 ^ 31;
  honest_g_a : dh_range (be_load (di_dh_prime inner)) (be_load (di_g_a inner));
}.

Lemma good_config_range prime g : 0 <= prime -> good_config prime g = true -> 0 < prime < 2 ^ 2048.
Proof.
  intros Hp Hg. unfold good_config in Hg. apply andb_prop in Hg as [Hg _]. apply andb_prop in Hg as [Hg _].
  apply Z.eqb_eq in Hg. apply get_num_bits_range in Hg as [Hl Hu]; [|done..]. split; [|done].
  eapply Z.lt_le_trans; [|exact Hl]. by apply Z.pow_pos_nonneg.
Qed.

Lemma from_binary_run (x : bytes) : len x < 2 ^ 31 -> from_binary x = Ok (be_load x).
Proof. intros Hs. unfold from_binary. by rewrite (proj2 (Z.ltb_lt _ _)) by done. Qed.

Lemma set_config_run g_int prime_str h (g : G) :
  len prime_str < 2 ^ 31 -> 0 < be_load prime_str ->
  set_config g_int prime_str h g =
    (Ok (mk_dh prime_str (be_load prime_str) (uint32 g_int) g_int (bn_rand 2048 g).1
           (uint32 g_int ^ (bn_rand 2048 g).1 mod be_load prime_str) (g_a_ h) (g_a_hash_ h) (has_g_a_hash_ h)
           (ok_g_a_hash_ h) true (has_g_a_ h)), (bn_rand 2048 g).2).
Proof.
  intros Hl Hp. unfold set_config. rewrite from_binary_run by done.
  pose proof (bn_rand_range 2048 g ltac:(lia)) as Hb. destruct (bn_rand 2048 g) as [b g1]. cbn [fst snd] in *.
  unfold big_mod_exp. rewrite (proj2 (Z.eqb_neq _ _)) by lia. cbn [negb check]. rewrite !Ok_bind.
  by rewrite mod_exp_spec by lia.
Qed.

(** The exponent of the client: the number that comes next. *)
Definition next_b (w : world (G := G) (C := C) (R := R)) : Z := (bn_rand 2048 (gen w)).1.

(** The steps of an honest exchange. *)
Lemma exchange_run inner (w : world (G := G) (C := C) (R := R)) :
  from_option_inv inv (dh_callback w) -> - 2 ^ 31 <= di_g inner < 2 ^ 31 ->
  len (di_dh_prime inner) < 2 ^ 31 -> len (di_g_a inner) < 2 ^ 31 ->
  good_config (be_load (di_dh_prime inner)) (di_g inner) = true ->
  dh_range (be_load (di_dh_prime inner)) (be_load (di_g_a inner)) ->
  dh_range (be_load (di_dh_prime inner)) (uint32 (di_g inner) ^ next_b w mod be_load (di_dh_prime inner)) ->
  exists h1 g1 h2 c' g_b pair, set_config (di_g inner) (di_dh_prime inner) new_dh (gen w) = (Ok h1, g1) /\
    set_g_a (di_g_a inner) h1 = Ok h2 /\ run_checks false (dh_callback w) h2 = (Ok tt, c') /\
    get_g_b h2 = Ok g_b /\ gen_key h2 = Ok pair.
Proof.
  intros Hinv Hg Hpl Hgal Hcfg Hga Hrange. destruct (good_config_range _ _ (be_load_nonneg _) Hcfg) as [Hpos Hlt].
  pose proof (set_config_run (di_g inner) (di_dh_prime inner) new_dh (gen w) Hpl Hpos) as Hset.
  set (h1 := mk_dh _ _ _ _ _ _ _ _ _ _ _ _) in Hset.
  assert (Hr1 : reachable (G := G) h1) by (eapply ReachConfig; [apply ReachNew|exact Hg|exact Hset]).
  assert (Hset2 : exists h2, set_g_a (di_g_a inner) h1 = Ok h2 /\ has_g_a_ h2 = true /\ has_config_ h2 = true /\
    has_g_a_hash_ h2 = false /\ prime_ h2 = be_load (di_dh_prime inner) /\ g_int_ h2 = di_g inner /\
    g_a_ h2 = be_load (di_g_a inner) /\
    g_b_ h2 = uint32 (di_g inner) ^ next_b w mod be_load (di_dh_prime inner)).
  { unfold set_g_a. rewrite from_binary_run by done. rewrite Ok_bind. by eexists. }
  destruct Hset2 as (h2 & Hset2 & Ha2 & Hc2 & Hh2 & Hp2 & Hg2 & Hga2 & Hgb2). clearbody h1.
  assert (Hr2 : reachable (G := G) h2) by (by eapply ReachGa).
  pose proof (run_checks_ok (G := G) (inv := inv) h2 false (dh_callback w) Hr2 Ha2 Hc2 Hinv ltac:(done)) as Hchk.
  destruct (run_checks false (dh_callback w) h2) as [r c'] eqn:Hrun. destruct Hchk as (_ & _ & [_ Hok] & _).
  rewrite Hok in Hrun by (rewrite Hp2, Hg2, Hga2, Hgb2, Hh2; done).
  destruct (gen_key_value h2 (wf_config _ (reachable_wf _ Hr2) Hc2) Hc2 Ha2 ltac:(by rewrite Hp2)) as (key & Hk & _).
  exists h1, (bn_rand 2048 (gen w)).2, h2, c', (to_binary_min (g_b_ h2)), (calc_key_id key, key).
  do 3 (split; [done|]). split; [unfold get_g_b; by rewrite Hc2|done].
Qed.

Lemma honest_accepted `{!ShaLaws} `{!AesIgeLaws} now message s inner :
  from_option_inv inv (dh_callback s.2) -> expired now (8 # 10) s.1 = false -> honest s.1 message inner ->
  - 2 ^ 31 <= di_g inner < 2 ^ 31 ->
  dh_range (be_load (di_dh_prime inner)) (uint32 (di_g inner) ^ next_b s.2 mod be_load (di_dh_prime inner)) ->
  exists t, on_server_dh_params now message s = Some (Ok tt, t) /\ state_ t.1 = DHGenResponse.
Proof.
  intros Hinv Hexp [(fields & pad & Hfetch & Hfields & Hpad & Hlf & Hmod) Hn Hsn Hpl Hcfg Hgal Hga] Hg Hrange.
  destruct (exchange_run inner s.2 Hinv Hg Hpl Hgal Hcfg Hga Hrange)
    as (h1 & g1 & h2 & c' & g_b & pair & Hset & Hset2 & Hrun & Hgb & Hkey).
  set (p := mk_dh_params _ _ _) in Hfetch. unfold on_server_dh_params.
  erewrite (bind_run (read _)) by reflexivity. erewrite bind_run by (by apply fail_when_run).
  erewrite (bind_run (lift _)) by (unfold lift; rewrite Hfetch; reflexivity).
  do 3 (erewrite (bind_run (read _)) by reflexivity).
  erewrite bind_run by (apply fail_when_run, bool_decide_false; by intros []).
  erewrite bind_run by (apply fail_when_run, bool_decide_false; by intros []).
  assert (Henc : Z.land (len (dp_encrypted_answer p)) 15 = 0)
    by (rewrite land_15; cbn [p dp_encrypted_answer]; by rewrite len_aes_ige_encrypt).
  erewrite bind_run by (apply fail_when_run; by rewrite Henc). cbv zeta.
  cbn [p dp_encrypted_answer]. rewrite aes_ige_roundtrip by done.
  erewrite (bind_run (lift _)) by (unfold lift; rewrite (open_honest_answer inner fields pad Hfields Hpad Hlf); reflexivity).
  erewrite bind_run by (apply fail_when_run, bool_decide_false; by rewrite Hn; intros []).
  erewrite bind_run by (apply fail_when_run, bool_decide_false; by rewrite Hsn; intros []).
  erewrite bind_run by reflexivity. cbn [fst snd].
  erewrite (bind_run (with_gen _)) by (unfold with_gen; cbn [snd]; rewrite Hset; reflexivity).
  erewrite (bind_run (lift _)) by (unfold lift; rewrite Hset2; reflexivity).
  erewrite bind_run by (unfold run_dh_checks; cbn [snd dh_callback set_gen]; rewrite Hrun; reflexivity).
  erewrite (bind_run (lift _)) by (unfold lift; rewrite Hgb; reflexivity).
  erewrite (bind_run (lift _)) by (unfold lift; rewrite Hkey; reflexivity). cbv zeta.
  set (data := client_DH_inner_data _ _ _ _). set (w1 := set_gen _ s.2).
  match goal with |- context [random_bytes ?n] => destruct (secure_bytes n (gen w1)) as [pad' g2] eqn:Hsec end.
  erewrite bind_run by (unfold random_bytes; cbn [snd gen]; rewrite Hsec; reflexivity).
  eexists. split; reflexivity.
Qed.
End accepted.

(** ** The padded data *)

(** What the server computes from the 256 bytes that it has decrypted: the
    data, when the hash is right. *)
Definition rsa_unpad (plain : bytes) : option bytes :=
  let encrypted := substr_from 32 plain in
  let aes_key := xor_bytes (truncate 32 plain) (sha256 encrypted) in
  let data_with_hash := aes_ige_decrypt aes_key (zeros 32) encrypted in
  let data := reverse (truncate 192 data_with_hash) in
  if decide (substr_from 192 data_with_hash = sha256 (aes_key ++ data)) then Some data else None.

Lemma take_front n (a b : bytes) : n = len a -> truncate n (a ++ b) = a.
Proof. intros ->. unfold truncate, len. by rewrite Nat2Z.id, take_app_length. Qed.

Lemma drop_front n (a b : bytes) : n = len a -> substr_from n (a ++ b) = b.
Proof. intros ->. unfold substr_from, len. by rewrite Nat2Z.id, drop_app_length. Qed.

Lemma rsa_pad_spec `{!ShaLaws} `{!AesIgeLaws} aes_key data :
  len aes_key = 32 -> len data = 192 ->
  len (rsa_pad aes_key data) = 256 /\ rsa_unpad (rsa_pad aes_key data) = Some data.
Proof.
  intros Hk Hd. unfold rsa_pad. rewrite take_front, drop_front by done.
  set (dwh := reverse data ++ sha256 (aes_key ++ data)).
  assert (Hl : len dwh = 224) by (unfold dwh; rewrite len_app, len_reverse, len_sha256; lia).
  set (enc := aes_ige_encrypt aes_key (zeros 32) dwh).
  assert (He : len enc = 224) by (unfold enc; by rewrite len_aes_ige_encrypt; rewrite ?Hl).
  assert (Hx : length aes_key = length (sha256 enc)) by (pose proof (len_sha256 enc); unfold len in *; lia).
  assert (Hxl : len (xor_bytes aes_key (sha256 enc)) = 32) by (unfold len in *; rewrite length_xor_bytes; lia).
  split; [rewrite len_app; lia|]. unfold rsa_unpad. rewrite take_front, drop_front by done.
  rewrite xor_bytes_cancel by done. unfold enc. rewrite aes_ige_roundtrip by (by rewrite Hl). unfold dwh.
  rewrite take_front, drop_front by (by rewrite len_reverse). rewrite reverse_involutive. by rewrite decide_True.
Qed.

(** The ciphertext of a plaintext that is smaller than the modulus. *)
Definition rsa_encrypted (rsa : RSA) (plain encrypted : bytes) : Prop :=
  len plain = 256 /\ len encrypted = 256 /\ be_load plain < n_ rsa /\
  be_load encrypted = be_load plain ^ e_ rsa mod n_ rsa.

Lemma rsa_encrypt_Ok `{!BigNumLaws} rsa from to :
  0 <= e_ rsa -> rsa_encrypt rsa from = Ok (Some to) -> rsa_encrypted rsa from to.
Proof.
  intros He Hr. unfold rsa_encrypt in Hr. destruct (Z.eqb_spec (len from) 256) as [Hl|]; [|done]. cbn [check] in Hr.
  rewrite Ok_bind in Hr. destruct ((2041 <=? _) && (_ <=? 2048)) eqn:Hb; [|done]. cbn [check] in Hr. rewrite Ok_bind in Hr.
  rewrite from_binary_run, Ok_bind in Hr by (rewrite Hl; lia).
  destruct (Z.leb_spec (n_ rsa) (be_load from)) as [|Hlt]; [done|]. pose proof (be_load_nonneg from) as Hp.
  unfold big_mod_exp in Hr. rewrite (proj2 (Z.eqb_neq _ _)) in Hr by lia. cbn [negb check] in Hr.
  rewrite !Ok_bind, mod_exp_spec in Hr by lia.
  pose proof (Z.mod_pos_bound (be_load from ^ e_ rsa) (n_ rsa) ltac:(lia)) as Hm.
  unfold to_binary in Hr. destruct (Z.leb_spec (len (to_binary_min (be_load from ^ e_ rsa mod n_ rsa))) 256); [|done].
  cbn [check] in Hr. rewrite !Ok_bind in Hr. injection Hr as <-. split; [done|]. split.
  - rewrite len_app, len_zeros by lia. lia.
  - rewrite be_load_zeros, be_load_binary_min by lia. done.
Qed.

Lemma rsa_pad_loop_Ok `{!BigNumLaws} `{!RandomLaws G} `{!ShaLaws} `{!AesIgeLaws} fuel rsa data s encrypted t :
  0 <= e_ rsa -> len data = 192 -> rsa_pad_loop fuel rsa data s = Some (Ok encrypted, t) ->
  exists plain, rsa_encrypted rsa plain encrypted /\ rsa_unpad plain = Some data.
Proof.
  intros He Hd. revert s. induction fuel as [|fuel IH]; intros s Hl; [done|]. cbn [rsa_pad_loop] in Hl.
  step Hl aes_key s1 Hk. step Hl enc s2 Henc. apply lift_Ok in Henc as [Henc ->].
  assert (Hkl : len aes_key = 32).
  { unfold random_bytes in Hk. pose proof (len_secure_bytes 32 (gen s.2) ltac:(lia)) as Hlen.
    destruct (secure_bytes 32 (gen s.2)). by injection Hk as <- _. }
  destruct enc as [enc|]; [|by eapply IH]. injection Hl as <- <-. apply rsa_encrypt_Ok in Henc; [|done].
  destruct (rsa_pad_spec aes_key data Hkl Hd) as [_ Hu]. eauto.
Qed.

(** What the client encrypts for the server. *)
Definition inner_data (h : handshake) (pq p q : bytes) : bytes :=
  match mode_ h with
  | Main => p_q_inner_data_dc pq p q (nonce_ h) (server_nonce_ h) (new_nonce_ h) (dc_id_ h)
  | Temp => p_q_inner_data_temp_dc pq p q (nonce_ h) (server_nonce_ h) (new_nonce_ h) (dc_id_ h) (expires_in_ h)
  end.

(** The query that answers [ResPQ]. *)
Record res_pq_answer (s t : handshake * world (G := G) (C := C) (R := R)) (r : res_pq) (rsa : RSA) (fingerprint : Z)
  (p q : bytes) : Prop := {
  ans_nonce : rp_nonce r = nonce_ s.1 /\ nonce_ t.1 = nonce_ s.1 /\ server_nonce_ t.1 = rp_server_nonce r;
  ans_key : get_rsa_key (rp_fingerprints r) (rsa_keys s.2) = Ok (rsa, fingerprint);
  ans_factors : factors (be_load (rp_pq r)) (p, q);
  ans_sent : exists encrypted plain padding,
    sent t.2 = sent s.2 ++ [req_DH_params (nonce_ s.1) (rp_server_nonce r) p q fingerprint encrypted] /\
    rsa_encrypted rsa plain encrypted /\ rsa_unpad plain = Some (inner_data t.1 (rp_pq r) p q ++ padding);
}.

Lemma fetch_result_Ok {T} (fetch : tl_parser -> outcome (T * tl_parser)) message check_end x :
  fetch_result fetch message check_end = Ok x -> exists p, fetch (new_parser message) = Ok (x, p).
Proof.
  unfold fetch_result. destruct (fetch (new_parser message)) as [[y p]| |]; [|done..]. rewrite Ok_bind. cbn [fst snd].
  destruct (if check_end then fetch_end p else Ok p) as [p'| |]; [|done..]. rewrite Ok_bind.
  destruct (error p'); [done|]. intros [= ->]. eauto.
Qed.

Section res_pq_ok.
Context `{!BigNumLaws} `{!FactorLaws} `{!RandomLaws G} `{!FastUint64Laws G} `{!ShaLaws} `{!AesIgeLaws}.
Context `{!MtprotoApiLaws}.

Lemma rsa_key_for_Ok fs s r t :
  rsa_key_for fs s = Some (Ok r, t) -> get_rsa_key fs (rsa_keys s.2) = Ok r /\ t = s.
Proof.
  unfold rsa_key_for. destruct (get_rsa_key fs (rsa_keys s.2)); [|done..]. by intros [= <- <-].
Qed.

(** The last part of [on_res_pq]: from the data to the query. *)
Lemma res_pq_finish fuel data rsa fp nonce server_nonce p q s u t :
  0 <= e_ rsa ->
  (_ ← fail_when (144 <? len data) "Too big data";
   padding ← random_bytes (192 - len data);
   encrypted_data ← rsa_pad_loop fuel rsa (data ++ padding);
   _ ← send (req_DH_params nonce server_nonce p q fp encrypted_data);
   update (set_state ServerDHParams)) s = Some (Ok u, t) ->
  (exists encrypted plain padding,
     sent t.2 = sent s.2 ++ [req_DH_params nonce server_nonce p q fp encrypted] /\
     rsa_encrypted rsa plain encrypted /\ rsa_unpad plain = Some (data ++ padding)) /\
  nonce_ t.1 = nonce_ s.1 /\ server_nonce_ t.1 = server_nonce_ s.1 /\
  forall pq p q, inner_data t.1 pq p q = inner_data s.1 pq p q.
Proof.
  intros He Hm. pure_step Hm. apply Z.ltb_ge in Hstep. step Hm padding s1 Hpad.
  assert (Hl : len padding = 192 - len data /\ s1.1 = s.1 /\ sent s1.2 = sent s.2).
  { unfold random_bytes in Hpad. pose proof (len_secure_bytes (192 - len data) (gen s.2) ltac:(lia)) as Hlen.
    destruct (secure_bytes (192 - len data) (gen s.2)). by injection Hpad as <- <-. }
  destruct Hl as (Hl & Hh1 & Hs1). step Hm enc s2 Henc.
  assert (Hq : sent s2.2 = sent s1.2 /\ s2.1 = s1.1).
  { clear -Henc. revert s1 Henc. induction fuel as [|fuel IH]; intros s1 Henc; [done|]. cbn [rsa_pad_loop] in Henc.
    step Henc k s3 Hk. step Henc e s4 He. apply lift_Ok in He as [_ ->].
    assert (Hs3 : sent s3.2 = sent s1.2 /\ s3.1 = s1.1).
    { unfold random_bytes in Hk. destruct (secure_bytes 32 (gen s1.2)). by injection Hk as _ <-. }
    destruct Hs3 as [<- <-]. destruct e; [by injection Henc as _ <-|by apply IH]. }
  destruct Hq as [Hs2 Hh2].
  apply rsa_pad_loop_Ok in Henc as (plain & Henc & Hun); [|done|rewrite len_app; lia].
  cbn in Hm. injection Hm as _ <-. cbn. rewrite Hs2, Hs1, Hh2, Hh1. split; [|done].
  exists enc, plain, padding. done.
Qed.

Lemma on_res_pq_ok fuel now message s u t :
  (forall fs rsa f, get_rsa_key fs (rsa_keys s.2) = Ok (rsa, f) -> 0 <= e_ rsa) ->
  len message < 2 ^ 31 -> on_res_pq fuel now message s = Some (Ok u, t) ->
  exists r rsa fp p q, fetch_result req_pq_multi_fetch message false = Ok r /\ res_pq_answer s t r rsa fp p q.
Proof.
  intros rsa_ok Hlen Hm. unfold on_res_pq in Hm. do 5 pure_step Hm. rename a0 into r.
  apply neq_false in Hstep1. pose proof Hstep0 as Hfetch. apply fetch_result_Ok in Hfetch as [p0 Hfetch].
  apply res_pq_len in Hfetch; [|unfold max_size_t; lia]. cbn in Hfetch.
  step Hm v s1 Hupd. injection Hupd as _ <-. step Hm rk s2 Hkey. apply rsa_key_for_Ok in Hkey as [Hkey ->].
  step Hm fs s3 Hfac. unfold with_gen in Hfac. cbn [fst snd] in Hfac.
  destruct (pq_factorize_str (rp_pq r) (gen s.2)) as [[o g1]|] eqn:Hpq; [|done]. injection Hfac as -> <-.
  destruct fs as [[p q]|]; [|done]. apply pq_factorize_str_factors in Hpq; [|lia].
  step Hm new_nonce s4 Hnew. unfold random_bytes in Hnew. cbn [fst snd] in Hnew.
  destruct (secure_bytes 32 (gen (set_gen g1 s.2))) as [nn g2]. injection Hnew as -> <-.
  step Hm v2 s5 Hupd. injection Hupd as _ <-. do 3 pure_step Hm. step Hm data s6 Hdata.
  destruct rk as [rsa fp]. cbn [fst snd] in Hm, Hkey, Hdata.
  exists r, rsa, fp, p, q. split; [done|].
  assert (Hd : data = inner_data s6.1 (rp_pq r) p q /\ nonce_ s6.1 = nonce_ s.1 /\
    server_nonce_ s6.1 = rp_server_nonce r /\ sent s6.2 = sent s.2).
  { unfold inner_data. destruct (mode_ (set_nonces _ _ _ _)) eqn:Hmode; injection Hdata as <- <-; cbn in Hmode |- *;
      by rewrite Hmode. }
  destruct Hd as (-> & Hn & Hsn & Hsent). apply res_pq_finish in Hm; [|by eapply rsa_ok].
  destruct Hm as [(enc & plain & padding & Hs & Henc & Hun) (Hnt & Hsnt & Hin)].
  split; [by rewrite Hnt, Hsnt, Hn, Hsn|done|done|].
  exists enc, plain, padding. rewrite Hin. by rewrite Hs, Hsent.
Qed.
End res_pq_ok.
End machine.
