(* ===== verification/HandshakeSpec.v ===== *)
(** What the handshake guarantees: theorems on [AuthKeyHandshake::on_message],
    state by state, for any generated code that meets [MtprotoApiLaws]; then
    [SchemeApi], the messages of [mtproto_api.tl] written with [TlParser] and
    the storers, which meets them, and concrete runs. *)
From Stdlib Require Import QArith.
From S2P Require Import Prelude Bytes Random Tl BigNum Factorize Crypto DhHandshake Kdf Transport AuthData Handshake.
#[local] Open Scope Z_scope.

Section guarantees.
Context `{MtprotoApiLaws} `{ShaLaws} `{AesIgeLaws} `{BigNumLaws} `{FactorLaws} `{BnPrime} `{Rounding}.
Context {G : Type} `{RandomLaws G} `{FastUint64Laws G} `{BnRandLaws G}.
Context {C : Type} {inv : C -> Prop} `{DhCallbackLaws C inv} {R : Type} `{RsaKeys R}.

Implicit Types (s t : handshake * world (G := G) (C := C) (R := R)).

Lemma on_message_Ok fuel now message s u t :
  on_message fuel now message s = Some (Ok u, t) -> dispatch fuel now message s = Some (Ok u, t).
Proof. unfold on_message. by destruct (dispatch fuel now message s) as [[[]]|]. Qed.

(** C15: In [ResPQ]: when [AuthKeyHandshake::on_message] accepts a message, it
    has the client's nonce, the ring has a key for one of its fingerprints, the
    two numbers that are sent are a factorization of [pq], and the server that
    has the private key gets from the encrypted data exactly the inner data with
    the new nonce. *)
Theorem res_pq_query fuel now message s u t :
  (forall fs rsa f, get_rsa_key fs (rsa_keys s.2) = Ok (rsa, f) -> 0 <= e_ rsa) ->
  len message < 2 ^ 31 -> state_ s.1 = ResPQ -> on_message fuel now message s = Some (Ok u, t) ->
  exists r rsa fingerprint p q, fetch_result req_pq_multi_fetch message false = Ok r /\
    rp_nonce r = nonce_ s.1 /\ server_nonce_ t.1 = rp_server_nonce r /\
    get_rsa_key (rp_fingerprints r) (rsa_keys s.2) = Ok (rsa, fingerprint) /\
    be_load p * be_load q = be_load (rp_pq r) /\
    exists encrypted plain padding,
      sent t.2 = sent s.2 ++ [req_DH_params (nonce_ s.1) (rp_server_nonce r) p q fingerprint encrypted] /\
      rsa_encrypted rsa plain encrypted /\ rsa_unpad plain = Some (inner_data t.1 (rp_pq r) p q ++ padding).
Proof.
  intros Hrsa Hlen Hst Hm. apply on_message_Ok in Hm. unfold dispatch in Hm. step Hm v s1 Hr. apply read_Ok in Hr as [-> ->].
  rewrite Hst in Hm. apply on_res_pq_ok in Hm as (r & rsa & fp & p & q & Hfetch & [(Hn & _ & Hsn) Hk [Hpq _] Hs]); [|done..].
  exists r, rsa, fp, p, q. done.
Qed.

(** C2: In [ServerDHParams]: when [AuthKeyHandshake::on_message] accepts a
    message shorter than 2^64 - 1 bytes, it has both nonces; its answer decrypts
    to the SHA1 hash of a body, the body, and less than 16 bytes more, where the
    body is the number of [server_DH_inner_data] and the bytes that its
    constructor reads; what is read has both nonces; the configuration is good
    and both numbers are in the range; the key is 256 bytes, the power of the
    server's number, and its id and the salt are those of the documentation; and
    the server, from the number that is sent, computes the same key. *)
Theorem dh_params_accepted fuel now message s u t :
  from_option_inv inv (dh_callback s.2) -> len message < max_size_t -> state_ s.1 = ServerDHParams ->
  on_message fuel now message s = Some (Ok u, t) ->
  let key := key (auth_key (auth_key_ t.1)) in
  exists inner b g_b padding, answer_for s.1 message inner /\ exchange inner b g_b key /\
    sent t.2 = sent s.2 ++ [set_client_DH_params (nonce_ s.1) (server_nonce_ s.1)
      (seal (tmp_KDF (server_nonce_ s.1) (new_nonce_ s.1)).1 (tmp_KDF (server_nonce_ s.1) (new_nonce_ s.1)).2
         (client_DH_inner_data (nonce_ s.1) (server_nonce_ s.1) 0 g_b) padding)] /\
    Transport.id (auth_key (auth_key_ t.1)) = uint64 (calc_key_id key) /\
    handshake_salt_ t.1 = Z.lxor (le_load (substr 0 8 (new_nonce_ s.1))) (le_load (substr 0 8 (server_nonce_ s.1))) /\
    forall a, 0 <= a ->
      be_load (di_g_a inner) = uint32 (di_g inner) ^ a mod be_load (di_dh_prime inner) ->
      be_load key = be_load g_b ^ a mod be_load (di_dh_prime inner).
Proof.
  intros Hinv Hlen Hst Hm. apply on_message_Ok in Hm. unfold dispatch in Hm. step Hm v s1 Hr. apply read_Ok in Hr as [-> ->].
  rewrite Hst in Hm. apply (on_server_dh_params_ok (inv := inv)) in Hm; [|done..].
  destruct Hm as (inner & b & g_b & padding & Hans & Hex & Hs & Hid & Hsalt).
  exists inner, b, g_b, padding. repeat (split; [done|]). intros a Ha Hga. by eapply exchange_server.
Qed.

Lemma honest_message fuel now message s inner :
  from_option_inv inv (dh_callback s.2) -> state_ s.1 = ServerDHParams -> expired now (8 # 10) s.1 = false ->
  honest s.1 message inner -> - 2 ^ 31 <= di_g inner < 2 ^ 31 ->
  dh_range (be_load (di_dh_prime inner)) (uint32 (di_g inner) ^ next_b s.2 mod be_load (di_dh_prime inner)) ->
  exists t, on_message fuel now message s = Some (Ok tt, t) /\ state_ t.1 = DHGenResponse.
Proof.
  intros Hinv Hst Hexp Hh Hg Hr. destruct (honest_accepted (inv := inv) now message s inner Hinv Hexp Hh Hg Hr) as (t & Ht & Hs).
  exists t. split; [|done]. unfold on_message, dispatch. erewrite bind_run by reflexivity. by rewrite Hst, Ht.
Qed.

(** C28: An honest answer that comes in time is accepted by
    [on_server_dh_params], unless the exponent that was drawn gives a number
    outside of the range. *)
Theorem honest_exchange fuel now message s inner :
  from_option_inv inv (dh_callback s.2) -> state_ s.1 = ServerDHParams -> expired now (8 # 10) s.1 = false ->
  honest s.1 message inner -> - 2 ^ 31 <= di_g inner < 2 ^ 31 ->
  dh_range (be_load (di_dh_prime inner)) (uint32 (di_g inner) ^ next_b s.2 mod be_load (di_dh_prime inner)) ->
  exists t, on_message fuel now message s = Some (Ok tt, t) /\ state_ t.1 = DHGenResponse.
Proof. apply honest_message. Qed.

(** A field of the answer that is compared with [y]: an error unless it is [y]. *)
Ltac field_check x y :=
  destruct (decide (x = y)) as [->|];
  [ rewrite bool_decide_false by (intros []; done)
  | rewrite bool_decide_true by done; do 2 eexists; split; [done|]; split; [split; [done|by intros [= ?]]|done] ].

(** In [DHGenResponse]: the handshake finishes exactly when the message is
    a [dh_gen_ok] with both nonces and the hash that proves that the server has
    the same key. *)
Theorem dh_gen_finishes fuel now message s :
  state_ s.1 = DHGenResponse ->
  exists r t, on_message fuel now message s = Some (r, t) /\
    (r = Ok tt <->
     fetch_result set_client_DH_params_fetch message false =
       Ok (dh_gen_ok (nonce_ s.1) (server_nonce_ s.1)
             (substr_from 4 (sha1 (new_nonce_ s.1 ++ [z2b 1] ++ substr 0 8 (sha1 (key (auth_key (auth_key_ s.1))))))))) /\
    (r = Ok tt -> state_ t.1 = Finish).
Proof.
  intros Hst. unfold on_message, dispatch. erewrite bind_run by reflexivity. rewrite Hst. unfold on_dh_gen_response.
  unfold mbind, M_bind at 1, lift at 1. destruct (fetch_result set_client_DH_params_fetch message false) as [a|e|].
  2:{ do 2 eexists. split; [done|]. split; done. }
  2:{ do 2 eexists. split; [done|]. split; done. }
  destruct a as [n sn hash|n sn hash|n sn hash]; [|do 2 eexists; split; [done|]; split; done..].
  unfold M_bind, read, fail_when, lift, fail_if, update. cbn [fst].
  change (new_nonce_hash1 ?x ?y) with (substr_from 4 (sha1 (x ++ [z2b 1] ++ substr 0 8 (sha1 y)))).
  field_check n (nonce_ s.1). field_check sn (server_nonce_ s.1).
  field_check hash (substr_from 4 (sha1 (new_nonce_ s.1 ++ [z2b 1] ++ substr 0 8 (sha1 (key (auth_key (auth_key_ s.1))))))).
  do 2 eexists. split; [done|]. split; done.
Qed.

(** C22: One message to [AuthKeyHandshake::on_message], as an observer sees it:
    a message that is accepted moves the state machine one step forward and,
    except in the last step, sends one query, which is remembered; the last step
    and every refused message send nothing and leave key and salt alone, and a
    refused message puts the machine back to its start without a pending query.
    *)
Theorem handshake_steps fuel now message s r t :
  on_message fuel now message s = Some (r, t) ->
  match r with
  | Ok _ =>
      (state_ s.1 = ResPQ /\ state_ t.1 = ServerDHParams \/ state_ s.1 = ServerDHParams /\ state_ t.1 = DHGenResponse) /\
        (exists q, last_query_ t.1 = q /\ sent t.2 = sent s.2 ++ [q]) \/
      state_ s.1 = DHGenResponse /\ state_ t.1 = Finish /\ sent t.2 = sent s.2 /\
        auth_key_ t.1 = auth_key_ s.1 /\ handshake_salt_ t.1 = handshake_salt_ s.1
  | Err _ =>
      state_ t.1 = Start /\ last_query_ t.1 = [] /\ sent t.2 = sent s.2 /\
      auth_key_ t.1 = auth_key_ s.1 /\ handshake_salt_ t.1 = handshake_salt_ s.1
  | Crash => True
  end.
Proof.
  unfold on_message. destruct (dispatch fuel now message s) as [[r' t']|] eqn:Hd; [|done].
  assert (Hcore : match r' with
    | Ok _ =>
      (state_ s.1 = ResPQ /\ state_ t'.1 = ServerDHParams \/
       state_ s.1 = ServerDHParams /\ state_ t'.1 = DHGenResponse) /\
        (exists q, last_query_ t'.1 = q /\ sent t'.2 = sent s.2 ++ [q]) \/
      state_ s.1 = DHGenResponse /\ state_ t'.1 = Finish /\ sent t'.2 = sent s.2 /\
        auth_key_ t'.1 = auth_key_ s.1 /\ handshake_salt_ t'.1 = handshake_salt_ s.1
    | Err _ => frame s t'
    | Crash => True
    end).
  { unfold dispatch in Hd. unfold mbind, M_bind at 1, read at 1 in Hd. cbn [fst] in Hd.
    destruct (state_ s.1) eqn:Hst; [by injection Hd as <- _| | | |by injection Hd as <- _].
    - apply on_res_pq_emits in Hd. destruct r'; [|done..]. destruct Hd as [? ?]. left. auto.
    - apply on_server_dh_params_emits in Hd. destruct r'; [|done..]. destruct Hd as [? ?]. left. auto.
    - apply on_dh_gen_response_quiet in Hd as [? Hd]. destruct r'; [|done..]. destruct Hd as (? & ? & ?). right. auto. }
  destruct r' as [u|e|]; intros [= <- <-]; [done| |done].
  destruct Hcore as [_ _ ? ? _ ?]. done.
Qed.
End guarantees.

(** * The messages of [mtproto_api.tl] *)

Module SchemeApi.

(** A message of [n] bytes or a string that is too long for [store_string] is
    not one of the handshake: it is stored as nothing. *)
Definition stored_object (id : Z) (vs : list tl_value) : bytes :=
  match tl_store_unsafe (TlInt id :: vs) with Ok out => out | _ => [] end.

(** Another constructor is an error of the parser. *)
Definition fetch_constructor (id : Z) (p : tl_parser) : outcome tl_parser :=
  r ← fetch_int p;
  if r.1 =? int32 id then Ok r.2 else set_error "Wrong constructor found" r.2.

Fixpoint fetch_longs (n : nat) (p : tl_parser) : outcome (list Z * tl_parser) :=
  match n with
  | O => Ok ([], p)
  | S n => r ← fetch_long p; rest ← fetch_longs n r.2; Ok (r.1 :: rest.1, rest.2)
  end.

(** [Vector<long>]; the count is compared with what is left. *)
Definition fetch_vector (p : tl_parser) : outcome (list Z * tl_parser) :=
  p ← fetch_constructor 0x1cb5c415 p;
  r ← fetch_int p;
  let multiplicity := uint32 r.1 in
  if left_len r.2 <? multiplicity then p ← set_error "Wrong vector length" r.2; Ok ([], p)
  else fetch_longs (Z.to_nat multiplicity) r.2.

Definition fetch_res_pq (p : tl_parser) : outcome (res_pq * tl_parser) :=
  p ← fetch_constructor 0x05162463 p;
  nonce ← fetch_binary 16 p;
  server_nonce ← fetch_binary 16 nonce.2;
  pq ← fetch_string server_nonce.2;
  fingerprints ← fetch_vector pq.2;
  Ok (mk_res_pq nonce.1 server_nonce.1 pq.1 fingerprints.1, fingerprints.2).

Definition fetch_dh_params (p : tl_parser) : outcome (dh_params * tl_parser) :=
  p ← fetch_constructor 0xd0e8075c p;
  nonce ← fetch_binary 16 p;
  server_nonce ← fetch_binary 16 nonce.2;
  answer ← fetch_string server_nonce.2;
  Ok (mk_dh_params nonce.1 server_nonce.1 answer.1, answer.2).

Definition fetch_dh_answer (p : tl_parser) : outcome (dh_answer * tl_parser) :=
  r ← fetch_int p;
  nonce ← fetch_binary 16 r.2;
  server_nonce ← fetch_binary 16 nonce.2;
  hash ← fetch_binary 16 server_nonce.2;
  if r.1 =? int32 0x3bcbf734 then Ok (dh_gen_ok nonce.1 server_nonce.1 hash.1, hash.2)
  else if r.1 =? int32 0x46dc1fb9 then Ok (dh_gen_retry nonce.1 server_nonce.1 hash.1, hash.2)
  else
    p ← (if r.1 =? int32 0xa69dae02 then Ok hash.2 else set_error "Wrong constructor found" hash.2);
    Ok (dh_gen_fail nonce.1 server_nonce.1 hash.1, p).

Definition inner_fetches : list fetch :=
  [FetchBinary 16; FetchBinary 16; FetchInt; FetchString; FetchString; FetchInt].

Definition inner_values (i : dh_inner) : list tl_value :=
  [TlBinary (di_nonce i); TlBinary (di_server_nonce i); TlInt (di_g i); TlString (di_dh_prime i);
   TlString (di_g_a i); TlInt (di_server_time i)].

Definition fetch_inner (p : tl_parser) : outcome (dh_inner * tl_parser) :=
  nonce ← fetch_binary 16 p;
  server_nonce ← fetch_binary 16 nonce.2;
  g ← fetch_int server_nonce.2;
  dh_prime ← fetch_string g.2;
  g_a ← fetch_string dh_prime.2;
  server_time ← fetch_int g_a.2;
  Ok (mk_dh_inner nonce.1 server_nonce.1 g.1 dh_prime.1 g_a.1 server_time.1, server_time.2).

#[export] Instance api : MtprotoApi := {|
  req_pq_multi_fetch := fetch_res_pq;
  req_DH_params_fetch := fetch_dh_params;
  set_client_DH_params_fetch := fetch_dh_answer;
  server_DH_inner_data := fetch_inner;
  p_q_inner_data_dc pq p q nonce server_nonce new_nonce dc :=
    stored_object 0xa9f55f95 [TlString pq; TlString p; TlString q; TlBinary nonce; TlBinary server_nonce;
                              TlBinary new_nonce; TlInt dc];
  p_q_inner_data_temp_dc pq p q nonce server_nonce new_nonce dc expires_in :=
    stored_object 0x56fddf88 [TlString pq; TlString p; TlString q; TlBinary nonce; TlBinary server_nonce;
                              TlBinary new_nonce; TlInt dc; TlInt expires_in];
  client_DH_inner_data nonce server_nonce retry_id g_b :=
    stored_object 0x6643b654 [TlBinary nonce; TlBinary server_nonce; TlLong retry_id; TlString g_b];
  req_pq_multi nonce := stored_object 0xbe7e8ef1 [TlBinary nonce];
  req_DH_params nonce server_nonce p q fingerprint encrypted :=
    stored_object 0xd712e4be [TlBinary nonce; TlBinary server_nonce; TlString p; TlString q; TlLong fingerprint;
                              TlString encrypted];
  set_client_DH_params nonce server_nonce encrypted :=
    stored_object 0xf5045f1f [TlBinary nonce; TlBinary server_nonce; TlString encrypted];
|}.

Lemma int32_range z : - 2 ^ 31 <= int32 z < 2 ^ 31.
Proof. unfold int32. pose proof (Z.mod_pos_bound (z + 2 ^ 31) (2 ^ 32) ltac:(lia)). lia. Qed.

Lemma fetch_int_range p x q : fetch_int p = Ok (x, q) -> - 2 ^ 31 <= x < 2 ^ 31.
Proof.
  unfold fetch_int. intros Hf. apply bind_Ok_inv in Hf as (r & _ & Hf). injection Hf as <- _. apply int32_range.
Qed.

(** The parser stays a parser of its message. *)
Lemma fetch_int_parser m p r :
  parser_of m p -> len m < max_size_t -> fetch_int p = Ok r -> parser_of m r.2.
Proof.
  intros Hp Hl Hf. destruct (fetch_value_parser m FetchInt p Hp I Hl) as (v & q & Hv & Hq). cbn in Hv.
  rewrite Hf, Ok_bind in Hv. by injection Hv as _ <-.
Qed.

Lemma fetch_binary_parser m n p r :
  parser_of m p -> 1 <= n <= 64 -> len m < max_size_t -> fetch_binary n p = Ok r -> parser_of m r.2.
Proof.
  intros Hp Hn Hl Hf. destruct (fetch_value_parser m (FetchBinary n) p Hp Hn Hl) as (v & q & Hv & Hq). cbn in Hv.
  rewrite Hf, Ok_bind in Hv. by injection Hv as _ <-.
Qed.

Lemma set_error_parser m e p q :
  parser_of m p -> len m < max_size_t -> set_error e p = Ok q -> parser_of m q.
Proof.
  intros [pre rest ->|p' [Hs Hd Hll [e' He] Hpos]] Hl; unfold set_error.
  - intros [= <-]. apply DeadParser. split; cbn; try done; [eauto|].
    len_solve.
  - rewrite He. destruct (negb _ && _ && _); [|done]. cbn [check]. rewrite Ok_bind. intros [= <-].
    apply DeadParser. by split; cbn; eauto.
Qed.

Lemma fetch_constructor_parser m id p q :
  parser_of m p -> len m < max_size_t -> fetch_constructor id p = Ok q -> parser_of m q.
Proof.
  intros Hp Hl Hf. unfold fetch_constructor in Hf. apply bind_Ok_inv in Hf as (r & Hr & Hf).
  apply (fetch_int_parser m) in Hr; [|done..]. destruct (r.1 =? int32 id); [by injection Hf as <-|].
  by eapply set_error_parser.
Qed.

Lemma fetch_inner_values_inv p i q :
  fetch_inner p = Ok (i, q) -> fetch_values inner_fetches p = Ok (inner_values i, q).
Proof.
  unfold fetch_inner. intros Hf. simp_outcome. cbn [fst snd] in *. simplify_eq. unfold inner_fetches. cbn [fetch_values fetch_value].
  repeat match goal with H : ?m = Ok _ |- _ => rewrite H, !Ok_bind; clear H; cbn [fst snd] end. done.
Qed.

#[export] Instance api_laws : MtprotoApiLaws.
Proof.
  constructor; cbn.
  - intros message r Hlen Hf. unfold fetch_res_pq in Hf.
    apply bind_Ok_inv in Hf as (p & Hp & Hf). apply bind_Ok_inv in Hf as (n & Hn & Hf).
    apply bind_Ok_inv in Hf as (sn & Hsn & Hf). apply bind_Ok_inv in Hf as (pq & Hpq & Hf).
    apply bind_Ok_inv in Hf as (fs & _ & Hf). injection Hf as <-. cbn [fst snd rp_pq].
    assert (Hm : parser_of message (new_parser message)) by (rewrite new_parser_eq; by constructor).
    apply (fetch_constructor_parser message) in Hp; [|done..].
    apply (fetch_binary_parser message) in Hn; [|done..]. apply (fetch_binary_parser message) in Hsn; [|done..].
    destruct pq as [pq q]. exact (fetch_string_parser message _ _ _ Hsn Hpq).
  - intros message r Hlen Hf. unfold fetch_dh_params in Hf.
    apply bind_Ok_inv in Hf as (p & Hp & Hf). apply bind_Ok_inv in Hf as (n & Hn & Hf).
    apply bind_Ok_inv in Hf as (sn & Hsn & Hf). apply bind_Ok_inv in Hf as (a & Ha & Hf).
    injection Hf as <-. cbn [fst snd dp_encrypted_answer].
    assert (Hm : parser_of message (new_parser message)) by (rewrite new_parser_eq; by constructor).
    apply (fetch_constructor_parser message) in Hp; [|done..].
    apply (fetch_binary_parser message) in Hn; [|done..]. apply (fetch_binary_parser message) in Hsn; [|done..].
    destruct a as [a q]. exact (fetch_string_parser message _ _ _ Hsn Ha).
  - intros p r Hf. unfold fetch_inner in Hf. apply bind_Ok_inv in Hf as (n & _ & Hf).
    apply bind_Ok_inv in Hf as (sn & _ & Hf). apply bind_Ok_inv in Hf as (g & Hg & Hf).
    apply bind_Ok_inv in Hf as (prime & _ & Hf). apply bind_Ok_inv in Hf as (ga & _ & Hf).
    apply bind_Ok_inv in Hf as (time & _ & Hf). injection Hf as <-. destruct g. exact (fetch_int_range _ _ _ Hg).
  - intros pre rest [i q] Hlen Hf Hq. apply fetch_inner_values_inv in Hf.
    pose proof (fetch_values_follow inner_fetches pre rest ltac:(repeat constructor; cbn; lia) Hlen) as Hv. rewrite Hf in Hv.
    destruct (read_values inner_fetches rest) as [[vs back]|].
    + destruct Hv as (x & -> & [= _ ->]). by exists x, back.
    + destruct Hv as (vs & q' & [= _ <-] & Hd). destruct Hd as [_ _ _ [e He] _]. cbn in Hq. unfold failed in Hq. by rewrite He in Hq.
Qed.
(** The stored fields of an inner answer are read as that answer. *)
Lemma fetch_inner_values p i q :
  fetch_values inner_fetches p = Ok (inner_values i, q) -> fetch_inner p = Ok (i, q).
Proof.
  unfold inner_fetches. intros Hf. cbn [fetch_values fetch_value] in Hf. simp_outcome. cbn [fst snd] in *.
  unfold inner_values in *. simplify_eq. unfold fetch_inner. destruct i. cbn in *.
  repeat match goal with H : ?m = Ok _ |- context [?m] => rewrite H, Ok_bind end. congruence.
Qed.

Definition inner_fits (i : dh_inner) : Prop :=
  len (di_nonce i) = 16 /\ len (di_server_nonce i) = 16 /\ - 2 ^ 31 <= di_g i < 2 ^ 31 /\
  len (di_dh_prime i) < 2 ^ 32 /\ len (di_g_a i) < 2 ^ 32 /\ - 2 ^ 31 <= di_server_time i < 2 ^ 31.

Lemma inner_fields i fields :
  inner_fits i -> tl_store_unsafe (inner_values i) = Ok fields -> fields_of i fields.
Proof.
  intros (Hn & Hsn & Hg & Hp & Hga & Ht) Hs pre rest Hlen. apply fetch_inner_values.
  apply fetch_values_stored; [|done|done].
  unfold inner_fetches, inner_values. rewrite <- Hn at 1. rewrite <- Hsn at 1.
  repeat constructor; lia.
Qed.
End SchemeApi.

(** * Concrete runs *)

(** A computation that is known to succeed. *)
Definition succeeds {S A} (r : option (outcome A * S)) : bool :=
  match r with Some (Ok _, _) => true | _ => false end.

Lemma succeeds_inv {S A} (r : option (outcome A * S)) : succeeds r = true -> exists a t, r = Some (Ok a, t).
Proof. destruct r as [[[a|e|] t]|]; [by eexists _, _|done..]. Qed.

Definition fails {S A} (r : option (outcome A * S)) : bool :=
  match r with Some (Err _, _) => true | _ => false end.

Lemma fails_inv {S A} (r : option (outcome A * S)) : fails r = true -> exists e t, r = Some (Err e, t).
Proof. destruct r as [[[a|e|] t]|]; [done|by eexists _, _|done..]. Qed.

Import Toy AnyPrime ExactTime SchemeApi SharedMain.
#[local] Existing Instance DhCache.cache.

Module Run.

(** A key ring with the key (2^2048 - 1, 1). *)
Definition ring : SharedMain.keys := [(mk_RSA (2 ^ 2048 - 1) 1, 7)].

Definition sample_world (draws : list Z) : world (G := script) (C := DhCache.pmc) (R := SharedMain.keys) :=
  mk_world (mk_script draws (str "0123456789abcdefghijklmnopqrstuv")) None ring [].

Definition waiting (st : State) : handshake :=
  set_nonces (str "0123456789abcdef") (str "ABCDEFGHIJKLMNOP") (str "0123456789abcdefghijklmnopqrstuv")
    (set_state st (new_handshake 0 2 0)).

(** [ResPQ] with pq = 1022117. *)
Definition res_pq_message : bytes :=
  stored_object 0x05162463 [TlBinary (str "0123456789abcdef"); TlBinary (str "ABCDEFGHIJKLMNOP");
    TlString (hex [15; 152; 165]); TlInt 0x1cb5c415; TlInt 1; TlLong 7].

Definition sample_inner : dh_inner :=
  mk_dh_inner (str "0123456789abcdef") (str "ABCDEFGHIJKLMNOP") 2 (z2b 128 :: zeros 254 ++ [z2b 7])
    (z2b 1 :: zeros 254) 1700000000.

Definition sample_fields : bytes :=
  match tl_store_unsafe (inner_values sample_inner) with Ok x => x | _ => [] end.

Definition sample_answer : bytes := honest_answer sample_fields (zeros 8).

Definition tmp_keys : bytes * bytes := tmp_KDF (str "ABCDEFGHIJKLMNOP") (str "0123456789abcdefghijklmnopqrstuv").

Definition dh_message : bytes :=
  stored_object 0xd0e8075c [TlBinary (str "0123456789abcdef"); TlBinary (str "ABCDEFGHIJKLMNOP");
    TlString (aes_ige_encrypt tmp_keys.1 tmp_keys.2 sample_answer)].

Lemma sample_honest : honest (waiting ServerDHParams) dh_message sample_inner.
Proof.
  split; [|reflexivity..|by vm_compute|by vm_compute|by vm_compute|apply in_dh_range; by vm_compute].
  exists sample_fields, (zeros 8). split; [by vm_compute|]. split; [|split; [by vm_compute|]; split; by vm_compute].
  apply inner_fields; [|by vm_compute]. unfold inner_fits. split; [done|]. split; [done|].
  repeat split; (done || by vm_compute).
Qed.

Lemma sample_range :
  dh_range (be_load (di_dh_prime sample_inner))
    (uint32 (di_g sample_inner) ^ next_b (sample_world [2000]) mod be_load (di_dh_prime sample_inner)).
Proof. apply in_dh_range. by vm_compute. Qed.

Lemma ring_exponents fs (ks : SharedMain.keys) rsa f :
  Forall (fun k => 0 <= e_ k.1) ks -> Handshake.get_rsa_key fs ks = Ok (rsa, f) -> 0 <= e_ rsa.
Proof.
  intros Hks. induction fs as [|x fs IH]; [done|]. cbn. destruct (find_key x ks) as [r|] eqn:Hf; [|exact IH].
  intros [= ->]. clear IH. induction Hks as [|[k g] ks Hk _ IHk]; [done|]. cbn in Hf.
  destruct (g =? x); [by injection Hf as <- _|auto].
Qed.
End Run.
Import Run.

Lemma res_pq_query_witness :
  exists t p q, on_message 1 0 res_pq_message (waiting ResPQ, sample_world [3; 77]) = Some (Ok tt, t) /\
    be_load p * be_load q = 1022117 /\ server_nonce_ t.1 = str "ABCDEFGHIJKLMNOP".
Proof.
  assert (Hm : succeeds (on_message 1 0 res_pq_message (waiting ResPQ, sample_world [3; 77])) = true)
    by (vm_compute; reflexivity).
  apply succeeds_inv in Hm as (u & t & Hm).
  destruct (res_pq_query (R := SharedMain.keys) 1 0 res_pq_message (waiting ResPQ, sample_world [3; 77]) u t)
    as (r & rsa & fp & p & q & Hr & _ & Hsn & _ & Hpq & _).
  - intros fs rsa f Hk. apply ring_exponents in Hk; [done|]. by repeat constructor.
  - by vm_compute.
  - reflexivity.
  - exact Hm.
  - assert (Hres : fetch_result req_pq_multi_fetch res_pq_message false = Ok (mk_res_pq (str "0123456789abcdef")
      (str "ABCDEFGHIJKLMNOP") (hex [15; 152; 165]) [7])) by (by vm_compute).
    exists t, p, q. destruct u. split; [exact Hm|]. rewrite Hpq, Hsn. rewrite Hres in Hr. injection Hr as <-.
    split; reflexivity.
Defined.

Lemma honest_exchange_witness :
  exists t, on_message 0 0 dh_message (waiting ServerDHParams, sample_world [2000]) = Some (Ok tt, t) /\
    state_ t.1 = DHGenResponse.
Proof.
  pose proof (DhCache.cache_laws eq_refl : DhCallbackLaws DhCache.pmc DhCache.sound) as Hlaws.
  apply (honest_exchange (inv := DhCache.sound) 0 0 dh_message (waiting ServerDHParams, sample_world [2000]) sample_inner).
  - exact I.
  - reflexivity.
  - by vm_compute.
  - exact sample_honest.
  - by vm_compute.
  - exact sample_range.
Defined.

Lemma dh_params_accepted_witness :
  exists t g_b, on_message 0 0 dh_message (waiting ServerDHParams, sample_world [2000]) = Some (Ok tt, t) /\
    len (key (auth_key (auth_key_ t.1))) = 256 /\
    be_load (key (auth_key (auth_key_ t.1))) =
      be_load g_b ^ 2032 mod be_load (di_dh_prime sample_inner).
Proof.
  pose proof (DhCache.cache_laws eq_refl : DhCallbackLaws DhCache.pmc DhCache.sound) as Hlaws.
  destruct (honest_message (inv := DhCache.sound) 0 0 dh_message (waiting ServerDHParams, sample_world [2000])
    sample_inner I eq_refl ltac:(by vm_compute) sample_honest ltac:(by vm_compute) sample_range) as (t & Hm & _).
  destruct (dh_params_accepted (inv := DhCache.sound) 0 0 dh_message (waiting ServerDHParams, sample_world [2000]) tt t
    I ltac:(by vm_compute) eq_refl Hm) as (inner & b & g_b & padding & Hans & Hex & _ & _ & _ & Hserver).
  exists t, g_b. split; [exact Hm|]. split; [exact (ex_key_len _ _ _ _ Hex)|].
  assert (Hin : inner = sample_inner).
  { destruct Hans as [(p & Hp & _ & _ & _ & fields & pad & _ & _ & Ho) _ _]. vm_compute in Hp. injection Hp as <-.
    apply (f_equal (fun r => match r with Ok (i, _) => Some i | _ => None end)) in Ho. vm_compute in Ho. injection Ho as <-. by vm_compute. }
  rewrite Hin in Hserver. apply Hserver; [lia|]. by vm_compute.
Defined.

Lemma handshake_steps_witness :
  exists r t, on_message 0 0 (str "junk") (waiting ResPQ, sample_world []) = Some (r, t) /\
    state_ t.1 = Start /\ sent t.2 = [].
Proof.
  assert (Hm : fails (on_message 0 0 (str "junk") (waiting ResPQ, sample_world [])) = true)
    by (vm_compute; reflexivity).
  apply fails_inv in Hm as (e & t & Hm).
  destruct (handshake_steps 0 0 (str "junk") (waiting ResPQ, sample_world []) (Err e) t Hm) as (Hst & _ & Hs & _).
  exists (Err e), t. split; [exact Hm|]. split; [exact Hst|exact Hs].
Defined.

(** [dh_gen_ok] for a key of zeros. *)
Definition sample_key : auth_key_state := mk_key_state (mk_AuthKey 5 (zeros 256)) false true 0 0 0.

Definition finishing : handshake := set_key sample_key 0 (waiting DHGenResponse).

Definition dh_gen_message : bytes :=
  stored_object 0x3bcbf734 [TlBinary (nonce_ finishing); TlBinary (server_nonce_ finishing);
    TlBinary (substr_from 4 (sha1 (new_nonce_ finishing ++ [z2b 1] ++ substr 0 8 (sha1 (zeros 256)))))].

Lemma dh_gen_finishes_witness :
  exists t, on_message 0 0 dh_gen_message (finishing, sample_world []) = Some (Ok tt, t) /\ state_ t.1 = Finish.
Proof.
  destruct (dh_gen_finishes 0 0 dh_gen_message (finishing, sample_world []) eq_refl) as (r & t & Hm & [_ Hiff] & Hst).
  assert (Hr : r = Ok tt) by (apply Hiff; by vm_compute).
  exists t. rewrite Hr in Hm. split; [exact Hm|by apply Hst].
Defined.
