(* ===== verification/FileBitmask.v ===== *)
(** The set of the parts of a file that are on the disk: [class Bitmask] of
    [telegram/files/FileBitmask.cpp], with the run-length encoding in which it
    is stored, [zero_one_encode] and [zero_one_decode] of
    [tdutils/td/utils/misc.cpp].

    The theorems say that the encoding is deterministic and loses nothing, and
    that the sizes that are computed from the set are those of the ready bytes. *)
From S2P Require Import Prelude Bytes.
#[local] Open Scope Z_scope.

(** * The run-length encoding *)

(** The bytes that are written with a count. *)
Definition has_count (c : byte) : bool := (b2z c =? 0) || (b2z c =? 255).

(** [while (cnt < 250 && ... data[i + cnt] == data[i]) cnt++] *)
Fixpoint count_run (c : byte) (limit : nat) (s : bytes) : nat :=
  match limit, s with
  | S limit, b :: s => if bool_decide (b = c) then S (count_run c limit s) else O
  | _, _ => O
  end.

Fixpoint encode_from (fuel : nat) (s : bytes) : bytes :=
  match fuel, s with
  | S fuel, c :: rest =>
      if has_count c then
        let more := count_run c 249 rest in
        c :: z2b (1 + Z.of_nat more) :: encode_from fuel (drop more rest)
      else c :: encode_from fuel rest
  | _, _ => []
  end.

Definition zero_one_encode (data : bytes) : bytes := encode_from (length data) data.

Fixpoint zero_one_decode (data : bytes) : bytes :=
  match data with
  | [] => []
  | c :: rest =>
      if has_count c then
        match rest with
        | [] => [c]
        | cnt :: rest => replicate (Z.to_nat (b2z cnt)) c ++ zero_one_decode rest
        end
      else c :: zero_one_decode rest
  end.

(** * The class *)

(** [data_] *)
Definition bitmask : Type := bytes.

Implicit Types b : bitmask.

Definition size b : Z := len b * 8.

Definition get (offset_part : Z) b : bool :=
  if offset_part <? 0 then false
  else
    let index := offset_part / 8 in
    if len b <=? index then false
    else negb (Z.land (b2z (nth_byte b index)) (Z.shiftl 1 (offset_part mod 8)) =? 0).

Definition set (offset_part : Z) b : outcome bitmask :=
  _ ← check (0 <=? offset_part);
  let need_size := offset_part / 8 + 1 in
  let b := if len b <? need_size then b ++ zeros (need_size - len b) else b in
  Ok (<[Z.to_nat (need_size - 1) :=
        z2b (Z.lor (b2z (nth_byte b (need_size - 1))) (Z.shiftl 1 (offset_part mod 8)))]> b).

(** [for (i = 0; i < count; i++) set(i)], over any list of parts. *)
Fixpoint set_all (parts : list Z) b : outcome bitmask :=
  match parts with
  | [] => Ok b
  | i :: parts => b ← set i b; set_all parts b
  end.

(** [Bitmask(Ones, count)]; a negative count is not a [size_t]. *)
Definition ones (count : Z) : outcome bitmask :=
  _ ← check (0 <=? (count + 7) / 8);
  set_all (seqZ 0 count) (zeros ((count + 7) / 8)).

(** [Bitmask(Decode, data)]. *)
Definition decode (data : bytes) : bitmask := zero_one_decode data.

(** [while (!data.empty() && data.back() == 0) data.remove_suffix(1)] *)
Fixpoint strip_zeros (s : bytes) : bytes :=
  match s with
  | [] => []
  | c :: s =>
      match strip_zeros s with
      | [] => if bool_decide (c = x00) then [] else [c]
      | t => c :: t
      end
  end.

(** The bytes that [encode] writes for the first [prefix_count] parts.  The
    byte that it masks in place, and restores at its end, has to be there. *)
Definition prefix_bytes (prefix_count : Z) b : outcome bytes :=
  if prefix_count =? -1 then Ok b
  else
    let truncated_size := (prefix_count + 7) / 8 in
    if negb (prefix_count mod 8 =? 0) then
      let save_i := truncated_size - 1 in
      _ ← check (save_i <? len b);
      let mask := Z.shiftr 255 (8 - prefix_count mod 8) in
      Ok (truncate truncated_size (<[Z.to_nat save_i := z2b (Z.land (b2z (nth_byte b save_i)) mask)]> b))
    else Ok (truncate truncated_size b).

(** [encode(prefix_count)], where [prefix_count] is -1 or not negative. *)
Definition encode (prefix_count : Z) b : outcome bytes :=
  data ← prefix_bytes prefix_count b; Ok (zero_one_encode (strip_zeros data)).

(** [while (get(offset_part + res)) res++] *)
Fixpoint ready_from (fuel : nat) (offset_part : Z) b : Z :=
  match fuel with
  | O => 0
  | S fuel => if get offset_part b then 1 + ready_from fuel (offset_part + 1) b else 0
  end.

Definition get_ready_parts (offset_part : Z) b : Z := ready_from (S (8 * length b)) offset_part b.

Definition get_ready_prefix_size (offset part_size file_size : Z) b : outcome Z :=
  if offset <? 0 then Ok 0
  else if part_size =? 0 then Ok 0
  else
    _ ← check (0 <? part_size);
    let offset_part := offset / part_size in
    let ones := get_ready_parts offset_part b in
    if ones =? 0 then Ok 0
    else
      let ready_parts_end := (offset_part + ones) * part_size in
      let cut := negb (file_size =? 0) && (file_size <? ready_parts_end) in
      let ready_parts_end := if cut then file_size else ready_parts_end in
      let offset := if cut && (file_size <? offset) then file_size else offset in
      let res := ready_parts_end - offset in
      _ ← check (0 <=? res);
      Ok res.

(** What part [i] adds to [get_total_size]. *)
Definition part_bytes (part_size file_size i : Z) : Z :=
  let from := i * part_size in
  let to := from + part_size in
  let to := if negb (file_size =? 0) && (file_size <? to) then file_size else to in
  if from <? to then to - from else 0.

Definition get_total_size (part_size file_size : Z) b : Z :=
  foldl (fun res i => if get i b then res + part_bytes part_size file_size i else res) 0 (seqZ 0 (size b)).

Definition as_vector b : outcome (list Z) :=
  let size := len b * 8 in
  _ ← check (size <? 2 ^ 31);
  Ok (filter (fun i => get i b = true) (seqZ 0 size)).

(** [compress(k)] for a positive [k]. *)
Definition all_set (k i : Z) b : bool := forallb (fun j => get (i * k + j) b) (seqZ 0 k).

Fixpoint compress_from (fuel : nat) (i k : Z) b (res : bitmask) : outcome bitmask :=
  match fuel with
  | O => Crash
  | S fuel =>
      if i * k <? size b then
        res ← (if all_set k i b then set i res else Ok res);
        compress_from fuel (i + 1) k b res
      else Ok res
  end.

Definition compress (k : Z) b : outcome bitmask := compress_from (S (8 * length b)) 0 k b [].

(** * The encoding loses nothing *)

Lemma count_run_take c limit s :
  take (count_run c limit s) s = replicate (count_run c limit s) c /\ (count_run c limit s <= limit)%nat.
Proof.
  revert s. induction limit as [|limit IH]; intros [|b s]; cbn [count_run]; [by split; [|lia]..|].
  destruct (decide (b = c)) as [->|Hb].
  - rewrite bool_decide_true by done. cbn. destruct (IH s) as [-> ?]. split; [done|lia].
  - rewrite bool_decide_false by done. split; [done|lia].
Qed.

Lemma decode_encode_from fuel s : (length s <= fuel)%nat -> zero_one_decode (encode_from fuel s) = s.
Proof.
  revert s. induction fuel as [|fuel IH]; intros [|c s] Hf; cbn [length] in Hf; [done|lia|done|].
  cbn [encode_from]. destruct (has_count c) eqn:Hc; cbn [zero_one_decode]; rewrite Hc.
  - destruct (count_run_take c 249 s) as [Hrun Hmax]. rewrite b2z_z2b_small by lia.
    replace (Z.to_nat (1 + Z.of_nat (count_run c 249 s))) with (S (count_run c 249 s)) by lia.
    cbn [replicate app]. rewrite <- Hrun, IH by (rewrite length_drop; lia). by rewrite take_drop.
  - by rewrite IH by lia.
Qed.

Lemma decode_encode s : zero_one_decode (zero_one_encode s) = s.
Proof. by apply decode_encode_from. Qed.

(** * The set of a bitmask *)

Lemma testbit_land x n : 0 <= n -> negb (Z.land x (Z.shiftl 1 n) =? 0) = Z.testbit x n.
Proof.
  intros Hn. rewrite Z.shiftl_1_l. destruct (Z.testbit x n) eqn:Hx.
  - rewrite negb_true_iff. apply Z.eqb_neq. intros H0. apply (f_equal (fun z => Z.testbit z n)) in H0.
    by rewrite Z.land_spec, Hx, Z.pow2_bits_true, Z.bits_0 in H0.
  - rewrite negb_false_iff. apply Z.eqb_eq, Z.bits_inj'. intros i Hi. rewrite Z.land_spec, Z.bits_0.
    destruct (Z.eq_dec i n) as [->|Hne]; [by rewrite Hx|]. by rewrite Z.pow2_bits_false, andb_false_r.
Qed.

Lemma nth_byte_lookup s i : nth_byte s i = default x00 (s !! Z.to_nat i).
Proof. apply nth_lookup. Qed.

Lemma nth_byte_beyond s i : len s <= i -> nth_byte s i = x00.
Proof. intros Hi. rewrite nth_byte_lookup, lookup_ge_None_2; [done|]. unfold len in Hi. lia. Qed.

Lemma get_testbit i b : get i b = (0 <=? i) && Z.testbit (b2z (nth_byte b (i / 8))) (i mod 8).
Proof.
  unfold get. destruct (Z.ltb_spec i 0) as [Hi|Hi]; [by rewrite (proj2 (Z.leb_gt 0 i))|].
  rewrite (proj2 (Z.leb_le 0 i)) by done. cbn [andb]. destruct (Z.leb_spec (len b) (i / 8)) as [Hl|Hl].
  - rewrite nth_byte_beyond by done. by rewrite Z.testbit_0_l.
  - apply testbit_land. div_mod_lia.
Qed.

Lemma get_negative i b : i < 0 -> get i b = false.
Proof. intros Hi. rewrite get_testbit. by rewrite (proj2 (Z.leb_gt 0 i)). Qed.

Lemma get_beyond i b : size b <= i -> get i b = false.
Proof.
  intros Hi. rewrite get_testbit, nth_byte_beyond, Z.testbit_0_l by (unfold size in Hi; div_mod_lia).
  apply andb_false_r.
Qed.

Lemma get_range i b : get i b = true -> 0 <= i < size b.
Proof.
  intros Hg. destruct (Z.lt_ge_cases i 0); [by rewrite get_negative in Hg|].
  destruct (Z.lt_ge_cases i (size b)); [lia|by rewrite get_beyond in Hg].
Qed.

Lemma get_zeros n i : get i (zeros n) = false.
Proof.
  rewrite get_testbit, nth_byte_lookup. unfold zeros. destruct (replicate _ _ !! _) as [c|] eqn:Hc.
  - apply lookup_replicate in Hc as [-> _]. cbn. rewrite Z.testbit_0_l. apply andb_false_r.
  - cbn. rewrite Z.testbit_0_l. apply andb_false_r.
Qed.

Lemma nth_byte_padded s n i : nth_byte (s ++ zeros n) i = nth_byte s i.
Proof.
  rewrite !nth_byte_lookup. destruct (decide (Z.to_nat i < length s)%nat).
  - by rewrite lookup_app_l.
  - rewrite lookup_app_r, (lookup_ge_None_2 s) by lia. unfold zeros. cbn.
    destruct (replicate _ _ !! _) as [c|] eqn:Hc; [|done]. by apply lookup_replicate in Hc as [-> _].
Qed.

Lemma lor_range n x y : 0 <= n -> 0 <= x < 2 ^ n -> 0 <= y < 2 ^ n -> 0 <= Z.lor x y < 2 ^ n.
Proof.
  intros Hn Hx Hy. assert (Hnn : 0 <= Z.lor x y) by (apply Z.lor_nonneg; lia). split; [done|].
  enough (Hm : Z.lor x y = Z.lor x y mod 2 ^ n) by (rewrite Hm; apply Z.mod_pos_bound; lia).
  rewrite <- (Z.land_ones _ n Hn), Z.land_lor_distr_l, !Z.land_ones by done. by rewrite !Z.mod_small by lia.
Qed.

Lemma set_spec i b :
  0 <= i -> exists b', set i b = Ok b' /\ len b' = Z.max (len b) (i / 8 + 1) /\
    forall j, get j b' = (j =? i) || get j b.
Proof.
  intros Hi. unfold set. rewrite (proj2 (Z.leb_le 0 i)) by done. cbn [check]. rewrite Ok_bind.
  replace (i / 8 + 1 - 1) with (i / 8) by lia. eexists. split; [done|]. pose proof (len_nonneg b).
  set (d := if len b <? i / 8 + 1 then b ++ zeros (i / 8 + 1 - len b) else b).
  assert (Hd : len d = Z.max (len b) (i / 8 + 1) /\ forall j, nth_byte d j = nth_byte b j).
  { unfold d. destruct (Z.ltb_spec (len b) (i / 8 + 1)).
    - split; [rewrite len_app, len_zeros by lia; lia|]. intros j. apply nth_byte_padded.
    - split; [lia|done]. }
  destruct Hd as [Hld Hnd]. split; [unfold len; rewrite length_insert; exact Hld|].
  intros j. rewrite !get_testbit. destruct (Z.leb_spec 0 j) as [Hj|Hj]; cbn [andb].
  2:{ symmetry. by rewrite orb_false_r; apply Z.eqb_neq; lia. }
  destruct (Z.eq_dec (j / 8) (i / 8)) as [Hq|Hq].
  - rewrite Hq, (nth_byte_lookup (<[_:=_]> d)), list_lookup_insert_eq by (unfold len in Hld; div_mod_lia).
    cbn [from_option id]. rewrite b2z_z2b_small.
    + rewrite Z.lor_spec, Hnd, orb_comm. f_equal. rewrite Z.shiftl_1_l. destruct (Z.eqb_spec j i) as [->|Hne].
      * apply Z.pow2_bits_true. div_mod_lia.
      * apply Z.pow2_bits_false. div_mod_lia.
    + rewrite Z.shiftl_1_l. pose proof (b2z_range (nth_byte d (i / 8))).
      assert (Hp : 0 <= 2 ^ (i mod 8) < 2 ^ 8).
      { split; [apply Z.pow_nonneg; lia|apply Z.pow_lt_mono_r; [lia..|div_mod_lia]]. }
      apply (lor_range 8); [lia|done|exact Hp].
  - rewrite (nth_byte_lookup (<[_:=_]> d)), list_lookup_insert_ne by div_mod_lia.
    rewrite <- nth_byte_lookup, Hnd. assert (Hne : j <> i) by (intros ->; done).
    apply Z.eqb_neq in Hne. by rewrite Hne.
Qed.

(** ** Stripping the zeros at the end *)

Lemma nth_byte_nil i : nth_byte [] i = x00.
Proof. unfold nth_byte. by destruct (Z.to_nat i). Qed.

Lemma nth_byte_cons c s i : 0 <= i -> nth_byte (c :: s) i = if i =? 0 then c else nth_byte s (i - 1).
Proof.
  intros Hi. unfold nth_byte. destruct (Z.eqb_spec i 0) as [->|Hne]; [done|].
  by replace (Z.to_nat i) with (S (Z.to_nat (i - 1))) by lia.
Qed.

Lemma nth_byte_succ c s i : 0 <= i -> nth_byte (c :: s) (i + 1) = nth_byte s i.
Proof.
  intros Hi. rewrite nth_byte_cons, (proj2 (Z.eqb_neq (i + 1) 0)) by lia. f_equal. lia.
Qed.

Lemma nth_byte_strip s i : 0 <= i -> nth_byte (strip_zeros s) i = nth_byte s i.
Proof.
  revert i. induction s as [|c s IH]; intros i Hi; [done|]. cbn [strip_zeros].
  destruct (strip_zeros s) as [|d t] eqn:Hs.
  - assert (Hz : forall j, 0 <= j -> nth_byte s j = x00).
    { intros j Hj. rewrite <- IH by done. apply nth_byte_nil. }
    destruct (decide (c = x00)) as [->|Hc].
    + rewrite bool_decide_true, nth_byte_nil, nth_byte_cons by done.
      destruct (Z.eqb_spec i 0); [done|]. rewrite Hz; [done|lia].
    + rewrite bool_decide_false by done. rewrite !nth_byte_cons by done. destruct (Z.eqb_spec i 0); [done|].
      rewrite Hz, nth_byte_nil; [done|lia].
  - rewrite (nth_byte_cons c (d :: t)), (nth_byte_cons c s) by done. destruct (Z.eqb_spec i 0); [done|].
    apply IH. lia.
Qed.

Lemma strip_zero_bytes s : (forall i, 0 <= i -> nth_byte s i = x00) -> strip_zeros s = [].
Proof.
  induction s as [|c s IH]; intros Hz; [done|]. cbn [strip_zeros]. rewrite IH.
  - by rewrite bool_decide_true by (by apply (Hz 0)).
  - intros i Hi. specialize (Hz (i + 1) ltac:(lia)). by rewrite nth_byte_succ in Hz.
Qed.

Lemma strip_zeros_ext s t :
  (forall i, 0 <= i -> nth_byte s i = nth_byte t i) -> strip_zeros s = strip_zeros t.
Proof.
  revert t. induction s as [|c s IH]; intros [|d t] He; [done| | |].
  - symmetry. apply strip_zero_bytes. intros i Hi. by rewrite <- He, nth_byte_nil.
  - apply strip_zero_bytes. intros i Hi. by rewrite He, nth_byte_nil.
  - assert (Hcd : c = d) by apply (He 0 ltac:(lia)). subst d. cbn [strip_zeros]. rewrite (IH t); [done|].
    intros i Hi. specialize (He (i + 1) ltac:(lia)). by rewrite !nth_byte_succ in He.
Qed.

Lemma get_bytes s t i : (forall j, 0 <= j -> nth_byte s j = nth_byte t j) -> get i s = get i t.
Proof.
  intros He. rewrite !get_testbit. destruct (Z.leb_spec 0 i); [|done]. rewrite He; [done|]. div_mod_lia.
Qed.

(** Two bitmasks with the same set differ only in the zeros at their ends. *)
Lemma bytes_of_get s t : (forall i, get i s = get i t) -> forall j, 0 <= j -> nth_byte s j = nth_byte t j.
Proof.
  intros He j Hj. apply b2z_inj, Z.bits_inj'. intros n Hn.
  destruct (Z.lt_ge_cases n 8) as [Hn8|Hn8].
  - specialize (He (8 * j + n)). rewrite !get_testbit, (proj2 (Z.leb_le 0 (8 * j + n))) in He by lia.
    replace ((8 * j + n) / 8) with j in He by div_mod_lia.
    replace ((8 * j + n) mod 8) with n in He by div_mod_lia. exact He.
  - assert (Hhigh : forall c, Z.testbit (b2z c) n = false).
    { intros c. pose proof (b2z_range c). rewrite <- (Z.mod_small (b2z c) (2 ^ 8)) by lia.
      by apply Z.mod_pow2_bits_high. }
    by rewrite !Hhigh.
Qed.

(** ** What [encode] writes *)

Lemma nth_byte_truncate n s i : 0 <= i -> nth_byte (truncate n s) i = if i <? n then nth_byte s i else x00.
Proof.
  intros Hi. rewrite !nth_byte_lookup. unfold truncate. destruct (Z.ltb_spec i n).
  - by rewrite lookup_take_lt by lia.
  - by rewrite lookup_take_ge by lia.
Qed.

Lemma nth_byte_insert s i j c :
  0 <= i < len s -> 0 <= j -> nth_byte (<[Z.to_nat i := c]> s) j = if j =? i then c else nth_byte s j.
Proof.
  intros Hi Hj. rewrite !nth_byte_lookup. unfold len in Hi. destruct (Z.eqb_spec j i) as [->|Hne].
  - by rewrite list_lookup_insert_eq by lia.
  - by rewrite list_lookup_insert_ne by lia.
Qed.

(** The mask keeps the low [r] bits. *)
Lemma testbit_mask x r n :
  0 <= r <= 8 -> 0 <= n -> Z.testbit (Z.land x (Z.shiftr 255 (8 - r))) n = Z.testbit x n && (n <? r).
Proof.
  intros Hr Hn. rewrite Z.land_spec. f_equal. rewrite Z.shiftr_spec by done. change 255 with (Z.ones 8).
  destruct (Z.ltb_spec n r); [rewrite Z.ones_spec_low by lia|rewrite Z.ones_spec_high by lia]; done.
Qed.

Lemma prefix_bytes_spec prefix_count b :
  prefix_count = -1 \/ 0 <= prefix_count <= size b ->
  exists data, prefix_bytes prefix_count b = Ok data /\
    forall i, get i data = get i b && ((prefix_count =? -1) || (i <? prefix_count)).
Proof.
  intros Hp. unfold prefix_bytes. destruct (Z.eqb_spec prefix_count (-1)) as [->|Hne].
  { exists b. split; [done|]. intros i. by rewrite andb_true_r. }
  destruct Hp as [?|[Hp0 Hps]]; [done|]. unfold size in Hps. cbn [orb].
  destruct (Z.eqb_spec (prefix_count mod 8) 0) as [Hm|Hm]; cbn [negb].
  - eexists. split; [done|]. intros i. rewrite !get_testbit. destruct (Z.leb_spec 0 i); [|done]. cbn [andb].
    rewrite nth_byte_truncate by div_mod_lia. destruct (Z.ltb_spec i prefix_count) as [Hi|Hi].
    + rewrite (proj2 (Z.ltb_lt _ _)) by div_mod_lia. by rewrite andb_true_r.
    + rewrite (proj2 (Z.ltb_ge _ _)) by div_mod_lia. by rewrite Z.testbit_0_l, andb_false_r.
  - set (k := (prefix_count + 7) / 8). assert (Hk : 8 * (k - 1) < prefix_count < 8 * k /\ prefix_count mod 8 = prefix_count - 8 * (k - 1)).
    { unfold k. div_mod_lia. }
    rewrite (proj2 (Z.ltb_lt _ _)) by lia. cbn [check]. rewrite Ok_bind. eexists. split; [done|]. intros i.
    rewrite !get_testbit. destruct (Z.leb_spec 0 i) as [Hi|]; [|done]. cbn [andb].
    assert (Hd : 8 * (i / 8) + i mod 8 = i /\ 0 <= i mod 8 < 8) by div_mod_lia.
    rewrite nth_byte_truncate by lia. destruct (Z.ltb_spec (i / 8) k) as [Hik|Hik].
    + rewrite nth_byte_insert by lia. destruct (Z.eqb_spec (i / 8) (k - 1)) as [He|He].
      * rewrite He, b2z_z2b. change 256 with (2 ^ 8). rewrite Z.mod_pow2_bits_low by lia.
        rewrite testbit_mask by lia. f_equal.
        destruct (Z.ltb_spec i prefix_count); [apply Z.ltb_lt|apply Z.ltb_ge]; lia.
      * rewrite (proj2 (Z.ltb_lt _ _)) by lia. by rewrite andb_true_r.
    + rewrite (proj2 (Z.ltb_ge i prefix_count)) by lia. by rewrite Z.testbit_0_l, andb_false_r.
Qed.

(** * Sizes *)

Lemma ready_from_spec fuel offset_part b :
  0 <= offset_part -> size b < offset_part + Z.of_nat fuel ->
  let r := ready_from fuel offset_part b in
  0 <= r /\ (forall i, offset_part <= i < offset_part + r -> get i b = true) /\ get (offset_part + r) b = false.
Proof.
  revert offset_part. induction fuel as [|fuel IH]; intros off Ho Hf; cbn [ready_from].
  { split; [lia|]. split; [lia|]. apply get_beyond. lia. }
  destruct (get off b) eqn:Hg.
  - destruct (IH (off + 1)) as (Hr & Hall & Hend); [lia..|]. split; [lia|]. split.
    + intros i Hi. destruct (Z.eq_dec i off) as [->|]; [done|]. apply Hall. lia.
    + by rewrite Z.add_assoc.
  - split; [lia|]. split; [lia|]. by rewrite Z.add_0_r.
Qed.

Lemma get_ready_parts_spec offset_part b :
  0 <= offset_part ->
  let r := get_ready_parts offset_part b in
  0 <= r /\ (forall i, offset_part <= i < offset_part + r -> get i b = true) /\ get (offset_part + r) b = false.
Proof. intros Ho. apply ready_from_spec; [done|]. unfold size, len. lia. Qed.

(** A byte of the file that is on the disk; the size 0 stands for an unknown
    size. *)
Definition ready_byte (part_size file_size x : Z) b : bool :=
  get (x / part_size) b && ((file_size =? 0) || (x <? file_size)).

Lemma div_in_part x k n ps : 0 < ps -> k * ps <= x < (k + n) * ps -> k <= x / ps < k + n.
Proof.
  intros Hp Hx. split; [apply Z.div_le_lower_bound; lia|apply Z.div_lt_upper_bound; lia].
Qed.

Lemma offset_in_part x ps : 0 < ps -> x / ps * ps <= x < x / ps * ps + ps.
Proof. intros Hp. pose proof (Z.div_mod x ps ltac:(lia)). pose proof (Z.mod_pos_bound x ps Hp). lia. Qed.

Lemma ready_prefix_ok offset part_size file_size b :
  0 <= offset -> 0 < part_size -> 0 <= file_size ->
  exists res, get_ready_prefix_size offset part_size file_size b = Ok res /\ 0 <= res /\
    (forall x, offset <= x < offset + res -> ready_byte part_size file_size x b = true) /\
    ready_byte part_size file_size (offset + res) b = false.
Proof.
  intros Ho Hp Hf. unfold get_ready_prefix_size.
  rewrite (proj2 (Z.ltb_ge offset 0)), (proj2 (Z.eqb_neq part_size 0)), (proj2 (Z.ltb_lt 0 part_size)) by lia.
  cbn [check]. rewrite Ok_bind. assert (Hq : 0 <= offset / part_size) by (apply Z.div_pos; lia).
  destruct (get_ready_parts_spec (offset / part_size) b Hq) as (Hr & Hall & Hend).
  set (r := get_ready_parts (offset / part_size) b) in *. set (q := offset / part_size) in *.
  pose proof (offset_in_part offset part_size Hp) as Hoff. fold q in Hoff.
  destruct (Z.eqb_spec r 0) as [Hr0|Hr0].
  { exists 0. split; [done|]. split; [lia|]. split; [lia|]. unfold ready_byte. rewrite Z.add_0_r. fold q.
    by rewrite Hr0, Z.add_0_r in Hend; rewrite Hend. }
  assert (Hready : forall x, offset <= x < (q + r) * part_size -> get (x / part_size) b = true).
  { intros x Hx. apply Hall, div_in_part; lia. }
  destruct (negb (file_size =? 0) && (file_size <? (q + r) * part_size)) eqn:Hcut; cbn [andb].
  - to_prop. destruct (Z.ltb_spec file_size offset) as [Hlt|Hge].
    + exists 0. rewrite Z.sub_diag. split; [done|]. split; [lia|]. split; [lia|]. unfold ready_byte.
      rewrite (proj2 (Z.eqb_neq file_size 0)), (proj2 (Z.ltb_ge _ _)) by lia. apply andb_false_r.
    + exists (file_size - offset). rewrite (proj2 (Z.leb_le 0 (file_size - offset))) by lia. split; [done|]. split; [lia|].
      unfold ready_byte. split.
      * intros x Hx. rewrite Hready, (proj2 (Z.ltb_lt x file_size)) by lia. apply orb_true_r.
      * rewrite (proj2 (Z.eqb_neq file_size 0)), (proj2 (Z.ltb_ge _ _)) by lia. apply andb_false_r.
  - assert (Hin : file_size = 0 \/ (q + r) * part_size <= file_size).
    { destruct (Z.eqb_spec file_size 0); [by left|right]. cbn in Hcut. by apply Z.ltb_ge in Hcut. }
    assert (Hpos : (q + 1) * part_size <= (q + r) * part_size) by (apply Z.mul_le_mono_nonneg_r; lia).
    exists ((q + r) * part_size - offset). rewrite (proj2 (Z.leb_le 0 _)) by lia. split; [done|]. split; [lia|].
    unfold ready_byte. split.
    + intros x Hx. rewrite Hready by lia. destruct Hin as [->|Hin]; [done|].
      rewrite (proj2 (Z.ltb_lt x file_size)) by lia. apply orb_true_r.
    + replace (offset + ((q + r) * part_size - offset)) with ((q + r) * part_size) by lia.
      by rewrite Z.div_mul, Hend by lia.
Qed.

(** The number of ready bytes below [n]. *)
Definition count_ready (part_size file_size : Z) b (n : nat) : Z :=
  sum_upto (fun x => Z.b2z (ready_byte part_size file_size x b)) n.

Lemma count_below limit from n :
  sum_upto (fun x => Z.b2z (from + x <? limit)) n = Z.max 0 (Z.min (Z.of_nat n) (limit - from)).
Proof.
  induction n as [|n IH]; [cbn [sum_upto]; lia|]. cbn [sum_upto]. rewrite IH.
  destruct (Z.ltb_spec (from + Z.of_nat n) limit); cbn [Z.b2z]; lia.
Qed.

Lemma part_ready_bytes part_size file_size i b :
  0 < part_size -> 0 <= file_size ->
  sum_upto (fun x => Z.b2z (ready_byte part_size file_size (i * part_size + x) b)) (Z.to_nat part_size) =
  if get i b then part_bytes part_size file_size i else 0.
Proof.
  intros Hp Hf.
  rewrite (sum_upto_ext _ (fun x => Z.b2z (get i b && ((file_size =? 0) || (i * part_size + x <? file_size))))).
  2:{ intros x Hx. unfold ready_byte. assert (Hq : i <= (i * part_size + x) / part_size < i + 1) by (apply div_in_part; lia).
      by replace ((i * part_size + x) / part_size) with i by lia. }
  destruct (get i b); cbn [andb]; [|apply sum_upto_zero; done].
  unfold part_bytes. destruct (Z.eqb_spec file_size 0) as [->|Hf0]; cbn [negb andb orb].
  - rewrite sum_upto_const, (proj2 (Z.ltb_lt _ _)) by lia. cbn. lia.
  - rewrite count_below, Z2Nat.id by lia.
    destruct (Z.ltb_spec file_size (i * part_size + part_size)); [|rewrite (proj2 (Z.ltb_lt _ _)) by lia; lia].
    destruct (Z.ltb_spec (i * part_size) file_size); lia.
Qed.

Lemma foldl_sum (p : Z -> bool) (f : Z -> Z) n :
  foldl (fun res i => if p i then res + f i else res) 0 (seqZ 0 (Z.of_nat n)) =
  sum_upto (fun i => if p i then f i else 0) n.
Proof.
  induction n as [|n IH]; [by rewrite seqZ_nil|]. rewrite Nat2Z.inj_succ, <- Z.add_1_r, seqZ_app by lia.
  rewrite foldl_app, IH, seqZ_cons, seqZ_nil, Z.add_0_l by lia. cbn [foldl sum_upto]. destruct (p _); lia.
Qed.

Lemma total_size_ok part_size file_size b :
  0 < part_size -> 0 <= file_size ->
  get_total_size part_size file_size b =
  count_ready part_size file_size b (Z.to_nat (size b * part_size)).
Proof.
  intros Hp Hf. unfold get_total_size, count_ready, size. pose proof (len_nonneg b) as Hl.
  replace (len b * 8) with (Z.of_nat (8 * length b)) by (unfold len; lia). rewrite foldl_sum.
  generalize (8 * length b)%nat as n. induction n as [|n IH]; [done|]. cbn [sum_upto]. rewrite IH.
  replace (Z.to_nat (Z.of_nat (S n) * part_size)) with
    (Z.to_nat (Z.of_nat n * part_size) + Z.to_nat part_size)%nat by lia.
  rewrite sum_upto_add. f_equal. rewrite Z2Nat.id by lia. by rewrite part_ready_bytes.
Qed.

(** * Building bitmasks *)

Lemma set_all_spec parts b :
  Forall (fun i => 0 <= i) parts ->
  exists b', set_all parts b = Ok b' /\ (forall j, get j b' = true <-> j ∈ parts \/ get j b = true) /\
    (Forall (fun i => i < size b) parts -> len b' = len b).
Proof.
  revert b. induction parts as [|i parts IH]; intros b Hp; cbn [set_all].
  { exists b. split; [done|]. split; [|done]. intros j. rewrite elem_of_nil. naive_solver. }
  apply Forall_cons in Hp as [Hi Hp]. destruct (set_spec i b Hi) as (b1 & -> & Hl1 & Hg1). rewrite Ok_bind.
  destruct (IH b1 Hp) as (b2 & Hs & Hg2 & Hl2). exists b2. split; [done|]. split.
  - intros j. rewrite Hg2, Hg1, elem_of_cons, orb_true_iff, Z.eqb_eq. tauto.
  - intros [Hib Hpb]%Forall_cons. unfold size in Hib. assert (Hlen : len b1 = len b) by (rewrite Hl1; div_mod_lia).
    rewrite Hl2; [done|]. unfold size in *. by rewrite Hlen.
Qed.

Lemma ones_spec count :
  0 <= count -> exists b, ones count = Ok b /\ (forall i, get i b = true <-> 0 <= i < count) /\
    len b = (count + 7) / 8.
Proof.
  intros Hc. unfold ones. assert (Hq : 0 <= (count + 7) / 8) by (apply Z.div_pos; lia).
  rewrite (proj2 (Z.leb_le _ _)) by done. cbn [check]. rewrite Ok_bind.
  destruct (set_all_spec (seqZ 0 count) (zeros ((count + 7) / 8))) as (b & Hb & Hg & Hl).
  { apply Forall_forall. intros i Hi%elem_of_seqZ. lia. }
  exists b. split; [done|]. split.
  - intros i. rewrite Hg, elem_of_seqZ, get_zeros. split; [intros [?|?]; [lia|done]|intros ?; left; lia].
  - rewrite Hl; [by apply len_zeros|]. apply Forall_forall. intros i Hi%elem_of_seqZ. unfold size.
    rewrite len_zeros by done. div_mod_lia.
Qed.

Lemma as_vector_spec b :
  size b < 2 ^ 31 -> exists parts, as_vector b = Ok parts /\ NoDup parts /\ forall i, i ∈ parts <-> get i b = true.
Proof.
  intros Hs. unfold as_vector. fold (size b). rewrite (proj2 (Z.ltb_lt _ _)) by done. cbn [check]. rewrite Ok_bind.
  eexists. split; [done|]. split; [apply NoDup_filter, NoDup_seqZ|]. intros i.
  rewrite list_elem_of_filter, elem_of_seqZ. split; [by intros [? _]|]. intros Hg. split; [done|].
  apply get_range in Hg. lia.
Qed.

Lemma all_set_true k i b : all_set k i b = true <-> forall j, 0 <= j < k -> get (i * k + j) b = true.
Proof.
  unfold all_set. rewrite forallb_forall. setoid_rewrite <- list_elem_of_In. setoid_rewrite elem_of_seqZ.
  split; intros Ha j Hj; apply Ha; lia.
Qed.

Lemma compress_from_spec fuel i k b res :
  0 < k -> 0 <= i <= size b -> size b < i + Z.of_nat fuel ->
  (forall j, get j res = true <-> j < i /\ 0 <= j /\ all_set k j b = true) ->
  exists res', compress_from fuel i k b res = Ok res' /\
    forall j, get j res' = true <-> 0 <= j /\ all_set k j b = true.
Proof.
  intros Hk. revert i res. induction fuel as [|fuel IH]; intros i res Hi Hf Hres; cbn [compress_from].
  all: assert (Hend : forall j, size b <= j * k -> all_set k j b = true -> False) by
    (intros j Hj Ha; rewrite all_set_true in Ha; specialize (Ha 0 ltac:(lia)); by rewrite get_beyond in Ha by lia).
  { lia. }
  destruct (Z.ltb_spec (i * k) (size b)) as [Hlt|Hge].
  - assert (Hstep : exists res1, (if all_set k i b then set i res else Ok res) = Ok res1 /\
      forall j, get j res1 = true <-> j < i + 1 /\ 0 <= j /\ all_set k j b = true).
    { destruct (all_set k i b) eqn:Ha.
      - destruct (set_spec i res (proj1 Hi)) as (res1 & Hs & _ & Hg). exists res1. split; [done|]. intros j.
        rewrite Hg, orb_true_iff, Hres, Z.eqb_eq. split; [intros [->|(? & ? & ?)]; (split; [lia|split; [lia|done]])|].
        intros (Hj & ? & ?). destruct (Z.eq_dec j i); [by left|right; split; [lia|done]].
      - exists res. split; [done|]. intros j. rewrite Hres. split; [intros (? & ? & ?); split; [lia|done]|].
        intros (Hj & ? & Hj'). destruct (Z.eq_dec j i) as [->|]; [congruence|split; [lia|done]]. }
    destruct Hstep as (res1 & -> & Hres1). rewrite Ok_bind. assert (i <= i * k) by nia. apply IH; [lia..|done].
  - exists res. split; [done|]. intros j. rewrite Hres. split; [tauto|]. intros [Hj Ha]. split; [|done].
    destruct (Z.lt_ge_cases j i); [done|]. exfalso. apply (Hend j); [|done].
    apply Z.le_trans with (i * k); [done|]. apply Z.mul_le_mono_nonneg_r; lia.
Qed.

(** [compress(k)] keeps the groups of [k] parts that are all there. *)
Lemma compress_spec k b :
  0 < k -> exists res, compress k b = Ok res /\
    forall i, get i res = true <-> 0 <= i /\ forall j, 0 <= j < k -> get (i * k + j) b = true.
Proof.
  intros Hk. destruct (compress_from_spec (S (8 * length b)) 0 k b []) as (res & Hr & Hg); [done|unfold size, len; lia..| |].
  - intros j. split; [|lia]. by rewrite (get_zeros 0).
  - exists res. split; [done|]. intros i. by rewrite Hg, all_set_true.
Qed.

(** * Encoding *)

Lemma encode_spec prefix_count b :
  prefix_count = -1 \/ 0 <= prefix_count <= size b ->
  exists data, encode prefix_count b = Ok data /\
    (forall i, get i (decode data) = get i b && ((prefix_count =? -1) || (i <? prefix_count))) /\
    forall b', (forall i, get i b' = get i (decode data)) -> encode (-1) b' = Ok data.
Proof.
  intros Hp. destruct (prefix_bytes_spec prefix_count b Hp) as (s & Hs & Hg).
  exists (zero_one_encode (strip_zeros s)). unfold encode. rewrite Hs. split; [done|].
  assert (Hd : forall i, get i (decode (zero_one_encode (strip_zeros s))) = get i s).
  { intros i. unfold decode. rewrite decode_encode. apply get_bytes. intros j. apply nth_byte_strip. }
  split; [intros i; by rewrite Hd|]. intros b' Hb'. unfold prefix_bytes. cbn [Z.eqb Pos.eqb]. rewrite Ok_bind.
  do 2 f_equal. apply strip_zeros_ext, bytes_of_get. intros i. by rewrite Hb', Hd.
Qed.

Lemma strip_zeros_last s : last (strip_zeros s) <> Some x00.
Proof.
  induction s as [|c s IH]; [done|]. cbn [strip_zeros]. destruct (strip_zeros s) as [|d t] eqn:Hs; [|exact IH].
  destruct (decide (c = x00)) as [->|Hc]; [by rewrite bool_decide_true by done|]. rewrite bool_decide_false by done. cbn. congruence.
Qed.

Lemma nonzero_bit c : c <> x00 -> exists n, 0 <= n < 8 /\ Z.testbit (b2z c) n = true.
Proof.
  intros Hc. pose proof (b2z_range c) as Hr. assert (Hne : b2z c <> 0).
  { intros Hz. apply Hc, b2z_inj. by rewrite Hz. }
  exists (Z.log2 (b2z c)). split; [|apply Z.bit_log2; lia]. split; [apply Z.log2_nonneg|]. apply Z.log2_lt_pow2; lia.
Qed.

(** An encoded bitmask has no bytes behind its last part. *)
Lemma decoded_size b data n :
  encode (-1) b = Ok data -> 0 <= n -> (forall i, get i b = true -> i < n) -> size (decode data) <= n + 7.
Proof.
  intros He Hn Hall. unfold encode, prefix_bytes in He. cbn [Z.eqb Pos.eqb] in He. rewrite Ok_bind in He. injection He as <-.
  unfold decode. rewrite decode_encode. destruct (strip_zeros b) as [|c t] eqn:Hs; [unfold size, len; cbn; lia|].
  destruct (last (strip_zeros b)) as [d|] eqn:Hd; [|by rewrite Hs in Hd; apply last_None in Hd].
  assert (Hd0 : d <> x00) by (intros ->; by apply (strip_zeros_last b)).
  destruct (nonzero_bit d Hd0) as (k & Hk & Hbit). rewrite <- Hs. unfold size. set (m := strip_zeros b) in *.
  assert (Hpos : 0 < len m) by (rewrite Hs; unfold len; cbn; lia).
  rewrite last_lookup in Hd. assert (Hlast : nth_byte m (len m - 1) = d).
  { rewrite nth_byte_lookup. unfold len in *. replace (Z.to_nat (Z.of_nat (length m) - 1)) with (pred (length m)) by lia. by rewrite Hd. }
  assert (Hg : get (8 * (len m - 1) + k) b = true).
  { rewrite <- (get_bytes m b) by (intros j; apply nth_byte_strip). rewrite get_testbit, (proj2 (Z.leb_le _ _)) by lia. cbn [andb].
    replace ((8 * (len m - 1) + k) / 8) with (len m - 1) by div_mod_lia. replace ((8 * (len m - 1) + k) mod 8) with k by div_mod_lia.
    by rewrite Hlast. }
  specialize (Hall _ Hg). lia.
Qed.

(** * Properties *)

(** A bitmask that is encoded, completely or up to a number of parts, and
    decoded again is the same set of parts; and the encoding depends on the set
    only, not on how the bitmask came about. *)
Theorem bitmask_encoding prefix_count b :
  prefix_count = -1 \/ 0 <= prefix_count <= size b ->
  exists data, encode prefix_count b = Ok data /\
    (forall i, get i (decode data) = get i b && ((prefix_count =? -1) || (i <? prefix_count))) /\
    forall b', (forall i, get i b' = get i (decode data)) -> encode (-1) b' = Ok data.
Proof. apply encode_spec. Qed.

(** [get_ready_prefix_size] is the number of bytes that can be read from the
    offset on: all of them are ready, the next one is not.  [get_total_size] is
    the number of the ready bytes.  No check fails. *)
Theorem ready_sizes offset part_size file_size b :
  0 <= offset -> 0 < part_size -> 0 <= file_size ->
  (exists res, get_ready_prefix_size offset part_size file_size b = Ok res /\ 0 <= res /\
     (forall x, offset <= x < offset + res -> ready_byte part_size file_size x b = true) /\
     ready_byte part_size file_size (offset + res) b = false) /\
  get_total_size part_size file_size b = count_ready part_size file_size b (Z.to_nat (size b * part_size)).
Proof. intros Ho Hp Hf. split; [by apply ready_prefix_ok|by apply total_size_ok]. Qed.

(** ** On a concrete bitmask *)

Definition sample_mask : bitmask := hex [255; 255; 255; 7; 0; 0; 1; 0].

Lemma bitmask_encoding_witness :
  encode 20 sample_mask = Ok (hex [255; 2; 15]) /\ decode (hex [255; 2; 15]) = hex [255; 255; 15] /\
  exists data, encode 20 sample_mask = Ok data /\ get 19 (decode data) = true /\ get 20 (decode data) = false.
Proof.
  split; [reflexivity|]. split; [reflexivity|].
  destruct (bitmask_encoding 20 sample_mask) as (data & He & Hg & _).
  - right. split; vm_compute; discriminate.
  - exists data. split; [exact He|]. rewrite !Hg. split; reflexivity.
Defined.

Lemma ready_sizes_witness :
  get_ready_prefix_size 1000 100 0 sample_mask = Ok 1700 /\ get_total_size 100 4850 sample_mask = 2750 /\
  exists res, get_ready_prefix_size 1000 100 4850 sample_mask = Ok res /\ 0 <= res.
Proof.
  split; [reflexivity|]. split; [reflexivity|].
  destruct (ready_sizes 1000 100 4850 sample_mask) as ((res & Hr & Hp & _) & _); [lia..|].
  exists res. split; [exact Hr|exact Hp].
Defined.
