(* ===== verification/PartsManager.v ===== *)
(** The parts of a file that is downloaded or uploaded: [class PartsManager] of
    [telegram/files/PartsManager.cpp].

    It decides which part is transferred next, keeps which parts are there, and
    finds out the size of a file of unknown size.  A method is a computation
    [P] that returns a result and the changed object; a constant method is a
    function of the object.  The theorems are in PartsManagerSpec.v.

    Sizes and offsets are integers: they stay below 2^63 in the code, since
    files are at most [MAX_FILE_SIZE] long.  The conversions that may lose
    something, [static_cast<int>] and [narrow_cast<int>], are written out. *)
From coqutil Require Import Datatypes.RecordSettersUsingExistingGetters.
From S2P Require Import Prelude Bytes FileBitmask.
#[global] Arguments RecordSettersUsingExistingGetters.const {E} newValue _ /.
#[local] Open Scope Z_scope.

Definition MAX_PART_COUNT : Z := 4000.
Definition MAX_PART_COUNT_PREMIUM : Z := 8000.
Definition MAX_PART_SIZE : Z := Z.shiftl 512 10.
Definition MAX_FILE_SIZE : Z := MAX_PART_SIZE * MAX_PART_COUNT_PREMIUM.

(** [std::numeric_limits<int64>::max()] *)
Definition max_int64 : Z := 2 ^ 63 - 1.

Inductive PartStatus := Empty | Pending | Ready.

#[export] Instance PartStatus_eq_dec : EqDecision PartStatus.
Proof. solve_decision. Defined.

Record Part := mk_part { part_id : Z; part_offset : Z; part_length : Z }.

Definition get_empty_part : Part := mk_part (-1) 0 0.

Record parts_manager := mk_pm {
  is_upload_ : bool;
  need_check_ : bool;
  checked_prefix_size_ : Z;
  known_prefix_flag_ : bool;
  known_prefix_size_ : Z;
  size_ : Z;
  expected_size_ : Z;
  min_size_ : Z;
  max_size_ : Z;
  unknown_size_flag_ : bool;
  ready_size_ : Z;
  streaming_ready_size_ : Z;
  part_size_ : Z;
  part_count_ : Z;
  pending_count_ : Z;
  first_empty_part_ : Z;
  first_not_ready_part_ : Z;
  streaming_offset_ : Z;
  streaming_limit_ : Z;
  first_streaming_empty_part_ : Z;
  first_streaming_not_ready_part_ : Z;
  part_status_ : list PartStatus;
  bitmask_ : bitmask;
  use_part_count_limit_ : bool;
}.

(** A new object. *)
Definition new_pm : parts_manager :=
  mk_pm false false 0 false 0 0 0 0 0 false 0 0 0 0 0 0 0 0 0 0 0 [] [] false.

Implicit Types pm : parts_manager.

(** * Computations on a parts manager *)

Definition P (A : Type) : Type := parts_manager -> outcome A * parts_manager.

#[export] Instance P_ret : MRet P := fun A a pm => (Ok a, pm).

#[export] Instance P_bind : MBind P := fun A B f m pm =>
  match m pm with
  | (Ok a, pm) => f a pm
  | (Err e, pm) => (Err e, pm)
  | (Crash, pm) => (Crash, pm)
  end.

(** A constant method. *)
Definition ask {A} (f : parts_manager -> outcome A) : P A := fun pm => (f pm, pm).

Definition gets {A} (f : parts_manager -> A) : P A := fun pm => (Ok (f pm), pm).

Definition modify (f : parts_manager -> parts_manager) : P unit := fun pm => (Ok tt, f pm).

(** [CHECK] and [return Status::Error]. *)
Definition CHECK (b : bool) : P unit := fun pm => (check b, pm).

Definition throw {A} (message : string) : P A := fun pm => (Err (Error 0 message), pm).

(** [narrow_cast<int>]. *)
Definition narrow_int (x : Z) : outcome Z := _ ← check ((- 2 ^ 31 <=? x) && (x <? 2 ^ 31)); Ok x.

(** * Constant methods *)

Definition calc_part_count (size part_size : Z) : outcome Z :=
  _ ← check (negb (part_size =? 0)); Ok ((size + part_size - 1) / part_size).

(** [part_status_[i]], inside of the vector. *)
Definition status_at (i : Z) pm : outcome PartStatus :=
  if (0 <=? i) && (i <? len (part_status_ pm)) then Ok (nth (Z.to_nat i) (part_status_ pm) Empty) else Crash.

Definition set_status (i : Z) (s : PartStatus) pm : parts_manager :=
  { pm with part_status_ := <[Z.to_nat i := s]> (part_status_ pm) }.

Definition get_size pm : outcome Z := _ ← check (negb (unknown_size_flag_ pm)); Ok (size_ pm).

Definition get_part (id : Z) pm : outcome Part :=
  let size := part_size_ pm in
  let offset := size * id in
  total_size ← (if unknown_size_flag_ pm then Ok (max_size_ pm) else get_size pm);
  let size := if total_size <? offset then 0 else Z.min size (total_size - offset) in
  Ok (mk_part id offset size).

Definition intersects (begin_ end_ offset_begin offset_end : Z) : bool :=
  Z.max begin_ offset_begin <? Z.min end_ offset_end.

Definition is_part_in_streaming_limit (id : Z) pm : outcome bool :=
  _ ← check (id <? part_count_ pm);
  let offset_begin := id * part_size_ pm in
  part ← get_part id pm;
  let offset_end := offset_begin + part_length part in
  if streaming_limit_ pm =? 0 then Ok true
  else
    let streaming_begin := streaming_offset_ pm in
    let streaming_end := streaming_offset_ pm + streaming_limit_ pm in
    if intersects streaming_begin streaming_end offset_begin offset_end then Ok true
    else if unknown_size_flag_ pm then Ok false
    else
      size ← get_size pm;
      Ok ((size <? streaming_end) && intersects 0 (streaming_end - size) offset_begin offset_end).

(** The loop over all parts that adds up the ready bytes in the streaming
    window, from part [i] on. *)
Fixpoint add_streaming_ready (n : nat) (i res : Z) pm : outcome Z :=
  match n with
  | O => Ok res
  | S n =>
      in_limit ← is_part_in_streaming_limit i pm;
      res ← (if in_limit : bool then
               st ← status_at i pm;
               if bool_decide (st = Ready) then part ← get_part i pm; Ok (res + part_length part) else Ok res
             else Ok res);
      add_streaming_ready n (i + 1) res pm
  end.

Definition streaming_ready_total pm : outcome Z := add_streaming_ready (Z.to_nat (part_count_ pm)) 0 0 pm.

Definition get_expected_size pm : outcome Z :=
  if unknown_size_flag_ pm then
    Ok (Z.min (Z.max (min_size_ pm + Z.shiftl 512 10) (ready_size_ pm * 2)) (max_size_ pm))
  else get_size pm.

(** The size of the streaming window. *)
Definition streaming_size pm : Z :=
  let part_size := part_size_ pm in
  let round_up size := (size + part_size - 1) / part_size * part_size in
  let streaming_begin := streaming_offset_ pm / part_size * part_size in
  if unknown_size_flag_ pm then
    let streaming_begin := Z.min streaming_begin (max_size_ pm) in
    let streaming_end := Z.min (round_up (streaming_offset_ pm + streaming_limit_ pm)) (max_size_ pm) in
    streaming_end - streaming_begin
  else if streaming_offset_ pm + streaming_limit_ pm <=? size_ pm then
    Z.min (round_up (streaming_offset_ pm + streaming_limit_ pm)) (size_ pm) - streaming_begin
  else if streaming_offset_ pm <? size_ pm then
    let prefix := Z.min (round_up (streaming_offset_ pm + streaming_limit_ pm - size_ pm)) (size_ pm) in
    let suffix := size_ pm - streaming_begin in
    Z.min (size_ pm) (prefix + suffix)
  else 0.

Definition get_estimated_extra pm : outcome Z :=
  expected_size ← get_expected_size pm;
  let total_estimated_extra := expected_size - ready_size_ pm in
  if negb (streaming_limit_ pm =? 0) then
    _ ← check (negb (part_size_ pm =? 0));
    let res := streaming_size pm in
    sub ← streaming_ready_total pm;
    _ ← check (sub =? streaming_ready_size_ pm);
    let res := res - streaming_ready_size_ pm in
    _ ← check (0 <=? res);
    Ok res
  else Ok total_estimated_extra.

Definition unchecked_ready pm : bool := negb (unknown_size_flag_ pm) && (ready_size_ pm =? size_ pm).

Definition ready pm : bool :=
  unchecked_ready pm && (negb (need_check_ pm) || (checked_prefix_size_ pm =? size_ pm)).

Definition get_bitmask pm : outcome bytes :=
  prefix_count ← (if need_check_ pm then
                    _ ← check (negb (part_size_ pm =? 0)); narrow_int (checked_prefix_size_ pm / part_size_ pm)
                  else Ok (-1));
  encode prefix_count (bitmask_ pm).

(** * Searching for a part *)

(** [while (i < part_count_ && skip(part_status_[i])) i++] *)
Fixpoint skip_parts (fuel : nat) (skip : PartStatus -> bool) (i : Z) pm : outcome Z :=
  match fuel with
  | O => Crash
  | S fuel =>
      if i <? part_count_ pm then
        st ← status_at i pm;
        if skip st then skip_parts fuel skip (i + 1) pm else Ok i
      else Ok i
  end.

Definition skip_from (skip : PartStatus -> bool) (i : Z) pm : outcome Z :=
  skip_parts (S (Z.to_nat (part_count_ pm - i))) skip i pm.

Arguments skip_from : simpl never.

Definition not_empty (st : PartStatus) : bool := bool_decide (st <> Empty).
Definition is_ready_part (st : PartStatus) : bool := bool_decide (st = Ready).

Definition update_first_empty_part : P unit :=
  i ← gets first_empty_part_;
  i ← ask (skip_from not_empty i);
  _ ← modify (fun pm => { pm with first_empty_part_ := i });
  offset ← gets streaming_offset_;
  if offset =? 0 then modify (fun pm => { pm with first_streaming_empty_part_ := i })
  else
    j ← gets first_streaming_empty_part_;
    j ← ask (skip_from not_empty j);
    modify (fun pm => { pm with first_streaming_empty_part_ := j }).

Definition update_first_not_ready_part : P unit :=
  i ← gets first_not_ready_part_;
  i ← ask (skip_from is_ready_part i);
  _ ← modify (fun pm => { pm with first_not_ready_part_ := i });
  offset ← gets streaming_offset_;
  if offset =? 0 then modify (fun pm => { pm with first_streaming_not_ready_part_ := i })
  else
    j ← gets first_streaming_not_ready_part_;
    j ← ask (skip_from is_ready_part j);
    modify (fun pm => { pm with first_streaming_not_ready_part_ := j }).

Definition get_unchecked_ready_prefix_count : P Z :=
  _ ← update_first_not_ready_part; gets first_not_ready_part_.

Definition get_ready_prefix_count : P Z :=
  res ← get_unchecked_ready_prefix_count;
  need_check ← gets need_check_;
  if need_check : bool then
    checked_parts ← ask (fun pm => _ ← check (negb (part_size_ pm =? 0));
                                   narrow_int (checked_prefix_size_ pm / part_size_ pm));
    mret (if checked_parts <? res then checked_parts else res)
  else mret res.

Definition get_unchecked_ready_prefix_size : P Z :=
  count ← get_unchecked_ready_prefix_count;
  if count =? 0 then mret 0
  else
    part ← ask (get_part (count - 1));
    unknown ← gets unknown_size_flag_;
    if unknown : bool then mret (part_offset part)
    else
      size ← ask get_size;
      mret (Z.min (part_offset part + part_length part) size).

(** * Streaming *)

Definition set_streaming_limit (limit : Z) : P unit :=
  _ ← modify (fun pm => { pm with streaming_limit_ := limit; streaming_ready_size_ := 0 });
  if limit =? 0 then mret tt
  else
    total ← ask streaming_ready_total;
    modify (fun pm => { pm with streaming_ready_size_ := total }).

(** [part_status_.resize(n, PartStatus::Empty)] *)
Definition resize_status (n : Z) (l : list PartStatus) : list PartStatus :=
  take (Z.to_nat n) l ++ replicate (Z.to_nat (n - len l)) Empty.

Definition finish_streaming (limit : Z) : P Z :=
  _ ← set_streaming_limit limit;
  _ ← update_first_not_ready_part;
  gets first_streaming_not_ready_part_.

(** An offset that is ignored is logged together with the size of the file,
    unless it is 0. *)
Definition set_streaming_offset (offset limit : Z) : P Z :=
  ignored ← ask (fun pm =>
    if (offset <? 0) || need_check_ pm then Ok true
    else if unknown_size_flag_ pm then Ok false
    else size ← get_size pm; Ok (size <? offset));
  if ignored : bool then
    _ ← modify (fun pm => { pm with streaming_offset_ := 0 });
    _ ← (if offset =? 0 then mret tt else _ ← ask get_size; mret tt);
    finish_streaming limit
  else
    part_id ← ask (fun pm => _ ← check (negb (part_size_ pm =? 0)); Ok (offset / part_size_ pm));
    limited ← gets use_part_count_limit_;
    if limited && (MAX_PART_COUNT_PREMIUM <=? part_id) then
      _ ← modify (fun pm => { pm with streaming_offset_ := 0 });
      finish_streaming limit
    else
      _ ← modify (fun pm => { pm with streaming_offset_ := offset });
      id ← ask (fun _ => narrow_int part_id);
      _ ← modify (fun pm => { pm with first_streaming_empty_part_ := id; first_streaming_not_ready_part_ := id });
      count ← gets part_count_;
      _ ← (if count <? id then
             modify (fun pm => { pm with part_count_ := id; part_status_ := resize_status id (part_status_ pm) })
           else mret tt);
      finish_streaming limit.

Definition is_streaming_limit_reached : P bool :=
  limit ← gets streaming_limit_;
  if limit =? 0 then mret false
  else
    _ ← update_first_not_ready_part;
    part_id ← gets (fun pm =>
      let part_id := first_streaming_not_ready_part_ pm in
      if negb (unknown_size_flag_ pm) && (part_id =? part_count_ pm) then first_not_ready_part_ pm else part_id);
    outside ← ask (fun pm =>
      if part_id =? part_count_ pm then Ok true
      else in_limit ← is_part_in_streaming_limit part_id pm; Ok (negb in_limit));
    if outside : bool then extra ← ask get_estimated_extra; mret (extra =? 0) else mret false.

Definition may_finish : P bool :=
  reached ← is_streaming_limit_reached;
  if reached : bool then mret true else gets ready.

Definition finish : P unit :=
  is_ready ← gets ready;
  if is_ready : bool then mret tt
  else
    reached ← is_streaming_limit_reached;
    if reached : bool then throw "FILE_DOWNLOAD_LIMIT" else throw "File transferring not finished".

Definition set_checked_prefix_size (size : Z) : P unit :=
  modify (fun pm => { pm with checked_prefix_size_ := size }).

Definition set_need_check : P unit :=
  _ ← modify (fun pm => { pm with need_check_ := true });
  _ ← set_streaming_offset 0 0;
  mret tt.

(** * Initialization *)

(** [while (part_size_ < MAX_PART_SIZE && calc_part_count(expected_size_,
    part_size_) > MAX_PART_COUNT) part_size_ *= 2] *)
Fixpoint grow_part_size (fuel : nat) (expected_size part_size : Z) : outcome Z :=
  match fuel with
  | O => Crash
  | S fuel =>
      if part_size <? MAX_PART_SIZE then
        count ← calc_part_count expected_size part_size;
        if MAX_PART_COUNT <? count then grow_part_size fuel expected_size (part_size * 2) else Ok part_size
      else Ok part_size
  end.

(** The part size doubles at most four times. *)
Definition grow_fuel : nat := 6.

(** The loop over the parts that are ready from the start. *)
Fixpoint init_ready_parts (ready_parts : list Z) : P unit :=
  match ready_parts with
  | [] => mret tt
  | i :: ready_parts =>
      known ← ask (fun pm =>
        if known_prefix_flag_ pm then
          _ ← check (negb (part_size_ pm =? 0)); Ok (int32 (known_prefix_size_ pm / part_size_ pm) <=? i)
        else Ok false);
      upload ← gets is_upload_;
      count ← gets part_count_;
      if known : bool then _ ← CHECK upload; throw "FILE_UPLOAD_RESTART"
      else if upload && (count <=? i) then throw "FILE_UPLOAD_RESTART"
      else
        _ ← CHECK ((0 <=? i) && (i <? count));
        _ ← modify (set_status i Ready);
        mask ← ask (fun pm => set i (bitmask_ pm));
        _ ← modify (fun pm => { pm with bitmask_ := mask });
        part ← ask (get_part i);
        _ ← modify (fun pm => { pm with ready_size_ := ready_size_ pm + part_length part });
        init_ready_parts ready_parts
  end.

Definition init_common (ready_parts : list Z) : P unit :=
  count ← gets part_count_;
  _ ← CHECK (0 <=? count);
  _ ← modify (fun pm => { pm with
        ready_size_ := 0; streaming_ready_size_ := 0; pending_count_ := 0; first_empty_part_ := 0;
        first_not_ready_part_ := 0; part_status_ := replicate (Z.to_nat count) Empty });
  _ ← init_ready_parts ready_parts;
  prefix_count ← get_ready_prefix_count;
  modify (fun pm => { pm with checked_prefix_size_ := prefix_count * part_size_ pm }).

Definition init_no_size (part_size : Z) (ready_parts : list Z) : P unit :=
  _ ← modify (fun pm => { pm with unknown_size_flag_ := true; size_ := 0; min_size_ := 0; max_size_ := max_int64 });
  expected_size ← gets expected_size_;
  part_size ← (if negb (part_size =? 0) then mret part_size
               else
                 part_size ← ask (fun _ => grow_part_size grow_fuel expected_size (Z.shiftl 32 10));
                 mret (if part_size <? MAX_PART_SIZE then part_size * 2 else part_size));
  _ ← modify (fun pm => { pm with part_size_ := part_size });
  _ ← modify (fun pm => { pm with part_count_ := foldl (fun a b => Z.max a (b + 1)) 0 ready_parts });
  init_common ready_parts.

Definition init_known_prefix (known_prefix part_size : Z) (ready_parts : list Z) : P unit :=
  _ ← modify (fun pm => { pm with known_prefix_flag_ := true; known_prefix_size_ := known_prefix });
  init_no_size part_size ready_parts.

Definition init (size expected_size : Z) (is_size_final : bool) (part_size : Z) (ready_parts : list Z)
    (use_part_count_limit is_upload : bool) : P unit :=
  _ ← CHECK (size <=? expected_size);
  _ ← modify (fun pm => { pm with
        is_upload_ := is_upload; use_part_count_limit_ := use_part_count_limit; expected_size_ := expected_size });
  if MAX_FILE_SIZE <? expected_size then throw "Too big file"
  else if negb is_size_final then init_known_prefix size part_size ready_parts
  else if size =? 0 then init_no_size part_size ready_parts
  else
    _ ← CHECK (0 <? size);
    _ ← modify (fun pm => { pm with unknown_size_flag_ := false; size_ := size });
    restart ← (if negb (part_size =? 0) then
                 _ ← modify (fun pm => { pm with part_size_ := part_size });
                 if use_part_count_limit && (part_size <? MAX_PART_SIZE) then
                   count ← ask (fun _ => calc_part_count expected_size part_size); mret (MAX_PART_COUNT <? count)
                 else mret false
               else
                 part_size ← ask (fun _ => grow_part_size grow_fuel expected_size (Z.shiftl 64 10));
                 _ ← modify (fun pm => { pm with part_size_ := part_size });
                 mret false);
    if restart : bool then _ ← CHECK is_upload; throw "FILE_UPLOAD_RESTART"
    else
      _ ← CHECK (1 <=? size);
      part_size ← gets part_size_;
      expected_count ← ask (fun _ => calc_part_count expected_size part_size);
      _ ← CHECK (negb use_part_count_limit || (expected_count <=? MAX_PART_COUNT_PREMIUM));
      count ← ask (fun _ => calc_part_count size part_size);
      _ ← modify (fun pm => { pm with part_count_ := int32 count });
      init_common ready_parts.

(** * Transferring parts *)

Definition on_part_start (id : Z) : P unit :=
  st ← ask (status_at id);
  _ ← CHECK (bool_decide (st = Empty));
  _ ← modify (set_status id Pending);
  modify (fun pm => { pm with pending_count_ := pending_count_ pm + 1 }).

(** The end of [start_part], for a part inside of the vector. *)
Definition start_this_part (id : Z) : P Part :=
  in_limit ← ask (is_part_in_streaming_limit id);
  outside ← gets (fun pm => (if unknown_size_flag_ pm then max_size_ pm else size_ pm) <=? id * part_size_ pm);
  if negb in_limit || outside then mret get_empty_part
  else
    st ← ask (status_at id);
    _ ← CHECK (bool_decide (st = Empty));
    _ ← on_part_start id;
    ask (get_part id).

Definition start_part : P Part :=
  _ ← update_first_empty_part;
  id ← gets first_streaming_empty_part_;
  wait ← ask (fun pm =>
    if known_prefix_flag_ pm then
      _ ← check (negb (part_size_ pm =? 0)); Ok (int32 (known_prefix_size_ pm / part_size_ pm) <=? id)
    else Ok false);
  if wait : bool then ask (fun _ => Err (Error (-1) "Wait for prefix to be known"))
  else
    count ← gets part_count_;
    unknown ← gets unknown_size_flag_;
    if id =? count then
      if unknown : bool then
        _ ← modify (fun pm => { pm with part_count_ := part_count_ pm + 1 });
        limited ← gets use_part_count_limit_;
        upload ← gets is_upload_;
        if MAX_PART_COUNT_PREMIUM + (if limited : bool then 0 else 64) <? count + 1 then
          throw (if negb upload then "FILE_DOWNLOAD_RESTART_INCREASE_PART_SIZE" else "Too big file with unknown size")
        else
          _ ← modify (fun pm => { pm with part_status_ := part_status_ pm ++ [Empty] });
          start_this_part id
      else
        first ← gets first_empty_part_;
        if first <? count then start_this_part first else mret get_empty_part
    else start_this_part id.

Definition set_known_prefix (size : Z) (is_ready : bool) : P unit :=
  restart ← ask (fun pm =>
    if negb (known_prefix_flag_ pm) || (size <? known_prefix_size_ pm) then Ok true
    else if negb is_ready then
      _ ← check (negb (part_size_ pm =? 0)); Ok (size / part_size_ pm <? len (part_status_ pm))
    else Ok false);
  upload ← gets is_upload_;
  if restart : bool then _ ← CHECK upload; throw "FILE_UPLOAD_RESTART"
  else
    _ ← modify (fun pm => { pm with known_prefix_size_ := size; expected_size_ := Z.max size (expected_size_ pm) });
    consistent ← gets (fun pm => part_count_ pm =? len (part_status_ pm));
    _ ← CHECK consistent;
    _ ← (if is_ready then
           count ← ask (fun pm => calc_part_count size (part_size_ pm));
           _ ← modify (fun pm => { pm with
                 part_count_ := int32 count; size_ := size; unknown_size_flag_ := false; known_prefix_flag_ := false });
           limit ← gets streaming_limit_;
           if negb (limit =? 0) then set_streaming_limit limit else mret tt
         else modify (fun pm => { pm with part_count_ := int32 (size / part_size_ pm) }));
    enough ← gets (fun pm => len (part_status_ pm) <=? part_count_ pm);
    _ ← CHECK enough;
    _ ← modify (fun pm => { pm with part_status_ := resize_status (part_count_ pm) (part_status_ pm) });
    too_many ← ask (fun pm =>
      if use_part_count_limit_ pm && (part_size_ pm <? MAX_PART_SIZE) then
        count ← calc_part_count (expected_size_ pm) (part_size_ pm); Ok (MAX_PART_COUNT <? count)
      else Ok false);
    if too_many : bool then _ ← CHECK upload; throw "FILE_UPLOAD_RESTART" else mret tt.

(** The bookkeeping of [on_part_ok] for a file of unknown size. *)
Definition on_part_ok_unknown (part_size actual_size end_offset : Z) : P unit :=
  full ← gets part_size_;
  _ ← CHECK (part_size =? full);
  max_size ← gets max_size_;
  let lowered := (actual_size <? full) && (end_offset <? max_size) in
  _ ← (if lowered then modify (fun pm => { pm with max_size_ := end_offset }) else mret tt);
  _ ← (if negb (actual_size =? 0)
       then modify (fun pm => { pm with min_size_ := Z.max (min_size_ pm) end_offset }) else mret tt);
  min_size ← gets min_size_;
  max_size ← gets max_size_;
  if max_size <? min_size then throw "Failed to transfer file: "
  else
    _ ← (if min_size =? max_size
         then modify (fun pm => { pm with unknown_size_flag_ := false; size_ := min_size }) else mret tt);
    limit ← gets streaming_limit_;
    if (lowered || (min_size =? max_size)) && negb (limit =? 0) then set_streaming_limit limit else mret tt.

Definition on_part_ok (id part_size actual_size : Z) : P unit :=
  st ← ask (status_at id);
  _ ← CHECK (bool_decide (st = Pending));
  _ ← modify (fun pm => { pm with pending_count_ := pending_count_ pm - 1 });
  _ ← modify (set_status id Ready);
  _ ← (if negb (actual_size =? 0) then
         mask ← ask (fun pm => set id (bitmask_ pm)); modify (fun pm => { pm with bitmask_ := mask })
       else mret tt);
  _ ← modify (fun pm => { pm with ready_size_ := ready_size_ pm + actual_size });
  limit ← gets streaming_limit_;
  in_limit ← (if 0 <? limit then ask (is_part_in_streaming_limit id) else mret false);
  _ ← (if in_limit : bool
       then modify (fun pm => { pm with streaming_ready_size_ := streaming_ready_size_ pm + actual_size })
       else mret tt);
  offset ← gets (fun pm => part_size_ pm * id);
  unknown ← gets unknown_size_flag_;
  if unknown : bool then on_part_ok_unknown part_size actual_size (offset + actual_size)
  else
    size ← gets size_;
    if (actual_size <? part_size) && (offset <? size) || (size <=? offset) && (0 <? actual_size)
    then throw "Failed to transfer file: " else mret tt.

Definition on_part_failed (id : Z) : P unit :=
  st ← ask (status_at id);
  _ ← CHECK (bool_decide (st = Pending));
  _ ← modify (fun pm => { pm with pending_count_ := pending_count_ pm - 1 });
  _ ← modify (set_status id Empty);
  _ ← modify (fun pm => if id <? first_empty_part_ pm then { pm with first_empty_part_ := id } else pm);
  offset ← gets streaming_offset_;
  if offset =? 0 then modify (fun pm => { pm with first_streaming_empty_part_ := id })
  else
    offset_part_id ← ask (fun pm => _ ← check (negb (part_size_ pm =? 0)); narrow_int (offset / part_size_ pm));
    modify (fun pm =>
      if (offset_part_id <=? id) && (id <? first_streaming_empty_part_ pm)
      then { pm with first_streaming_empty_part_ := id } else pm).
