(* ===== verification/PartsManagerSpec.v ===== *)
(** What [PartsManager] guarantees.

    [wf] is the invariant of the object: the counters agree with the statuses
    of the parts, the cursors are behind the parts that they claim to have
    passed, the ready bytes of the streaming window are what the code adds up.
    [accounted] says the same of the ready bytes.  Every call that the
    loaders make keeps them and fails no check. *)
From coqutil Require Import Datatypes.RecordSettersUsingExistingGetters.
From S2P Require Import Prelude Bytes FileBitmask PartsManager.
#[local] Open Scope Z_scope.

Implicit Types pm : parts_manager.

(** * Computations *)

Section computations.
Context {A B : Type}.

Lemma bind_ok (m : P A) (f : A -> P B) pm a pm' : m pm = (Ok a, pm') -> (m ≫= f) pm = f a pm'.
Proof. intros Hm. unfold mbind, P_bind. by rewrite Hm. Qed.

Lemma bind_err (m : P A) (f : A -> P B) pm e pm' : m pm = (Err e, pm') -> (m ≫= f) pm = (Err e, pm').
Proof. intros Hm. unfold mbind, P_bind. by rewrite Hm. Qed.
End computations.

(** Runs the first step of a computation, which leaves [pm1], when its result
    is found by evaluation. *)
Ltac pm_step pm1 := etransitivity; [eapply (bind_ok _ _ _ _ pm1); reflexivity|]; cbv beta.

(** * The object as functions of the part *)

Definition total pm : Z := if unknown_size_flag_ pm then max_size_ pm else size_ pm.

Definition part_len (i : Z) pm : Z :=
  let offset := part_size_ pm * i in
  if total pm <? offset then 0 else Z.min (part_size_ pm) (total pm - offset).

Definition status (i : Z) pm : PartStatus := nth (Z.to_nat i) (part_status_ pm) Empty.

(** Part [i] meets the streaming window. *)
Definition in_window (i : Z) pm : bool :=
  let offset_begin := i * part_size_ pm in
  let offset_end := offset_begin + part_len i pm in
  let streaming_end := streaming_offset_ pm + streaming_limit_ pm in
  (streaming_limit_ pm =? 0) || intersects (streaming_offset_ pm) streaming_end offset_begin offset_end ||
  (negb (unknown_size_flag_ pm) && (size_ pm <? streaming_end) &&
   intersects 0 (streaming_end - size_ pm) offset_begin offset_end).

(** A sum over all parts. *)
Definition over_parts (f : Z -> Z) pm : Z := sum_upto f (length (part_status_ pm)).

Definition is_status (s : PartStatus) (i : Z) pm : bool := bool_decide (status i pm = s).

Definition ready_len (i : Z) pm : Z := if is_status Ready i pm then part_len i pm else 0.

Definition ready_bytes pm : Z := over_parts (fun i => ready_len i pm) pm.

Definition window_ready_bytes pm : Z := over_parts (fun i => if in_window i pm then ready_len i pm else 0) pm.

Definition pending_parts pm : Z := over_parts (fun i => Z.b2z (is_status Pending i pm)) pm.

Lemma part_len_nonneg i pm : 0 < part_size_ pm -> 0 <= part_len i pm.
Proof. intros Hp. unfold part_len. destruct (Z.ltb_spec (total pm) (part_size_ pm * i)); lia. Qed.

Lemma part_len_le i pm : 0 < part_size_ pm -> part_len i pm <= part_size_ pm.
Proof. intros Hp. unfold part_len. destruct (Z.ltb_spec (total pm) (part_size_ pm * i)); lia. Qed.

Lemma narrow_int_small x : - 2 ^ 31 <= x < 2 ^ 31 -> narrow_int x = Ok x.
Proof. intros Hx. unfold narrow_int. by rewrite (proj2 (Z.leb_le _ _)), (proj2 (Z.ltb_lt _ _)) by lia. Qed.

Lemma get_part_eq i pm : get_part i pm = Ok (mk_part i (part_size_ pm * i) (part_len i pm)).
Proof. unfold get_part, get_size, part_len, total. by destruct (unknown_size_flag_ pm). Qed.

Lemma in_limit_eq i pm : i < part_count_ pm -> is_part_in_streaming_limit i pm = Ok (in_window i pm).
Proof.
  intros Hi. unfold is_part_in_streaming_limit, in_window. rewrite (proj2 (Z.ltb_lt _ _)) by done. cbn [check].
  rewrite Ok_bind, get_part_eq, Ok_bind. cbn [part_length]. destruct (streaming_limit_ pm =? 0); [done|].
  destruct (intersects (streaming_offset_ pm) _ _ _); [done|]. unfold get_size. by destruct (unknown_size_flag_ pm).
Qed.

Lemma status_at_eq i pm : 0 <= i < len (part_status_ pm) -> status_at i pm = Ok (status i pm).
Proof.
  intros Hi. unfold status_at, status. by rewrite (proj2 (Z.leb_le _ _)), (proj2 (Z.ltb_lt _ _)) by lia.
Qed.

Lemma status_beyond i pm : len (part_status_ pm) <= i -> status i pm = Empty.
Proof. intros Hi. unfold status, len in *. apply nth_overflow. lia. Qed.

Lemma status_set i s j pm :
  0 <= i < len (part_status_ pm) -> 0 <= j -> status j (set_status i s pm) = if j =? i then s else status j pm.
Proof.
  intros Hi Hj. unfold status, set_status. cbn. rewrite !nth_lookup. unfold len in Hi.
  destruct (Z.eqb_spec j i) as [->|Hne].
  - by rewrite list_lookup_insert_eq by lia.
  - by rewrite list_lookup_insert_ne by lia.
Qed.

Lemma add_streaming_ready_eq n i res pm :
  0 <= i -> i + Z.of_nat n <= part_count_ pm -> part_count_ pm = len (part_status_ pm) ->
  add_streaming_ready n i res pm =
  Ok (res + sum_upto (fun k => if in_window (i + k) pm then ready_len (i + k) pm else 0) n).
Proof.
  intros Hi Hn Hc. revert i res Hi Hn. induction n as [|n IH]; intros i res Hi Hn; cbn [add_streaming_ready].
  { by rewrite Z.add_0_r. }
  rewrite in_limit_eq, Ok_bind by lia. rewrite (sum_upto_add _ 1 n). cbn [sum_upto].
  replace (i + Z.of_nat 0) with i by lia.
  set (s := sum_upto _ n). assert (Hs : s = sum_upto (fun k => if in_window (i + 1 + k) pm then ready_len (i + 1 + k) pm else 0) n).
  { apply sum_upto_ext. intros k _. by replace (i + (Z.of_nat 1 + k)) with (i + 1 + k) by lia. }
  assert (Hstep : (if in_window i pm then
                     st ← status_at i pm;
                     if bool_decide (st = Ready) then part ← get_part i pm; Ok (res + part_length part) else Ok res
                   else Ok res) = Ok (res + if in_window i pm then ready_len i pm else 0)).
  { destruct (in_window i pm); [|by rewrite Z.add_0_r]. rewrite status_at_eq, Ok_bind by lia.
    unfold ready_len, is_status. destruct (bool_decide _); [|by rewrite Z.add_0_r]. by rewrite get_part_eq. }
  rewrite Hstep, Ok_bind, IH by lia. f_equal. rewrite Hs. lia.
Qed.

Lemma streaming_ready_total_eq pm :
  part_count_ pm = len (part_status_ pm) -> streaming_ready_total pm = Ok (window_ready_bytes pm).
Proof.
  intros Hc. pose proof (len_nonneg (part_status_ pm)). unfold streaming_ready_total. rewrite add_streaming_ready_eq by lia. rewrite Z.add_0_l.
  unfold window_ready_bytes, over_parts.
  by replace (Z.to_nat (part_count_ pm)) with (length (part_status_ pm)) by (unfold len in Hc; lia).
Qed.

Lemma skip_from_eq skip i pm :
  0 <= i <= part_count_ pm -> part_count_ pm = len (part_status_ pm) ->
  exists j, skip_from skip i pm = Ok j /\ i <= j <= part_count_ pm /\
    (forall k, i <= k < j -> skip (status k pm) = true) /\
    (j < part_count_ pm -> skip (status j pm) = false).
Proof.
  intros Hi Hc. unfold skip_from.
  assert (Hf : part_count_ pm - i < Z.of_nat (S (Z.to_nat (part_count_ pm - i)))) by lia. revert Hf.
  generalize (S (Z.to_nat (part_count_ pm - i))) as fuel. intros fuel. revert i Hi.
  induction fuel as [|fuel IH]; intros i Hi Hf; [lia|]. cbn [skip_parts].
  destruct (Z.ltb_spec i (part_count_ pm)) as [Hlt|Hge].
  - rewrite status_at_eq, Ok_bind by lia. destruct (skip (status i pm)) eqn:Hs.
    + destruct (IH (i + 1)) as (j & -> & Hj & Hall & Hend); [lia..|]. exists j. split; [done|]. split; [lia|].
      split; [|done]. intros k Hk. destruct (Z.eq_dec k i) as [->|]; [done|]. apply Hall. lia.
    + exists i. split; [done|]. split; [lia|]. split; [lia|done].
  - exists i. split; [done|]. split; [lia|]. split; lia.
Qed.

(** * The invariant *)

(** The parts from [i] to [j] all have passed the test. *)
Definition passed (skip : PartStatus -> bool) (i j : Z) pm : Prop :=
  0 <= j <= part_count_ pm /\ forall k, i <= k < j -> skip (status k pm) = true.

(** What does not depend on the cursors. *)
Record wf_data pm : Prop := {
  wf_part_size : 0 < part_size_ pm <= 2 ^ 20;
  wf_total : 0 <= total pm;
  wf_count : part_count_ pm = len (part_status_ pm);
  wf_count_bound : part_count_ pm <= 2 ^ 31;
  wf_pending : pending_count_ pm = pending_parts pm;
  wf_streaming : 0 <= streaming_offset_ pm < 2 ^ 31 * part_size_ pm /\ 0 <= streaming_limit_ pm;
  wf_bitmask : forall i, get i (bitmask_ pm) = true -> status i pm = Ready;
  wf_bitmask_ready : forall i, 0 <= i -> status i pm = Ready -> 0 < part_len i pm -> get i (bitmask_ pm) = true;
  wf_window : streaming_limit_ pm <> 0 -> streaming_ready_size_ pm = window_ready_bytes pm;
  wf_known : unknown_size_flag_ pm = false -> size_ pm <= part_count_ pm * part_size_ pm;
  wf_unknown : unknown_size_flag_ pm = true ->
    0 <= min_size_ pm <= part_count_ pm * part_size_ pm /\
    (max_size_ pm = max_int64 \/ max_size_ pm mod part_size_ pm = 0 /\ max_size_ pm <= 2 ^ 52);
  wf_upload : is_upload_ pm = true ->
    streaming_limit_ pm = 0 /\ streaming_offset_ pm = 0 /\ (unknown_size_flag_ pm = true -> max_size_ pm = max_int64);
  wf_prefix : known_prefix_flag_ pm = true ->
    unknown_size_flag_ pm = true /\ is_upload_ pm = true /\ 0 <= known_prefix_size_ pm /\
    part_count_ pm <= known_prefix_size_ pm / part_size_ pm < 2 ^ 31;
}.

Record wf_cursors pm : Prop := {
  wf_first_empty : passed not_empty 0 (first_empty_part_ pm) pm;
  wf_first_not_ready : passed is_ready_part 0 (first_not_ready_part_ pm) pm;
  wf_streaming_empty : streaming_offset_ pm <> 0 ->
    streaming_offset_ pm / part_size_ pm <= first_streaming_empty_part_ pm /\
    passed not_empty (streaming_offset_ pm / part_size_ pm) (first_streaming_empty_part_ pm) pm;
  wf_streaming_not_ready : streaming_offset_ pm <> 0 ->
    streaming_offset_ pm / part_size_ pm <= first_streaming_not_ready_part_ pm /\
    passed is_ready_part (streaming_offset_ pm / part_size_ pm) (first_streaming_not_ready_part_ pm) pm;
}.

Definition wf pm : Prop := wf_data pm /\ wf_cursors pm.

(** Evaluates fields of updated objects. *)
Ltac pm_simpl :=
  cbn [is_upload_ need_check_ checked_prefix_size_ known_prefix_flag_ known_prefix_size_ size_ expected_size_ min_size_
       max_size_ unknown_size_flag_ ready_size_ streaming_ready_size_ part_size_ part_count_ pending_count_
       first_empty_part_ first_not_ready_part_ streaming_offset_ streaming_limit_ first_streaming_empty_part_
       first_streaming_not_ready_part_ part_status_ bitmask_ use_part_count_limit_
       tset RecordSettersUsingExistingGetters.set gafu_getter gafu_field_updater
       RecordSettersUsingExistingGetters.const].

(** An updated object in constructor form. *)
Ltac flat_of t :=
  lazymatch t with
  | @tset ?R ?E ?u ?S ?r =>
      let r := flat_of r in
      let t := eval cbv beta delta [tset RecordSettersUsingExistingGetters.set gafu_getter gafu_field_updater
                                    RecordSettersUsingExistingGetters.const] in (@tset R E u S r) in
      eval cbn [is_upload_ need_check_ checked_prefix_size_ known_prefix_flag_ known_prefix_size_ size_
        expected_size_ min_size_ max_size_ unknown_size_flag_ ready_size_ streaming_ready_size_ part_size_ part_count_
        pending_count_ first_empty_part_ first_not_ready_part_ streaming_offset_ streaming_limit_
        first_streaming_empty_part_ first_streaming_not_ready_part_ part_status_ bitmask_ use_part_count_limit_
        gafu_getter gafu_field_updater] in t
  | _ => t
  end.

Ltac flat pm :=
  let t := eval cbv beta delta [set_status] in pm in
  let t := flat_of t in
  exact t.

(** The object with other cursors. *)
Definition at_cursors (a b c d : Z) pm : parts_manager :=
  ltac:(flat constr:({ pm with first_empty_part_ := a; first_not_ready_part_ := b;
                               first_streaming_empty_part_ := c; first_streaming_not_ready_part_ := d })).

Arguments at_cursors a b c d pm /.

Lemma at_cursors_same pm :
  pm = at_cursors (first_empty_part_ pm) (first_not_ready_part_ pm) (first_streaming_empty_part_ pm)
         (first_streaming_not_ready_part_ pm) pm.
Proof. by destruct pm. Qed.

Lemma data_cursors a b c d pm : wf_data pm -> wf_data (at_cursors a b c d pm).
Proof. intros []. by constructor. Qed.

Lemma skip_parts_ext fuel skip i pm pm' :
  part_count_ pm' = part_count_ pm -> part_status_ pm' = part_status_ pm ->
  skip_parts fuel skip i pm' = skip_parts fuel skip i pm.
Proof.
  intros Hc Hs. revert i. induction fuel as [|fuel IH]; intros i; [done|]. cbn [skip_parts]. unfold status_at.
  rewrite Hc, Hs. destruct (i <? part_count_ pm); [|done]. destruct (_ && _); [|done]. by rewrite !Ok_bind, IH.
Qed.

Lemma skip_from_ext skip i pm pm' :
  part_count_ pm' = part_count_ pm -> part_status_ pm' = part_status_ pm -> skip_from skip i pm' = skip_from skip i pm.
Proof. intros Hc Hs. unfold skip_from. rewrite Hc. by apply skip_parts_ext. Qed.

(** ** Searching *)

Lemma skip_passed skip i j pm :
  part_count_ pm = len (part_status_ pm) -> passed skip i j pm ->
  exists j', skip_from skip j pm = Ok j' /\ j <= j' /\ passed skip i j' pm /\
    (j' < part_count_ pm -> skip (status j' pm) = false).
Proof.
  intros Hc [Hj Hp]. destruct (skip_from_eq skip j pm Hj Hc) as (j' & -> & Hr & Hall & Hend).
  exists j'. split; [done|]. split; [lia|]. split; [|done]. split; [lia|]. intros k Hk.
  destruct (Z.lt_ge_cases k j); [apply Hp|apply Hall]; lia.
Qed.

Lemma not_empty_false st : not_empty st = false -> st = Empty.
Proof. by destruct st. Qed.

Lemma update_first_empty_ok pm :
  wf pm -> exists a c, let pm' := at_cursors a (first_not_ready_part_ pm) c (first_streaming_not_ready_part_ pm) pm in
    update_first_empty_part pm = (Ok tt, pm') /\ wf pm' /\
    (a < part_count_ pm -> status a pm = Empty) /\ 0 <= c <= part_count_ pm /\
    (c < part_count_ pm -> status c pm = Empty) /\
    (streaming_offset_ pm = 0 -> c = a) /\ (streaming_offset_ pm <> 0 -> streaming_offset_ pm / part_size_ pm <= c).
Proof.
  intros [Hd [He Hn Hse Hsn]]. pose proof (wf_count _ Hd) as Hc.
  destruct (skip_passed not_empty 0 (first_empty_part_ pm) pm Hc He) as (a & Ha & Hle & Hpa & Hea).
  unfold update_first_empty_part, mbind, P_bind, gets, ask, modify. rewrite Ha. cbn.
  destruct (Z.eqb_spec (streaming_offset_ pm) 0) as [Ho|Ho].
  - exists a, a. split; [by destruct pm|]. split; [split; [by apply data_cursors|by constructor]|].
    split; [intros; by apply not_empty_false, Hea|]. split; [apply Hpa|]. split; [intros; by apply not_empty_false, Hea|].
    done.
  - destruct (Hse Ho) as [Hle2 Hps].
    destruct (skip_passed not_empty _ (first_streaming_empty_part_ pm) pm Hc Hps) as (c & Hskip & Hlc & Hpc & Hec).
    rewrite (skip_from_ext not_empty (first_streaming_empty_part_ pm) pm) by done. rewrite Hskip. exists a, c.
    split; [by destruct pm|]. split.
    { split; [by apply data_cursors|]. constructor; cbn; [done..| |done]. intros _. split; [lia|done]. }
    split; [intros; by apply not_empty_false, Hea|]. split; [apply Hpc|].
    split; [intros; by apply not_empty_false, Hec|]. split; [done|lia].
Qed.

Lemma update_first_not_ready_ok pm :
  wf pm -> exists b d, let pm' := at_cursors (first_empty_part_ pm) b (first_streaming_empty_part_ pm) d pm in
    update_first_not_ready_part pm = (Ok tt, pm') /\ wf pm' /\
    passed is_ready_part 0 b pm /\ (b < part_count_ pm -> status b pm <> Ready) /\
    0 <= d <= part_count_ pm /\ (d < part_count_ pm -> status d pm <> Ready).
Proof.
  intros [Hd [He Hn Hse Hsn]]. pose proof (wf_count _ Hd) as Hc.
  destruct (skip_passed is_ready_part 0 (first_not_ready_part_ pm) pm Hc Hn) as (b & Hb & Hle & Hpb & Heb).
  assert (Hnot : forall k, is_ready_part (status k pm) = false -> status k pm <> Ready).
  { intros k Hk Hs. by rewrite Hs in Hk. }
  unfold update_first_not_ready_part, mbind, P_bind, gets, ask, modify. rewrite Hb. cbn.
  destruct (Z.eqb_spec (streaming_offset_ pm) 0) as [Ho|Ho].
  - exists b, b. split; [by destruct pm|]. split; [split; [by apply data_cursors|by constructor]|].
    split; [done|]. split; [auto|]. split; [apply Hpb|auto].
  - destruct (Hsn Ho) as [Hle2 Hps].
    destruct (skip_passed is_ready_part _ (first_streaming_not_ready_part_ pm) pm Hc Hps) as (d & Hskip & Hld & Hpd & Hed).
    rewrite (skip_from_ext is_ready_part (first_streaming_not_ready_part_ pm) pm) by done. rewrite Hskip. exists b, d.
    split; [by destruct pm|]. split.
    { split; [by apply data_cursors|]. constructor; cbn; [done..|]. intros _. split; [lia|done]. }
    split; [done|]. split; [auto|]. split; [apply Hpd|auto].
Qed.

(** ** Changing the status of a part *)

Definition restate (id : Z) (s : PartStatus) (pending : Z) pm : parts_manager :=
  ltac:(flat constr:({ (set_status id s pm) with pending_count_ := pending })).

Arguments restate id s pending pm /.

Lemma status_negative i pm : i < 0 -> status i pm = status 0 pm.
Proof. intros Hi. unfold status. by replace (Z.to_nat i) with (Z.to_nat 0) by lia. Qed.

Lemma over_parts_set f f' id s pm pm' :
  0 <= id < len (part_status_ pm) -> part_status_ pm' = <[Z.to_nat id := s]> (part_status_ pm) ->
  (forall i, 0 <= i -> i <> id -> f' i = f i) -> over_parts f' pm' = over_parts f pm - f id + f' id.
Proof.
  intros Hid Hs Hf. unfold over_parts. rewrite Hs, length_insert.
  rewrite (sum_upto_ext f' (fun i => if i =? id then f' id else f i)).
  - rewrite (sum_upto_update f (fun i => if i =? id then f' id else f i) _ id); [by rewrite Z.eqb_refl| |].
    + unfold len in Hid. lia.
    + intros i Hi. by rewrite (proj2 (Z.eqb_neq i id)).
  - intros i Hi. destruct (Z.eqb_spec i id) as [->|Hne]; [done|]. apply Hf; lia.
Qed.

Lemma status_restate id s k j pm :
  0 <= id < len (part_status_ pm) -> 0 <= j -> status j (restate id s k pm) = if j =? id then s else status j pm.
Proof. intros Hid Hj. exact (status_set id s j pm Hid Hj). Qed.

Lemma pending_restate id s k pm :
  0 <= id < len (part_status_ pm) ->
  pending_parts (restate id s k pm) =
  pending_parts pm - Z.b2z (is_status Pending id pm) + Z.b2z (bool_decide (s = Pending)).
Proof.
  intros Hid. unfold pending_parts.
  rewrite (over_parts_set (fun i => Z.b2z (is_status Pending i pm)) _ id s pm) by
    (try done; intros i Hi Hne; unfold is_status; rewrite status_restate by done; by rewrite (proj2 (Z.eqb_neq i id))).
  f_equal. unfold is_status. by rewrite status_restate, Z.eqb_refl by lia.
Qed.

(** The ready bytes of the window, and all ready bytes, when a part that is not
    ready gets a new status. *)
Lemma window_restate id s k pm :
  0 <= id < len (part_status_ pm) -> status id pm <> Ready ->
  window_ready_bytes (restate id s k pm) =
  window_ready_bytes pm + if in_window id pm && bool_decide (s = Ready) then part_len id pm else 0.
Proof.
  intros Hid Hst. unfold window_ready_bytes.
  rewrite (over_parts_set (fun i => if in_window i pm then ready_len i pm else 0) _ id s pm).
  - change (in_window id (restate id s k pm)) with (in_window id pm). unfold ready_len, is_status.
    rewrite status_restate, Z.eqb_refl by lia. change (part_len id (restate id s k pm)) with (part_len id pm).
    rewrite (bool_decide_false (status id pm = Ready)) by done.
    destruct (in_window id pm), (bool_decide (s = Ready)); cbn [andb]; lia.
  - done.
  - done.
  - intros i Hi Hne. change (in_window i (restate id s k pm)) with (in_window i pm). unfold ready_len, is_status.
    rewrite status_restate by done. by rewrite (proj2 (Z.eqb_neq i id)).
Qed.

Lemma ready_restate id s k pm :
  0 <= id < len (part_status_ pm) -> status id pm <> Ready ->
  ready_bytes (restate id s k pm) = ready_bytes pm + if bool_decide (s = Ready) then part_len id pm else 0.
Proof.
  intros Hid Hst. unfold ready_bytes.
  rewrite (over_parts_set (fun i => ready_len i pm) _ id s pm).
  - unfold ready_len, is_status. rewrite status_restate, Z.eqb_refl by lia.
    change (part_len id (restate id s k pm)) with (part_len id pm).
    rewrite (bool_decide_false (status id pm = Ready)) by done. lia.
  - done.
  - done.
  - intros i Hi Hne. unfold ready_len, is_status. rewrite status_restate by done. by rewrite (proj2 (Z.eqb_neq i id)).
Qed.

Lemma passed_restate skip i j id s k pm :
  0 <= i -> 0 <= id < len (part_status_ pm) -> passed skip i j pm -> skip s = true \/ ~ i <= id < j ->
  passed skip i j (restate id s k pm).
Proof.
  intros Hi Hid [Hj Hp] Hs. split; [done|]. intros x Hx. rewrite status_restate by lia.
  destruct (Z.eqb_spec x id) as [->|]; [|by apply Hp]. destruct Hs as [|Hs]; [done|]. by destruct Hs.
Qed.

Lemma not_passed skip i j id pm : passed skip i j pm -> skip (status id pm) = false -> ~ i <= id < j.
Proof. intros [_ Hp] Hf Hr. specialize (Hp id Hr). congruence. Qed.

(** A part that was not ready and is not ready now. *)
Lemma data_restate id s pm :
  wf_data pm -> 0 <= id < part_count_ pm -> status id pm <> Ready -> s <> Ready ->
  wf_data (restate id s (pending_count_ pm - Z.b2z (is_status Pending id pm) + Z.b2z (bool_decide (s = Pending))) pm).
Proof.
  intros Hd Hid Hst Hs. pose proof (wf_count _ Hd) as Hc. destruct Hd. constructor; try done.
  - cbn. unfold len. by rewrite length_insert.
  - rewrite pending_restate by lia. by rewrite wf_pending0.
  - intros i Hi. pose proof (get_range _ _ Hi) as [Hi0 _]. rewrite status_restate by lia. destruct (Z.eqb_spec i id) as [->|]; [|auto].
    exfalso. by apply Hst, wf_bitmask0.
  - intros i Hi. rewrite status_restate by lia. destruct (Z.eqb_spec i id) as [->|]; [done|]. intros Hr Hl. by apply wf_bitmask_ready0.
  - intros Hl. rewrite window_restate by (done || lia). rewrite (bool_decide_false (s = Ready)), andb_false_r by done.
    rewrite Z.add_0_r. by apply wf_window0.
Qed.

(** ** Growing the list of parts *)

Definition grow (n : Z) pm : parts_manager :=
  ltac:(flat constr:({ pm with part_count_ := n; part_status_ := resize_status n (part_status_ pm) })).

Arguments grow n pm /.

Lemma resize_status_grow n l : len l <= n -> resize_status n l = l ++ replicate (Z.to_nat (n - len l)) Empty.
Proof. intros Hn. unfold resize_status. rewrite take_ge by (unfold len in Hn; lia). done. Qed.

Lemma status_grow n j pm : len (part_status_ pm) <= n -> status j (grow n pm) = status j pm.
Proof.
  intros Hn. unfold status. cbn. rewrite resize_status_grow, !nth_lookup by done.
  destruct (decide (Z.to_nat j < length (part_status_ pm))%nat) as [Hj|Hj].
  - by rewrite lookup_app_l by done.
  - rewrite lookup_app_r, (lookup_ge_None_2 (part_status_ pm)) by lia. cbn.
    destruct (replicate _ _ !! _) as [c|] eqn:Hr; [|done]. by apply lookup_replicate in Hr as [-> _].
Qed.

Lemma over_parts_grow n f f' pm :
  len (part_status_ pm) <= n -> (forall i, 0 <= i -> f' i = f i) -> (forall i, len (part_status_ pm) <= i -> f i = 0) ->
  over_parts f' (grow n pm) = over_parts f pm.
Proof.
  intros Hn Hf Hz. unfold over_parts. cbn. rewrite resize_status_grow, length_app, sum_upto_add by done.
  rewrite (sum_upto_zero (fun i => f' (Z.of_nat (length (part_status_ pm)) + i))); [rewrite Z.add_0_r; apply sum_upto_ext; intros i Hi; apply Hf; lia|].
  intros i Hi. rewrite Hf by lia. apply Hz. unfold len. lia.
Qed.

Lemma passed_grow skip i j n pm :
  len (part_status_ pm) <= n -> part_count_ pm = len (part_status_ pm) -> passed skip i j pm -> passed skip i j (grow n pm).
Proof.
  intros Hn Hc [Hj Hp]. split; [cbn; lia|]. intros k Hk. rewrite status_grow by done. by apply Hp.
Qed.

Lemma not_status_beyond s i pm : s <> Empty -> len (part_status_ pm) <= i -> is_status s i pm = false.
Proof. intros Hs Hi. unfold is_status. rewrite status_beyond by done. by apply bool_decide_false. Qed.

Lemma window_grow n pm :
  len (part_status_ pm) <= n -> window_ready_bytes (grow n pm) = window_ready_bytes pm.
Proof.
  intros Hn. apply over_parts_grow; [done| |].
  - intros i Hi. unfold ready_len, is_status. by rewrite status_grow.
  - intros i Hi. unfold ready_len. rewrite not_status_beyond by done. by destruct (in_window i pm).
Qed.

Lemma ready_grow n pm : len (part_status_ pm) <= n -> ready_bytes (grow n pm) = ready_bytes pm.
Proof.
  intros Hn. apply over_parts_grow; [done| |].
  - intros i Hi. unfold ready_len, is_status. by rewrite status_grow.
  - intros i Hi. unfold ready_len. by rewrite not_status_beyond.
Qed.

Lemma wf_grow n pm :
  wf pm -> part_count_ pm <= n <= 2 ^ 31 ->
  (known_prefix_flag_ pm = true -> n <= known_prefix_size_ pm / part_size_ pm) -> wf (grow n pm).
Proof.
  intros [Hd [He Hn Hse Hsn]] Hr Hk. pose proof (wf_count _ Hd) as Hc.
  assert (Hl : len (part_status_ pm) <= n) by lia. split.
  - destruct Hd. constructor; try done.
    + cbn. rewrite resize_status_grow by done. unfold len in *. rewrite length_app, length_replicate. lia.
    + cbn. lia.
    + change (pending_count_ (grow n pm)) with (pending_count_ pm). rewrite wf_pending0. symmetry. apply (over_parts_grow n); [done| |].
      * intros i Hi. unfold is_status. by rewrite status_grow.
      * intros i Hi. by rewrite not_status_beyond.
    + intros i Hi. rewrite status_grow by done. auto.
    + intros i Hi. rewrite status_grow by done. auto.
    + intros Hl2. rewrite window_grow by done. auto.
    + intros Hu. specialize (wf_known0 Hu). cbn. nia.
    + intros Hu. destruct (wf_unknown0 Hu) as [? ?]. split; [cbn; nia|done].
    + intros Hp. destruct (wf_prefix0 Hp) as (? & ? & ? & ?). repeat (split; [done|]). specialize (Hk Hp). cbn. lia.
  - constructor; try by apply passed_grow. all: intros Ho; cbn.
    + destruct (Hse Ho). split; [done|]. by apply (passed_grow _ _ _ n).
    + destruct (Hsn Ho). split; [done|]. by apply (passed_grow _ _ _ n).
Qed.

(** * Starting a part *)

Definition started (id : Z) pm : parts_manager := restate id Pending (pending_count_ pm + 1) pm.

Lemma wf_started id pm : wf pm -> 0 <= id < part_count_ pm -> status id pm = Empty -> wf (started id pm).
Proof.
  intros [Hd [He Hn Hse Hsn]] Hid Hst. pose proof (wf_count _ Hd) as Hc. split.
  - pose proof (data_restate id Pending pm Hd Hid ltac:(by rewrite Hst) ltac:(done)) as Hd'.
    unfold is_status in Hd'. rewrite bool_decide_false, bool_decide_true in Hd' by (done || by rewrite Hst).
    cbn [Z.b2z] in Hd'. by rewrite Z.sub_0_r in Hd'.
  - assert (Hnr : is_ready_part (status id pm) = false) by (by rewrite Hst).
    assert (Hq : 0 <= streaming_offset_ pm / part_size_ pm).
    { destruct (wf_part_size _ Hd), (wf_streaming _ Hd) as [[? ?] ?]. apply Z.div_pos; lia. }
    constructor; unfold started.
    + apply passed_restate; [lia|lia|done|by left].
    + apply passed_restate; [lia|lia|done|right; by eapply not_passed].
    + intros Ho. destruct (Hse Ho). split; [done|]. apply passed_restate; [done|lia|done|by left].
    + intros Ho. destruct (Hsn Ho). split; [done|]. apply passed_restate; [done|lia|done|right; by eapply not_passed].
Qed.

Lemma start_this_part_ok id pm :
  wf pm -> 0 <= id < part_count_ pm -> status id pm = Empty ->
  start_this_part id pm =
  if in_window id pm && (id * part_size_ pm <? total pm)
  then (Ok (mk_part id (part_size_ pm * id) (part_len id pm)), started id pm) else (Ok get_empty_part, pm).
Proof.
  intros [Hd _] Hid Hst. pose proof (wf_count _ Hd) as Hc.
  unfold start_this_part, mbind, P_bind, ask, gets. rewrite in_limit_eq by lia. fold (total pm).
  rewrite Z.leb_antisym. destruct (in_window id pm); cbn [negb orb andb]; [|done].
  destruct (id * part_size_ pm <? total pm); cbn [negb]; [|done].
  unfold CHECK, on_part_start, mbind, P_bind, ask, modify, CHECK. rewrite status_at_eq, Hst by lia.
  rewrite bool_decide_true by done. cbn [check]. by rewrite get_part_eq.
Qed.

(** A part that is handed out. *)
Record handed_out (p : Part) pm : Prop := {
  ho_id : 0 <= part_id p < part_count_ pm;
  ho_empty : status (part_id p) pm = Empty;
  ho_window : in_window (part_id p) pm = true;
  ho_offset : part_offset p = part_size_ pm * part_id p;
  ho_length : part_length p = part_len (part_id p) pm;
  ho_positive : 0 < part_length p;
}.

(** The object after the search, with a part appended when the search came to
    the end of a file of unknown size. *)
Definition searched pm pm1 : Prop :=
  exists a b c d, pm1 = at_cursors a b c d pm \/
    unknown_size_flag_ pm = true /\ pm1 = grow (part_count_ pm + 1) (at_cursors a b c d pm).

Lemma start_this_part_spec id pm :
  wf pm -> 0 <= id < part_count_ pm -> status id pm = Empty ->
  exists p pm', start_this_part id pm = (Ok p, pm') /\ wf pm' /\
    (p = get_empty_part /\ pm' = pm /\ (in_window id pm = false \/ total pm <= id * part_size_ pm) \/
     handed_out p pm /\ part_id p = id /\ pm' = started id pm).
Proof.
  intros Hwf Hid Hst. rewrite start_this_part_ok by done. destruct Hwf as [Hd Hcur] eqn:Hw. clear Hw.
  destruct (in_window id pm) eqn:Hwin; cbn [andb].
  2:{ eexists _, _. split; [done|]. split; [done|]. left. split; [done|]. split; [done|by left]. }
  destruct (Z.ltb_spec (id * part_size_ pm) (total pm)) as [Hlt|Hge].
  2:{ eexists _, _. split; [done|]. split; [done|]. left. split; [done|]. split; [done|by right]. }
  eexists _, _. split; [done|]. split; [by apply wf_started|]. right. split; [|done].
  destruct (wf_part_size _ Hd). constructor; cbn; try done. unfold part_len.
  rewrite (proj2 (Z.ltb_ge _ _)) by lia. lia.
Qed.

(** The size is known and the last part is not empty. *)
Definition exact_count pm : Prop :=
  unknown_size_flag_ pm = false /\ (part_count_ pm - 1) * part_size_ pm < size_ pm.

(** There is no part left that can be started. *)
Definition none_left pm : Prop := forall i, 0 <= i < part_count_ pm -> status i pm <> Empty.

Definition start_result pm (r : outcome Part) pm' : Prop :=
  match r with
  | Ok p => exists pm1, searched pm pm1 /\ wf pm1 /\
      (p = get_empty_part /\ pm' = pm1 /\ (exact_count pm -> streaming_limit_ pm = 0 -> none_left pm) \/
       handed_out p pm1 /\ pm' = started (part_id p) pm1)
  | Err e => unknown_size_flag_ pm = true /\ (error_code e = -1 -> exists a b c d, pm' = at_cursors a b c d pm /\ wf pm')
  | Crash => False
  end.

(** [start_this_part] at the end of the search. *)
Lemma start_this_part_result id pm pm1 :
  searched pm pm1 -> wf pm1 -> 0 <= id < part_count_ pm1 -> status id pm1 = Empty ->
  (unknown_size_flag_ pm = false -> id < part_count_ pm) ->
  exists r pm', start_this_part id pm1 = (r, pm') /\ start_result pm r pm' /\ (forall p, r = Ok p -> wf pm').
Proof.
  intros Hs Hwf Hid Hst Hk. destruct (start_this_part_spec id pm1 Hwf Hid Hst) as (p & pm' & Hp & Hwf' & Hcase).
  exists (Ok p), pm'. split; [done|]. split; [|done]. exists pm1. split; [done|]. split; [done|].
  destruct Hcase as [(-> & -> & Hwhy)|(Hho & <- & ->)]; [left|by right]. split; [done|]. split; [done|].
  intros [Hu Hex] Hl. exfalso. destruct Hs as (a & b & c & d & [->|[Hu' ->]]); [|congruence].
  destruct (wf_part_size _ (proj1 Hwf)) as [Hps _]. cbn in Hps. destruct Hwhy as [Hwin|Htot].
  - unfold in_window in Hwin. cbn in Hwin. by rewrite Hl in Hwin.
  - unfold total in Htot. cbn in Htot. rewrite Hu in Htot. specialize (Hk Hu). nia.
Qed.

Lemma start_part_ok pm :
  wf pm -> exists r pm', start_part pm = (r, pm') /\ start_result pm r pm' /\ (forall p, r = Ok p -> wf pm').
Proof.
  intros Hwf. destruct (update_first_empty_ok pm Hwf) as (a & c & Hupd & Hwf1 & Hae & Hcr & Hce & _ & _).
  set (pm1 := at_cursors a (first_not_ready_part_ pm) c (first_streaming_not_ready_part_ pm) pm) in *.
  assert (Hs1 : searched pm pm1) by (do 4 eexists; by left).
  destruct (wf_part_size _ (proj1 Hwf)) as [Hps _]. pose proof (wf_count _ (proj1 Hwf)) as Hc.
  unfold start_part. unfold mbind at 1, P_bind at 1. rewrite Hupd. unfold mbind at 1, P_bind at 1, gets at 1.
  change (first_streaming_empty_part_ pm1) with c.
  assert (Hwait : (if known_prefix_flag_ pm1 then
      _ ← check (negb (part_size_ pm1 =? 0)); Ok (int32 (known_prefix_size_ pm1 / part_size_ pm1) <=? c)
    else Ok false) = Ok (known_prefix_flag_ pm && (known_prefix_size_ pm / part_size_ pm <=? c))).
  { change (known_prefix_flag_ pm1) with (known_prefix_flag_ pm). destruct (known_prefix_flag_ pm) eqn:Hk; [|done].
    change (part_size_ pm1) with (part_size_ pm). change (known_prefix_size_ pm1) with (known_prefix_size_ pm).
    rewrite (proj2 (Z.eqb_neq _ 0)) by lia. cbn [negb check andb]. rewrite Ok_bind, int32_small; [done|].
    destruct (wf_prefix _ (proj1 Hwf) Hk) as (_ & _ & ? & ?). assert (0 <= known_prefix_size_ pm / part_size_ pm) by (apply Z.div_pos; lia).
    lia. }
  unfold mbind at 1, P_bind at 1, ask at 1. rewrite Hwait.
  destruct (known_prefix_flag_ pm && (known_prefix_size_ pm / part_size_ pm <=? c)) eqn:Hw.
  { apply andb_true_iff in Hw as [Hk _]. destruct (wf_prefix _ (proj1 Hwf) Hk) as (Hun & _).
    eexists _, _. split; [done|]. split; [|done]. split; [done|]. intros _. by exists a, (first_not_ready_part_ pm), c, (first_streaming_not_ready_part_ pm). }
  unfold mbind, P_bind, gets. change (part_count_ pm1) with (part_count_ pm).
  change (unknown_size_flag_ pm1) with (unknown_size_flag_ pm). destruct (Z.eqb_spec c (part_count_ pm)) as [Hcc|Hcc].
  2:{ apply start_this_part_result; [done|done|cbn; lia|by apply Hce; lia|cbn; lia]. }
  destruct (unknown_size_flag_ pm) eqn:Hu.
  - unfold modify. change (use_part_count_limit_ { pm1 with part_count_ := part_count_ pm1 + 1 }) with (use_part_count_limit_ pm). destruct (_ <? _) eqn:Hlim.
    { eexists _, _. split; [done|]. split; done. }
    apply Z.ltb_ge in Hlim. assert (Hcount : part_count_ pm + 1 <= 2 ^ 31).
    { unfold MAX_PART_COUNT_PREMIUM in Hlim. destruct (use_part_count_limit_ pm); lia. }
    assert (Hg : wf (grow (part_count_ pm + 1) pm1)).
    { apply wf_grow; [done|cbn; lia|]. intros Hk. change (known_prefix_flag_ pm = true) in Hk. rewrite Hk in Hw. cbn [andb] in Hw.
      apply Z.leb_gt in Hw. cbn. lia. }
    assert (Heq : { { pm1 with part_count_ := part_count_ pm1 + 1 } with
        part_status_ := part_status_ { pm1 with part_count_ := part_count_ pm1 + 1 } ++ [Empty] } = grow (part_count_ pm + 1) pm1).
    { unfold grow. rewrite resize_status_grow by (cbn; lia).
      by replace (part_count_ pm + 1 - len (part_status_ pm1)) with 1 by (cbn; lia). }
    rewrite Heq. apply start_this_part_result; [|done| | |by rewrite Hu].
    + do 4 eexists. right. done.
    + cbn. lia.
    + rewrite status_grow by (cbn; lia). apply status_beyond. cbn. lia.
  - destruct (Z.ltb_spec (first_empty_part_ pm1) (part_count_ pm)) as [Ha|Ha]; cbn in Ha.
    + apply start_this_part_result; [done|done| |by apply Hae|done]. destruct (wf_first_empty _ (proj2 Hwf1)) as [? _]. cbn in *. lia.
    + eexists _, _. split; [done|]. split; [|by intros p _]. exists pm1. split; [done|]. split; [done|]. left. split; [done|].
      split; [done|]. intros _ _ i Hi He. destruct (wf_first_empty _ (proj2 Hwf1)) as [_ Hp]. cbn in Hp.
      assert (Hi' : not_empty (status i pm) = true) by (apply Hp; lia). by rewrite He in Hi'.
Qed.

(** * A part that failed *)

Lemma passed_lower skip i j j' pm : passed skip i j pm -> 0 <= j' <= j -> passed skip i j' pm.
Proof. intros [Hj Hp] Hj'. split; [lia|]. intros k Hk. apply Hp. lia. Qed.

Lemma on_part_failed_ok id pm :
  wf pm -> 0 <= id < part_count_ pm -> status id pm = Pending ->
  exists a c, let pm' := at_cursors a (first_not_ready_part_ pm) c (first_streaming_not_ready_part_ pm)
                           (restate id Empty (pending_count_ pm - 1) pm) in
    on_part_failed id pm = (Ok tt, pm') /\ wf pm'.
Proof.
  intros [Hd [He Hn Hse Hsn]] Hid Hst. pose proof (wf_count _ Hd) as Hc. pose proof (wf_part_size _ Hd) as Hps.
  pose proof (wf_streaming _ Hd) as [Hoff _].
  set (q := streaming_offset_ pm / part_size_ pm) in *.
  assert (Hq : 0 <= q < 2 ^ 31) by (split; [apply Z.div_pos; lia|apply Z.div_lt_upper_bound; lia]).
  set (a := if id <? first_empty_part_ pm then id else first_empty_part_ pm).
  set (c := if streaming_offset_ pm =? 0 then id
            else if (q <=? id) && (id <? first_streaming_empty_part_ pm) then id else first_streaming_empty_part_ pm).
  exists a, c. set (pm1 := restate id Empty (pending_count_ pm - 1) pm). cbn zeta. split.
  - unfold on_part_failed, mbind, P_bind, ask, gets, modify, CHECK. rewrite status_at_eq, Hst by lia.
    rewrite bool_decide_true by done. cbn [check].
    set (pm2 := if _ <? _ then _ else _).
    assert (Hpm2 : pm2 = at_cursors a (first_not_ready_part_ pm) (first_streaming_empty_part_ pm)
      (first_streaming_not_ready_part_ pm) pm1).
    { unfold pm2, a, pm1. cbn. destruct (id <? first_empty_part_ pm); by destruct pm. }
    rewrite Hpm2. clear Hpm2 pm2. unfold c, pm1. clear - Hps Hq. subst q. destruct pm; cbn in *.
    destruct (_ =? 0); [done|]. cbn. rewrite (proj2 (Z.eqb_neq _ 0)) by lia. cbn. rewrite narrow_int_small by lia.
    by destruct (_ && _).
  - split.
    + apply data_cursors. pose proof (data_restate id Empty pm Hd Hid ltac:(by rewrite Hst) ltac:(done)) as Hd'.
      unfold is_status in Hd'. rewrite bool_decide_true, (bool_decide_false (Empty = Pending)) in Hd' by done.
      cbn [Z.b2z] in Hd'. by rewrite Z.add_0_r in Hd'.
    + assert (Hnr : is_ready_part (status id pm) = false) by (by rewrite Hst).
      assert (Ha : passed not_empty 0 a pm1).
      { apply passed_restate; [lia|lia| |right]; unfold a; destruct (Z.ltb_spec id (first_empty_part_ pm)); try lia; try done.
        eapply passed_lower; [done|lia]. }
      assert (Hb : passed is_ready_part 0 (first_not_ready_part_ pm) pm1).
      { apply passed_restate; [lia|lia|done|right; by eapply not_passed]. }
      constructor; [done|done|..]; intros Ho; change (streaming_offset_ _) with (streaming_offset_ pm) in Ho;
        change (streaming_offset_ (at_cursors _ _ _ _ pm1) / part_size_ _) with q.
      * destruct (Hse Ho) as [Hle Hp]. assert (Hqc : q <= c /\ passed not_empty q c pm1); [|exact Hqc].
        unfold c. rewrite (proj2 (Z.eqb_neq _ _)) by done.
        destruct (Z.leb_spec q id), (Z.ltb_spec id (first_streaming_empty_part_ pm)); cbn [andb]; (split; [lia|]);
          (apply passed_restate; [lia|lia| |right; lia]); try done. eapply passed_lower; [done|lia].
      * destruct (Hsn Ho) as [Hle Hp].
        assert (Hqd : q <= first_streaming_not_ready_part_ pm /\ passed is_ready_part q (first_streaming_not_ready_part_ pm) pm1);
          [|exact Hqd]. split; [done|]. apply passed_restate; [lia|lia|done|right; by eapply not_passed].
Qed.
