(* ===== verification/PartsManagerCalls.v ===== *)
(** The calls of a loader on [PartsManager]: the streaming window, the end of a
    part, the growing prefix of an upload.  Each keeps the invariant and fails
    no check. *)
From coqutil Require Import Datatypes.RecordSettersUsingExistingGetters.
From S2P Require Import Prelude Bytes FileBitmask PartsManager PartsManagerSpec.
#[local] Open Scope Z_scope.

Implicit Types pm : parts_manager.

(** * The streaming window *)

(** The object with another limit. *)
Definition limited (limit ready : Z) pm : parts_manager :=
  ltac:(flat constr:({ pm with streaming_limit_ := limit; streaming_ready_size_ := ready })).

Arguments limited limit ready pm /.

(** The invariant, but for the ready bytes of the window. *)
Definition wf_but_window pm : Prop := wf (limited 0 0 pm).

Lemma wf_unlimited pm : wf pm -> wf_but_window pm.
Proof.
  intros [[] []]. split; [|by constructor]. constructor; try done.
  - cbn. lia.
  - intros Hu. destruct (wf_upload Hu) as (_ & ? & ?). done.
Qed.

Lemma wf_limited limit ready pm :
  wf_but_window pm -> 0 <= limit -> (is_upload_ pm = true -> limit = 0) ->
  (limit <> 0 -> ready = window_ready_bytes (limited limit 0 pm)) -> wf (limited limit ready pm).
Proof.
  intros [[] []] Hl Hu Hr. split; [|by constructor]. constructor; try done.
  - cbn in *. lia.
  - intros Hup. destruct (wf_upload Hup) as (_ & ? & ?). split; [exact (Hu Hup)|done].
Qed.

Lemma wf_windowed pm :
  wf_but_window pm -> 0 <= streaming_limit_ pm -> (is_upload_ pm = true -> streaming_limit_ pm = 0) ->
  (streaming_limit_ pm <> 0 -> streaming_ready_size_ pm = window_ready_bytes pm) -> wf pm.
Proof.
  intros [[] []] Hl Hu Hr. split; [|by constructor]. constructor; try done.
  - cbn in *. lia.
  - intros Hup. destruct (wf_upload Hup) as (_ & ? & ?). split; [exact (Hu Hup)|done].
Qed.

Lemma set_streaming_limit_ok limit pm :
  wf_but_window pm -> 0 <= limit -> (is_upload_ pm = true -> limit = 0) ->
  exists ready, set_streaming_limit limit pm = (Ok tt, limited limit ready pm) /\ wf (limited limit ready pm).
Proof.
  intros Hwf Hl Hu. set (pm1 := limited limit 0 pm).
  assert (Hc : part_count_ pm1 = len (part_status_ pm1)) by exact (wf_count _ (proj1 Hwf)).
  exists (if limit =? 0 then 0 else window_ready_bytes pm1). split.
  - unfold set_streaming_limit, mbind, P_bind, modify, ask. fold (limited limit 0 pm). fold pm1.
    destruct (limit =? 0); [done|]. rewrite streaming_ready_total_eq by done. done.
  - apply wf_limited; [done..|]. intros Hne. by rewrite (proj2 (Z.eqb_neq _ _)).
Qed.

(** * What the calls leave alone *)

(** The sizes, the ready parts and their bytes are those of [pm]. *)
Record keeps_ready pm pm' : Prop := {
  kr_unknown : unknown_size_flag_ pm' = unknown_size_flag_ pm;
  kr_size : size_ pm' = size_ pm;
  kr_min : min_size_ pm' = min_size_ pm;
  kr_max : max_size_ pm' = max_size_ pm;
  kr_part_size : part_size_ pm' = part_size_ pm;
  kr_upload : is_upload_ pm' = is_upload_ pm;
  kr_ready_size : ready_size_ pm' = ready_size_ pm;
  kr_bitmask : bitmask_ pm' = bitmask_ pm;
  kr_length : len (part_status_ pm) <= len (part_status_ pm');
  kr_ready : forall i, 0 <= i -> status i pm' = Ready <-> status i pm = Ready;
}.

#[export] Instance keeps_ready_preorder : PreOrder keeps_ready.
Proof.
  split; [intros pm; by constructor|]. intros pm1 pm2 pm3 [] []. constructor; try congruence; [lia|].
  intros i Hi. by rewrite kr_ready1, kr_ready0.
Qed.

Lemma kr_total pm pm' : keeps_ready pm pm' -> total pm' = total pm.
Proof. intros []. unfold total. by rewrite kr_unknown0, kr_max0, kr_size0. Qed.

Lemma kr_part_len i pm pm' : keeps_ready pm pm' -> part_len i pm' = part_len i pm.
Proof. intros Hk. unfold part_len. rewrite (kr_total _ _ Hk). by rewrite (kr_part_size _ _ Hk). Qed.

(** Statuses that differ only behind the end. *)
Lemma over_parts_longer f f' pm pm' :
  len (part_status_ pm) <= len (part_status_ pm') -> (forall i, 0 <= i -> f' i = f i) ->
  (forall i, len (part_status_ pm) <= i -> f i = 0) -> over_parts f' pm' = over_parts f pm.
Proof.
  intros Hl Hf Hz. unfold over_parts. unfold len in *.
  replace (length (part_status_ pm')) with (length (part_status_ pm) + (length (part_status_ pm') - length (part_status_ pm)))%nat by lia.
  rewrite sum_upto_add. rewrite (sum_upto_ext f' f) by (intros; apply Hf; lia).
  rewrite (sum_upto_zero (fun i => f' _)); [lia|]. intros i Hi. rewrite Hf, Hz by lia. done.
Qed.

Lemma ready_len_beyond i pm : len (part_status_ pm) <= i -> ready_len i pm = 0.
Proof. intros Hi. unfold ready_len. by rewrite not_status_beyond. Qed.

Lemma kr_ready_bytes pm pm' : keeps_ready pm pm' -> ready_bytes pm' = ready_bytes pm.
Proof.
  intros Hk. apply over_parts_longer; [apply Hk| |intros; by apply ready_len_beyond].
  intros i Hi. unfold ready_len, is_status. rewrite (kr_part_len _ _ _ Hk).
  destruct (bool_decide_reflect (status i pm = Ready)) as [Hr|Hr].
  - by rewrite bool_decide_true by (by apply (kr_ready _ _ Hk)).
  - by rewrite bool_decide_false by (by rewrite (kr_ready _ _ Hk)).
Qed.

(** The ready bytes are those of the ready parts.  While the size of a download
    is unknown, its ready parts are complete: they end before the least size
    that the file may have, or are empty.  A part of the bitmask has bytes. *)
Record accounted pm : Prop := {
  ac_ready_size : ready_size_ pm = ready_bytes pm;
  ac_complete : unknown_size_flag_ pm = true -> is_upload_ pm = false -> forall i, 0 <= i -> status i pm = Ready ->
    (i + 1) * part_size_ pm <= min_size_ pm \/ max_size_ pm <= i * part_size_ pm;
  ac_bitmask : forall i, get i (bitmask_ pm) = true -> 0 < part_len i pm;
}.

Lemma accounted_keeps pm pm' : keeps_ready pm pm' -> accounted pm -> accounted pm'.
Proof.
  intros Hk [Hr Hc Hb]. split; [| |intros i; rewrite (kr_bitmask _ _ Hk), (kr_part_len _ _ _ Hk); apply Hb].
  - by rewrite (kr_ready_bytes _ _ Hk), (kr_ready_size _ _ Hk).
  - destruct Hk. intros Hu Hup i Hi Hs. rewrite kr_part_size0, kr_min0, kr_max0. apply Hc; try congruence. by apply kr_ready0.
Qed.

Lemma keeps_grow n pm : len (part_status_ pm) <= n -> keeps_ready pm (grow n pm).
Proof.
  intros Hn. constructor; try done.
  - cbn. rewrite resize_status_grow by done. unfold len. rewrite length_app. lia.
  - intros i Hi. by rewrite status_grow.
Qed.

Lemma keeps_restate id s k pm :
  0 <= id < len (part_status_ pm) -> status id pm <> Ready -> s <> Ready -> keeps_ready pm (restate id s k pm).
Proof.
  intros Hid Hst Hs. constructor; try done.
  - cbn. unfold len. by rewrite length_insert.
  - intros i Hi. rewrite status_restate by done. by destruct (Z.eqb_spec i id) as [->|].
Qed.

(** * Changing the streaming offset *)

(** The statuses are those of [pm], with empty parts behind them. *)
Definition same_status pm pm' : Prop := forall i, 0 <= i -> status i pm' = status i pm.

Lemma finish_streaming_ok limit pm :
  wf_but_window pm -> 0 <= limit -> (is_upload_ pm = true -> limit = 0) ->
  exists d pm', finish_streaming limit pm = (Ok d, pm') /\ wf pm' /\ keeps_ready pm pm' /\ same_status pm pm' /\
    streaming_offset_ pm' = streaming_offset_ pm /\ streaming_limit_ pm' = limit /\ part_count_ pm' = part_count_ pm.
Proof.
  intros Hwf Hl Hu. destruct (set_streaming_limit_ok limit pm Hwf Hl Hu) as (ready & Hset & Hwf').
  destruct (update_first_not_ready_ok _ Hwf') as (b & d & Hupd & Hwf'' & _).
  eexists d, _. unfold finish_streaming, mbind, P_bind, gets. rewrite Hset, Hupd. split; [done|]. split; [done|].
  split; [by constructor|done].
Qed.

(** The object at another offset. *)
Definition sought (offset e d : Z) pm : parts_manager :=
  ltac:(flat constr:({ pm with streaming_offset_ := offset; first_streaming_empty_part_ := e;
                               first_streaming_not_ready_part_ := d })).

Arguments sought offset e d pm /.

Lemma wf_sought offset e pm :
  wf pm -> 0 <= offset < 2 ^ 31 * part_size_ pm -> (offset <> 0 -> e = offset / part_size_ pm /\ e <= part_count_ pm) ->
  (is_upload_ pm = true -> offset = 0) -> wf_but_window (sought offset e e pm).
Proof.
  intros Hwf Ho He Hu. apply wf_unlimited in Hwf as [[] []]. split.
  - constructor; try done. intros Hup. destruct (wf_upload Hup) as (? & _ & ?). split; [done|].
    split; [exact (Hu Hup)|done].
  - constructor; [done|done|..]; intros Hne; change (offset <> 0) in Hne; destruct (He Hne) as [-> Hle];
      (split; [cbn; lia|]); (split; [|cbn; lia]); cbn in *;
      (split; [apply Z.div_pos; lia|done]).
Qed.

Lemma ignored_offset_ok limit pm :
  wf pm -> 0 <= limit -> (is_upload_ pm = true -> limit = 0) ->
  exists d pm', finish_streaming limit { pm with streaming_offset_ := 0 } = (Ok d, pm') /\ wf pm' /\
    keeps_ready pm pm' /\ same_status pm pm' /\ streaming_offset_ pm' = 0 /\ streaming_limit_ pm' = limit /\
    part_count_ pm' = part_count_ pm.
Proof.
  intros Hwf Hl Hu.
  assert (Hz : wf_but_window { pm with streaming_offset_ := 0 }).
  { pose proof (wf_part_size _ (proj1 Hwf)) as Hp. apply wf_unlimited in Hwf as [[] []]. split.
    - constructor; try done; [cbn in *; lia|]. intros Hup. destruct (wf_upload Hup) as (? & _ & ?). done.
    - by constructor. }
  destruct (finish_streaming_ok limit _ Hz Hl Hu) as (d & pm' & Hf & Hwf' & Hk & Hs & Ho & Hl').
  exists d, pm'. split; [done|]. split; [done|]. split; [by destruct Hk; constructor|]. split; [done|]. by split.
Qed.

(** Only a seek to another place than 0 that is ignored needs the size. *)
Lemma set_streaming_offset_ok offset limit pm :
  wf pm -> 0 <= limit -> 0 <= offset < 2 ^ 31 * part_size_ pm ->
  (is_upload_ pm = true -> offset = 0 /\ limit = 0) ->
  (need_check_ pm = true -> unknown_size_flag_ pm = true -> offset = 0) ->
  exists d pm', set_streaming_offset offset limit pm = (Ok d, pm') /\ wf pm' /\ keeps_ready pm pm' /\
    same_status pm pm' /\ (streaming_offset_ pm' = offset \/ streaming_offset_ pm' = 0) /\ streaming_limit_ pm' = limit /\
    (unknown_size_flag_ pm = false -> part_count_ pm' = part_count_ pm).
Proof.
  intros Hwf Hl Ho Hu Hlog. pose proof (wf_part_size _ (proj1 Hwf)) as Hps. pose proof (wf_count _ (proj1 Hwf)) as Hc.
  set (ignored := need_check_ pm || (negb (unknown_size_flag_ pm) && (size_ pm <? offset))).
  assert (Hig : (if (offset <? 0) || need_check_ pm then Ok true
    else if unknown_size_flag_ pm then Ok false else size ← get_size pm; Ok (size <? offset)) = Ok ignored).
  { unfold ignored. rewrite (proj2 (Z.ltb_ge _ _)) by lia. unfold get_size. cbn [orb].
    destruct (need_check_ pm); [done|]. by destruct (unknown_size_flag_ pm). }
  unfold set_streaming_offset. unfold mbind at 1, P_bind at 1, ask at 1. rewrite Hig.
  assert (Hignored : exists d pm', finish_streaming limit { pm with streaming_offset_ := 0 } = (Ok d, pm') /\ wf pm' /\
    keeps_ready pm pm' /\ same_status pm pm' /\ (streaming_offset_ pm' = offset \/ streaming_offset_ pm' = 0) /\
    streaming_limit_ pm' = limit /\ (unknown_size_flag_ pm = false -> part_count_ pm' = part_count_ pm)).
  { destruct (ignored_offset_ok limit pm Hwf Hl ltac:(intros Hup; apply (Hu Hup)))
      as (d & pm' & ? & ? & ? & ? & ? & ? & ?). exists d, pm'. split_and!; try done. by right. }
  destruct ignored eqn:Hign.
  { unfold modify. unfold mbind at 1, P_bind at 1. unfold mbind at 1, P_bind at 1.
    destruct (Z.eqb_spec offset 0) as [->|Hne]; [exact Hignored|].
    unfold mbind at 1, P_bind at 1, ask, get_size. pm_simpl. destruct (unknown_size_flag_ pm) eqn:Hun; [|exact Hignored].
    exfalso. unfold ignored in Hign. rewrite andb_false_l, orb_false_r in Hign. by apply Hne, Hlog. }
  set (id := offset / part_size_ pm). assert (Hid : 0 <= id < 2 ^ 31).
  { split; [apply Z.div_pos; lia|apply Z.div_lt_upper_bound; lia]. }
  unfold mbind, P_bind, ask, gets. rewrite (proj2 (Z.eqb_neq (part_size_ pm) 0)) by lia. cbn [negb check]. rewrite Ok_bind.
  fold id. destruct (use_part_count_limit_ pm && _); [exact Hignored|]. unfold modify.
  rewrite narrow_int_small by lia.
  set (pm1 := sought offset id id pm). change ({ { pm with streaming_offset_ := offset } with
    first_streaming_empty_part_ := id; first_streaming_not_ready_part_ := id }) with pm1.
  change (part_count_ pm1) with (part_count_ pm). destruct (Z.ltb_spec (part_count_ pm) id) as [Hlt|Hge].
  - change ({ pm1 with part_count_ := id; part_status_ := resize_status id (part_status_ pm1) })
      with (sought offset id id (grow id pm)).
    assert (Hg : wf (grow id pm)).
    { apply wf_grow; [done|lia|]. intros Hp. destruct (wf_prefix _ (proj1 Hwf) Hp) as (_ & Hup & _).
      destruct (Hu Hup) as [-> _]. unfold id in Hlt. rewrite Z.div_0_l in Hlt by lia. pose proof (len_nonneg (part_status_ pm)). lia. }
    destruct (finish_streaming_ok limit (sought offset id id (grow id pm))) as (d & pm' & Hf & Hwf' & Hk & Hs & Ho' & Hl').
    { apply wf_sought; [done|done|by cbn|]. intros Hup. apply (Hu Hup). }
    { done. }
    { intros Hup. apply (Hu Hup). }
    exists d, pm'. split; [done|]. split; [done|]. split.
    { transitivity (grow id pm); [apply keeps_grow; lia|]. by destruct Hk; constructor. }
    split; [|split; [by left|split; [apply Hl'|]]].
    2:{ intros Hun. exfalso. unfold ignored in Hign. rewrite Hun in Hign. apply orb_false_iff in Hign as [_ Hsz].
        cbn [negb andb] in Hsz. apply Z.ltb_ge in Hsz. pose proof (wf_known _ (proj1 Hwf) Hun).
        assert (id <= part_count_ pm); [|lia]. apply Z.lt_succ_r, Z.div_lt_upper_bound; nia. }
    intros i Hi. rewrite (Hs i Hi). exact (status_grow id i pm ltac:(lia)).
  - destruct (finish_streaming_ok limit pm1) as (d & pm' & Hf & Hwf' & Hk & Hs & Ho' & Hl').
    { apply wf_sought; [done|done|done|]. intros Hup. apply (Hu Hup). }
    { done. }
    { intros Hup. apply (Hu Hup). }
    exists d, pm'. split; [done|]. split; [done|]. split; [by destruct Hk; constructor|]. split; [done|]. split; [by left|].
    split; [apply Hl'|intros _; exact (proj2 Hl')].
Qed.

(** * The end of a part *)

(** What was asked for part [i]: its bytes, or a whole part when the file turned
    out to end before it. *)
Definition requested (i p : Z) pm : Prop :=
  0 < p /\ (p = part_len i pm \/ part_len i pm = 0 /\ p = part_size_ pm).

(** The object after [actual] bytes of part [id] came. *)
Definition delivered (id actual ready : Z) (mask : bitmask) pm : parts_manager :=
  ltac:(flat constr:({ (set_status id Ready pm) with
      pending_count_ := pending_count_ pm - 1; bitmask_ := mask; ready_size_ := ready_size_ pm + actual;
      streaming_ready_size_ := ready })).

Arguments delivered id actual ready mask pm /.

(** The object with another knowledge of the size. *)
Definition sized (unknown : bool) (size min_size max_size : Z) pm : parts_manager :=
  ltac:(flat constr:({ pm with unknown_size_flag_ := unknown; size_ := size; min_size_ := min_size;
                               max_size_ := max_size })).

Arguments sized unknown size min_size max_size pm /.

(** The bytes that the arrival of part [id] adds to the window. *)
Definition window_gain (id actual : Z) pm : Z :=
  if (0 <? streaming_limit_ pm) && in_window id pm then actual else 0.

Definition marked (id actual : Z) (mask : bitmask) pm : Prop :=
  forall j, get j mask = (negb (actual =? 0) && (j =? id)) || get j (bitmask_ pm).

Lemma on_part_ok_start id p actual pm :
  wf pm -> 0 <= id < part_count_ pm -> status id pm = Pending ->
  exists mask, marked id actual mask pm /\
    on_part_ok id p actual pm =
    (if unknown_size_flag_ pm then on_part_ok_unknown p actual (part_size_ pm * id + actual)
     else if (actual <? p) && (part_size_ pm * id <? size_ pm) || (size_ pm <=? part_size_ pm * id) && (0 <? actual)
     then throw "Failed to transfer file: " else mret tt)
      (delivered id actual (streaming_ready_size_ pm + window_gain id actual pm) mask pm).
Proof.
  intros Hwf Hid Hst. pose proof (wf_count _ (proj1 Hwf)) as Hc.
  destruct (set_spec id (bitmask_ pm)) as (m & Hset & _ & Hm); [lia|].
  exists (if actual =? 0 then bitmask_ pm else m). split.
  { intros j. destruct (actual =? 0); cbn [negb andb orb]; [done|apply Hm]. }
  unfold on_part_ok. set (mask := if actual =? 0 then bitmask_ pm else m).
  etransitivity; [eapply (bind_ok _ _ _ Pending pm); unfold ask; by rewrite status_at_eq, Hst by lia|]; cbv beta.
  pm_step pm. pm_step { pm with pending_count_ := pending_count_ pm - 1 }.
  set (pm1 := restate id Ready (pending_count_ pm - 1) pm). pm_step pm1.
  set (pm2 := { pm1 with bitmask_ := mask }).
  etransitivity; [eapply (bind_ok _ _ _ tt pm2)|]; cbv beta.
  { unfold mask in pm2. destruct (Z.eqb_spec actual 0); cbn [negb]; [unfold pm2, pm1; by destruct pm|].
    assert (Hset1 : ask (fun pm => set id (bitmask_ pm)) pm1 = (Ok m, pm1)).
    { unfold ask. change (bitmask_ pm1) with (bitmask_ pm). by rewrite Hset. }
    by rewrite (bind_ok _ _ _ _ _ Hset1). }
  set (pm3 := { pm2 with ready_size_ := ready_size_ pm2 + actual }). pm_step pm3. pm_step pm3.
  change (streaming_limit_ pm3) with (streaming_limit_ pm).
  set (gain := (0 <? streaming_limit_ pm) && in_window id pm).
  etransitivity; [eapply (bind_ok _ _ _ gain pm3)|]; cbv beta.
  { unfold gain. destruct (0 <? _); [|done]. cbn [andb]. unfold ask. by rewrite in_limit_eq by exact (proj2 Hid). }
  etransitivity; [eapply (bind_ok _ _ _ tt (delivered id actual (streaming_ready_size_ pm + window_gain id actual pm) mask pm))|]; cbv beta.
  { unfold window_gain. fold gain. destruct gain; [done|]. rewrite Z.add_0_r. unfold pm3, pm2, pm1. by destruct pm. }
  set (pm4 := delivered _ _ _ mask pm). pm_step pm4. pm_step pm4.
  change (unknown_size_flag_ pm4) with (unknown_size_flag_ pm). destruct (unknown_size_flag_ pm); [done|]. by pm_step pm4.
Qed.

(** ** The invariant after a part *)

(** What the new knowledge of the size must satisfy. *)
Record learned (id actual : Z) pm pm' : Prop := {
  le_total : 0 <= total pm' <= total pm;
  le_part : 0 < part_len id pm' -> actual <> 0;
  le_known : unknown_size_flag_ pm' = false -> size_ pm' <= part_count_ pm * part_size_ pm;
  le_unknown : unknown_size_flag_ pm' = true ->
    0 <= min_size_ pm' <= part_count_ pm * part_size_ pm /\
    (max_size_ pm' = max_int64 \/ max_size_ pm' mod part_size_ pm = 0 /\ max_size_ pm' <= 2 ^ 52);
  le_upload : is_upload_ pm = true -> unknown_size_flag_ pm' = true -> max_size_ pm' = max_int64;
  le_prefix : known_prefix_flag_ pm = true -> unknown_size_flag_ pm' = true;
}.

Lemma part_len_mono i pm pm' :
  0 < part_size_ pm -> part_size_ pm' = part_size_ pm -> total pm' <= total pm -> part_len i pm' <= part_len i pm.
Proof.
  intros Hp He Ht. unfold part_len. rewrite He.
  destruct (Z.ltb_spec (total pm') (part_size_ pm * i)), (Z.ltb_spec (total pm) (part_size_ pm * i)); lia.
Qed.

Lemma total_limited limit ready pm : total (limited limit ready pm) = total pm.
Proof. reflexivity. Qed.

Lemma total_delivered id actual ready mask pm : total (delivered id actual ready mask pm) = total pm.
Proof. reflexivity. Qed.

Lemma part_len_ext i pm pm' : part_size_ pm' = part_size_ pm -> total pm' = total pm -> part_len i pm' = part_len i pm.
Proof. intros Hp Ht. unfold part_len. by rewrite Hp, Ht. Qed.

Lemma wf_delivered id actual ready mask u sz mn mx pm :
  let pm' := sized u sz mn mx (delivered id actual ready mask pm) in
  wf pm -> 0 <= id < part_count_ pm -> status id pm = Pending -> marked id actual mask pm ->
  learned id actual pm pm' -> wf_but_window pm'.
Proof.
  intros pm' [Hd [He Hn Hse Hsn]] Hid Hst Hm [Ht Hpart Hk Hu Hup Hpre].
  pose proof (wf_count _ Hd) as Hc.
  assert (Hs : forall i, 0 <= i -> status i (limited 0 0 pm') = if i =? id then Ready else status i pm).
  { intros i Hi. exact (status_restate id Ready (pending_count_ pm - 1) i pm ltac:(lia) Hi). }
  assert (Hpass : forall skip i j, 0 <= i -> skip Ready = true -> passed skip i j pm -> passed skip i j (limited 0 0 pm')).
  { intros skip i j Hi Hr Hp. apply (passed_restate skip i j id Ready (pending_count_ pm - 1) pm); [done|lia|done|by left]. }
  pose proof (wf_part_size _ Hd) as Hps. destruct (wf_streaming _ Hd) as [Hoff Hlim].
  assert (Hq : 0 <= streaming_offset_ pm / part_size_ pm) by (apply Z.div_pos; lia).
  split.
  - destruct Hd. constructor.
    + done.
    + rewrite total_limited. exact (proj1 Ht).
    + cbn. unfold len. by rewrite length_insert.
    + done.
    + change (pending_count_ pm - 1 = pending_parts (restate id Ready (pending_count_ pm - 1) pm)).
      rewrite pending_restate by lia. unfold is_status. rewrite bool_decide_true by done. cbn [Z.b2z bool_decide]. 
      rewrite bool_decide_false by done. cbn [Z.b2z]. lia.
    + cbn. lia.
    + intros i Hi. change (get i mask = true) in Hi. rewrite Hm in Hi. pose proof (wf_bitmask i) as Hb.
      assert (Hi0 : 0 <= i).
      { destruct (Z.eqb_spec i id); [lia|]. rewrite andb_false_r in Hi. apply get_range in Hi. lia. }
      rewrite Hs by done. destruct (Z.eqb_spec i id); [done|]. rewrite andb_false_r in Hi. auto.
    + intros i Hi. rewrite Hs by done. change (bitmask_ (limited 0 0 pm')) with mask. rewrite Hm.
      destruct (Z.eqb_spec i id) as [->|Hne].
      * intros _ Hl. rewrite (part_len_ext id pm') in Hl by (by rewrite ?total_limited || by cbn).
        by rewrite (proj2 (Z.eqb_neq _ _) (Hpart Hl)).
      * rewrite andb_false_r. intros Hr Hl. apply wf_bitmask_ready; [done|done|].
        pose proof (part_len_mono i pm (limited 0 0 pm') ltac:(lia) ltac:(by cbn) ltac:(rewrite total_limited; lia)). lia.
    + done.
    + unfold pm' in *. cbn in *. exact Hk.
    + unfold pm' in *. cbn in *. exact Hu.
    + intros Hupl. destruct (wf_upload Hupl) as (_ & ? & _). split; [done|]. split; [done|].
      unfold pm' in *. cbn in *. exact (Hup Hupl).
    + intros Hp. destruct (wf_prefix Hp) as (_ & ? & ? & ?). unfold pm' in *. cbn in *. split; [exact (Hpre Hp)|done].
  - constructor.
    + by apply Hpass.
    + by apply Hpass.
    + intros Ho. destruct (Hse Ho). split; [done|]. by apply Hpass.
    + intros Ho. destruct (Hsn Ho). split; [done|]. by apply Hpass.
Qed.

Lemma window_delivered id actual ready mask pm :
  wf pm -> 0 <= id < part_count_ pm -> status id pm = Pending ->
  window_ready_bytes (delivered id actual ready mask pm) =
  window_ready_bytes pm + if in_window id pm then part_len id pm else 0.
Proof.
  intros Hwf Hid Hst. pose proof (wf_count _ (proj1 Hwf)).
  transitivity (window_ready_bytes (restate id Ready (pending_count_ pm - 1) pm)); [done|].
  rewrite window_restate by (by rewrite ?Hst || lia). rewrite bool_decide_true by done. by rewrite andb_true_r.
Qed.

Lemma in_window_ext i pm pm' :
  part_len i pm' = part_len i pm -> part_size_ pm' = part_size_ pm -> streaming_offset_ pm' = streaming_offset_ pm ->
  streaming_limit_ pm' = streaming_limit_ pm -> unknown_size_flag_ pm' = unknown_size_flag_ pm ->
  size_ pm' = size_ pm -> in_window i pm' = in_window i pm.
Proof. intros Hl Hp Ho Hm Hu Hs. unfold in_window. by rewrite Hl, Hp, Ho, Hm, Hu, Hs. Qed.

(** The window is right when the size did not change. *)
Lemma wf_delivered_window id actual mask u sz mn mx pm :
  let pm' := sized u sz mn mx (delivered id actual (streaming_ready_size_ pm + window_gain id actual pm) mask pm) in
  wf pm -> 0 <= id < part_count_ pm -> status id pm = Pending -> marked id actual mask pm ->
  learned id actual pm pm' -> total pm' = total pm ->
  unknown_size_flag_ pm' = unknown_size_flag_ pm -> size_ pm' = size_ pm -> actual = part_len id pm -> wf pm'.
Proof.
  intros pm' Hwf Hid Hst Hm Hl Ht Hu Hsz Hact. pose proof (wf_delivered _ _ _ _ _ _ _ _ _ Hwf Hid Hst Hm Hl) as Hb.
  fold pm' in Hb. destruct (wf_streaming _ (proj1 Hwf)) as [_ Hlim].
  apply wf_windowed; [exact Hb|exact Hlim| |].
  { intros Hup. by destruct (wf_upload _ (proj1 Hwf) Hup) as (? & _). }
  intros Hne. transitivity (streaming_ready_size_ pm + window_gain id actual pm); [by cbn|].
  rewrite (wf_window _ (proj1 Hwf) Hne). unfold window_gain.
  rewrite (proj2 (Z.ltb_lt 0 (streaming_limit_ pm))) by (cbn in Hne; lia). cbn [andb]. rewrite Hact.
  rewrite <- (window_delivered id actual 0 mask pm Hwf Hid Hst).
  unfold window_ready_bytes, over_parts. symmetry. apply sum_upto_ext. intros i _.
  set (pm1 := delivered id actual 0 mask pm).
  assert (Hl' : part_len i pm' = part_len i pm1).
  { apply part_len_ext; [by cbn|]. unfold pm1. by rewrite total_delivered. }
  unfold pm' in Hu, Hsz. cbn in Hu, Hsz. rewrite (in_window_ext i pm1 pm') by (exact Hl' || by cbn). unfold ready_len.
  rewrite Hl'. by cbn.
Qed.

(** ** A part of a file of unknown size *)

Section unknown_size.
Variables (actual end_offset : Z) (pm : parts_manager).
Hypothesis Hunknown : unknown_size_flag_ pm = true.

Definition lowered : bool := (actual <? part_size_ pm) && (end_offset <? max_size_ pm).
Definition new_max : Z := if lowered then end_offset else max_size_ pm.
Definition new_min : Z := if actual =? 0 then min_size_ pm else Z.max (min_size_ pm) end_offset.
Definition now_known : bool := new_min =? new_max.

Definition size_learned : parts_manager :=
  sized (negb now_known) (if now_known then new_min else size_ pm) new_min new_max pm.

Lemma on_part_ok_unknown_eq :
  exists pm', on_part_ok_unknown (part_size_ pm) actual end_offset pm =
  if new_max <? new_min then (Err (Error 0 "Failed to transfer file: "), pm')
  else if (lowered || now_known) && negb (streaming_limit_ pm =? 0)
  then set_streaming_limit (streaming_limit_ pm) size_learned else (Ok tt, size_learned).
Proof.
  set (pm1 := sized true (size_ pm) (min_size_ pm) new_max pm).
  set (pm2 := sized true (size_ pm) new_min new_max pm).
  exists pm2. unfold on_part_ok_unknown. pm_step pm.
  etransitivity; [eapply (bind_ok _ _ _ tt pm); unfold CHECK; by rewrite Z.eqb_refl|]; cbv beta. pm_step pm. cbv zeta.
  fold lowered. etransitivity; [eapply (bind_ok _ _ _ tt pm1)|]; cbv beta.
  { unfold pm1, new_max. destruct lowered; [unfold modify; f_equal|unfold mret, P_ret; f_equal];
      clear - Hunknown; destruct pm; cbn in *; by rewrite Hunknown. }
  etransitivity; [eapply (bind_ok _ _ _ tt pm2)|]; cbv beta.
  { unfold pm1, pm2, new_min. by destruct (actual =? 0). }
  pm_step pm2. pm_step pm2. change (min_size_ pm2) with new_min. change (max_size_ pm2) with new_max.
  destruct (new_max <? new_min); [done|]. fold now_known.
  etransitivity; [eapply (bind_ok _ _ _ tt size_learned)|]; cbv beta.
  { unfold size_learned, pm2. by destruct now_known. }
  pm_step size_learned. change (streaming_limit_ size_learned) with (streaming_limit_ pm).
  by destruct (_ && _).
Qed.
End unknown_size.

(** A multiple of the part size is not inside of a part. *)
Lemma multiple_gap ps x i : 0 < ps -> x mod ps = 0 -> x <= ps * i \/ ps * i + ps <= x.
Proof.
  intros Hp Hm. apply Z.div_exact in Hm; [|lia]. generalize dependent (x / ps). intros k ->.
  destruct (Z.le_gt_cases k i); [left|right]; nia.
Qed.

Lemma part_len_unknown i pm :
  wf_data pm -> unknown_size_flag_ pm = true -> 0 <= i <= 2 ^ 31 ->
  part_len i pm = if max_size_ pm <=? part_size_ pm * i then 0 else part_size_ pm.
Proof.
  intros Hd Hu Hi. pose proof (wf_part_size _ Hd) as Hp. destruct (wf_unknown _ Hd Hu) as [_ Hmax].
  unfold part_len, total. rewrite Hu. destruct (Z.leb_spec (max_size_ pm) (part_size_ pm * i)) as [Hle|Hgt].
  - destruct (Z.ltb_spec (max_size_ pm) (part_size_ pm * i)); lia.
  - rewrite (proj2 (Z.ltb_ge _ _)) by lia. destruct Hmax as [->|[Hmod _]].
    + unfold max_int64. nia.
    + destruct (multiple_gap (part_size_ pm) (max_size_ pm) i); lia.
Qed.

Section part_of_unknown.
Variables (id p actual ready : Z) (mask : bitmask) (pm : parts_manager).
Hypothesis Hwf : wf pm.
Hypothesis Hunknown : unknown_size_flag_ pm = true.
Hypothesis Hid : 0 <= id < part_count_ pm.
Hypothesis Hactual : 0 <= actual <= part_size_ pm.

Let offset : Z := part_size_ pm * id.
Let mx : Z := new_max actual (offset + actual) pm.
Let mn : Z := new_min actual (offset + actual) pm.
Let low : bool := lowered actual (offset + actual) pm.
Let known : bool := now_known actual (offset + actual) pm.

Hypothesis Hsizes : mn <= mx.

(** Either the size limit stays, and the part is complete or behind it, or the
    part ends the file. *)
Lemma part_cases :
  low = false /\ mx = max_size_ pm /\ (actual = part_size_ pm /\ offset + actual <= mn \/ actual = 0 /\ mx <= offset) \/
  low = true /\ mx = offset + actual /\ offset + actual < max_size_ pm /\ actual < part_size_ pm /\
  (known = true \/ actual = 0).
Proof.
  destruct (wf_part_size _ (proj1 Hwf)) as [Hp1 Hp2]. destruct (wf_unknown _ (proj1 Hwf) Hunknown) as [Hmin Hmax].
  pose proof (wf_count_bound _ (proj1 Hwf)) as Hcb.
  assert (Hoff : 0 <= offset <= 2 ^ 51) by (unfold offset; nia).
  assert (Hmul : max_size_ pm = max_int64 \/ max_size_ pm <= offset \/ offset + part_size_ pm <= max_size_ pm).
  { destruct Hmax as [?|[Hmod _]]; [by left|right]. by apply multiple_gap. }
  unfold known, now_known. fold mn mx. destruct low eqn:Hl.
  - right. assert (Hmx : mx = offset + actual) by (unfold mx, new_max; fold low; by rewrite Hl).
    unfold low, lowered in Hl. apply andb_true_iff in Hl as [Ha%Z.ltb_lt He%Z.ltb_lt].
    split; [done|]. split; [done|]. split; [done|]. split; [done|].
    destruct (Z.eq_dec actual 0) as [|Hne]; [by right|left]. apply Z.eqb_eq.
    assert (Hmn : offset + actual <= mn) by (unfold mn, new_min; rewrite (proj2 (Z.eqb_neq _ _)) by done; lia). lia.
  - left. assert (Hmx : mx = max_size_ pm) by (unfold mx, new_max; fold low; by rewrite Hl).
    split; [done|]. split; [done|]. unfold low, lowered in Hl.
    destruct (Z.eq_dec actual 0) as [->|Hne].
    + right. split; [done|]. rewrite Z.add_0_r in Hl. apply andb_false_iff in Hl as [Hl%Z.ltb_ge|Hl%Z.ltb_ge]; lia.
    + assert (Hmn : offset + actual <= mn) by (unfold mn, new_min; rewrite (proj2 (Z.eqb_neq _ _)) by done; lia).
      left. split; [|done]. apply andb_false_iff in Hl as [Hl%Z.ltb_ge|Hl%Z.ltb_ge]; [lia|].
      unfold max_int64 in Hmul. lia.
Qed.

Let pm' : parts_manager := size_learned actual (offset + actual) (delivered id actual ready mask pm).

Lemma total_learned : total pm' = mx.
Proof.
  unfold total, pm', size_learned. change (now_known _ _ _) with known. cbn. destruct known eqn:Hk; [|done].
  unfold known, now_known in Hk. by apply Z.eqb_eq in Hk.
Qed.

Lemma mx_le : mx <= max_size_ pm.
Proof. destruct part_cases as [(_ & -> & _)|(_ & -> & ? & _)]; lia. Qed.

Lemma mn_bounds : min_size_ pm <= mn <= part_count_ pm * part_size_ pm.
Proof.
  destruct (wf_unknown _ (proj1 Hwf) Hunknown) as [Hmin _]. destruct (wf_part_size _ (proj1 Hwf)).
  assert (He : offset + actual <= part_count_ pm * part_size_ pm) by (unfold offset; nia).
  unfold mn, new_min. destruct (actual =? 0); lia.
Qed.

Lemma part_len_here : part_len id pm' = actual.
Proof.
  destruct (wf_part_size _ (proj1 Hwf)) as [Hp1 Hp2]. unfold part_len. rewrite total_learned.
  change (part_size_ pm') with (part_size_ pm). fold offset.
  pose proof (part_len_unknown id pm (proj1 Hwf) Hunknown ltac:(pose proof (wf_count_bound _ (proj1 Hwf)); lia)) as Hpl.
  destruct part_cases as [(_ & _ & [(-> & ?)|(-> & ?)])|(_ & -> & ? & ? & _)];
    destruct (Z.ltb_spec mx offset) || destruct (Z.ltb_spec (offset + actual) offset); lia.
Qed.

(** The other parts keep their lengths, or turn out to be behind the end. *)
Lemma part_len_others j :
  0 <= j < part_count_ pm -> j <> id -> part_len j pm' = part_len j pm \/ part_len j pm' = 0.
Proof.
  intros Hj Hne. destruct (wf_part_size _ (proj1 Hwf)) as [Hp1 Hp2].
  pose proof (wf_count_bound _ (proj1 Hwf)) as Hcb.
  rewrite (part_len_unknown j pm (proj1 Hwf) Hunknown) by lia. unfold part_len. rewrite total_learned.
  change (part_size_ pm') with (part_size_ pm).
  destruct part_cases as [(_ & Hm & _)|(_ & Hm & ? & ? & _)].
  - left. pose proof (part_len_unknown j pm (proj1 Hwf) Hunknown ltac:(lia)) as Hpl. unfold part_len, total in Hpl.
    rewrite Hunknown in Hpl. by rewrite Hm.
  - rewrite Hm. destruct (Z.lt_ge_cases j id) as [Hlt|Hgt].
    + left. rewrite (proj2 (Z.leb_gt _ _)) by (unfold offset in *; nia).
      rewrite (proj2 (Z.ltb_ge _ _)) by (unfold offset in *; nia). unfold offset. nia.
    + right. rewrite (proj2 (Z.ltb_lt _ _)) by (unfold offset in *; nia). done.
Qed.

Hypothesis Hupload : is_upload_ pm = true -> actual = part_size_ pm.

Lemma upload_stays : is_upload_ pm = true -> low = false /\ mx = max_int64 /\ known = false.
Proof.
  intros Hup. pose proof (Hupload Hup) as Hfull. destruct (wf_upload _ (proj1 Hwf) Hup) as (_ & _ & Hm). specialize (Hm Hunknown).
  destruct part_cases as [(Hl & Hmx & _)|(_ & _ & _ & ? & _)]; [|lia]. split; [done|]. split; [lia|].
  unfold known, now_known. fold mn mx. apply Z.eqb_neq. pose proof mn_bounds. destruct (wf_part_size _ (proj1 Hwf)).
  pose proof (wf_count_bound _ (proj1 Hwf)). rewrite Hmx, Hm. unfold max_int64. nia.
Qed.

Lemma learned_ok : learned id actual pm pm'.
Proof.
  pose proof mn_bounds as Hmn. pose proof mx_le as Hmx. destruct (wf_unknown _ (proj1 Hwf) Hunknown) as [Hmin Hmax].
  destruct (wf_part_size _ (proj1 Hwf)) as [Hp1 Hp2]. pose proof (wf_count_bound _ (proj1 Hwf)) as Hcb.
  constructor.
  - rewrite total_learned. unfold total. rewrite Hunknown. lia.
  - rewrite part_len_here. lia.
  - unfold pm', size_learned. change (now_known _ _ _) with known. cbn. change (new_min _ _ _) with mn.
    destruct known; [lia|done].
  - unfold pm', size_learned. change (now_known _ _ _) with known. cbn. change (new_min _ _ _) with mn.
    change (new_max _ _ _) with mx. intros Hk. apply negb_true_iff in Hk. split; [lia|].
    destruct part_cases as [(_ & -> & _)|(_ & -> & ? & ? & [?|Ha])]; [done|congruence|]. right.
    rewrite Ha, Z.add_0_r. unfold offset. split; [by rewrite Z.mul_comm, Z.mod_mul by lia|nia].
  - intros Hup _. unfold pm', size_learned. cbn. by destruct (upload_stays Hup) as (_ & ? & _).
  - intros Hpre. destruct (wf_prefix _ (proj1 Hwf) Hpre) as (_ & Hup & _). destruct (upload_stays Hup) as (_ & _ & Hk).
    unfold pm', size_learned. change (now_known _ _ _) with known. by rewrite Hk.
Qed.
End part_of_unknown.

(** ** Accounting *)

Lemma ready_delivered id actual ready mask u sz mn mx pm :
  let pm' := sized u sz mn mx (delivered id actual ready mask pm) in
  wf pm -> 0 <= id < part_count_ pm -> status id pm = Pending -> part_len id pm' = actual ->
  (forall i, 0 <= i -> i <> id -> status i pm = Ready -> part_len i pm' = part_len i pm) ->
  ready_bytes pm' = ready_bytes pm + actual.
Proof.
  intros pm' Hwf Hid Hst Hl Ho. pose proof (wf_count _ (proj1 Hwf)) as Hc.
  assert (Hs : forall i, 0 <= i -> status i pm' = if i =? id then Ready else status i pm).
  { intros i Hi. exact (status_restate id Ready (pending_count_ pm - 1) i pm ltac:(lia) Hi). }
  unfold ready_bytes. rewrite (over_parts_set (fun i => ready_len i pm) (fun i => ready_len i pm') id Ready pm pm'); [|lia|done|].
  - unfold ready_len at 2 3, is_status. rewrite Hs, Z.eqb_refl, Hst, Hl by lia. rewrite bool_decide_false, bool_decide_true by done. lia.
  - intros i Hi Hne. unfold ready_len, is_status. rewrite Hs by done. rewrite (proj2 (Z.eqb_neq i id)) by done.
    destruct (decide (status i pm = Ready)) as [Hr|Hr].
    + rewrite !bool_decide_true by done. by apply Ho.
    + by rewrite !bool_decide_false.
Qed.

(** The object after a call for part [id], as the other parts in flight see it. *)
Record others_keep (id : Z) pm pm' : Prop := {
  ok_status : forall j, 0 <= j -> j <> id -> status j pm' = status j pm;
  ok_requested : forall j q, 0 <= j < part_count_ pm -> j <> id -> requested j q pm -> requested j q pm';
  ok_count : part_count_ pm <= part_count_ pm';
}.

Lemma status_delivered id actual ready mask u sz mn mx j pm :
  0 <= id < len (part_status_ pm) -> 0 <= j ->
  status j (sized u sz mn mx (delivered id actual ready mask pm)) = if j =? id then Ready else status j pm.
Proof. intros Hid Hj. exact (status_restate id Ready (pending_count_ pm - 1) j pm Hid Hj). Qed.

Lemma sized_same pm : sized (unknown_size_flag_ pm) (size_ pm) (min_size_ pm) (max_size_ pm) pm = pm.
Proof. by destruct pm. Qed.

(** The last part of a file of known size is not empty. *)
Definition tight pm : Prop := unknown_size_flag_ pm = false -> (part_count_ pm - 1) * part_size_ pm < size_ pm.

(** What is known after a part, but for the invariant. *)
Record part_taken_but_wf (id actual : Z) pm pm' : Prop := {
  pt_accounted : accounted pm -> accounted pm';
  pt_others : others_keep id pm pm';
  pt_status : status id pm' = Ready;
  pt_length : part_len id pm' = actual;
  pt_ready_size : ready_size_ pm' = ready_size_ pm + actual;
  pt_total : total pm' <= total pm;
  pt_offset : streaming_offset_ pm' = streaming_offset_ pm;
  pt_part_size : part_size_ pm' = part_size_ pm;
  pt_upload : is_upload_ pm' = is_upload_ pm;
  pt_known : unknown_size_flag_ pm = false -> unknown_size_flag_ pm' = false;
  pt_tight : is_upload_ pm = true \/ unknown_size_flag_ pm = false -> tight pm -> tight pm';
  pt_size : unknown_size_flag_ pm = false -> size_ pm' = size_ pm;
}.

Definition part_taken (id actual : Z) pm pm' : Prop := wf pm' /\ part_taken_but_wf id actual pm pm'.

Definition bad_part (id p actual : Z) pm : bool :=
  (actual <? p) && (part_size_ pm * id <? size_ pm) || (size_ pm <=? part_size_ pm * id) && (0 <? actual).

Lemma on_part_ok_known id p actual pm :
  wf pm -> unknown_size_flag_ pm = false -> 0 <= id < part_count_ pm -> status id pm = Pending ->
  requested id p pm -> 0 <= actual <= p ->
  exists pm', on_part_ok id p actual pm =
    (if bad_part id p actual pm then Err (Error 0 "Failed to transfer file: ") else Ok tt, pm') /\
    (bad_part id p actual pm = false ->
     part_taken id actual pm pm' /\ actual = part_len id pm /\ unknown_size_flag_ pm' = false).
Proof.
  intros Hwf Hu Hid Hst [Hp0 Hreq] Hact. pose proof (wf_count _ (proj1 Hwf)) as Hc.
  destruct (on_part_ok_start id p actual pm Hwf Hid Hst) as (mask & Hmask & ->). rewrite Hu.
  fold (bad_part id p actual pm). set (ready := streaming_ready_size_ pm + window_gain id actual pm).
  exists (delivered id actual ready mask pm). split; [by destruct (bad_part id p actual pm)|].
  intros Hb. destruct (wf_part_size _ (proj1 Hwf)) as [Hp _].
  assert (Hlen : actual = part_len id pm).
  { unfold bad_part in Hb. apply orb_false_iff in Hb as [H1 H2]. unfold part_len, total in *. rewrite Hu in *.
    destruct (Z.ltb_spec actual p), (Z.ltb_spec (part_size_ pm * id) (size_ pm)), (Z.leb_spec (size_ pm) (part_size_ pm * id)),
      (Z.ltb_spec 0 actual); try done; destruct (Z.ltb_spec (size_ pm) (part_size_ pm * id)); lia. }
  set (pm' := sized false (size_ pm) (min_size_ pm) (max_size_ pm) (delivered id actual ready mask pm)).
  assert (He : delivered id actual ready mask pm = pm') by (unfold pm'; rewrite <- Hu; exact (eq_sym (sized_same (delivered id actual ready mask pm)))).
  rewrite He. clear He.
  assert (Ht : total pm' = total pm) by (unfold total, pm'; cbn; by rewrite Hu).
  assert (Hpl : forall i, part_len i pm' = part_len i pm) by (intros i; by apply part_len_ext).
  assert (Hl : learned id actual pm pm').
  { constructor; try done.
    - rewrite Ht. pose proof (wf_total _ (proj1 Hwf)). lia.
    - rewrite Hpl. lia.
    - intros _. by apply (wf_known _ (proj1 Hwf)).
    - intros Hpre. destruct (wf_prefix _ (proj1 Hwf) Hpre) as (? & _). congruence. }
  split; [|done]. split; [by apply wf_delivered_window|]. constructor.
  - intros [Hr _ Hbits]. split; [|done|].
    2:{ intros i Hi. rewrite Hpl. change (get i mask = true) in Hi. rewrite Hmask in Hi.
        apply orb_true_iff in Hi as [Hi|Hi]; [|by apply Hbits]. apply andb_true_iff in Hi as [Hz%negb_true_iff%Z.eqb_neq ->%Z.eqb_eq]. lia. }
    change (ready_size_ pm') with (ready_size_ pm + actual). rewrite Hr. symmetry.
    apply (ready_delivered id actual ready mask false (size_ pm) (min_size_ pm) (max_size_ pm) pm); try done.
    transitivity (part_len id pm); [apply Hpl|done].
  - constructor; [| |done].
    + intros j Hj Hne. unfold pm'. rewrite status_delivered by lia. by rewrite (proj2 (Z.eqb_neq j id)).
    + intros j q _ _. unfold requested. by rewrite Hpl.
  - unfold pm'. rewrite status_delivered by lia. by rewrite Z.eqb_refl.
  - by rewrite Hpl.
  - done.
  - lia.
  - done.
  - done.
  - done.
  - done.
  - intros _ Ht' _. exact (Ht' Hu).
  - done.
Qed.

(** Changing the window of an object changes nothing else. *)
Lemma taken_limited limit ready id actual pm pm' :
  wf (limited limit ready pm') -> part_taken_but_wf id actual pm pm' -> part_taken id actual pm (limited limit ready pm').
Proof.
  intros Hwf [Ha [Hs Hr Hc] Hst Hl Hrs Ht Ho Hps Hup Hk He Hsz]. split; [assumption|]. constructor; try assumption.
  - intros Hac. destruct (Ha Hac). by constructor.
  - by constructor.
Qed.

Lemma limited_same pm : limited (streaming_limit_ pm) (streaming_ready_size_ pm) pm = pm.
Proof. by destruct pm. Qed.

Section taken.
Variables (id actual ready : Z) (mask : bitmask) (pm : parts_manager).
Hypothesis Hwf : wf pm.
Hypothesis Hunknown : unknown_size_flag_ pm = true.
Hypothesis Hid : 0 <= id < part_count_ pm.
Hypothesis Hst : status id pm = Pending.
Hypothesis Hactual : 0 <= actual <= part_size_ pm.
Hypothesis Hupload : is_upload_ pm = true -> actual = part_size_ pm.

Let e : Z := part_size_ pm * id + actual.
Let pm' : parts_manager := size_learned actual e (delivered id actual ready mask pm).

Hypothesis Hsizes : new_min actual e pm <= new_max actual e pm.

Lemma status_learned j : 0 <= j -> status j pm' = if j =? id then Ready else status j pm.
Proof. apply status_delivered. rewrite <- (wf_count _ (proj1 Hwf)). exact Hid. Qed.

(** The ready parts keep their lengths. *)
Lemma ready_lengths i :
  accounted pm -> 0 <= i -> i <> id -> status i pm = Ready -> part_len i pm' = part_len i pm.
Proof.
  intros [_ Hcomplete] Hi Hne Hr. pose proof (total_learned id actual ready mask pm : total pm' = new_max actual e pm) as Htot.
  pose proof (mn_bounds id actual pm Hwf Hunknown Hid Hactual) as Hmn.
  destruct (wf_part_size _ (proj1 Hwf)) as [Hp _].
  destruct (part_cases id actual pm Hwf Hunknown Hid Hactual Hsizes) as [(_ & Hm & _)|(_ & Hm & ? & ? & _)].
  - apply part_len_ext; [done|]. rewrite Htot. unfold e. rewrite Hm. unfold total. by rewrite Hunknown.
  - destruct (is_upload_ pm) eqn:Hup; [specialize (Hupload eq_refl); lia|].
    unfold part_len. rewrite Htot. change (part_size_ pm') with (part_size_ pm). unfold total. rewrite Hunknown. fold e in Hm, Hmn.
    destruct (Hcomplete Hunknown eq_refl i Hi Hr).
    + rewrite !(proj2 (Z.ltb_ge _ _)) by lia. lia.
    + destruct (Z.ltb_spec (new_max actual e pm) (part_size_ pm * i)), (Z.ltb_spec (max_size_ pm) (part_size_ pm * i)); lia.
Qed.

Hypothesis Hmask : marked id actual mask pm.

Lemma learned_accounted : accounted pm -> accounted pm'.
Proof.
  intros Hac. pose proof (part_len_here id actual ready mask pm Hwf Hunknown Hid Hactual Hsizes : part_len id pm' = actual) as Hpl.
  split.
  - change (ready_size_ pm') with (ready_size_ pm + actual). rewrite (ac_ready_size _ Hac). symmetry.
    apply ready_delivered; try done. intros i. by apply ready_lengths.
  - intros Hu' Hup i Hi Hr. change (part_size_ pm') with (part_size_ pm). change (min_size_ pm') with (new_min actual e pm).
    change (max_size_ pm') with (new_max actual e pm).
    change (unknown_size_flag_ pm') with (negb (now_known actual e pm)) in Hu'. apply negb_true_iff in Hu'.
    pose proof (mn_bounds id actual pm Hwf Hunknown Hid Hactual) as Hmn.
    pose proof (mx_le id actual pm Hwf Hunknown Hid Hactual Hsizes) as Hmx. fold e in Hmn, Hmx.
    rewrite status_learned in Hr by done. destruct (Z.eqb_spec i id) as [->|Hne].
    + pose proof (part_cases id actual pm Hwf Hunknown Hid Hactual Hsizes) as Hcase. fold e in Hcase.
      assert (He : e = part_size_ pm * id + actual) by done. clearbody e.
      destruct Hcase as [(_ & _ & [[? ?]|[? ?]])|(_ & ? & _ & _ & [?|?])]; [left; lia|right; lia|congruence|right; lia].
    + destruct (ac_complete _ Hac Hunknown Hup i Hi Hr); [left|right]; lia.
  - intros i Hi. change (get i mask = true) in Hi. rewrite Hmask in Hi. destruct (Z.eqb_spec i id) as [Heq|Hne].
    + rewrite Heq in *. rewrite Hpl. destruct (Z.eqb_spec actual 0); [|lia].
      pose proof (wf_bitmask _ (proj1 Hwf) id Hi) as Hr. by rewrite Hst in Hr.
    + rewrite andb_false_r in Hi. pose proof (get_range _ _ Hi) as [Hi0 _].
      rewrite (ready_lengths i Hac Hi0 Hne) by by apply (wf_bitmask _ (proj1 Hwf)). by apply (ac_bitmask _ Hac).
Qed.

Lemma learned_taken : part_taken_but_wf id actual pm pm'.
Proof.
  pose proof (total_learned id actual ready mask pm : total pm' = new_max actual e pm) as Htot.
  constructor.
  - exact learned_accounted.
  - constructor; [| |done].
    + intros j Hj Hne. rewrite status_learned by done. by rewrite (proj2 (Z.eqb_neq j id)).
    + intros j q Hj Hne [Hq Hreq]. split; [done|]. pose proof (wf_count_bound _ (proj1 Hwf)).
      change (part_size_ pm') with (part_size_ pm).
      assert (Hfull : q = part_size_ pm).
      { rewrite (part_len_unknown j pm (proj1 Hwf) Hunknown) in Hreq by lia. destruct (_ <=? _); lia. }
      destruct (part_len_others id actual ready mask pm Hwf Hunknown Hid Hactual Hsizes j Hj Hne) as [Hpl|Hpl];
        fold e in Hpl; fold pm' in Hpl; rewrite Hpl; [exact Hreq|by right].
  - rewrite status_learned by lia. by rewrite Z.eqb_refl.
  - exact (part_len_here id actual ready mask pm Hwf Hunknown Hid Hactual Hsizes).
  - done.
  - rewrite Htot. unfold total. rewrite Hunknown. exact (mx_le id actual pm Hwf Hunknown Hid Hactual Hsizes).
  - done.
  - done.
  - done.
  - intros Hk. congruence.
  - intros [Hup|Hu] _ Hk; [|congruence]. exfalso.
    destruct (upload_stays id actual pm Hwf Hunknown Hid Hactual Hsizes Hupload Hup) as (_ & _ & Hkn). fold e in Hkn.
    change (unknown_size_flag_ pm') with (negb (now_known actual e pm)) in Hk. by rewrite Hkn in Hk.
  - intros Hk. congruence.
Qed.
End taken.

Lemma on_part_ok_of_unknown id p actual pm :
  wf pm -> unknown_size_flag_ pm = true -> 0 <= id < part_count_ pm -> status id pm = Pending ->
  requested id p pm -> 0 <= actual <= p -> (is_upload_ pm = true -> actual = p) ->
  exists pm', on_part_ok id p actual pm = (Err (Error 0 "Failed to transfer file: "), pm') \/
    on_part_ok id p actual pm = (Ok tt, pm') /\ part_taken id actual pm pm'.
Proof.
  intros Hwf Hu Hid Hst [Hp0 Hreq] Hact Hupl. pose proof (wf_count _ (proj1 Hwf)) as Hc.
  destruct (wf_part_size _ (proj1 Hwf)) as [Hp1 Hp2]. pose proof (wf_count_bound _ (proj1 Hwf)) as Hcb.
  pose proof (wf_streaming _ (proj1 Hwf)) as [_ Hlim].
  assert (Hp : p = part_size_ pm).
  { rewrite (part_len_unknown id pm (proj1 Hwf) Hu) in Hreq by lia. destruct (_ <=? _); lia. }
  subst p. destruct (on_part_ok_start id (part_size_ pm) actual pm Hwf Hid Hst) as (mask & Hmask & Heq). rewrite Heq, Hu.
  clear Heq. set (ready := streaming_ready_size_ pm + window_gain id actual pm).
  set (pm1 := delivered id actual ready mask pm). set (e := part_size_ pm * id + actual).
  destruct (on_part_ok_unknown_eq actual e pm1 Hu) as (pme & Heq). change (part_size_ pm1) with (part_size_ pm) in Heq.
  rewrite Heq. clear Heq. change (new_max actual e pm1) with (new_max actual e pm).
  change (new_min actual e pm1) with (new_min actual e pm). change (lowered actual e pm1) with (lowered actual e pm).
  change (now_known actual e pm1) with (now_known actual e pm). change (streaming_limit_ pm1) with (streaming_limit_ pm).
  destruct (Z.ltb_spec (new_max actual e pm) (new_min actual e pm)) as [Hbad|Hsz]; [exists pme; by left|].
  pose proof (learned_ok id actual ready mask pm Hwf Hu Hid Hact Hsz Hupl) as Hl.
  pose proof (part_len_here id actual ready mask pm Hwf Hu Hid Hact Hsz) as Hpl.
  pose proof (total_learned id actual ready mask pm) as Htot.
  pose proof (part_len_others id actual ready mask pm Hwf Hu Hid Hact Hsz) as Hpo.
  pose proof (part_cases id actual pm Hwf Hu Hid Hact Hsz) as Hcase.
  pose proof (mx_le id actual pm Hwf Hu Hid Hact Hsz) as Hmx.
  pose proof (mn_bounds id actual pm Hwf Hu Hid Hact) as Hmn.
  fold pm1 e in Hl, Hpl, Htot, Hpo, Hcase, Hmx, Hmn. set (pm2 := size_learned actual e pm1) in *.
  assert (Hpart : part_taken_but_wf id actual pm pm2).
  { by apply learned_taken. }
  pose proof (wf_delivered id actual ready mask _ _ _ _ pm Hwf Hid Hst Hmask Hl) as Hwfb.
  change (wf_but_window pm2) in Hwfb.
  destruct ((lowered actual e pm || now_known actual e pm) && negb (streaming_limit_ pm =? 0)) eqn:Hset.
  - destruct (set_streaming_limit_ok (streaming_limit_ pm) pm2) as (r & -> & Hw); [done|done| |].
    { intros Hup. by destruct (wf_upload _ (proj1 Hwf) Hup) as (? & _). }
    exists (limited (streaming_limit_ pm) r pm2). right. split; [done|]. by apply taken_limited.
  - exists pm2. right. split; [done|]. rewrite <- (limited_same pm2). apply taken_limited; [|done].
    rewrite limited_same. destruct (Z.eqb_spec (streaming_limit_ pm) 0) as [Hz|Hnz].
    + apply wf_windowed; [done| | |]; change (streaming_limit_ pm2) with (streaming_limit_ pm); [lia|done|done].
    + rewrite andb_true_r in Hset. apply orb_false_iff in Hset as [Hlow Hk].
      destruct Hcase as [(_ & Hm & Hc2)|(? & _)]; [|congruence].
      assert (Ht : total pm2 = total pm) by (rewrite Htot, Hm; unfold total; by rewrite Hu).
      apply wf_delivered_window; try done.
      * cbn. change (now_known actual e pm1) with (now_known actual e pm). by rewrite Hk, Hu.
      * cbn. change (now_known actual e pm1) with (now_known actual e pm). by rewrite Hk.
      * rewrite <- Hpl at 1. by apply part_len_ext.
Qed.

(** A part that comes is accepted, or it shows that the file has another
    length than it should have. *)
Lemma on_part_ok_ok id p actual pm :
  wf pm -> 0 <= id < part_count_ pm -> status id pm = Pending ->
  requested id p pm -> 0 <= actual <= p -> (is_upload_ pm = true -> actual = p) ->
  exists pm', on_part_ok id p actual pm = (Err (Error 0 "Failed to transfer file: "), pm') \/
    on_part_ok id p actual pm = (Ok tt, pm') /\ part_taken id actual pm pm'.
Proof.
  intros Hwf Hid Hst Hreq Hact Hup. destruct (unknown_size_flag_ pm) eqn:Hu; [by apply on_part_ok_of_unknown|].
  destruct (on_part_ok_known id p actual pm Hwf Hu Hid Hst Hreq Hact) as (pm' & -> & Hok). exists pm'.
  destruct (bad_part id p actual pm); [by left|right]. split; [done|]. by apply Hok.
Qed.

(** * The growing prefix of an upload *)

(** The object that knows more of the file. *)
Definition prefixed (flag : bool) (prefix expected : Z) pm : parts_manager :=
  ltac:(flat constr:({ pm with known_prefix_flag_ := flag; known_prefix_size_ := prefix; expected_size_ := expected })).

Arguments prefixed flag prefix expected pm /.

Lemma wf_prefixed flag prefix expected pm :
  wf pm -> (flag = true -> known_prefix_flag_ pm = true /\ known_prefix_size_ pm <= prefix /\
                           prefix / part_size_ pm < 2 ^ 31) ->
  wf (prefixed flag prefix expected pm).
Proof.
  intros [[] []] Hf. split; [|by constructor]. constructor; try done.
  intros Hfl. destruct (Hf Hfl) as (Hk & Hle & Hlt). destruct (wf_prefix Hk) as (? & ? & ? & ? & ?). cbn.
  split; [done|]. split; [done|]. split; [lia|]. split; [|done].
  pose proof (Z.div_le_mono (known_prefix_size_ pm) prefix (part_size_ pm)). lia.
Qed.

(** The size of an upload becomes known. *)
Lemma wf_upload_sized size pm :
  wf pm -> is_upload_ pm = true -> known_prefix_flag_ pm = false ->
  0 <= size <= total pm -> size <= part_count_ pm * part_size_ pm ->
  wf (sized false size (min_size_ pm) (max_size_ pm) pm).
Proof.
  intros Hwf Hup Hk Hs Hc. pose proof (wf_part_size _ (proj1 Hwf)) as Hp.
  destruct (wf_upload _ (proj1 Hwf) Hup) as (Hl & Ho & _). destruct Hwf as [[] []].
  split; [|by constructor]. constructor; try done.
  - cbn. unfold total. cbn. lia.
  - intros i Hi Hr Hlen. apply wf_bitmask_ready; [done|done|].
    set (pm' := sized _ _ _ _ _) in *. assert (Ht : total pm' = size) by done.
    pose proof (part_len_mono i pm pm' ltac:(lia) eq_refl ltac:(lia)). lia.
  - intros Hk'. change (known_prefix_flag_ pm = true) in Hk'. congruence.
Qed.

Lemma div_up_bounds size ps : 0 < ps -> 0 <= size -> size <= (size + ps - 1) / ps * ps < size + ps.
Proof. intros Hp Hs. pose proof (Z.div_mod (size + ps - 1) ps). pose proof (Z.mod_pos_bound (size + ps - 1) ps). lia. Qed.

Lemma calc_part_count_eq size ps : 0 < ps -> calc_part_count size ps = Ok ((size + ps - 1) / ps).
Proof. intros Hp. unfold calc_part_count. by rewrite (proj2 (Z.eqb_neq _ _)) by lia. Qed.

(** The restart at the end of [set_known_prefix]. *)
Definition too_many_parts pm : bool :=
  use_part_count_limit_ pm && (part_size_ pm <? MAX_PART_SIZE) &&
  (MAX_PART_COUNT <? (expected_size_ pm + part_size_ pm - 1) / part_size_ pm).

(** The object after [set_known_prefix]. *)
Definition known_prefix_set (size : Z) (is_ready : bool) pm : parts_manager :=
  let expected := Z.max size (expected_size_ pm) in
  if is_ready
  then sized false size (min_size_ pm) (max_size_ pm)
         (grow ((size + part_size_ pm - 1) / part_size_ pm) (prefixed false size expected pm))
  else grow (size / part_size_ pm) (prefixed true size expected pm).

(** The file shrank, or has fewer whole parts than before. *)
Definition prefix_shrinks (size : Z) (is_ready : bool) pm : bool :=
  negb (known_prefix_flag_ pm) || (size <? known_prefix_size_ pm) ||
  (negb is_ready && (size / part_size_ pm <? len (part_status_ pm))).

Lemma set_known_prefix_eq size is_ready pm :
  wf pm -> is_upload_ pm = true -> 0 <= size < (2 ^ 31 - 1) * part_size_ pm ->
  exists pme, set_known_prefix size is_ready pm =
  if prefix_shrinks size is_ready pm || too_many_parts (known_prefix_set size is_ready pm)
  then (Err (Error 0 "FILE_UPLOAD_RESTART"), pme) else (Ok tt, known_prefix_set size is_ready pm).
Proof.
  intros Hwf Hup Hs. pose proof (wf_part_size _ (proj1 Hwf)) as Hp. pose proof (wf_count _ (proj1 Hwf)) as Hc.
  destruct (wf_upload _ (proj1 Hwf) Hup) as (Hlim & _ & _).
  assert (Hrestart : (if negb (known_prefix_flag_ pm) || (size <? known_prefix_size_ pm) then Ok true
    else if negb is_ready then _ ← check (negb (part_size_ pm =? 0)); Ok (size / part_size_ pm <? len (part_status_ pm))
    else Ok false) = Ok (prefix_shrinks size is_ready pm)).
  { unfold prefix_shrinks. rewrite (proj2 (Z.eqb_neq _ _)) by lia. cbn [negb check].
    by destruct (negb (known_prefix_flag_ pm) || _), is_ready. }
  unfold set_known_prefix.
  destruct (prefix_shrinks size is_ready pm) eqn:Hshrink; cbn [orb].
  { exists pm. etransitivity; [eapply (bind_ok _ _ _ true pm); unfold ask; by rewrite Hrestart|]; cbv beta.
    pm_step pm. by rewrite (bind_ok _ _ _ tt pm) by (by rewrite Hup). }
  unfold prefix_shrinks in Hshrink. apply orb_false_iff in Hshrink as [Hsh Hlen]. apply orb_false_iff in Hsh as [Hk Hle].
  apply negb_false_iff in Hk. apply Z.ltb_ge in Hle. destruct (wf_prefix _ (proj1 Hwf) Hk) as (Hu & _ & Hk0 & Hkc & Hk31).
  set (pm1 := { pm with known_prefix_size_ := size; expected_size_ := Z.max size (expected_size_ pm) }).
  assert (Hlast : forall pm', is_upload_ pm' = true -> 0 < part_size_ pm' ->
    (too_many ← ask (fun pm => if use_part_count_limit_ pm && (part_size_ pm <? MAX_PART_SIZE) then
        count ← calc_part_count (expected_size_ pm) (part_size_ pm); Ok (MAX_PART_COUNT <? count) else Ok false);
     if too_many : bool then _ ← CHECK true; throw "FILE_UPLOAD_RESTART" else mret tt) pm' =
    (if too_many_parts pm' then Err (Error 0 "FILE_UPLOAD_RESTART") else Ok tt, pm')).
  { intros pm' Hup' Hp'. rewrite (bind_ok _ _ _ (too_many_parts pm') pm').
    - by destruct (too_many_parts pm').
    - unfold ask, too_many_parts. rewrite calc_part_count_eq by done. by destruct (_ && (_ <? MAX_PART_SIZE)). }
  exists (known_prefix_set size is_ready pm).
  etransitivity; [eapply (bind_ok _ _ _ false pm); unfold ask; by rewrite Hrestart|]; cbv beta. pm_step pm. rewrite Hup.
  pm_step pm1. pm_step pm1.
  etransitivity; [eapply (bind_ok _ _ _ tt pm1); unfold CHECK|]; cbv beta.
  { change (part_count_ pm1) with (part_count_ pm). change (part_status_ pm1) with (part_status_ pm). by rewrite Hc, Z.eqb_refl. }
  set (n := if is_ready then (size + part_size_ pm - 1) / part_size_ pm else size / part_size_ pm).
  pose proof (Z.div_le_mono (known_prefix_size_ pm) size (part_size_ pm) ltac:(lia) Hle) as Hmono.
  pose proof (div_up_bounds size (part_size_ pm) ltac:(lia) ltac:(lia)) as Hup2.
  assert (Hq : size / part_size_ pm <= (size + part_size_ pm - 1) / part_size_ pm) by (apply Z.div_le_mono; lia).
  assert (Hn : len (part_status_ pm) <= n < 2 ^ 31).
  { unfold n. pose proof (len_nonneg (part_status_ pm)). destruct is_ready.
    - split; [lia|]. apply Z.div_lt_upper_bound; lia.
    - cbn [negb andb] in Hlen. apply Z.ltb_ge in Hlen. split; [lia|]. apply Z.div_lt_upper_bound; lia. }
  pose proof (len_nonneg (part_status_ pm)) as Hl0.
  set (pm2 := if is_ready then { pm1 with part_count_ := n; size_ := size; unknown_size_flag_ := false;
                                          known_prefix_flag_ := false }
              else { pm1 with part_count_ := n }).
  etransitivity; [eapply (bind_ok _ _ _ tt pm2)|]; cbv beta.
  { unfold pm2, n. destruct is_ready.
    - etransitivity; [eapply (bind_ok _ _ _ n pm1); unfold ask; by rewrite calc_part_count_eq by (cbn; lia)|]; cbv beta.
      rewrite int32_small by lia.
      set (pm2' := { pm1 with part_count_ := n; size_ := size; unknown_size_flag_ := false; known_prefix_flag_ := false }).
      pm_step pm2'. pm_step pm2'. change (streaming_limit_ pm2') with (streaming_limit_ pm). by rewrite Hlim.
    - unfold modify. change (part_size_ pm1) with (part_size_ pm). by rewrite int32_small by lia. }
  assert (Hcount : part_count_ pm2 = n) by (unfold pm2; by destruct is_ready).
  assert (Hst : part_status_ pm2 = part_status_ pm) by (unfold pm2; by destruct is_ready).
  pm_step pm2. rewrite Hcount, Hst, (proj2 (Z.leb_le _ _)) by lia. pm_step pm2.
  set (pm3 := known_prefix_set size is_ready pm).
  etransitivity; [eapply (bind_ok _ _ _ tt pm3)|]; cbv beta.
  { unfold modify, pm3, known_prefix_set. rewrite Hcount, Hst. f_equal. unfold pm2, pm1, n.
    clear - Hk. destruct is_ready, pm; cbn in *; by rewrite ?Hk. }
  assert (Hup3 : is_upload_ pm3 = true) by (unfold pm3, known_prefix_set; by destruct is_ready).
  assert (Hp3 : part_size_ pm3 = part_size_ pm) by (unfold pm3, known_prefix_set; by destruct is_ready).
  rewrite Hlast by (done || lia). by destruct (too_many_parts pm3).
Qed.

(** The parts of an unfinished upload are whole. *)
Lemma upload_part_len i pm :
  wf_data pm -> unknown_size_flag_ pm = true -> is_upload_ pm = true -> 0 <= i <= 2 ^ 31 -> part_len i pm = part_size_ pm.
Proof.
  intros Hd Hu Hup Hi. rewrite part_len_unknown by done. destruct (wf_upload _ Hd Hup) as (_ & _ & Hm).
  rewrite (Hm Hu). pose proof (wf_part_size _ Hd). rewrite (proj2 (Z.leb_gt _ _)); [done|]. unfold max_int64. nia.
Qed.

Record prefix_learned pm pm' : Prop := {
  pl_wf : wf pm';
  pl_accounted : accounted pm -> accounted pm';
  pl_status : same_status pm pm';
  pl_part_len : forall i, 0 <= i < part_count_ pm -> part_len i pm' = part_len i pm;
  pl_part_size : part_size_ pm' = part_size_ pm;
  pl_count : part_count_ pm <= part_count_ pm';
  pl_upload : is_upload_ pm' = true;
  pl_tight : tight pm';
}.

Lemma known_prefix_set_ok size is_ready pm :
  wf pm -> is_upload_ pm = true -> 0 <= size < (2 ^ 31 - 1) * part_size_ pm ->
  prefix_shrinks size is_ready pm = false -> prefix_learned pm (known_prefix_set size is_ready pm).
Proof.
  intros Hwf Hup Hs Hshrink. pose proof (wf_part_size _ (proj1 Hwf)) as Hp. pose proof (wf_count _ (proj1 Hwf)) as Hc.
  unfold prefix_shrinks in Hshrink. apply orb_false_iff in Hshrink as [Hsh Hlen]. apply orb_false_iff in Hsh as [Hk Hle].
  apply negb_false_iff in Hk. apply Z.ltb_ge in Hle. destruct (wf_prefix _ (proj1 Hwf) Hk) as (Hu & _ & Hk0 & Hkc & Hk31).
  destruct (wf_upload _ (proj1 Hwf) Hup) as (_ & _ & Hmax). specialize (Hmax Hu).
  pose proof (Z.div_le_mono (known_prefix_size_ pm) size (part_size_ pm) ltac:(lia) Hle) as Hmono.
  pose proof (div_up_bounds size (part_size_ pm) ltac:(lia) ltac:(lia)) as Hup2.
  assert (Hq : size / part_size_ pm <= (size + part_size_ pm - 1) / part_size_ pm) by (apply Z.div_le_mono; lia).
  assert (Hq31 : (size + part_size_ pm - 1) / part_size_ pm < 2 ^ 31) by (apply Z.div_lt_upper_bound; lia).
  unfold known_prefix_set. destruct is_ready.
  - set (n := (size + part_size_ pm - 1) / part_size_ pm) in *.
    set (pm1 := prefixed false size (Z.max size (expected_size_ pm)) pm).
    assert (Hwf1 : wf (grow n pm1)) by (apply wf_grow; [by apply wf_prefixed|cbn; lia|done]).
    set (pm' := sized false size (min_size_ pm) (max_size_ pm) (grow n pm1)).
    assert (Hst : same_status pm pm') by (intros i Hi; exact (status_grow n i pm1 ltac:(cbn; lia))).
    assert (Hlens : forall i, 0 <= i < part_count_ pm -> part_len i pm' = part_len i pm).
    { intros i Hi. pose proof (wf_count_bound _ (proj1 Hwf)).
      rewrite (upload_part_len i pm (proj1 Hwf) Hu Hup) by lia. unfold part_len.
      change (total pm') with size. change (part_size_ pm') with (part_size_ pm).
      assert (Hle' : (i + 1) * part_size_ pm <= size).
      { pose proof (Z.mul_div_le size (part_size_ pm)). nia. }
      rewrite (proj2 (Z.ltb_ge _ _)) by lia. lia. }
    constructor; try done.
    + apply (wf_upload_sized size (grow n pm1)); try done.
      * unfold total. cbn. rewrite Hu, Hmax. unfold max_int64. nia.
      * cbn. lia.
    + intros [Hr _ Hbits]. split; [|done|].
      2:{ intros i Hi. pose proof (get_range _ _ Hi) as [Hi0 _]. change (get i (bitmask_ pm) = true) in Hi.
          rewrite Hlens; [by apply Hbits|]. split; [done|]. apply (wf_bitmask _ (proj1 Hwf)) in Hi.
          destruct (Z.lt_ge_cases i (part_count_ pm)); [done|]. by rewrite status_beyond in Hi by lia. }
      change (ready_size_ pm') with (ready_size_ pm). rewrite Hr. symmetry.
      apply over_parts_longer.
      * cbn. rewrite resize_status_grow by lia. unfold len. rewrite length_app. lia.
      * intros i Hi. unfold ready_len, is_status. rewrite Hst by done.
        destruct (Z.lt_ge_cases i (part_count_ pm)); [by rewrite Hlens|]. rewrite status_beyond by lia. done.
      * intros i Hi. by apply ready_len_beyond.
    + cbn. lia.
    + intros _. cbn. lia.
  - cbn [negb andb] in Hlen. apply Z.ltb_ge in Hlen. set (pm1 := prefixed true size (Z.max size (expected_size_ pm)) pm).
    set (n := size / part_size_ pm) in *. assert (Hwf1 : wf pm1) by (apply wf_prefixed; [done|]; intros _; split; [done|]; lia).
    assert (Hst : same_status pm (grow n pm1)) by (intros i Hi; exact (status_grow n i pm1 ltac:(cbn; lia))).
    assert (Hwf' : wf (grow n pm1)) by (apply wf_grow; [done|cbn; lia|done]).
    constructor; try done.
    + intros []. apply (accounted_keeps pm1); [apply keeps_grow; cbn; lia|]. by constructor.
    + cbn. lia.
    + intros Hu'. cbn in Hu'. congruence.
Qed.

Lemma set_known_prefix_ok size is_ready pm :
  wf pm -> is_upload_ pm = true -> 0 <= size < (2 ^ 31 - 1) * part_size_ pm ->
  exists pm', set_known_prefix size is_ready pm = (Err (Error 0 "FILE_UPLOAD_RESTART"), pm') \/
    set_known_prefix size is_ready pm = (Ok tt, pm') /\ prefix_learned pm pm'.
Proof.
  intros Hwf Hup Hs. destruct (set_known_prefix_eq size is_ready pm Hwf Hup Hs) as (pme & ->).
  destruct (prefix_shrinks size is_ready pm) eqn:Hsh; cbn [orb]; [exists pme; by left|].
  destruct (too_many_parts _); [exists pme; by left|]. eexists. right. split; [done|]. by apply known_prefix_set_ok.
Qed.
