(* ===== verification/PartsManagerWindow.v ===== *)
(** The streaming window of [PartsManager]: how much of it is missing, and when
    a transfer may finish. *)
From coqutil Require Import Datatypes.RecordSettersUsingExistingGetters.
From S2P Require Import Prelude Bytes FileBitmask PartsManager PartsManagerSpec PartsManagerCalls.
#[local] Open Scope Z_scope.

Implicit Types pm : parts_manager.

(** The bytes of the window that are not there. *)
Definition missing_len (i : Z) pm : Z := if is_status Ready i pm then 0 else part_len i pm.

Definition window_missing_bytes pm : Z := over_parts (fun i => if in_window i pm then missing_len i pm else 0) pm.

Definition window_bytes pm : Z := over_parts (fun i => if in_window i pm then part_len i pm else 0) pm.

Lemma window_split pm : window_bytes pm = window_ready_bytes pm + window_missing_bytes pm.
Proof.
  unfold window_bytes, window_ready_bytes, window_missing_bytes, over_parts. rewrite <- sum_upto_plus.
  apply sum_upto_ext. intros i _. unfold ready_len, missing_len. destruct (in_window i pm), (is_status Ready i pm); lia.
Qed.

Lemma window_missing_nonneg pm : 0 < part_size_ pm -> 0 <= window_missing_bytes pm.
Proof.
  intros Hp. apply sum_upto_nonneg. intros i _. unfold missing_len. pose proof (part_len_nonneg i pm Hp).
  destruct (in_window i pm), (is_status Ready i pm); lia.
Qed.

Lemma window_ready_nonneg pm : 0 < part_size_ pm -> 0 <= window_ready_bytes pm.
Proof.
  intros Hp. apply sum_upto_nonneg. intros i _. unfold ready_len. pose proof (part_len_nonneg i pm Hp).
  destruct (in_window i pm), (is_status Ready i pm); lia.
Qed.

(** * Intervals of parts *)

(** The bytes of the first [k] parts. *)
Definition clip (k : Z) pm : Z := Z.min (k * part_size_ pm) (total pm).

Definition within (a b i : Z) : bool := (a <=? i) && (i <? b).

Lemma part_len_clip i pm : 0 < part_size_ pm -> part_len i pm = clip (i + 1) pm - clip i pm.
Proof. intros Hp. unfold part_len, clip. destruct (Z.ltb_spec (total pm) (part_size_ pm * i)); lia. Qed.

Lemma sum_within a b n pm :
  0 < part_size_ pm -> 0 <= a <= b ->
  sum_upto (fun i => if within a b i then part_len i pm else 0) n =
  clip (Z.min b (Z.of_nat n)) pm - clip (Z.min a (Z.of_nat n)) pm.
Proof.
  intros Hp Hab. induction n as [|n IH]; [cbn [sum_upto]; replace (Z.min b (Z.of_nat 0)) with (Z.min a (Z.of_nat 0)) by lia; lia|].
  cbn [sum_upto]. rewrite IH, part_len_clip by done. unfold within. replace (Z.of_nat (S n)) with (Z.of_nat n + 1) by lia.
  destruct (Z.leb_spec a (Z.of_nat n)), (Z.ltb_spec (Z.of_nat n) b); cbn [andb].
  - rewrite !(Z.min_r b), !(Z.min_l a) by lia. lia.
  - rewrite !(Z.min_l b), !(Z.min_l a) by lia. lia.
  - rewrite !(Z.min_r b), !(Z.min_r a) by lia. lia.
  - lia.
Qed.

Lemma div_le_iff x i ps : 0 < ps -> x / ps <= i <-> x < (i + 1) * ps.
Proof.
  intros Hp. split; intros Hi.
  - pose proof (Z.div_mod x ps). pose proof (Z.mod_pos_bound x ps). nia.
  - apply Z.lt_succ_r. apply Z.div_lt_upper_bound; lia.
Qed.

Lemma lt_div_up_iff x i ps : 0 < ps -> i < (x + ps - 1) / ps <-> i * ps < x.
Proof.
  intros Hp. pose proof (div_le_iff (x + ps - 1) i ps Hp) as Hd. split; intros Hi; [|].
  - destruct (Z.lt_ge_cases (i * ps) x); [done|]. lia.
  - destruct (Z.lt_ge_cases i ((x + ps - 1) / ps)); [done|]. lia.
Qed.

(** ** The window as intervals of parts *)

(** The first part of the window and the first behind it. *)
Definition window_first pm : Z := streaming_offset_ pm / part_size_ pm.
Definition window_last pm : Z := (streaming_offset_ pm + streaming_limit_ pm + part_size_ pm - 1) / part_size_ pm.
(** The first part behind the wrapped end of the window. *)
Definition wrapped_last pm : Z :=
  (streaming_offset_ pm + streaming_limit_ pm - size_ pm + part_size_ pm - 1) / part_size_ pm.

Lemma intersects_part begin_ end_ i pm :
  0 < part_size_ pm -> 0 <= i -> begin_ < end_ -> begin_ < total pm -> 0 < part_len i pm ->
  intersects begin_ end_ (i * part_size_ pm) (i * part_size_ pm + part_len i pm) =
  within (begin_ / part_size_ pm) ((end_ + part_size_ pm - 1) / part_size_ pm) i.
Proof.
  intros Hp Hi Hbe Hbt Hl. unfold intersects, within.
  pose proof (div_le_iff begin_ i (part_size_ pm) Hp) as H1. pose proof (lt_div_up_iff end_ i (part_size_ pm) Hp) as H2.
  assert (He : begin_ < i * part_size_ pm + part_len i pm <-> begin_ < (i + 1) * part_size_ pm).
  { unfold part_len in *. destruct (Z.ltb_spec (total pm) (part_size_ pm * i)); lia. }
  destruct (Z.leb_spec (begin_ / part_size_ pm) i) as [Ha|Ha], (Z.ltb_spec i ((end_ + part_size_ pm - 1) / part_size_ pm)) as [Hb|Hb];
    cbn [andb]; (apply Z.ltb_lt || apply Z.ltb_ge); lia.
Qed.

Lemma intersects_empty begin_ end_ i pm :
  part_len i pm <= 0 -> intersects begin_ end_ (i * part_size_ pm) (i * part_size_ pm + part_len i pm) = false.
Proof. intros Hl. unfold intersects. apply Z.ltb_ge. lia. Qed.

Section window.
Variable pm : parts_manager.
Hypothesis Hwf : wf pm.
Hypothesis Hlimit : streaming_limit_ pm <> 0.

Let ps := part_size_ pm.
Let a := window_first pm.
Let b := window_last pm.
Let c := wrapped_last pm.

Lemma window_order : 0 < ps /\ 0 < streaming_limit_ pm /\ 0 <= streaming_offset_ pm /\ 0 <= a < b.
Proof.
  destruct (wf_part_size _ (proj1 Hwf)) as [Hp _]. destruct (wf_streaming _ (proj1 Hwf)) as [[Ho _] Hl].
  split; [done|]. split; [lia|]. split; [done|].
  assert (Ha : 0 <= a) by (apply Z.div_pos; lia). split; [done|]. apply lt_div_up_iff; [done|].
  pose proof (Z.mul_div_le (streaming_offset_ pm) (part_size_ pm) Hp). unfold a, window_first. lia.
Qed.

(** The parts of the window of a file of known size. *)
Lemma known_window i :
  unknown_size_flag_ pm = false -> streaming_offset_ pm < size_ pm -> 0 <= i ->
  (if in_window i pm then part_len i pm else 0) =
  if within a b i || (size_ pm <? streaming_offset_ pm + streaming_limit_ pm) && within 0 c i then part_len i pm else 0.
Proof.
  intros Hu Ho Hi. destruct window_order as (Hp & Hl & Hoff & _). pose proof (part_len_nonneg i pm Hp) as Hn.
  assert (Ht : total pm = size_ pm) by (unfold total; by rewrite Hu).
  unfold in_window. rewrite (proj2 (Z.eqb_neq _ _)), Hu by done. cbn [orb negb andb].
  destruct (Z.eq_dec (part_len i pm) 0) as [Hz|Hnz].
  { rewrite !intersects_empty by lia. rewrite andb_false_r. cbn [orb]. rewrite Hz. by destruct (_ || _). }
  rewrite (intersects_part (streaming_offset_ pm)) by lia.
  change (within (streaming_offset_ pm / part_size_ pm) _ i) with (within a b i).
  destruct (Z.ltb_spec (size_ pm) (streaming_offset_ pm + streaming_limit_ pm)); cbn [andb]; [|done].
  rewrite (intersects_part 0) by lia. rewrite Z.div_0_l by lia. done.
Qed.

Lemma clip_end k : unknown_size_flag_ pm = false -> clip (Z.min k (part_count_ pm)) pm = clip k pm.
Proof.
  intros Hu. destruct window_order as (Hp & _). pose proof (wf_known _ (proj1 Hwf) Hu) as Hk.
  unfold clip, total. rewrite Hu. destruct (Z.le_gt_cases k (part_count_ pm)); [by rewrite (Z.min_l k (part_count_ pm)) by lia|].
  rewrite (Z.min_r k (part_count_ pm)) by lia. assert (part_count_ pm * part_size_ pm <= k * part_size_ pm) by nia. lia.
Qed.

Lemma over_within l h :
  unknown_size_flag_ pm = false -> 0 <= l <= h ->
  over_parts (fun i => if within l h i then part_len i pm else 0) pm = clip h pm - clip l pm.
Proof.
  intros Hu Hlh. destruct window_order as (Hp & _). unfold over_parts. rewrite sum_within by done.
  pose proof (wf_count _ (proj1 Hwf)) as Hc. unfold len in Hc. rewrite <- Hc. by rewrite !clip_end.
Qed.

Lemma clip_total k : total pm <= k * ps -> clip k pm = total pm.
Proof. unfold clip. fold ps. lia. Qed.

Lemma clip_low k : k * ps <= total pm -> clip k pm = k * ps.
Proof. unfold clip. fold ps. lia. Qed.

Lemma last_covers : streaming_offset_ pm + streaming_limit_ pm <= b * ps.
Proof. destruct window_order as (Hp & Hl & Ho & _). apply div_up_bounds; lia. Qed.

(** [streaming_size] is the number of bytes of the window. *)
Lemma streaming_size_known :
  unknown_size_flag_ pm = false -> streaming_offset_ pm < size_ pm -> streaming_size pm = window_bytes pm.
Proof.
  intros Hu Ho. destruct window_order as (Hp & Hl & Hoff & Ha & Hab). pose proof last_covers as Hb.
  assert (Ht : total pm = size_ pm) by (unfold total; by rewrite Hu).
  assert (Hfirst : a * ps <= streaming_offset_ pm).
  { pose proof (Z.mul_div_le (streaming_offset_ pm) (part_size_ pm) Hp). unfold a, window_first, ps. lia. }
  unfold window_bytes. unfold streaming_size. rewrite Hu. fold ps. change (streaming_offset_ pm / ps) with a.
  change ((streaming_offset_ pm + streaming_limit_ pm + ps - 1) / ps) with b.
  change ((streaming_offset_ pm + streaming_limit_ pm - size_ pm + ps - 1) / ps) with c.
  destruct (Z.leb_spec (streaming_offset_ pm + streaming_limit_ pm) (size_ pm)) as [Hle|Hgt].
  - transitivity (over_parts (fun i => if within a b i then part_len i pm else 0) pm).
    + rewrite over_within by (done || lia). rewrite (clip_low a) by lia. unfold clip. fold ps. by rewrite Ht.
    + apply sum_upto_ext. intros i [Hi _]. rewrite known_window by done. rewrite (proj2 (Z.ltb_ge _ _)) by done.
      by rewrite orb_false_r.
  - rewrite (proj2 (Z.ltb_lt _ _)) by done.
    assert (Hc : 0 <= c) by (apply Z.div_pos; fold ps; lia).
    transitivity (over_parts (fun i => if within a b i then part_len i pm else 0) pm +
                  over_parts (fun i => if within 0 (Z.min a c) i then part_len i pm else 0) pm).
    + rewrite !over_within by (done || lia). rewrite (clip_total b), (clip_low a), (clip_low 0) by lia.
      rewrite (clip_low (Z.min a c)) by (assert (Z.min a c * ps <= a * ps) by nia; lia). rewrite Ht.
      destruct (Z.le_gt_cases a c) as [Hac|Hac].
      * rewrite (Z.min_l a) by done. assert (a * ps <= c * ps) by nia. lia.
      * rewrite (Z.min_r a) by lia. assert (c * ps <= a * ps) by nia. lia.
    + unfold over_parts. rewrite <- sum_upto_plus. apply sum_upto_ext. intros i [Hi _]. rewrite known_window by done.
      rewrite (proj2 (Z.ltb_lt _ _)) by done. cbn [andb]. pose proof (part_len_clip i pm Hp) as Hlen. unfold clip in Hlen. fold ps in Hlen.
      rewrite Ht in Hlen. unfold within.
      destruct (Z.leb_spec a i), (Z.ltb_spec i b), (Z.leb_spec 0 i), (Z.ltb_spec i c), (Z.ltb_spec i (Z.min a c)); cbn [orb andb]; try lia.
      all: assert (b * ps <= i * ps) by nia; lia.
Qed.
(** While the size is unknown, the window may have parts that are not listed
    yet. *)
Lemma streaming_size_unknown :
  unknown_size_flag_ pm = true -> window_bytes pm <= streaming_size pm.
Proof.
  intros Hu. destruct window_order as (Hp & Hl & Hoff & Ha & Hab).
  assert (Ht : total pm = max_size_ pm) by (unfold total; by rewrite Hu).
  pose proof (wf_count _ (proj1 Hwf)) as Hc. unfold len in Hc.
  transitivity (over_parts (fun i => if within a b i then part_len i pm else 0) pm).
  - apply sum_upto_le. intros i [Hi _]. pose proof (part_len_nonneg i pm Hp) as Hn. unfold in_window.
    rewrite (proj2 (Z.eqb_neq _ _)), Hu by done. cbn [orb negb andb]. rewrite orb_false_r.
    destruct (Z.lt_ge_cases (streaming_offset_ pm) (total pm)) as [Hlt|Hge].
    + destruct (Z.eq_dec (part_len i pm) 0) as [Hz|Hnz].
      { rewrite intersects_empty by lia. by destruct (within a b i); lia. }
      rewrite intersects_part by lia. done.
    + replace (intersects _ _ _ _) with false; [by destruct (within a b i); lia|]. symmetry. unfold intersects.
      apply Z.ltb_ge. unfold part_len. destruct (Z.ltb_spec (total pm) (part_size_ pm * i)); lia.
  - unfold over_parts. rewrite sum_within by (done || lia). rewrite <- Hc. unfold streaming_size. rewrite Hu. fold ps.
    change (streaming_offset_ pm / ps) with a. change ((streaming_offset_ pm + streaming_limit_ pm + ps - 1) / ps) with b.
    unfold clip. fold ps. rewrite Ht. set (n := part_count_ pm).
    destruct (Z.le_gt_cases n a).
    { rewrite !(Z.min_r _ n) by lia. assert (a * ps <= b * ps) by nia. lia. }
    rewrite (Z.min_l a n) by lia. assert (Z.min b n * ps <= b * ps) by nia. lia.
Qed.
End window.

(** * What is missing *)

Lemma get_estimated_extra_eq pm :
  wf pm -> get_estimated_extra pm =
  if streaming_limit_ pm =? 0 then
    size ← get_expected_size pm; Ok (size - ready_size_ pm)
  else
    let extra := streaming_size pm - window_ready_bytes pm in
    if 0 <=? extra then Ok extra else Crash.
Proof.
  intros Hwf. unfold get_estimated_extra.
  assert (Hex : exists v, get_expected_size pm = Ok v).
  { unfold get_expected_size, get_size. destruct (unknown_size_flag_ pm); by eexists. }
  destruct Hex as (v & ->). rewrite !Ok_bind. destruct (Z.eqb_spec (streaming_limit_ pm) 0) as [Hz|Hnz]; cbn [negb]; [done|].
  destruct (wf_part_size _ (proj1 Hwf)). rewrite (proj2 (Z.eqb_neq _ _)) by lia. cbn [negb check]. rewrite Ok_bind.
  rewrite streaming_ready_total_eq, Ok_bind by apply (wf_count _ (proj1 Hwf)). rewrite (wf_window _ (proj1 Hwf) Hnz).
  rewrite Z.eqb_refl. cbn [check]. rewrite Ok_bind. cbv zeta. by destruct (0 <=? _).
Qed.

(** The window of a file of known size, with an offset inside of it. *)
Lemma extra_known pm :
  wf pm -> streaming_limit_ pm <> 0 -> unknown_size_flag_ pm = false -> streaming_offset_ pm < size_ pm ->
  get_estimated_extra pm = Ok (window_missing_bytes pm).
Proof.
  intros Hwf Hl Hu Ho. rewrite get_estimated_extra_eq by done. rewrite (proj2 (Z.eqb_neq _ _)) by done.
  rewrite streaming_size_known, window_split by done. cbv zeta.
  replace (_ + _ - _) with (window_missing_bytes pm) by lia.
  by rewrite (proj2 (Z.leb_le _ _)) by (apply window_missing_nonneg, (wf_part_size _ (proj1 Hwf))).
Qed.

(** An offset at the end of the file, or behind it: the code takes the window
    for empty, but its wrapped part may have ready bytes. *)
Lemma extra_behind pm :
  wf pm -> streaming_limit_ pm <> 0 -> unknown_size_flag_ pm = false -> size_ pm <= streaming_offset_ pm ->
  get_estimated_extra pm = if window_ready_bytes pm =? 0 then Ok 0 else Crash.
Proof.
  intros Hwf Hl Hu Ho. rewrite get_estimated_extra_eq by done. rewrite (proj2 (Z.eqb_neq _ _)) by done.
  destruct (wf_part_size _ (proj1 Hwf)) as [Hp _]. pose proof (window_ready_nonneg pm Hp) as Hr.
  destruct (wf_streaming _ (proj1 Hwf)) as [_ Hl2]. assert (Hs : streaming_size pm = 0).
  { unfold streaming_size. rewrite Hu. rewrite (proj2 (Z.leb_gt _ _)), (proj2 (Z.ltb_ge _ _)) by lia. done. }
  rewrite Hs. cbv zeta. destruct (Z.eqb_spec (window_ready_bytes pm) 0) as [->|Hne]; [done|].
  by rewrite (proj2 (Z.leb_gt _ _)) by lia.
Qed.

Lemma extra_unknown pm :
  wf pm -> streaming_limit_ pm <> 0 -> unknown_size_flag_ pm = true ->
  exists v, get_estimated_extra pm = Ok v /\ window_missing_bytes pm <= v.
Proof.
  intros Hwf Hl Hu. rewrite get_estimated_extra_eq by done. rewrite (proj2 (Z.eqb_neq _ _)) by done.
  destruct (wf_part_size _ (proj1 Hwf)) as [Hp _]. pose proof (window_missing_nonneg pm Hp).
  pose proof (streaming_size_unknown pm Hwf Hl Hu) as Hs. rewrite window_split in Hs. cbv zeta.
  rewrite (proj2 (Z.leb_le _ _)) by lia. eexists. split; [done|]. lia.
Qed.

(** The offset is inside of the file, or no byte of the wrapped window is there. *)
Definition window_sound pm : Prop :=
  streaming_limit_ pm = 0 \/ unknown_size_flag_ pm = true \/ streaming_offset_ pm < size_ pm \/
  window_ready_bytes pm = 0.

Lemma get_estimated_extra_ok pm : wf pm -> window_sound pm -> exists v, get_estimated_extra pm = Ok v.
Proof.
  intros Hwf Hs. destruct (Z.eq_dec (streaming_limit_ pm) 0) as [Hz|Hnz].
  { rewrite get_estimated_extra_eq, Hz by done. cbn [Z.eqb]. unfold get_expected_size, get_size.
    destruct (unknown_size_flag_ pm); by eexists. }
  destruct (unknown_size_flag_ pm) eqn:Hu; [destruct (extra_unknown pm Hwf Hnz Hu) as (v & ? & _); by exists v|].
  destruct (Z.lt_ge_cases (streaming_offset_ pm) (size_ pm)).
  - eexists. by apply extra_known.
  - destruct Hs as [?|[?|[?|Hr]]]; [done|congruence|lia|]. rewrite extra_behind by done. rewrite Hr. by eexists.
Qed.

(** * The end of a transfer *)

Lemma in_window_positive i pm : streaming_limit_ pm <> 0 -> in_window i pm = true -> 0 < part_len i pm.
Proof.
  intros Hl Hw. destruct (Z.lt_ge_cases 0 (part_len i pm)) as [|Hz]; [done|]. exfalso. unfold in_window in Hw.
  rewrite (proj2 (Z.eqb_neq _ _)), !intersects_empty, andb_false_r in Hw by done. done.
Qed.

Lemma missing_part i pm :
  wf pm -> streaming_limit_ pm <> 0 -> 0 <= i < part_count_ pm -> in_window i pm = true -> status i pm <> Ready ->
  0 < window_missing_bytes pm.
Proof.
  intros Hwf Hl Hi Hw Hs. destruct (wf_part_size _ (proj1 Hwf)) as [Hp _]. pose proof (in_window_positive i pm Hl Hw) as Hlen.
  pose proof (sum_upto_term (fun i => if in_window i pm then missing_len i pm else 0) (length (part_status_ pm)) i) as Hterm.
  cbv beta in Hterm. rewrite Hw in Hterm. unfold missing_len at 2, is_status in Hterm. rewrite bool_decide_false in Hterm by done.
  unfold window_missing_bytes, over_parts. pose proof (wf_count _ (proj1 Hwf)) as Hc. unfold len in Hc.
  enough (part_len i pm <= sum_upto (fun i => if in_window i pm then missing_len i pm else 0) (length (part_status_ pm))) by lia.
  apply Hterm; [|lia]. intros j _. unfold missing_len. pose proof (part_len_nonneg j pm Hp).
  destruct (in_window j pm), (is_status Ready j pm); lia.
Qed.

Lemma is_streaming_limit_reached_ok pm :
  wf pm -> window_sound pm ->
  exists v b d, let pm' := at_cursors (first_empty_part_ pm) b (first_streaming_empty_part_ pm) d pm in
    is_streaming_limit_reached pm = (Ok v, pm') /\ wf pm' /\ (streaming_limit_ pm = 0 -> v = false) /\
    (streaming_limit_ pm <> 0 -> unknown_size_flag_ pm = false -> streaming_offset_ pm < size_ pm ->
     v = (window_missing_bytes pm =? 0)).
Proof.
  intros Hwf Hsound. unfold is_streaming_limit_reached. unfold mbind at 1, P_bind at 1, gets at 1.
  destruct (Z.eqb_spec (streaming_limit_ pm) 0) as [Hz|Hnz].
  { exists false, (first_not_ready_part_ pm), (first_streaming_not_ready_part_ pm). cbv zeta. rewrite <- at_cursors_same.
    split; [done|]. split; [done|]. by split. }
  destruct (update_first_not_ready_ok pm Hwf) as (b & d & Hupd & Hwf1 & Hpb & Hb & Hdr & Hd).
  set (pm1 := at_cursors (first_empty_part_ pm) b (first_streaming_empty_part_ pm) d pm) in *.
  rewrite (bind_ok _ _ _ _ _ Hupd). set (part_id := if negb (unknown_size_flag_ pm) && (d =? part_count_ pm) then b else d).
  assert (Hid : 0 <= part_id <= part_count_ pm /\ (part_id < part_count_ pm -> status part_id pm <> Ready)).
  { unfold part_id. destruct (_ && _); [split; [apply Hpb|done]|by split]. }
  rewrite (bind_ok _ _ _ part_id pm1) by done.
  assert (Hextra : exists v, get_estimated_extra pm1 = Ok v /\
    (unknown_size_flag_ pm = false -> streaming_offset_ pm < size_ pm -> v = window_missing_bytes pm)).
  { destruct (get_estimated_extra_ok pm1 Hwf1 Hsound) as (v & Hv). exists v. split; [done|]. intros Hu Ho.
    pose proof (extra_known pm1 Hwf1 Hnz Hu Ho) as He. rewrite Hv in He. by injection He. }
  destruct Hextra as (v & Hv & Hvk).
  set (outside := (part_id =? part_count_ pm) || negb (in_window part_id pm)).
  rewrite (bind_ok _ _ _ outside pm1).
  2:{ unfold ask, outside. change (part_count_ pm1) with (part_count_ pm). destruct (Z.eqb_spec part_id (part_count_ pm)); [done|].
      cbn [orb]. rewrite in_limit_eq by (cbn; lia). done. }
  destruct outside eqn:Hout.
  - exists (v =? 0), b, d. cbv zeta. fold pm1. rewrite (bind_ok _ _ _ v pm1) by (unfold ask; by rewrite Hv).
    split; [done|]. split; [done|]. split; [done|]. intros _ Hu Ho. by rewrite Hvk.
  - exists false, b, d. cbv zeta. fold pm1. split; [done|]. split; [done|]. split; [done|]. intros _ Hu Ho.
    unfold outside in Hout. apply orb_false_iff in Hout as [Hne Hin]. apply Z.eqb_neq in Hne. apply negb_false_iff in Hin.
    symmetry. apply Z.eqb_neq. pose proof (missing_part part_id pm Hwf Hnz ltac:(lia) Hin ltac:(apply Hid; lia)). lia.
Qed.

(** The test of the limit, as a loader sees it. *)
Definition limit_reached (v : bool) pm : Prop :=
  (streaming_limit_ pm = 0 -> v = false) /\
  (streaming_limit_ pm <> 0 -> unknown_size_flag_ pm = false -> streaming_offset_ pm < size_ pm ->
   v = (window_missing_bytes pm =? 0)).

Lemma keeps_cursors a b c d pm : keeps_ready pm (at_cursors a b c d pm).
Proof. by constructor. Qed.

Lemma may_finish_ok pm :
  wf pm -> window_sound pm ->
  exists v pm', may_finish pm = (Ok (v || ready pm), pm') /\ limit_reached v pm /\ wf pm' /\ keeps_ready pm pm' /\
    same_status pm pm' /\ streaming_offset_ pm' = streaming_offset_ pm.
Proof.
  intros Hwf Hs. destruct (is_streaming_limit_reached_ok pm Hwf Hs) as (v & b & d & Heq & Hwf' & Hv).
  set (pm' := at_cursors _ b _ d pm) in *. exists v, pm'.
  split; [unfold may_finish; rewrite (bind_ok _ _ _ _ _ Heq); by destruct v|].
  split; [exact Hv|]. split; [done|]. split; [apply keeps_cursors|done].
Qed.

Lemma finish_ok pm :
  wf pm -> window_sound pm ->
  exists v pm', finish pm =
    ((if ready pm then Ok tt
      else Err (Error 0 (if v : bool then "FILE_DOWNLOAD_LIMIT" else "File transferring not finished"))), pm') /\
    limit_reached v pm /\ wf pm' /\ keeps_ready pm pm' /\ same_status pm pm'.
Proof.
  intros Hwf Hs. destruct (is_streaming_limit_reached_ok pm Hwf Hs) as (v & b & d & Heq & Hwf' & Hv).
  set (pm' := at_cursors _ b _ d pm) in *. exists v. unfold finish. rewrite (bind_ok _ _ _ (ready pm) pm) by done.
  destruct (ready pm).
  - exists pm. split; [done|]. split; [exact Hv|]. done.
  - exists pm'. rewrite (bind_ok _ _ _ _ _ Heq). split; [by destruct v|]. split; [exact Hv|]. split; [done|].
    split; [apply keeps_cursors|done].
Qed.

(** ** Broken windows *)

(** The window begins at the end of a file of known size, or behind it, and a
    byte of its wrapped part is there. *)
Definition window_broken pm : Prop :=
  streaming_limit_ pm <> 0 /\ unknown_size_flag_ pm = false /\ size_ pm <= streaming_offset_ pm /\ window_ready_bytes pm <> 0.

Lemma window_cases pm : window_sound pm \/ window_broken pm.
Proof.
  unfold window_sound, window_broken. destruct (Z.eq_dec (streaming_limit_ pm) 0); [by left; left|].
  destruct (unknown_size_flag_ pm); [by left; right; left|]. destruct (Z.lt_ge_cases (streaming_offset_ pm) (size_ pm)); [by left; right; right; left|].
  destruct (Z.eq_dec (window_ready_bytes pm) 0); [by left; right; right; right|by right].
Qed.

(** The check fails exactly then. *)
Lemma get_estimated_extra_cases pm :
  wf pm -> (exists v, get_estimated_extra pm = Ok v) /\ window_sound pm \/ get_estimated_extra pm = Crash /\ window_broken pm.
Proof.
  intros Hwf. destruct (window_cases pm) as [Hs|Hb]; [left; by split; [apply get_estimated_extra_ok|]|right]. split; [|done].
  destruct Hb as (Hl & Hu & Ho & Hr). rewrite extra_behind by done. by rewrite (proj2 (Z.eqb_neq _ _)).
Qed.

Lemma is_streaming_limit_reached_any pm :
  wf pm -> exists r b d, let pm' := at_cursors (first_empty_part_ pm) b (first_streaming_empty_part_ pm) d pm in
    is_streaming_limit_reached pm = (r, pm') /\ wf pm' /\ ((exists v, r = Ok v) \/ r = Crash /\ window_broken pm).
Proof.
  intros Hwf. destruct (window_cases pm) as [Hs|Hb].
  { destruct (is_streaming_limit_reached_ok pm Hwf Hs) as (v & b & d & Heq & Hwf' & _). exists (Ok v), b, d. cbv zeta. split; [done|].
    split; [done|]. left. by exists v. }
  pose proof Hb as (Hnz & Hu & _). unfold is_streaming_limit_reached. unfold mbind at 1, P_bind at 1, gets at 1.
  rewrite (proj2 (Z.eqb_neq _ _)) by done.
  destruct (update_first_not_ready_ok pm Hwf) as (b & d & Hupd & Hwf1 & Hpb & Hb' & Hdr & Hd).
  set (pm1 := at_cursors (first_empty_part_ pm) b (first_streaming_empty_part_ pm) d pm) in *.
  rewrite (bind_ok _ _ _ _ _ Hupd). set (part_id := if negb (unknown_size_flag_ pm) && (d =? part_count_ pm) then b else d).
  assert (Hid : 0 <= part_id <= part_count_ pm) by (unfold part_id; destruct (_ && _); [apply Hpb|done]).
  rewrite (bind_ok _ _ _ part_id pm1) by done.
  set (outside := (part_id =? part_count_ pm) || negb (in_window part_id pm)).
  rewrite (bind_ok _ _ _ outside pm1).
  2:{ unfold ask, outside. change (part_count_ pm1) with (part_count_ pm). destruct (Z.eqb_spec part_id (part_count_ pm)); [done|].
      cbn [orb]. rewrite in_limit_eq by (cbn; lia). done. }
  destruct outside.
  - exists Crash, b, d. cbv zeta. fold pm1. destruct (get_estimated_extra_cases pm1 Hwf1) as [[_ Hs]|[Hc _]].
    + exfalso. destruct Hb as (? & ? & ? & ?). destruct Hs as [?|[?|[?|?]]]; [done|cbn in *; congruence|cbn in *; lia|done].
    + split; [|split; [done|by right]]. unfold mbind, P_bind, ask. by rewrite Hc.
  - exists (Ok false), b, d. cbv zeta. fold pm1. split; [done|]. split; [done|]. left. by exists false.
Qed.
