(* ===== verification/PartsManagerInit.v ===== *)
(** The start of a transfer: [PartsManager::init] sets up an object that
    satisfies the invariant, with the parts ready that were there before. *)
From coqutil Require Import Datatypes.RecordSettersUsingExistingGetters.
From S2P Require Import Prelude Bytes FileBitmask PartsManager PartsManagerSpec PartsManagerCalls PartsManagerWindow.
#[local] Open Scope Z_scope.

Implicit Types pm : parts_manager.

(** * The part size *)

(** The part size is doubled until it is large enough; [grow_fuel] is enough. *)
Lemma grow_part_size_ok fuel expected ps :
  0 < ps -> MAX_PART_SIZE <= ps * 2 ^ Z.of_nat fuel ->
  exists ps', grow_part_size (S fuel) expected ps = Ok ps' /\ ps <= ps' <= Z.max ps (2 * MAX_PART_SIZE) /\
    (MAX_PART_SIZE <= ps' \/ (expected + ps' - 1) / ps' <= MAX_PART_COUNT).
Proof.
  revert ps. induction fuel as [|fuel IH]; intros ps Hp Hf.
  - cbn [grow_part_size]. rewrite (proj2 (Z.ltb_ge _ _)) by lia. exists ps. split; [done|]. split; [lia|]. left. lia.
  - specialize (IH (ps * 2)). revert IH. generalize (S fuel) as n. intros n IH. cbn [grow_part_size].
    destruct (Z.ltb_spec ps MAX_PART_SIZE) as [Hlt|Hge].
    2:{ exists ps. split; [done|]. split; [lia|]. by left. }
    rewrite calc_part_count_eq, Ok_bind by done.
    destruct (Z.ltb_spec MAX_PART_COUNT ((expected + ps - 1) / ps)) as [Hc|Hc].
    + rewrite Nat2Z.inj_succ, Z.pow_succ_r in Hf by lia. destruct IH as (ps' & He & Hr & Hd); [lia..|]. rewrite He. exists ps'. split; [done|]. split; [lia|done].
    + exists ps. split; [done|]. split; [lia|]. by right.
Qed.

(** Enough parts for the largest file. *)
Lemma part_count_limit expected ps :
  0 < ps -> expected <= MAX_FILE_SIZE -> MAX_PART_SIZE <= ps \/ (expected + ps - 1) / ps <= MAX_PART_COUNT ->
  (expected + ps - 1) / ps <= MAX_PART_COUNT_PREMIUM.
Proof.
  intros Hp He [Hs|Hc]; [|unfold MAX_PART_COUNT, MAX_PART_COUNT_PREMIUM in *; lia].
  apply Z.lt_succ_r. apply Z.div_lt_upper_bound; [done|]. change MAX_FILE_SIZE with (524288 * 8000) in He.
  change MAX_PART_SIZE with 524288 in Hs. change MAX_PART_COUNT_PREMIUM with 8000. nia.
Qed.

(** * The parts that are ready from the start *)

(** The object with other statuses, bits and ready bytes. *)
Definition reloaded (statuses : list PartStatus) (mask : bitmask) (ready : Z) pm : parts_manager :=
  ltac:(flat constr:({ pm with part_status_ := statuses; bitmask_ := mask; ready_size_ := ready })).

Arguments reloaded statuses mask ready pm /.

Record loaded (parts : list Z) pm pm' : Prop := {
  ld_same : exists statuses mask ready, pm' = reloaded statuses mask ready pm;
  ld_length : len (part_status_ pm') = len (part_status_ pm);
  ld_status : forall i, 0 <= i -> status i pm' = if bool_decide (i ∈ parts) then Ready else status i pm;
  ld_bitmask : forall i, get i (bitmask_ pm') = bool_decide (i ∈ parts) || get i (bitmask_ pm);
  ld_pending : pending_parts pm' = pending_parts pm;
  ld_ready : ready_size_ pm' - ready_bytes pm' = ready_size_ pm - ready_bytes pm;
  ld_range : forall i, i ∈ parts -> 0 <= i < part_count_ pm /\
    (known_prefix_flag_ pm = true -> i < known_prefix_size_ pm / part_size_ pm);
}.

(** One part becomes ready. *)
Definition load_part (i : Z) (mask : bitmask) pm : parts_manager :=
  reloaded (<[Z.to_nat i := Ready]> (part_status_ pm)) mask (ready_size_ pm + part_len i pm) pm.

Lemma loaded_cons i mask parts pm pm' :
  part_count_ pm = len (part_status_ pm) -> 0 <= i < part_count_ pm -> status i pm = Empty ->
  (forall j, get j mask = (j =? i) || get j (bitmask_ pm)) ->
  (known_prefix_flag_ pm = true -> i < known_prefix_size_ pm / part_size_ pm) ->
  loaded parts (load_part i mask pm) pm' -> loaded (i :: parts) pm pm'.
Proof.
  intros Hc Hi Hst Hm Hk [(st & m & r & ->) Hl Hs Hb Hp Hr Hrange]. unfold load_part in *.
  set (pm1 := reloaded _ _ _ pm) in *. assert (Hid : 0 <= i < len (part_status_ pm)) by lia.
  constructor.
  - by exists st, m, r.
  - rewrite Hl. cbn. unfold len. by rewrite length_insert.
  - intros j Hj. rewrite Hs by done.
    assert (Hs1 : status j pm1 = if j =? i then Ready else status j pm) by exact (status_restate i Ready 0 j pm Hid Hj).
    rewrite Hs1. destruct (Z.eqb_spec j i) as [->|Hne].
    + rewrite (bool_decide_true (i ∈ i :: parts)) by set_solver. by destruct (bool_decide _).
    + by rewrite (bool_decide_ext (j ∈ i :: parts) (j ∈ parts)) by set_solver.
  - intros j. rewrite Hb. change (bitmask_ pm1) with mask. rewrite Hm. destruct (Z.eqb_spec j i) as [->|Hne].
    + rewrite (bool_decide_true (i ∈ i :: parts)) by set_solver. by rewrite orb_true_r.
    + by rewrite (bool_decide_ext (j ∈ i :: parts) (j ∈ parts)) by set_solver.
  - rewrite Hp. transitivity (pending_parts (restate i Ready 0 pm)); [done|]. rewrite pending_restate by done.
    unfold is_status. rewrite Hst, !bool_decide_false by done. cbn [Z.b2z]. lia.
  - rewrite Hr. change (ready_size_ pm1) with (ready_size_ pm + part_len i pm).
    assert (Hrb : ready_bytes pm1 = ready_bytes pm + part_len i pm).
    { transitivity (ready_bytes (restate i Ready 0 pm)); [done|]. rewrite ready_restate by (done || by rewrite Hst).
      by rewrite bool_decide_true. }
    lia.
  - intros j [->|Hj]%elem_of_cons; [done|]. by apply Hrange.
Qed.

Lemma init_ready_parts_ok parts pm :
  part_count_ pm = len (part_status_ pm) -> 0 < part_size_ pm -> NoDup parts ->
  (forall i, i ∈ parts -> 0 <= i /\ status i pm = Empty /\ (is_upload_ pm = false -> i < part_count_ pm)) ->
  (known_prefix_flag_ pm = true -> is_upload_ pm = true /\ 0 <= known_prefix_size_ pm < 2 ^ 31 * part_size_ pm) ->
  exists pm', init_ready_parts parts pm = (Err (Error 0 "FILE_UPLOAD_RESTART"), pm') /\ is_upload_ pm = true \/
    init_ready_parts parts pm = (Ok tt, pm') /\ loaded parts pm pm'.
Proof.
  revert pm. induction parts as [|i parts IH]; intros pm Hc Hp Hnd Hi Hk.
  { exists pm. right. split; [done|]. constructor; try done; [|set_solver].
    exists (part_status_ pm), (bitmask_ pm), (ready_size_ pm). by destruct pm. }
  apply NoDup_cons in Hnd as [Hni Hnd]. destruct (Hi i ltac:(set_solver)) as (Hi0 & Hst & Hdown).
  cbn [init_ready_parts]. set (beyond := known_prefix_flag_ pm && (known_prefix_size_ pm / part_size_ pm <=? i)).
  rewrite (bind_ok _ _ _ beyond pm).
  2:{ unfold ask, beyond. destruct (known_prefix_flag_ pm) eqn:Hf; [|done]. rewrite (proj2 (Z.eqb_neq _ 0)) by lia.
      cbn [negb check andb]. destruct (Hk eq_refl) as [_ Hks]. rewrite Ok_bind, int32_small; [done|].
      split; [assert (0 <= known_prefix_size_ pm / part_size_ pm) by (apply Z.div_pos; lia); lia|apply Z.div_lt_upper_bound; lia]. }
  rewrite (bind_ok _ _ _ (is_upload_ pm) pm) by done. rewrite (bind_ok _ _ _ (part_count_ pm) pm) by done.
  destruct beyond eqn:Hbeyond.
  { exists pm. left. unfold beyond in Hbeyond. apply andb_true_iff in Hbeyond as [Hf _]. destruct (Hk Hf) as [Hup _].
    by rewrite (bind_ok _ _ _ tt pm) by (by rewrite Hup). }
  destruct (is_upload_ pm && (part_count_ pm <=? i)) eqn:Hrestart.
  { exists pm. left. split; [done|]. by apply andb_true_iff in Hrestart as [? _]. }
  assert (Hlt : i < part_count_ pm).
  { destruct (is_upload_ pm); [apply Z.leb_gt; exact Hrestart|by apply Hdown]. }
  rewrite (bind_ok _ _ _ tt pm) by (unfold CHECK; by rewrite (proj2 (Z.leb_le _ _)), (proj2 (Z.ltb_lt _ _)) by lia).
  destruct (set_spec i (bitmask_ pm) Hi0) as (mask & Hset & _ & Hm).
  rewrite (bind_ok _ _ _ tt (set_status i Ready pm)) by done.
  rewrite (bind_ok _ _ _ mask (set_status i Ready pm)) by (unfold ask; change (bitmask_ (set_status i Ready pm)) with (bitmask_ pm); by rewrite Hset).
  set (pm1 := { (set_status i Ready pm) with bitmask_ := mask }). rewrite (bind_ok _ _ _ tt pm1) by done.
  rewrite (bind_ok _ _ _ (mk_part i (part_size_ pm * i) (part_len i pm)) pm1) by (unfold ask; by rewrite get_part_eq).
  set (pm2 := load_part i mask pm). rewrite (bind_ok _ _ _ tt pm2) by done.
  assert (Hid : 0 <= i < len (part_status_ pm)) by lia.
  destruct (IH pm2) as (pm' & Hres); [| |done| |done|].
  - cbn. unfold len in *. by rewrite length_insert.
  - done.
  - intros j Hj. destruct (Hi j ltac:(set_solver)) as (Hj0 & Hsj & Hdj). split; [done|]. split; [|done].
    transitivity (if j =? i then Ready else status j pm); [exact (status_restate i Ready 0 j pm Hid Hj0)|].
    rewrite (proj2 (Z.eqb_neq j i)); [done|]. by intros ->.
  - exists pm'. destruct Hres as [Hres|[Hres Hl]]; [by left|right]. split; [done|]. apply (loaded_cons i mask); try done.
    intros Hf. unfold beyond in Hbeyond. rewrite Hf in Hbeyond. cbn [andb] in Hbeyond. by apply Z.leb_gt.
Qed.

(** * The new object *)

(** What [init_common] finds: an object whose sizes are set. *)
Record sizes_set (parts : list Z) pm : Prop := {
  ss_part_size : 0 < part_size_ pm <= 2 ^ 20;
  ss_total : 0 <= total pm;
  ss_count : 0 <= part_count_ pm < 2 ^ 31;
  ss_streaming : streaming_offset_ pm = 0 /\ streaming_limit_ pm = 0;
  ss_bitmask : bitmask_ pm = [];
  ss_need_check : need_check_ pm = false;
  ss_known : unknown_size_flag_ pm = false -> size_ pm <= part_count_ pm * part_size_ pm;
  ss_tight : tight pm;
  ss_unknown : unknown_size_flag_ pm = true -> min_size_ pm = 0 /\ max_size_ pm = max_int64 /\
    forall n, 0 <= n -> (forall i, i ∈ parts -> i < n) -> part_count_ pm <= n;
  ss_prefix : known_prefix_flag_ pm = true ->
    unknown_size_flag_ pm = true /\ is_upload_ pm = true /\ 0 <= known_prefix_size_ pm < 2 ^ 31 * part_size_ pm;
  ss_parts : NoDup parts /\ forall i, i ∈ parts -> 0 <= i /\ (is_upload_ pm = false -> i < part_count_ pm);
}.

(** The object after [init]. *)
Record initial (parts : list Z) pm : Prop := {
  in_wf : wf pm;
  in_accounted : unknown_size_flag_ pm = false \/ is_upload_ pm = true \/ parts = [] -> accounted pm;
  in_status : forall i, 0 <= i -> status i pm = if bool_decide (i ∈ parts) then Ready else Empty;
  in_bitmask : forall i, get i (bitmask_ pm) = bool_decide (i ∈ parts);
  in_parts : forall i, i ∈ parts -> 0 <= i < part_count_ pm;
  in_ready_size : ready_size_ pm = ready_bytes pm;
  in_streaming : streaming_offset_ pm = 0 /\ streaming_limit_ pm = 0 /\ need_check_ pm = false;
}.

Definition emptied pm : parts_manager :=
  ltac:(flat constr:({ pm with
        ready_size_ := 0; streaming_ready_size_ := 0; pending_count_ := 0; first_empty_part_ := 0;
        first_not_ready_part_ := 0; part_status_ := replicate (Z.to_nat (part_count_ pm)) Empty })).

Arguments emptied pm /.

Lemma status_emptied i pm : status i (emptied pm) = Empty.
Proof.
  unfold status. rewrite nth_lookup. destruct (_ !! _) as [st|] eqn:Hl; [|done].
  by apply lookup_replicate in Hl as [-> _].
Qed.

Lemma over_parts_zero f pm : (forall i, 0 <= i -> f i = 0) -> over_parts f pm = 0.
Proof. intros Hf. apply sum_upto_zero. intros i Hi. apply Hf. lia. Qed.

Lemma get_nil i : get i [] = false.
Proof. destruct (Z.lt_ge_cases i 0); [by apply get_negative|by apply get_beyond]. Qed.

Lemma wf_loaded parts pm pm' :
  sizes_set parts pm -> loaded parts (emptied pm) pm' -> wf pm'.
Proof.
  intros [] [(st & m & r & ->) Hl Hs Hb Hp Hr Hrange]. set (pm' := reloaded st m r (emptied pm)) in *.
  destruct ss_streaming0 as [Ho Hlim]. assert (Hlen : len (part_status_ (emptied pm)) = part_count_ pm).
  { cbn. unfold len. rewrite length_replicate. lia. }
  assert (Hst : forall i, 0 <= i -> status i pm' = if bool_decide (i ∈ parts) then Ready else Empty).
  { intros i Hi. rewrite Hs by done. by rewrite status_emptied. }
  split.
  - constructor.
    + done.
    + done.
    + rewrite Hl, Hlen. done.
    + cbn. lia.
    + rewrite Hp. symmetry. apply over_parts_zero. intros i Hi. unfold is_status. by rewrite status_emptied.
    + cbn. lia.
    + intros i Hi. rewrite Hb in Hi. change (bitmask_ (emptied pm)) with (bitmask_ pm) in Hi. rewrite ss_bitmask0 in Hi.
      rewrite get_nil, orb_false_r in Hi. apply bool_decide_eq_true in Hi. rewrite Hst by (apply Hrange; done).
      by rewrite bool_decide_true.
    + intros i Hi. rewrite Hst by done. destruct (bool_decide_reflect (i ∈ parts)) as [Hin|]; [|done]. intros _ _.
      rewrite Hb. by rewrite bool_decide_true.
    + done.
    + done.
    + intros Hu. destruct (ss_unknown0 Hu) as (Hmin & Hmax & _). cbn. rewrite Hmin, Hmax. split; [nia|by left].
    + intros Hup. cbn. rewrite Ho, Hlim. split; [done|]. split; [done|]. intros Hu. by destruct (ss_unknown0 Hu) as (_ & ? & _).
    + intros Hk. destruct (ss_prefix0 Hk) as (Hu & Hup & Hk0 & Hk31). cbn. split; [done|]. split; [done|]. split; [done|].
      split; [|apply Z.div_lt_upper_bound; lia]. destruct (ss_unknown0 Hu) as (_ & _ & Hleast). apply Hleast; [apply Z.div_pos; lia|].
      intros i Hi. by apply Hrange.
  - assert (Hpass : forall skip i, 0 <= i -> passed skip i 0 pm') by (intros skip i Hi; split; [cbn; lia|lia]).
    constructor; [by apply Hpass|by apply Hpass|..]; intros Hne; cbn in Hne; lia.
Qed.

Definition start_size (checked : Z) pm : parts_manager :=
  ltac:(flat constr:({ pm with checked_prefix_size_ := checked })).

Arguments start_size checked pm /.

Lemma initial_checked parts checked pm : initial parts pm -> initial parts (start_size checked pm).
Proof.
  intros [[[] []] Ha Hs Hb Hp Hr Hst]. constructor; try done.
  intros Hc. destruct (Ha Hc). by constructor.
Qed.

Lemma initial_cursors parts a b c d pm : initial parts pm -> wf (at_cursors a b c d pm) -> initial parts (at_cursors a b c d pm).
Proof.
  intros [Hwf Ha Hs Hb Hp Hr Hst] Hwf'. constructor; try done. intros Hc. apply (accounted_keeps pm); [apply keeps_cursors|by apply Ha].
Qed.

Lemma initial_loaded parts pm pm' : sizes_set parts pm -> loaded parts (emptied pm) pm' -> initial parts pm'.
Proof.
  intros Hss Hl. pose proof (wf_loaded parts pm pm' Hss Hl) as Hwf.
  destruct Hss, Hl as [(st & m & r & ->) Hlen Hs Hb Hp Hr Hrange]. set (pm' := reloaded st m r (emptied pm)) in *.
  assert (Hready : ready_size_ pm' = ready_bytes pm').
  { assert (Hz : ready_bytes (emptied pm) = 0).
    { apply over_parts_zero. intros i Hi. unfold ready_len, is_status. by rewrite status_emptied. }
    rewrite Hz in Hr. change (ready_size_ (emptied pm)) with 0 in Hr. lia. }
  assert (Hst : forall i, 0 <= i -> status i pm' = if bool_decide (i ∈ parts) then Ready else Empty).
  { intros i Hi. rewrite Hs by done. by rewrite status_emptied. }
  constructor; try done.
  - intros Hc. split; [done| |].
    2:{ intros i Hi. rewrite Hb in Hi. change (bitmask_ (emptied pm)) with (bitmask_ pm) in Hi.
        rewrite ss_bitmask0, get_nil, orb_false_r in Hi. apply bool_decide_eq_true in Hi. destruct (Hrange i Hi) as [Hi2 _].
        unfold part_len, total. change (part_size_ pm') with (part_size_ pm). cbn.
        cbn in Hi2. destruct (unknown_size_flag_ pm) eqn:Hu.
        - destruct (ss_unknown0 eq_refl) as (_ & -> & _). unfold max_int64.
          rewrite (proj2 (Z.ltb_ge _ _)) by nia. assert (part_size_ pm * i <= 2 ^ 51) by nia. lia.
        - specialize (ss_tight0 Hu). rewrite (proj2 (Z.ltb_ge _ _)) by nia.
          assert (i * part_size_ pm <= (part_count_ pm - 1) * part_size_ pm) by nia. lia. }
    intros Hu Hup i Hi Hri. rewrite Hst in Hri by done.
    destruct Hc as [Hc|[Hc|Hc]]; [congruence|congruence|]. rewrite Hc in Hri. by rewrite bool_decide_false in Hri by set_solver.
  - intros i. rewrite Hb. change (bitmask_ (emptied pm)) with (bitmask_ pm). by rewrite ss_bitmask0, get_nil, orb_false_r.
  - intros i Hi. by apply Hrange.
  - destruct ss_streaming0. done.
Qed.

Lemma init_common_ok parts pm :
  sizes_set parts pm ->
  exists pm', init_common parts pm = (Err (Error 0 "FILE_UPLOAD_RESTART"), pm') /\ is_upload_ pm = true \/
    init_common parts pm = (Ok tt, pm') /\ initial parts pm' /\ part_size_ pm' = part_size_ pm /\
    unknown_size_flag_ pm' = unknown_size_flag_ pm /\ size_ pm' = size_ pm /\ is_upload_ pm' = is_upload_ pm /\
    part_count_ pm' = part_count_ pm.
Proof.
  intros Hss. pose proof Hss as []. unfold init_common. rewrite (bind_ok _ _ _ (part_count_ pm) pm) by done.
  rewrite (bind_ok _ _ _ tt pm) by (unfold CHECK; by rewrite (proj2 (Z.leb_le _ _)) by lia).
  rewrite (bind_ok _ _ _ tt (emptied pm)) by done. destruct ss_parts0 as [Hnd Hi].
  destruct (init_ready_parts_ok parts (emptied pm)) as (pm1 & Hres); [|exact (proj1 ss_part_size0)|done| | |].
  { cbn. unfold len. rewrite length_replicate. lia. }
  { intros i Hin. destruct (Hi i Hin). split; [done|]. split; [apply status_emptied|done]. }
  { intros Hk. destruct (ss_prefix0 Hk) as (_ & ? & ?). done. }
  destruct Hres as [[Hres Hup]|[Hres Hl]].
  { exists pm1. left. by rewrite (bind_err _ _ _ _ _ Hres). }
  rewrite (bind_ok _ _ _ _ _ Hres). pose proof (initial_loaded parts pm pm1 Hss Hl) as Hinit.
  assert (Hframe : part_size_ pm1 = part_size_ pm /\ unknown_size_flag_ pm1 = unknown_size_flag_ pm /\
    size_ pm1 = size_ pm /\ is_upload_ pm1 = is_upload_ pm /\ part_count_ pm1 = part_count_ pm) by (by destruct (ld_same _ _ _ Hl) as (st & m & r & ->)).
  destruct (update_first_not_ready_ok pm1 (in_wf _ _ Hinit)) as (b & d & Hupd & Hwf & _).
  set (pm2 := at_cursors (first_empty_part_ pm1) b (first_streaming_empty_part_ pm1) d pm1) in *.
  exists (start_size (b * part_size_ pm2) pm2). right. split; [|split; [apply initial_checked, initial_cursors; done|exact Hframe]].
  assert (Hcount : get_ready_prefix_count pm1 = (Ok b, pm2)).
  { unfold get_ready_prefix_count. assert (Hu : get_unchecked_ready_prefix_count pm1 = (Ok b, pm2)).
    { unfold get_unchecked_ready_prefix_count. by rewrite (bind_ok _ _ _ _ _ Hupd). }
    rewrite (bind_ok _ _ _ _ _ Hu). rewrite (bind_ok _ _ _ false pm2); [done|]. unfold gets.
    destruct (in_streaming _ _ Hinit) as (_ & _ & Hn). change (need_check_ pm2) with (need_check_ pm1). by rewrite Hn. }
  by rewrite (bind_ok _ _ _ _ _ Hcount).
Qed.

(** * The start *)

Lemma max_part_bound parts n :
  0 <= n -> (forall i, i ∈ parts -> i < n) -> foldl (fun a b => Z.max a (b + 1)) 0 parts <= n.
Proof.
  intros Hn. assert (Hacc : forall l acc, acc <= n -> (forall i, i ∈ l -> i < n) -> foldl (fun a b => Z.max a (b + 1)) acc l <= n).
  { induction l as [|i l IH]; intros acc Ha Hl; [done|]. cbn [foldl]. apply IH; [|set_solver].
    pose proof (Hl i ltac:(set_solver)). lia. }
  intros Hl. by apply Hacc.
Qed.

Lemma max_part_lower parts acc :
  acc <= foldl (fun a b => Z.max a (b + 1)) acc parts /\
  forall i, i ∈ parts -> i < foldl (fun a b => Z.max a (b + 1)) acc parts.
Proof.
  revert acc. induction parts as [|i parts IH]; intros acc; cbn [foldl]; [split; [lia|set_solver]|].
  destruct (IH (Z.max acc (i + 1))) as [Hle Hall]. split; [lia|]. intros j [->|Hj]%elem_of_cons; [lia|by apply Hall].
Qed.

(** What the callers of [init] guarantee. *)
Record init_args (size expected part_size : Z) (is_final limited upload : bool) (parts : list Z) : Prop := {
  ia_size : 0 <= size <= expected;
  ia_part_size : part_size = 0 \/ 2 <= part_size <= 2 ^ 20;
  ia_upload : upload = false -> is_final = true /\ limited = false;
  ia_parts : NoDup parts /\ forall i, i ∈ parts -> 0 <= i < 2 ^ 31 - 1;
  ia_download : upload = false -> size = 0 \/ parts = [] \/
    part_size <> 0 /\ forall i, i ∈ parts -> i * part_size < size;
}.

(** A file may be too big, and an upload may have to be started anew. *)
Definition init_failed (expected : Z) (upload : bool) (r : outcome unit) : Prop :=
  r = Err (Error 0 "Too big file") /\ MAX_FILE_SIZE < expected \/
  r = Err (Error 0 "FILE_UPLOAD_RESTART") /\ upload = true.

(** The object after [init], and what is known of the size. *)
Record started_up (size part_size : Z) (is_final upload : bool) (parts : list Z) pm : Prop := {
  su_initial : initial parts pm;
  su_unknown : unknown_size_flag_ pm = negb is_final || (size =? 0);
  su_size : unknown_size_flag_ pm = false -> size_ pm = size;
  su_upload : is_upload_ pm = upload;
  su_part_size : part_size <> 0 -> part_size_ pm = part_size;
  su_tight : tight pm;
  su_range : size <= MAX_FILE_SIZE /\ 2 <= part_size_ pm;
}.

(** The part size of a file of unknown size. *)
Definition unknown_part_size (expected part_size : Z) : P Z :=
  if negb (part_size =? 0) then mret part_size
  else
    part_size ← ask (fun _ => grow_part_size grow_fuel expected (Z.shiftl 32 10));
    mret (if part_size <? MAX_PART_SIZE then part_size * 2 else part_size).

Lemma unknown_part_size_ok expected part_size pm :
  part_size = 0 \/ 2 <= part_size <= 2 ^ 20 ->
  exists ps, unknown_part_size expected part_size pm = (Ok ps, pm) /\ 2 <= ps <= 2 ^ 20 /\ (part_size <> 0 -> ps = part_size).
Proof.
  intros Hps. unfold unknown_part_size. destruct (Z.eqb_spec part_size 0) as [->|Hne]; cbn [negb].
  - destruct (grow_part_size_ok 5 expected (Z.shiftl 32 10)) as (ps & Hg & Hr & _); [done|done|].
    rewrite (bind_ok _ _ _ ps pm) by (unfold ask, grow_fuel; by rewrite Hg). eexists. split; [done|].
    change (Z.shiftl 32 10) with 32768 in Hr. change MAX_PART_SIZE with 524288 in *. split; [|done].
    destruct (Z.ltb_spec ps 524288); lia.
  - exists part_size. split; [done|]. split; [lia|done].
Qed.

(** An object that [init] was not called for yet. *)
Record fresh (upload : bool) pm : Prop := {
  fr_streaming : streaming_offset_ pm = 0 /\ streaming_limit_ pm = 0;
  fr_bitmask : bitmask_ pm = [];
  fr_need_check : need_check_ pm = false;
  fr_upload : is_upload_ pm = upload;
}.

Lemma init_no_size_ok size expected part_size is_final limited upload parts pm :
  init_args size expected part_size is_final limited upload parts -> expected <= MAX_FILE_SIZE ->
  expected_size_ pm = expected -> fresh upload pm -> negb is_final || (size =? 0) = true ->
  (known_prefix_flag_ pm = true -> upload = true /\ known_prefix_size_ pm = size) ->
  exists pm', init_no_size part_size parts pm = (Err (Error 0 "FILE_UPLOAD_RESTART"), pm') /\ upload = true \/
    init_no_size part_size parts pm = (Ok tt, pm') /\ started_up size part_size is_final upload parts pm'.
Proof.
  intros [] Hmax He [] Hu Hk. unfold init_no_size.
  set (pm1 := { pm with unknown_size_flag_ := true; size_ := 0; min_size_ := 0; max_size_ := max_int64 }).
  rewrite (bind_ok _ _ _ tt pm1) by done. rewrite (bind_ok _ _ _ expected pm1) by (by rewrite <- He).
  destruct (unknown_part_size_ok expected part_size pm1 ia_part_size0) as (ps & Hps & Hr & Hsame).
  unfold unknown_part_size in Hps. rewrite (bind_ok _ _ _ _ _ Hps).
  set (count := foldl (fun a b => Z.max a (b + 1)) 0 parts).
  set (pm2 := { pm1 with part_size_ := ps }). rewrite (bind_ok _ _ _ tt pm2) by done.
  set (pm3 := { pm2 with part_count_ := count }). rewrite (bind_ok _ _ _ tt pm3) by done.
  destruct ia_parts0 as [Hnd Hi]. destruct (max_part_lower parts 0) as [Hc0 Hcl]. fold count in Hc0, Hcl.
  assert (Hss : sizes_set parts pm3).
  { constructor; try done.
    - cbn. lia.
    - split; [exact Hc0|]. cbn.
      assert (count <= 2 ^ 31 - 1) by (apply max_part_bound; [lia|intros i Hin; by apply Hi]). lia.
    - intros _. cbn. split; [done|]. split; [done|]. intros n Hn Hall. by apply max_part_bound.
    - intros Hkp. change (known_prefix_flag_ pm = true) in Hkp. destruct (Hk Hkp) as [Hup Hks]. cbn. rewrite fr_upload0, Hks.
      split; [done|]. split; [done|]. split; [lia|]. change MAX_FILE_SIZE with 4194304000 in Hmax. lia.
    - split; [done|]. intros i Hin. split; [apply Hi; done|]. intros _. by apply Hcl. }
  destruct (init_common_ok parts pm3 Hss) as (pm' & [[Hres Hup]|(Hres & Hin & Hp & Hu' & Hs & Hup & Hcnt)]); exists pm';
    [left; split; [done|]; by rewrite <- fr_upload0|right].
  split; [done|]. constructor; [done| | | | | |].
  - by rewrite Hu', Hu.
  - rewrite Hu'. done.
  - by rewrite Hup.
  - intros Hne. rewrite Hp. cbn. by apply Hsame.
  - intros Hk'. by rewrite Hu' in Hk'.
  - split; [lia|]. rewrite Hp. cbn. lia.
Qed.

Lemma init_sized_ok size expected part_size limited upload parts pm ps :
  init_args size expected part_size true limited upload parts -> expected <= MAX_FILE_SIZE -> size <> 0 ->
  fresh upload pm -> known_prefix_flag_ pm = false -> unknown_size_flag_ pm = false -> size_ pm = size ->
  part_size_ pm = ps -> part_count_ pm = int32 ((size + ps - 1) / ps) ->
  2 <= ps <= 2 ^ 20 -> (part_size <> 0 -> ps = part_size) ->
  exists pm', init_common parts pm = (Err (Error 0 "FILE_UPLOAD_RESTART"), pm') /\ upload = true \/
    init_common parts pm = (Ok tt, pm') /\ started_up size part_size true upload parts pm'.
Proof.
  intros [] Hmax Hne [] Hk Hu Hsz Hp Hc Hr Hsame. destruct ia_parts0 as [Hnd Hi].
  change MAX_FILE_SIZE with 4194304000 in Hmax.
  assert (Hb : 0 <= (size + ps - 1) / ps < 2 ^ 31) by (split; [apply Z.div_pos; lia|apply Z.div_lt_upper_bound; lia]).
  rewrite int32_small in Hc by lia. pose proof (div_up_bounds size ps ltac:(lia) ltac:(lia)) as Hup2.
  assert (Hss : sizes_set parts pm).
  { constructor; try done.
    - by rewrite Hp; lia.
    - unfold total. rewrite Hu, Hsz. lia.
    - by rewrite Hc.
    - intros _. rewrite Hsz, Hc, Hp. lia.
    - intros _. rewrite Hsz, Hc, Hp. lia.
    - intros Hu'. congruence.
    - intros Hk'. congruence.
    - split; [done|]. intros i Hin. split; [by apply Hi|]. intros Hup. rewrite fr_upload0 in Hup. rewrite Hc.
      apply lt_div_up_iff; [lia|]. destruct (ia_download0 Hup) as [?|[->|[Hn Hall]]]; [lia|by apply not_elem_of_nil in Hin|].
      rewrite Hsame by done. by apply Hall. }
  destruct (init_common_ok parts pm Hss) as (pm' & [[Hres Hup]|(Hres & Hin & Hp' & Hu' & Hs & Hup & Hcnt)]); exists pm'; [left; split; [done|congruence]|right].
  split; [done|]. constructor; [done| | | | | |].
  - rewrite Hu', Hu. cbn [negb orb]. symmetry. by apply Z.eqb_neq.
  - intros _. by rewrite Hs.
  - by rewrite Hup.
  - intros Hn. rewrite Hp', Hp. by apply Hsame.
  - intros _. rewrite Hcnt, Hp', Hs, Hc, Hp, Hsz. lia.
  - split; [change MAX_FILE_SIZE with 4194304000; lia|]. rewrite Hp', Hp. lia.
Qed.

(** The choice of the part size of a file of known size. *)
Definition known_part_size (expected part_size : Z) (limited : bool) : P bool :=
  if negb (part_size =? 0) then
    _ ← modify (fun pm => { pm with part_size_ := part_size });
    if limited && (part_size <? MAX_PART_SIZE) then
      count ← ask (fun _ => calc_part_count expected part_size); mret (MAX_PART_COUNT <? count)
    else mret false
  else
    part_size ← ask (fun _ => grow_part_size grow_fuel expected (Z.shiftl 64 10));
    _ ← modify (fun pm => { pm with part_size_ := part_size });
    mret false.

Lemma known_part_size_ok expected part_size limited pm :
  part_size = 0 \/ 2 <= part_size <= 2 ^ 20 -> expected <= MAX_FILE_SIZE ->
  exists ps restart, known_part_size expected part_size limited pm = (Ok restart, { pm with part_size_ := ps }) /\
    2 <= ps <= 2 ^ 20 /\ (part_size <> 0 -> ps = part_size) /\ (restart = true -> limited = true) /\
    (restart = false -> limited = true -> (expected + ps - 1) / ps <= MAX_PART_COUNT_PREMIUM).
Proof.
  intros Hps He. unfold known_part_size. destruct (Z.eqb_spec part_size 0) as [->|Hne]; cbn [negb].
  - destruct (grow_part_size_ok 5 expected (Z.shiftl 64 10)) as (ps & Hg & Hr & Hc); [done|done|].
    rewrite (bind_ok _ _ _ ps pm) by (unfold ask, grow_fuel; by rewrite Hg). exists ps, false. split; [done|].
    assert (0 < ps) by (change (Z.shiftl 64 10) with 65536 in Hr; lia).
    split; [|split; [done|split; [done|]]].
    + change (Z.shiftl 64 10) with 65536 in Hr. change MAX_PART_SIZE with 524288 in Hr. lia.
    + intros _ _. by apply part_count_limit.
  - assert (Hpos : 0 < part_size) by lia. exists part_size. set (pm1 := { pm with part_size_ := part_size }).
    rewrite (bind_ok _ _ _ tt pm1) by done. destruct (Z.ltb_spec part_size MAX_PART_SIZE) as [Hlt|Hge].
    2:{ rewrite andb_false_r. exists false. split; [done|]. split; [lia|]. split; [done|]. split; [done|]. intros _ _.
        apply part_count_limit; [done|done|by left]. }
    rewrite andb_true_r. destruct limited; [|by exists false; split; [done|split; [lia|]]].
    exists (MAX_PART_COUNT <? (expected + part_size - 1) / part_size).
    rewrite (bind_ok _ _ _ ((expected + part_size - 1) / part_size) pm1) by (unfold ask; by rewrite calc_part_count_eq).
    split; [done|]. split; [lia|]. split; [done|]. split; [done|]. intros Hc%Z.ltb_ge _.
    apply part_count_limit; [done|done|by right].
Qed.

Lemma init_ok size expected part_size is_final limited upload parts :
  init_args size expected part_size is_final limited upload parts ->
  exists r pm, init size expected is_final part_size parts limited upload new_pm = (r, pm) /\
    (init_failed expected upload r \/ r = Ok tt /\ started_up size part_size is_final upload parts pm).
Proof.
  intros Hargs. pose proof Hargs as []. unfold init.
  rewrite (bind_ok _ _ _ tt new_pm) by (unfold CHECK; by rewrite (proj2 (Z.leb_le _ _)) by lia).
  set (pm1 := { new_pm with is_upload_ := upload; use_part_count_limit_ := limited; expected_size_ := expected }).
  rewrite (bind_ok _ _ _ tt pm1) by done.
  destruct (Z.ltb_spec MAX_FILE_SIZE expected) as [Hbig|Hmax]; [do 2 eexists; split; [done|]; left; by left|].
  assert (Hfresh : fresh upload pm1) by done.
  destruct is_final; cbn [negb].
  2:{ unfold init_known_prefix. set (pm2 := { pm1 with known_prefix_flag_ := true; known_prefix_size_ := size }).
      rewrite (bind_ok _ _ _ tt pm2) by done.
      assert (Hup : upload = true) by (destruct upload; [done|]; by destruct (ia_upload0 eq_refl)).
      destruct (init_no_size_ok size expected part_size false limited upload parts pm2 Hargs) as (pm' & [[Hres Hrup]|[Hres Hst]]); try done;
        (eexists _, pm'; split; [done|]); [left; by right|by right]. }
  destruct (Z.eqb_spec size 0) as [Hz|Hnz].
  { destruct (init_no_size_ok size expected part_size true limited upload parts pm1 Hargs) as (pm' & [[Hres Hrup]|[Hres Hst]]); try done;
      [by rewrite Hz| |]; (eexists _, pm'; split; [done|]); [left; by right|by right]. }
  rewrite (bind_ok _ _ _ tt pm1) by (unfold CHECK; by rewrite (proj2 (Z.ltb_lt _ _)) by lia).
  set (pm2 := { pm1 with unknown_size_flag_ := false; size_ := size }). rewrite (bind_ok _ _ _ tt pm2) by done.
  destruct (known_part_size_ok expected part_size limited pm2 ia_part_size0 Hmax) as (ps & restart & Hps & Hr & Hsame & Hlim & Hcount).
  unfold known_part_size in Hps. rewrite (bind_ok _ _ _ _ _ Hps). set (pm3 := { pm2 with part_size_ := ps }).
  destruct restart.
  { specialize (Hlim eq_refl). assert (Hup : upload = true) by (destruct upload; [done|]; destruct (ia_upload0 eq_refl); congruence).
    exists (Err (Error 0 "FILE_UPLOAD_RESTART")), pm3. split; [|left; by right]. by rewrite (bind_ok _ _ _ tt pm3) by (by rewrite Hup). }
  rewrite (bind_ok _ _ _ tt pm3) by (unfold CHECK; by rewrite (proj2 (Z.leb_le 1 _)) by lia).
  rewrite (bind_ok _ _ _ ps pm3) by done.
  rewrite (bind_ok _ _ _ ((expected + ps - 1) / ps) pm3) by (unfold ask; by rewrite calc_part_count_eq by lia).
  rewrite (bind_ok _ _ _ tt pm3).
  2:{ unfold CHECK. destruct limited; [|done]. by rewrite (proj2 (Z.leb_le _ _)) by auto. }
  rewrite (bind_ok _ _ _ ((size + ps - 1) / ps) pm3) by (unfold ask; by rewrite calc_part_count_eq by lia).
  set (pm4 := { pm3 with part_count_ := int32 ((size + ps - 1) / ps) }). rewrite (bind_ok _ _ _ tt pm4) by done.
  destruct (init_sized_ok size expected part_size limited upload parts pm4 ps) as (pm' & [[Hres Hrup]|[Hres Hst]]); try done;
    (eexists _, pm'; split; [done|]); [left; by right|by right].
Qed.
