(* ===== verification/PartsManagerTransfer.v ===== *)
(** A transfer: [PartsManager] as [FileDownloader] and [FileUploader] use it.

    The loader keeps the parts that were asked for and have not come yet
    ([part_map_]).  [run] is one call of the loader, [allowed] what the loader
    guarantees when it makes the call, [reachable] the states of a transfer.
    Every state satisfies [sound], and [breaks] says which allowed calls fail a
    check of [PartsManager]. *)
From coqutil Require Import Datatypes.RecordSettersUsingExistingGetters.
From stdpp Require Import gmap.
From S2P Require Import Prelude Bytes FileBitmask PartsManager PartsManagerSpec PartsManagerCalls PartsManagerWindow PartsManagerInit.
#[local] Open Scope Z_scope.

Implicit Types pm : parts_manager.

(** A loader; a part in flight is listed with the length that was asked for. *)
Record loader := mk_loader { manager : parts_manager; flight : gmap Z Z }.

Inductive call :=
  | StartPart
  | PartOk (id actual : Z)
  | PartFailed (id : Z)
  | SetLimit (limit : Z)
  | SetOffset (offset limit : Z)
  | SetKnownPrefix (size : Z) (is_ready : bool)
  | NeedCheck (checked : Z)
  | MayFinish
  | Finish
  | Estimate.

(** A result without its value. *)
Definition done_with {A} (r : outcome A) : outcome unit := _ ← r; Ok tt.

Definition keep_flight {A} (fl : gmap Z Z) (r : outcome A * parts_manager) : outcome unit * loader :=
  (done_with (fst r), mk_loader (snd r) fl).

Definition run (c : call) (s : loader) : outcome unit * loader :=
  let pm := manager s in
  let fl := flight s in
  match c with
  | StartPart =>
      match start_part pm with
      | (Ok p, pm) =>
          (Ok tt, mk_loader pm (if part_length p =? 0 then fl else <[part_id p := part_length p]> fl))
      | r => keep_flight fl r
      end
  | PartOk id actual => keep_flight (delete id fl) (on_part_ok id (default 0 (fl !! id)) actual pm)
  | PartFailed id => keep_flight (delete id fl) (on_part_failed id pm)
  | SetLimit limit => keep_flight fl (set_streaming_limit limit pm)
  | SetOffset offset limit => keep_flight fl (set_streaming_offset offset limit pm)
  | SetKnownPrefix size is_ready => keep_flight fl (set_known_prefix size is_ready pm)
  | NeedCheck checked => keep_flight fl ((_ ← set_need_check; set_checked_prefix_size checked) pm)
  | MayFinish => keep_flight fl (may_finish pm)
  | Finish => keep_flight fl (finish pm)
  | Estimate => keep_flight fl (get_estimated_extra pm, pm)
  end.

(** When a loader makes a call: an answer is for a part in flight, only an
    upload learns a prefix of its file, and only a download has a window, whose
    offset and limit are 0 to [MAX_FILE_SIZE] ([FileNode::set_download_offset],
    [set_download_limit]), which is less than 2^31 parts.  [may_finish], [finish]
    and [get_estimated_extra] are called in any state. *)
Definition allowed (c : call) (s : loader) : Prop :=
  let pm := manager s in
  match c with
  | StartPart => True
  | PartOk id actual =>
      exists p, flight s !! id = Some p /\ 0 <= actual <= p /\ (is_upload_ pm = true -> actual = p)
  | PartFailed id => is_Some (flight s !! id)
  | SetLimit limit => is_upload_ pm = false /\ 0 <= limit
  | SetOffset offset limit =>
      is_upload_ pm = false /\ 0 <= limit /\ 0 <= offset < 2 ^ 31 * part_size_ pm
  | SetKnownPrefix size _ => is_upload_ pm = true /\ 0 <= size < (2 ^ 31 - 1) * part_size_ pm
  | NeedCheck _ => True
  | MayFinish | Finish | Estimate => True
  end.

(** The checks that an allowed call can fail: [get_estimated_extra] fails for a
    broken window, and a seek that is ignored asks for the size, to write it to
    the log, when it is not known. *)
Definition breaks (c : call) pm : Prop :=
  match c with
  | MayFinish | Finish | Estimate => window_broken pm
  | SetOffset offset _ => need_check_ pm = true /\ unknown_size_flag_ pm = true /\ offset <> 0
  | _ => False
  end.

(** A loader stops at an error, unless it waits for a longer prefix. *)
Definition goes_on (r : outcome unit) : Prop := r = Ok tt \/ exists e, r = Err e /\ error_code e = -1.

Inductive reachable (s0 : loader) : loader -> Prop :=
  | reach_start : reachable s0 s0
  | reach_call s c r s' : reachable s0 s -> allowed c s -> run c s = (r, s') -> goes_on r -> reachable s0 s'.

(** The parts in flight are the pending ones. *)
Record flying (fl : gmap Z Z) pm : Prop := {
  fly_pending : forall i, 0 <= i -> status i pm = Pending <-> is_Some (fl !! i);
  fly_requested : forall i p, fl !! i = Some p -> 0 <= i < part_count_ pm /\ requested i p pm;
}.

(** What no call changes: the kind of the transfer, the size of its parts, and
    the size of a download once it is known. *)
Record same_file pm pm' : Prop := {
  sf_upload : is_upload_ pm' = is_upload_ pm;
  sf_part_size : part_size_ pm' = part_size_ pm;
  sf_size : is_upload_ pm = false -> unknown_size_flag_ pm = false ->
    unknown_size_flag_ pm' = false /\ size_ pm' = size_ pm;
}.

Lemma same_file_trans pm1 pm2 pm3 : same_file pm1 pm2 -> same_file pm2 pm3 -> same_file pm1 pm3.
Proof.
  intros [Hup1 Hp1 Hs1] [Hup2 Hp2 Hs2]. split; [congruence|congruence|]. intros Hd Hk. destruct (Hs1 Hd Hk).
  destruct Hs2; [congruence|done|]. split; congruence.
Qed.

Lemma same_file_keeps pm pm' : keeps_ready pm pm' -> same_file pm pm'.
Proof. intros []. split; [done|done|]. intros _ Hk. split; congruence. Qed.

(** The invariant of a transfer that began with [origin].  [precise] and [counted] say that the number of parts and the
    ready bytes can be relied on: they hold for every upload and for every
    download whose size was known from the start. *)
Record sound (precise counted : Prop) (origin : parts_manager) (s : loader) : Prop := {
  so_wf : wf (manager s);
  so_flying : flying (flight s) (manager s);
  so_tight : precise -> (is_upload_ (manager s) = true \/ unknown_size_flag_ (manager s) = false) /\ tight (manager s);
  so_accounted : counted -> accounted (manager s);
  so_origin : same_file origin (manager s);
}.

(** ** Calls that change no part *)

Lemma flying_same fl pm pm' :
  flying fl pm -> keeps_ready pm pm' -> same_status pm pm' -> part_count_ pm <= part_count_ pm' -> flying fl pm'.
Proof.
  intros [Hp Hr] Hk Hs Hc. split.
  - intros i Hi. rewrite Hs by done. by apply Hp.
  - intros i p Hi. destruct (Hr i p Hi) as [Hrange Hreq]. split; [lia|]. unfold requested.
    rewrite (kr_part_len i _ _ Hk), (kr_part_size _ _ Hk). exact Hreq.
Qed.

Lemma tight_same pm pm' :
  keeps_ready pm pm' -> (unknown_size_flag_ pm = false -> part_count_ pm' = part_count_ pm) -> tight pm -> tight pm'.
Proof.
  intros [] Hc Ht Hu. rewrite kr_unknown in Hu. rewrite Hc, kr_part_size, kr_size by done. by apply Ht.
Qed.

Section steps.
Variables (precise counted : Prop) (origin : parts_manager).

Lemma sound_keeps pm pm' fl :
  sound precise counted origin (mk_loader pm fl) -> wf pm' -> keeps_ready pm pm' -> same_status pm pm' ->
  (unknown_size_flag_ pm = false -> part_count_ pm' = part_count_ pm) -> sound precise counted origin (mk_loader pm' fl).
Proof.
  intros [Hwf Hf Ht Ha Ho] Hwf' Hk Hs Hc. cbn in *.
  assert (Hle : part_count_ pm <= part_count_ pm').
  { rewrite (wf_count _ (proj1 Hwf)), (wf_count _ (proj1 Hwf')). apply Hk. }
  split; cbn; [done| | | |].
  - by apply (flying_same fl pm).
  - intros He. destruct (Ht He) as [Hu Htt]. split; [|by apply (tight_same pm)].
    rewrite (kr_upload _ _ Hk), (kr_unknown _ _ Hk). done.
  - intros Hc'. apply (accounted_keeps pm); auto.
  - apply (same_file_trans _ pm); [done|]. by apply same_file_keeps.
Qed.

(** ** Starting a part *)

Lemma flying_started fl pm p :
  wf pm -> flying fl pm -> handed_out p pm -> flying (<[part_id p := part_length p]> fl) (started (part_id p) pm).
Proof.
  intros Hwf [Hp Hr] []. pose proof (wf_count _ (proj1 Hwf)) as Hc. split.
  - intros i Hi. unfold started. rewrite status_restate by lia. destruct (Z.eqb_spec i (part_id p)) as [->|Hne].
    + rewrite lookup_insert_eq. done.
    + rewrite lookup_insert_ne by done. by apply Hp.
  - intros i q Hi. destruct (decide (i = part_id p)) as [->|Hne].
    + rewrite lookup_insert_eq in Hi. injection Hi as <-. split; [done|]. split; [done|left]. by rewrite ho_length.
    + rewrite lookup_insert_ne in Hi by done. exact (Hr i q Hi).
Qed.

Lemma keeps_searched pm pm1 : searched pm pm1 -> wf pm -> keeps_ready pm pm1.
Proof.
  intros (a & b & c & d & [->|[_ ->]]) Hwf; [apply keeps_cursors|].
  transitivity (at_cursors a b c d pm); [apply keeps_cursors|apply keeps_grow]. rewrite (wf_count _ (proj1 Hwf)). cbn. lia.
Qed.

Lemma status_searched pm pm1 : searched pm pm1 -> wf pm -> same_status pm pm1.
Proof.
  intros (a & b & c & d & [->|[_ ->]]) Hwf i Hi; [done|]. transitivity (status i (at_cursors a b c d pm)); [|done].
  apply status_grow. rewrite (wf_count _ (proj1 Hwf)). cbn. lia.
Qed.

Lemma count_searched pm pm1 : searched pm pm1 -> unknown_size_flag_ pm = false -> part_count_ pm1 = part_count_ pm.
Proof. by intros (a & b & c & d & [->|[Hu ->]]) Hk; [|congruence]. Qed.

Lemma start_part_step s r s' :
  sound precise counted origin s -> run StartPart s = (r, s') -> r <> Crash /\ (goes_on r -> sound precise counted origin s').
Proof.
  intros Hs Hrun. destruct s as [pm fl]. pose proof (so_wf _ _ _ _ Hs) as Hwf. cbn in Hwf, Hrun.
  destruct (start_part_ok pm Hwf) as (res & pm' & Heq & Hres & _). rewrite Heq in Hrun.
  destruct res as [p|e|]; [| |done]; cbn in Hres; injection Hrun as <- <-.
  - split; [done|]. intros _. destruct Hres as (pm1 & Hsearch & Hwf1 & Hcase).
    pose proof (sound_keeps pm pm1 fl Hs Hwf1 (keeps_searched _ _ Hsearch Hwf) (status_searched _ _ Hsearch Hwf)
                  (count_searched _ _ Hsearch)) as Hs1.
    destruct Hcase as [(-> & -> & _)|(Hho & ->)]; [done|].
    pose proof (ho_positive _ _ Hho). rewrite (proj2 (Z.eqb_neq _ _)) by lia.
    pose proof (wf_count _ (proj1 Hwf1)) as Hc1. pose proof (ho_id _ _ Hho) as Hid. pose proof (ho_empty _ _ Hho) as He.
    assert (Hk : keeps_ready pm1 (started (part_id p) pm1)) by (apply keeps_restate; [lia|by rewrite He|done]).
    split; cbn.
    + by apply wf_started.
    + apply flying_started; [done|exact (so_flying _ _ _ _ Hs1)|done].
    + intros Hpr. destruct (so_tight _ _ _ _ Hs1 Hpr) as [Hu Ht]. split; [done|]. by apply (tight_same pm1).
    + intros Hc. apply (accounted_keeps pm1); [done|]. by apply (so_accounted _ _ _ _ Hs1).
    + apply (same_file_trans _ pm1); [exact (so_origin _ _ _ _ Hs1)|by apply same_file_keeps].
  - split; [done|]. intros [Hg|(e' & He & Hcode)]; [done|]. injection He as <-.
    destruct (proj2 Hres Hcode) as (a & b & c & d & -> & Hwf'). by apply (sound_keeps pm _ fl Hs Hwf' (keeps_cursors _ _ _ _ _)).
Qed.

(** ** The end of a part *)

Lemma part_ok_step id actual s r s' :
  sound precise counted origin s -> allowed (PartOk id actual) s -> run (PartOk id actual) s = (r, s') ->
  r <> Crash /\ (goes_on r -> sound precise counted origin s').
Proof.
  intros Hs (p & Hp & Hact & Hup) Hrun. destruct s as [pm fl]. cbn in *. pose proof (so_wf _ _ _ _ Hs) as Hwf. cbn in Hwf.
  destruct (so_flying _ _ _ _ Hs) as [Hpend Hreq]. cbn in Hpend, Hreq. destruct (Hreq id p Hp) as [Hid Hr].
  rewrite Hp in Hrun. cbn in Hrun.
  destruct (on_part_ok_ok id p actual pm Hwf Hid) as (pm' & [Heq|[Heq [Hwf' Ht]]]); try done.
  { apply Hpend; [lia|by eexists]. }
  { rewrite Heq in Hrun. injection Hrun as <- <-. split; [done|]. intros [?|(e & He & Hc)]; [done|]. injection He as <-. done. }
  rewrite Heq in Hrun. injection Hrun as <- <-. split; [done|]. intros _. destruct Ht, pt_others. split; cbn.
  - done.
  - split.
    + intros i Hi. destruct (decide (i = id)) as [->|Hne].
      * rewrite pt_status, lookup_delete_eq. split; [done|by intros []].
      * rewrite ok_status, lookup_delete_ne by done. by apply Hpend.
    + intros i q Hi. apply lookup_delete_Some in Hi as [Hne Hi]. destruct (Hreq i q Hi) as [Hrange Hrq].
      split; [lia|]. by apply ok_requested.
  - intros Hpr. destruct (so_tight _ _ _ _ Hs Hpr) as [Hu Htt]. cbn in *. split; [|by apply pt_tight].
    destruct Hu as [Hu|Hu]; [left; congruence|right]. by apply pt_known.
  - intros Hc. apply pt_accounted. by apply (so_accounted _ _ _ _ Hs).
  - apply (same_file_trans _ pm); [exact (so_origin _ _ _ _ Hs)|]. split; [done|done|]. auto.
Qed.
Lemma part_failed_step id s r s' :
  sound precise counted origin s -> allowed (PartFailed id) s -> run (PartFailed id) s = (r, s') ->
  r <> Crash /\ (goes_on r -> sound precise counted origin s').
Proof.
  intros Hs [p Hp] Hrun. destruct s as [pm fl]. cbn in *. pose proof (so_wf _ _ _ _ Hs) as Hwf. cbn in Hwf.
  destruct (so_flying _ _ _ _ Hs) as [Hpend Hreq]. cbn in Hpend, Hreq. destruct (Hreq id p Hp) as [Hid Hr].
  pose proof (wf_count _ (proj1 Hwf)) as Hc. assert (Hst : status id pm = Pending) by (apply Hpend; [lia|by eexists]).
  destruct (on_part_failed_ok id pm Hwf Hid Hst) as (a & c & Heq & Hwf'). rewrite Heq in Hrun. injection Hrun as <- <-.
  split; [done|]. intros _. set (pm1 := restate id Empty (pending_count_ pm - 1) pm) in *. set (pm' := at_cursors _ _ _ _ pm1) in *.
  assert (Hk : keeps_ready pm pm').
  { transitivity pm1; [apply keeps_restate; [lia|by rewrite Hst|done]|apply keeps_cursors]. }
  assert (Hs' : forall i, 0 <= i -> status i pm' = if i =? id then Empty else status i pm).
  { intros i Hi. exact (status_restate id Empty (pending_count_ pm - 1) i pm ltac:(lia) Hi). }
  split; cbn.
  - done.
  - split.
    + intros i Hi. rewrite Hs' by done. destruct (Z.eqb_spec i id) as [->|Hne].
      * rewrite lookup_delete_eq. split; [done|by intros []].
      * rewrite lookup_delete_ne by done. by apply Hpend.
    + intros i q Hi. apply lookup_delete_Some in Hi as [Hne Hi]. exact (Hreq i q Hi).
  - intros Hpr. destruct (so_tight _ _ _ _ Hs Hpr) as [Hu Ht]. split; [exact Hu|]. by apply (tight_same pm).
  - intros Hcn. apply (accounted_keeps pm); [done|]. by apply (so_accounted _ _ _ _ Hs).
  - apply (same_file_trans _ pm); [exact (so_origin _ _ _ _ Hs)|by apply same_file_keeps].
Qed.

(** ** The other calls *)

Lemma set_limit_step limit s r s' :
  sound precise counted origin s -> allowed (SetLimit limit) s -> run (SetLimit limit) s = (r, s') ->
  r <> Crash /\ (goes_on r -> sound precise counted origin s').
Proof.
  intros Hs [Hup Hl] Hrun. destruct s as [pm fl]. cbn in *. pose proof (so_wf _ _ _ _ Hs) as Hwf. cbn in Hwf.
  destruct (set_streaming_limit_ok limit pm (wf_unlimited _ Hwf) Hl) as (ready & Heq & Hwf'); [by rewrite Hup|].
  rewrite Heq in Hrun. injection Hrun as <- <-. split; [done|]. intros _. by apply (sound_keeps pm).
Qed.

(** A seek that is ignored before the size is known. *)
Lemma set_streaming_offset_breaks offset limit pm :
  need_check_ pm = true -> unknown_size_flag_ pm = true -> offset <> 0 ->
  set_streaming_offset offset limit pm = (Crash, { pm with streaming_offset_ := 0 }).
Proof.
  intros Hn Hu Ho. unfold set_streaming_offset. rewrite (bind_ok _ _ _ true pm) by (unfold ask; by rewrite Hn, orb_true_r).
  rewrite (bind_ok _ _ _ tt { pm with streaming_offset_ := 0 }) by done. rewrite (proj2 (Z.eqb_neq _ _)) by done.
  unfold mbind, P_bind, ask, get_size. cbn. by rewrite Hu.
Qed.

Lemma set_offset_step offset limit s r s' :
  sound precise counted origin s -> allowed (SetOffset offset limit) s -> run (SetOffset offset limit) s = (r, s') ->
  (r = Crash -> breaks (SetOffset offset limit) (manager s)) /\ (goes_on r -> sound precise counted origin s').
Proof.
  intros Hs (Hup & Hl & Ho) Hrun. destruct s as [pm fl]. cbn in *. pose proof (so_wf _ _ _ _ Hs) as Hwf. cbn in Hwf.
  destruct (decide (need_check_ pm = true /\ unknown_size_flag_ pm = true /\ offset <> 0)) as [Hb|Hb].
  - split; [done|]. rewrite set_streaming_offset_breaks in Hrun by (done || apply Hb). injection Hrun as <- <-.
    by intros [?|(e & ? & _)].
  - destruct (set_streaming_offset_ok offset limit pm Hwf Hl Ho) as (d & pm' & Heq & Hwf' & Hk & Hst & _ & _ & Hc).
    + by rewrite Hup.
    + intros Hn Hu. destruct (decide (offset = 0)); [done|]. by destruct Hb.
    + rewrite Heq in Hrun. injection Hrun as <- <-. split; [done|]. intros _. by apply (sound_keeps pm).
Qed.

Lemma need_check_step checked s r s' :
  sound precise counted origin s -> run (NeedCheck checked) s = (r, s') -> r <> Crash /\ (goes_on r -> sound precise counted origin s').
Proof.
  intros Hs Hrun. destruct s as [pm fl]. pose proof (so_wf _ _ _ _ Hs) as Hwf. cbn in Hwf.
  set (pm1 := { pm with need_check_ := true }). assert (Hwf1 : wf pm1) by (destruct Hwf as [[] []]; split; by constructor).
  destruct (wf_part_size _ (proj1 Hwf)).
  destruct (set_streaming_offset_ok 0 0 pm1 Hwf1) as (d & pm' & Heq & Hwf' & Hk & Hst & _ & _ & Hc); [done|cbn; lia|done|done|].
  assert (Heq' : set_need_check pm = (Ok tt, pm')).
  { unfold set_need_check. rewrite (bind_ok _ _ _ tt pm1) by done. by rewrite (bind_ok _ _ _ _ _ Heq). }
  unfold run in Hrun. cbn [manager flight] in Hrun. rewrite (bind_ok _ _ _ _ _ Heq') in Hrun. injection Hrun as <- <-.
  split; [done|]. intros _. apply (sound_keeps pm); try done.
  - destruct Hwf' as [[] []]. split; by constructor.
  - by destruct Hk; constructor.
Qed.

Lemma known_prefix_step size is_ready s r s' :
  sound precise counted origin s -> allowed (SetKnownPrefix size is_ready) s -> run (SetKnownPrefix size is_ready) s = (r, s') ->
  r <> Crash /\ (goes_on r -> sound precise counted origin s').
Proof.
  intros Hs [Hup Hsz] Hrun. destruct s as [pm fl]. cbn in *. pose proof (so_wf _ _ _ _ Hs) as Hwf. cbn in Hwf.
  destruct (set_known_prefix_ok size is_ready pm Hwf Hup Hsz) as (pm' & [Heq|[Heq []]]); rewrite Heq in Hrun;
    injection Hrun as <- <-; (split; [done|]).
  { intros [?|(e & He & Hc)]; [done|]. by injection He as <-. }
  intros _. destruct (so_flying _ _ _ _ Hs) as [Hpend Hreq]. cbn in Hpend, Hreq. split; cbn.
  - done.
  - split.
    + intros i Hi. rewrite pl_status by done. by apply Hpend.
    + intros i q Hi. destruct (Hreq i q Hi) as [Hrange Hrq]. split; [lia|]. unfold requested.
      by rewrite pl_part_len, pl_part_size.
  - intros _. split; [by left|done].
  - intros Hc. apply pl_accounted. by apply (so_accounted _ _ _ _ Hs).
  - apply (same_file_trans _ pm); [exact (so_origin _ _ _ _ Hs)|]. split; [congruence|done|congruence].
Qed.

(** The calls that look at the window. *)
Lemma may_finish_step s r s' :
  sound precise counted origin s -> run MayFinish s = (r, s') ->
  (r = Crash -> breaks MayFinish (manager s)) /\ (goes_on r -> sound precise counted origin s').
Proof.
  intros Hs Hrun. destruct s as [pm fl]. cbn in *. pose proof (so_wf _ _ _ _ Hs) as Hwf. cbn in Hwf.
  destruct (is_streaming_limit_reached_any pm Hwf) as (v & b & d & Heq & Hwf' & Hv). unfold may_finish, mbind, P_bind in Hrun.
  rewrite Heq in Hrun. set (pm' := at_cursors _ b _ d pm) in *.
  assert (Hs' : sound precise counted origin (mk_loader pm' fl)) by by apply (sound_keeps pm).
  destruct Hv as [[[] ->]|[-> Hb]]; cbn in Hrun; injection Hrun as <- <-; by split.
Qed.

Lemma finish_step s r s' :
  sound precise counted origin s -> run Finish s = (r, s') ->
  (r = Crash -> breaks Finish (manager s)) /\ (goes_on r -> sound precise counted origin s').
Proof.
  intros Hs Hrun. destruct s as [pm fl]. cbn in *. pose proof (so_wf _ _ _ _ Hs) as Hwf. cbn in Hwf.
  unfold finish in Hrun. rewrite (bind_ok _ _ _ (ready pm) pm) in Hrun by done. destruct (ready pm); [by injection Hrun as <- <-|].
  destruct (is_streaming_limit_reached_any pm Hwf) as (v & b & d & Heq & Hwf' & Hv). unfold mbind, P_bind in Hrun.
  rewrite Heq in Hrun. set (pm' := at_cursors _ b _ d pm) in *.
  assert (Hs' : sound precise counted origin (mk_loader pm' fl)) by by apply (sound_keeps pm).
  destruct Hv as [[[] ->]|[-> Hb]]; cbn in Hrun; injection Hrun as <- <-; by split.
Qed.

Lemma estimate_step s r s' :
  sound precise counted origin s -> run Estimate s = (r, s') ->
  (r = Crash <-> window_broken (manager s)) /\ (goes_on r -> sound precise counted origin s').
Proof.
  intros Hs Hrun. destruct s as [pm fl]. cbn in *. pose proof (so_wf _ _ _ _ Hs) as Hwf. cbn in Hwf.
  injection Hrun as <- <-. split; [|done]. unfold done_with.
  destruct (get_estimated_extra_cases pm Hwf) as [[[v ->] Hw]|[-> Hb]]; [|done]. rewrite Ok_bind. split; [done|].
  intros (? & ? & ? & ?). destruct Hw as [?|[?|[?|?]]]; [done|congruence|lia|done].
Qed.

Lemma run_sound c s r s' :
  sound precise counted origin s -> allowed c s -> run c s = (r, s') ->
  (r = Crash -> breaks c (manager s)) /\ (goes_on r -> sound precise counted origin s').
Proof.
  destruct c; intros Hs Ha Hr.
  - by eapply start_part_step.
  - by eapply part_ok_step.
  - by eapply part_failed_step.
  - by eapply set_limit_step.
  - by eapply set_offset_step.
  - by eapply known_prefix_step.
  - by eapply need_check_step.
  - by eapply may_finish_step.
  - by eapply finish_step.
  - destruct (estimate_step s r s' Hs Hr) as [Hb Hg]. split; [by apply Hb|done].
Qed.

Lemma reachable_sound s0 s : sound precise counted origin s0 -> reachable s0 s -> sound precise counted origin s.
Proof. intros Hs. induction 1 as [|s c r s' _ IH Ha Hr Hg]; [done|]. by eapply run_sound. Qed.
End steps.

(** An upload has no window. *)
Lemma upload_unbroken c s : wf (manager s) -> is_upload_ (manager s) = true -> allowed c s -> breaks c (manager s) -> False.
Proof.
  intros Hwf Hup Ha Hb. destruct (wf_upload _ (proj1 Hwf) Hup) as (Hl & _).
  destruct c; try done; cbn in Ha, Hb; [destruct Ha; congruence|by destruct Hb..].
Qed.

(** * A whole transfer *)

(** The number of parts can be relied on, the ready bytes can be relied on. *)
Definition size_known (size : Z) (is_final : bool) : Prop := is_final = true /\ size <> 0.
Definition precise (size : Z) (is_final upload : bool) : Prop := upload = true \/ size_known size is_final.
Definition counted (size : Z) (is_final upload : bool) (parts : list Z) : Prop :=
  upload = true \/ size_known size is_final \/ parts = [].

(** The state after [init]. *)
Definition opened (size expected part_size : Z) (is_final limited upload : bool) (parts : list Z) (s : loader) : Prop :=
  init_args size expected part_size is_final limited upload parts /\ flight s = ∅ /\
  init size expected is_final part_size parts limited upload new_pm = (Ok tt, manager s).

Lemma size_known_flag size is_final : size_known size is_final -> negb is_final || (size =? 0) = false.
Proof. intros [-> Hs]. by apply Z.eqb_neq. Qed.

Lemma opened_started size expected part_size is_final limited upload parts s :
  opened size expected part_size is_final limited upload parts s ->
  started_up size part_size is_final upload parts (manager s).
Proof.
  intros (Hargs & _ & Hinit). destruct (init_ok _ _ _ _ _ _ _ Hargs) as (r & pm & Heq & Hr). rewrite Hinit in Heq.
  injection Heq as <- <-. destruct Hr as [[[? _]|[? _]]|[_ Hst]]; [done..|exact Hst].
Qed.

Lemma opened_sound size expected part_size is_final limited upload parts s :
  opened size expected part_size is_final limited upload parts s ->
  sound (precise size is_final upload) (counted size is_final upload parts) (manager s) s.
Proof.
  intros Hop. pose proof (opened_started _ _ _ _ _ _ _ _ Hop) as [[] Hu Hsz Hup Hps Ht _]. destruct Hop as (_ & Hf & _).
  split.
  - done.
  - rewrite Hf. split; [|done]. intros i Hi. rewrite in_status, lookup_empty by done.
    split; [by destruct (bool_decide _)|by intros []].
  - intros [Hpr|Hk]; (split; [|done]); [left; congruence|right]. by rewrite Hu, size_known_flag.
  - intros Hc. apply in_accounted. destruct Hc as [?|[Hk|?]]; [right; left; congruence|left|by right; right].
    by rewrite Hu, size_known_flag.
  - by split.
Qed.

(** ** Every byte *)

Lemma sum_parts pm : wf pm -> sum_upto (fun i => part_len i pm) (length (part_status_ pm)) = clip (part_count_ pm) pm.
Proof.
  intros Hwf. destruct (wf_part_size _ (proj1 Hwf)) as [Hp _]. pose proof (wf_count _ (proj1 Hwf)) as Hc.
  pose proof (len_nonneg (part_status_ pm)) as Hn. unfold len in *.
  rewrite (sum_upto_ext _ (fun i => if within 0 (part_count_ pm) i then part_len i pm else 0)).
  - rewrite sum_within by lia. rewrite Z.min_r, Z.min_l, <- Hc by lia. pose proof (wf_total _ (proj1 Hwf)).
    unfold clip at 2. lia.
  - intros i Hi. unfold within. by rewrite (proj2 (Z.leb_le _ _)), (proj2 (Z.ltb_lt _ _)) by lia.
Qed.

(** All bytes of a file of known size are ready when its ready bytes are as
    many as its size. *)
Lemma unchecked_ready_iff pm :
  wf pm -> accounted pm -> unknown_size_flag_ pm = false ->
  unchecked_ready pm = true <-> forall i, 0 <= i < part_count_ pm -> 0 < part_len i pm -> status i pm = Ready.
Proof.
  intros Hwf Hac Hu. unfold unchecked_ready. rewrite Hu. cbn [negb andb]. rewrite Z.eqb_eq, (ac_ready_size _ Hac).
  destruct (wf_part_size _ (proj1 Hwf)) as [Hp _]. pose proof (wf_count _ (proj1 Hwf)) as Hc. unfold len in Hc.
  pose proof (sum_parts pm Hwf) as Hsum. pose proof (wf_known _ (proj1 Hwf) Hu) as Hcover.
  assert (Hclip : clip (part_count_ pm) pm = size_ pm) by (unfold clip, total; rewrite Hu; lia). rewrite Hclip in Hsum.
  assert (Hsplit : size_ pm = ready_bytes pm + sum_upto (fun i => missing_len i pm) (length (part_status_ pm))).
  { rewrite <- Hsum. unfold ready_bytes, over_parts. rewrite <- sum_upto_plus. apply sum_upto_ext. intros i _.
    unfold ready_len, missing_len. destruct (is_status Ready i pm); lia. }
  assert (Hpos : forall i, 0 <= missing_len i pm).
  { intros i. unfold missing_len. pose proof (part_len_nonneg i pm Hp). destruct (is_status Ready i pm); lia. }
  split.
  - intros He i Hi Hl. destruct (decide (status i pm = Ready)) as [|Hne]; [done|]. exfalso.
    pose proof (sum_upto_term (fun i => missing_len i pm) (length (part_status_ pm)) i ltac:(intros; apply Hpos) ltac:(lia)) as Ht.
    cbv beta in Ht. unfold missing_len at 1, is_status in Ht. rewrite bool_decide_false in Ht by done. lia.
  - intros Hall. rewrite (sum_upto_zero (fun i => missing_len i pm)) in Hsplit; [lia|]. intros i Hi. unfold missing_len, is_status.
    pose proof (part_len_nonneg i pm Hp). destruct (Z.eq_dec (part_len i pm) 0) as [->|]; [by destruct (bool_decide _)|].
    by rewrite bool_decide_true by (apply Hall; lia).
Qed.

(** ** Resuming *)

Lemma count_unique c c' ps size :
  0 < ps -> (c - 1) * ps < size <= c * ps -> (c' - 1) * ps < size <= c' * ps -> c = c'.
Proof. intros Hp Hc Hc'. nia. Qed.

(** How many parts the saved bitmask is cut to. *)
Definition saved_limit pm : Z := if need_check_ pm then checked_prefix_size_ pm / part_size_ pm else part_count_ pm.

(** The parts that are saved: the ready ones with bytes, and of a file that is
    checked against hashes those of the checked prefix. *)
Definition saved_part (i : Z) pm : bool := is_status Ready i pm && (0 <? part_len i pm) && (i <? saved_limit pm).

(** A download of known size, with a checked prefix inside of the ready one. *)
Record savable pm : Prop := {
  sv_wf : wf pm;
  sv_accounted : accounted pm;
  sv_tight : tight pm;
  sv_known : unknown_size_flag_ pm = false;
  sv_size : 0 < size_ pm <= MAX_FILE_SIZE;
  sv_part_size : 2 <= part_size_ pm;
  sv_checked : need_check_ pm = true ->
    0 <= checked_prefix_size_ pm /\ forall i, 0 <= i < checked_prefix_size_ pm / part_size_ pm -> status i pm = Ready;
}.

Section saved.
Variable pm : parts_manager.
Hypothesis Hsv : savable pm.

Lemma saved_count : (part_count_ pm - 1) * part_size_ pm < size_ pm <= part_count_ pm * part_size_ pm.
Proof. destruct Hsv. split; [by apply sv_tight0|by apply (wf_known _ (proj1 sv_wf0))]. Qed.

Lemma saved_part_len i : 0 <= i < part_count_ pm -> 0 < part_len i pm.
Proof.
  intros Hi. pose proof saved_count. destruct Hsv. unfold part_len, total. rewrite sv_known0.
  assert (part_size_ pm * i <= (part_count_ pm - 1) * part_size_ pm) by nia.
  destruct (Z.ltb_spec (size_ pm) (part_size_ pm * i)); lia.
Qed.

(** A bit of the bitmask is a ready part. *)
Lemma saved_bit i : get i (bitmask_ pm) = true <-> 0 <= i < part_count_ pm /\ status i pm = Ready.
Proof.
  pose proof (saved_part_len i) as Hl. destruct Hsv as [Hwf [_ _ Hbits] _ _ _ _ _]. split.
  - intros Hi. pose proof (get_range _ _ Hi) as [? _]. pose proof (wf_bitmask _ (proj1 Hwf) i Hi) as Hst. split; [|done].
    split; [done|]. destruct (Z.lt_ge_cases i (part_count_ pm)); [done|].
    rewrite status_beyond in Hst; [done|]. by rewrite <- (wf_count _ (proj1 Hwf)).
  - intros [Hr Hs]. apply (wf_bitmask_ready _ (proj1 Hwf)); [lia|done|by apply Hl].
Qed.

Lemma saved_limit_bounds : need_check_ pm = true -> 0 <= saved_limit pm <= part_count_ pm /\ saved_limit pm <= size (bitmask_ pm).
Proof.
  intros Hn. pose proof saved_count as Hc. pose proof saved_bit as Hbit. destruct Hsv as [Hwf _ _ _ Hsz Hps Hch]. destruct (Hch Hn) as [H0 Hready].
  unfold saved_limit. rewrite Hn. set (k := checked_prefix_size_ pm / part_size_ pm) in *.
  assert (Hk : 0 <= k) by (apply Z.div_pos; lia). pose proof (wf_count _ (proj1 Hwf)) as Hlc. pose proof (len_nonneg (part_status_ pm)).
  destruct (Z.eq_dec k 0) as [->|Hne]; [split; [lia|unfold size; pose proof (len_nonneg (bitmask_ pm)); lia]|].
  assert (Hkc : k <= part_count_ pm).
  { destruct (Z.le_gt_cases k (part_count_ pm)); [done|]. specialize (Hready (k - 1) ltac:(lia)).
    rewrite status_beyond in Hready; [done|lia]. }
  split; [done|]. assert (Hg : get (k - 1) (bitmask_ pm) = true) by (apply Hbit; split; [lia|apply Hready; lia]).
  apply get_range in Hg. lia.
Qed.

(** The saved bitmask, and the parts that are read back from it. *)
Lemma saved_bitmask :
  exists data parts, get_bitmask pm = Ok data /\ as_vector (decode data) = Ok parts /\ NoDup parts /\
    forall i, i ∈ parts <-> 0 <= i < part_count_ pm /\ saved_part i pm = true.
Proof.
  pose proof saved_count as Hcount. pose proof saved_limit_bounds as Hlim. pose proof saved_part_len as Hlen. pose proof saved_bit as Hbit.
  set (k := if need_check_ pm then saved_limit pm else -1).
  assert (Hk : k = -1 \/ 0 <= k <= size (bitmask_ pm)).
  { unfold k. destruct (need_check_ pm); [right|by left]. destruct (Hlim eq_refl). lia. }
  destruct (encode_spec k (bitmask_ pm) Hk) as (data & He & Hg & Hagain).
  pose proof (Hagain (decode data) (fun i => eq_refl)) as Hself. destruct Hsv as [Hwf _ _ _ Hsz Hps _].
  assert (Hc : 0 <= part_count_ pm) by (rewrite (wf_count _ (proj1 Hwf)); apply len_nonneg).
  assert (Hin : forall i, get i (decode data) = true <-> 0 <= i < part_count_ pm /\ saved_part i pm = true).
  { intros i. rewrite Hg, andb_true_iff, Hbit. unfold saved_part, is_status. rewrite !andb_true_iff, bool_decide_eq_true, !Z.ltb_lt.
    unfold k. destruct (need_check_ pm) eqn:Hn.
    - destruct (Hlim eq_refl). rewrite (proj2 (Z.eqb_neq _ (-1))) by lia. cbn [orb]. rewrite Z.ltb_lt. split; [|by intros (? & [[? ?] ?])].
      intros [[Hi ?] ?]. specialize (Hlen i Hi). done.
    - unfold saved_limit. rewrite Hn. cbn [Z.eqb Pos.eqb orb]. split; [|by intros (? & [[? ?] ?])].
      intros [[Hi ?] ?]. specialize (Hlen i Hi). split; [done|]. split; [done|lia]. }
  pose proof (decoded_size _ _ _ Hself Hc (fun i Hi => proj2 (proj1 (proj1 (Hin i) Hi)))) as Hsize.
  assert (Hpc : part_count_ pm + 7 < 2 ^ 31).
  { change MAX_FILE_SIZE with 4194304000 in Hsz. assert (0 < part_count_ pm) by nia.
    assert (2 * (part_count_ pm - 1) <= (part_count_ pm - 1) * part_size_ pm) by nia. lia. }
  destruct (as_vector_spec (decode data)) as (parts & Hv & Hnd & Hparts); [lia|].
  exists data, parts. split; [|split; [done|split; [done|]]].
  - rewrite <- He. unfold get_bitmask, k. destruct (need_check_ pm) eqn:Hn; [|done]. destruct (Hlim eq_refl) as [Hb _].
    rewrite (proj2 (Z.eqb_neq (part_size_ pm) 0)) by lia. cbn [negb check]. rewrite Ok_bind.
    unfold saved_limit in *. rewrite Hn in *. by rewrite narrow_int_small by lia.
  - intros i. by rewrite Hparts, Hin.
Qed.

Lemma saved_part_true i : saved_part i pm = true -> status i pm = Ready /\ 0 < part_len i pm /\ i < saved_limit pm.
Proof.
  unfold saved_part, is_status. rewrite !andb_true_iff, bool_decide_eq_true, !Z.ltb_lt. by intros [[? ?] ?].
Qed.

Lemma saved_part_unchecked i : need_check_ pm = false -> 0 <= i < part_count_ pm -> saved_part i pm = is_status Ready i pm.
Proof.
  intros Hn Hi. unfold saved_part, saved_limit. rewrite Hn. rewrite !(proj2 (Z.ltb_lt _ _)); [by rewrite !andb_true_r|lia|].
  by apply saved_part_len.
Qed.
End saved.

(** A new object that starts from the saved parts. *)
Lemma resume_ok pm :
  savable pm ->
  exists data parts pm', get_bitmask pm = Ok data /\ as_vector (decode data) = Ok parts /\
    opened (size_ pm) (size_ pm) (part_size_ pm) true false false parts (mk_loader pm' ∅) /\
    part_count_ pm' = part_count_ pm /\
    (forall i, 0 <= i -> status i pm' = if saved_part i pm then Ready else Empty) /\
    ready_size_ pm' = over_parts (fun i => if saved_part i pm then part_len i pm else 0) pm.
Proof.
  intros Hsv. pose proof (saved_count pm Hsv) as Hcount. destruct (saved_bitmask pm Hsv) as (data & parts & Hd & Hv & Hnd & Hparts).
  pose proof Hsv as [Hwf Hac Ht Hu Hsz Hp Hch]. pose proof (wf_part_size _ (proj1 Hwf)) as Hps.
  pose proof (wf_count _ (proj1 Hwf)) as Hlc.
  assert (Hargs : init_args (size_ pm) (size_ pm) (part_size_ pm) true false false parts).
  { constructor; try done; [lia|right; lia| |].
    - split; [done|]. intros i Hi%Hparts. change MAX_FILE_SIZE with 4194304000 in Hsz. nia.
    - intros _. right. right. split; [lia|]. intros i (Hi & _)%Hparts.
      assert (i * part_size_ pm <= (part_count_ pm - 1) * part_size_ pm) by nia. lia. }
  destruct (init_ok _ _ _ _ _ _ _ Hargs) as (r & pm' & Heq & [[[_ ?]|[_ ?]]|[-> Hst]]); [lia|done|].
  exists data, parts, pm'. split; [done|]. split; [done|]. split; [by repeat split; try apply Hargs|].
  destruct Hst as [[] Hu' Hs' _ Hp' Ht' _]. specialize (Hp' ltac:(lia)). rewrite (proj2 (Z.eqb_neq _ _)) in Hu' by lia. cbn in Hu'.
  specialize (Hs' Hu'). pose proof (wf_known _ (proj1 in_wf) Hu') as Hk'. specialize (Ht' Hu').
  assert (Hc' : part_count_ pm' = part_count_ pm).
  { apply (count_unique _ _ (part_size_ pm) (size_ pm)); [lia| |done]. rewrite Hp', Hs' in *. done. }
  assert (Hlen : forall i, part_len i pm' = part_len i pm).
  { intros i. apply part_len_ext; [done|]. unfold total. by rewrite Hu, Hu'. }
  assert (Hstatus : forall i, 0 <= i -> status i pm' = if saved_part i pm then Ready else Empty).
  { intros i Hi. rewrite in_status by done. destruct (saved_part i pm) eqn:Hsp.
    - rewrite bool_decide_true; [done|]. apply Hparts. split; [|done]. split; [done|]. destruct (saved_part_true pm i Hsp) as [Hr _].
      destruct (Z.lt_ge_cases i (part_count_ pm)); [done|]. by rewrite status_beyond in Hr by lia.
    - rewrite bool_decide_false; [done|]. rewrite Hparts, Hsp. by intros []. }
  split; [done|]. split; [done|]. rewrite in_ready_size. pose proof (wf_count _ (proj1 in_wf)) as Hlc'.
  unfold ready_bytes, over_parts. unfold len in *. replace (length (part_status_ pm')) with (length (part_status_ pm)) by lia.
  apply sum_upto_ext. intros i Hi. unfold ready_len, is_status. rewrite Hlen, Hstatus by lia. by destruct (saved_part i pm).
Qed.

(** The state of a download whose size was known from the start. *)
Lemma reachable_savable size expected part_size is_final limited parts s0 s :
  opened size expected part_size is_final limited false parts s0 -> reachable s0 s -> size_known size is_final ->
  (need_check_ (manager s) = true -> 0 <= checked_prefix_size_ (manager s) /\
     forall i, 0 <= i < checked_prefix_size_ (manager s) / part_size_ (manager s) -> status i (manager s) = Ready) ->
  savable (manager s) /\ size_ (manager s) = size /\ accounted (manager s).
Proof.
  intros Hop Hr Hk Hch. pose proof (opened_started _ _ _ _ _ _ _ _ Hop) as [_ Hu Hsz Hup _ _ [Hmax Hps]].
  pose proof (reachable_sound _ _ _ _ _ (opened_sound _ _ _ _ _ _ _ _ Hop) Hr) as [Hwf _ Ht Hac [_ Hp Hsame]].
  rewrite size_known_flag in Hu by done. specialize (Hsz Hu). destruct (Hsame Hup Hu) as [Hu' Hsz'].
  assert (Hac' : accounted (manager s)) by (apply Hac; right; by left). destruct (Ht (or_intror Hk)) as [_ Htt].
  destruct Hop as ([[] _ _ _ _] & _ & _). destruct Hk as [_ Hne].
  split; [|split; [congruence|done]]. split; [done|done|done|done| | |done]; [rewrite Hsz', Hsz; lia|by rewrite Hp].
Qed.

(** * Properties *)

(** C7: In every state that a download or an upload can reach, the parts in
    flight are the pending ones, each with the length that was asked for or
    behind the end of the file that was found since; and a call that the loader
    makes fails a check of [PartsManager] only in two cases, which only a
    download has: the window begins at the end of a file of known size, or
    behind it, while a byte of its wrapped part is there -- then
    [get_estimated_extra] always fails, and [may_finish] and [finish] may; or a
    seek to another place than 0 comes while the file is checked against hashes
    and its size is not known. *)
Theorem transfer_safe size expected part_size is_final limited upload parts s0 s :
  opened size expected part_size is_final limited upload parts s0 -> reachable s0 s ->
  wf (manager s) /\ flying (flight s) (manager s) /\
  (forall c, allowed c s -> fst (run c s) = Crash -> breaks c (manager s) /\ upload = false) /\
  (fst (run Estimate s) = Crash <-> window_broken (manager s)).
Proof.
  intros Hop Hr. pose proof (reachable_sound _ _ _ _ _ (opened_sound _ _ _ _ _ _ _ _ Hop) Hr) as Hs.
  split; [exact (so_wf _ _ _ _ Hs)|]. split; [exact (so_flying _ _ _ _ Hs)|]. split.
  - intros c Hc Hcrash. destruct (run c s) as [r s'] eqn:Hrun.
    pose proof (proj1 (run_sound _ _ _ c s r s' Hs Hc Hrun) Hcrash) as Hb. split; [done|].
    destruct upload; [|done]. exfalso. apply (upload_unbroken c s (so_wf _ _ _ _ Hs)); [|done..].
    rewrite (sf_upload _ _ (so_origin _ _ _ _ Hs)). exact (su_upload _ _ _ _ _ _ (opened_started _ _ _ _ _ _ _ _ Hop)).
  - destruct (run Estimate s) as [r s'] eqn:Hrun. exact (proj1 (estimate_step _ _ _ s r s' Hs Hrun)).
Qed.

(** C20: The ready bytes of a transfer are those of its ready parts, so it is
    ready exactly when every part that has bytes is ready; for a download of
    unknown size this needs that no part was ready from the start. *)
Theorem ready_complete size expected part_size is_final limited upload parts s0 s :
  opened size expected part_size is_final limited upload parts s0 -> reachable s0 s ->
  counted size is_final upload parts ->
  ready_size_ (manager s) = ready_bytes (manager s) /\
  (unknown_size_flag_ (manager s) = false ->
   unchecked_ready (manager s) = true <->
   forall i, 0 <= i < part_count_ (manager s) -> 0 < part_len i (manager s) -> status i (manager s) = Ready).
Proof.
  intros Hop Hr Hc. pose proof (reachable_sound _ _ _ _ _ (opened_sound _ _ _ _ _ _ _ _ Hop) Hr) as Hs.
  pose proof (so_accounted _ _ _ _ Hs Hc) as Hac. split; [exact (ac_ready_size _ Hac)|]. intros Hu.
  apply unchecked_ready_iff; [exact (so_wf _ _ _ _ Hs)|done|done].
Qed.

(** C14: A transfer of known size never stalls: when no part is in flight and
    there is no limit, it is ready, or the next call hands out a part with
    bytes. *)
Theorem transfer_progress size expected part_size is_final limited upload parts s0 s :
  opened size expected part_size is_final limited upload parts s0 -> reachable s0 s ->
  precise size is_final upload -> unknown_size_flag_ (manager s) = false -> streaming_limit_ (manager s) = 0 ->
  flight s = ∅ ->
  unchecked_ready (manager s) = true \/
  exists id p s', run StartPart s = (Ok tt, s') /\ flight s' = {[id := p]} /\ 0 < p /\
    status id (manager s) = Empty /\ p = part_len id (manager s).
Proof.
  intros Hop Hr Hpr Hu Hl Hf. pose proof (reachable_sound _ _ _ _ _ (opened_sound _ _ _ _ _ _ _ _ Hop) Hr) as Hs.
  pose proof (so_wf _ _ _ _ Hs) as Hwf. assert (Hc : counted size is_final upload parts) by (destruct Hpr; [by left|by right; left]).
  pose proof (so_accounted _ _ _ _ Hs Hc) as Hac. destruct (so_tight _ _ _ _ Hs Hpr) as [_ Ht].
  destruct (start_part_ok (manager s) Hwf) as (r & pm' & Heq & Hres & _). destruct r as [p|e|]; [|by destruct Hres; congruence|done].
  destruct Hres as (pm1 & Hsearch & Hwf1 & [(-> & -> & Hnone)|[Hho ->]]).
  - left. apply unchecked_ready_iff; [done|done|done|]. intros i Hi _.
    specialize (Hnone (conj Hu (Ht Hu)) Hl i Hi). destruct (status i (manager s)) eqn:Hst; [done| |done].
    exfalso. apply (fly_pending _ _ (so_flying _ _ _ _ Hs) i ltac:(lia)) in Hst as [q Hq]. by rewrite Hf in Hq.
  - right. pose proof (keeps_searched _ _ Hsearch Hwf) as Hk. destruct Hho.
    exists (part_id p), (part_length p), (mk_loader (started (part_id p) pm1) {[part_id p := part_length p]}).
    split; [|split; [done|split; [done|split]]].
    + unfold run. rewrite Heq, Hf. by rewrite (proj2 (Z.eqb_neq _ _)) by lia.
    + rewrite <- (status_searched _ _ Hsearch Hwf) by lia. done.
    + by rewrite ho_length, (kr_part_len _ _ _ Hk).
Qed.

(** C24: The bitmask that is saved for a download of known size is enough to
    resume it, whatever calls came before: a new object that starts from it is a
    download of the same file with the same number of parts, and its ready parts
    are exactly the ready ones of the old object -- while the file is checked
    against hashes only those of the checked prefix, which has to lie inside of
    the ready one, as [check_loop] sees to -- with their number of bytes. (A
    download whose size is not known can stall when it is resumed.) *)
Theorem resume size expected part_size is_final limited parts s0 s :
  opened size expected part_size is_final limited false parts s0 -> reachable s0 s -> size_known size is_final ->
  (need_check_ (manager s) = true -> 0 <= checked_prefix_size_ (manager s) /\
     forall i, 0 <= i < checked_prefix_size_ (manager s) / part_size_ (manager s) -> status i (manager s) = Ready) ->
  exists data parts' pm', get_bitmask (manager s) = Ok data /\ as_vector (decode data) = Ok parts' /\
    opened size size (part_size_ (manager s)) true false false parts' (mk_loader pm' ∅) /\
    part_count_ pm' = part_count_ (manager s) /\
    (forall i, 0 <= i < part_count_ pm' -> status i pm' = Ready <-> status i (manager s) = Ready /\
       (need_check_ (manager s) = true -> i < checked_prefix_size_ (manager s) / part_size_ (manager s))) /\
    (forall i, status i pm' <> Pending) /\
    ready_size_ pm' = ready_bytes pm' /\ (need_check_ (manager s) = false -> ready_size_ pm' = ready_size_ (manager s)).
Proof.
  intros Hop Hr Hk Hch. destruct (reachable_savable _ _ _ _ _ _ _ _ Hop Hr Hk Hch) as (Hsv & Hsz & Hac).
  set (pm := manager s) in *. destruct (resume_ok pm Hsv) as (data & parts' & pm' & Hd & Hv & Ho & Hc & Hst & Hrs).
  rewrite Hsz in Ho. exists data, parts', pm'. split_and!; try done.
  - intros i Hi. rewrite Hst by lia. destruct (saved_part i pm) eqn:Hsp.
    + destruct (saved_part_true pm i Hsp) as (? & _ & Hl). split; [|done]. intros _. split; [done|]. intros Hn.
      unfold saved_limit in Hl. by rewrite Hn in Hl.
    + split; [done|]. intros [Hready Hlim]. unfold saved_part, is_status in Hsp. rewrite bool_decide_true in Hsp by done.
      rewrite (proj2 (Z.ltb_lt 0 _)) in Hsp by (apply saved_part_len; [done|lia]). apply Z.ltb_ge in Hsp.
      unfold saved_limit in Hsp. destruct (need_check_ pm); [specialize (Hlim eq_refl)|]; lia.
  - intros i. destruct (Z.lt_ge_cases i 0) as [Hneg|Hi].
    + unfold status. replace (Z.to_nat i) with (Z.to_nat 0) by lia. pose proof (Hst 0 ltac:(lia)) as H0. unfold status in H0. rewrite H0.
      by destruct (saved_part 0 pm).
    + rewrite Hst by done. by destruct (saved_part i pm).
  - destruct Ho as (Hargs & Hf & Hi). pose proof (opened_started _ _ _ _ _ _ _ (mk_loader pm' ∅) (conj Hargs (conj Hf Hi))) as [[] _ _ _ _ _ _]. done.
  - intros Hn. rewrite Hrs, (ac_ready_size _ Hac). apply sum_upto_ext. intros i Hi.
    pose proof (wf_count _ (proj1 (sv_wf _ Hsv))) as Hlc. unfold len in Hlc. rewrite saved_part_unchecked by (done || lia). done.
Qed.

(** [start_part] hands out an empty part inside of the streaming window, with
    its bytes, and marks it as pending; or it hands out nothing, and then, when
    the size is known and there is no limit, every part was handed out; or it
    fails because the size is unknown: it waits for a longer prefix, and nothing
    changes but the cursors, or there are too many parts. *)
Theorem start_part_spec pm :
  wf pm -> exists r pm', start_part pm = (r, pm') /\ start_result pm r pm' /\ (forall p, r = Ok p -> wf pm').
Proof. apply start_part_ok. Qed.

(** What is left to load of the streaming window of a file of known size is
    the number of bytes of its parts that are not ready, and the limit is
    reached when there are none; unless the window begins at the end of the
    file, or behind it: then the code takes the window for empty, and fails its
    check when a byte of the wrapped window is ready. *)
Theorem streaming_window pm :
  wf pm -> streaming_limit_ pm <> 0 -> unknown_size_flag_ pm = false ->
  get_estimated_extra pm =
    (if streaming_offset_ pm <? size_ pm then Ok (window_missing_bytes pm)
     else if window_ready_bytes pm =? 0 then Ok 0 else Crash) /\
  (streaming_offset_ pm < size_ pm ->
   exists pm', may_finish pm = (Ok ((window_missing_bytes pm =? 0) || ready pm), pm') /\ wf pm').
Proof.
  intros Hwf Hl Hu. split.
  - destruct (Z.ltb_spec (streaming_offset_ pm) (size_ pm)); [by apply extra_known|by apply extra_behind].
  - intros Ho. destruct (may_finish_ok pm Hwf) as (v & pm' & Heq & [_ Hv] & Hwf' & _); [by right; right; left|].
    exists pm'. by rewrite Heq, Hv.
Qed.

(** ** Concrete transfers *)

(** A file of four parts whose first one is there. *)
Definition sample : loader := mk_loader (snd (init 200000 200000 true 65536 [0] false false new_pm)) ∅.

Definition after (c : call) (s : loader) : loader := snd (run c s).

Lemma sample_args : init_args 200000 200000 65536 true false false [0].
Proof.
  constructor; try (lia || done).
  - split; [apply NoDup_singleton|]. intros i ->%list_elem_of_singleton. lia.
  - intros _. right. right. split; [lia|]. intros i ->%list_elem_of_singleton. lia.
Defined.

Lemma sample_opened : opened 200000 200000 65536 true false false [0] sample.
Proof. split; [exact sample_args|]. split; [reflexivity|vm_compute; reflexivity]. Defined.

Definition one_started : loader := after StartPart sample.

Lemma one_started_reachable : reachable sample one_started.
Proof.
  apply (reach_call _ sample StartPart (Ok tt)); [constructor|exact I|vm_compute; reflexivity|by left].
Defined.

(** A window that begins at the end of the file. *)
Definition sought_behind : loader := after (SetOffset 200000 10) sample.

Lemma sought_behind_reachable : reachable sample sought_behind.
Proof.
  apply (reach_call _ sample (SetOffset 200000 10) (Ok tt)); [constructor| |vm_compute; reflexivity|by left].
  split; [vm_compute; reflexivity|]. split; [lia|]. change (part_size_ (manager sample)) with 65536. lia.
Defined.

Lemma transfer_safe_witness :
  fst (run (PartOk 1 65536) one_started) <> Crash /\ fst (run Estimate sought_behind) = Crash.
Proof.
  split.
  - intros Hc. refine (proj1 (proj1 (proj2 (proj2 (transfer_safe _ _ _ _ _ _ _ _ _ sample_opened one_started_reachable))) (PartOk 1 65536) _ Hc)).
    exists 65536. split; [vm_compute; reflexivity|]. split; [lia|]. vm_compute. discriminate.
  - apply (proj2 (proj2 (proj2 (transfer_safe _ _ _ _ _ _ _ _ _ sample_opened sought_behind_reachable)))).
    split; [vm_compute; discriminate|]. split; [vm_compute; reflexivity|]. split; vm_compute; discriminate.
Defined.

Lemma ready_complete_witness : ready_size_ (manager one_started) = 65536 /\ ready_bytes (manager one_started) = 65536.
Proof.
  split; [vm_compute; reflexivity|].
  rewrite <- (proj1 (ready_complete _ _ _ _ _ _ _ _ _ sample_opened one_started_reachable ltac:(right; left; split; [reflexivity|discriminate]))).
  vm_compute. reflexivity.
Defined.

Lemma transfer_progress_witness : exists id p s', run StartPart sample = (Ok tt, s') /\ flight s' = {[id := p]} /\ 0 < p.
Proof.
  destruct (transfer_progress _ _ _ _ _ _ _ _ sample sample_opened (reach_start _)) as [Hr|(id & p & s' & Hrun & Hf & Hp & _)].
  - right. split; [reflexivity|discriminate].
  - vm_compute. reflexivity.
  - vm_compute. reflexivity.
  - reflexivity.
  - exfalso. vm_compute in Hr. discriminate Hr.
  - exists id, p, s'. split; [exact Hrun|]. split; [exact Hf|exact Hp].
Defined.

(** The file is checked against hashes when its second part is there as well. *)
Definition two_parts : loader := after (NeedCheck 65536) (after (PartOk 1 65536) one_started).

Lemma two_parts_reachable : reachable sample two_parts.
Proof.
  apply (reach_call _ (after (PartOk 1 65536) one_started) (NeedCheck 65536) (Ok tt)); [|exact I|vm_compute; reflexivity|by left].
  apply (reach_call _ one_started (PartOk 1 65536) (Ok tt)); [exact one_started_reachable| |vm_compute; reflexivity|by left].
  exists 65536. split; [vm_compute; reflexivity|]. split; [lia|]. vm_compute. discriminate.
Defined.

Lemma resume_witness : exists data parts pm', get_bitmask (manager two_parts) = Ok data /\ as_vector (decode data) = Ok parts /\
  opened 200000 200000 65536 true false false parts (mk_loader pm' ∅) /\ status 0 pm' = Ready /\ status 1 pm' <> Ready.
Proof.
  destruct (resume _ _ _ _ _ _ _ _ sample_opened two_parts_reachable) as (data & parts & pm' & Hd & Hv & Ho & Hc & Hs & _).
  - split; [reflexivity|discriminate].
  - intros _. split; [vm_compute; discriminate|]. change (checked_prefix_size_ (manager two_parts) / part_size_ (manager two_parts)) with 1.
    intros i Hi. assert (H0 : i = 0) by lia. rewrite H0. vm_compute. reflexivity.
  - change (part_count_ (manager two_parts)) with 4 in Hc.
    exists data, parts, pm'. split; [exact Hd|]. split; [exact Hv|]. split; [exact Ho|]. split.
    + apply Hs; [lia|]. split; [vm_compute; reflexivity|intros _; vm_compute; reflexivity].
    + intros H1. apply Hs in H1; [|lia]. destruct H1 as [_ H1]. specialize (H1 eq_refl).
      change (checked_prefix_size_ (manager two_parts) / part_size_ (manager two_parts)) with 1 in H1. lia.
Defined.

(** Windows that begin in the middle of the file and at its end. *)
Definition sought_inside : loader := after (SetOffset 150000 100000) sample.
Definition sought_end : loader := after (SetOffset 200000 10) sample.

Lemma sought_sound offset limit :
  0 <= offset < 2 ^ 31 * 65536 -> 0 <= limit -> wf (manager (after (SetOffset offset limit) sample)).
Proof.
  intros Ho Hl. pose proof (opened_sound _ _ _ _ _ _ _ _ sample_opened) as Hs. unfold after.
  destruct (run (SetOffset offset limit) sample) as [r s'] eqn:Hrun.
  destruct (set_streaming_offset_ok offset limit (manager sample) (so_wf _ _ _ _ Hs) Hl) as (d & pm' & Heq & Hwf & _);
    [exact Ho|by vm_compute|by vm_compute|]. unfold run in Hrun. rewrite Heq in Hrun. injection Hrun as <- <-. exact Hwf.
Qed.

Lemma streaming_window_witness :
  get_estimated_extra (manager sought_inside) = Ok 68928 /\ get_estimated_extra (manager sought_end) = Crash.
Proof.
  split.
  - rewrite (proj1 (streaming_window (manager sought_inside) ltac:(apply sought_sound; lia) ltac:(vm_compute; discriminate)
      ltac:(vm_compute; reflexivity))). vm_compute. reflexivity.
  - rewrite (proj1 (streaming_window (manager sought_end) ltac:(apply sought_sound; lia) ltac:(vm_compute; discriminate)
      ltac:(vm_compute; reflexivity))). vm_compute. reflexivity.
Defined.

Lemma start_part_spec_witness : exists pm', start_part (manager sample) = (Ok (mk_part 1 65536 65536), pm') /\ wf pm'.
Proof.
  destruct (start_part_spec (manager sample) (so_wf _ _ _ _ (opened_sound _ _ _ _ _ _ _ _ sample_opened))) as (r & pm' & Heq & _ & Hwf).
  exists pm'. assert (Hr : r = fst (start_part (manager sample))) by (rewrite Heq; reflexivity).
  assert (Hp : r = Ok (mk_part 1 65536 65536)) by (rewrite Hr; vm_compute; reflexivity).
  split; [rewrite <- Hp; exact Heq|exact (Hwf _ Hp)].
Defined.

(** A download of unknown size that is resumed with all of its bytes: the next
    part is empty, but the least size of the file is still taken for 0, so the
    size stays unknown, and no part is ever asked for again. *)
Definition resumed : loader := mk_loader (snd (init 0 0 true 65536 [0; 1; 2] false false new_pm)) ∅.
Definition stalled : loader := after (PartOk 3 0) (after StartPart resumed).
Definition asked : loader := after StartPart stalled.

Lemma unknown_resume_stalls :
  fst (run (PartOk 3 0) (after StartPart resumed)) = Ok tt /\ flight stalled = ∅ /\ ready (manager stalled) = false /\
  fst (start_part (manager stalled)) = Ok get_empty_part /\
  fst (start_part (manager asked)) = Ok get_empty_part /\ manager (after StartPart asked) = manager asked.
Proof. split; [vm_compute; reflexivity|]. split; [vm_compute; reflexivity|]. split; [vm_compute; reflexivity|].
  split; [vm_compute; reflexivity|]. split; vm_compute; reflexivity.
Qed.
