(* ===== verification/FlatHashTable.v ===== *)
(** The open-addressing hash table: [tdutils/td/utils/FlatHashTable.h],
    [FlatHashTable.cpp] and the hash of [HashTableUtils.h].

    A node is empty ([None]) or holds a key and a value; [nodes_] is the array,
    empty for the null pointer.  Probing goes to the right, an erased node is
    refilled by shifting the nodes of its cluster back.  The correctness of the
    operations is in [FlatHashTableSpec]. *)
From S2P Require Import Prelude Bytes Random.
#[local] Open Scope Z_scope.

(** * Hashes and sizes *)

Definition randomize_hash (h : Z) : Z :=
  let h := Z.lxor h (Z.shiftr h 16) in
  let h := uint32 (h * 0x85ebca6b) in
  let h := Z.lxor h (Z.shiftr h 13) in
  let h := uint32 (h * 0xc2b2ae35) in
  Z.lxor h (Z.shiftr h 16).

Definition hash_uint32 (value : Z) : Z := randomize_hash value.

Definition hash_uint64 (value : Z) : Z := randomize_hash (uint32 (value + Z.shiftr value 32)).

Definition combine_hashes (first_hash second_hash : Z) : Z :=
  uint32 (first_hash * 2023654985 + second_hash).

(** [count_leading_zeroes32] of a non-zero number. *)
Definition count_leading_zeroes32 (x : Z) : Z := 31 - Z.log2 x.

Definition normalize_flat_hash_table_size (size : Z) : Z :=
  Z.max (uint32 (Z.shiftl 1 (32 - count_leading_zeroes32 size))) 8.

Definition get_random_flat_hash_table_bucket {G} `{RandomSource G} (bucket_count_mask : Z) (g : G) : Z * G :=
  let '(r, g) := fast_uint32 g in (Z.land r bucket_count_mask, g).

Definition INVALID_BUCKET : Z := 0xFFFFFFFF.

(** * The table *)

Record table (K V : Type) := mk_table {
  nodes_ : list (option (K * V));
  used_node_count_ : Z;
  bucket_count_mask_ : Z;
  bucket_count_ : Z;
  begin_bucket_ : Z;
}.
Arguments mk_table {K V}.
Arguments nodes_ {K V}.
Arguments used_node_count_ {K V}.
Arguments bucket_count_mask_ {K V}.
Arguments bucket_count_ {K V}.
Arguments begin_bucket_ {K V}.

Section table.
Context {K V : Type} `{EqDecision K}.

(** [HashT], the empty key [KeyT()] and [sizeof(NodeT)]. *)
Context (hash : K -> Z) (empty_key : K) (sizeof_node : Z).

Implicit Types (t : table K V) (ns : list (option (K * V))).

Definition drop_nodes : table K V := mk_table [] 0 0 0 0.

Definition set_nodes ns t : table K V :=
  mk_table ns (used_node_count_ t) (bucket_count_mask_ t) (bucket_count_ t) (begin_bucket_ t).

Definition set_used (n : Z) t : table K V :=
  mk_table (nodes_ t) (uint32 n) (bucket_count_mask_ t) (bucket_count_ t) (begin_bucket_ t).

Definition invalidate_iterators t : table K V :=
  mk_table (nodes_ t) (used_node_count_ t) (bucket_count_mask_ t) (bucket_count_ t) INVALID_BUCKET.

Definition max_nodes : Z := Z.min (2 ^ 29) (0x7FFFFFFF / sizeof_node).

Definition allocate_nodes (size : Z) t : outcome (table K V) :=
  _ ← check (size <=? max_nodes);
  Ok (mk_table (replicate (Z.to_nat size) None) (used_node_count_ t) (uint32 (size - 1)) size INVALID_BUCKET).

(** [nodes_[bucket]]; behind the array the behaviour is undefined. *)
Definition node_at (bucket : Z) ns : outcome (option (K * V)) :=
  match ns !! Z.to_nat bucket with Some node => Ok node | None => Crash end.

Definition put_node (bucket : Z) (node : option (K * V)) ns : list (option (K * V)) :=
  <[Z.to_nat bucket := node]> ns.

Definition calc_bucket (key : K) t : Z := Z.land (hash key) (bucket_count_mask_ t).

Definition next_bucket (bucket : Z) t : Z := Z.land (uint32 (bucket + 1)) (bucket_count_mask_ t).

(** The [while (true)] loops that look for a node: to the right, until [stop].
    [fuel] bounds the steps; a loop that would not end is [Crash]. *)
Fixpoint probe (stop : option (K * V) -> bool) (fuel : nat) (bucket : Z) t : outcome Z :=
  match fuel with
  | O => Crash
  | S fuel =>
      node ← node_at bucket (nodes_ t);
      if stop node then Ok bucket else probe stop fuel (next_bucket bucket t) t
  end.

Definition is_empty (node : option (K * V)) : bool := match node with None => true | Some _ => false end.

Definition empty_or (key : K) (node : option (K * V)) : bool :=
  match node with None => true | Some (k, _) => bool_decide (k = key) end.

Definition table_fuel t : nat := length (nodes_ t).

Definition find_impl (key : K) t : outcome (option Z) :=
  if bool_decide (nodes_ t = []) || bool_decide (key = empty_key) then Ok None
  else
    bucket ← probe (empty_or key) (table_fuel t) (calc_bucket key t) t;
    node ← node_at bucket (nodes_ t);
    Ok (if is_empty node then None else Some bucket).

(** The loop over the old nodes. *)
Fixpoint move_nodes (old_nodes : list (option (K * V))) t : outcome (table K V) :=
  match old_nodes with
  | [] => Ok t
  | None :: old_nodes => move_nodes old_nodes t
  | Some (key, value) :: old_nodes =>
      bucket ← probe is_empty (table_fuel t) (calc_bucket key t) t;
      move_nodes old_nodes (set_nodes (put_node bucket (Some (key, value)) (nodes_ t)) t)
  end.

Definition resize (new_size : Z) t : outcome (table K V) :=
  if bool_decide (nodes_ t = []) then
    t ← allocate_nodes new_size t; Ok (set_used 0 t)
  else
    let old_nodes := nodes_ t in
    t ← allocate_nodes new_size t;
    move_nodes old_nodes t.

Definition reserve (size : Z) t : outcome (table K V) :=
  if size =? 0 then Ok t
  else
    _ ← check (size <=? 2 ^ 29);
    let want_size := normalize_flat_hash_table_size (uint32 (uint32 (size * 5) / 3 + 1)) in
    if bucket_count_ t <? want_size then resize want_size t else Ok t.

(** One pass of [emplace] over an allocated table; [None] asks for the call
    after the [resize]. *)
Definition emplace_pass (key : K) (value : V) t : outcome (option (table K V * Z * bool)) :=
  bucket ← probe (empty_or key) (table_fuel t) (calc_bucket key t) t;
  node ← node_at bucket (nodes_ t);
  if is_empty node then
    if uint32 (bucket_count_mask_ t * 3) <=? uint32 (used_node_count_ t * 5) then Ok None
    else
      let t := invalidate_iterators t in
      let t := set_nodes (put_node bucket (Some (key, value)) (nodes_ t)) t in
      Ok (Some (set_used (used_node_count_ t + 1) t, bucket, true))
  else Ok (Some (t, bucket, false)).

(** The node's bucket and whether it is new. The value of a new node is given
    by the caller's arguments. *)
Definition emplace (key : K) (value : V) t : outcome (table K V * Z * bool) :=
  _ ← check (negb (bool_decide (key = empty_key)));
  t ← (if bucket_count_mask_ t =? 0 then
         _ ← check (used_node_count_ t =? 0); resize 8 t
       else Ok t);
  r ← emplace_pass key value t;
  match r with
  | Some r => Ok r
  | None =>
      t ← resize (uint32 (2 * bucket_count_ t)) t;
      _ ← check (uint32 (used_node_count_ t * 5) <? uint32 (bucket_count_mask_ t * 3));
      r ← emplace_pass key value t;
      match r with Some r => Ok r | None => Crash end
  end.

(** * Erasing *)

(** The first loop of [erase_node]: pointers from the hole [it] to the end of
    the array; the result is the hole where the loop ends, and whether it met
    an empty node. *)
Fixpoint shift_to_end (fuel : nat) (it test : Z) ns t : outcome (list (option (K * V)) * Z * bool) :=
  match fuel with
  | O => Crash
  | S fuel =>
      if test =? bucket_count_ t then Ok (ns, it, false)
      else
        node ← node_at test ns;
        match node with
        | None => Ok (ns, it, true)
        | Some (key, _) =>
            let want := calc_bucket key t in
            if (want <=? it) || (test <? want)
            then shift_to_end fuel test (test + 1) (put_node test None (put_node it node ns)) t
            else shift_to_end fuel it (test + 1) ns t
        end
  end.

(** The second loop: from the start of the array on, with indices that run
    past [bucket_count]. *)
Fixpoint shift_from_start (fuel : nat) (empty_i empty_bucket test_i : Z) ns t
  : outcome (list (option (K * V))) :=
  match fuel with
  | O => Crash
  | S fuel =>
      let test_bucket := uint32 (test_i - bucket_count_ t) in
      node ← node_at test_bucket ns;
      match node with
      | None => Ok ns
      | Some (key, _) =>
          let want_i := calc_bucket key t in
          let want_i := if want_i <? empty_i then uint32 (want_i + bucket_count_ t) else want_i in
          if (want_i <=? empty_i) || (test_i <? want_i)
          then shift_from_start fuel test_i test_bucket (uint32 (test_i + 1))
                 (put_node test_bucket None (put_node empty_bucket node ns)) t
          else shift_from_start fuel empty_i empty_bucket (uint32 (test_i + 1)) ns t
      end
  end.

Definition erase_node (it : Z) t : outcome (table K V) :=
  let ns := put_node it None (nodes_ t) in
  let t := set_used (used_node_count_ t - 1) t in
  r ← shift_to_end (S (table_fuel t)) it (it + 1) ns t;
  match r with
  | (ns, _, true) => Ok (set_nodes ns t)
  | (ns, it, false) =>
      ns ← shift_from_start (S (table_fuel t)) it it (bucket_count_ t) ns t;
      Ok (set_nodes ns t)
  end.

Definition try_shrink t : outcome (table K V) :=
  t ← (if (uint32 (used_node_count_ t * 10) <? bucket_count_mask_ t) && (7 <? bucket_count_mask_ t)
       then resize (normalize_flat_hash_table_size
                      (uint32 (uint32 (uint32 (used_node_count_ t + 1) * 5) / 3 + 1))) t
       else Ok t);
  Ok (invalidate_iterators t).

Definition erase (key : K) t : outcome (table K V * Z) :=
  node ← find_impl key t;
  match node with
  | None => Ok (t, 0)
  | Some it => t ← erase_node it t; t ← try_shrink t; Ok (t, 1)
  end.

Definition clear t : table K V := if bool_decide (nodes_ t = []) then t else drop_nodes.

Definition count (key : K) t : outcome Z :=
  node ← find_impl key t; Ok (match node with None => 0 | Some _ => 1 end).

Definition table_size t : Z := used_node_count_ t.

Definition table_empty t : bool := used_node_count_ t =? 0.

(** * Iteration *)

Section iteration.
Context {G : Type} `{RandomSource G}.

Definition begin_impl t (g : G) : outcome (option Z * table K V * G) :=
  if table_empty t then Ok (None, t, g)
  else if begin_bucket_ t =? INVALID_BUCKET then
    let '(bucket, g) := get_random_flat_hash_table_bucket (bucket_count_mask_ t) g in
    bucket ← probe (fun node => negb (is_empty node)) (table_fuel t) bucket t;
    Ok (Some bucket,
        mk_table (nodes_ t) (used_node_count_ t) (bucket_count_mask_ t) (bucket_count_ t) bucket, g)
  else Ok (Some (begin_bucket_ t), t, g).

(** [Iterator::operator++]: [None] is the end. *)
Fixpoint iterator_next (fuel : nat) (start it : Z) t : outcome (option Z) :=
  match fuel with
  | O => Crash
  | S fuel =>
      let it := it + 1 in
      let it := if it =? bucket_count_ t then 0 else it in
      if it =? start then Ok None
      else
        node ← node_at it (nodes_ t);
        if is_empty node then iterator_next fuel start it t else Ok (Some it)
  end.

(** [for (auto &node : table)]: the nodes in the order of the iteration. *)
Fixpoint iterate_from (fuel : nat) (start it : Z) t : outcome (list (K * V)) :=
  match fuel with
  | O => Crash
  | S fuel =>
      node ← node_at it (nodes_ t);
      match node with
      | None => Crash
      | Some entry =>
          next ← iterator_next (table_fuel t) start it t;
          match next with
          | None => Ok [entry]
          | Some it => rest ← iterate_from fuel start it t; Ok (entry :: rest)
          end
      end
  end.

Definition iterate t (g : G) : outcome (list (K * V) * table K V * G) :=
  r ← begin_impl t g;
  let '(start, t, g) := r in
  match start with
  | None => Ok ([], t, g)
  | Some start => entries ← iterate_from (table_fuel t) start start t; Ok (entries, t, g)
  end.

(** * [remove_if] *)

(** Both [while] loops: from [it] up to [stop]. An erased node is followed by
    the node that is shifted into its place. *)
Fixpoint remove_range (f : K * V -> bool) (fuel : nat) (it stop : Z) (is_removed : bool) t
  : outcome (table K V * bool) :=
  match fuel with
  | O => Crash
  | S fuel =>
      if it =? stop then Ok (t, is_removed)
      else
        node ← node_at it (nodes_ t);
        match node with
        | Some entry =>
            if f entry then t ← erase_node it t; remove_range f fuel it stop true t
            else remove_range f fuel (it + 1) stop is_removed t
        | None => remove_range f fuel (it + 1) stop is_removed t
        end
  end.

(** [while (it != end && !it->empty()) ++it]. *)
Fixpoint skip_full (fuel : nat) (it : Z) t : outcome Z :=
  match fuel with
  | O => Crash
  | S fuel =>
      if it =? bucket_count_ t then Ok it
      else node ← node_at it (nodes_ t); if is_empty node then Ok it else skip_full fuel (it + 1) t
  end.

(** [do { --it; } while (!it->empty())]. *)
Fixpoint back_to_empty (fuel : nat) (it : Z) t : outcome Z :=
  match fuel with
  | O => Crash
  | S fuel =>
      let it := it - 1 in
      if it <? 0 then Crash
      else node ← node_at it (nodes_ t); if is_empty node then Ok it else back_to_empty fuel it t
  end.

Definition remove_if (f : K * V -> bool) t (g : G) : outcome (table K V * bool * G) :=
  if table_empty t then Ok (t, false, g)
  else
    r ← begin_impl t g;
    let '(it, t, g) := r in
    let stop := bucket_count_ t in
    it ← skip_full (S (table_fuel t)) (default 0 it) t;
    first_empty ← (if it =? stop then back_to_empty (S (table_fuel t)) it t else Ok it);
    r ← remove_range f (2 * table_fuel t + 1) first_empty stop false t;
    let '(t, is_removed) := r in
    r ← remove_range f (2 * table_fuel t + 1) 0 first_empty is_removed t;
    let '(t, is_removed) := r in
    t ← try_shrink t;
    Ok (t, is_removed, g).
End iteration.
End table.
