(* ===== verification/FlatHashTableSpec.v ===== *)
(** [FlatHashTable] refines a finite map: every operation succeeds within the
    capacity of the table and does to the map that the table represents what
    its name says.  The core is the invariant of linear probing and that the
    shifting of [erase_node] preserves it. *)
From S2P Require Import Prelude Bytes Random FlatHashTable.
#[local] Open Scope Z_scope.

(** * Distances on the ring of buckets *)

(** The steps to the right from [a] to [b] on a ring of [n] buckets. *)
Definition dist (n a b : Z) : Z := if a <=? b then b - a else b - a + n.

Ltac dist_lia :=
  unfold dist in *;
  repeat match goal with
         | H : context [?a <=? ?b] |- _ => destruct (Z.leb_spec a b)
         | |- context [?a <=? ?b] => destruct (Z.leb_spec a b)
         end; lia.

Lemma dist_self n a : dist n a a = 0.
Proof. dist_lia. Qed.

Lemma dist_inj n a b c : 0 <= b < n -> 0 <= c < n -> dist n a b = dist n a c -> b = c.
Proof. intros. dist_lia. Qed.

(** * The array of nodes *)

Section nodes.
Context {K V : Type}.
Implicit Types ns : list (option (K * V)).

Definition occupant ns (i : Z) : option (K * V) := mjoin (ns !! Z.to_nat i).

Definition entries ns : list (K * V) := omap Datatypes.id ns.

Lemma node_at_range ns i : 0 <= i < len ns -> node_at i ns = Ok (occupant ns i).
Proof.
  intros Hi. unfold node_at, occupant.
  destruct (lookup_lt_is_Some_2 ns (Z.to_nat i)) as [x ->]; [|done]. unfold len in Hi. lia.
Qed.

Lemma len_put_node i node ns : len (put_node i node ns) = len ns.
Proof. unfold put_node, len. by rewrite length_insert. Qed.

Lemma occupant_put i node ns j :
  0 <= i < len ns -> 0 <= j ->
  occupant (put_node i node ns) j = if decide (i = j) then node else occupant ns j.
Proof.
  intros Hi Hj. unfold occupant, put_node. destruct (decide (i = j)) as [->|Hne].
  - rewrite list_lookup_insert_eq; [done|]. unfold len in Hi. lia.
  - rewrite list_lookup_insert_ne; [done|lia].
Qed.

Lemma occupant_replicate n i : occupant (replicate n None) i = None.
Proof.
  unfold occupant. destruct (replicate n None !! Z.to_nat i) eqn:E; [|done].
  by apply lookup_replicate in E as [-> _].
Qed.

Lemma entries_insert (i : nat) ns old node :
  ns !! i = Some old ->
  option_list old ++ entries (<[i := node]> ns) ≡ₚ option_list node ++ entries ns.
Proof.
  revert i. induction ns as [|x ns IH]; intros [|i]; cbn; [done..| |].
  - intros [= ->]. unfold entries. cbn. destruct old as [o|], node as [p|]; cbn; try done.
    apply Permutation_swap.
  - intros Hi. specialize (IH i Hi). unfold entries in *. cbn.
    destruct x as [x|]; cbn; [|done].
    rewrite <- !Permutation_middle. by constructor.
Qed.

Lemma entries_fill i x ns :
  0 <= i < len ns -> occupant ns i = None -> entries (put_node i (Some x) ns) ≡ₚ x :: entries ns.
Proof.
  intros Hi Hn. unfold put_node.
  destruct (lookup_lt_is_Some_2 ns (Z.to_nat i)) as [o Ho]; [unfold len in Hi; lia|].
  unfold occupant in Hn. rewrite Ho in Hn. cbn in Hn. subst o.
  by pose proof (entries_insert _ ns None (Some x) Ho).
Qed.

Lemma entries_clear i x ns :
  0 <= i < len ns -> occupant ns i = Some x -> x :: entries (put_node i None ns) ≡ₚ entries ns.
Proof.
  intros Hi Hn. unfold put_node.
  destruct (lookup_lt_is_Some_2 ns (Z.to_nat i)) as [o Ho]; [unfold len in Hi; lia|].
  unfold occupant in Hn. rewrite Ho in Hn. cbn in Hn. subst o.
  by pose proof (entries_insert _ ns (Some x) None Ho).
Qed.

Lemma entries_elem x ns : x ∈ entries ns <-> exists i, 0 <= i < len ns /\ occupant ns i = Some x.
Proof.
  unfold entries. rewrite list_elem_of_omap. unfold occupant. split.
  - intros (y & Hy & Hx). cbn in Hx. subst y. apply list_elem_of_lookup in Hy as [i Hi].
    exists (Z.of_nat i). rewrite Nat2Z.id, Hi. split; [|done].
    apply lookup_lt_Some in Hi. unfold len. lia.
  - intros (i & Hi & Hx). exists (Some x). split; [|done].
    destruct (ns !! Z.to_nat i) as [o|] eqn:E; [|done]. cbn in Hx. subst o.
    by apply list_elem_of_lookup_2 in E.
Qed.

Lemma entries_replicate n : entries (replicate n None) = [].
Proof. unfold entries. induction n as [|n IH]; cbn; [done|]. exact IH. Qed.

Lemma entries_length ns : len (entries ns) <= len ns.
Proof.
  unfold len, entries. induction ns as [|[x|] ns IH]; cbn; lia.
Qed.

(** Fewer entries than nodes: some node is empty. *)
Lemma empty_node ns : len (entries ns) < len ns -> exists z, 0 <= z < len ns /\ occupant ns z = None.
Proof.
  unfold occupant, entries, len. induction ns as [|[x|] ns IH]; cbn; intros Hl.
  - lia.
  - destruct IH as (z & Hz & Ho); [lia|]. exists (z + 1). split; [lia|].
    replace (Z.to_nat (z + 1)) with (S (Z.to_nat z)) by lia. done.
  - exists 0. split; [lia|done].
Qed.
End nodes.

(** * The ring of a table *)

Section ring.
Context {K V : Type} `{Countable K}.
Context (hash : K -> Z) (empty_key : K) (sizeof_node : Z).
Implicit Types (t : table K V) (ns : list (option (K * V))) (m : gmap K V).

#[local] Notation home := (calc_bucket hash).

(** An allocated table: a power of two of nodes, and the mask that goes with it. *)
Record geometry t : Prop := {
  geometry_size : exists k, 3 <= k <= 29 /\ bucket_count_ t = 2 ^ k;
  geometry_mask : bucket_count_mask_ t = bucket_count_ t - 1;
}.

Lemma geometry_range t : geometry t -> 8 <= bucket_count_ t <= 2 ^ 29.
Proof.
  intros [[k [Hk ->]] _]. split.
  - change 8 with (2 ^ 3). apply Z.pow_le_mono_r; lia.
  - apply Z.pow_le_mono_r; lia.
Qed.

Lemma land_mask t x : geometry t -> Z.land x (bucket_count_mask_ t) = x mod bucket_count_ t.
Proof.
  intros [[k [Hk Hn]] ->]. rewrite Hn.
  replace (2 ^ k - 1) with (Z.ones k) by (rewrite Z.ones_equiv; lia).
  by rewrite Z.land_ones by lia.
Qed.

Lemma home_range t key : geometry t -> 0 <= home key t < bucket_count_ t.
Proof.
  intros Hg. unfold calc_bucket. rewrite land_mask by done.
  pose proof (geometry_range t Hg). apply Z.mod_pos_bound. lia.
Qed.

Lemma next_bucket_eq t b :
  geometry t -> 0 <= b < bucket_count_ t ->
  next_bucket b t = if b + 1 =? bucket_count_ t then 0 else b + 1.
Proof.
  intros Hg Hb. pose proof (geometry_range t Hg). unfold next_bucket.
  rewrite land_mask by done. unfold uint32. rewrite (Z.mod_small _ (2 ^ 32)) by lia.
  destruct (Z.eqb_spec (b + 1) (bucket_count_ t)) as [->|].
  - apply Z.mod_same. lia.
  - apply Z.mod_small. lia.
Qed.

(** The loops that probe end at the first node where they stop, if there is
    such a node within the fuel. *)
Lemma probe_fuel stop t : geometry t -> len (nodes_ t) = bucket_count_ t ->
  forall fuel b e,
  0 <= b < bucket_count_ t -> 0 <= e < bucket_count_ t ->
  stop (occupant (nodes_ t) e) = true -> dist (bucket_count_ t) b e < Z.of_nat fuel ->
  exists r, probe stop fuel b t = Ok r /\ 0 <= r < bucket_count_ t /\
    stop (occupant (nodes_ t) r) = true /\
    forall p, 0 <= p < bucket_count_ t -> dist (bucket_count_ t) b p < dist (bucket_count_ t) b r ->
      stop (occupant (nodes_ t) p) = false.
Proof.
  intros Hg Hl. set (n := bucket_count_ t) in *.
  induction fuel as [|fuel IH]; intros b e Hb He Hs Hd.
  { exfalso. clear -Hb He Hd. dist_lia. }
  cbn [probe]. rewrite node_at_range by lia. rewrite Ok_bind.
  destruct (stop (occupant (nodes_ t) b)) eqn:Eb.
  - exists b. split_and!; try done; try lia. intros p Hp Hlt. exfalso. clear -Hb Hp Hlt. dist_lia.
  - assert (Hne : b <> e) by congruence.
    rewrite next_bucket_eq by done. fold n.
    assert (Hnext : exists b', (if b + 1 =? n then 0 else b + 1) = b' /\ 0 <= b' < n /\
      forall p, 0 <= p < n -> p <> b -> dist n b' p = dist n b p - 1).
    { eexists. split; [done|]. destruct (Z.eqb_spec (b + 1) n).
      - split; [lia|]. intros p Hp Hpb. clear -e0 Hp Hpb Hb. dist_lia.
      - split; [lia|]. intros p Hp Hpb. clear -n0 Hp Hpb Hb. dist_lia. }
    destruct Hnext as (b' & -> & Hb' & Hdist).
    destruct (IH b' e) as (r & Hr & Hrange & Hstop & Hbefore); [done..| |].
    { rewrite Hdist by (done || congruence). lia. }
    exists r. split_and!; try done; try lia.
    intros p Hp Hlt. destruct (decide (p = b)) as [->|Hpb]; [done|].
    assert (r <> b) by congruence.
    apply Hbefore; [done|]. rewrite !Hdist by (done || congruence). lia.
Qed.

Lemma probe_stops stop t b e :
  geometry t -> len (nodes_ t) = bucket_count_ t ->
  0 <= b < bucket_count_ t -> 0 <= e < bucket_count_ t -> stop (occupant (nodes_ t) e) = true ->
  exists r, probe stop (table_fuel t) b t = Ok r /\ 0 <= r < bucket_count_ t /\
    stop (occupant (nodes_ t) r) = true /\
    forall p, 0 <= p < bucket_count_ t -> dist (bucket_count_ t) b p < dist (bucket_count_ t) b r ->
      stop (occupant (nodes_ t) p) = false.
Proof.
  intros Hg Hl Hb He Hs. apply (probe_fuel stop t Hg Hl _ b e); try done.
  unfold table_fuel. unfold len in Hl. rewrite Hl. dist_lia.
Qed.

(** * What a table represents *)

(** Linear probing: between the bucket of a stored key and its node no node is
    empty. *)
Definition probes_ok ns t : Prop := forall i k v p,
  0 <= i < bucket_count_ t -> occupant ns i = Some (k, v) ->
  0 <= p < bucket_count_ t -> dist (bucket_count_ t) (home k t) p < dist (bucket_count_ t) (home k t) i ->
  occupant ns p <> None.

(** An allocated array that represents [m]. *)
Record layout t m : Prop := {
  layout_geometry : geometry t;
  layout_len : len (nodes_ t) = bucket_count_ t;
  layout_probes : probes_ok (nodes_ t) t;
  layout_entries : entries (nodes_ t) ≡ₚ map_to_list m;
  layout_key : m !! empty_key = None;
}.

Lemma entries_lookup t m k v :
  layout t m -> m !! k = Some v <->
  exists i, 0 <= i < bucket_count_ t /\ occupant (nodes_ t) i = Some (k, v).
Proof.
  intros [_ Hl _ He _]. rewrite <- Hl, <- entries_elem, He. by rewrite elem_of_map_to_list.
Qed.

Lemma layout_size t m : layout t m -> len (entries (nodes_ t)) = Z.of_nat (size m).
Proof.
  intros [_ _ _ He _]. unfold len. rewrite He, length_map_to_list. done.
Qed.

Lemma layout_empty_node t m :
  layout t m -> Z.of_nat (size m) < bucket_count_ t ->
  exists z, 0 <= z < bucket_count_ t /\ occupant (nodes_ t) z = None.
Proof.
  intros Hl Hs. destruct (empty_node (nodes_ t)) as (z & Hz & Ho).
  - rewrite (layout_size t m Hl), (layout_len t m Hl). done.
  - exists z. rewrite (layout_len t m Hl) in Hz. done.
Qed.

(** The node where the search for a key ends. *)
Lemma probe_key t m k :
  layout t m -> Z.of_nat (size m) < bucket_count_ t ->
  exists r, probe (empty_or k) (table_fuel t) (home k t) t = Ok r /\ 0 <= r < bucket_count_ t /\
    occupant (nodes_ t) r = (fun v => (k, v)) <$> m !! k /\
    forall p, 0 <= p < bucket_count_ t ->
      dist (bucket_count_ t) (home k t) p < dist (bucket_count_ t) (home k t) r ->
      occupant (nodes_ t) p <> None.
Proof.
  intros Hl Hs. pose proof Hl as [Hg Hlen Hp _ _].
  destruct (layout_empty_node t m Hl Hs) as (z & Hz & Ho).
  destruct (probe_stops (empty_or k) t (home k t) z) as (r & Hr & Hrange & Hstop & Hbefore);
    [done..|by apply home_range|done|by rewrite Ho|].
  exists r. split_and!; try done; try lia.
  - destruct (occupant (nodes_ t) r) as [[k' v]|] eqn:Er.
    + cbn in Hstop. to_prop. subst k'.
      assert (E : m !! k = Some v) by (apply (entries_lookup t m k v Hl); eauto). by rewrite E.
    + destruct (m !! k) as [v|] eqn:E; [|done]. exfalso.
      apply (entries_lookup t m k v Hl) in E as (i & Hi & Hoi).
      destruct (Z.lt_trichotomy (dist (bucket_count_ t) (home k t) i)
                  (dist (bucket_count_ t) (home k t) r)) as [Hlt|[Heq|Hgt]].
      * specialize (Hbefore i Hi Hlt). rewrite Hoi in Hbefore. cbn in Hbefore.
        by rewrite bool_decide_eq_true_2 in Hbefore.
      * apply dist_inj in Heq; [congruence|done|done].
      * by apply (Hp i k v r Hi Hoi Hrange Hgt).
  - intros p Hpr Hlt Hn. specialize (Hbefore p Hpr Hlt). by rewrite Hn in Hbefore.
Qed.

(** A node stored where its probing ends. *)
Lemma probes_ok_put ns t r k v :
  geometry t -> len ns = bucket_count_ t -> probes_ok ns t -> 0 <= r < bucket_count_ t ->
  occupant ns r = None ->
  (forall p, 0 <= p < bucket_count_ t ->
     dist (bucket_count_ t) (home k t) p < dist (bucket_count_ t) (home k t) r -> occupant ns p <> None) ->
  probes_ok (put_node r (Some (k, v)) ns) t.
Proof.
  intros Hg Hlen Hok Hr Hn Hpath i k' v' p Hi Ho Hp Hd.
  rewrite occupant_put by lia. rewrite occupant_put in Ho by lia.
  destruct (decide (r = p)) as [<-|Hne]; [done|].
  destruct (decide (r = i)) as [<-|Hri].
  - injection Ho as <- <-. by apply Hpath.
  - by apply (Hok i k' v' p).
Qed.

Lemma layout_insert t m r k v used first :
  layout t m -> 0 <= r < bucket_count_ t -> occupant (nodes_ t) r = None ->
  (forall p, 0 <= p < bucket_count_ t ->
     dist (bucket_count_ t) (home k t) p < dist (bucket_count_ t) (home k t) r ->
     occupant (nodes_ t) p <> None) ->
  m !! k = None -> k <> empty_key ->
  layout (mk_table (put_node r (Some (k, v)) (nodes_ t)) used (bucket_count_mask_ t)
            (bucket_count_ t) first) (<[k := v]> m).
Proof.
  intros [Hg Hl Hp He Hk] Hr Hn Hpath Hm Hne. split; cbn -[probes_ok entries put_node len].
  - destruct Hg. by split.
  - by rewrite len_put_node.
  - by apply (probes_ok_put (nodes_ t) t r k v).
  - rewrite entries_fill by (done || lia). by rewrite map_to_list_insert, He.
  - by rewrite lookup_insert_ne.
Qed.

(** * [resize] *)

(** The old nodes go to the new array one by one. *)
Lemma move_nodes_layout old : forall t m m',
  layout t m -> Z.of_nat (size m') < bucket_count_ t -> m' !! empty_key = None ->
  entries old ++ map_to_list m ≡ₚ map_to_list m' ->
  exists t', move_nodes hash old t = Ok t' /\ layout t' m' /\ used_node_count_ t' = used_node_count_ t /\
    bucket_count_ t' = bucket_count_ t /\ begin_bucket_ t' = begin_bucket_ t.
Proof.
  induction old as [|[[k v]|] old IH]; intros t m m' Hl Hs Hk He; cbn [move_nodes].
  - exists t. split_and!; try done. destruct Hl as [Hg Hlen Hp Hent _]. split; try done. by rewrite Hent.
  - change (entries (Some (k, v) :: old)) with ((k, v) :: entries old) in He.
    pose proof (NoDup_fst_map_to_list m') as Hnd. rewrite <- He in Hnd. cbn in Hnd.
    apply NoDup_cons in Hnd as [Hnin _]. rewrite fmap_app, elem_of_app in Hnin.
    assert (Hmk : m !! k = None).
    { destruct (m !! k) as [v'|] eqn:E; [|done]. exfalso. apply Hnin. right.
      apply list_elem_of_fmap. exists (k, v'). split; [done|]. by apply elem_of_map_to_list. }
    assert (Hk' : m' !! k = Some v).
    { apply elem_of_map_to_list. rewrite <- He. by left. }
    assert (Hsize : Z.of_nat (size m) < bucket_count_ t).
    { rewrite <- length_map_to_list in Hs |- *. rewrite <- He in Hs. cbn in Hs.
      rewrite length_app in Hs. lia. }
    destruct (layout_empty_node t m Hl Hsize) as (z & Hz & Ho). pose proof Hl as [Hg Hlen _ _ _].
    destruct (probe_stops is_empty t (home k t) z) as (r & -> & Hrange & Hstop & Hbefore);
      [done..|by apply home_range|done|by rewrite Ho|]. rewrite Ok_bind.
    destruct (IH (set_nodes (put_node r (Some (k, v)) (nodes_ t)) t) (<[k := v]> m) m')
      as (t' & Ht' & Hl' & Hu & Hb & Hbegin); cbn in *; try done.
    + apply layout_insert; try done.
      * by destruct (occupant (nodes_ t) r).
      * intros p Hp Hlt Hn. specialize (Hbefore p Hp Hlt). by rewrite Hn in Hbefore.
      * intros ->. congruence.
    + rewrite map_to_list_insert by done. rewrite <- He. by rewrite Permutation_middle.
    + exists t'. split_and!; done.
  - apply (IH t m m'); done.
Qed.

(** The load of a table: at most three fifths of the nodes, and one. *)
Definition room (size n : Z) : Prop := 5 * size <= 3 * (n - 1) + 4.

Definition begin_ok t : Prop :=
  begin_bucket_ t = INVALID_BUCKET \/
  0 <= begin_bucket_ t < bucket_count_ t /\ occupant (nodes_ t) (begin_bucket_ t) <> None.

(** The invariant of a table, with the map that it represents: nothing is
    allocated yet, or the nodes are laid out for probing. *)
Inductive table_ok : table K V -> gmap K V -> Prop :=
  | ok_null : table_ok drop_nodes ∅
  | ok_nodes t m :
      layout t m -> used_node_count_ t = Z.of_nat (size m) ->
      room (Z.of_nat (size m)) (bucket_count_ t) -> bucket_count_ t <= max_nodes sizeof_node ->
      begin_ok t -> table_ok t m.

Definition power_of_two_size (n : Z) : Prop := exists k, 3 <= k <= 29 /\ n = 2 ^ k.

Lemma normalize_size size :
  1 <= size < 2 ^ 29 ->
  let n := normalize_flat_hash_table_size size in
  power_of_two_size n /\ size < n /\ n <= Z.max 8 (2 * size).
Proof.
  intros Hs. unfold normalize_flat_hash_table_size, count_leading_zeroes32.
  pose proof (Z.log2_spec size ltac:(lia)) as [Hlo Hhi].
  assert (Hlog : 0 <= Z.log2 size <= 28).
  { split; [apply Z.log2_nonneg|]. apply Z.lt_succ_r, Z.log2_lt_pow2; lia. }
  replace (32 - (31 - Z.log2 size)) with (Z.succ (Z.log2 size)) by lia.
  rewrite Z.shiftl_1_l. unfold uint32.
  assert (Hpow : 2 ^ Z.succ (Z.log2 size) <= 2 ^ 29) by (apply Z.pow_le_mono_r; lia).
  assert (Hsucc : 2 ^ Z.succ (Z.log2 size) = 2 * 2 ^ Z.log2 size) by (apply Z.pow_succ_r; lia).
  rewrite Z.mod_small by lia. cbn zeta. split_and!; [|lia..].
  destruct (Z.max_spec (2 ^ Z.succ (Z.log2 size)) 8) as [[Hlt ->]|[Hge ->]].
  - exists 3. split; [lia|done].
  - exists (Z.succ (Z.log2 size)). split; [|done]. split; [|lia].
    destruct (Z.le_gt_cases 3 (Z.succ (Z.log2 size))) as [|Hlt]; [done|].
    assert (2 ^ Z.succ (Z.log2 size) <= 2 ^ 2) by (apply Z.pow_le_mono_r; lia). lia.
Qed.

Lemma allocate_nodes_ok n t :
  power_of_two_size n -> n <= max_nodes sizeof_node ->
  allocate_nodes sizeof_node n t =
    Ok (mk_table (replicate (Z.to_nat n) None) (used_node_count_ t) (n - 1) n INVALID_BUCKET) /\
  forall used, layout (mk_table (replicate (Z.to_nat n) None) used (n - 1) n INVALID_BUCKET) ∅.
Proof.
  intros [k [Hk ->]] Hmax.
  assert (Hr : 8 <= 2 ^ k <= 2 ^ 29).
  { split; [change 8 with (2 ^ 3)|]; apply Z.pow_le_mono_r; lia. }
  unfold allocate_nodes. rewrite (proj2 (Z.leb_le _ _) Hmax). unfold uint32.
  rewrite Z.mod_small by lia. split; [done|]. intros used. split; cbn -[entries replicate].
  - split; [by exists k | done].
  - unfold len. rewrite length_replicate. lia.
  - intros i k' v p _ Ho. by rewrite occupant_replicate in Ho.
  - by rewrite entries_replicate, map_to_list_empty.
  - apply lookup_empty.
Qed.

Lemma layout_nodes t m : layout t m -> nodes_ t <> [].
Proof.
  intros [Hg Hl _ _ _] Hn. rewrite Hn, len_nil in Hl. pose proof (geometry_range t Hg). lia.
Qed.

Lemma room_lt size n : room size n -> 8 <= n -> size < n.
Proof. unfold room. lia. Qed.

Lemma layout_room t m :
  layout t m -> room (Z.of_nat (size m)) (bucket_count_ t) -> Z.of_nat (size m) < bucket_count_ t.
Proof. intros [Hg _ _ _ _] Hr. pose proof (geometry_range t Hg). unfold room in Hr. lia. Qed.

(** [resize] keeps what the table represents. *)
Lemma resize_ok n t m :
  table_ok t m -> power_of_two_size n -> n <= max_nodes sizeof_node -> room (Z.of_nat (size m)) n ->
  exists t', resize hash sizeof_node n t = Ok t' /\ table_ok t' m /\ nodes_ t' <> [] /\
    bucket_count_ t' = n.
Proof.
  intros Hok Hn Hmax Hroom. destruct (allocate_nodes_ok n t Hn Hmax) as [Ha Hnew].
  assert (H8 : 8 <= n).
  { destruct Hn as [k [Hk ->]]. change 8 with (2 ^ 3). apply Z.pow_le_mono_r; lia. }
  unfold resize. rewrite Ha. cbn [mbind outcome_bind].
  destruct Hok as [|t m Hl Hu Hr Hb Hbegin].
  - rewrite bool_decide_eq_true_2 by done. eexists. split; [done|].
    assert (Hlay := Hnew 0). split_and!; [|by apply (layout_nodes _ ∅)|done].
    apply ok_nodes; try done. by left.
  - rewrite bool_decide_eq_false_2 by (by eapply layout_nodes).
    destruct (move_nodes_layout (nodes_ t) _ ∅ m (Hnew (used_node_count_ t)))
      as (t' & Ht' & Hl' & Hu' & Hb' & Hbegin'); cbn in *.
    + by apply room_lt.
    + by destruct Hl.
    + rewrite map_to_list_empty, app_nil_r. by destruct Hl.
    + exists t'. split_and!; [done| |by eapply layout_nodes|done].
      apply ok_nodes; try done; [by rewrite Hu'|by rewrite Hb'|by rewrite Hb'|by left].
Qed.

(** * Looking up and inserting *)

Lemma find_ok k t m :
  table_ok t m ->
  exists r, find_impl hash empty_key k t = Ok r /\
    match m !! k with
    | Some v => exists i, r = Some i /\ 0 <= i < bucket_count_ t /\ occupant (nodes_ t) i = Some (k, v)
    | None => r = None
    end.
Proof.
  intros Hok. unfold find_impl. destruct Hok as [|t m Hl Hu Hr Hb _].
  - exists None. by rewrite lookup_empty.
  - rewrite bool_decide_eq_false_2 by (by eapply layout_nodes). cbn [orb].
    destruct (bool_decide_reflect (k = empty_key)) as [->|Hk].
    + exists None. by rewrite (layout_key t m Hl).
    + destruct (probe_key t m k Hl) as (r & -> & Hrange & Ho & _); [by apply layout_room|].
      rewrite Ok_bind, node_at_range by (by rewrite (layout_len t m Hl)).
      rewrite Ok_bind, Ho. eexists. split; [done|].
      destruct (m !! k) as [v|]; cbn; [|done]. by exists r.
Qed.

(** One pass of [emplace] over an allocated table. *)
Lemma emplace_pass_ok k v t m :
  table_ok t m -> nodes_ t <> [] -> k <> empty_key ->
  if bool_decide (m !! k = None) && (3 * (bucket_count_ t - 1) <=? 5 * Z.of_nat (size m))
  then emplace_pass hash k v t = Ok None
  else exists t' b, emplace_pass hash k v t = Ok (Some (t', b, bool_decide (m !! k = None))) /\
    let m' := <[k := default v (m !! k)]> m in
    table_ok t' m' /\ bucket_count_ t' = bucket_count_ t /\ 0 <= b < bucket_count_ t /\
    occupant (nodes_ t') b = Some (k, default v (m !! k)).
Proof.
  intros Hok Hne Hk. destruct Hok as [|t m Hl Hu Hr Hb Hbegin]; [done|].
  pose proof Hl as [Hg Hlen _ _ _]. pose proof (geometry_range t Hg) as Hrange.
  destruct (probe_key t m k Hl) as (r & Hr1 & Hr2 & Ho & Hpath); [by apply layout_room|].
  unfold emplace_pass. rewrite Hr1, Ok_bind, node_at_range by lia. rewrite Ok_bind, Ho.
  destruct (m !! k) as [w|] eqn:E; cbn -[uint32].
  - exists t, r. rewrite insert_id by done. split; [done|]. split_and!; try done; try lia.
    by apply ok_nodes.
  - rewrite Hu, (geometry_mask t Hg). unfold room in Hr. unfold uint32.
    rewrite !Z.mod_small by lia.
    destruct (Z.leb_spec (3 * (bucket_count_ t - 1)) (5 * Z.of_nat (size m)));
      destruct (Z.leb_spec ((bucket_count_ t - 1) * 3) (Z.of_nat (size m) * 5)); try lia; [done|].
    eexists _, r. split; [done|]. cbn.
    rewrite occupant_put, decide_True by (done || lia). split_and!; try done; try lia.
    apply ok_nodes.
    + apply (layout_insert t m r k v); done.
    + cbn -[uint32]. rewrite map_size_insert_None by done. unfold uint32. rewrite Z.mod_small by lia. lia.
    + cbn. rewrite map_size_insert_None by done. unfold room. lia.
    + done.
    + by left.
Qed.

(** The capacity that a table of [size] entries may need. *)
Definition fits (size : Z) : Prop := 8 <= max_nodes sizeof_node /\ 10 * size + 6 <= 3 * max_nodes sizeof_node.

Lemma doubled_size n : power_of_two_size n -> 2 * n <= 2 ^ 29 -> power_of_two_size (2 * n).
Proof.
  intros [k [Hk ->]] Hle. exists (Z.succ k).
  rewrite Z.pow_succ_r by lia. split; [|done]. split; [lia|].
  apply Z.lt_succ_r, (Z.pow_lt_mono_r_iff 2); try lia.
  rewrite (Z.pow_succ_r 2 29) by lia. rewrite Z.pow_succ_r by lia. lia.
Qed.

Lemma power_of_two_8 : power_of_two_size 8.
Proof. exists 3. split; [lia|done]. Qed.

Lemma allocate_ok t m :
  table_ok t m -> fits (Z.of_nat (size m)) ->
  exists t', (if bucket_count_mask_ t =? 0 then
                _ ← check (used_node_count_ t =? 0); resize hash sizeof_node 8 t
              else Ok t) = Ok t' /\ table_ok t' m /\ nodes_ t' <> [].
Proof.
  intros Hok [H8 _]. pose proof Hok as Hok'. destruct Hok' as [|t m Hl Hu Hr Hb Hbegin].
  - cbn -[resize]. destruct (resize_ok 8 drop_nodes ∅ Hok power_of_two_8 H8) as (t' & -> & Ht' & Hne & _).
    { unfold room. by rewrite map_size_empty. }
    by exists t'.
  - pose proof Hl as [Hg _ _ _ _]. pose proof (geometry_range t Hg).
    rewrite (geometry_mask t Hg), (proj2 (Z.eqb_neq _ _)) by lia.
    exists t. split_and!; [done..|by eapply layout_nodes].
Qed.

Lemma emplace_ok k v t m :
  table_ok t m -> k <> empty_key -> fits (Z.of_nat (size m)) ->
  exists t' b, emplace hash empty_key sizeof_node k v t = Ok (t', b, bool_decide (m !! k = None)) /\
    table_ok t' (<[k := default v (m !! k)]> m) /\ occupant (nodes_ t') b = Some (k, default v (m !! k)).
Proof.
  intros Hok Hk Hfit. unfold emplace. rewrite bool_decide_eq_false_2 by done. cbn [negb check].
  rewrite Ok_bind. destruct (allocate_ok t m Hok Hfit) as (t1 & -> & Hok1 & Hne). rewrite Ok_bind.
  pose proof (emplace_pass_ok k v t1 m Hok1 Hne Hk) as Hpass.
  destruct (bool_decide (m !! k = None) && _) eqn:Efull.
  - rewrite Hpass, Ok_bind. apply andb_prop in Efull as [Enone Efull]. to_prop.
    pose proof Hok1 as Hok1'. destruct Hok1' as [|t1 m Hl Hu Hr Hb Hbegin]; [done|].
    pose proof Hl as [Hg _ _ _ _]. pose proof (geometry_range t1 Hg) as Hrange.
    unfold fits, room, max_nodes in *.
    assert (H2 : uint32 (2 * bucket_count_ t1) = 2 * bucket_count_ t1).
    { unfold uint32. apply Z.mod_small. lia. }
    rewrite H2.
    destruct (resize_ok (2 * bucket_count_ t1) t1 m Hok1) as (t2 & -> & Hok2 & Hne2 & Hb2).
    { apply doubled_size; [by destruct Hg|]. unfold max_nodes in *. lia. }
    { unfold max_nodes in *. lia. }
    { unfold room. lia. }
    rewrite Ok_bind. pose proof Hok2 as Hok2'. destruct Hok2' as [|t2 m Hl2 Hu2 Hr2 Hbb _]; [done|].
    rewrite Hu2, (geometry_mask t2) by (by destruct Hl2). rewrite Hb2. unfold uint32.
    rewrite !Z.mod_small by lia. rewrite (proj2 (Z.ltb_lt _ _)) by lia. cbn [check]. rewrite Ok_bind.
    pose proof (emplace_pass_ok k v t2 m Hok2 Hne2 Hk) as Hpass2. rewrite Hb2 in Hpass2.
    rewrite (proj2 (Z.leb_gt _ _)), andb_false_r in Hpass2 by lia.
    destruct Hpass2 as (t' & b & -> & Hok' & _ & _ & Hocc). rewrite Ok_bind. eauto.
  - destruct Hpass as (t' & b & -> & Hok' & _ & _ & Hocc). rewrite Ok_bind. eauto.
Qed.

Lemma reserve_ok size' t m :
  table_ok t m -> 0 <= size' < 2 ^ 27 -> 2 * (2 * size' + 1) <= max_nodes sizeof_node ->
  8 <= max_nodes sizeof_node ->
  exists t', reserve hash sizeof_node size' t = Ok t' /\ table_ok t' m /\
    (size' <> 0 -> Z.max (size' + 1) (bucket_count_ t) <= bucket_count_ t').
Proof.
  intros Hok Hs Hmax H8. unfold reserve.
  destruct (Z.eqb_spec size' 0) as [->|Hne]; [by exists t|].
  rewrite (proj2 (Z.leb_le _ _)) by lia. cbn [check]. rewrite Ok_bind.
  unfold uint32. rewrite (Z.mod_small (size' * 5)) by lia.
  assert (Hq : size' <= size' * 5 / 3 <= 2 * size') by div_mod_lia.
  rewrite (Z.mod_small (_ + 1)) by lia.
  pose proof (normalize_size (size' * 5 / 3 + 1) ltac:(lia)) as (Hp & Hlt & Hle).
  destruct (Z.ltb_spec (bucket_count_ t) (normalize_flat_hash_table_size (size' * 5 / 3 + 1))) as [Hb|Hb].
  - destruct (resize_ok _ t m Hok Hp) as (t' & -> & Hok' & _ & Hb').
    + lia.
    + destruct Hok as [|t m Hl Hu Hr _ _]; unfold room in *; [rewrite map_size_empty|]; lia.
    + exists t'. split_and!; [done..|]. intros _. lia.
  - exists t. split_and!; [done..|]. intros _. lia.
Qed.

(** * Erasing a node *)

(** The state of [erase_node] while it shifts: the hole [e], and the [d - 1]
    nodes behind it that stay where they are.  The path of any other node is
    complete or misses exactly the hole. *)
Record shifting t (l : list (K * V)) ns (e d : Z) : Prop := {
  shifting_len : len ns = bucket_count_ t;
  shifting_hole : occupant ns e = None;
  shifting_tested : forall p, 0 <= p < bucket_count_ t -> 0 < dist (bucket_count_ t) e p < d -> occupant ns p <> None;
  shifting_probes : forall i k v p,
    0 <= i < bucket_count_ t -> occupant ns i = Some (k, v) -> 0 <= p < bucket_count_ t ->
    dist (bucket_count_ t) (home k t) p < dist (bucket_count_ t) (home k t) i ->
    occupant ns p = None -> p = e /\ d <= dist (bucket_count_ t) e i;
  shifting_entries : entries ns ≡ₚ l;
}.

Section step.
Context (t : table K V) (l : list (K * V)) (ns : list (option (K * V))) (e d b : Z).
Context (Hgeo : geometry t) (He : 0 <= e < bucket_count_ t) (Hb : 0 <= b < bucket_count_ t).
Context (Hd : 1 <= d) (Hdist : dist (bucket_count_ t) e b = d) (Hs : shifting t l ns e d).

Notation n := (bucket_count_ t).

(** An empty node ends the shifting. *)
Lemma shifting_ends : occupant ns b = None -> probes_ok ns t.
Proof.
  intros Hnb i k v p Hi Ho Hp Hlt Hn.
  pose proof (home_range t k Hgeo) as Hh.
  destruct (shifting_probes _ _ _ _ _ Hs i k v p Hi Ho Hp Hlt Hn) as [-> Hdi].
  assert (Hib : i <> b) by congruence.
  destruct (shifting_probes _ _ _ _ _ Hs i k v b Hi Ho Hb) as [-> _].
  - clear -Hlt Hdi Hib Hi He Hb Hh Hdist. dist_lia.
  - done.
  - clear -Hdist Hd. rewrite dist_self in Hdist. lia.
Qed.

Lemma shifting_stay k v :
  occupant ns b = Some (k, v) -> 0 < dist n e (home k t) <= d -> shifting t l ns e (d + 1).
Proof.
  intros Ho Hst. pose proof (home_range t k Hgeo) as Hh. destruct Hs as [Hl Hn Ht Hp Hent].
  split; try done.
  - intros p Hpr Hpd. destruct (decide (p = b)) as [->|Hne]; [congruence|].
    apply Ht; [done|]. clear -Hpd Hne Hpr Hb Hdist He. dist_lia.
  - intros i k' v' p Hi Hoi Hpr Hlt Hnp. destruct (Hp i k' v' p Hi Hoi Hpr Hlt Hnp) as [-> Hle].
    split; [done|]. destruct (decide (i = b)) as [->|Hne].
    + rewrite Ho in Hoi. injection Hoi as <- <-. exfalso.
      clear -Hst Hlt Hh Hb He Hdist. dist_lia.
    + clear -Hle Hne Hi Hb Hdist He. dist_lia.
Qed.

Lemma shifting_move k v :
  occupant ns b = Some (k, v) -> ~ 0 < dist n e (home k t) <= d ->
  shifting t l (put_node b None (put_node e (Some (k, v)) ns)) b 1.
Proof.
  intros Ho Hmv. pose proof (home_range t k Hgeo) as Hh. destruct Hs as [Hl Hn Ht Hp Hent].
  assert (Heb : e <> b) by (intros ->; rewrite dist_self in Hdist; lia).
  assert (Hocc : forall p, 0 <= p < n -> occupant (put_node b None (put_node e (Some (k, v)) ns)) p =
            if decide (b = p) then None else if decide (e = p) then Some (k, v) else occupant ns p).
  { intros p Hpr. rewrite !occupant_put by (rewrite ?len_put_node; lia). done. }
  split.
  - by rewrite !len_put_node.
  - rewrite Hocc by done. by rewrite decide_True.
  - intros p Hpr Hpd. exfalso. clear -Hpd. lia.
  - intros i k' v' p Hi Hoi Hpr Hlt Hnp. rewrite Hocc in Hoi, Hnp by done.
    destruct (decide (b = i)) as [<-|Hbi]; [done|].
    assert (Hpb : p = b).
    { destruct (decide (b = p)) as [<-|Hbp]; [done|].
      destruct (decide (e = p)) as [<-|Hep]; [done|]. exfalso.
      destruct (decide (e = i)) as [<-|Hei].
      - injection Hoi as <- <-. apply (Hp b k v p Hb Ho Hpr) in Hnp as [-> _]; [done|].
        clear -Hlt Hmv Hh He Hb Hdist Hpr. dist_lia.
      - apply (Hp i k' v' p Hi Hoi Hpr) in Hnp as [-> _]; done. }
    split; [done|]. clear -Hbi Hi Hb. dist_lia.
  - rewrite <- Hent.
    assert (Hob : occupant (put_node e (Some (k, v)) ns) b = Some (k, v)).
    { rewrite occupant_put by lia. by rewrite decide_False. }
    apply (Permutation_cons_inv (a := (k, v))).
    rewrite (entries_clear b (k, v)) by (rewrite ?len_put_node; (done || lia)).
    by rewrite entries_fill by (done || lia).
Qed.
End step.

(** What the shifting leaves alone: every node from the empty node [z] on,
    seen from the node that is erased. *)
Definition untouched t (e0 z : Z) ns0 ns : Prop := forall p,
  0 <= p < bucket_count_ t -> dist (bucket_count_ t) e0 z <= dist (bucket_count_ t) e0 p ->
  occupant ns p = occupant ns0 p.

Record erased t (l : list (K * V)) (e0 z : Z) ns0 ns : Prop := {
  erased_len : len ns = bucket_count_ t;
  erased_probes : probes_ok ns t;
  erased_entries : entries ns ≡ₚ l;
  erased_untouched : untouched t e0 z ns0 ns;
}.

Lemma untouched_move t e0 z ns0 ns e b node :
  len ns = bucket_count_ t -> 0 <= e < bucket_count_ t -> 0 <= b < bucket_count_ t ->
  dist (bucket_count_ t) e0 e < dist (bucket_count_ t) e0 z ->
  dist (bucket_count_ t) e0 b < dist (bucket_count_ t) e0 z ->
  untouched t e0 z ns0 ns -> untouched t e0 z ns0 (put_node b None (put_node e node ns)).
Proof.
  intros Hl He Hb Hde Hdb Hu p Hp Hd. rewrite !occupant_put by (rewrite ?len_put_node; lia).
  destruct (decide (b = p)) as [->|]; [lia|]. destruct (decide (e = p)) as [->|]; [lia|]. by apply Hu.
Qed.

Section shifting_loops.
Context (t : table K V) (l : list (K * V)) (e0 z : Z) (ns0 : list (option (K * V))).
Context (Hgeo : geometry t) (He0 : 0 <= e0 < bucket_count_ t) (Hz : 0 <= z < bucket_count_ t).
Context (Hze : z <> e0).

Notation n := (bucket_count_ t).

Lemma shift_to_end_ok fuel : forall it test ns,
  e0 <= it < test -> test <= n -> shifting t l ns it (test - it) -> occupant ns z = None -> z <> it ->
  (e0 < z -> test <= z) -> untouched t e0 z ns0 ns -> n - test < Z.of_nat fuel ->
  exists ns' it' b, shift_to_end hash fuel it test ns t = Ok (ns', it', b) /\
    if b then erased t l e0 z ns0 ns'
    else e0 <= it' < n /\ z < e0 /\ shifting t l ns' it' (n - it') /\ occupant ns' z = None /\
         untouched t e0 z ns0 ns'.
Proof.
  induction fuel as [|fuel IH]; intros it test ns Hit Htest Hs Hoz Hzi Hez Hun Hf; [lia|].
  cbn [shift_to_end]. pose proof Hs as [Hl _ Ht _ Hent].
  destruct (Z.eqb_spec test n) as [->|Hne].
  { exists ns, it, false. split; [done|]. split_and!; try done; try lia. }
  rewrite node_at_range by lia. rewrite Ok_bind.
  assert (Hd : dist n it test = test - it) by (clear -Hit; dist_lia).
  destruct (occupant ns test) as [[k v]|] eqn:Eo.
  - assert (Htz : test <> z) by congruence.
    destruct ((calc_bucket hash k t <=? it) || (test <? calc_bucket hash k t)) eqn:Ew.
    + apply IH; try done; try lia.
      * replace (test + 1 - test) with 1 by lia.
        apply (shifting_move t l ns it (test - it) test) ; try done; try lia.
        pose proof (home_range t k Hgeo) as Hh. clear -Ew Hh Hit Hne Htest He0. to_prop. dist_lia.
      * rewrite !occupant_put by (rewrite ?len_put_node; lia).
        by rewrite !decide_False by congruence.
      * apply untouched_move; try done; try lia; clear -Hit Htest Hne Hez Hz Hze Htz He0; dist_lia.
    + apply IH; try done; try lia.
      replace (test + 1 - it) with (test - it + 1) by lia.
      apply (shifting_stay t l ns it (test - it) test Hgeo) with k v; try done; try lia.
      clear -Ew Hit. to_prop. dist_lia.
  - exists ns, it, true. split; [done|]. split; try done.
    by apply (shifting_ends t l ns it (test - it) test); try lia.
Qed.

Lemma shift_from_start_ok fuel : forall empty_i e test_i ns,
  z < e0 -> 0 <= e < n -> n <= test_i <= n + z ->
  (empty_i = e /\ e0 <= e \/ empty_i = e + n /\ e < test_i - n) ->
  shifting t l ns e (test_i - empty_i) -> occupant ns z = None -> z <> e ->
  untouched t e0 z ns0 ns -> n + z - test_i < Z.of_nat fuel ->
  exists ns', shift_from_start hash fuel empty_i e test_i ns t = Ok ns' /\ erased t l e0 z ns0 ns'.
Proof.
  pose proof (geometry_range t Hgeo) as Hn.
  induction fuel as [|fuel IH]; intros empty_i e test_i ns Hze0 He Htest Hcase Hs Hoz Hzi Hun Hf; [lia|].
  cbn [shift_from_start]. unfold uint32. pose proof Hs as [Hl _ Ht _ Hent].
  rewrite (Z.mod_small (test_i - n)) by lia. set (b := test_i - n) in *.
  rewrite node_at_range by lia. rewrite Ok_bind.
  assert (Hd : dist n e b = test_i - empty_i) by (clear -Hcase He Htest Hze0 Hz; dist_lia).
  destruct (occupant ns b) as [[k v]|] eqn:Eo.
  - assert (Hbz : b <> z) by congruence. pose proof (home_range t k Hgeo) as Hh.
    rewrite (Z.mod_small (calc_bucket hash k t + n)) by lia.
    rewrite (Z.mod_small (test_i + 1)) by lia.
    set (want := if calc_bucket hash k t <? empty_i then calc_bucket hash k t + n else calc_bucket hash k t).
    assert (Hwant : (want <=? empty_i) || (test_i <? want) = false <->
                    0 < dist n e (calc_bucket hash k t) <= test_i - empty_i).
    { subst want b. rewrite orb_false_iff, Z.leb_gt, Z.ltb_ge.
      clear -Hcase He Htest Hze0 Hh Hz. destruct (Z.ltb_spec (calc_bucket hash k t) empty_i); dist_lia. }
    destruct ((want <=? empty_i) || (test_i <? want)) eqn:Ew.
    + apply IH; try done; try lia.
      * replace (test_i + 1 - test_i) with 1 by lia.
        assert (Hst : ~ 0 < dist n e (calc_bucket hash k t) <= test_i - empty_i) by (intros Hst; by apply Hwant in Hst).
        apply (shifting_move t l ns e (test_i - empty_i) b); try done; try lia.
      * rewrite !occupant_put by (rewrite ?len_put_node; lia).
        by rewrite !decide_False by congruence.
      * apply untouched_move; try done; try lia; clear -Hcase He Htest Hze0 He0 Hbz Hz; subst b; dist_lia.
    + apply IH; try done; try lia.
      replace (test_i + 1 - empty_i) with (test_i - empty_i + 1) by lia.
      assert (Hst : 0 < dist n e (calc_bucket hash k t) <= test_i - empty_i) by (by apply Hwant).
      apply (shifting_stay t l ns e (test_i - empty_i) b Hgeo) with k v; try done; lia.
  - exists ns. split; [done|]. split; try done.
    by apply (shifting_ends t l ns e (test_i - empty_i) b); try lia.
Qed.
End shifting_loops.

Lemma shifting_start t m it k v :
  layout t m -> 0 <= it < bucket_count_ t -> occupant (nodes_ t) it = Some (k, v) ->
  shifting t (map_to_list (delete k m)) (put_node it None (nodes_ t)) it 1.
Proof.
  intros Hlay Hit Ho. pose proof Hlay as [Hg Hl Hp He _].
  split.
  - by rewrite len_put_node.
  - rewrite occupant_put by lia. by rewrite decide_True.
  - intros p _ Hd. exfalso. lia.
  - intros i k' v' p Hi Hoi Hpr Hlt Hnp. rewrite occupant_put in Hoi, Hnp by lia.
    destruct (decide (it = i)) as [<-|Hne]; [done|]. split.
    + destruct (decide (it = p)) as [<-|Hnp']; [done|]. exfalso. by apply (Hp i k' v' p).
    + clear -Hne Hi Hit. dist_lia.
  - assert (Hmk : m !! k = Some v) by (apply (entries_lookup t m k v Hlay); eauto).
    apply (Permutation_cons_inv (a := (k, v))).
    rewrite (entries_clear it (k, v)) by (done || lia). by rewrite map_to_list_delete.
Qed.

(** [erase_node] removes the entry of its node, and nothing from the empty
    node [z] on changes its place. *)
Lemma erase_node_ok t m it k v z :
  layout t m -> used_node_count_ t = Z.of_nat (size m) -> 0 <= it < bucket_count_ t ->
  occupant (nodes_ t) it = Some (k, v) -> 0 <= z < bucket_count_ t -> occupant (nodes_ t) z = None ->
  exists t', erase_node hash it t = Ok t' /\ layout t' (delete k m) /\
    used_node_count_ t' = Z.of_nat (size (delete k m)) /\ bucket_count_ t' = bucket_count_ t /\
    m !! k = Some v /\ untouched t it z (nodes_ t) (nodes_ t').
Proof.
  intros Hlay Hu Hit Ho Hz Hoz. pose proof Hlay as [Hg Hl Hp He Hk].
  pose proof (geometry_range t Hg) as Hn.
  assert (Hmk : m !! k = Some v) by (apply (entries_lookup t m k v Hlay); eauto).
  assert (Hsize : Z.of_nat (size (delete k m)) = Z.of_nat (size m) - 1).
  { rewrite map_size_delete_Some by eauto. assert (size m <> O); [|lia].
    intros E%map_size_empty_inv. subst m. by rewrite lookup_empty in Hmk. }
  assert (Hfit : Z.of_nat (size m) <= bucket_count_ t).
  { rewrite <- (layout_size t m Hlay), <- Hl.
    apply entries_length. }
  unfold erase_node. set (t1 := set_used (used_node_count_ t - 1) t).
  assert (Hg1 : geometry t1) by (destruct Hg; by split).
  assert (Hbc : bucket_count_ t1 = bucket_count_ t) by done.
  assert (Hfuel : Z.of_nat (table_fuel t1) = bucket_count_ t) by done.
  assert (Hu1 : used_node_count_ t1 = Z.of_nat (size (delete k m))).
  { subst t1. cbn -[uint32]. rewrite Hu, Hsize. unfold uint32. apply Z.mod_small. lia. }
  set (ns1 := put_node it None (nodes_ t)).
  assert (Hzi : z <> it) by congruence.
  assert (Hs1 : shifting t1 (map_to_list (delete k m)) ns1 it 1) by (destruct (shifting_start t m it k v Hlay Hit Ho); by split).
  assert (Hoz1 : occupant ns1 z = None).
  { subst ns1. rewrite occupant_put by lia. by rewrite decide_False. }
  assert (Hun1 : untouched t1 it z (nodes_ t) ns1).
  { intros p Hpr Hd. subst ns1. rewrite occupant_put by lia.
    destruct (decide (it = p)) as [<-|]; [|done]. exfalso. cbn in Hd.
    clear -Hd Hzi Hz Hit. rewrite dist_self in Hd. dist_lia. }
  assert (Hdone : forall ns', erased t1 (map_to_list (delete k m)) it z (nodes_ t) ns' ->
    exists t', Ok (set_nodes ns' t1) = Ok t' /\ layout t' (delete k m) /\
      used_node_count_ t' = Z.of_nat (size (delete k m)) /\ bucket_count_ t' = bucket_count_ t /\
      m !! k = Some v /\ untouched t it z (nodes_ t) (nodes_ t')).
  { intros ns' [Hl' Hp' He' Hu']. eexists. split; [done|]. split_and!; try done.
    split; try done. - by destruct Hg1; split. - apply lookup_delete_None. by right. }
  destruct (shift_to_end_ok t1 (map_to_list (delete k m)) it z (nodes_ t) Hg1 Hit Hz Hzi
              (S (table_fuel t1)) it (it + 1) ns1) as (ns' & it' & b & -> & Hb); try done; try lia.
  { by replace (it + 1 - it) with 1 by lia. }
  rewrite Ok_bind. destruct b; [by apply Hdone|].
  destruct Hb as (Hit' & Hze & Hs' & Hoz' & Hun').
  destruct (shift_from_start_ok t1 (map_to_list (delete k m)) it z (nodes_ t) Hg1 Hit Hz Hzi
              (S (table_fuel t1)) it' it' (bucket_count_ t1) ns') as (ns2 & -> & Her); try done; try lia.
  rewrite Ok_bind. by apply Hdone.
Qed.

(** * Shrinking, [erase] *)

Lemma shrunk_size used mask :
  0 <= used -> used * 10 < mask -> 7 < mask < 2 ^ 29 ->
  let s := (used + 1) * 5 / 3 + 1 in
  1 <= s < 2 ^ 29 /\ Z.max 8 (2 * s) <= mask + 1 /\ forall n, s < n -> room used n.
Proof. intros Hu Hm Hr s. unfold room, s. split_and!; [div_mod_lia..|]. intros n Hn. div_mod_lia. Qed.

Lemma room_le a b n : a <= b -> room b n -> room a n.
Proof. unfold room. lia. Qed.

Lemma invalidate_ok t m :
  layout t m -> used_node_count_ t = Z.of_nat (size m) ->
  room (Z.of_nat (size m)) (bucket_count_ t) -> bucket_count_ t <= max_nodes sizeof_node ->
  table_ok (invalidate_iterators t) m.
Proof.
  intros Hl Hu Hr Hb. apply ok_nodes; try done; [|by left].
  destruct Hl as [[? ?] ? ? ? ?]. by split.
Qed.

Lemma try_shrink_ok t m :
  layout t m -> used_node_count_ t = Z.of_nat (size m) ->
  room (Z.of_nat (size m)) (bucket_count_ t) -> bucket_count_ t <= max_nodes sizeof_node ->
  exists t', try_shrink hash sizeof_node t = Ok t' /\ table_ok t' m.
Proof.
  intros Hl Hu Hr Hb. pose proof (invalidate_ok t m Hl Hu Hr Hb) as Hinv.
  pose proof (layout_geometry t m Hl) as Hg. pose proof (geometry_range t Hg) as Hn.
  unfold try_shrink. rewrite Hu, (geometry_mask t Hg). unfold uint32.
  assert (Hsmall : Z.of_nat (size m) * 10 < 2 ^ 32) by (unfold room in Hr; lia).
  rewrite (Z.mod_small (_ * 10)) by lia.
  destruct (_ && _) eqn:E; [|by eexists]. to_prop.
  destruct (shrunk_size (Z.of_nat (size m)) (bucket_count_ t - 1)) as (Hs & Hmax & Hroom); try lia.
  rewrite (Z.mod_small (Z.of_nat (size m) + 1)) by lia. rewrite (Z.mod_small (_ * 5)) by lia.
  rewrite (Z.mod_small (_ / 3 + 1)) by lia.
  pose proof (normalize_size _ Hs) as (Hp & Hlt & Hle).
  destruct (resize_ok _ (invalidate_iterators t) m Hinv Hp) as (t' & Ht' & Hok' & Hne & Hb').
  { lia. } { by apply Hroom. }
  assert (Hres : resize hash sizeof_node (normalize_flat_hash_table_size ((Z.of_nat (size m) + 1) * 5 / 3 + 1)) t
               = resize hash sizeof_node (normalize_flat_hash_table_size ((Z.of_nat (size m) + 1) * 5 / 3 + 1))
                   (invalidate_iterators t)) by reflexivity.
  rewrite Hres, Ht', Ok_bind. eexists. split; [done|].
  destruct Hok' as [|t' m Hl' Hu' Hr' Hbb' _]; [done|]. by apply invalidate_ok.
Qed.

Lemma erase_ok k t m :
  table_ok t m ->
  exists t', erase hash empty_key sizeof_node k t =
               Ok (t', if bool_decide (m !! k = None) then 0 else 1) /\ table_ok t' (delete k m).
Proof.
  intros Hok. unfold erase. destruct (find_ok k t m Hok) as (r & -> & Hr). rewrite Ok_bind.
  destruct (m !! k) as [v|] eqn:E.
  - destruct Hr as (i & -> & Hi & Ho). destruct Hok as [|t m Hl Hu Hroom Hb _]; [by rewrite lookup_empty in E|].
    destruct (layout_empty_node t m Hl) as (z & Hz & Hoz); [by apply layout_room|].
    destruct (erase_node_ok t m i k v z Hl Hu Hi Ho Hz Hoz) as (t1 & -> & Hl1 & Hu1 & Hb1 & _ & _).
    rewrite Ok_bind. destruct (try_shrink_ok t1 (delete k m) Hl1 Hu1) as (t2 & -> & Hok2).
    + rewrite Hb1. eapply room_le; [|done]. pose proof (map_subseteq_size _ _ (delete_subseteq m k)). lia.
    + by rewrite Hb1.
    + rewrite Ok_bind. by exists t2.
  - subst r. exists t. by rewrite delete_id.
Qed.

(** * Iteration *)

Section iteration.
Context {G : Type} `{RandomSource G}.

Lemma begin_impl_ok t m g :
  table_ok t m -> m <> ∅ ->
  exists b g', begin_impl t g = Ok (Some b, mk_table (nodes_ t) (used_node_count_ t) (bucket_count_mask_ t)
                                              (bucket_count_ t) b, g') /\
    0 <= b < bucket_count_ t /\ occupant (nodes_ t) b <> None.
Proof.
  intros Hok Hne. destruct Hok as [|t m Hl Hu Hr Hb Hbegin]; [done|].
  pose proof Hl as [Hg Hlen _ He _]. pose proof (geometry_range t Hg) as Hn.
  unfold begin_impl, table_empty. rewrite (proj2 (Z.eqb_neq (used_node_count_ t) 0)).
  2:{ intros Hs. apply Hne, map_size_empty_inv. lia. }
  destruct (Z.eqb_spec (begin_bucket_ t) INVALID_BUCKET) as [Hi|Hi].
  - unfold get_random_flat_hash_table_bucket. destruct (fast_uint32 g) as [r g'].
    rewrite land_mask by done.
    assert (Hx : exists x, x ∈ entries (nodes_ t)).
    { apply map_choose in Hne as (k & v & Hkv). exists (k, v). rewrite He. by apply elem_of_map_to_list. }
    destruct Hx as [x Hx]. apply entries_elem in Hx as (i & Hi1 & Hi2).
    destruct (probe_stops (fun node => negb (is_empty node)) t (r mod bucket_count_ t) i)
      as (b & -> & Hb1 & Hb2 & _); try done; [by apply Z.mod_pos_bound; lia|lia|by rewrite Hi2|].
    rewrite Ok_bind. exists b, g'. split; [done|]. split; [lia|].
    by destruct (occupant (nodes_ t) b).
  - destruct Hbegin as [Hbegin|[Hb1 Hb2]]; [done|]. exists (begin_bucket_ t), g.
    split; [|done]. by destruct t.
Qed.

Section order.
Context (t : table K V) (start : Z).
Context (Hgeo : geometry t) (Hlen : len (nodes_ t) = bucket_count_ t) (Hstart : 0 <= start < bucket_count_ t).

#[local] Notation n := (bucket_count_ t).

(** The nodes in the order of the iteration. *)
Definition rotated : list (option (K * V)) :=
  drop (Z.to_nat start) (nodes_ t) ++ take (Z.to_nat start) (nodes_ t).

Definition from_step (c : Z) : list (K * V) := entries (drop (Z.to_nat c) rotated).

Lemma rotated_lookup p :
  0 <= p < n -> rotated !! Z.to_nat (dist n start p) = Some (occupant (nodes_ t) p).
Proof.
  intros Hp. unfold rotated, occupant. unfold len in Hlen.
  destruct (lookup_lt_is_Some_2 (nodes_ t) (Z.to_nat p)) as [x Hx]; [lia|]. rewrite Hx. cbn.
  unfold dist. destruct (Z.leb_spec start p).
  - rewrite lookup_app_l by (rewrite length_drop; lia). rewrite lookup_drop.
    by replace (Z.to_nat start + Z.to_nat (p - start))%nat with (Z.to_nat p) by lia.
  - rewrite lookup_app_r by (rewrite length_drop; lia). rewrite length_drop.
    rewrite lookup_take_lt by lia. by replace (Z.to_nat (p - start + n) - (length (nodes_ t) - Z.to_nat start))%nat with (Z.to_nat p) by lia.
Qed.

Lemma from_step_cons p :
  0 <= p < n ->
  from_step (dist n start p) = option_list (occupant (nodes_ t) p) ++ from_step (dist n start p + 1).
Proof.
  intros Hp. unfold from_step. rewrite (drop_S _ (occupant (nodes_ t) p) (Z.to_nat (dist n start p))).
  2:{ by apply rotated_lookup. }
  assert (0 <= dist n start p) by (clear -Hp Hstart; dist_lia).
  replace (Z.to_nat (dist n start p + 1)) with (S (Z.to_nat (dist n start p))) by lia.
  by destruct (occupant (nodes_ t) p).
Qed.

Lemma from_step_end : from_step n = [].
Proof.
  unfold from_step. rewrite drop_ge; [done|]. unfold rotated. rewrite length_app, length_drop, length_take.
  unfold len in Hlen. lia.
Qed.

Lemma from_step_all : from_step 0 ≡ₚ entries (nodes_ t).
Proof.
  unfold from_step, rotated, entries. rewrite drop_0, omap_app, Permutation_app_comm.
  by rewrite <- omap_app, take_drop.
Qed.

Lemma iterator_next_ok fuel : forall it,
  0 <= it < n -> n - dist n start it <= Z.of_nat fuel ->
  exists r, iterator_next fuel start it t = Ok r /\
    match r with
    | None => from_step (dist n start it + 1) = []
    | Some it' => 0 <= it' < n /\ occupant (nodes_ t) it' <> None /\ dist n start it < dist n start it' /\
        from_step (dist n start it + 1) = from_step (dist n start it')
    end.
Proof.
  induction fuel as [|fuel IH]; intros it Hit Hf; [clear -Hit Hf Hstart; exfalso; dist_lia|].
  cbn [iterator_next]. set (it' := if it + 1 =? n then 0 else it + 1).
  assert (Hit' : 0 <= it' < n) by (subst it'; destruct (Z.eqb_spec (it + 1) n); lia).
  destruct (Z.eqb_spec it' start) as [Heq|Hne].
  - exists None. split; [done|].
    assert (Hd : dist n start it + 1 = n).
    { subst it'. clear -Heq Hit Hstart. destruct (Z.eqb_spec (it + 1) n); dist_lia. }
    rewrite Hd. apply from_step_end.
  - assert (Hd : dist n start it' = dist n start it + 1).
    { subst it'. clear -Hne Hit Hstart. destruct (Z.eqb_spec (it + 1) n); dist_lia. }
    rewrite node_at_range by lia. rewrite Ok_bind. rewrite <- Hd.
    destruct (occupant (nodes_ t) it') as [x|] eqn:Eo; cbn [is_empty].
    + exists (Some it'). split; [done|]. split_and!; try done; try lia. by rewrite Eo.
    + destruct (IH it' Hit') as (r & -> & Hr); [lia|]. exists r. split; [done|].
      rewrite from_step_cons, Eo by done. cbn.
      destruct r as [it2|]; [|done]. destruct Hr as (Hr1 & Hr2 & Hr3 & Hr4). split_and!; try done; lia.
Qed.

Lemma iterate_from_ok fuel : forall it,
  0 <= it < n -> occupant (nodes_ t) it <> None -> n - dist n start it <= Z.of_nat fuel ->
  iterate_from fuel start it t = Ok (from_step (dist n start it)).
Proof.
  induction fuel as [|fuel IH]; intros it Hit Ho Hf; [clear -Hit Hf Hstart; exfalso; dist_lia|].
  cbn [iterate_from]. rewrite node_at_range by lia. rewrite Ok_bind, from_step_cons by done.
  destruct (occupant (nodes_ t) it) as [x|]; [|done]. cbn [option_list app].
  destruct (iterator_next_ok (table_fuel t) it Hit) as (r & -> & Hr).
  { unfold table_fuel. unfold len in Hlen. clear -Hlen Hit Hstart. dist_lia. }
  rewrite Ok_bind. destruct r as [it'|].
  - destruct Hr as (Hr1 & Hr2 & Hr3 & ->). rewrite IH by (done || lia). done.
  - by rewrite Hr.
Qed.
End order.

Lemma iterate_ok t m g :
  table_ok t m ->
  exists l t' g', iterate t g = Ok (l, t', g') /\ l ≡ₚ map_to_list m /\ table_ok t' m.
Proof.
  intros Hok. unfold iterate. destruct (decide (m = ∅)) as [->|Hne].
  - exists [], t, g. rewrite map_to_list_empty. split; [|done].
    inversion Hok as [|t' m' Hl Hu]; subst; [done|].
    unfold begin_impl, table_empty. by rewrite Hu, map_size_empty.
  - destruct (begin_impl_ok t m g Hok Hne) as (b & g' & -> & Hb & Ho). rewrite Ok_bind.
    inversion Hok as [|t' m' Hl Hu Hr Hbb _]; subst; [done|].
    set (t1 := mk_table _ _ _ _ _).
    assert (Hg1 : geometry t1) by (destruct Hl as [[? ?] ? ? ? ?]; by split).
    assert (Hlen1 : len (nodes_ t1) = bucket_count_ t1) by apply Hl.
    rewrite (iterate_from_ok t1 b Hlen1 Hb) by
      (done || rewrite dist_self; unfold table_fuel, len in *; lia).
    rewrite Ok_bind, dist_self. do 3 eexists. split; [done|]. split.
    + rewrite (from_step_all t1 b). apply Hl.
    + apply ok_nodes; try done; [|by right]. destruct Hl as [[? ?] ? ? ? ?]. by split.
Qed.
End iteration.

(** * [remove_if] *)

Lemma skip_full_ok t : len (nodes_ t) = bucket_count_ t -> forall fuel it,
  0 <= it <= bucket_count_ t -> bucket_count_ t - it < Z.of_nat fuel ->
  exists r, skip_full fuel it t = Ok r /\ it <= r <= bucket_count_ t /\
    (r < bucket_count_ t -> occupant (nodes_ t) r = None) /\
    forall p, it <= p < r -> occupant (nodes_ t) p <> None.
Proof.
  intros Hl. induction fuel as [|fuel IH]; intros it Hit Hf; [lia|]. cbn [skip_full].
  destruct (Z.eqb_spec it (bucket_count_ t)) as [->|Hne].
  - exists (bucket_count_ t). split_and!; try done; lia.
  - rewrite node_at_range by lia. rewrite Ok_bind. destruct (occupant (nodes_ t) it) as [x|] eqn:E; cbn [is_empty].
    + destruct (IH (it + 1)) as (r & -> & Hr & Hn & Hp); [lia..|]. exists r. split_and!; try done; try lia.
      intros q Hq. destruct (decide (q = it)) as [->|]; [by rewrite E|]. apply Hp. lia.
    + exists it. split_and!; try done; lia.
Qed.

Lemma back_to_empty_ok t : len (nodes_ t) = bucket_count_ t -> forall fuel it z,
  0 <= z < it -> it <= bucket_count_ t -> occupant (nodes_ t) z = None -> it < Z.of_nat fuel ->
  exists r, back_to_empty fuel it t = Ok r /\ z <= r < it /\ occupant (nodes_ t) r = None.
Proof.
  intros Hl. induction fuel as [|fuel IH]; intros it z Hz Hit Ho Hf; [lia|]. cbn [back_to_empty].
  rewrite (proj2 (Z.ltb_ge _ _)) by lia. rewrite node_at_range by lia. rewrite Ok_bind.
  destruct (occupant (nodes_ t) (it - 1)) as [x|] eqn:E; cbn [is_empty].
  - assert (z <> it - 1) by congruence. destruct (IH (it - 1) z) as (r & -> & Hr & Hn); try done; try lia.
    exists r. split_and!; try done; lia.
  - exists (it - 1). split_and!; try done; lia.
Qed.

(** The search for the empty node from which the ring is walked. *)
Lemma first_empty_ok t first z :
  len (nodes_ t) = bucket_count_ t -> 0 <= first < bucket_count_ t ->
  0 <= z < bucket_count_ t -> occupant (nodes_ t) z = None ->
  exists r fe, skip_full (S (table_fuel t)) first t = Ok r /\
    (if r =? bucket_count_ t then back_to_empty (S (table_fuel t)) r t else Ok r) = Ok fe /\
    0 <= fe < bucket_count_ t /\ occupant (nodes_ t) fe = None.
Proof.
  intros Hlen Hfirst Hz Hoz.
  assert (Hfuel : Z.of_nat (table_fuel t) = bucket_count_ t) by exact Hlen.
  destruct (skip_full_ok t Hlen (S (table_fuel t)) first) as (r & -> & Hr1 & Hr2 & Hr3); [lia..|].
  exists r. destruct (Z.eqb_spec r (bucket_count_ t)) as [->|Hrn].
  - destruct (back_to_empty_ok t Hlen (S (table_fuel t)) (bucket_count_ t) z)
      as (fe & -> & Hfe1 & Hfe2); try done; try lia. exists fe. split_and!; try done; lia.
  - exists r. split_and!; try done; try lia. apply Hr2. lia.
Qed.

Section remove.
Context (f : K * V -> bool) (fe : Z).

(** The map without what [f] removes. *)
Definition kept_entries m : gmap K V := filter (fun kv => f kv = false) m.

Definition checked t (c : Z) : Prop := forall p x,
  0 <= p < bucket_count_ t -> dist (bucket_count_ t) fe p < c -> occupant (nodes_ t) p = Some x -> f x = false.

(** A table in the middle of [remove_if]: the empty node [fe], from which the
    ring is walked, and the nodes that have been checked. *)
Record removing t m (c : Z) : Prop := {
  removing_layout : layout t m;
  removing_used : used_node_count_ t = Z.of_nat (size m);
  removing_empty : occupant (nodes_ t) fe = None;
  removing_checked : checked t c;
}.

Lemma checked_next t it c :
  0 <= fe < bucket_count_ t -> 0 <= it < bucket_count_ t -> c = dist (bucket_count_ t) fe it ->
  (forall x, occupant (nodes_ t) it = Some x -> f x = false) -> checked t c -> checked t (c + 1).
Proof.
  intros Hfe Hit -> Hx Hc p x Hp Hd Ho. destruct (decide (p = it)) as [->|Hne]; [by apply Hx|].
  apply (Hc p x Hp); [|done]. clear -Hfe Hit Hp Hne Hd. dist_lia.
Qed.

Lemma remove_range_ok fuel : forall it stop off t m b,
  0 <= fe < bucket_count_ t -> removing t m (it - fe + off) ->
  off = 0 /\ fe <= it <= stop /\ stop = bucket_count_ t \/
  off = bucket_count_ t /\ 0 <= it <= stop /\ stop = fe ->
  stop - it + Z.of_nat (size m) < Z.of_nat fuel ->
  exists t' b' m', remove_range hash f fuel it stop b t = Ok (t', b') /\
    removing t' m' (stop - fe + off) /\ bucket_count_ t' = bucket_count_ t /\ m' ⊆ m /\
    kept_entries m' = kept_entries m /\ (b' = true <-> b = true \/ m' <> m).
Proof.
  induction fuel as [|fuel IH]; intros it stop off t m b Hfe Hrem Hcase Hf; [lia|].
  cbn [remove_range]. pose proof Hrem as [Hl Hu Hempty Hchk]. pose proof Hl as [Hg Hlen _ _ _].
  destruct (Z.eqb_spec it stop) as [->|Hne].
  { exists t, b, m. split_and!; try done. split; [by left|]. by intros [?|[]]. }
  assert (Hit : 0 <= it < bucket_count_ t) by lia.
  rewrite node_at_range by lia. rewrite Ok_bind.
  assert (Hc : it - fe + off = dist (bucket_count_ t) fe it) by (clear -Hcase Hne Hfe; dist_lia).
  assert (Hskip : (forall x, occupant (nodes_ t) it = Some x -> f x = false) ->
    removing t m (it + 1 - fe + off)).
  { intros Hx. split; try done. replace (it + 1 - fe + off) with (it - fe + off + 1) by lia.
    by apply (checked_next t it). }
  destruct (occupant (nodes_ t) it) as [[k v]|] eqn:Eo.
  - destruct (f (k, v)) eqn:Ef.
    + destruct (erase_node_ok t m it k v fe Hl Hu Hit Eo Hfe Hempty) as (t1 & -> & Hl1 & Hu1 & Hb1 & Hmk & Hun).
      rewrite Ok_bind.
      assert (Hsize : Z.of_nat (size m) = Z.of_nat (size (delete k m)) + 1).
      { rewrite map_size_delete_Some by eauto. assert (size m <> O); [|lia].
        intros E%map_size_empty_inv. subst m. by rewrite lookup_empty in Hmk. }
      destruct (IH it stop off t1 (delete k m) true) as (t' & b' & m' & -> & Hrem' & Hb' & Hsub & Hkept & Hflag).
      * lia.
      * split; try done.
        -- by rewrite Hun.
        -- intros p x Hp Hd Ho. rewrite Hb1 in *. apply (Hchk p x); [lia|done|].
           rewrite <- Ho. symmetry. apply Hun; [done|].
           assert (Hpit : p <> it) by (intros ->; lia).
           clear -Hc Hd Hp Hit Hfe Hcase Hpit. dist_lia.
      * lia.
      * lia.
      * assert (Hm' : m' !! k = None).
        { eapply lookup_weaken_None; [|exact Hsub]. by rewrite lookup_delete_eq. }
        exists t', b', m'. split_and!; try done; try lia.
        -- etrans; [exact Hsub|]. apply delete_subseteq.
        -- rewrite Hkept. unfold kept_entries. apply map_filter_delete_not. intros y. rewrite Hmk.
           intros [= <-]. congruence.
        -- split; [|intros _; apply Hflag; by left]. intros _. right. congruence.
    + apply IH; try done; try lia. apply Hskip. congruence.
  - apply IH; try done; try lia. apply Hskip. congruence.
Qed.

Lemma kept_all t m : 0 <= fe < bucket_count_ t -> removing t m (bucket_count_ t) -> kept_entries m = m.
Proof.
  intros Hfe [Hl _ _ Hc]. unfold kept_entries. apply map_filter_id. intros k v Hkv.
  apply (entries_lookup t m k v Hl) in Hkv as (i & Hi & Ho). apply (Hc i (k, v) Hi); [|done].
  clear -Hi Hfe. dist_lia.
Qed.
End remove.

Lemma remove_if_ok {G} `{RandomSource G} f t m (g : G) :
  table_ok t m ->
  exists t' b g', remove_if hash sizeof_node f t g = Ok (t', b, g') /\
    table_ok t' (kept_entries f m) /\ (b = true <-> kept_entries f m <> m).
Proof.
  intros Hok. unfold remove_if. destruct (decide (m = ∅)) as [->|Hne].
  - assert (Hk : kept_entries f (∅ : gmap K V) = ∅) by apply map_filter_empty.
    exists t, false, g. rewrite Hk. split; [|by split].
    inversion Hok as [|t' m' Hl Hu]; subst; [done|]. unfold table_empty. by rewrite Hu, map_size_empty.
  - destruct (begin_impl_ok t m g Hok Hne) as (first & g1 & Hbegin & Hfirst & _).
    destruct Hok as [|t m Hl Hu Hr Hb _]; [done|].
    unfold table_empty. rewrite (proj2 (Z.eqb_neq (used_node_count_ t) 0)).
    2:{ intros Hs. apply Hne, map_size_empty_inv. lia. }
    rewrite Hbegin, Ok_bind. change (default 0 (Some first)) with first. set (t1 := mk_table _ _ _ _ first).
    assert (Hl1 : layout t1 m) by (destruct Hl as [[? ?] ? ? ? ?]; by split).
    pose proof Hl1 as [Hg1 Hlen1 _ _ _].
    assert (Hfuel : Z.of_nat (table_fuel t1) = bucket_count_ t1) by exact Hlen1.
    pose proof (geometry_range t1 Hg1) as Hn. assert (Hfirst1 : 0 <= first < bucket_count_ t1) by done.
    destruct (layout_empty_node t1 m Hl1) as (z & Hz & Hoz); [by apply layout_room|].
    destruct (first_empty_ok t1 first z Hlen1 Hfirst1 Hz Hoz) as (r & fe & -> & Hfirst_empty & Hfe & Hoe).
    rewrite Ok_bind.
    change (bucket_count_ t) with (bucket_count_ t1). rewrite Hfirst_empty, Ok_bind.
    assert (Hsize : Z.of_nat (size m) < bucket_count_ t1) by (by apply layout_room).
    destruct (remove_range_ok f fe (2 * table_fuel t1 + 1) fe (bucket_count_ t1) 0 t1 m false)
      as (t2 & b2 & m2 & -> & Hrem2 & Hb2 & Hsub2 & Hk2 & Hf2); [done| |lia|lia|].
    { split; try done. intros p x Hp Hd. exfalso. clear -Hp Hd Hfe. dist_lia. }
    rewrite Ok_bind.
    assert (Hsize2 : (size m2 <= size m)%nat) by (by apply map_subseteq_size).
    pose proof (removing_layout _ _ _ _ _ Hrem2) as Hl2. pose proof (layout_len _ _ Hl2) as Hlen2.
    assert (Hfuel2 : Z.of_nat (table_fuel t2) = bucket_count_ t1) by (rewrite <- Hb2; exact Hlen2).
    destruct (remove_range_ok f fe (2 * table_fuel t2 + 1) 0 fe (bucket_count_ t1) t2 m2 b2)
      as (t3 & b3 & m3 & -> & Hrem3 & Hb3 & Hsub3 & Hk3 & Hf3); [lia| |lia|lia|].
    { replace (0 - fe + bucket_count_ t1) with (bucket_count_ t1 - fe + 0) by lia. done. }
    rewrite Ok_bind. replace (fe - fe + bucket_count_ t1) with (bucket_count_ t3) in Hrem3 by lia.
    assert (Hm3 : kept_entries f m = m3).
    { rewrite <- Hk2, <- Hk3. apply (kept_all f fe t3); [lia|done]. }
    pose proof (map_subseteq_size _ _ Hsub3) as Hsize3.
    destruct (try_shrink_ok t3 m3) as (t4 & -> & Hok4).
    + by destruct Hrem3.
    + by destruct Hrem3.
    + rewrite Hb3, Hb2. apply (room_le _ (Z.of_nat (size m))); [lia|done].
    + by rewrite Hb3, Hb2.
    + rewrite Ok_bind. exists t4, b3, g1. rewrite Hm3. split_and!; try done.
      rewrite Hf3, Hf2. split.
      * intros [[?|Hne2]|Hne3]; [done| |].
        -- intros Heq. apply Hne2, (anti_symm (⊆)); [done|]. by rewrite <- Heq.
        -- intros Heq. apply Hne3, (anti_symm (⊆)); [done|]. by rewrite Heq.
      * intros Hne3. destruct (decide (size m3 = size m2)) as [Hs|Hs].
        -- assert (m3 = m2) by (apply map_subseteq_size_eq; [done|lia]). left. right. congruence.
        -- right. congruence.
Qed.

(** * The table implements a map *)

(** The calls a client makes; values are read through the node that [find]
    and [emplace] return. *)
Inductive request :=
  | Find (key : K)
  | Emplace (key : K) (value : V)
  | Erase (key : K)
  | RemoveIf (f : K * V -> bool).

Inductive answer :=
  | Found (value : option V)
  | Emplaced (value : option V) (is_new : Prop)
  | Erased (n : Z)
  | Removed (any : Prop).

(** What the calls promise, in terms of a map. *)
Definition respond (r : request) (m : gmap K V) : answer * gmap K V :=
  match r with
  | Find k => (Found (m !! k), m)
  | Emplace k v => (Emplaced (Some (default v (m !! k))) (m !! k = None), <[k := default v (m !! k)]> m)
  | Erase k => (Erased (if bool_decide (m !! k = None) then 0 else 1), delete k m)
  | RemoveIf f => (Removed (kept_entries f m <> m), kept_entries f m)
  end.

(** What the table does. *)
Definition execute {G} `{RandomSource G} (r : request) (t : table K V) (g : G)
  : outcome (answer * table K V * G) :=
  match r with
  | Find k =>
      b ← find_impl hash empty_key k t;
      match b with
      | None => Ok (Found None, t, g)
      | Some b => node ← node_at b (nodes_ t); Ok (Found (snd <$> node), t, g)
      end
  | Emplace k v =>
      r ← emplace hash empty_key sizeof_node k v t;
      let '(t, b, is_new) := r in
      node ← node_at b (nodes_ t);
      Ok (Emplaced (snd <$> node) (is_new = true), t, g)
  | Erase k => r ← erase hash empty_key sizeof_node k t; Ok (Erased r.2, r.1, g)
  | RemoveIf f =>
      r ← remove_if hash sizeof_node f t g;
      let '(t, any, g) := r in Ok (Removed (any = true), t, g)
  end.

Definition answers_agree (a b : answer) : Prop :=
  match a, b with
  | Found v, Found w => v = w
  | Emplaced v p, Emplaced w q => v = w /\ (p <-> q)
  | Erased n, Erased k => n = k
  | Removed p, Removed q => p <-> q
  | _, _ => False
  end.

Fixpoint respond_all (rs : list request) (m : gmap K V) : list answer * gmap K V :=
  match rs with
  | [] => ([], m)
  | r :: rs => let '(a, m) := respond r m in let '(rest, m) := respond_all rs m in (a :: rest, m)
  end.

Fixpoint execute_all {G} `{RandomSource G} (rs : list request) (t : table K V) (g : G)
  : outcome (list answer * table K V * G) :=
  match rs with
  | [] => Ok ([], t, g)
  | r :: rs =>
      x ← execute r t g;
      let '(a, t, g) := x in
      y ← execute_all rs t g;
      let '(rest, t, g) := y in Ok (a :: rest, t, g)
  end.

Definition request_ok (r : request) : Prop :=
  match r with Emplace k _ => k <> empty_key | _ => True end.

Lemma respond_size r m : (size (respond r m).2 <= S (size m))%nat.
Proof.
  destruct r as [k|k v|k|f]; cbn.
  - lia.
  - rewrite map_size_insert. destruct (m !! k); cbn; lia.
  - pose proof (map_subseteq_size _ _ (delete_subseteq m k)). lia.
  - pose proof (map_subseteq_size _ _ (map_filter_subseteq (fun kv => f kv = false) m)) as Hs.
    unfold kept_entries. lia.
Qed.

Lemma occupant_in_range t m b x :
  table_ok t m -> occupant (nodes_ t) b = Some x -> node_at b (nodes_ t) = Ok (Some x).
Proof.
  intros _ Ho. unfold node_at, occupant in *. destruct (nodes_ t !! Z.to_nat b) as [o|]; [|done].
  cbn in Ho. by subst o.
Qed.

Lemma execute_ok {G} `{RandomSource G} r t m (g : G) :
  table_ok t m -> request_ok r -> fits (Z.of_nat (size m)) ->
  exists a t' g', execute r t g = Ok (a, t', g') /\ answers_agree a (respond r m).1 /\
    table_ok t' (respond r m).2.
Proof.
  intros Hok Hr Hf. destruct r as [k|k v|k|f]; cbn [execute respond fst snd request_ok] in *.
  - destruct (find_ok k t m Hok) as (b & -> & Hb). rewrite Ok_bind. destruct (m !! k) as [v|] eqn:E.
    + destruct Hb as (i & -> & _ & Ho). rewrite (occupant_in_range t m i _ Hok Ho), Ok_bind.
      by do 3 eexists.
    + subst b. by do 3 eexists.
  - destruct (emplace_ok k v t m Hok Hr Hf) as (t' & b & -> & Hok' & Ho). rewrite Ok_bind.
    rewrite (occupant_in_range t' _ b _ Hok' Ho), Ok_bind. do 3 eexists. split; [done|].
    split; [|done]. split; [done|]. by rewrite bool_decide_eq_true.
  - destruct (erase_ok k t m Hok) as (t' & -> & Hok'). rewrite Ok_bind. by do 3 eexists.
  - destruct (remove_if_ok f t m g Hok) as (t' & b & g' & -> & Hok' & Hb). rewrite Ok_bind.
    by do 3 eexists.
Qed.

(** C9: The hash table is a map: any sequence of calls on it, whatever the hash
    function and however many keys collide, gives the answers of a finite map,
    and no call fails a check or searches for ever as long as the entries fit
    the capacity; the keys only have to differ from the key of an empty node. *)
Theorem hash_table_is_map {G} `{RandomSource G} (rs : list request) (t : table K V) (m : gmap K V) (g : G) :
  table_ok t m -> Forall request_ok rs -> fits (Z.of_nat (size m + length rs)) ->
  exists answers t' g', execute_all rs t g = Ok (answers, t', g') /\
    Forall2 answers_agree answers (respond_all rs m).1 /\ table_ok t' (respond_all rs m).2.
Proof.
  revert t m g. induction rs as [|r rs IH]; intros t m g Hok Hrs Hf.
  - by do 3 eexists.
  - apply Forall_cons in Hrs as [Hr Hrs]. cbn [execute_all respond_all].
    cbn [length] in Hf.
    destruct (execute_ok r t m g Hok Hr) as (a & t1 & g1 & -> & Ha & Hok1).
    { unfold fits in *. lia. }
    rewrite Ok_bind. pose proof (respond_size r m) as Hsize.
    destruct (respond r m) as [a' m1]. cbn [fst snd] in *.
    destruct (IH t1 m1 g1 Hok1 Hrs) as (as_ & t2 & g2 & -> & Has & Hok2).
    { unfold fits in *. lia. }
    rewrite Ok_bind. destruct (respond_all rs m1) as [as' m2]. cbn [fst snd] in *.
    do 3 eexists. split; [done|]. split; [by constructor|done].
Qed.

(** A loop over the table visits every entry exactly once, wherever the
    random bucket that it starts from is, and leaves the table as it was. *)
Theorem iteration_visits_all {G} `{RandomSource G} (t : table K V) (m : gmap K V) (g : G) :
  table_ok t m ->
  exists visited t' g', iterate t g = Ok (visited, t', g') /\
    visited ≡ₚ map_to_list m /\ NoDup visited.*1 /\ table_ok t' m.
Proof.
  intros Hok. destruct (iterate_ok t m g Hok) as (l & t' & g' & Hi & Hl & Hok').
  exists l, t', g'. split_and!; try done. rewrite Hl. apply NoDup_fst_map_to_list.
Qed.
End ring.

(** * Concrete runs *)

(** All keys collide. *)
Definition colliding (key : Z) : Z := 7.

Definition sample_requests : list request :=
  [Emplace 1 10; Emplace 2 20; Emplace 3 30; Emplace 2 21; Erase 1; Find 3; RemoveIf (fun kv => kv.1 =? 3)].

Lemma hash_table_is_map_witness :
  exists answers t' g',
    execute_all colliding 0 16 sample_requests drop_nodes (mk_script [] []) = Ok (answers, t', g') /\
    Forall2 answers_agree answers (respond_all sample_requests ∅).1 /\
    table_ok colliding 0 16 t' (respond_all sample_requests ∅).2.
Proof.
  apply (hash_table_is_map colliding 0 16 sample_requests drop_nodes ∅ (mk_script [] [])).
  - apply ok_null.
  - unfold sample_requests. repeat constructor; discriminate.
  - unfold fits. vm_compute. split; discriminate.
Defined.

Lemma iteration_visits_all_witness :
  exists (t : table Z Z) visited t' g',
    table_ok colliding 0 16 t {[1 := 10]} /\
    iterate t (mk_script [7] []) = Ok (visited, t', g') /\
    visited ≡ₚ map_to_list {[1 := 10]} /\ NoDup visited.*1 /\ table_ok colliding 0 16 t' {[1 := 10]}.
Proof.
  destruct (emplace_ok colliding 0 16 1 10 drop_nodes ∅) as (t & b & _ & Hok & _).
  - apply ok_null.
  - discriminate.
  - unfold fits. vm_compute. split; discriminate.
  - change (table_ok colliding 0 16 t {[1 := 10]}) in Hok.
    destruct (iteration_visits_all colliding 0 16 t {[1 := 10]} (mk_script [7] []) Hok) as (l & t' & g' & Hl).
    by exists t, l, t', g'.
Defined.
