(* ===== verification/RawConnection.v ===== *)
(** A connection: [RawConnectionDefault] of [mtproto/RawConnection.cpp].

    The connection sees its transport through [IStreamTransport]; here that is
    the class [StreamTransport], and [StreamLaws] is what the connection relies
    on.  [ObfuscatedTransport] is an instance of both.  The socket is the
    environment: what it does in one [flush] is a record.  The callback, which
    is the session, is a class too; the statistics callback is a log. *)
From S2P Require Import Prelude Bytes Random DpiBypass ProxySecret Crypto Buffer TlsFlow TcpTransport Kdf Transport.
#[local] Open Scope Z_scope.

(** * Interfaces *)

Class StreamTransport (T G : Type) := {
  transport_read_next : T -> outcome read_result * T;
  transport_write : BufferWriter -> bool -> T -> G -> outcome (T * G);
  transport_can_read : T -> bool;
  transport_can_write : T -> bool;
  support_quick_ack : T -> bool;
  transport_use_random_padding : T -> bool;
  transport_max_prepend_size : T -> Z;
  transport_max_append_size : T -> Z;
  (** the input and output buffers, which the transport shares with the socket *)
  socket_input : bytes -> T -> T;
  socket_output : Z -> T -> T;
}.

Class Callback (C : Type) := {
  on_raw_packet : PacketInfo -> bytes -> C -> outcome unit * C;
  callback_on_quick_ack : Z -> C -> C;
  callback_on_read : Z -> C -> C;
}.

Inductive stat := StatRead (n : Z) | StatWrite (n : Z) | StatPong | StatError | StatMtprotoError.

(** What the socket does in one [flush]. *)
Record socket := mk_socket {
  get_pending_error : option status;
  arrived : bytes;
  read_error : option status;
  written : Z;
  write_error : option status;
  can_close_local : bool;
}.

Record connection (T : Type) := mk_connection {
  transport_ : T;
  quick_ack_to_token_ : gmap Z Z;
  has_error_ : bool;
  stats_callback_ : option (list stat);
}.
Arguments mk_connection {T}.
Arguments transport_ {T}.
Arguments quick_ack_to_token_ {T}.
Arguments has_error_ {T}.
Arguments stats_callback_ {T}.

(** The callback's [before_write]: it may send through the connection that
    calls it. *)
Class CallbackWrite (T C : Type) := {
  before_write : connection T -> C -> outcome unit * connection T * C;
}.

Definition set_transport {T} (t : T) (c : connection T) : connection T :=
  mk_connection t (quick_ack_to_token_ c) (has_error_ c) (stats_callback_ c).

Definition set_tokens {T} (m : gmap Z Z) (c : connection T) : connection T :=
  mk_connection (transport_ c) m (has_error_ c) (stats_callback_ c).

Definition set_has_error {T} (c : connection T) : connection T :=
  mk_connection (transport_ c) (quick_ack_to_token_ c) true (stats_callback_ c).

(** [if (stats_callback_) stats_callback_->...]. *)
Definition add_stat {T} (s : stat) (c : connection T) : connection T :=
  mk_connection (transport_ c) (quick_ack_to_token_ c) (has_error_ c)
    ((fun log => s :: log) <$> stats_callback_ c).

(** A default [PacketInfo] of version 2. *)
Definition received_info : PacketInfo := mk_info Common 0 0 0 0 0 2 false false true false.

Definition MAX_PACKET_SIZE : Z := 2 ^ 22 + 1024.

Section connection.
Context {T G C : Type} `{StreamTransport T G} `{RandomSource G} `{Callback C} `{CallbackWrite T C} `{Sha} `{AesIge}.

(** * Sending *)

Definition send_crypto (s : storer) (session_id salt : Z) (auth_key : AuthKey) (quick_ack_token : Z)
  (c : connection T) (g : G) : outcome (Z * connection T * G) :=
  let t := transport_ c in
  let info := mk_info Common 0 (uint64 salt) session_id 0 0 2 false false true
                (transport_use_random_padding t) in
  r ← Transport.write s auth_key info (transport_max_prepend_size t) (transport_max_append_size t) g;
  let '(packet, info, g) := r in
  acks ← (if negb (quick_ack_token =? 0) && support_quick_ack t then
            _ ← check (Z.testbit (message_ack info) 31);
            match quick_ack_to_token_ c !! message_ack info with
            | None => Ok (true, <[message_ack info := quick_ack_token]> (quick_ack_to_token_ c))
            | Some _ => Ok (false, quick_ack_to_token_ c)
            end
          else Ok (false, quick_ack_to_token_ c));
  let '(use_quick_ack, tokens) := acks in
  let packet_size := len (contents packet) in
  w ← transport_write packet use_quick_ack t g;
  let '(t, g) := w in
  Ok (packet_size, set_transport t (set_tokens tokens c), g).

Definition send_no_crypto (s : storer) (c : connection T) (g : G) : outcome (connection T * G) :=
  let t := transport_ c in
  let info := mk_info Common 0 0 0 0 0 1 true false true false in
  r ← Transport.write s (mk_AuthKey 0 []) info (transport_max_prepend_size t) (transport_max_append_size t) g;
  let '(packet, info, g) := r in
  w ← transport_write packet false t g;
  let '(t, g) := w in
  Ok (set_transport t c, g).

(** * Receiving *)

Definition on_read (size : Z) (c : connection T) (cb : C) : connection T * C :=
  if size <=? 0 then (c, cb) else (add_stat (StatRead size) c, callback_on_read size cb).

Definition on_read_mtproto_error (code : Z) (c : connection T) : outcome unit * connection T :=
  if code =? -429 then (Err (Error 500 "MTProto error: "), add_stat StatMtprotoError c)
  else if code =? -404 then (Err (Error (-404) "MTProto error: "), c)
  else (Err (Error 0 "MTProto error: "), c).

(** The status is always OK. *)
Definition on_quick_ack (quick_ack : Z) (c : connection T) (cb : C) : connection T * C :=
  if negb (Z.testbit quick_ack 31) then (c, cb)
  else match quick_ack_to_token_ c !! quick_ack with
       | None => (c, cb)
       | Some token => (set_tokens (delete quick_ack (quick_ack_to_token_ c)) c, callback_on_quick_ack token cb)
       end.

(** One message of the transport. *)
Definition on_packet (packet : bytes) (auth_key : AuthKey) (c : connection T) (cb : C)
  : outcome unit * connection T * C :=
  let '(result, _, info) := Transport.read packet 0 auth_key received_info in
  match result with
  | Ok (Quickack quick_ack) => let '(c, cb) := on_quick_ack quick_ack c cb in (Ok tt, c, cb)
  | Ok (ErrorCode code) => let '(r, c) := on_read_mtproto_error code c in (r, c, cb)
  | Ok (Packet data) =>
      let c := if negb (len (key auth_key) =? 0) then add_stat StatPong c else c in
      let '(r, cb) := on_raw_packet info data cb in
      (r, c, cb)
  | Ok Nop => (Ok tt, c, cb)
  | Err e => (Err e, c, cb)
  | Crash => (Crash, c, cb)
  end.

(** The [while (transport_->can_read())] loop; [fuel] bounds the number of
    messages.  The key is passed by reference, and the callback may change it
    while it handles a packet. *)
Fixpoint read_loop (fuel : nat) (auth_key : C -> AuthKey) (c : connection T) (cb : C)
  : outcome unit * connection T * C :=
  match fuel with
  | O => (Crash, c, cb)
  | S fuel =>
      if negb (transport_can_read (transport_ c)) then (Ok tt, c, cb)
      else
        let '(r, t) := transport_read_next (transport_ c) in
        let c := set_transport t c in
        match r with
        | Ok r =>
            if negb (read_need r =? 0) then
              if MAX_PACKET_SIZE <? read_need r
              then (Err (Error 0 "Expected packet size is too big: "), c, cb)
              else (Ok tt, c, cb)
            else
              let quick_ack := default 0 (read_quick_ack r) in
              if negb (quick_ack =? 0) then
                let '(c, cb) := on_quick_ack quick_ack c cb in
                read_loop fuel auth_key c cb
              else
                match on_packet (default [] (read_message r)) (auth_key cb) c cb with
                | (Ok _, c, cb) => read_loop fuel auth_key c cb
                | r => r
                end
        | Err e => (Err e, c, cb)
        | Crash => (Crash, c, cb)
        end
  end.

Definition flush_read (fuel : nat) (auth_key : C -> AuthKey) (s : socket) (c : connection T) (cb : C)
  : outcome unit * connection T * C :=
  let c := set_transport (socket_input (arrived s) (transport_ c)) c in
  let '(c, cb) :=
    match read_error s with None => on_read (len (arrived s)) c cb | Some _ => (c, cb) end in
  match read_loop fuel auth_key c cb with
  | (Ok _, c, cb) => (match read_error s with None => Ok tt | Some e => Err e end, c, cb)
  | r => r
  end.

Definition flush_write (s : socket) (c : connection T) : outcome unit * connection T :=
  match write_error s with
  | Some e => (Err e, c)
  | None =>
      let c := set_transport (socket_output (written s) (transport_ c)) c in
      (Ok tt, if 0 <? written s then add_stat (StatWrite (written s)) c else c)
  end.

Definition do_flush (fuel : nat) (auth_key : C -> AuthKey) (s : socket) (c : connection T) (cb : C)
  : outcome unit * connection T * C :=
  if has_error_ c then (Err (Error 0 "Connection has already failed"), c, cb)
  else match get_pending_error s with
  | Some e => (Err e, c, cb)
  | None =>
      match flush_read fuel auth_key s c cb with
      | (Ok _, c, cb) =>
          match before_write c cb with
          | (Ok _, c, cb) =>
              match flush_write s c with
              | (Ok _, c) =>
                  (if can_close_local s then Err (Error 0 "Connection closed") else Ok tt, c, cb)
              | (r, c) => (r, c, cb)
              end
          | r => r
          end
      | r => r
      end
  end.

Definition flush (fuel : nat) (auth_key : C -> AuthKey) (s : socket) (c : connection T) (cb : C)
  : outcome unit * connection T * C :=
  match do_flush fuel auth_key s c cb with
  | (Err e, c, cb) =>
      let c := if negb (error_code e =? 2) then add_stat StatError c else c in
      (Err e, set_has_error c, cb)
  | r => r
  end.
End connection.

(** * [ObfuscatedTransport] is a stream transport *)

Section obfuscated.
Context {B : DpiBuild} {S : Type} `{AesCtr S} `{Sha} {G : Type} `{RandomSource G}.

Definition receive_bytes (data : bytes) (t : transport S) : transport S :=
  set_sink (flow_receive data (tls_reader t)) (aes_ctr_state t) (byte_flow_sink_ t) t.

Definition flush_bytes (n : Z) (t : transport S) : transport S :=
  set_output (header_ t) (is_first_tls_packet_ t) (substr_from n (output_ t)) t.

#[export] Instance obfuscated_stream : StreamTransport (transport S) G := {|
  transport_read_next t := let '(r, t) := TcpTransport.read_next t in (Ok r, t);
  transport_write := TcpTransport.write;
  transport_can_read t := true;
  transport_can_write t := true;
  support_quick_ack t := true;
  transport_use_random_padding t := ProxySecret.use_random_padding (secret_of t);
  transport_max_prepend_size t := TcpTransport.max_prepend_size t;
  transport_max_append_size t := max_append_size;
  socket_input := receive_bytes;
  socket_output := flush_bytes;
|}.
End obfuscated.

(** * What the connection relies on *)

Inductive incoming := InMessage (m : bytes) | InAck (token : Z).

Definition read_of (i : incoming) (rest : bytes) : read_result :=
  match i with
  | InMessage m => mk_read 0 rest (Some m) None
  | InAck token => mk_read 0 rest None (Some token)
  end.

Definition ack_ok (i : incoming) : Prop :=
  match i with InMessage _ => True | InAck token => 2 ^ 31 <= token < 2 ^ 32 end.

(** [holds t items]: the input of the transport is the encoding of [items] and
    then at most a part of one more.  [ready t]: it may be written to. *)
Class StreamLaws (T G : Type) `{StreamTransport T G} := {
  holds : T -> list incoming -> Prop;
  backlog : T -> nat;
  ready : T -> Prop;
  always_readable t : transport_can_read t = true;
  holds_acks t items : holds t items -> Forall ack_ok items;
  holds_next t i items : holds t (i :: items) ->
    exists rest t', transport_read_next t = (Ok (read_of i rest), t') /\ holds t' items;
  holds_end t : holds t [] -> exists need rest t',
    transport_read_next t = (Ok (mk_read need rest None None), t') /\
    0 < need <= MAX_PACKET_SIZE /\ holds t' [];
  read_next_decreases t : exists r t', transport_read_next t = (Ok r, t') /\
    (read_need r = 0 -> (backlog t' < backlog t)%nat) /\ default 0 (read_quick_ack r) < 2 ^ 32 /\
    (length (default [] (read_message r)) <= backlog t)%nat;
  ready_read t : ready t -> ready (transport_read_next t).2;
  ready_input data t : ready t -> ready (socket_input data t);
  ready_output n t : ready t -> ready (socket_output n t);
  ready_room t : ready t -> 4 <= transport_max_prepend_size t /\ 15 <= transport_max_append_size t;
  ready_write t m quick_ack g : ready t -> message_ok m ->
    exists t' g', transport_write m quick_ack t g = Ok (t', g') /\ ready t';
}.

(** * The flows of [ObfuscatedTransport] lose no bytes *)

Lemma flow_passes_size fuel f :
  len (flow_input (flow_passes fuel f)) + len (flow_output (flow_passes fuel f)) <=
    len (flow_input f) + len (flow_output f).
Proof.
  revert f. induction fuel as [|fuel IH]; intros f; cbn [flow_passes]; [lia|].
  destruct (stop_flag_ f); [lia|]. destruct (_ <? need_size_ f); [lia|].
  destruct (tls_loop (flow_input f)) as [p rest|n|] eqn:E; cbn [flow_input flow_output].
  - etrans; [apply IH|]. cbn [flow_input flow_output]. destruct (tls_loop_again _ _ _ E) as [-> _].
    rewrite !len_app, len_tls_record. pose proof (len_nonneg p). lia.
  - etrans; [apply IH|]. cbn [flow_input flow_output]. lia.
  - lia.
Qed.

Lemma tls_wakeup_size f :
  len (flow_input (tls_wakeup f).1) + len (flow_output (tls_wakeup f).1) + len (tls_wakeup f).2 <=
    len (flow_input f) + len (flow_output f).
Proof.
  unfold tls_wakeup. destruct (stop_flag_ f); [cbn; rewrite len_nil; lia|].
  pose proof (flow_passes_size (flow_fuel f) f).
  destruct (stop_flag_ (flow_passes _ f)); cbn [fst snd flow_input flow_output];
    change (len (@nil byte)) with 0; lia.
Qed.

(** The encoding of one item: a frame without padding of its own, or a token. *)
Definition encode (i : incoming) : bytes :=
  match i with InMessage m => frame false m [] | InAck token => le_store 4 token end.

Definition item_ok (i : incoming) : Prop :=
  match i with InMessage m => len m < 2 ^ 31 | InAck token => 2 ^ 31 <= token < 2 ^ 32 end.

Lemma read_encoded i rest :
  item_ok i -> read_from_stream (encode i ++ rest) = read_of i rest.
Proof.
  destruct i as [m|token]; cbn [encode item_ok read_of]; intros Hi.
  - rewrite read_frame by (change (len (@nil byte)) with 0; lia). by rewrite app_nil_r.
  - by apply read_ack.
Qed.

Lemma read_from_stream_size stream :
  let r := read_from_stream stream in
  0 <= read_need r /\ (read_need r = 0 -> len (read_stream r) + 4 <= len stream) /\
  (read_need r <> 0 -> read_stream r = stream) /\ default 0 (read_quick_ack r) < 2 ^ 32 /\
  len (default [] (read_message r)) <= len stream.
Proof.
  unfold read_from_stream. pose proof (le_load_range (truncate 4 stream)) as Hr.
  destruct (Z.ltb_spec (len stream) 4) as [|Hl].
  { cbn [read_need read_stream read_quick_ack read_message]. split_and!; try done; try lia. apply len_nonneg. }
  assert (Hlen : len (truncate 4 stream) = 4) by (unfold truncate; rewrite len_take; lia).
  rewrite Hlen in Hr. set (n := le_load (truncate 4 stream)) in *.
  assert (Hd : len (substr_from 4 stream) = len stream - 4) by (unfold substr_from; rewrite len_drop; lia).
  destruct (Z.testbit n 31).
  { cbn [read_need read_stream read_quick_ack read_message]. split_and!; try done; try lia; cbn; [lia|apply len_nonneg]. }
  destruct (Z.ltb_spec (len stream) (n + 4)); cbn [read_need read_stream read_quick_ack read_message].
  { split_and!; try done; try lia. apply len_nonneg. }
  split_and!; try done.
  - intros _. unfold substr_from at 1. rewrite len_drop by lia. lia.
  - cbn [from_option Datatypes.id]. unfold truncate. rewrite len_take by lia. lia.
Qed.

Section obfuscated_laws.
Context {B : DpiBuild} {S : Type} `{AesCtrLaws S} `{ShaLaws} {G : Type} `{RandomLaws G}.

(** Less than a whole item: the transport asks for more, but not for more
    than a packet may have. *)
Definition incomplete (partial : bytes) : Prop :=
  exists need, read_from_stream partial = mk_read need partial None None /\ 0 < need <= MAX_PACKET_SIZE.

(** The complete records of the input, and that nothing stops the flow. *)
Definition input_records (t : transport S) (ps : list bytes) : Prop :=
  if emulate_tls (secret_of t) then
    flow_ok (tls_reader t) /\
    exists rest n, decodes (flow_input (tls_reader t)) ps rest /\ tls_loop rest = LoopNeed n
  else concat ps = flow_input (tls_reader t).

Definition obfuscated_holds (t : transport S) (items : list incoming) : Prop :=
  Forall item_ok items /\
  exists ps partial, input_records t ps /\ incomplete partial /\
    byte_flow_sink_ t ++ (ctr_encrypt (concat ps) (aes_ctr_state t)).1 =
      concat (encode <$> items) ++ partial.

(** Waking the flows up moves everything that is complete to the sink. *)
Lemma wakeup_flows_records (t : transport S) ps :
  input_records t ps ->
  exists f aes, wakeup_flows t =
    set_sink f aes (byte_flow_sink_ t ++ (ctr_encrypt (concat ps) (aes_ctr_state t)).1) t /\
    forall sink, exists ps', input_records (set_sink f aes sink t) ps' /\ concat ps' = [].
Proof.
  intros Hin. unfold input_records in *. unfold wakeup_flows.
  destruct (emulate_tls (secret_of t)) eqn:Etls.
  - destruct Hin as (Hok & rest & n & Hd & Hn). pose proof (tls_wakeup_delivers _ _ _ Hok Hd) as Hw.
    rewrite Hn in Hw. destruct Hw as (need & -> & Hok').
    destruct (ctr_encrypt (concat ps) (aes_ctr_state t)) as [x aes]. eexists _, _. split; [reflexivity|].
    intros sink. exists []. cbn [secret_of set_sink]. rewrite Etls. split; [|done].
    split; [exact Hok'|]. exists rest, n. split; [|done]. split; [done|done|]. by rewrite Hn.
  - rewrite <- Hin. destruct (ctr_encrypt (concat ps) (aes_ctr_state t)) as [x aes].
    eexists _, _. split; [reflexivity|]. intros sink. exists []. cbn [secret_of set_sink]. by rewrite Etls.
Qed.

Lemma read_next_sink (t : transport S) ps :
  input_records t ps ->
  exists t', TcpTransport.read_next t =
    (read_from_stream (byte_flow_sink_ t ++ (ctr_encrypt (concat ps) (aes_ctr_state t)).1), t') /\
    byte_flow_sink_ t' =
      read_stream (read_from_stream (byte_flow_sink_ t ++ (ctr_encrypt (concat ps) (aes_ctr_state t)).1)) /\
    exists ps', input_records t' ps' /\ concat ps' = [].
Proof.
  intros Hin. destruct (wakeup_flows_records t ps Hin) as (f & aes & Hw & Hnext).
  unfold TcpTransport.read_next. rewrite Hw. cbn [byte_flow_sink_ set_sink].
  eexists. split; [reflexivity|]. split; [done|]. apply Hnext.
Qed.

Lemma obfuscated_holds_next t i items :
  obfuscated_holds t (i :: items) -> exists rest t',
    TcpTransport.read_next t = (read_of i rest, t') /\ obfuscated_holds t' items.
Proof.
  intros (Hok & ps & partial & Hin & Hpart & E). inversion Hok as [|? ? Hi Hitems]; subst.
  destruct (read_next_sink t ps Hin) as (t' & Hr & Hs & ps' & Hin' & Hnil).
  rewrite E in Hr, Hs. cbn [fmap list_fmap concat] in Hr, Hs. rewrite <- app_assoc in Hr, Hs.
  rewrite read_encoded in Hr, Hs by done.
  eexists _, t'. split; [exact Hr|]. split; [done|]. exists ps', partial. split; [done|]. split; [done|].
  rewrite Hs, Hnil, ctr_encrypt_nil, app_nil_r. by destruct i.
Qed.

Lemma obfuscated_holds_end t :
  obfuscated_holds t [] -> exists need rest t',
    TcpTransport.read_next t = (mk_read need rest None None, t') /\
    0 < need <= MAX_PACKET_SIZE /\ obfuscated_holds t' [].
Proof.
  intros (_ & ps & partial & Hin & Hpart & E).
  destruct (read_next_sink t ps Hin) as (t' & Hr & Hs & ps' & Hin' & Hnil).
  rewrite E in Hr, Hs. cbn [fmap list_fmap concat app] in Hr, Hs.
  pose proof Hpart as (need & Hp & Hneed). rewrite Hp in Hr, Hs.
  exists need, partial, t'. split; [done|]. split; [done|]. split; [constructor|].
  exists ps', partial. split; [done|]. split; [done|].
  by rewrite Hs, Hnil, ctr_encrypt_nil, app_nil_r.
Qed.

Definition obfuscated_backlog (t : transport S) : nat :=
  length (byte_flow_sink_ t) + length (flow_input (tls_reader t)) + length (flow_output (tls_reader t)).

Lemma wakeup_flows_size (t : transport S) :
  (obfuscated_backlog (wakeup_flows t) <= obfuscated_backlog t)%nat.
Proof.
  unfold obfuscated_backlog, wakeup_flows. pose proof (tls_wakeup_size (tls_reader t)) as Hw.
  destruct (emulate_tls (secret_of t)).
  - destruct (tls_wakeup (tls_reader t)) as [f ready].
    pose proof (len_ctr_encrypt ready (aes_ctr_state t)) as Hl.
    destruct (ctr_encrypt ready (aes_ctr_state t)) as [x aes]. cbn in *. rewrite length_app.
    unfold len in *. lia.
  - pose proof (len_ctr_encrypt (flow_input (tls_reader t)) (aes_ctr_state t)) as Hl.
    destruct (ctr_encrypt _ (aes_ctr_state t)) as [x aes]. cbn in *. rewrite length_app.
    unfold len in *. lia.
Qed.

Lemma obfuscated_read_next_decreases t : exists r t', TcpTransport.read_next t = (r, t') /\
  (read_need r = 0 -> (obfuscated_backlog t' < obfuscated_backlog t)%nat) /\
  default 0 (read_quick_ack r) < 2 ^ 32 /\ (length (default [] (read_message r)) <= obfuscated_backlog t)%nat.
Proof.
  unfold TcpTransport.read_next. pose proof (wakeup_flows_size t) as Hw.
  set (t1 := wakeup_flows t) in *. eexists _, _. split; [reflexivity|].
  destruct (read_from_stream_size (byte_flow_sink_ t1)) as (_ & Hs & _ & Hq & Hm). cbn zeta in *.
  split; [|split; [exact Hq|]]; [|unfold obfuscated_backlog in *; unfold len in Hm; lia]. intros Hz. specialize (Hs Hz). unfold obfuscated_backlog in *.
  cbn [byte_flow_sink_ set_sink tls_reader flow_input flow_output]. unfold len in Hs. lia.
Qed.

Definition obfuscated_ready (t : transport S) : Prop := len (header_ t) < max_tls_packet_length_ t.

Lemma obfuscated_write_ready t m quick_ack (g : G) :
  obfuscated_ready t -> message_ok m ->
  exists t' g', TcpTransport.write m quick_ack t g = Ok (t', g') /\ obfuscated_ready t'.
Proof.
  intros Hr Hm. unfold TcpTransport.write, obfuscated_ready in *.
  destruct (write_prepare_inplace_ok (with_padding t) m quick_ack g Hm)
    as (m' & g' & padding & -> & Hc & Hp & Hnp & Hreader). rewrite Ok_bind.
  pose proof (len_ctr_encrypt (contents m') (output_state_ t)) as Hl.
  destruct (ctr_encrypt (contents m') (output_state_ t)) as [enc out]. cbn [fst] in Hl.
  assert (Hne : enc <> []).
  { intros E. rewrite E, Hc, len_frame in Hl. change (len (@nil byte)) with 0 in Hl.
    pose proof (len_nonneg (contents m)). pose proof (len_nonneg padding). lia. }
  set (t1 := set_output_state out t). set (m1 := mk_writer _ enc _ _).
  change (secret_of t1) with (secret_of t). pose proof (len_nonneg (header_ t)).
  destruct (emulate_tls (secret_of t)).
  - destruct (do_write_tls_ok m1 t1) as (cs & _ & _ & _ & ->); [done|done|done|].
    rewrite Ok_bind. eexists _, _. split; [reflexivity|]. cbn [header_ set_output max_tls_packet_length_ t1 set_output_state].
    rewrite len_nil. lia.
  - rewrite do_write_main_ok by done. rewrite Ok_bind. eexists _, _. split; [reflexivity|].
    cbn [header_ set_output max_tls_packet_length_ t1 set_output_state]. rewrite len_nil. lia.
Qed.

Lemma stream_read_next (t : transport S) r t' :
  TcpTransport.read_next t = (r, t') -> transport_read_next (G := G) t = (Ok r, t').
Proof. unfold transport_read_next, obfuscated_stream. by intros ->. Qed.

#[export] Instance obfuscated_laws : StreamLaws (transport S) G.
Proof.
  refine {| holds := obfuscated_holds; backlog := obfuscated_backlog; ready := obfuscated_ready |}.
  - done.
  - intros t items (Hok & _). eapply Forall_impl; [exact Hok|]. by intros [].
  - intros t i items Hh. destruct (obfuscated_holds_next t i items Hh) as (rest & t' & Hr & Hh').
    exists rest, t'. split; [by apply stream_read_next|done].
  - intros t Hh. destruct (obfuscated_holds_end t Hh) as (need & rest & t' & Hr & Hn & Hh').
    exists need, rest, t'. split; [by apply stream_read_next|done].
  - intros t. destruct (obfuscated_read_next_decreases t) as (r & t' & Hr & Hd).
    exists r, t'. split; [by apply stream_read_next|done].
  - intros t Ht. cbn. unfold TcpTransport.read_next, wakeup_flows, obfuscated_ready in *.
    by destruct (emulate_tls _); [destruct (tls_wakeup _)|]; destruct (ctr_encrypt _ _).
  - done.
  - done.
  - intros t _. cbn. unfold TcpTransport.max_prepend_size, max_append_size. cbn zeta.
    pose proof (len_nonneg (header_ t)). split; [|lia]. rewrite land_3.
    assert (Hle : 4 <= (if emulate_tls (secret_of t) then 4 + 5 + (if is_first_tls_packet_ t then 6 else 0) else 4)
                       + len (header_ t)) by (destruct (emulate_tls _), (is_first_tls_packet_ t); lia).
    set (n := _ + len (header_ t)) in *. pose proof (Z.mod_pos_bound n 4 ltac:(lia)).
    destruct (n mod 4 =? 0); lia.
  - intros t m quick_ack g. apply obfuscated_write_ready.
Defined.
End obfuscated_laws.

(** * The loop is the sequence of the messages *)

Section refinement.
Context {T G C : Type} `{StreamLaws T G} `{RandomLaws G} `{Callback C} `{CallbackWrite T C} `{ShaLaws} `{AesIgeLaws}.

(** The specification of a [flush_read], on the tokens that wait for a quick
    acknowledgement, the statistics and the callback: the messages one by one, in
    order, up to the first that fails.  The callback gets what the message
    decrypts to, or the token of the query that is acknowledged. *)
Record receiver := mk_receiver { waiting : gmap Z Z; stats : option (list stat); client : C }.

Definition note (x : stat) (v : receiver) : receiver := mk_receiver (waiting v) ((fun l => x :: l) <$> stats v) (client v).

Definition acknowledged (quick_ack : Z) (v : receiver) : receiver :=
  match (if Z.testbit quick_ack 31 then waiting v !! quick_ack else None) with
  | Some token => mk_receiver (delete quick_ack (waiting v)) (stats v) (callback_on_quick_ack token (client v))
  | None => v
  end.

Definition message_error (code : Z) (v : receiver) : outcome unit * receiver :=
  (Err (Error (if code =? -429 then 500 else if code =? -404 then -404 else 0) "MTProto error: "),
   if code =? -429 then note StatMtprotoError v else v).

Definition process_message (m : bytes) (auth_key : AuthKey) (v : receiver) : outcome unit * receiver :=
  match Transport.read m 0 auth_key received_info with
  | (Ok (Packet data), _, info) =>
      let v := if len (key auth_key) =? 0 then v else note StatPong v in
      let r := on_raw_packet info data (client v) in
      (r.1, mk_receiver (waiting v) (stats v) r.2)
  | (Ok (Quickack quick_ack), _, _) => (Ok tt, acknowledged quick_ack v)
  | (Ok (ErrorCode code), _, _) => message_error code v
  | (Ok Nop, _, _) => (Ok tt, v)
  | (Err e, _, _) => (Err e, v)
  | (Crash, _, _) => (Crash, v)
  end.


(** What the specification sees of a connection and its callback. *)
Definition receiver_of (c : connection T) (cb : C) : receiver := mk_receiver (quick_ack_to_token_ c) (stats_callback_ c) cb.

Lemma on_quick_ack_process token (c : connection T) (cb : C) :
  let r := on_quick_ack token c cb in
  acknowledged token (receiver_of c cb) = receiver_of r.1 r.2 /\ transport_ r.1 = transport_ c /\ has_error_ r.1 = has_error_ c.
Proof.
  unfold on_quick_ack, acknowledged. cbn [waiting receiver_of]. destruct (Z.testbit token 31); [|done].
  cbn [negb]. by destruct (quick_ack_to_token_ c !! token).
Qed.

Lemma on_packet_process m auth_key (c : connection T) (cb : C) :
  let r := on_packet m auth_key c cb in
  process_message m auth_key (receiver_of c cb) = (r.1.1, receiver_of r.1.2 r.2) /\
  transport_ r.1.2 = transport_ c /\ has_error_ r.1.2 = has_error_ c.
Proof.
  unfold on_packet, process_message. destruct (Transport.read m 0 auth_key received_info) as [[result m'] info].
  destruct result as [[data| |code|ack]|e|]; try done.
  - destruct (len (key auth_key) =? 0); cbn [negb]; cbn [client receiver_of note]; by destruct (on_raw_packet info data cb).
  - unfold on_read_mtproto_error, message_error. by destruct (code =? -429), (code =? -404).
  - destruct (on_quick_ack_process ack c cb) as (-> & ? & ?). by destruct (on_quick_ack ack c cb).
Qed.



(** * Termination and safety *)

Definition key_usable (k : AuthKey) : Prop := len (key k) = 256 \/ key k = [].

(** The packets that arrive: what [read_loop] hands to [on_raw_packet]. *)
Definition delivered_by (m : bytes) (auth_key : AuthKey) : list bytes :=
  match Transport.read m 0 auth_key received_info with
  | (Ok (Packet data), _, _) => [data]
  | _ => []
  end.

Fixpoint delivered (fuel : nat) (auth_key : C -> AuthKey) (c : connection T) (cb : C) : list bytes :=
  match fuel with
  | O => []
  | S fuel =>
      let '(r, t) := transport_read_next (transport_ c) in
      let c := set_transport t c in
      match r with
      | Ok r =>
          if negb (read_need r =? 0) then []
          else if negb (default 0 (read_quick_ack r) =? 0) then
            let '(c, cb) := on_quick_ack (default 0 (read_quick_ack r)) c cb in delivered fuel auth_key c cb
          else
            let m := default [] (read_message r) in
            delivered_by m (auth_key cb) ++
            match on_packet m (auth_key cb) c cb with
            | (Ok _, c, cb) => delivered fuel auth_key c cb
            | _ => []
            end
      | _ => []
      end
  end.

Definition flush_delivers (fuel : nat) (auth_key : C -> AuthKey) (s : socket) (c : connection T) (cb : C) : list bytes :=
  let c := set_transport (socket_input (arrived s) (transport_ c)) c in
  let '(c, cb) := match read_error s with None => on_read (len (arrived s)) c cb | Some _ => (c, cb) end in
  delivered fuel auth_key c cb.

(** What the callback keeps: no call of it crashes while packets are shorter
    than [limit] and [good], and it may send through a connection that is ready. *)
Context (inv : C -> Prop) (limit : Z) (good : bytes -> Prop).
Context (Hraw : forall info data (cb : C), inv cb -> len data < limit -> good data ->
  (on_raw_packet info data cb).1 <> Crash /\ inv (on_raw_packet info data cb).2).
Context (Hack : forall token (cb : C), inv cb -> inv (callback_on_quick_ack token cb)).
Context (Hread : forall n (cb : C), inv cb -> inv (callback_on_read n cb)).
Context (Hbefore : forall (c : connection T) (cb : C), ready (transport_ c) -> inv cb ->
  (before_write c cb).1.1 <> Crash /\ ready (transport_ (before_write c cb).1.2) /\ inv (before_write c cb).2).

Lemma on_quick_ack_inv token (c : connection T) (cb : C) : inv cb -> inv (on_quick_ack token c cb).2.
Proof. intros Hi. unfold on_quick_ack. destruct (negb _); [done|]. destruct (_ !! token); [by apply Hack|done]. Qed.

Lemma on_packet_fine m k (c : connection T) (cb : C) :
  key_usable k -> inv cb -> len m < limit -> Forall good (delivered_by m k) ->
  (on_packet m k c cb).1.1 <> Crash /\ inv (on_packet m k c cb).2.
Proof.
  intros Hk Hi Hl Hgood. unfold on_packet. unfold delivered_by in Hgood.
  destruct (read_fine m 0 k received_info ltac:(by right)) as [Hr Hsize].
  { destruct Hk as [Hk|Hk]; [by left|by right]. }
  destruct (Transport.read m 0 k received_info) as [[result m'] info]. cbn [fst] in Hr, Hsize.
  destruct result as [[data| |code|ack]|e|]; try done.
  - specialize (Hsize data eq_refl). destruct (Hraw info data cb Hi ltac:(lia)) as [Hr1 Hr2]; [by apply Forall_singleton|].
    destruct (negb _); by destruct (on_raw_packet info data cb).
  - unfold on_read_mtproto_error. by destruct (code =? -429), (code =? -404).
  - pose proof (on_quick_ack_inv ack c cb Hi). by destruct (on_quick_ack ack c cb).
Qed.

Lemma on_packet_transport m k (c : connection T) (cb : C) :
  transport_ (on_packet m k c cb).1.2 = transport_ c.
Proof. apply on_packet_process. Qed.

(** The loop makes at most one pass for every byte that has arrived. *)
Lemma read_loop_fine k : forall fuel (c : connection T) (cb : C),
  (forall cb, inv cb -> key_usable (k cb)) -> (backlog (transport_ c) < fuel)%nat ->
  Z.of_nat (backlog (transport_ c)) < limit -> ready (transport_ c) -> inv cb -> Forall good (delivered fuel k c cb) ->
  let r := read_loop fuel k c cb in r.1.1 <> Crash /\ ready (transport_ r.1.2) /\ inv r.2.
Proof.
  induction fuel as [|fuel IH]; intros c cb Hk Hf Hmax Hready Hi Hgood; [lia|]. cbn [read_loop]. cbn [delivered] in Hgood.
  rewrite always_readable. cbn [negb].
  destruct (read_next_decreases (transport_ c)) as (r & t' & Hr & Hdec & _ & Hm). pose proof (ready_read _ Hready) as Hready'.
  rewrite Hr in Hready', Hgood |- *. cbn [snd] in Hready'.
  destruct (Z.eqb_spec (read_need r) 0) as [E|E]; cbn [negb]; [|by destruct (_ <? _)].
  specialize (Hdec E). destruct (negb (_ =? 0)).
  - destruct (on_quick_ack_process (default 0 (read_quick_ack r)) (set_transport t' c) cb) as (_ & Ht & _).
    pose proof (on_quick_ack_inv (default 0 (read_quick_ack r)) (set_transport t' c) cb Hi) as Hi'.
    destruct (on_quick_ack _ _ cb) as [c2 cb2]. cbn [fst snd] in Ht, Hi'. apply IH; rewrite ?Ht; try done; cbn; lia.
  - set (m := default [] (read_message r)) in *. set (c1 := set_transport t' c).
    cbv zeta in Hgood. fold m c1 in Hgood. apply Forall_app in Hgood as [Hg1 Hgood].
    destruct (on_packet_fine m (k cb) c1 cb (Hk cb Hi) Hi ltac:(unfold len; lia) Hg1) as [Hp Hi'].
    pose proof (on_packet_transport m (k cb) c1 cb) as Ht.
    destruct (on_packet m (k cb) c1 cb) as [[[u|e|] c2] cb2]; cbn [fst snd] in *; [|by rewrite Ht|done].
    apply IH; rewrite ?Ht; try done; cbn; lia.
Qed.

Lemma flush_read_fine fuel k (s : socket) (c : connection T) (cb : C) :
  (forall cb, inv cb -> key_usable (k cb)) -> (backlog (socket_input (arrived s) (transport_ c)) < fuel)%nat ->
  Z.of_nat (backlog (socket_input (arrived s) (transport_ c))) < limit -> ready (transport_ c) -> inv cb -> Forall good (flush_delivers fuel k s c cb) ->
  let r := flush_read fuel k s c cb in r.1.1 <> Crash /\ ready (transport_ r.1.2) /\ inv r.2.
Proof.
  intros Hk Hf Hmax Hready Hi Hgood. unfold flush_read. unfold flush_delivers in Hgood. set (c1 := set_transport _ c).
  assert (Ht : transport_ (match read_error s with None => on_read (len (arrived s)) c1 cb
                           | Some _ => (c1, cb) end).1 = transport_ c1 /\
               inv (match read_error s with None => on_read (len (arrived s)) c1 cb | Some _ => (c1, cb) end).2).
  { destruct (read_error s); [done|]. unfold on_read. destruct (_ <=? 0); [done|]. split; [done|by apply Hread]. }
  destruct (match read_error s with None => _ | Some _ => _ end) as [c2 cb2]. cbn [fst snd] in Ht. destruct Ht as [Ht Hi2].
  pose proof (read_loop_fine k fuel c2 cb2 Hk) as Hl. rewrite Ht in Hl.
  specialize (Hl Hf Hmax (ready_input _ _ Hready) Hi2 Hgood).
  destruct (read_loop fuel k c2 cb2) as [[[u|e|] c3] cb3]; cbn [fst snd] in *; try done.
  by destruct (read_error s), Hl as (_ & ? & ?).
Qed.

Lemma do_flush_fine fuel k (s : socket) (c : connection T) (cb : C) :
  (forall cb, inv cb -> key_usable (k cb)) -> (backlog (socket_input (arrived s) (transport_ c)) < fuel)%nat ->
  Z.of_nat (backlog (socket_input (arrived s) (transport_ c))) < limit -> ready (transport_ c) -> inv cb -> Forall good (flush_delivers fuel k s c cb) ->
  (do_flush fuel k s c cb).1.1 <> Crash /\ inv (do_flush fuel k s c cb).2.
Proof.
  intros Hk Hf Hmax Hready Hi Hgood. unfold do_flush. destruct (has_error_ c); [done|]. destruct (get_pending_error s); [done|].
  pose proof (flush_read_fine fuel k s c cb Hk Hf Hmax Hready Hi Hgood) as Hr.
  destruct (flush_read fuel k s c cb) as [[[u|e|] c1] cb1]; cbn [fst snd] in Hr; destruct Hr as (Hc & Hr & Hi1); try done.
  destruct (Hbefore c1 cb1 Hr Hi1) as (Hc2 & Hr2 & Hi2).
  destruct (before_write c1 cb1) as [[[u'|e|] c2] cb2]; cbn [fst snd] in *; try done.
  unfold flush_write. destruct (write_error s); [done|]. by destruct (can_close_local s).
Qed.

Lemma flush_fine fuel k (s : socket) (c : connection T) (cb : C) :
  (forall cb, inv cb -> key_usable (k cb)) -> (backlog (socket_input (arrived s) (transport_ c)) < fuel)%nat ->
  Z.of_nat (backlog (socket_input (arrived s) (transport_ c))) < limit -> ready (transport_ c) -> inv cb -> Forall good (flush_delivers fuel k s c cb) ->
  (flush fuel k s c cb).1.1 <> Crash /\ inv (flush fuel k s c cb).2.
Proof.
  intros Hk Hf Hmax Hready Hi Hgood. pose proof (do_flush_fine fuel k s c cb Hk Hf Hmax Hready Hi Hgood) as Hd. unfold flush.
  by destruct (do_flush fuel k s c cb) as [[[] ?] ?].
Qed.

(** Whatever arrives, a [flush] ends, without a failed check: with more
    passes than bytes are pending the loop never runs out. *)
Theorem flush_never_crashes (fuel : nat) (k : C -> AuthKey) (s : socket) (c : connection T) (cb : C) :
  (forall cb, inv cb -> key_usable (k cb)) -> (backlog (socket_input (arrived s) (transport_ c)) < fuel)%nat ->
  Z.of_nat (backlog (socket_input (arrived s) (transport_ c))) < limit -> ready (transport_ c) -> inv cb -> Forall good (flush_delivers fuel k s c cb) ->
  (flush fuel k s c cb).1.1 <> Crash.
Proof. intros. by apply flush_fine. Qed.

(** After a [flush] that failed, every later one fails at once: it touches
    neither the transport nor the callback. *)
Theorem flush_error_sticky (fuel fuel' : nat) (k k' : C -> AuthKey) (s s' : socket) (c c' : connection T)
  (cb cb' cb2 : C) (e : status) :
  flush fuel k s c cb = (Err e, c', cb') ->
  has_error_ c' = true /\
  exists c2, flush fuel' k' s' c' cb2 = (Err (Error 0 "Connection has already failed"), c2, cb2) /\
    transport_ c2 = transport_ c' /\ quick_ack_to_token_ c2 = quick_ack_to_token_ c' /\ has_error_ c2 = true.
Proof.
  unfold flush at 1. destruct (do_flush fuel k s c cb) as [[[u|e'|] c1] cb1]; [done| |done].
  intros [= -> <- <-]. split; [done|]. unfold flush, do_flush. cbn [has_error_ set_has_error].
  eexists. split; [reflexivity|]. done.
Qed.
End refinement.

(** * Sending *)

Section sending.
Context {T G C : Type} `{StreamLaws T G} `{RandomLaws G} `{Callback C} `{ShaLaws} `{AesIgeLaws}.

Lemma packet_message_ok packet prepend append :
  len packet mod 4 = 0 -> len packet < 2 ^ 24 -> 4 <= prepend -> 15 <= append ->
  message_ok (create_writer packet prepend append).
Proof.
  intros Hm4 Hl Hp Ha. pose proof (buffer_raw_size_ge (Z.max 512 (len packet + prepend + append))).
  split; cbn [contents create_writer room_before room_after was_reader]; try done. lia.
Qed.

Lemma ack_bit n : 0 <= n < 2 ^ 32 -> Z.testbit (Z.lor n (2 ^ 31)) 31 = true.
Proof. intros Hn. rewrite Z.lor_spec. change (2 ^ 31) with (Z.shiftl 1 31). rewrite Z.shiftl_spec by lia. apply orb_true_r. Qed.

Lemma ack_of_bit v k X part padding : Z.testbit (ack_of v k X part padding) 31 = true.
Proof.
  unfold ack_of. apply ack_bit. pose proof (le_load_range (truncate 4 (key_digest v k X part padding))) as Hr.
  assert (Hl : len (truncate 4 (key_digest v k X part padding)) = 4).
  { unfold truncate, key_digest. rewrite len_take by lia. destruct (v =? 1); rewrite ?len_sha1, ?len_sha256; lia. }
  rewrite Hl in Hr. exact Hr.
Qed.

(** What is sent of [s], and whether a quick acknowledgement is asked for. *)
Definition sent_part (session_id salt : Z) (s : storer) : bytes :=
  le_store 8 (uint64 salt) ++ le_store 8 session_id ++ stored s.

Definition asks_quick_ack (token ack : Z) (c : connection T) : bool :=
  negb (token =? 0) && support_quick_ack (transport_ c) && bool_decide (quick_ack_to_token_ c !! ack = None).

Lemma send_crypto_ok (s : storer) (session_id salt token : Z) (k : AuthKey) (c : connection T) (g : G) :
  key_ok k -> storer_size s = len (stored s) -> len (stored s) < 2 ^ 23 ->
  ready (transport_ c) ->
  exists padding g1 c' g',
    let part := sent_part session_id salt s in
    let packet := seal 2 k 0 part padding in
    let ack := ack_of 2 k 0 part padding in
    send_crypto s session_id salt k token c g = Ok (len packet, c', g') /\
    transport_write (create_writer packet (transport_max_prepend_size (transport_ c))
                       (transport_max_append_size (transport_ c))) (asks_quick_ack token ack c) (transport_ c) g1 =
      Ok (transport_ c', g') /\
    ready (transport_ c') /\
    quick_ack_to_token_ c' =
      (if asks_quick_ack token ack c then <[ack := token]> (quick_ack_to_token_ c) else quick_ack_to_token_ c).
Proof.
  intros Hk Hs Hsize Hready. destruct (ready_room _ Hready) as [Hpre Happ].
  unfold send_crypto. set (t := transport_ c) in *.
  set (info := mk_info Common 0 _ _ _ _ _ _ _ _ _).
  set (enc := le_store 8 (uint64 salt) ++ le_store 8 session_id).
  unfold Transport.write. cbn [type_ no_crypto_flag info].
  rewrite (proj2 (Z.eqb_neq (len (key k)) 0)) by (destruct Hk as [-> _]; done). cbn [negb check]. rewrite Ok_bind.
  unfold write_crypto. fold info.
  assert (He : len enc = 16) by (unfold enc; by rewrite len_app, !len_le_store).
  destruct (write_sealed CryptoHeader 0 k Hk ltac:(lia) s enc info g Hs) as (padding & g1 & Hw & Hpad).
  pose proof (padded_size_spec CryptoHeader (storer_size s) info g ltac:(rewrite Hs; apply len_nonneg)) as [Hp16 Hp].
  destruct (padded_size CryptoHeader (storer_size s) info g) as [p g0]. cbn [fst snd] in *.
  cbn [Transport.salt Transport.session_id info]. fold enc. rewrite Hw, !Ok_bind. cbn [version info Z.eqb Pos.eqb] in Hp |- *.
  set (part := enc ++ stored s). set (packet := seal 2 k 0 part padding). set (ack := ack_of 2 k 0 part padding).
  assert (Hsum : len (part ++ padding) = p - 24).
  { unfold part. rewrite !len_app, He, Hpad, <- Hs. cbn. lia. }
  assert (Hpacket : len packet = p) by (unfold packet; rewrite len_seal; [lia | rewrite Hsum; exact Hp16]).
  cbn [sizeof_header] in Hp, Hpad.
  assert (Hm : message_ok (create_writer packet (transport_max_prepend_size t) (transport_max_append_size t))).
  { apply packet_message_ok; [rewrite Hpacket; div_mod_lia | rewrite Hpacket; lia | done | done]. }
  cbn [message_ack set_message_ack].
  set (use := asks_quick_ack token ack c).
  destruct (ready_write t _ use g1 Hready Hm) as (t' & g' & Hwrite & Hready').
  set (tokens := if use then <[ack := token]> (quick_ack_to_token_ c) else quick_ack_to_token_ c).
  exists padding, g1, (set_transport t' (set_tokens tokens c)), g'. cbn zeta.
  unfold sent_part. rewrite (app_assoc (le_store 8 (uint64 salt))). fold enc. fold part packet ack use tokens.
  assert (Hbit : Z.testbit ack 31 = true) by apply ack_of_bit.
  assert (Hacks : (if negb (token =? 0) && support_quick_ack t then
      _ ← check (Z.testbit ack 31);
      match quick_ack_to_token_ c !! ack with
      | None => Ok (true, <[ack := token]> (quick_ack_to_token_ c))
      | Some _ => Ok (false, quick_ack_to_token_ c)
      end else Ok (false, quick_ack_to_token_ c)) = Ok (use, tokens)).
  { unfold tokens, use, asks_quick_ack. fold t. destruct (negb (token =? 0) && support_quick_ack t); [|done].
    rewrite Hbit. cbn [check]. rewrite Ok_bind.
    by destruct (quick_ack_to_token_ c !! ack). }
  rewrite Hacks, Ok_bind, Hwrite, Ok_bind. by split_and!.
Qed.

(** A packet goes out sealed with the client's half of the key; a quick
    acknowledgement is asked for exactly when the transport has them, a token is
    given and no packet with the same acknowledgement waits. When the
    acknowledgement comes, the callback gets the token, and a second one is
    ignored. *)
Theorem send_crypto_quick_ack (s : storer) (session_id salt token : Z) (k : AuthKey) (c : connection T)
  (g : G) (cb : C) :
  key_ok k -> storer_size s = len (stored s) -> len (stored s) < 2 ^ 23 ->
  ready (transport_ c) ->
  exists padding g1 c' g',
    let part := le_store 8 (uint64 salt) ++ le_store 8 session_id ++ stored s in
    let packet := seal 2 k 0 part padding in
    let ack := ack_of 2 k 0 part padding in
    let use_quick_ack := negb (token =? 0) && support_quick_ack (transport_ c)
                         && bool_decide (quick_ack_to_token_ c !! ack = None) in
    send_crypto s session_id salt k token c g = Ok (len packet, c', g') /\
    transport_write (create_writer packet (transport_max_prepend_size (transport_ c))
                       (transport_max_append_size (transport_ c))) use_quick_ack (transport_ c) g1 =
      Ok (transport_ c', g') /\
    ready (transport_ c') /\
    quick_ack_to_token_ c' =
      (if use_quick_ack then <[ack := token]> (quick_ack_to_token_ c) else quick_ack_to_token_ c) /\
    (use_quick_ack = true ->
      let '(c2, cb2) := on_quick_ack ack c' cb in
      cb2 = callback_on_quick_ack token cb /\ quick_ack_to_token_ c2 = quick_ack_to_token_ c /\
      on_quick_ack ack c2 cb2 = (c2, cb2)).
Proof.
  intros Hk Hs Hsize Hready.
  destruct (send_crypto_ok s session_id salt token k c g Hk Hs Hsize Hready) as (padding & g1 & c' & g' & E & Hw & Hr & Ht).
  exists padding, g1, c', g'. cbn zeta in *. unfold sent_part, asks_quick_ack in *. split_and!; try done.
  intros Huse. rewrite Huse in Ht. unfold on_quick_ack. rewrite ack_of_bit, Ht, lookup_insert_eq. cbn [negb quick_ack_to_token_ set_tokens].
  apply andb_true_iff in Huse as [_ Huse%bool_decide_eq_true].
  rewrite delete_insert_id by done. split; [done|]. split; [done|]. by rewrite Huse.
Qed.
End sending.

(** ** Witnesses *)

Import Toy.

(** A callback that keeps what it is told. *)
Record log := mk_log { log_packets : list bytes; log_acks : list Z }.

#[export] Instance log_callback : Callback log := {|
  on_raw_packet info data l := (Ok tt, mk_log (log_packets l ++ [data]) (log_acks l));
  callback_on_quick_ack token l := mk_log (log_packets l) (log_acks l ++ [token]);
  callback_on_read n l := l;
|}.

#[export] Instance log_write {T} : CallbackWrite T log := {| before_write c l := (Ok tt, c, l) |}.

(** A masked transport behind its first record. *)
Definition sample_transport : transport Z :=
  mk_transport 2 masking_secret false 2878 [] 5 [] (mk_flow [] 5 [] false) 77 [].

Definition sample_connection (tokens : gmap Z Z) : connection (transport Z) :=
  mk_connection sample_transport tokens false (Some []).

(** A server's packet and a quick acknowledgement, as the records of a proxy. *)
Definition sample_items : list incoming := [InMessage sample_sealed.1.1; InAck 0x80000007].

Definition sample_plain : bytes := concat (encode <$> sample_items).

Definition sample_wire : bytes :=
  let cipher := (ctr_encrypt sample_plain 77).1 in
  tls_record (take 50 cipher) ++ tls_record (drop 50 cipher).

Definition sample_socket : socket := mk_socket None sample_wire None 0 None false.



Lemma flush_never_crashes_witness :
  (flush 1000 (fun _ => sample_key) sample_socket (sample_connection ∅) (mk_log [] [])).1.1 <> Crash.
Proof.
  apply (flush_never_crashes (T := transport Z) (G := script) (C := log) (fun _ => True) 1000 (fun _ => True)).
  - intros info data cb _ _ _. split; [discriminate|exact I].
  - intros token cb _. exact I.
  - intros n cb _. exact I.
  - intros c cb Hr _. split; [discriminate|]. split; [exact Hr|exact I].
  - intros cb _. left. reflexivity.
  - apply Nat.ltb_lt. vm_compute. reflexivity.
  - apply Z.ltb_lt. vm_compute. reflexivity.
  - apply Z.ltb_lt. vm_compute. reflexivity.
  - exact I.
  - apply Forall_true. intros _. exact I.
Defined.

(** A server's error code. *)
Lemma flush_error_sticky_witness :
  let s := mk_socket (Some (Error 104 "reset")) [] None 0 None false in
  exists c2, flush 5 (fun _ => sample_key) s
    (flush 5 (fun _ => sample_key) s (sample_connection ∅) (mk_log [] [])).1.2 (mk_log [] []) =
    (Err (Error 0 "Connection has already failed"), c2, mk_log [] []).
Proof.
  intros s.
  destruct (flush_error_sticky (T := transport Z) (C := log) 5 5 (fun _ => sample_key) (fun _ => sample_key) s s (sample_connection ∅)
    (flush 5 (fun _ => sample_key) s (sample_connection ∅) (mk_log [] [])).1.2
    (mk_log [] []) (mk_log [] []) (mk_log [] []) (Error 104 "reset") eq_refl) as (_ & c2 & E & _).
  exists c2. exact E.
Defined.

Lemma send_crypto_quick_ack_witness :
  exists n c' g',
    send_crypto (sample_storer CryptoHeader 8) 12 11 sample_key 55 (sample_connection ∅) sample_draws =
      Ok (n, c', g') /\ size (quick_ack_to_token_ c') = 1%nat.
Proof.
  destruct (send_crypto_quick_ack (T := transport Z) (C := log) (sample_storer CryptoHeader 8) 12 11 55
    sample_key (sample_connection ∅) sample_draws (mk_log [] []) sample_key_ok)
    as (padding & g1 & c' & g' & Hsend & _ & _ & Ht & _); try reflexivity.
  eexists _, c', g'. split; [exact Hsend|]. rewrite Ht. cbn zeta.
  rewrite bool_decide_eq_true_2 by reflexivity. reflexivity.
Defined.
