(* ===== verification/SessionConnection.v ===== *)
(** The connection of a session, [mtproto/SessionConnection.{h,cpp}]: its state
    and what it receives.  What it sends is in SessionSender.

    It packs queries, acknowledgements and service requests into packets, and
    takes received packets apart into answers, updates and service messages.
    The state is a [world]: the object, the session's [AuthData], which it
    shares with the session, what the callback was told, and the generator.  A
    handler is a computation [M] on a world; a [Status] that is an error is [Err],
    and what was done before it stays done.

    The callback is the session.  It may call the connection back and change
    the keys while it is told something: [SessionCallback] gives its reactions
    and its answers, as functions of all that it was told before.

    Left out are the fields that are only written or logged
    ([real_last_read_at_], [last_read_size_], [main_message_id_], ...), and the
    moving of the raw connection. *)
From Stdlib Require Import QArith.
From coqutil Require Import Datatypes.RecordSettersUsingExistingGetters.
From S2P Require Import Prelude Bytes Tl Transport AuthData ServiceApi CryptoStorer.
#[global] Arguments RecordSettersUsingExistingGetters.const {E} newValue _ /.
#[local] Open Scope Z_scope.

(** [gzdecode]: nothing when the data is not a valid stream. *)
Class Gzip := { gzdecode : bytes -> bytes }.

Inductive Mode := Tcp | Http | HttpLongPoll.
Inductive State := Init | Run | Fail | Closed.

#[export] Instance Mode_eq_dec : EqDecision Mode.
Proof. solve_decision. Defined.

#[export] Instance State_eq_dec : EqDecision State.
Proof. solve_decision. Defined.

Inductive service_type := GetStateInfo | ResendAnswer.

Record ServiceQuery := mk_service { service_type_ : service_type; service_container_id_ : Z; service_msg_ids_ : list Z }.

Record session_connection := mk_session {
  online_flag_ : bool;
  is_main_ : bool;
  to_send_ : list MtprotoQuery;
  to_ack_message_ids_ : list Z;
  force_send_at_ : Q;
  to_resend_answer_message_ids_ : list Z;
  to_cancel_answer_message_ids_ : list Z;
  to_get_state_info_message_ids_ : list Z;
  service_queries_ : gmap Z ServiceQuery;
  container_to_service_message_id_ : gmap Z (list Z);
  random_delay_ : Q;
  last_read_at_ : Q;
  last_ping_at_ : Q;
  last_pong_at_ : Q;
  last_ping_message_id_ : Z;
  last_ping_container_message_id_ : Z;
  need_destroy_auth_key_ : bool;
  sent_destroy_auth_key_ : bool;
  destroy_auth_key_send_time_ : Q;
  flush_packet_at_ : Q;
  last_get_future_salt_at_ : Q;
  state_ : State;
  mode_ : Mode;
  connected_flag_ : bool;
  (** [raw_connection_->extra().rtt] *)
  raw_rtt : Q;
}.

(** What the callback is told; [Pong], [Update], [MessageResultOk] and
    [DestroyAuthKey] are answered with a status. *)
Inductive event :=
  | Connected
  | SessionClosed (reason : outcome unit)
  | ServerSaltUpdated
  | ServerTimeDifferenceUpdated (force : bool)
  | NewSessionCreated (unique_id first_message_id : Z)
  | SessionFailed (reason : status)
  | ContainerSent (container_message_id : Z) (message_ids : list Z)
  | Pong (ping_time pong_time current_time : Q)
  | Update (packet : bytes)
  | MessageAck (message_id : Z)
  | MessageResultOk (message_id : Z) (packet : bytes) (original_size : Z)
  | MessageResultError (message_id code : Z) (message : bytes)
  | MessageFailed (message_id : Z) (reason : status)
  | MessageInfo (message_id state answer_message_id answer_size source : Z)
  | DestroyAuthKey.

(** What the callback may do in the meantime. *)
Inductive action :=
  | CallForceAck
  | CallResendAnswer (message_id : Z)
  | CallCancelAnswer (message_id : Z)
  | CallGetStateInfo (message_id : Z)
  | SetKeys (pfs : bool) (main tmp : auth_key_state).

Class SessionCallback := {
  reactions : list event -> event -> AuthData -> list action;
  answer : list event -> event -> option status;
}.

(** * The object on its own *)

Definition ACK_DELAY : Q := 30.

Definition Qeqb (x y : Q) : bool := Qeq_bool x y.
Definition double_max (x y : Q) : Q := if Qltb x y then y else x.
Definition double_min (x y : Q) : Q := if Qltb y x then y else x.

Definition clamp (value min_value max_value : Q) : Q :=
  if Qltb value min_value then min_value else if Qltb max_value value then max_value else value.

Definition relax_timeout_at (timeout new_timeout : Q) : Q :=
  if Qeqb new_timeout 0 then timeout
  else if Qeqb timeout 0 || Qltb new_timeout timeout then new_timeout else timeout.

Definition send_before (tm : Q) (s : session_connection) : session_connection :=
  if Qeqb (force_send_at_ s) 0 || Qltb tm (force_send_at_ s) then { s with force_send_at_ := tm } else s.

Definition destroy_key (s : session_connection) : session_connection := { s with need_destroy_auth_key_ := true }.

Definition force_ack (now : Q) (s : session_connection) : session_connection :=
  if negb (len (to_ack_message_ids_ s) =? 0) then send_before now s else s.

Section timing.
Context `{Rounding}.

Definition QUERY_DELAY : Q := rnd (1 # 1000).
Definition RESEND_ANSWER_DELAY : Q := rnd (1 # 1000).

Definition rtt (s : session_connection) : Q := double_max 2 (rnd (rnd (raw_rtt s * (3 # 2)) + 1)).

Definition read_disconnect_delay (s : session_connection) : Q :=
  if online_flag_ s then rnd (rtt s * (7 # 2)) else rnd (135 + random_delay_ s).

Definition ping_disconnect_delay (s : session_connection) : Q :=
  if online_flag_ s && is_main_ s then rnd (rtt s * (5 # 2)) else rnd (135 + random_delay_ s).

Definition ping_may_delay (s : session_connection) : Q :=
  if online_flag_ s then rnd (rtt s * (1 # 2)) else rnd (30 + random_delay_ s).

Definition ping_must_delay (s : session_connection) : Q :=
  if online_flag_ s then rtt s else rnd (60 + random_delay_ s).

Definition may_ping (now : Q) (s : session_connection) : bool :=
  Qeqb (last_ping_at_ s) 0
  || negb (bool_decide (mode_ s = HttpLongPoll)) && Qltb (rnd (last_ping_at_ s + ping_may_delay s)) now.

Definition must_ping (now : Q) (s : session_connection) : bool :=
  Qeqb (last_ping_at_ s) 0
  || negb (bool_decide (mode_ s = HttpLongPoll)) && Qltb (rnd (last_ping_at_ s + ping_must_delay s)) now.

Definition get_state_info (now : Q) (message_id : Z) (s : session_connection) : session_connection :=
  let s := if len (to_get_state_info_message_ids_ s) =? 0 then send_before now s else s in
  { s with to_get_state_info_message_ids_ := to_get_state_info_message_ids_ s ++ [message_id] }.

Definition resend_answer (now : Q) (message_id : Z) (s : session_connection) : session_connection :=
  let s := if len (to_resend_answer_message_ids_ s) =? 0 then send_before (rnd (now + RESEND_ANSWER_DELAY)) s else s in
  { s with to_resend_answer_message_ids_ := to_resend_answer_message_ids_ s ++ [message_id] }.

Definition cancel_answer (now : Q) (message_id : Z) (s : session_connection) : session_connection :=
  let s := if len (to_cancel_answer_message_ids_ s) =? 0 then send_before (rnd (now + RESEND_ANSWER_DELAY)) s else s in
  { s with to_cancel_answer_message_ids_ := to_cancel_answer_message_ids_ s ++ [message_id] }.

Definition MAX_UNACKED_PACKETS : Z := 100.

Definition send_ack (now : Q) (message_id : Z) (s : session_connection) : session_connection :=
  let s := if len (to_ack_message_ids_ s) =? 0 then send_before (rnd (now + ACK_DELAY)) s else s in
  if (len (to_ack_message_ids_ s) =? 0) || negb (bool_decide (last (to_ack_message_ids_ s) = Some message_id)) then
    let s := { s with to_ack_message_ids_ := to_ack_message_ids_ s ++ [message_id] } in
    if MAX_UNACKED_PACKETS <=? len (to_ack_message_ids_ s) then send_before now s else s
  else s.

Definition set_online (now : Q) (online_flag is_main : bool) (s : session_connection) : session_connection :=
  let need_ping := online_flag || negb (online_flag_ s) in
  let s := { { s with online_flag_ := online_flag } with is_main_ := is_main } in
  let s :=
    if need_ping then
      { { s with last_pong_at_ := rnd (rnd (now - ping_disconnect_delay s) + rtt s) }
        with last_read_at_ := rnd (rnd (now - read_disconnect_delay s) + rtt s) }
    else { { s with last_pong_at_ := now } with last_read_at_ := now } in
  { { { s with last_ping_at_ := 0%Q } with last_ping_message_id_ := 0 } with last_ping_container_message_id_ := 0 }.

(** One query that failed: its identifiers are asked for again. *)
Definition on_message_failed_inner (now : Q) (message_id : Z) (s : session_connection) : session_connection :=
  match service_queries_ s !! message_id with
  | None => s
  | Some query =>
      let s := { s with service_queries_ := delete message_id (service_queries_ s) } in
      match service_type_ query with
      | ResendAnswer => foldl (fun s msg_id => resend_answer now (uint64 msg_id) s) s (service_msg_ids_ query)
      | GetStateInfo => foldl (fun s msg_id => get_state_info now (uint64 msg_id) s) s (service_msg_ids_ query)
      end
  end.

(** [on_message_failed] after the callback was told. *)
Definition forget_message (now : Q) (message_id : Z) (s : session_connection) : session_connection :=
  let s := { { s with sent_destroy_auth_key_ := false } with destroy_auth_key_send_time_ := 0%Q } in
  let s :=
    if (message_id =? last_ping_message_id_ s) || (message_id =? last_ping_container_message_id_ s) then
      { { { s with last_ping_at_ := 0%Q } with last_ping_message_id_ := 0 } with last_ping_container_message_id_ := 0 }
    else s in
  match container_to_service_message_id_ s !! message_id with
  | Some message_ids => foldl (fun s id => on_message_failed_inner now id s) s message_ids
  | None => on_message_failed_inner now message_id s
  end.
End timing.

(** * Computations *)

Record world (G : Type) := mk_world {
  self : session_connection;
  auth_data_ : AuthData;
  events : list event;
  gen : G;
}.
Arguments mk_world {G}.
Arguments self {G}.
Arguments auth_data_ {G}.
Arguments events {G}.
Arguments gen {G}.

Definition set_self {G} (s : session_connection) (w : world G) : world G := mk_world s (auth_data_ w) (events w) (gen w).
Definition set_auth {G} (a : AuthData) (w : world G) : world G := mk_world (self w) a (events w) (gen w).
Definition set_events {G} (es : list event) (w : world G) : world G := mk_world (self w) (auth_data_ w) es (gen w).

Definition M (S A : Type) : Type := S -> outcome A * S.

#[export] Instance M_ret {S} : MRet (M S) := fun A a s => (Ok a, s).

#[export] Instance M_bind {S} : MBind (M S) := fun A B f m s =>
  match m s with
  | (Ok a, s) => f a s
  | (Err e, s) => (Err e, s)
  | (Crash, s) => (Crash, s)
  end.

Definition lift {S A} (m : outcome A) : M S A := fun s => (m, s).

Lemma lift_Ok_bind {S A B} (a : A) (f : A -> M S B) : lift (Ok a) ≫= f = f a.
Proof. reflexivity. Qed.

Lemma lift_Err_bind {S A B} e (f : A -> M S B) : lift (Err e) ≫= f = lift (Err e).
Proof. reflexivity. Qed.

(** The first step of a computation. *)
Lemma bind_step {S A B} (m : M S A) (f : A -> M S B) s r s' :
  m s = (r, s') ->
  (m ≫= f) s = match r with Ok a => f a s' | Err e => (Err e, s') | Crash => (Crash, s') end.
Proof. unfold mbind, M_bind. intros ->. by destruct r. Qed.

Definition throw {S A} (message : string) : M S A := lift (Err (Error 0 message)).

(** * A message that was received *)

Record MsgInfo := mk_msg { info_message_id : Z; info_seq_no : Z; info_size : Z }.

(** [parse_message] of an encrypted packet. *)
Definition parse_message (parser : tl_parser) : outcome (MsgInfo * bytes * tl_parser) :=
  parser ← check_len 16 parser;
  if failed parser then Err (Error 0 "Failed to parse mtproto_api::message: ")
  else
    message_id ← fetch_unsafe 8 parser;
    seq_no ← fetch_unsafe 4 message_id.2;
    size ← fetch_unsafe 4 seq_no.2;
    let bytes := le_load size.1 in
    if negb (bytes mod 4 =? 0) then Err (Error 0 "Failed to parse mtproto_api::message: size of message [")
    else
      packet ← fetch_string_raw bytes size.2;
      if failed packet.2 then Err (Error 0 "Failed to parse mtproto_api::message: ")
      else Ok (mk_msg (le_load message_id.1) (int32 (le_load seq_no.1)) bytes, packet.1, packet.2).

Section handlers.
Context `{ServiceApi} `{Gzip} `{SessionCallback} `{Rounding} {G : Type}.

#[local] Abbreviation Handler := (M (world G)).

(** One time [now] for a whole call. *)
Context (now : Q).

Definition modify (f : session_connection -> session_connection) : Handler unit := fun w => (Ok tt, set_self (f (self w)) w).

Definition asks {A} (f : session_connection -> A) : Handler A := fun w => (Ok (f (self w)), w).

Definition with_auth {A} (f : AuthData -> A * AuthData) : Handler A := fun w =>
  let '(r, a) := f (auth_data_ w) in (Ok r, set_auth a w).

Definition set_auth_keys (pfs : bool) (main tmp : auth_key_state) (a : AuthData) : AuthData :=
  set_use_pfs pfs (set_keys main tmp a).

Definition perform (w : world G) (a : action) : world G :=
  match a with
  | CallForceAck => set_self (force_ack now (self w)) w
  | CallResendAnswer message_id => set_self (resend_answer now message_id (self w)) w
  | CallCancelAnswer message_id => set_self (cancel_answer now message_id (self w)) w
  | CallGetStateInfo message_id => set_self (get_state_info now message_id (self w)) w
  | SetKeys pfs main tmp => set_auth (set_auth_keys pfs main tmp (auth_data_ w)) w
  end.

Definition tell (e : event) : Handler unit := fun w =>
  (Ok tt, foldl perform (set_events (events w ++ [e]) w) (reactions (events w) e (auth_data_ w))).

Definition ask (e : event) : Handler unit := fun w =>
  let '(_, w') := tell e w in
  (match answer (events w) e with None => Ok tt | Some status => Err status end, w').

(** * The handlers of received objects *)

Definition reset_server_time_difference (message_id : Z) : Handler unit :=
  _ ← with_auth (fun a => (tt, AuthData.reset_server_time_difference
                                 (rnd (inject_Z (uint32 (Z.shiftr message_id 32)) - now)) a));
  tell (ServerTimeDifferenceUpdated true).

Definition on_destroy_auth_key : Handler unit :=
  need ← asks need_destroy_auth_key_;
  if negb need then mret tt else ask DestroyAuthKey.

Definition on_new_session_created (first_msg_id unique_id : Z) : Handler unit :=
  queries ← asks service_queries_;
  let first_message_id :=
    match queries !! uint64 first_msg_id with
    | Some query => service_container_id_ query
    | None => uint64 first_msg_id
    end in
  tell (NewSessionCreated (uint64 unique_id) first_message_id).

Definition on_message_failed (message_id : Z) (reason : status) : Handler unit :=
  _ ← tell (MessageFailed message_id reason);
  modify (forget_message now message_id).

Definition on_bad_msg_notification (info : MsgInfo) (bad_msg_id error_code : Z) : Handler unit :=
  let bad_id := uint64 bad_msg_id in
  if error_code =? 16 then on_message_failed bad_id (Error 0 "MessageId is too low")
  else if error_code =? 17 then
    _ ← modify (fun s => { s with to_send_ := [] });
    _ ← reset_server_time_difference (info_message_id info);
    _ ← tell (SessionFailed (Error 0 "MessageId is too high"));
    throw "MessageId is too high"
  else if error_code =? 18 then throw "MessageId is not divisible by 4"
  else if error_code =? 19 then throw "Container and older message MessageId collision"
  else if error_code =? 20 then on_message_failed bad_id (Error 0 "MessageId is too old")
  else if error_code =? 32 then throw "SeqNo is too low"
  else if error_code =? 33 then throw "SeqNo is too high"
  else if error_code =? 34 then throw "SeqNo is not even for an irrelevant message"
  else if error_code =? 35 then throw "SeqNo is not odd for a relevant message"
  else if error_code =? 64 then throw "Invalid Container"
  else throw "Unknown error code".

Definition on_bad_server_salt (bad_msg_id new_server_salt : Z) : Handler unit :=
  _ ← with_auth (fun a => (tt, set_server_salt (uint64 new_server_salt) now a));
  _ ← tell ServerSaltUpdated;
  on_message_failed (uint64 bad_msg_id) (Error 0 "Bad server salt").

Fixpoint tell_all (es : list event) : Handler unit :=
  match es with
  | [] => mret tt
  | e :: es => _ ← tell e; tell_all es
  end.

Definition on_msgs_ack (msg_ids : list Z) : Handler unit := tell_all ((fun msg_id => MessageAck (uint64 msg_id)) <$> msg_ids).

(** [message_id] was sent by the server more than 15 seconds before
    [request_id] by the client. *)
Definition is_before (message_id request_id : Z) : bool :=
  message_id <? uint64 (request_id - Z.shiftl 15 32).

Definition message_seconds (msg_id : Z) : Q := rnd (rnd (inject_Z (int64 msg_id)) / inject_Z (2 ^ 32)).

Definition on_pong (info : MsgInfo) (msg_id ping_id : Z) : Handler unit :=
  _ ← (if is_before (info_message_id info) (uint64 msg_id) then reset_server_time_difference (info_message_id info)
       else mret tt);
  sent ← asks sent_destroy_auth_key_;
  sent_at ← asks destroy_auth_key_send_time_;
  if sent && Qltb sent_at (rnd (now - 60)) then throw "No response for destroy_auth_key sent "
  else
    _ ← modify (fun s => { s with last_pong_at_ := now });
    server_time ← with_auth (fun a => (get_server_time now a, a));
    ask (Pong (message_seconds ping_id) (message_seconds (info_message_id info)) server_time).

Definition new_salts (salts : list future_salt) : list ServerSalt :=
  (fun s => mk_salt (fs_salt s) (inject_Z (fs_valid_since s)) (inject_Z (fs_valid_until s))) <$> salts.

Definition on_future_salts (salts : list future_salt) : Handler unit :=
  _ ← with_auth (fun a => (tt, set_future_salts (new_salts salts) now a));
  tell ServerSaltUpdated.

(** [info[i]] is a [char], which is signed on the platforms at hand. *)
Definition signed_char (b : byte) : Z := if b2z b <? 128 then b2z b else b2z b - 256.

Definition on_msgs_state_info (msg_ids : list Z) (info : bytes) : Handler unit :=
  if negb (len msg_ids =? len info) then throw "message count"
  else tell_all (zip_with (fun msg_id b => MessageInfo (uint64 msg_id) (signed_char b) 0 0 1) msg_ids info).

Definition on_msgs_state_info_packet (req_msg_id : Z) (info : bytes) : Handler unit :=
  queries ← asks service_queries_;
  match queries !! uint64 req_msg_id with
  | None => throw "Unknown msgs_state_info"
  | Some query =>
      _ ← modify (fun s => { s with service_queries_ := delete (uint64 req_msg_id) (service_queries_ s) });
      match service_type_ query with
      | ResendAnswer => throw "Receive msgs_state_info in response not to GetStateInfo"
      | GetStateInfo => on_msgs_state_info (service_msg_ids_ query) info
      end
  end.

Definition on_packet_rpc_result (info : MsgInfo) (packet : bytes) : Handler unit :=
  r ← lift (fetch_long (new_parser packet));
  let '(req, parser) := r in
  let req_msg_id := uint64 req in
  if failed parser then throw "Failed to parse mtproto_api::rpc_result: "
  else if req_msg_id =? 0 then throw "Receive an update in rpc_result"
  else
    _ ← (if is_before (info_message_id info) req_msg_id then reset_server_time_difference (info_message_id info)
         else mret tt);
    r ← lift (fetch_int parser);
    let '(id, parser) := r in
    if id =? rpc_error_ID then
      r ← lift (fetch_rpc_error parser);
      let '((code, message), parser) := r in
      if failed parser then throw "Failed to parse mtproto_api::rpc_error: "
      else tell (MessageResultError req_msg_id code message)
    else if id =? gzip_packed_ID then
      r ← lift (fetch_gzip_packed parser);
      let '(packed_data, parser) := r in
      if failed parser then throw "Failed to parse mtproto_api::gzip_packed: "
      else ask (MessageResultOk req_msg_id (gzdecode packed_data) (info_size info))
    else ask (MessageResultOk req_msg_id (substr_from 8 packet) (info_size info)).

Definition on_update_packet (info : MsgInfo) (packet : bytes) : Handler unit :=
  status ← with_auth (fun a => check_update (info_message_id info) a);
  _ ← with_auth (fun a => recheck_update (info_message_id info) a);
  match status with
  | Err e =>
      if error_code e =? 2 then
        _ ← tell (SessionFailed (Error 0 "Receive too old update")); lift (Err e)
      else mret tt
  | Ok _ => ask (Update packet)
  | Crash => lift Crash
  end.

(** The overloads of [on_packet], but for [gzip_packed], which is handled by
    [on_slice_packet] again. *)
Definition on_object (info : MsgInfo) (o : object) : Handler unit :=
  match o with
  | destroy_auth_key_ok | destroy_auth_key_none | destroy_auth_key_fail => on_destroy_auth_key
  | new_session_created first_msg_id unique_id _ => on_new_session_created first_msg_id unique_id
  | bad_msg_notification bad_msg_id _ error_code => on_bad_msg_notification info bad_msg_id error_code
  | bad_server_salt bad_msg_id _ _ new_server_salt => on_bad_server_salt bad_msg_id new_server_salt
  | msgs_ack msg_ids => on_msgs_ack msg_ids
  | pong msg_id ping_id => on_pong info msg_id ping_id
  | future_salts _ _ salts => on_future_salts salts
  | msgs_state_info req_msg_id data => on_msgs_state_info_packet req_msg_id data
  | msgs_all_info msg_ids data => on_msgs_state_info msg_ids data
  | msg_detailed_info msg_id answer_msg_id size status =>
      tell (MessageInfo (uint64 msg_id) status (uint64 answer_msg_id) size 2)
  | msg_new_detailed_info answer_msg_id size _ => tell (MessageInfo 0 0 (uint64 answer_msg_id) size 0)
  | gzip_packed _ | unsupported _ => mret tt
  end.

(** [size] times [parse_packet]; [handle] is [on_slice_packet]. *)
Fixpoint parse_packets (handle : MsgInfo -> bytes -> Handler unit) (size : nat) (parser : tl_parser)
  : Handler tl_parser :=
  match size with
  | O => mret parser
  | S size =>
      r ← lift (parse_message parser);
      let '(info, packet, parser) := r in
      _ ← handle info packet;
      parse_packets handle size parser
  end.

Definition on_packet_container (handle : MsgInfo -> bytes -> Handler unit) (packet : bytes) : Handler unit :=
  r ← lift (fetch_int (new_parser packet));
  let '(size, parser) := r in
  if failed parser then throw "Failed to parse mtproto_api::rpc_container: "
  else
    _ ← parse_packets handle (Z.to_nat size) parser;
    mret tt.

(** [depth] is the depth of the stack in nested calls. *)
Fixpoint on_slice_packet (depth : nat) (info : MsgInfo) (packet : bytes) : Handler unit :=
  match depth with
  | O => lift Crash
  | S depth =>
      _ ← (if Z.testbit (info_seq_no info) 0 then modify (send_ack now (info_message_id info)) else mret tt);
      if len packet <? 4 then
        _ ← tell (SessionFailed (Error 0 "Receive too small packet"));
        throw "Receive packet of size "
      else
        let constructor_id := int32 (le_load (truncate 4 packet)) in
        let rest := substr_from 4 packet in
        if constructor_id =? msg_container_ID then on_packet_container (on_slice_packet depth) rest
        else if constructor_id =? rpc_result_ID then on_packet_rpc_result info rest
        else if is_service constructor_id then
          r ← lift (fetch_object constructor_id (new_parser rest));
          let '(o, parser) := r in
          parser ← lift (fetch_end parser);
          match error parser with
          | Some e => throw e
          | None =>
              match o with
              | gzip_packed packed_data => on_slice_packet depth info (gzdecode packed_data)
              | o => on_object info o
              end
          end
        else on_update_packet info packet
  end.

Definition on_main_packet (depth : nat) (packet_info : PacketInfo) (packet : bytes) : Handler unit :=
  _ ← modify (fun s => { s with last_pong_at_ := now });
  connected ← asks connected_flag_;
  _ ← (if negb connected then
         _ ← modify (fun s => { s with connected_flag_ := true }); tell Connected
       else mret tt);
  if no_crypto_flag packet_info then throw "Unencrypted packet"
  else
    parser ← parse_packets (on_slice_packet depth) 1 (new_parser packet);
    parser ← lift (fetch_end parser);
    if failed parser then throw "Failed to parse packet: " else mret tt.

Definition on_raw_packet (depth : nat) (packet_info : PacketInfo) (packet : bytes) : Handler unit :=
  if no_crypto_flag packet_info then throw "Unexpected unencrypted packet"
  else
    r ← with_auth (fun a => check_packet (session_id packet_info) (message_id packet_info) now false a);
    let '(status, time_difference_was_updated) := r in
    _ ← (if time_difference_was_updated : bool then tell (ServerTimeDifferenceUpdated false) else mret tt);
    match status with
    | Ok _ => on_main_packet depth packet_info packet
    | Err e =>
        if error_code e =? 1 then modify (send_ack now (message_id packet_info))
        else if error_code e =? 2 then
          _ ← tell (SessionFailed (Error 0 "Receive too old packet")); lift (Err e)
        else lift (Err e)
    | Crash => lift Crash
    end.

(** The status of [on_quick_ack] is ignored. *)
Definition on_quick_ack (quick_ack_token : Z) : Handler unit := tell (MessageAck quick_ack_token).

Definition on_read : Handler unit := modify (fun s => { s with last_read_at_ := now }).
End handlers.
