(* ===== verification/SessionSender.v ===== *)
(** What a session's connection sends, and its interface to the session:
    [mtproto/SessionConnection.cpp].

    The connection is the callback of its raw connection, and [before_write] sends
    through it: a call is a computation on the raw connection and the world.
    Time is an argument, the same for all of a call. *)
From Stdlib Require Import QArith.
From coqutil Require Import Datatypes.RecordSettersUsingExistingGetters.
From S2P Require Import Prelude Bytes Random Buffer Crypto Kdf Tl Transport AuthData TlObject ServiceApi CryptoStorer RawConnection SessionConnection.
#[local] Open Scope Z_scope.

Section sending.
Context `{ServiceApi} `{Gzip} `{SessionCallback} `{Rounding} `{Sha} `{AesIge}.
Context {T G : Type} `{StreamTransport T G} `{RandomSource G}.

(** A call that may send through the connection. *)
#[local] Abbreviation Sender := (M (connection T * world G)).

Context (now : Q).

Definition on_world {A} (m : M (world G) A) : Sender A := fun s => let '(r, w) := m s.2 in (r, (s.1, w)).

(** A call on the connection with the shared generator; an error changes nothing. *)
Definition on_both {A} (f : connection T -> world G -> outcome (A * (connection T * world G))) : Sender A := fun s =>
  match f s.1 s.2 with
  | Ok (a, s) => (Ok a, s)
  | Err e => (Err e, s)
  | Crash => (Crash, s)
  end.

Definition set_gen (g : G) (w : world G) : world G := mk_world (self w) (auth_data_ w) (events w) g.

Definition can_send : Sender bool := fun s => (Ok (transport_can_write (transport_ s.1)), s).

Definition HTTP_MAX_AFTER : Z := 10.
Definition HTTP_MAX_DELAY : Z := 30.
Definition http_max_wait : Q := 25.
Definition MAX_QUERY_COUNT : Z := 1000.

Definition set_flush_packet_at (t : Q) : Sender unit := on_world (modify (fun s => { s with flush_packet_at_ := t })).

Definition relax_flush (t : Q) : Sender unit :=
  on_world (modify (fun s => { s with flush_packet_at_ := relax_timeout_at (flush_packet_at_ s) t })).

(** The early returns are nested; [rest] is what follows an [if]. *)
Definition must_flush_packet : Sender bool :=
  _ ← set_flush_packet_at 0;
  has_key ← on_world (with_auth (fun a => (has_auth_key now a, a)));
  if negb has_key then mret false
  else
    ready ← can_send;
    if negb ready then mret false
    else
      has_salt ← on_world (with_auth (has_salt now));
      mode ← on_world (asks mode_);
      if bool_decide (mode = HttpLongPoll) && negb has_salt then mret false
      else if bool_decide (mode = HttpLongPoll) then mret true
      else
        force_send_at ← on_world (asks force_send_at_);
        if has_salt && negb (Qeqb force_send_at 0) && Qltb force_send_at now then mret true
        else
          _ ← (if has_salt && negb (Qeqb force_send_at 0) then relax_flush force_send_at else mret tt);
          ping ← on_world (asks (must_ping now));
          if has_salt && ping then mret true
          else
            ping_at ← on_world (asks (fun s => rnd (last_ping_at_ s + ping_must_delay s)));
            _ ← (if has_salt : bool then relax_flush ping_at else mret tt);
            last_salt ← on_world (asks last_get_future_salt_at_);
            let get_future_salts_at := rnd (last_salt + 60) in
            if negb has_salt && Qeqb last_salt 0 then mret true
            else if negb has_salt && Qltb get_future_salts_at now then mret true
            else
              _ ← (if negb has_salt then relax_flush get_future_salts_at else mret tt);
              destroy ← on_world (asks (fun s => need_destroy_auth_key_ s && negb (sent_destroy_auth_key_ s)));
              mret (has_salt && destroy).

(** [cut_tail]: at most [size] identifiers, the last ones; and what stays. *)
Definition cut_tail (message_ids : list Z) (size : Z) : list Z * list Z :=
  if len message_ids <=? size then (int64 <$> message_ids, [])
  else
    let new_size := len message_ids - size in
    (int64 <$> drop (Z.to_nat new_size) message_ids, take (Z.to_nat new_size) message_ids).

(** The number of queries that are sent: while [send_till < MAX_QUERY_COUNT]
    and [send_size < 2^15]. *)
Fixpoint send_till_of (queries : list MtprotoQuery) (send_till send_size : Z) : Z :=
  match queries with
  | [] => send_till
  | q :: queries =>
      if (send_till <? MAX_QUERY_COUNT) && (send_size <? Z.shiftl 1 15)
      then send_till_of queries (send_till + 1) (send_size + len (packet q))
      else send_till
  end.

(** [static_cast<int>] of a double. *)
Definition double_int (x : Q) : Z := int32 (truncate_double x).

(** [max_delay], [max_after] and [max_wait]. *)
Definition http_wait_times (s : session_connection) : Z * Z * Z :=
  match mode_ s with
  | HttpLongPoll =>
      let time_to_disconnect :=
        rnd (double_min (rnd (ping_disconnect_delay s + last_pong_at_ s)) (rnd (read_disconnect_delay s + last_read_at_ s))
             - now) in
      (HTTP_MAX_DELAY, HTTP_MAX_AFTER,
       double_int (rnd (1000 * clamp (rnd (time_to_disconnect - rtt s)) (rnd (1 # 10)) http_max_wait)))
  | Http => (HTTP_MAX_DELAY, HTTP_MAX_AFTER, 0)
  | Tcp => (-1, -1, -1)
  end.

Definition next_id (at_ : Q) : Sender Z := on_world (fun w =>
  let '(message_id, a, g) := next_message_id at_ (auth_data_ w) (gen w) in
  (Ok message_id, mk_world (self w) a (events w) g)).

(** A new ping, when one may be sent. *)
Definition start_ping (has_salt : bool) : Sender Z :=
  may ← on_world (asks (may_ping now));
  if has_salt && may then
    _ ← on_world (modify (fun s => { s with last_ping_at_ := now }));
    next_id now
  else mret 0.

(** [future_salt_n] *)
Definition start_future_salts : Sender Z :=
  mode ← on_world (asks mode_);
  if bool_decide (mode = HttpLongPoll) then mret 0
  else
    need ← on_world (with_auth (need_future_salts now));
    last ← on_world (asks last_get_future_salt_at_);
    if need && (Qeqb last 0 || Qltb (rnd (last + 60)) now) then
      _ ← on_world (modify (fun s => { s with last_get_future_salt_at_ := now }));
      mret 64
    else mret 0.

(** The queries of the packet are taken from the front of [to_send_]. *)
Definition take_queries (has_salt : bool) : Sender (list MtprotoQuery) :=
  to_send ← on_world (asks to_send_);
  let send_till := if has_salt then Z.to_nat (send_till_of to_send 0 0) else 0%nat in
  _ ← on_world (modify (fun s => { s with to_send_ := drop send_till to_send }));
  mret (take send_till to_send).

Definition nothing_to_send (queries : list MtprotoQuery) (ping_id max_delay future_salt_n : Z) (destroy : bool)
  (s : session_connection) : bool :=
  (len queries =? 0) && (len (to_ack_message_ids_ s) =? 0) && (ping_id =? 0) && (max_delay <? 0) && (future_salt_n =? 0)
  && (len (to_resend_answer_message_ids_ s) =? 0) && (len (to_cancel_answer_message_ids_ s) =? 0)
  && (len (to_get_state_info_message_ids_ s) =? 0) && negb destroy.

(** The identifiers that go into the packet. *)
Record cut := mk_cut { to_resend_answer : list Z; to_cancel_answer : list Z; to_get_state_info : list Z; to_ack : list Z }.

Definition cut_tails (queries : list MtprotoQuery) : Sender cut :=
  s ← on_world (asks (fun s => s));
  let resend := cut_tail (to_resend_answer_message_ids_ s) 8192 in
  _ ← lift (check (len queries <=? MAX_QUERY_COUNT));
  let cancel := cut_tail (to_cancel_answer_message_ids_ s) (MAX_QUERY_COUNT - len queries) in
  let info := cut_tail (to_get_state_info_message_ids_ s) 8192 in
  let ack := cut_tail (to_ack_message_ids_ s) 8192 in
  _ ← on_world (modify (fun s =>
        { { { { s with to_resend_answer_message_ids_ := resend.2 } with to_cancel_answer_message_ids_ := cancel.2 }
          with to_get_state_info_message_ids_ := info.2 } with to_ack_message_ids_ := ack.2 }));
  mret (mk_cut resend.1 cancel.1 info.1 ack.1).

Definition send_crypto (s : storer) (quick_ack_token : Z) : Sender unit :=
  state ← on_world (asks state_);
  _ ← lift (check (negb (bool_decide (state = Closed))));
  session_id ← on_world (fun w => (get_session_id (auth_data_ w), w));
  salt ← on_world (with_auth (get_server_salt now));
  on_both (fun c w =>
    r ← RawConnection.send_crypto s session_id salt (auth_key (get_auth_key (auth_data_ w))) quick_ack_token c (gen w);
    let '(_, c, g) := r in Ok (tt, (c, set_gen g w))).

(** The packet is put together and sent. *)
Definition write_packet (queries : list MtprotoQuery) (cut : cut) (ping_id : Z) (waits : Z * Z * Z)
  (future_salt_n : Z) (destroy : bool) : Sender sent_ids :=
  delay ← on_world (asks ping_disconnect_delay);
  let '(max_delay, max_after, max_wait) := waits in
  r ← on_both (fun c w =>
    r ← new_CryptoImpl now queries (get_header now (auth_data_ w)) (to_ack cut) ping_id (double_int (rnd (delay + 2)))
          max_delay max_after max_wait future_salt_n (to_get_state_info cut) (to_resend_answer cut)
          (to_cancel_answer cut) destroy (auth_data_ w, gen w);
    let '(crypto, ids, (a, g)) := r in Ok ((crypto, ids), (c, set_gen g (set_auth a w))));
  let '(crypto, ids) := r in
  packet ← lift (crypto_packet crypto);
  _ ← send_crypto packet (if existsb use_quick_ack queries then parent_message_id ids else 0);
  mret ids.

(** The service queries are remembered; [emplace] keeps an old entry. *)
Definition emplace {A} (k : Z) (v : A) (m : gmap Z A) : gmap Z A :=
  match m !! k with Some _ => m | None => <[k := v]> m end.

Definition add_service (type : service_type) (message_id container_id : Z) (msg_ids : list Z) (s : session_connection)
  : session_connection :=
  if negb (message_id =? 0)
  then { s with service_queries_ := emplace message_id (mk_service type container_id msg_ids) (service_queries_ s) }
  else s.

Definition add_to_container (container_id message_id : Z) (s : session_connection) : session_connection :=
  if negb (message_id =? 0) then
    { s with container_to_service_message_id_ :=
        <[container_id := default [] (container_to_service_message_id_ s !! container_id) ++ [message_id]]>
          (container_to_service_message_id_ s) }
  else s.

Definition remember_packet (queries : list MtprotoQuery) (cut : cut) (ping_id : Z) (ids : sent_ids) : Sender unit :=
  _ ← on_world (modify (fun s =>
        let s := add_service ResendAnswer (resend_message_id ids) (container_message_id ids) (to_resend_answer cut) s in
        let s := add_service GetStateInfo (get_info_message_id ids) (container_message_id ids) (to_get_state_info cut) s in
        if negb (ping_id =? 0) then
          { { s with last_ping_container_message_id_ := container_message_id ids }
            with last_ping_message_id_ := ping_message_id ids }
        else s));
  if negb (container_message_id ids =? 0) then
    _ ← on_world (tell now (ContainerSent (container_message_id ids) (query_message_id <$> queries)));
    on_world (modify (fun s =>
      add_to_container (container_message_id ids) (get_info_message_id ids)
        (add_to_container (container_message_id ids) (resend_message_id ids) s)))
  else mret tt.

(** Nothing waits any more. *)
Definition reset_force_send (s : session_connection) : session_connection :=
  if (len (to_send_ s) =? 0) && (len (to_ack_message_ids_ s) =? 0) && (len (to_get_state_info_message_ids_ s) =? 0)
     && (len (to_resend_answer_message_ids_ s) =? 0) && (len (to_cancel_answer_message_ids_ s) =? 0)
  then { s with force_send_at_ := 0%Q } else s.

Definition flush_packet : Sender unit :=
  has_salt ← on_world (with_auth (has_salt now));
  ping_id ← start_ping has_salt;
  waits ← on_world (asks http_wait_times);
  future_salt_n ← start_future_salts;
  queries ← take_queries has_salt;
  destroy ← on_world (asks (fun s => need_destroy_auth_key_ s && negb (sent_destroy_auth_key_ s)));
  nothing ← on_world (asks (nothing_to_send queries ping_id waits.1.1 future_salt_n destroy));
  if nothing : bool then on_world (modify (fun s => { s with force_send_at_ := 0%Q }))
  else
    _ ← (if destroy : bool
         then on_world (modify (fun s => { { s with sent_destroy_auth_key_ := true } with destroy_auth_key_send_time_ := now }))
         else mret tt);
    cut ← cut_tails queries;
    ids ← write_packet queries cut ping_id waits future_salt_n destroy;
    _ ← remember_packet queries cut ping_id ids;
    on_world (modify reset_force_send).

(** The [while (must_flush_packet())] loop of [before_write]. *)
Fixpoint flush_packets (fuel : nat) : Sender unit :=
  match fuel with
  | O => lift Crash
  | S fuel =>
      must ← must_flush_packet;
      if must : bool then _ ← flush_packet; flush_packets fuel else mret tt
  end.

(** ** The connection's callback *)

Context (depth fuel : nat).

#[local] Instance session_callback : Callback (world G) := {|
  RawConnection.on_raw_packet := SessionConnection.on_raw_packet now depth;
  callback_on_quick_ack token w := (SessionConnection.on_quick_ack now token w).2;
  callback_on_read n w := (SessionConnection.on_read now w).2;
|}.

#[local] Instance session_write : CallbackWrite T (world G) := {|
  before_write c w := let '(r, (c, w)) := flush_packets fuel (c, w) in (r, c, w);
|}.

(** ** The interface *)

(** The constructor, with the object that a raw connection of [rtt] and the
    session's [AuthData] are given to. *)
Definition new_SessionConnection (mode : Mode) (rtt : Q) (auth_data : AuthData) (g : G) : world G :=
  let '(n, g) := fast 0 5000000 g in
  let random_delay := rnd (inject_Z n * rnd (1 # 1000000)) in
  mk_world
    (mk_session false false [] [] 0 [] [] [] ∅ ∅ random_delay 0 0 0 0 0 false false 0 0 0 Init mode false rtt)
    auth_data [] g.

Definition init : Sender unit :=
  state ← on_world (asks state_);
  _ ← lift (check (bool_decide (state = Init)));
  on_world (modify (fun s => { { { s with last_pong_at_ := now } with last_read_at_ := now } with state_ := Run })).

Definition send_query (buffer : bytes) (gzip : bool) (message_id : Z) (invoke_after : list Z) (quick_ack : bool) : Sender Z :=
  mode ← on_world (asks mode_);
  _ ← lift (check (negb (bool_decide (mode = HttpLongPoll))));
  message_id ← (if message_id =? 0 then next_id now else mret message_id);
  seq_no ← on_world (with_auth (next_seq_no true));
  _ ← on_world (modify (fun s =>
        let s := if len (to_send_ s) =? 0 then send_before (rnd (now + QUERY_DELAY)) s else s in
        { s with to_send_ := to_send_ s ++ [mk_query message_id seq_no buffer gzip invoke_after quick_ack] }));
  mret message_id.

Definition do_close (reason : outcome unit) : Sender unit :=
  _ ← on_world (modify (fun s => { s with state_ := Closed }));
  on_world (tell now (SessionClosed reason)).

(** [stats_callback->on_error()], and the error. *)
Definition timed_out (message : string) : Sender unit := fun s => (Err (Error 0 message), (add_stat StatError s.1, s.2)).

(** [raw_connection_->flush(auth_data_->get_auth_key(), *this)]; [read_fuel]
    bounds the number of messages that arrive. *)
Definition flush_connection (read_fuel : nat) (s : socket) : Sender unit := fun st =>
  let '(r, c, w) := RawConnection.flush read_fuel (fun w => auth_key (get_auth_key (auth_data_ w))) s st.1 st.2 in
  (r, (c, w)).

Definition do_flush (read_fuel : nat) (s : socket) : Sender unit :=
  state ← on_world (asks state_);
  _ ← lift (check (negb (bool_decide (state = Closed))));
  _ ← (if bool_decide (state = Init) then init else mret tt);
  has_key ← on_world (with_auth (fun a => (has_auth_key now a, a)));
  if negb has_key then throw "No auth key"
  else
    _ ← flush_connection read_fuel s;
    ping_late ← on_world (asks (fun s => Qltb (rnd (last_pong_at_ s + ping_disconnect_delay s)) now));
    if ping_late : bool then timed_out "Ping timeout of "
    else
      read_late ← on_world (asks (fun s => Qltb (rnd (last_read_at_ s + read_disconnect_delay s)) now));
      if read_late : bool then timed_out "Read timeout of " else mret tt.

(** When the connection wants to be flushed again; [0] when it is closed. *)
Definition wakeup_at (s : session_connection) : Q :=
  let w := relax_timeout_at 0 (rnd (rnd (last_pong_at_ s + ping_disconnect_delay s) + rnd (2 # 1000))) in
  let w := relax_timeout_at w (rnd (rnd (last_read_at_ s + read_disconnect_delay s) + rnd (2 # 1000))) in
  relax_timeout_at w (flush_packet_at_ s).

Definition flush (read_fuel : nat) (s : socket) : Sender Q := fun st =>
  match do_flush read_fuel s st with
  | (Ok _, st) => (Ok (wakeup_at (self st.2)), st)
  | (Err e, st) => (_ ← do_close (Err e); mret 0%Q) st
  | (Crash, st) => (Crash, st)
  end.

Definition force_close : Sender unit :=
  state ← on_world (asks state_);
  _ ← lift (check (negb (bool_decide (state = Closed))));
  do_close (Ok tt).

(** A query that binds the temporary key, sealed with the main key. *)
Definition encrypted_bind (perm_key nonce expires_at : Z) : Sender (Z * bytes) :=
  session_id ← on_world (fun w => (get_session_id (auth_data_ w), w));
  temp_key ← on_world (with_auth (fun a => (int64 (Transport.id (auth_key (tmp_auth_key_ a))), a)));
  object ← lift (TLObjectStorer bind_auth_key_inner_ID
                   (store_bind_auth_key_inner nonce temp_key perm_key (int64 session_id) expires_at));
  _ ← lift (check (storer_size object =? len (stored object)));
  message_id ← next_id now;
  calls ← lift (QueryImpl_do_store [] (mk_query message_id 0 (stored object) false [] false));
  query ← lift (PacketStorer calls);
  on_both (fun c w =>
    let '(salt, g) := secure_bytes 8 (gen w) in
    let '(session, g) := secure_bytes 8 g in
    let info := mk_info Common 0 (le_load salt) (le_load session) 0 0 1 false false true false in
    r ← Transport.write query (auth_key (main_auth_key_ (auth_data_ w))) info 0 0 g;
    let '(packet, _, g) := r in
    Ok ((message_id, contents packet), (c, set_gen g w))).
End sending.
