(* ===== verification/SessionReceive.v ===== *)
(** What the handlers of received packets keep, whatever arrives: they never
    crash, they tell the callback more and more, and what waits to be sent stays,
    but for queries that the session sends anew. *)
From Stdlib Require Import QArith.
From coqutil Require Import Datatypes.RecordSettersUsingExistingGetters.
From S2P Require Import Prelude Bytes Tl Transport MessageIds AuthData TlObject ServiceApi CryptoStorer SessionConnection.
#[local] Open Scope Z_scope.

(** * The frame of a handler *)

(** A key as the handshake makes it, or none. *)
Definition key_state_ok (k : auth_key_state) : Prop := key_ok (auth_key k) \/ key (auth_key k) = [].

(** What the handlers need of the session's data. *)
Record auth_ok (a : AuthData) : Prop := {
  ok_session : session_id_ a <> 0;
  ok_packets : checker_ok 1000 (duplicate_checker_ a);
  ok_updates : checker_ok 1000 (updates_duplicate_checker_ a);
  ok_rechecks : checker_ok 100 (updates_duplicate_rechecker_ a);
  ok_main : key_state_ok (main_auth_key_ a);
  ok_tmp : key_state_ok (tmp_auth_key_ a);
}.

Record auth_frame (a a' : AuthData) : Prop := {
  frame_ok : auth_ok a -> auth_ok a';
  frame_session : session_id_ a' = session_id_ a;
  frame_header : header_ a' = header_ a;
  frame_last_id : last_message_id_ a' = last_message_id_ a;
  frame_seq_no : AuthData.seq_no_ a' = AuthData.seq_no_ a;
}.

Record session_frame (s s' : session_connection) : Prop := {
  frame_send : to_send_ s' = to_send_ s \/ to_send_ s' = [];
  frame_acks : to_ack_message_ids_ s `prefix_of` to_ack_message_ids_ s';
  frame_resend : to_resend_answer_message_ids_ s `prefix_of` to_resend_answer_message_ids_ s';
  frame_cancel : to_cancel_answer_message_ids_ s `prefix_of` to_cancel_answer_message_ids_ s';
  frame_info : to_get_state_info_message_ids_ s `prefix_of` to_get_state_info_message_ids_ s';
  frame_containers : container_to_service_message_id_ s' = container_to_service_message_id_ s;
  frame_queries : service_queries_ s' ⊆ service_queries_ s;
  frame_fixed : (state_ s', mode_ s', online_flag_ s', is_main_ s', random_delay_ s', raw_rtt s') =
    (state_ s, mode_ s, online_flag_ s, is_main_ s, random_delay_ s, raw_rtt s);
}.

#[export] Instance auth_frame_preorder : PreOrder auth_frame.
Proof. split; [by split|]. intros a b c [? ? ? ? ?] [? ? ? ? ?]. split; [auto|congruence..]. Qed.

#[export] Instance session_frame_preorder : PreOrder session_frame.
Proof.
  split; [by split; auto|]. intros a b c [Hs ? ? ? ? ? ? ?] [Ht ? ? ? ? ? ? ?]. split; try by etrans.
  destruct Ht as [->| ->]; auto.
Qed.

Record world_frame {G} (w w' : world G) : Prop := {
  frame_self : session_frame (self w) (self w');
  frame_auth : auth_frame (auth_data_ w) (auth_data_ w');
  frame_events : events w `prefix_of` events w';
  frame_gen : gen w' = gen w;
}.

#[export] Instance world_frame_preorder {G} : PreOrder (@world_frame G).
Proof.
  split; [by intros w; split|]. intros u v w [? ? ? E] [? ? ? E']. split; [by etrans..|congruence].
Qed.

(** ** The object on its own *)

Section object.
Context `{Rounding} (now : Q).

Lemma send_before_frame tm s : session_frame s (send_before tm s).
Proof. unfold send_before. destruct (_ || _); [by split; auto|done]. Qed.

Lemma force_ack_frame s : session_frame s (force_ack now s).
Proof. unfold force_ack. destruct (negb _); [apply send_before_frame|done]. Qed.

Lemma add_state_info_frame id s :
  session_frame s { s with to_get_state_info_message_ids_ := to_get_state_info_message_ids_ s ++ [id] }.
Proof. split; cbn; auto. by apply prefix_app_r. Qed.

Lemma get_state_info_frame id s : session_frame s (get_state_info now id s).
Proof.
  unfold get_state_info. cbv zeta. etrans; [|apply add_state_info_frame].
  destruct (_ =? 0); [apply send_before_frame|done].
Qed.

Lemma add_resend_frame id s :
  session_frame s { s with to_resend_answer_message_ids_ := to_resend_answer_message_ids_ s ++ [id] }.
Proof. split; cbn; auto. by apply prefix_app_r. Qed.

Lemma resend_answer_frame id s : session_frame s (resend_answer now id s).
Proof.
  unfold resend_answer. cbv zeta. etrans; [|apply add_resend_frame].
  destruct (_ =? 0); [apply send_before_frame|done].
Qed.

Lemma add_cancel_frame id s :
  session_frame s { s with to_cancel_answer_message_ids_ := to_cancel_answer_message_ids_ s ++ [id] }.
Proof. split; cbn; auto. by apply prefix_app_r. Qed.

Lemma cancel_answer_frame id s : session_frame s (cancel_answer now id s).
Proof.
  unfold cancel_answer. cbv zeta. etrans; [|apply add_cancel_frame].
  destruct (_ =? 0); [apply send_before_frame|done].
Qed.

Lemma add_ack_frame id s : session_frame s { s with to_ack_message_ids_ := to_ack_message_ids_ s ++ [id] }.
Proof. split; cbn; auto. by apply prefix_app_r. Qed.

(** An identifier is added unless it is the last one. *)
Lemma send_ack_spec id s :
  session_frame s (send_ack now id s) /\
  to_ack_message_ids_ (send_ack now id s) =
    to_ack_message_ids_ s ++ (if bool_decide (last (to_ack_message_ids_ s) = Some id) then [] else [id]).
Proof.
  unfold send_ack. cbv zeta. set (s1 := if _ =? 0 then _ else s).
  assert (Hs1 : session_frame s s1) by (unfold s1; destruct (_ =? 0); [apply send_before_frame|done]).
  assert (E1 : to_ack_message_ids_ s1 = to_ack_message_ids_ s)
    by (unfold s1, send_before; destruct (_ =? 0); [by destruct (_ || _)|done]).
  rewrite E1. set (b := bool_decide _).
  assert (Hb : (len (to_ack_message_ids_ s) =? 0) || negb b = negb b).
  { unfold b. destruct (Z.eqb_spec (len (to_ack_message_ids_ s)) 0) as [E|E]; [|done].
    by rewrite (len_zero_nil _ E), bool_decide_false. }
  rewrite Hb. destruct b; cbn [negb]; [by rewrite app_nil_r|].
  set (s2 := { s1 with to_ack_message_ids_ := _ }).
  assert (Hs2 : session_frame s s2) by (etrans; [exact Hs1|unfold s2; rewrite <- E1; apply add_ack_frame]).
  destruct (_ <=? _); [|done]. split; [etrans; [exact Hs2|apply send_before_frame]|].
  unfold send_before. by destruct (Qeqb (force_send_at_ s2) 0 || _).
Qed.

Lemma foldl_frame {A} (f : session_connection -> A -> session_connection) l s :
  (forall s x, session_frame s (f s x)) -> session_frame s (foldl f s l).
Proof. intros Hf. revert s. induction l as [|x l IH]; intros s; cbn; [done|]. etrans; [apply Hf|apply IH]. Qed.

Lemma on_message_failed_inner_frame id s : session_frame s (on_message_failed_inner now id s).
Proof.
  unfold on_message_failed_inner. destruct (service_queries_ s !! id) as [q|]; [|done]. cbv zeta.
  etrans; [|destruct (service_type_ q); apply foldl_frame; intros; [apply get_state_info_frame|apply resend_answer_frame]].
  split; cbn; auto. apply delete_subseteq.
Qed.

Lemma forget_message_frame id s : session_frame s (forget_message now id s).
Proof.
  unfold forget_message. cbv zeta. set (s1 := { { s with sent_destroy_auth_key_ := _ } with destroy_auth_key_send_time_ := _ }).
  assert (Hs1 : session_frame s s1) by (split; cbn; auto).
  set (s2 := if _ || _ then _ else s1).
  assert (Hs2 : session_frame s s2) by (unfold s2; destruct (_ || _); [split; cbn; auto|done]).
  etrans; [exact Hs2|]. destruct (container_to_service_message_id_ s2 !! id); [|apply on_message_failed_inner_frame].
  apply foldl_frame. intros. apply on_message_failed_inner_frame.
Qed.
End object.

(** * Messages of a packet *)

(** A message at the front of [s], and the number of its bytes. *)
Definition read_message (s : bytes) : option (MsgInfo * bytes * Z) :=
  if len s <? 16 then None
  else
    let size := le_load (substr 12 4 s) in
    if negb (size mod 4 =? 0) || (len s - 16 <? size) then None
    else Some (mk_msg (le_load (substr 0 8 s)) (int32 (le_load (substr 8 4 s))) size, substr 16 size s, 16 + size).

Lemma fetch_unsafe_at n m pos left :
  0 <= pos -> 0 <= n -> pos + n <= len m ->
  fetch_unsafe n (at_pos m pos left) = Ok (substr pos n m, at_pos m (pos + n) left).
Proof.
  intros Hp Hn Hl. unfold fetch_unsafe, peek, at_pos, advance. cbn [position source data_len left_len error error_pos].
  rewrite Z.add_0_r, (proj2 (Z.leb_le 0 pos)), (proj2 (Z.leb_le (pos + n) (len m))) by lia. done.
Qed.

Lemma parsing_substr pre rest off n : 0 <= off -> substr (len pre + off) n (pre ++ rest) = substr off n rest.
Proof.
  intros Ho. unfold substr. replace (Z.to_nat (len pre + off)) with (length pre + Z.to_nat off)%nat by (unfold len; lia).
  by rewrite <- drop_drop, drop_app_length.
Qed.

(** [parse_message] on a live parser. *)
Lemma parse_message_follows pre rest :
  len (pre ++ rest) < max_size_t ->
  match read_message rest with
  | Some (info, body, n) =>
      parse_message (parsing pre rest) = Ok (info, body, parsing (pre ++ truncate n rest) (substr_from n rest)) /\
      16 <= n <= len rest
  | None => exists e, parse_message (parsing pre rest) = Err e
  end.
Proof.
  intros Hlen. unfold parse_message, read_message. rewrite parsing_at, check_len_at, Ok_bind.
  pose proof (len_nonneg pre). pose proof (len_nonneg rest). rewrite len_app in Hlen.
  destruct (Z.ltb_spec (len rest) 16) as [Hs|Hs]; [by eexists|]. cbn [failed at_pos error].
  assert (Hsub : forall off n, 0 <= off -> 0 <= n -> off + n <= len rest ->
    fetch_unsafe n (at_pos (pre ++ rest) (len pre + off) (len rest - 16)) =
      Ok (substr off n rest, at_pos (pre ++ rest) (len pre + (off + n)) (len rest - 16))).
  { intros off n Ho Hn Hb. rewrite fetch_unsafe_at by (rewrite ?len_app; lia). rewrite parsing_substr by done.
    do 3 f_equal. lia. }
  pose proof (Hsub 0 8 ltac:(lia) ltac:(lia) ltac:(lia)) as F1. rewrite Z.add_0_r in F1. change (0 + 8) with 8 in F1.
  pose proof (Hsub 8 4 ltac:(lia) ltac:(lia) ltac:(lia)) as F2. change (8 + 4) with 12 in F2.
  pose proof (Hsub 12 4 ltac:(lia) ltac:(lia) ltac:(lia)) as F3. change (12 + 4) with 16 in F3.
  rewrite F1, Ok_bind. cbn [fst snd]. rewrite F2, Ok_bind. cbn [fst snd]. rewrite F3, Ok_bind. cbn [fst snd]. cbv zeta.
  set (size := le_load (substr 12 4 rest)). assert (Hsz : 0 <= size).
  { unfold size. pose proof (le_load_range (substr 12 4 rest)). lia. }
  destruct (negb (size mod 4 =? 0)); cbn [orb]; [by eexists|].
  unfold fetch_string_raw. rewrite check_len_at, Ok_bind. change (12 + 4) with 16.
  destruct (Z.ltb_spec (len rest - 16) size) as [Hb|Hb]; [by eexists|]. cbn [failed at_pos error].
  pose proof (fetch_unsafe_at size (pre ++ rest) (len pre + 16) (len rest - 16 - size) ltac:(lia) Hsz
    ltac:(rewrite len_app; lia)) as Hf. unfold fetch_unsafe in Hf.
  destruct (peek 0 size _) as [x| |]; cbn in Hf; [|done..]. injection Hf as ->.
  rewrite Ok_bind, advance_at, Ok_bind. cbn [fst snd failed at_pos error]. rewrite parsing_substr by lia. split; [|lia].
  do 2 f_equal. rewrite <- at_pos_parsing by lia. f_equal; lia.
Qed.

(** The messages that a container of [size] announced messages starts with. *)
Fixpoint read_messages (size : nat) (s : bytes) : list (MsgInfo * bytes) :=
  match size with
  | O => []
  | S size =>
      match read_message s with
      | Some (info, body, n) => (info, body) :: read_messages size (substr_from n s)
      | None => []
      end
  end.

Section handlers.
Context `{ServiceApi} `{Gzip} `{SessionCallback} `{Rounding} {G : Type} (now : Q).

(** What a container announces and what it holds. *)
Definition container_messages (rest : bytes) : list (MsgInfo * bytes) :=
  read_messages (Z.to_nat (int32 (le_load (truncate 4 rest)))) (substr_from 4 rest).

(** A packet is nested less deep than [depth] calls: containers in containers,
    and objects that were packed once more. *)
Fixpoint nests (depth : nat) (packet : bytes) : Prop :=
  match depth with
  | O => False
  | S depth =>
      len packet < max_size_t /\
      let id := int32 (le_load (truncate 4 packet)) in
      let rest := substr_from 4 packet in
      (id = msg_container_ID -> Forall (fun m => nests depth m.2) (container_messages rest)) /\
      (forall data parser, id <> msg_container_ID -> fetch_object id (new_parser rest) = Ok (gzip_packed data, parser) ->
         nests depth (gzdecode data))
  end.

(** The session's reactions: keys are dropped or replaced by keys, and it only
    takes a note of a container that was sent. *)
Class SessionCallbackLaws : Prop := {
  container_sent_noted es id ids a : reactions es (ContainerSent id ids) a = [];
  reaction_keys es e a pfs main tmp : auth_ok a -> SetKeys pfs main tmp ∈ reactions es e a ->
    key_state_ok main /\ key_state_ok tmp;
}.

Context `{!ServiceLaws} `{!SessionCallbackLaws}.

(** ** Handlers that keep the frame *)

Definition fine {A} (m : M (world G) A) : Prop := forall w,
  auth_ok (auth_data_ w) -> (m w).1 <> Crash /\ world_frame w (m w).2.

Lemma fine_ret {A} (a : A) : fine (mret a).
Proof. intros w _. by split. Qed.

Lemma fine_bind_ok {A B} (m : M (world G) A) (f : A -> M (world G) B) :
  fine m -> (forall w a w', auth_ok (auth_data_ w) -> m w = (Ok a, w') -> fine (f a)) -> fine (m ≫= f).
Proof.
  intros Hm Hf w Hw. destruct (Hm w Hw) as [Hc Hfr]. specialize (Hf w). unfold mbind, M_bind.
  destruct (m w) as [[a|e|] w1]; [|by split|done].
  destruct (Hf a w1 Hw eq_refl w1) as [Hc' Hfr']; [by apply (frame_auth _ _ Hfr)|]. split; [done|by etrans].
Qed.

Lemma fine_bind {A B} (m : M (world G) A) (f : A -> M (world G) B) :
  fine m -> (forall a, fine (f a)) -> fine (m ≫= f).
Proof. intros Hm Hf. by apply fine_bind_ok. Qed.

Lemma fine_lift {A} (m : outcome A) : m <> Crash -> fine (lift m).
Proof. intros Hm w _. by split. Qed.

Lemma fine_throw {A} message : fine (throw message : M (world G) A).
Proof. by apply fine_lift. Qed.

Lemma fine_modify f : (forall s, session_frame s (f s)) -> fine (modify f).
Proof. intros Hf w _. split; [done|]. split; cbn; try done; apply Hf. Qed.

Lemma fine_asks {A} (f : session_connection -> A) : fine (asks f).
Proof. intros w _. by split. Qed.

Lemma fine_with_auth {A} (f : AuthData -> A * AuthData) : (forall a, auth_ok a -> auth_frame a (f a).2) -> fine (with_auth f).
Proof.
  intros Hf w Hw. specialize (Hf _ Hw). unfold with_auth. destruct (f (auth_data_ w)) as [r a]. split; [done|]. by split.
Qed.

Lemma perform_frame (w : world G) act :
  (forall pfs main tmp, act = SetKeys pfs main tmp -> key_state_ok main /\ key_state_ok tmp) ->
  world_frame w (perform now w act).
Proof.
  intros Hk. destruct act as [|id|id|id|pfs main tmp]; cbn [perform]; split; try done;
    [apply force_ack_frame|apply resend_answer_frame|apply cancel_answer_frame|apply get_state_info_frame|].
  destruct (Hk pfs main tmp eq_refl). split; cbn; try done. intros [? ? ? ? _ _]. by split.
Qed.

Lemma perform_all_frame (acts : list action) (w : world G) :
  Forall (fun act => forall pfs main tmp, act = SetKeys pfs main tmp -> key_state_ok main /\ key_state_ok tmp) acts ->
  world_frame w (foldl (perform now) w acts).
Proof.
  intros Hacts. revert w. induction Hacts as [|act acts Hact _ IH]; intros w; cbn; [reflexivity|].
  etrans; [by apply perform_frame|apply IH].
Qed.

Lemma fine_tell e : fine (tell now e : M (world G) unit).
Proof.
  intros w Hw. split; [done|]. cbn [tell snd]. transitivity (set_events (events w ++ [e]) w).
  - split; cbn; try done. by apply prefix_app_r.
  - apply perform_all_frame, Forall_forall. intros act Hact pfs main tmp ->. by eapply reaction_keys.
Qed.

Lemma fine_ask e : fine (ask now e : M (world G) unit).
Proof.
  intros w Hw. pose proof (fine_tell e w Hw) as [_ Hf]. unfold ask. destruct (tell now e w) as [r w'].
  split; [cbn; by destruct (answer _ _)|done].
Qed.

Lemma fine_tell_all es : fine (tell_all now es : M (world G) unit).
Proof. induction es as [|e es IH]; cbn; [apply fine_ret|]. by apply fine_bind; [apply fine_tell|]. Qed.

(** ** The data of the session *)

Lemma set_time_frame b d a : auth_frame a (set_time b d a).
Proof. split; try done. by intros []; split. Qed.

Lemma set_salts_frame c f a : auth_frame a (set_salts c f a).
Proof. split; try done. by intros []; split. Qed.

Lemma update_salt_frame t a : auth_frame a (update_salt t a).
Proof. unfold update_salt. destruct (pop_salts _ _ _). apply set_salts_frame. Qed.

Lemma set_future_salts_frame salts t a : auth_frame a (set_future_salts salts t a).
Proof.
  unfold set_future_salts. destruct (_ =? 0); [reflexivity|]. etrans; [apply set_salts_frame|apply update_salt_frame].
Qed.

(** A check of an identifier does not crash. *)
Lemma check_duplicates_fine n id c :
  (1 <= n)%nat -> checker_ok n c ->
  (check_message_id_duplicates n id c).1 <> Crash /\ checker_ok n (check_message_id_duplicates n id c).2.
Proof.
  intros Hn Hc. destruct (check_spec n id c Hn Hc) as [Hok Hs]. cbn zeta in *. split; [|done].
  by destruct (check_message_id_duplicates n id c).1.
Qed.

Lemma fine_check_update id : fine (with_auth (fun a => check_update id a)) /\
  forall w : world G, auth_ok (auth_data_ w) -> forall r w', with_auth (fun a => check_update id a) w = (Ok r, w') -> r <> Crash.
Proof.
  split.
  - apply fine_with_auth. intros a Ha. unfold check_update. pose proof (check_duplicates_fine 1000 id _ ltac:(lia) (ok_updates _ Ha)) as [_ Hc].
    destruct (check_message_id_duplicates 1000 id _) as [r c]. destruct Ha. by split; cbn; try done; intros []; split.
  - intros w Ha r w'. unfold with_auth, check_update.
    pose proof (check_duplicates_fine 1000 id _ ltac:(lia) (ok_updates _ Ha)) as [Hr _].
    destruct (check_message_id_duplicates 1000 id _) as [r' c]. by intros [= <- _].
Qed.

Lemma fine_recheck_update id : fine (with_auth (fun a => recheck_update id a) : M (world G) (outcome unit)).
Proof.
  apply fine_with_auth. intros a Ha. unfold recheck_update.
  pose proof (check_duplicates_fine 100 id _ ltac:(lia) (ok_rechecks _ Ha)) as [_ Hc].
  destruct (check_message_id_duplicates 100 id _) as [r c]. destruct Ha. by split; cbn; try done; intros []; split.
Qed.

Lemma update_time_frame d a : auth_frame a (update_server_time_difference d a).2.
Proof.
  unfold update_server_time_difference. destruct (negb _); [apply set_time_frame|].
  destruct (Qltb _ d); [apply set_time_frame|reflexivity].
Qed.

Lemma check_packet_frame session id t updated a :
  auth_ok a -> auth_frame a (check_packet session id t updated a).2 /\ (check_packet session id t updated a).1.1 <> Crash.
Proof.
  intros Ha. unfold check_packet, get_session_id.
  rewrite (proj2 (Z.eqb_neq (session_id_ a) 0)) by apply (ok_session _ Ha). cbn [negb check]. rewrite Ok_bind.
  destruct (negb _); [by split|]. destruct (_ =? 0); [by split|].
  pose proof (check_duplicates_fine 1000 id _ ltac:(lia) (ok_packets _ Ha)) as [Hr Hc].
  destruct (check_message_id_duplicates 1000 id _) as [r c]. cbn [fst snd] in *. set (a1 := set_checkers c _ _ a).
  assert (Ha1 : auth_frame a a1) by (destruct Ha; by split; cbn; try done; intros []; split).
  destruct r as [u|e|]; [|by split|done].
  pose proof (update_time_frame (rnd (inject_Z (uint32 (Z.shiftr id 32)) - t)) a1) as Ha2.
  destruct (update_server_time_difference _ a1) as [b a2]. cbn [snd] in Ha2.
  destruct (_ && _); (split; [by etrans|done]).
Qed.

(** ** Every handler *)

Ltac fine_step :=
  first
  [ apply fine_ret | apply fine_throw | apply fine_asks | apply fine_tell | apply fine_ask | apply fine_tell_all
  | apply fine_recheck_update
  | solve [apply fine_modify; intros ?; apply forget_message_frame]
  | solve [apply fine_modify; intros ?; apply send_ack_spec]
  | solve [apply fine_modify; intros ?; split; cbn; try done; first [by left | by right | apply delete_subseteq]]
  | solve [apply fine_with_auth; intros ? _; cbn [snd];
      first [apply set_time_frame | apply set_salts_frame | apply set_future_salts_frame | reflexivity]]
  | apply fine_bind; [|intros ?] ].

Lemma fine_reset id : fine (reset_server_time_difference now id : M (world G) unit).
Proof. unfold SessionConnection.reset_server_time_difference. repeat fine_step. Qed.

Lemma fine_on_message_failed id reason : fine (on_message_failed now id reason : M (world G) unit).
Proof. unfold on_message_failed. repeat fine_step. Qed.

Create HintDb fine discriminated.
#[local] Hint Resolve fine_reset fine_on_message_failed : fine.

(** Both sides of a test. *)
Ltac fine_cases :=
  repeat first
  [ fine_step | solve [eauto with fine] | progress cbn beta iota
  | match goal with
    | |- fine (if ?b then _ else _) => destruct b
    | |- fine (match ?x with None => _ | Some _ => _ end) => destruct x
    | |- fine (match ?x with GetStateInfo => _ | ResendAnswer => _ end) => destruct x
    end ].

Lemma fine_on_object info o : fine (on_object now info o : M (world G) unit).
Proof.
  destruct o; cbn [on_object]; unfold on_destroy_auth_key, on_new_session_created, on_bad_msg_notification,
    on_bad_server_salt, on_msgs_ack, on_pong, on_future_salts, on_msgs_state_info_packet, on_msgs_state_info; cbv zeta; fine_cases.
Qed.

Lemma new_parser_of m : parser_of m (new_parser m).
Proof. rewrite new_parser_eq. by constructor. Qed.

(** A total fetch in a handler. *)
Lemma fine_fetch {A B} (fetch : tl_parser -> outcome (A * tl_parser)) m p (f : A * tl_parser -> M (world G) B) :
  total_fetch fetch -> len m < max_size_t -> parser_of m p ->
  (forall a q, parser_of m q -> fetch p = Ok (a, q) -> fine (f (a, q))) -> fine (r ← lift (fetch p); f r).
Proof.
  intros Ht Hl Hp Hf. destruct (Ht m p Hl Hp) as (a & q & E & Hq). rewrite E. by apply (Hf a q).
Qed.

Lemma fine_on_packet_rpc_result info packet :
  len packet < max_size_t -> fine (on_packet_rpc_result now info packet : M (world G) unit).
Proof.
  intros Hl. unfold on_packet_rpc_result.
  eapply fine_fetch; [apply total_fetch_long|exact Hl|apply new_parser_of|]. intros req p Hp _. cbv zeta.
  destruct (failed p); [fine_step|]. destruct (_ =? 0); [fine_step|]. apply fine_bind; [fine_cases|intros ?].
  eapply fine_fetch; [apply total_fetch_int|exact Hl|exact Hp|]. intros id q Hq _.
  destruct (id =? rpc_error_ID).
  - eapply fine_fetch; [apply rpc_error_total|exact Hl|exact Hq|]. intros [code message] q' _ _. fine_cases.
  - destruct (id =? gzip_packed_ID); [|fine_cases].
    eapply fine_fetch; [apply gzip_packed_total|exact Hl|exact Hq|]. intros data q' _ _. fine_cases.
Qed.

Lemma fine_on_update_packet info packet : fine (on_update_packet now info packet : M (world G) unit).
Proof.
  unfold on_update_packet. destruct (fine_check_update (info_message_id info)) as [Hf Hr].
  apply fine_bind_ok; [exact Hf|]. intros w status w' Hw E. specialize (Hr w Hw status w' E).
  apply fine_bind; [fine_step|intros _]. destruct status as [u|e|]; [fine_step| |done].
  destruct (_ =? 2); [|fine_step]. apply fine_bind; [fine_step|intros _]. by apply fine_lift.
Qed.

(** ** Nested packets *)

Lemma nests_len depth packet : nests depth packet -> len packet < max_size_t.
Proof. destruct depth; [done|]. by intros []. Qed.

Lemma fine_parse_packets handle size pre rest :
  len (pre ++ rest) < max_size_t -> Forall (fun m => fine (handle m.1 m.2 : M (world G) unit)) (read_messages size rest) ->
  forall w, auth_ok (auth_data_ w) ->
  let r := parse_packets handle size (parsing pre rest) w in
  r.1 <> Crash /\ world_frame w r.2 /\ (forall p, r.1 = Ok p -> exists pre' rest', p = parsing pre' rest' /\ pre' ++ rest' = pre ++ rest).
Proof.
  revert pre rest. induction size as [|size IH]; intros pre rest Hl Hms w Hw; cbn [parse_packets].
  { split; [done|]. split; [reflexivity|]. intros p [= <-]. by exists pre, rest. }
  pose proof (parse_message_follows pre rest Hl) as Hp. cbn [read_messages] in Hms.
  destruct (read_message rest) as [[[info body] n]|].
  - destruct Hp as [-> Hn]. apply Forall_cons in Hms as [Hh Hms]. rewrite lift_Ok_bind. cbn [fst snd] in Hh.
    destruct (Hh w Hw) as [Hc Hfr]. destruct (handle info body w) as [r w1] eqn:E. rewrite (bind_step _ _ _ _ _ E).
    cbn [fst snd] in *. destruct r as [u|e|]; [|by split_and!|done].
    assert (Hl' : len ((pre ++ truncate n rest) ++ substr_from n rest) < max_size_t)
      by (unfold truncate, substr_from; by rewrite <- app_assoc, take_drop).
    destruct (IH _ _ Hl' Hms w1) as (Hc' & Hfr' & Hp'); [by apply (frame_auth _ _ Hfr)|]. cbn zeta in *.
    split; [done|]. split; [by etrans|]. intros p Ep. destruct (Hp' p Ep) as (pre' & rest' & -> & E').
    eexists _, _. split; [reflexivity|]. rewrite E'. unfold truncate, substr_from. by rewrite <- app_assoc, take_drop.
  - destruct Hp as [e ->]. split; [done|]. by split.
Qed.

Lemma fine_on_packet_container depth packet :
  len packet < max_size_t -> Forall (fun m => fine (on_slice_packet now depth m.1 m.2 : M (world G) unit)) (container_messages packet) ->
  fine (on_packet_container (on_slice_packet now depth) packet : M (world G) unit).
Proof.
  intros Hl Hms. unfold on_packet_container.
  pose proof (fetch_binary_follows 4 ltac:(lia) [] packet Hl) as Hf. unfold fetch_int. rewrite new_parser_eq.
  unfold container_messages in Hms. unfold read_exact in Hf. destruct (Z.ltb_spec (len packet) 4) as [Hs4|Hs4].
  - destruct Hf as (v & q & -> & Hq). rewrite Ok_bind, lift_Ok_bind. cbn [fst snd]. unfold failed.
    destruct Hq as [_ _ _ [e ->] _]. fine_step.
  - destruct Hf as [_ ->]. rewrite Ok_bind, lift_Ok_bind. cbn [fst snd failed parsing error app].
    intros w Hw. destruct (fine_parse_packets (on_slice_packet now depth) (Z.to_nat (int32 (le_load (truncate 4 packet))))
      (truncate 4 packet) (substr_from 4 packet)) with (w := w) as (Hc & Hfr & _); [|exact Hms|exact Hw|].
    { unfold truncate, substr_from. by rewrite take_drop. }
    destruct (parse_packets _ _ _ w) as [r w1] eqn:E. rewrite (bind_step _ _ _ _ _ E). cbn [fst snd] in *.
    destruct r; by split.
Qed.

Lemma fine_on_slice_packet depth : forall info packet,
  nests depth packet -> fine (on_slice_packet now depth info packet : M (world G) unit).
Proof.
  induction depth as [|depth IH]; intros info packet Hn; [done|]. destruct Hn as (Hl & Hcont & Hzip).
  cbn [on_slice_packet]. apply fine_bind; [destruct (Z.testbit _ 0); fine_step|intros _].
  destruct (Z.ltb_spec (len packet) 4) as [Hs4|Hs4]; [fine_cases|]. cbv zeta in *.
  assert (Hr : len (substr_from 4 packet) < max_size_t) by (unfold substr_from; rewrite len_drop by lia; lia).
  destruct (Z.eqb_spec (int32 (le_load (truncate 4 packet))) msg_container_ID) as [Ec|Ec].
  - apply fine_on_packet_container; [exact Hr|]. eapply Forall_impl; [exact (Hcont Ec)|]. intros m Hm. by apply IH.
  - destruct (_ =? rpc_result_ID); [by apply fine_on_packet_rpc_result|].
    destruct (is_service _); [|apply fine_on_update_packet].
    eapply fine_fetch; [apply object_total|exact Hr|apply new_parser_of|]. intros o p Hp Ho.
    assert (He : exists q, fetch_end p = Ok q).
    { unfold fetch_end. destruct (left_len p =? 0); [by eexists|].
      destruct (total_set_error _ "Too much data to fetch" p Hr Hp) as (q & -> & _). by eexists. }
    destruct He as (q & ->). rewrite lift_Ok_bind. destruct (error q); [fine_step|].
    assert (Hobj : fine (on_object now info o : M (world G) unit)) by apply fine_on_object.
    destruct o; try exact Hobj. apply IH. by eapply Hzip.
Qed.

(** A packet that arrives: [parse_packet] of its one message. *)
Lemma fine_on_main_packet depth info packet :
  len packet < max_size_t ->
  (forall m body n, read_message packet = Some (m, body, n) -> nests depth body) ->
  fine (on_main_packet now depth info packet : M (world G) unit).
Proof.
  intros Hl Hn. unfold on_main_packet. apply fine_bind; [fine_step|intros _]. apply fine_bind; [fine_step|intros connected].
  apply fine_bind; [destruct (negb connected); [apply fine_bind; [|intros _]|]; fine_step|intros _].
  destruct (no_crypto_flag info); [fine_step|]. rewrite new_parser_eq. intros w Hw.
  destruct (fine_parse_packets (on_slice_packet now depth) 1 [] packet Hl) with (w := w) as (Hc & Hfr & Hp); [|exact Hw|].
  { cbn [read_messages]. destruct (read_message packet) as [[[m body] n]|] eqn:E; [|constructor].
    constructor; [|constructor]. apply fine_on_slice_packet. by eapply Hn. }
  destruct (parse_packets _ 1 _ w) as [r w1] eqn:E. rewrite (bind_step _ _ _ _ _ E). cbn [fst snd] in *.
  destruct r as [p|e|]; [|by split|done]. destruct (Hp p eq_refl) as (pre & rest & -> & Epre).
  assert (Hend : fine (parser ← lift (fetch_end (parsing pre rest));
    if failed parser then throw "Failed to parse packet: " else mret tt : M (world G) unit)).
  { assert (He : exists q, fetch_end (parsing pre rest) = Ok q).
    { unfold fetch_end. destruct (_ =? 0); [by eexists|].
      destruct (total_set_error (pre ++ rest) "Too much data to fetch" (parsing pre rest)) as (q & -> & _);
        [by rewrite Epre|by constructor|by eexists]. }
    destruct He as (q & ->). rewrite lift_Ok_bind. destruct (failed q); fine_step. }
  destruct (Hend w1) as [Hc' Hfr']; [by apply (frame_auth _ _ Hfr)|]. split; [done|by etrans].
Qed.

Lemma fine_check_packet session id :
  fine (with_auth (fun a => check_packet session id now false a) : M (world G) (outcome unit * bool)) /\
  forall w : world G, auth_ok (auth_data_ w) -> forall r b w',
    with_auth (fun a => check_packet session id now false a) w = (Ok (r, b), w') -> r <> Crash.
Proof.
  split; [apply fine_with_auth; intros a Ha; apply (check_packet_frame _ _ _ _ _ Ha)|].
  intros w Hw r b w'. unfold with_auth. destruct (check_packet_frame session id now false _ Hw) as [_ Hr].
  destruct (check_packet _ _ _ _ _) as [[r' b'] a']. by intros [= <- _ _].
Qed.

Lemma fine_on_raw_packet depth info packet :
  len packet < max_size_t ->
  (forall m body n, read_message packet = Some (m, body, n) -> nests depth body) ->
  fine (on_raw_packet now depth info packet : M (world G) unit).
Proof.
  intros Hl Hn. unfold on_raw_packet. destruct (no_crypto_flag info); [fine_step|].
  destruct (fine_check_packet (session_id info) (message_id info)) as [Hf Hr].
  apply fine_bind_ok; [exact Hf|]. intros w [status updated] w' Hw E. specialize (Hr w Hw status updated w' E).
  apply fine_bind; [destruct updated; fine_step|intros _].
  destruct status as [u|e|]; [by apply fine_on_main_packet| |done].
  destruct (_ =? 1); [fine_step|]. destruct (_ =? 2); [|by apply fine_lift].
  apply fine_bind; [fine_step|intros _]. by apply fine_lift.
Qed.
End handlers.
