(* ===== verification/SessionSample.v ===== *)
(** A session and what surrounds it, to evaluate the theorems on: a callback
    that does nothing, a [gzip] that unpacks nothing, and a connection with a
    query, acknowledgements and requests that wait. *)
From Stdlib Require Import QArith.
From S2P Require Import Prelude Bytes Random Crypto Kdf Tl Transport MessageIds AuthData TlObject ServiceApi CryptoStorer CryptoStorerSpec RawConnection SessionConnection SessionReceive.
#[local] Open Scope Z_scope.

#[export] Instance no_gzip : Gzip := {| gzdecode _ := [] |}.

#[export] Instance silent : SessionCallback := {| reactions _ _ _ := []; answer _ _ := None |}.

#[export] Instance silent_laws : SessionCallbackLaws.
Proof. split; [done|]. intros es e a pfs main tmp _ Hin. by apply not_elem_of_nil in Hin. Qed.

Definition sample_key_state : auth_key_state := mk_key_state sample_key true true 100 100 0.

(** A salt that is valid until [2000]. *)
Definition sample_data : AuthData :=
  mk_AuthData false sample_key_state no_key true 0 (mk_salt 1 0 2000) 0 0 [] 9 []
    (new_checker 1000) (new_checker 1000) (new_checker 100).

Definition sample_query (id seq_no : Z) (data : bytes) : MtprotoQuery := mk_query id seq_no data false [] false.

Definition sample_session : session_connection :=
  mk_session true true [sample_query 4 1 (hex [1; 2; 3; 4])] [16; 20] 5 [24] [] [28; 32] ∅ ∅ 0 0 0 0 0 0 false false 0 0 0
    Run Tcp true 0.

Definition sample_world : world script := mk_world sample_session sample_data [] sample_draws.

Lemma sample_data_ok : auth_ok sample_data.
Proof.
  split; [done|apply new_checker_ok..| |]; [left; apply sample_key_ok|by right].
Qed.

(** ** How deep a packet can be nested *)

Lemma read_message_short s info body n : read_message s = Some (info, body, n) -> (length body < length s)%nat.
Proof.
  unfold read_message. destruct (Z.ltb_spec (len s) 16) as [|Hl]; [done|]. cbv zeta. destruct (_ || _); [done|].
  intros [= _ <- _]. unfold substr. rewrite length_take, length_drop. unfold len in Hl. lia.
Qed.

Lemma read_messages_short size : forall s, Forall (fun m => (length m.2 < length s)%nat) (read_messages size s).
Proof.
  induction size as [|size IH]; intros s; cbn [read_messages]; [constructor|].
  destruct (read_message s) as [[[info body] n]|] eqn:E; [|constructor].
  constructor; [by eapply read_message_short|]. eapply Forall_impl; [apply IH|]. cbn. intros m Hm.
  unfold substr_from in Hm. rewrite length_drop in Hm. lia.
Qed.

Section nesting.
Context `{ServiceApi} `{Gzip}.

Lemma nests_more depth packet : nests depth packet -> nests (S depth) packet.
Proof.
  revert packet. induction depth as [|depth IH]; intros packet; [done|]. intros (Hl & Hc & Hz). split; [done|].
  split; [|by eauto]. intros E. eapply Forall_impl; [exact (Hc E)|]. eauto.
Qed.

Lemma nests_le d d' packet : (d <= d')%nat -> nests d packet -> nests d' packet.
Proof. induction 1; [done|]. intros. by apply nests_more; auto. Qed.

(** A container takes bytes, so that only what was packed can be deeper than a
    packet is long. *)
Lemma nests_bounded k :
  (forall data, nests k (gzdecode data)) ->
  forall n packet, (length packet < n)%nat -> len packet < max_size_t -> nests (n + k) packet.
Proof.
  intros Hz. induction n as [|n IH]; intros packet Hn Hl; [lia|]. split; [done|]. cbv zeta. split.
  - intros _. pose proof (read_messages_short (Z.to_nat (int32 (le_load (truncate 4 (substr_from 4 packet)))))
      (substr_from 4 (substr_from 4 packet))) as Hs. eapply Forall_impl; [exact Hs|]. cbn. intros m Hm.
    unfold substr_from in Hm. rewrite !length_drop in Hm. unfold len in Hl. apply IH; [lia|unfold len; lia].
  - intros data parser _ _. apply (nests_le k); [lia|apply Hz].
Qed.
End nesting.

Import SchemeServices.

Lemma sample_nests packet : len packet < 1000 -> nests 1002 packet.
Proof.
  intros Hl. apply (nests_bounded 1 ltac:(intros data; split; [done|by split]) 1001); unfold len, max_size_t in *; lia.
Qed.
