(* ===== verification/SessionPacket.v ===== *)
(** What one session writes another takes apart: the messages of a packet are
    handled one by one, in their order. *)
From Stdlib Require Import QArith.
From S2P Require Import Prelude Bytes Random Tl Transport AuthData TlObject ServiceApi CryptoStorer CryptoStorerSpec SessionConnection SessionReceive SessionSample.
#[local] Open Scope Z_scope.

(** A message as the receiver sees it. *)
Definition received (m : message) : MsgInfo * bytes :=
  (mk_msg (uint64 (msg_id m)) (int32 (msg_seqno m)) (len (msg_body m)), msg_body m).

(** Whole words, and a size that its field can hold. *)
Definition body_aligned (m : message) : Prop := len (msg_body m) mod 4 = 0 /\ len (msg_body m) < 2 ^ 31.

Lemma read_written_message m rest :
  body_aligned m -> read_message (message_bytes m ++ rest) = Some (received m, len (message_bytes m)).
Proof.
  intros [Hm Hl]. pose proof (len_nonneg (msg_body m)). pose proof (len_nonneg rest).
  set (id := le_store 8 (msg_id m)). set (seqno := le_store 4 (msg_seqno m)). set (size := le_store 4 (len (msg_body m))).
  assert (E : message_bytes m ++ rest = id ++ seqno ++ size ++ msg_body m ++ rest)
    by (unfold message_bytes; by rewrite <- !app_assoc).
  assert (Hlen : len (message_bytes m ++ rest) = 16 + len (msg_body m) + len rest) by (rewrite len_app, len_message_bytes; lia).
  assert (Hid : substr 0 8 (message_bytes m ++ rest) = id) by (rewrite E; by apply (substr_app_mid' 0 8 [])).
  assert (Hseq : substr 8 4 (message_bytes m ++ rest) = seqno) by (rewrite E; by apply substr_app_mid').
  assert (Hsize : substr 12 4 (message_bytes m ++ rest) = size)
    by (rewrite E, (app_assoc id seqno); by apply substr_app_mid').
  assert (Hbody : substr 16 (len (msg_body m)) (message_bytes m ++ rest) = msg_body m)
    by (rewrite E, (app_assoc id seqno), (app_assoc (id ++ seqno) size); by apply substr_app_mid').
  unfold read_message. rewrite Hlen, (proj2 (Z.ltb_ge _ 16)), Hid, Hseq, Hsize by lia. unfold id, seqno, size.
  rewrite !le_load_store, !len_message_bytes. change (256 ^ Z.of_nat 4) with (2 ^ 32). change (256 ^ Z.of_nat 8) with (2 ^ 64).
  rewrite (Z.mod_small (len _) (2 ^ 32)), Hm, (proj2 (Z.ltb_ge _ (len (msg_body m)))), Hbody by lia. cbn [negb Z.eqb orb].
  unfold received. do 4 f_equal. unfold int32. change (2 ^ 32) with (2 * 2 ^ 31). div_mod_lia.
Qed.

Lemma read_written_messages ms rest :
  Forall body_aligned ms -> read_messages (length ms) (messages_bytes ms ++ rest) = received <$> ms.
Proof.
  induction 1 as [|m ms Hm _ IH]; [done|]. unfold messages_bytes in *. cbn [fmap list_fmap concat length read_messages].
  rewrite <- app_assoc, read_written_message by done. unfold received at 1. cbn [fst snd]. f_equal. unfold substr_from, len.
  by rewrite Nat2Z.id, drop_app_length.
Qed.

Section handling.
Context {S : Type} (handle : MsgInfo -> bytes -> M S unit).

(** The messages are handled one by one, up to the first that fails. *)
Fixpoint handle_all (ms : list (MsgInfo * bytes)) : M S unit :=
  match ms with
  | [] => mret tt
  | m :: ms => _ ← handle m.1 m.2; handle_all ms
  end.
End handling.

Lemma bind_assoc {S A B C} (m : M S A) (f : A -> M S B) (g : B -> M S C) s :
  ((m ≫= f) ≫= g) s = (m ≫= (fun a => f a ≫= g)) s.
Proof. unfold mbind, M_bind. by destruct (m s) as [[] ?]. Qed.

Lemma bind_ext {S A B} (m : M S A) (f g : A -> M S B) s : (forall a s', f a s' = g a s') -> (m ≫= f) s = (m ≫= g) s.
Proof. intros E. unfold mbind, M_bind. by destruct (m s) as [[] ?]. Qed.

Section receiving.
Context `{ServiceApi} `{Gzip} `{SessionCallback} `{Rounding} {G : Type} (now : Q).

#[local] Abbreviation Handler := (M (world G)).

(** What a container holds is handled as if it had come message by message;
    then an error when there was less than it announced. *)
Lemma parse_packets_in_order (handle : MsgInfo -> bytes -> Handler unit) size : forall pre rest,
  len (pre ++ rest) < max_size_t ->
  exists r, (forall w, parse_packets handle size (parsing pre rest) w = (_ ← handle_all handle (read_messages size rest); lift r) w) /\
    (if bool_decide (length (read_messages size rest) = size)
     then exists pre' rest', r = Ok (parsing pre' rest') /\ pre' ++ rest' = pre ++ rest
     else exists e, r = Err e).
Proof.
  induction size as [|size IH]; intros pre rest Hl; cbn [parse_packets read_messages].
  { exists (Ok (parsing pre rest)). split; [done|]. rewrite bool_decide_eq_true_2 by done. eauto. }
  pose proof (parse_message_follows pre rest Hl) as Hp.
  destruct (read_message rest) as [[[info body] n]|].
  - destruct Hp as [-> Hn]. destruct (IH (pre ++ truncate n rest) (substr_from n rest)) as (r & Hr & Hcase).
    { unfold truncate, substr_from. by rewrite <- app_assoc, take_drop. }
    exists r. split.
    + intros w. rewrite lift_Ok_bind. cbn [handle_all fst snd]. rewrite bind_assoc. apply bind_ext. intros _ w'. apply Hr.
    + cbn [length]. destruct (decide (length (read_messages size (substr_from n rest)) = size)) as [E|E].
      * rewrite !bool_decide_eq_true_2 in * by congruence. destruct Hcase as (pre' & rest' & -> & Ep).
        exists pre', rest'. split; [done|]. rewrite Ep. unfold truncate, substr_from. by rewrite <- app_assoc, take_drop.
      * rewrite !bool_decide_eq_false_2 in * by congruence. done.
  - destruct Hp as [e ->]. exists (Err e). split; [done|]. cbn [length]. rewrite bool_decide_eq_false_2 by done. eauto.
Qed.

(** C17: A container is handled as the messages that it holds, one by one and in
    their order, each as if it had come alone; the first that fails stops the
    rest. When there is less than the container announced, that is an error, but
    what came before it was handled. *)
Theorem container_in_order (depth : nat) (packet : bytes) :
  4 <= len packet < max_size_t ->
  let size := Z.to_nat (int32 (le_load (truncate 4 packet))) in
  exists end_ : outcome unit,
    (forall w : world G, on_packet_container (on_slice_packet now depth) packet w =
      (_ ← handle_all (on_slice_packet now depth) (container_messages packet); lift end_) w) /\
    (end_ = Ok tt <-> length (container_messages packet) = size) /\ end_ <> Crash.
Proof.
  intros Hl size. unfold on_packet_container.
  pose proof (fetch_binary_follows 4 ltac:(lia) [] packet ltac:(cbn; lia)) as Hf. unfold fetch_int. rewrite new_parser_eq.
  unfold read_exact in Hf. rewrite (proj2 (Z.ltb_ge _ _)) in Hf by lia. destruct Hf as [_ ->].
  rewrite Ok_bind, lift_Ok_bind. cbn [fst snd failed parsing error app].
  destruct (parse_packets_in_order (on_slice_packet now depth) size (truncate 4 packet) (substr_from 4 packet)) as (r & Hr & Hcase).
  { unfold truncate, substr_from. rewrite take_drop. lia. }
  change (read_messages size (substr_from 4 packet)) with (container_messages packet) in Hr, Hcase.
  exists (_ ← r; Ok tt). split.
  - intros w. fold size. unfold mbind at 1, M_bind at 1. rewrite Hr. unfold mbind, M_bind, lift.
    destruct (handle_all _ _ w) as [[u|e|] w']; [|done..]. by destruct r.
  - case_bool_decide as E.
    + destruct Hcase as (pre' & rest' & -> & _). done.
    + destruct Hcase as [e ->]. by split.
Qed.
End receiving.

(** * A packet that was written *)

Lemma int32_even z : Z.even z = true -> Z.testbit (int32 z) 0 = false.
Proof.
  intros He. pose proof (Zmod_even z) as Hz. rewrite He in Hz. pose proof (Z.bit0_mod (int32 z)) as Hb.
  assert (Hm : int32 z mod 2 = 0) by (unfold int32; div_mod_lia). rewrite Hm in Hb. by destruct (Z.testbit _ 0).
Qed.

Lemma constructor_front id rest :
  truncate 4 (le_store 4 id ++ rest) = le_store 4 id /\ substr_from 4 (le_store 4 id ++ rest) = rest.
Proof.
  unfold truncate, substr_from. change (Z.to_nat 4) with 4%nat. rewrite <- (length_le_store 4 id).
  by rewrite take_app_length, drop_app_length.
Qed.

Section receiving_written.
Context `{ServiceApi} `{Gzip} `{SessionCallback} `{Rounding} {G : Type} (now : Q).

#[local] Abbreviation Handler := (M (world G)).

(** The messages behind each other, and what comes after them. *)
Lemma parse_written (handle : MsgInfo -> bytes -> Handler unit) ms : forall pre rest w,
  Forall body_aligned ms -> len (pre ++ messages_bytes ms ++ rest) < max_size_t ->
  parse_packets handle (length ms) (parsing pre (messages_bytes ms ++ rest)) w =
    (_ ← handle_all handle (received <$> ms); mret (parsing (pre ++ messages_bytes ms) rest)) w.
Proof.
  induction ms as [|m ms IH]; intros pre rest w Hms Hl.
  { cbn. by rewrite app_nil_r. }
  inversion Hms as [|? ? Hm Hms']; subst. change (messages_bytes (m :: ms)) with (message_bytes m ++ messages_bytes ms) in *.
  rewrite <- app_assoc in Hl |- *. cbn [length parse_packets].
  pose proof (parse_message_follows pre (message_bytes m ++ messages_bytes ms ++ rest) Hl) as Hp.
  rewrite read_written_message in Hp by done. unfold received in Hp. destruct Hp as [-> _]. rewrite lift_Ok_bind.
  assert (Hsplit : truncate (len (message_bytes m)) (message_bytes m ++ messages_bytes ms ++ rest) = message_bytes m /\
    substr_from (len (message_bytes m)) (message_bytes m ++ messages_bytes ms ++ rest) = messages_bytes ms ++ rest).
  { unfold truncate, substr_from, len. by rewrite Nat2Z.id, take_app_length, drop_app_length. }
  destruct Hsplit as [-> ->]. cbn [fmap list_fmap handle_all received fst snd]. rewrite bind_assoc. apply bind_ext.
  intros _ w'. rewrite IH by (rewrite <- ?app_assoc; done). by rewrite <- app_assoc.
Qed.

(** A container is unpacked. *)
Lemma slice_container depth m ms w :
  msg_body m = container_body ms -> Z.even (msg_seqno m) = true -> Forall body_aligned ms ->
  len (msg_body m) < 2 ^ 31 ->
  on_slice_packet now (S depth) (received m).1 (received m).2 w =
    handle_all (on_slice_packet (G := G) now depth) (received <$> ms) w.
Proof.
  intros Hb He Hms Hl. unfold received at 1 2. cbn [fst snd on_slice_packet info_seq_no]. rewrite int32_even by done.
  unfold mret at 1, M_ret at 1, mbind at 1, M_bind at 1.
  assert (Hcount : len ms <= len (messages_bytes ms)).
  { clear. induction ms as [|m ms IH]; [done|]. change (messages_bytes (m :: ms)) with (message_bytes m ++ messages_bytes ms).
    rewrite len_cons, len_app, len_message_bytes. pose proof (len_nonneg (msg_body m)). lia. }
  pose proof (len_nonneg ms). rewrite Hb in *. unfold container_body in *. rewrite !len_app, !len_le_store in Hl.
  set (body := _ ++ _ ++ messages_bytes ms) in *.
  assert (Hbody : len body = 8 + len (messages_bytes ms)) by (unfold body; rewrite !len_app, !len_le_store; lia).
  rewrite (proj2 (Z.ltb_ge (len body) 4)) by lia.
  destruct (constructor_front msg_container_ID (le_store 4 (len ms) ++ messages_bytes ms)) as [E1 E2].
  fold body in E1, E2. cbv zeta. rewrite E1, E2. replace (int32 (le_load (le_store 4 msg_container_ID)) =? msg_container_ID) with true
    by (vm_compute; reflexivity).
  unfold on_packet_container. unfold fetch_int. rewrite new_parser_eq.
  pose proof (fetch_binary_follows 4 ltac:(lia) [] (le_store 4 (len ms) ++ messages_bytes ms)) as Hf.
  unfold read_exact in Hf. rewrite app_nil_l, (proj2 (Z.ltb_ge _ 4)) in Hf by (rewrite len_app, len_le_store; lia).
  destruct Hf as [_ ->]; [rewrite len_app, len_le_store; unfold max_size_t; lia|].
  rewrite Ok_bind, lift_Ok_bind. cbn [fst snd failed parsing error app].
  destruct (constructor_front (len ms) (messages_bytes ms)) as [-> ->].
  rewrite le_load_store. change (256 ^ Z.of_nat 4) with (2 ^ 32). rewrite Z.mod_small, int32_small by lia.
  unfold len at 1. rewrite Nat2Z.id. pose proof (parse_written (on_slice_packet now depth) ms (le_store 4 (len ms)) [] w Hms) as Hp.
  rewrite app_nil_r in Hp. unfold mbind at 1, M_bind at 1. rewrite Hp by (rewrite len_app, len_le_store; unfold max_size_t; lia).
  unfold mbind, M_bind. destruct (handle_all _ _ w) as [[[]|e|] w']; done.
Qed.
End receiving_written.

Section written_packet.
Context `{ServiceLaws} `{Gzip} `{SessionCallback} `{Rounding} {GS G : Type} `{RandomSource GS}.

Lemma received_ok ms :
  Forall aligned (msg_body <$> ms) -> bodies_size (msg_body <$> ms) < 2 ^ 31 -> Forall body_aligned ms.
Proof.
  induction ms as [|m ms IH]; [done|]. cbn [fmap list_fmap]. rewrite Forall_cons, bodies_size_cons. intros [Ha Hms] Hs.
  assert (0 <= bodies_size (msg_body <$> ms)) by (rewrite <- len_messages_bytes; apply len_nonneg).
  pose proof (len_nonneg (msg_body m)). constructor; [by split; [|lia]|]. apply IH; [done|]. lia.
Qed.

(** C4: A packet that one session writes and another reads: the reader handles
    the queries and then the service messages of the writer, each exactly once,
    in the order in which they were written, and nothing is left over. The
    packet is one level of containers deep when it has more than one message, or
    when the identifier of its one query is not, by now, less than 150 seconds
    behind and 30 seconds ahead of the server's clock; otherwise it is the one
    message. *)
Theorem packet_handled_in_order (sent now : Q) (queries : list MtprotoQuery) (header : bytes) (to_ack : list Z)
  (ping_id ping_timeout max_delay max_after max_wait future_salt_n : Z) (get_info resend cancel : list Z)
  (destroy_key : bool) (s : AuthData * GS) :
  let services := service_bodies to_ack ping_id ping_timeout max_delay max_after max_wait future_salt_n get_info
    resend cancel destroy_key in
  packet_fits queries to_ack get_info resend cancel -> len queries + len services <> 0 ->
  aligned header -> Forall query_small queries ->
  queries_size header queries + services_size to_ack get_info resend cancel + 24 < 2 ^ 31 ->
  Z.even (AuthData.seq_no_ s.1) = true ->
  let in_container := contained sent queries to_ack ping_id ping_timeout max_delay max_after max_wait future_salt_n
    get_info resend cancel destroy_key s.1 in
  exists c ids s' p ms,
    new_CryptoImpl sent queries header to_ack ping_id ping_timeout max_delay max_after max_wait future_salt_n
      get_info resend cancel destroy_key s = Ok (c, ids, s') /\
    crypto_packet c = Ok p /\ storer_size p = len (stored p) /\
    msg_body <$> ms = services /\
    let all := (query_message header <$> queries) ++ ms in
    (if in_container
     then exists id seqno, stored p = message_bytes (mk_message id seqno (container_body all))
     else exists m, all = [m] /\ stored p = message_bytes m) /\
    forall depth (w : world G),
      parse_packets (on_slice_packet now (if in_container then S depth else depth)) 1 (new_parser (stored p)) w =
        (_ ← handle_all (on_slice_packet now depth) (received <$> all);
         mret (parsing (stored p) [])) w.
Proof.
  intros services Hfits Hne Hh Hq Hsize Heven in_container.
  destruct (new_CryptoImpl_ok sent queries header to_ack ping_id ping_timeout max_delay max_after max_wait
    future_salt_n get_info resend cancel destroy_key s Hfits Hne) as (c & ids & s' & top & ms & Hnew & Hw).
  destruct (written_size _ _ _ _ _ _ _ _ _ _ _ _ _ _ s s' c ids top ms Hh Hq Hfits Hw) as (Ha & Hs & Hta & Hts).
  destruct Hw as [(p & Hp & Hps & Hst) _ _ _ _ _ Hform]. fold in_container in Hform. cbv zeta in Hform.
  set (all := (query_message header <$> queries) ++ ms) in *. rewrite len_message_bytes in Hts.
  assert (Htop : body_aligned top) by (split; [done|lia]).
  assert (Hall : Forall body_aligned all) by (apply received_ok; [done|lia]).
  assert (Hparse : forall d (w : world G), parse_packets (on_slice_packet now d) 1 (new_parser (stored p)) w =
    (_ ← handle_all (on_slice_packet now d) [received top]; mret (parsing (stored p) [])) w).
  { intros d w. rewrite new_parser_eq, Hst. change 1%nat with (length [top]).
    pose proof (parse_written (on_slice_packet now d) [top] [] [] w) as Hpw. unfold messages_bytes in Hpw. cbn [fmap list_fmap concat app] in Hpw.
    rewrite !app_nil_r in Hpw. apply Hpw; [by constructor|]. rewrite len_message_bytes. unfold max_size_t. lia. }
  exists c, ids, s', p, ms. fold all. destruct in_container.
  - destruct Hform as [Hb Hseq _]. rewrite fmap_app in Hb. cbn [fmap list_fmap] in Hb.
    apply app_inj_2 in Hb as [Hb Hc]; [|done]. injection Hc as Hc.
    apply Forall_app in Hseq as [_ Hseq]. rewrite Forall_singleton in Hseq.
    do 3 (split; [done|]). split; [exact Hb|]. split; [exists (msg_id top), (msg_seqno top); rewrite Hst, <- Hc; by destruct top|].
    intros depth w. rewrite Hparse. cbn [handle_all].
    unfold mbind at 1 2, M_bind at 1 2. rewrite (slice_container now depth top all w Hc) by (rewrite ?Hseq; done || lia).
    unfold mbind, M_bind. by destruct (handle_all _ _ w) as [[[]|e|] w'].
  - destruct Hform as [Hone Hm]. do 3 (split; [done|]). split; [apply (made_bodies _ _ _ _ _ Hm)|]. split; [by exists top|].
    intros depth w. rewrite Hone. apply Hparse.
Qed.
End written_packet.

(** ** Witnesses *)

Import ExactTime SchemeServices.

(** An acknowledgement of two messages and a query, from one session to
    another. *)
Lemma packet_handled_in_order_witness :
  let queries := [sample_query 4 1 (hex [1; 2; 3; 4])] in
  exists c ids s' p ms,
    new_CryptoImpl 10 queries [] [16; 20] 0 0 (-1) 0 0 0 [] [] [] false (sample_data, sample_draws) = Ok (c, ids, s') /\
    crypto_packet c = Ok p /\ len ms = 1 /\
    forall depth (w : world script),
      parse_packets (on_slice_packet 20 (S depth)) 1 (new_parser (stored p)) w =
        (_ ← handle_all (on_slice_packet 20 depth) (received <$> (query_message [] <$> queries) ++ ms);
         mret (parsing (stored p) [])) w.
Proof.
  destruct (packet_handled_in_order (G := script) 10 20 [sample_query 4 1 (hex [1; 2; 3; 4])] [] [16; 20] 0 0 (-1) 0 0 0 [] [] [] false
    (sample_data, sample_draws)) as (c & ids & s' & p & ms & Hn & Hp & _ & Hb & _ & Hh).
  - split; [|by split_and!|reflexivity]. constructor; [|constructor]. apply query_small_fits. by split_and!.
  - discriminate.
  - reflexivity.
  - constructor; [|constructor]. by split_and!.
  - reflexivity.
  - reflexivity.
  - exists c, ids, s', p, ms. split; [exact Hn|]. split; [exact Hp|]. split; [|exact Hh].
    apply (f_equal len) in Hb. rewrite len_fmap in Hb. exact Hb.
Defined.

(** A container that announces two messages and holds one of them. *)
Lemma container_in_order_witness :
  let packet := le_store 4 2 ++ le_store 8 5 ++ le_store 4 2 ++ le_store 4 4 ++ hex [1; 2; 3; 4] in
  exists e, forall w : world script,
    on_packet_container (on_slice_packet 20 3) packet w =
      (_ ← handle_all (on_slice_packet 20 3) [(mk_msg 5 2 4, hex [1; 2; 3; 4])]; lift (Err e)) w.
Proof.
  destruct (container_in_order (G := script) 20 3
    (le_store 4 2 ++ le_store 8 5 ++ le_store 4 2 ++ le_store 4 4 ++ hex [1; 2; 3; 4])) as (r & Hr & Hok & Hc).
  { split; [apply Z.leb_le|apply Z.ltb_lt]; vm_compute; reflexivity. }
  assert (E : container_messages (le_store 4 2 ++ le_store 8 5 ++ le_store 4 2 ++ le_store 4 4 ++ hex [1; 2; 3; 4]) =
    [(mk_msg 5 2 4, hex [1; 2; 3; 4])]) by (vm_compute; reflexivity).
  rewrite E in Hr, Hok. destruct r as [[]|e|]; [|exists e; exact Hr|done].
  exfalso. destruct Hok as [Hok _]. specialize (Hok eq_refl). discriminate.
Defined.
