(* ===== verification/SessionWrite.v ===== *)
(** What the connection of a session writes before the socket is written to:
    when a packet is due, what goes into it, what is left, and that the loop of
    [before_write] ends. *)
From Stdlib Require Import QArith.
From coqutil Require Import Datatypes.RecordSettersUsingExistingGetters.
From S2P Require Import Prelude Bytes Random Buffer Crypto Kdf Tl Transport MessageIds AuthData TlObject ServiceApi CryptoStorer CryptoStorerSpec RawConnection SessionConnection SessionSender SessionReceive.
#[local] Open Scope Z_scope.

(** * The session's data while a packet is written *)

Section data.
Context `{Rounding} (now : Q).

Lemma pop_salts_again st current l :
  let r := pop_salts st current l in pop_salts st r.1 r.2 = r.
Proof.
  revert current. induction l as [|s l IH]; intros current; [done|]. cbn [pop_salts].
  destruct (Qltb (valid_since s) st) eqn:E; [apply IH|]. cbn [fst snd pop_salts]. by rewrite E.
Qed.

(** No salt waits that is valid by now. *)
Definition settled (a : AuthData) : Prop := update_salt now a = a.

Lemma update_salt_settled a : settled (update_salt now a).
Proof.
  unfold settled, update_salt. change (get_server_time now (set_salts ?c ?f a)) with (get_server_time now a).
  pose proof (pop_salts_again (get_server_time now a) (server_salt_ a) (reverse (future_salts_ a))) as Hp.
  destruct (pop_salts _ _ (reverse (future_salts_ a))) as [c r] eqn:E. cbn [fst snd] in Hp.
  change (get_server_time now (set_salts c (reverse r) a)) with (get_server_time now a).
  cbn [server_salt_ future_salts_ set_salts]. by rewrite reverse_involutive, Hp.
Qed.

(** Only identifiers were drawn. *)
Definition ids_drawn (a a' : AuthData) : Prop := a' = set_counters (last_message_id_ a') (AuthData.seq_no_ a) a.

#[export] Instance ids_drawn_preorder : PreOrder ids_drawn.
Proof.
  split; [by intros []|]. intros a b c Hab Hbc. unfold ids_drawn in *. rewrite Hbc, Hab. by destruct a.
Qed.

Lemma drawn_settled a a' : ids_drawn a a' -> settled a -> settled a'.
Proof.
  intros Hd Hs. unfold ids_drawn, settled in *. rewrite Hd. set (l := last_message_id_ a').
  unfold update_salt in *. change (get_server_time now (set_counters ?x ?y a)) with (get_server_time now a).
  cbn [server_salt_ future_salts_ set_counters]. destruct (pop_salts _ _ _) as [c r].
  change (set_salts c (reverse r) (set_counters l (AuthData.seq_no_ a) a)) with
    (set_counters l (AuthData.seq_no_ a) (set_salts c (reverse r) a)).
  by rewrite Hs.
Qed.

Lemma drawn_salt_valid a a' : ids_drawn a a' -> is_server_salt_valid now a' = is_server_salt_valid now a.
Proof. intros ->. reflexivity. Qed.

Lemma drawn_has_key a a' : ids_drawn a a' -> has_auth_key now a' = has_auth_key now a.
Proof. intros ->. reflexivity. Qed.

Lemma drawn_get_key a a' : ids_drawn a a' -> get_auth_key a' = get_auth_key a.
Proof. intros ->. reflexivity. Qed.

Lemma drawn_frame a a' : ids_drawn a a' -> auth_ok a -> auth_ok a'.
Proof. intros -> []. by split. Qed.

Lemma update_salt_has_key a : has_auth_key now (update_salt now a) = has_auth_key now a.
Proof. unfold update_salt. by destruct (pop_salts _ _ _). Qed.

Lemma update_salt_get_key a : get_auth_key (update_salt now a) = get_auth_key a.
Proof. unfold update_salt. by destruct (pop_salts _ _ _). Qed.

Lemma next_message_id_drawn {G} `{RandomSource G} at_ a (g : G) : ids_drawn a (next_message_id at_ a g).1.2.
Proof. unfold ids_drawn. pose proof (next_message_id_frame at_ a g) as Hf. destruct (next_message_id at_ a g) as [[id a'] g']. cbn in *. by rewrite Hf. Qed.

(** A key that is there is a key of the right size. *)
Lemma has_key_ok a : auth_ok a -> has_auth_key now a = true -> key_ok (auth_key (get_auth_key a)).
Proof.
  intros Ha Hk. unfold has_auth_key, has_tmp_auth_key, has_main_auth_key, get_auth_key, key_empty in *.
  destruct (use_pfs a); cbn [negb] in Hk.
  - destruct (ok_tmp _ Ha) as [|Ht]; [done|]. by rewrite Ht in Hk.
  - destruct (ok_main _ Ha) as [|Ht]; [done|]. by rewrite Ht in Hk.
Qed.
End data.

(** * When a packet is due *)

Section writing.
Context `{ServiceApi} `{Gzip} `{SessionCallback} `{Rounding} `{Sha} `{AesIge}.
Context {T G : Type} `{StreamTransport T G} `{RandomSource G}.
Context (now : Q).

(** What [must_flush_packet] decides. *)
Definition needs_flush (t : T) (w : world G) : bool :=
  let s := self w in
  let salt := (has_salt now (auth_data_ w)).1 in
  has_auth_key now (auth_data_ w) && transport_can_write t &&
  if bool_decide (mode_ s = HttpLongPoll) then salt
  else
    salt && (negb (Qeqb (force_send_at_ s) 0) && Qltb (force_send_at_ s) now || must_ping now s
             || need_destroy_auth_key_ s && negb (sent_destroy_auth_key_ s))
    || negb salt && (Qeqb (last_get_future_salt_at_ s) 0 || Qltb (rnd (last_get_future_salt_at_ s + 60)) now).

(** The same but for the time when the next packet is due. *)
Definition same_but_flush_at (s s' : session_connection) : Prop := exists t, s' = { s with flush_packet_at_ := t }.

#[local] Instance same_but_flush_at_preorder : PreOrder same_but_flush_at.
Proof.
  split; [intros s; exists (flush_packet_at_ s); by destruct s|]. intros s1 s2 s3 [t ->] [u ->]. by exists u.
Qed.

Record waited (w w' : world G) : Prop := {
  waited_self : same_but_flush_at (self w) (self w');
  waited_events : events w' = events w;
  waited_gen : gen w' = gen w;
}.

Ltac step := erewrite bind_step by reflexivity; cbv beta iota; cbn [fst snd].

Lemma same_fields s s' :
  same_but_flush_at s s' ->
  mode_ s' = mode_ s /\ force_send_at_ s' = force_send_at_ s /\ must_ping now s' = must_ping now s /\
  last_get_future_salt_at_ s' = last_get_future_salt_at_ s /\
  need_destroy_auth_key_ s' && negb (sent_destroy_auth_key_ s') = need_destroy_auth_key_ s && negb (sent_destroy_auth_key_ s).
Proof. by intros [t ->]. Qed.

(** A call that only sets the time of the next packet. *)
Definition waits (m : M (connection T * world G) unit) : Prop := forall c w,
  exists w', m (c, w) = (Ok tt, (c, w')) /\ waited w w' /\ auth_data_ w' = auth_data_ w.

Lemma waits_set t : waits (set_flush_packet_at t).
Proof. intros c w. eexists. split; [reflexivity|]. split; [|done]. split; [|done..]. by exists t. Qed.

Lemma waits_relax (b : bool) t : waits (if b then relax_flush t else mret tt).
Proof.
  intros c w. destruct b.
  - eexists. split; [reflexivity|]. split; [|done]. split; [|done..]. by eexists.
  - exists w. split; [done|]. split; [|done]. by split.
Qed.

Lemma waited_trans w1 w2 w3 : waited w1 w2 -> waited w2 w3 -> waited w1 w3.
Proof. intros [] []. split; [by etrans|congruence..]. Qed.

Lemma set_auth_same (w : world G) : set_auth (auth_data_ w) w = w.
Proof. by destruct w. Qed.

Lemma must_flush_packet_ok (c : connection T) w :
  exists w', must_flush_packet now (c, w) = (Ok (needs_flush (transport_ c) w), (c, w')) /\ waited w w' /\
    (auth_data_ w' = update_salt now (auth_data_ w) \/
     auth_data_ w' = auth_data_ w /\ needs_flush (transport_ c) w = false).
Proof.
  unfold must_flush_packet. destruct (waits_set 0 c w) as (w1 & E1 & Hw1 & Ha1). rewrite (bind_step _ _ _ _ _ E1).
  step. rewrite set_auth_same. unfold needs_flush. rewrite Ha1. destruct (has_auth_key now (auth_data_ w)); cbn [negb andb]; [|by exists w1; auto].
  step. destruct (transport_can_write (transport_ c)); cbn [negb andb]; [|by exists w1; auto].
  step. step. set (w2 := set_auth _ w1). change (self w2) with (self w1).
  assert (Hw2 : waited w w2) by (by destruct Hw1; split). rewrite Ha1.
  assert (Ha2 : auth_data_ w2 = update_salt now (auth_data_ w)) by (unfold w2; by rewrite Ha1).
  destruct (same_fields _ _ (waited_self _ _ Hw1)) as (-> & Ef & Ep & El & Ed). change (has_salt now (auth_data_ w)).1 with (is_server_salt_valid now (update_salt now (auth_data_ w))).
  set (salt := is_server_salt_valid now (update_salt now (auth_data_ w))).
  destruct (bool_decide (mode_ (self w) = HttpLongPoll)); cbn [andb].
  { exists w2. destruct salt; cbn [negb andb]; auto. }
  step. change (self w2) with (self w1). rewrite Ef.
  rewrite <- andb_assoc. destruct salt; cbn [negb andb orb].
  - destruct (negb (Qeqb (force_send_at_ (self w)) 0) && Qltb (force_send_at_ (self w)) now) eqn:Eforce; cbn [orb]; [by exists w2; auto|].
    destruct (waits_relax (negb (Qeqb (force_send_at_ (self w)) 0)) (force_send_at_ (self w)) c w2) as (w3 & E3 & Hw3 & Ha3).
    rewrite (bind_step _ _ _ _ _ E3). step. destruct (same_fields _ _ (waited_self _ _ Hw3)) as (_ & _ & -> & _).
    change (self w2) with (self w1). rewrite Ep. pose proof (waited_trans _ _ _ Hw2 Hw3) as Hw'.
    destruct (must_ping now (self w)); cbn [orb]; [exists w3; rewrite Ha3; auto|]. step.
    match goal with |- context [relax_flush ?t] => destruct (waits_relax true t c w3) as (w4 & E4 & Hw4 & Ha4) end.
    rewrite (bind_step _ _ _ _ _ E4). step. pose proof (waited_trans _ _ _ Hw' Hw4) as Hw4'.
    destruct (waits_relax false 0 c w4) as (w5 & E5 & Hw5 & Ha5). rewrite (bind_step _ _ _ _ _ E5). step.
    pose proof (waited_trans _ _ _ Hw4' Hw5) as Hw5'. exists w5.
    destruct (same_fields _ _ (waited_self _ _ Hw5')) as (_ & _ & _ & _ & ->). rewrite Ha5, Ha4, Ha3, orb_false_r. auto.
  - destruct (waits_relax false 0 c w2) as (w3 & E3 & Hw3 & Ha3). rewrite (bind_step _ _ _ _ _ E3). step. step.
    destruct (waits_relax false 0 c w3) as (w4 & E4 & Hw4 & Ha4). rewrite (bind_step _ _ _ _ _ E4). step.
    pose proof (waited_trans _ _ _ Hw2 (waited_trans _ _ _ Hw3 Hw4)) as Hw'.
    destruct (same_fields _ _ (waited_self _ _ Hw')) as (_ & _ & _ & -> & _).
    assert (Ha' : auth_data_ w4 = update_salt now (auth_data_ w)) by congruence.
    destruct (Qeqb (last_get_future_salt_at_ (self w)) 0); cbn [orb]; [exists w4; auto|].
    destruct (Qltb (rnd (last_get_future_salt_at_ (self w) + 60)) now); [exists w4; auto|].
    match goal with |- context [relax_flush ?t] => destruct (waits_relax true t c w4) as (w5 & E5 & Hw5 & Ha5) end.
    rewrite (bind_step _ _ _ _ _ E5). step. exists w5. rewrite Ha5. pose proof (waited_trans _ _ _ Hw' Hw5). auto.
Qed.

(** * The queues *)

Lemma cut_tail_spec ids size :
  0 <= size ->
  int64 <$> ids = (int64 <$> (cut_tail ids size).2) ++ (cut_tail ids size).1 /\ len (cut_tail ids size).1 <= size /\
  (length (cut_tail ids size).2 <= length ids)%nat /\
  (0 < size -> ids <> [] -> (length (cut_tail ids size).2 < length ids)%nat /\ (cut_tail ids size).1 <> []).
Proof.
  intros Hs. unfold cut_tail. destruct (Z.leb_spec (len ids) size) as [Hl|Hl]; cbn [fst snd].
  - split; [done|]. rewrite len_fmap. split; [done|]. split; [cbn; lia|]. intros _ Hne. destruct ids; [done|]. cbn. split; [lia|done].
  - split; [by rewrite <- fmap_app, take_drop|]. rewrite len_fmap, len_drop, length_take by lia. split; [lia|]. unfold len in *.
    split; [lia|]. intros Hp _. split; [lia|]. intros E. apply (f_equal length) in E. rewrite length_fmap, length_drop in E. cbn in E. lia.
Qed.

(** Queries as a session makes them: whole words unless they are packed, and of
    bounded size. *)
Record query_sendable (q : MtprotoQuery) : Prop := {
  sendable_size : len (packet q) <= 2 ^ 22;
  sendable_after : len (invoke_after_message_ids q) <= 64;
  sendable_words : gzip_flag q = false -> aligned (packet q);
}.

Definition packets_size (qs : list MtprotoQuery) : Z := foldr (fun q n => len (packet q) + n) 0 qs.

Lemma packets_size_nonneg qs : 0 <= packets_size qs.
Proof. induction qs as [|q qs IH]; [done|]. cbn [packets_size foldr]. fold (packets_size qs). pose proof (len_nonneg (packet q)). lia. Qed.

(** A thousand queries at most, and [2^15] bytes but for the last one. *)
Lemma send_till_spec qs : forall n size,
  Forall query_sendable qs -> 0 <= n <= MAX_QUERY_COUNT -> 0 <= size <= 2 ^ 15 + 2 ^ 22 ->
  let m := send_till_of qs n size in
  n <= m <= MAX_QUERY_COUNT /\ m - n <= len qs /\ size + packets_size (take (Z.to_nat (m - n)) qs) <= 2 ^ 15 + 2 ^ 22 /\
  (qs <> [] -> n < MAX_QUERY_COUNT -> size < 2 ^ 15 -> n < m).
Proof.
  induction qs as [|q qs IH]; intros n size Hqs Hn Hs; cbn [send_till_of]; cbv zeta.
  { rewrite Z.sub_diag. change (packets_size (take (Z.to_nat 0) [])) with 0. split; [lia|]. split; [apply len_nonneg|]. by split; [lia|]. }
  change (Z.shiftl 1 15) with (2 ^ 15). inversion Hqs as [|? ? [Hq _ _] Hqs']; subst. pose proof (len_nonneg (packet q)).
  pose proof (len_nonneg qs). rewrite len_cons.
  destruct ((n <? MAX_QUERY_COUNT) && (size <? 2 ^ 15)) eqn:Egoes; to_prop.
  2:{ rewrite Z.sub_diag. change (packets_size (take (Z.to_nat 0) (q :: qs))) with 0. split; [lia|]. split; [lia|]. split; [lia|].
      intros _ Hn' Hs'. apply andb_false_iff in Egoes as [E|E]; to_prop; lia. }
  destruct (IH (n + 1) (size + len (packet q)) Hqs' ltac:(lia) ltac:(lia)) as (H1' & H2' & H3' & _). cbn zeta.
  split; [lia|]. split; [lia|]. split; [|lia]. replace (Z.to_nat (_ - n)) with (S (Z.to_nat (send_till_of qs (n + 1) (size + len (packet q)) - (n + 1)))) by lia.
  cbn [take packets_size foldr]. fold (packets_size (take (Z.to_nat (send_till_of qs (n + 1) (size + len (packet q)) - (n + 1))) qs)). lia.
Qed.

Lemma queries_size_le header qs :
  Forall query_sendable qs -> queries_size header qs <= packets_size qs + len qs * (len header + 560).
Proof.
  intros Hqs. pose proof (len_nonneg header). induction Hqs as [|q qs [_ Ha _] _ IH]; [done|]. cbn [queries_size packets_size foldr].
  fold (queries_size header qs). fold (packets_size qs). unfold query_size. rewrite len_cons. lia.
Qed.

Lemma sendable_small q : query_sendable q -> query_small q.
Proof. intros [? ? ?]. split; [lia|]. by split; [lia|]. Qed.

(** What the session keeps to itself. *)
Record session_ok (w : world G) : Prop := {
  ok_auth : auth_ok (auth_data_ w);
  ok_header : aligned (header_ (auth_data_ w)) /\ len (header_ (auth_data_ w)) <= 1024;
  ok_queries : Forall query_sendable (to_send_ (self w));
  ok_open : state_ (self w) <> Closed;
  ok_random : (0 <= random_delay_ (self w))%Q;
}.

(** How many queries go into the next packet. *)
Definition queries_taken (w : world G) : nat :=
  if (has_salt now (auth_data_ w)).1 then Z.to_nat (send_till_of (to_send_ (self w)) 0 0) else 0.

Lemma queries_taken_spec w :
  session_ok w ->
  let qs := take (queries_taken w) (to_send_ (self w)) in
  Forall query_sendable qs /\ len qs <= MAX_QUERY_COUNT /\ packets_size qs <= 2 ^ 15 + 2 ^ 22 /\
  ((has_salt now (auth_data_ w)).1 = true -> to_send_ (self w) <> [] -> (0 < queries_taken w)%nat /\ qs <> []).
Proof.
  intros Hok. pose proof (ok_queries _ Hok) as Hq. unfold queries_taken.
  destruct (has_salt now (auth_data_ w)).1; cbn zeta; [|by split_and!].
  destruct (send_till_spec (to_send_ (self w)) 0 0 Hq ltac:(done) ltac:(done)) as (H1' & H2' & H3' & H4'). cbn zeta in *.
  rewrite Z.sub_0_r, Z.add_0_l in *. split; [by apply Forall_take|]. split; [rewrite len_take; lia|]. split; [done|].
  intros _ Hne. specialize (H4' Hne ltac:(done) ltac:(done)). split; [lia|]. destruct (to_send_ (self w)); [done|].
  intros E. apply (f_equal length) in E. rewrite length_take in E. cbn [length] in E. lia.
Qed.

Context `{!ServiceLaws} `{!ShaLaws} `{!AesIgeLaws} `{!StreamLaws T G} `{!RandomLaws G} `{!RoundingLaws} `{!SessionCallbackLaws}.

(** * A packet *)

(** What a packet was: the queries, the identifiers that were told, and the
    service messages [ms] behind the queries; [top] holds them all. *)
Record sent_packet := mk_sent {
  sent_header : bytes;
  sent_queries : list MtprotoQuery;
  sent_cut : cut;
  sent_services : list message;
  sent_top : message;
  sent_numbers : sent_ids;
}.

Definition sent_messages (p : sent_packet) : list message :=
  (query_message (sent_header p) <$> sent_queries p) ++ sent_services p.

(** The packet went through the connection, with these bytes. *)
Record packet_sent (p : sent_packet) (c c' : connection T) : Prop := {
  sent_bytes : exists s session_id salt k token g n g', RawConnection.send_crypto s session_id salt k token c g = Ok (n, c', g') /\
    stored s = message_bytes (sent_top p);
  sent_form : sent_messages p = [sent_top p] \/ msg_body (sent_top p) = container_body (sent_messages p);
  sent_bodies : exists ping_id ping_timeout max_delay max_after max_wait future_salt_n destroy,
    msg_body <$> sent_services p = service_bodies (to_ack (sent_cut p)) ping_id ping_timeout max_delay max_after max_wait
      future_salt_n (to_get_state_info (sent_cut p)) (to_resend_answer (sent_cut p)) (to_cancel_answer (sent_cut p)) destroy;
}.

Definition cut_fits (queries : list MtprotoQuery) (x : cut) : Prop :=
  Forall query_sendable queries /\ packets_size queries <= 2 ^ 15 + 2 ^ 22 /\
  len queries + len (to_cancel_answer x) <= MAX_QUERY_COUNT /\
  len (to_ack x) <= 8192 /\ len (to_get_state_info x) <= 8192 /\ len (to_resend_answer x) <= 8192.

Lemma get_header_ok a :
  aligned (header_ a) -> len (header_ a) <= 1024 -> aligned (get_header now a) /\ len (get_header now a) <= 1024.
Proof. intros. unfold get_header. by destruct (need_header _ _). Qed.

Definition something_to_send (queries : list MtprotoQuery) (x : cut) (ping_id max_delay future_salt_n : Z) (destroy : bool) : Prop :=
  queries <> [] \/ to_ack x <> [] \/ to_get_state_info x <> [] \/ to_resend_answer x <> [] \/ to_cancel_answer x <> [] \/
  ping_id <> 0 \/ 0 <= max_delay \/ 0 < future_salt_n \/ destroy = true.

Lemma something_nonempty queries x ping_id ping_timeout max_delay max_after max_wait future_salt_n destroy :
  something_to_send queries x ping_id max_delay future_salt_n destroy ->
  len queries + len (service_bodies (to_ack x) ping_id ping_timeout max_delay max_after max_wait future_salt_n
    (to_get_state_info x) (to_resend_answer x) (to_cancel_answer x) destroy) <> 0.
Proof.
  intros Hs E. pose proof (len_nonneg queries). match type of E with _ + len ?l = 0 => pose proof (len_nonneg l) end.
  assert (Eq : queries = []) by (apply len_zero_nil; lia). rewrite Eq in E. apply len_zero_nil in E.
  unfold service_bodies in E. repeat (apply app_eq_nil in E as [? E]).
  assert (Hb : forall b m, bodies_of b m = [] -> b = false) by (by intros []).
  repeat match goal with Hx : bodies_of _ _ = [] |- _ => apply Hb in Hx end. to_prop.
  assert (to_cancel_answer x = []) by (by eapply fmap_nil_inv). 
  repeat match goal with Hx : len _ = 0 |- _ => apply len_zero_nil in Hx end.
  destruct Hs as [|[|[|[|[|[|[|[|]]]]]]]]; try done; try lia. congruence.
Qed.

(** The sending of a packet. *)
Lemma send_crypto_step (p : storer) token (c : connection T) w :
  session_ok w -> settled now (auth_data_ w) -> has_auth_key now (auth_data_ w) = true -> ready (transport_ c) ->
  sound_storer p -> len (stored p) < 2 ^ 23 ->
  exists c' g', send_crypto now p token (c, w) = (Ok tt, (c', set_gen g' w)) /\ ready (transport_ c') /\
    exists session_id salt k token g n, RawConnection.send_crypto p session_id salt k token c g = Ok (n, c', g').
Proof.
  intros Hok Hset Hkey Hready Hp Hl. unfold send_crypto. step. rewrite bool_decide_eq_false_2 by apply (ok_open _ Hok).
  step. unfold mbind at 1, M_bind at 1, on_world. cbn [fst snd]. unfold get_session_id.
  rewrite (proj2 (Z.eqb_neq _ 0)) by apply (ok_session _ (ok_auth _ Hok)). cbn [negb check]. rewrite Ok_bind.
  step. rewrite Hset, set_auth_same.
  set (salt := salt_value (server_salt_ (auth_data_ w))). set (k := auth_key (get_auth_key (auth_data_ w))).
  destruct (send_crypto_ok p (session_id_ (auth_data_ w)) salt token k c (gen w)) as (padding & g1 & c' & g' & Hs & _ & Hr & _);
    [by eapply has_key_ok; [apply (ok_auth _ Hok)|]|done..|].
  cbn zeta in Hs. exists c', g'. unfold on_both. cbn [fst snd]. fold k. rewrite Hs, Ok_bind. split; [done|]. split; [done|].
  do 6 eexists. exact Hs.
Qed.

Lemma write_packet_ok queries x ping_id ws future_salt_n destroy (c : connection T) w :
  session_ok w -> settled now (auth_data_ w) -> has_auth_key now (auth_data_ w) = true -> ready (transport_ c) ->
  cut_fits queries x -> something_to_send queries x ping_id ws.1.1 future_salt_n destroy ->
  exists ids top ms c' a' g',
    write_packet now queries x ping_id ws future_salt_n destroy (c, w) = (Ok ids, (c', set_gen g' (set_auth a' w))) /\
    ids_drawn (auth_data_ w) a' /\ ready (transport_ c') /\
    packet_sent (mk_sent (get_header now (auth_data_ w)) queries x ms top ids) c c' /\
    (container_message_id ids = 0 \/ container_message_id ids = msg_id top).
Proof.
  intros Hok Hset Hkey Hready (Hq & Hsize & Hcount & Hack & Hinfo & Hresend) Hsome.
  destruct ws as [[max_delay max_after] max_wait]. cbn [fst snd] in Hsome.
  unfold write_packet. step. set (header := get_header now (auth_data_ w)).
  destruct (ok_header _ Hok) as [Hha Hhl]. destruct (get_header_ok _ Hha Hhl) as [Hga Hgl]. fold header in Hga, Hgl.
  set (delay := double_int _).
  assert (Hfits : packet_fits queries (to_ack x) (to_get_state_info x) (to_resend_answer x) (to_cancel_answer x)).
  { split; [eapply Forall_impl; [exact Hq|intros ? ?; by apply query_small_fits, sendable_small]|split_and!; lia|].
    unfold MAX_QUERY_COUNT in *. lia. }
  pose proof (something_nonempty queries x ping_id delay max_delay max_after max_wait future_salt_n destroy Hsome) as Hne.
  destruct (new_CryptoImpl_ok now queries header (to_ack x) ping_id delay max_delay max_after max_wait future_salt_n
    (to_get_state_info x) (to_resend_answer x) (to_cancel_answer x) destroy (auth_data_ w, gen w) Hfits Hne)
    as (crypto & ids & [a1 g1] & top & ms & Hnew & Hw).
  assert (Hsmall : Forall query_small queries) by (eapply Forall_impl; [exact Hq|intros ?; apply sendable_small]).
  destruct (written_size _ _ _ _ _ _ _ _ _ _ _ _ _ _ _ _ crypto ids top ms Hga Hsmall Hfits Hw) as (_ & _ & _ & Hts).
  destruct Hw as [(p & Hp & Hps & Hst) _ Hform _ _ _ _]. cbn zeta in Hform.
  assert (Hdrawn : ids_drawn (auth_data_ w) a1).
  { destruct Hform as [(_ & _ & Hm)|(_ & Hm)]; exact (made_frame _ _ _ _ _ Hm). }
  set (w1 := set_gen g1 (set_auth a1 w)).
  assert (Hstep : forall A (f : CryptoImpl * sent_ids -> M (connection T * world G) A),
    (on_both (fun c w => r ← new_CryptoImpl now queries (get_header now (auth_data_ w)) (to_ack x) ping_id delay max_delay max_after
       max_wait future_salt_n (to_get_state_info x) (to_resend_answer x) (to_cancel_answer x) destroy (auth_data_ w, gen w);
       let '(crypto, ids, (a, g)) := r in Ok ((crypto, ids), (c, set_gen g (set_auth a w)))) ≫= f) (c, w) = f (crypto, ids) (c, w1)).
  { intros A f. unfold mbind at 1, M_bind at 1, on_both. cbn [fst snd]. fold header. by rewrite Hnew. }
  rewrite Hstep. rewrite Hp, lift_Ok_bind.
  pose proof (queries_size_le header queries Hq). unfold services_size, MAX_QUERY_COUNT in *.
  pose proof (len_nonneg queries). pose proof (len_nonneg header). pose proof (len_nonneg (to_cancel_answer x)).
  assert (len queries * (len header + 560) <= 1000 * (1024 + 560)) by (apply Z.mul_le_mono_nonneg; lia).
  destruct (send_crypto_step p (if existsb use_quick_ack queries then parent_message_id ids else 0) c w1)
    as (c' & g' & Hsend & Hready' & Hout); [|by eapply drawn_settled|by rewrite (drawn_has_key _ _ _ Hdrawn)|done|done|rewrite Hst; lia|].
  { destruct Hok as [Hoka Hokh Hokq Hoks Hokr]. split; [by eapply drawn_frame| |done..].
    change (header_ (auth_data_ w1)) with (header_ a1). by rewrite Hdrawn. }
  rewrite (bind_step _ _ _ _ _ Hsend). exists ids, top, ms, c', a1, g'. split; [done|]. split; [done|]. split; [done|].
  split; [|destruct Hform as [[? _]|[? _]]; auto]. split; cbn [sent_top sent_messages sent_header sent_queries sent_services sent_cut].
  - destruct Hout as (session_id & salt & k & token & g & n & E). by exists p, session_id, salt, k, token, g, n, g'.
  - destruct Hform as [(_ & ? & _)|(_ & Hm)]; [by left|right]. pose proof (made_bodies _ _ _ _ _ Hm) as Hb.
    rewrite fmap_app in Hb. cbn [fmap list_fmap] in Hb. apply app_inj_2 in Hb as [_ Hc]; [|done]. by injection Hc.
  - exists ping_id, delay, max_delay, max_after, max_wait, future_salt_n, destroy.
    destruct Hform as [(_ & _ & Hm)|(_ & Hm)]; pose proof (made_bodies _ _ _ _ _ Hm) as Hb; [done|].
    rewrite fmap_app in Hb. cbn [fmap list_fmap] in Hb. by apply app_inj_2 in Hb as [Hb _].
Qed.

(** ** The parts of [flush_packet] *)

Definition pings (w : world G) : bool := (has_salt now (auth_data_ w)).1 && may_ping now (self w).

Lemma start_ping_ok (c : connection T) w :
  settled now (auth_data_ w) ->
  exists ping_id a' g', start_ping now (has_salt now (auth_data_ w)).1 (c, w) =
    (Ok ping_id, (c, set_gen g' (set_auth a' (if pings w then set_self { self w with last_ping_at_ := now } w else w)))) /\
    ids_drawn (auth_data_ w) a' /\ (ping_id <> 0 -> pings w = true).
Proof.
  intros Hset. unfold start_ping, pings. step. destruct (_ && may_ping now (self w)).
  - step. unfold next_id, on_world. cbn [fst snd auth_data_ gen set_self].
    pose proof (next_message_id_drawn now (auth_data_ w) (gen w)) as Hd.
    destruct (next_message_id now (auth_data_ w) (gen w)) as [[id a'] g']. exists id, a', g'. by split.
  - exists 0, (auth_data_ w), (gen w). split; [by destruct w|]. by split.
Qed.

Definition asks_salts (w : world G) : bool :=
  negb (bool_decide (mode_ (self w) = HttpLongPoll)) && ((need_future_salts now (auth_data_ w)).1 &&
    (Qeqb (last_get_future_salt_at_ (self w)) 0 || Qltb (rnd (last_get_future_salt_at_ (self w) + 60)) now)).

Lemma start_future_salts_ok (c : connection T) w :
  settled now (auth_data_ w) ->
  start_future_salts now (c, w) =
    (Ok (if asks_salts w then 64 else 0),
     (c, if asks_salts w then set_self { self w with last_get_future_salt_at_ := now } w else w)).
Proof.
  intros Hset. unfold start_future_salts, asks_salts. step.
  destruct (bool_decide (mode_ (self w) = HttpLongPoll)); cbn [negb andb]; [done|]. step. rewrite Hset, set_auth_same. step.
  unfold need_future_salts. cbv zeta. cbn [fst]. rewrite Hset. by destruct (_ && _).
Qed.

(** The identifiers that are left and those that go. *)
Definition cut_of (queries : list MtprotoQuery) (s : session_connection) : cut :=
  mk_cut (cut_tail (to_resend_answer_message_ids_ s) 8192).1
    (cut_tail (to_cancel_answer_message_ids_ s) (MAX_QUERY_COUNT - len queries)).1
    (cut_tail (to_get_state_info_message_ids_ s) 8192).1 (cut_tail (to_ack_message_ids_ s) 8192).1.

Definition after_cut (queries : list MtprotoQuery) (s : session_connection) : session_connection :=
  { { { { s with to_resend_answer_message_ids_ := (cut_tail (to_resend_answer_message_ids_ s) 8192).2 }
    with to_cancel_answer_message_ids_ := (cut_tail (to_cancel_answer_message_ids_ s) (MAX_QUERY_COUNT - len queries)).2 }
    with to_get_state_info_message_ids_ := (cut_tail (to_get_state_info_message_ids_ s) 8192).2 }
    with to_ack_message_ids_ := (cut_tail (to_ack_message_ids_ s) 8192).2 }.

Lemma cut_tails_ok queries (c : connection T) (w : world G) :
  len queries <= MAX_QUERY_COUNT ->
  cut_tails queries (c, w) = (Ok (cut_of queries (self w)), (c, set_self (after_cut queries (self w)) w)).
Proof. intros Hq. unfold cut_tails. step. rewrite (proj2 (Z.leb_le _ _)) by done. reflexivity. Qed.

(** What is remembered of a packet. *)
Definition remembered (x : cut) (ping_id : Z) (ids : sent_ids) (s : session_connection) : session_connection :=
  let s := add_service ResendAnswer (resend_message_id ids) (container_message_id ids) (to_resend_answer x) s in
  let s := add_service GetStateInfo (get_info_message_id ids) (container_message_id ids) (to_get_state_info x) s in
  let s := if negb (ping_id =? 0) then
             { { s with last_ping_container_message_id_ := container_message_id ids }
               with last_ping_message_id_ := ping_message_id ids }
           else s in
  if negb (container_message_id ids =? 0) then
    add_to_container (container_message_id ids) (get_info_message_id ids)
      (add_to_container (container_message_id ids) (resend_message_id ids) s)
  else s.

Lemma remember_packet_ok queries x ping_id ids (c : connection T) (w : world G) :
  exists es, remember_packet now queries x ping_id ids (c, w) =
    (Ok tt, (c, set_events (events w ++ es) (set_self (remembered x ping_id ids (self w)) w))).
Proof.
  unfold remember_packet, remembered. step. cbv zeta. destruct (container_message_id ids =? 0); cbn [negb].
  - exists []. by rewrite app_nil_r.
  - step. rewrite container_sent_noted. cbn [foldl]. by eexists.
Qed.

(** ** The whole packet *)

Definition fixed (s : session_connection) :=
  (state_ s, mode_ s, (online_flag_ s, is_main_ s), (random_delay_ s, raw_rtt s), need_destroy_auth_key_ s).

Definition queues (s : session_connection) :=
  (to_send_ s, to_ack_message_ids_ s, (to_get_state_info_message_ids_ s, to_resend_answer_message_ids_ s,
   to_cancel_answer_message_ids_ s)).

Definition all_sent (s : session_connection) : bool :=
  (len (to_send_ s) =? 0) && (len (to_ack_message_ids_ s) =? 0) && (len (to_get_state_info_message_ids_ s) =? 0)
  && (len (to_resend_answer_message_ids_ s) =? 0) && (len (to_cancel_answer_message_ids_ s) =? 0).

Definition services_of (s : session_connection) := (service_queries_ s, container_to_service_message_id_ s).

(** What one [flush_packet] does; [o] is the packet, if there was anything to
    send. *)
Record flushed (c : connection T) (w : world G) (c' : connection T) (w' : world G) (o : option sent_packet) : Prop := {
  flushed_ready : ready (transport_ c');
  flushed_auth : ids_drawn (auth_data_ w) (auth_data_ w');
  flushed_fixed : fixed (self w') = fixed (self w);
  flushed_queues : let qs := take (queries_taken w) (to_send_ (self w)) in
    queues (self w') = queues (after_cut qs { self w with to_send_ := drop (queries_taken w) (to_send_ (self w)) });
  flushed_ping : last_ping_at_ (self w') = if pings w then now else last_ping_at_ (self w);
  flushed_salts : last_get_future_salt_at_ (self w') = if asks_salts w then now else last_get_future_salt_at_ (self w);
  flushed_destroy : sent_destroy_auth_key_ (self w') = sent_destroy_auth_key_ (self w) || need_destroy_auth_key_ (self w);
  flushed_force : force_send_at_ (self w') = 0%Q \/ force_send_at_ (self w') = force_send_at_ (self w);
  flushed_late : (has_salt now (auth_data_ w)).1 = true ->
    force_send_at_ (self w') = if all_sent (self w') then 0%Q else force_send_at_ (self w);
  flushed_packet :
    match o with
    | None => c' = c /\ take (queries_taken w) (to_send_ (self w)) = [] /\ queues (self w') = queues (self w) /\
              services_of (self w') = services_of (self w)
    | Some p => packet_sent p c c' /\ sent_queries p = take (queries_taken w) (to_send_ (self w)) /\
                sent_cut p = cut_of (sent_queries p) (self w) /\ sent_header p = get_header now (auth_data_ w) /\
                exists ping_id, services_of (self w') = services_of (remembered (sent_cut p) ping_id (sent_numbers p) (self w))
    end;
}.

Lemma after_cut_nothing qs s :
  qs = [] -> to_ack_message_ids_ s = [] -> to_get_state_info_message_ids_ s = [] -> to_resend_answer_message_ids_ s = [] ->
  to_cancel_answer_message_ids_ s = [] -> queues (after_cut qs s) = queues s.
Proof. intros -> Ea Ei Er Ec. unfold queues, after_cut. cbn. by rewrite Ea, Ei, Er, Ec. Qed.

Lemma cut_of_fits w :
  session_ok w ->
  let qs := take (queries_taken w) (to_send_ (self w)) in cut_fits qs (cut_of qs (self w)).
Proof.
  intros Hok qs. destruct (queries_taken_spec w Hok) as (Hq & Hl & Hs & _). fold qs in Hq, Hl, Hs.
  pose proof (cut_tail_spec (to_cancel_answer_message_ids_ (self w)) (MAX_QUERY_COUNT - len qs) ltac:(lia)) as (_ & Hc & _).
  pose proof (cut_tail_spec (to_ack_message_ids_ (self w)) 8192 ltac:(lia)) as (_ & Ha & _).
  pose proof (cut_tail_spec (to_get_state_info_message_ids_ (self w)) 8192 ltac:(lia)) as (_ & Hi & _).
  pose proof (cut_tail_spec (to_resend_answer_message_ids_ (self w)) 8192 ltac:(lia)) as (_ & Hr & _).
  unfold cut_fits, cut_of. cbn. split_and!; try done; lia.
Qed.

Lemma cut_of_something qs s ping_id max_delay future_salt_n destroy :
  nothing_to_send qs ping_id max_delay future_salt_n destroy s = false -> 0 <= future_salt_n ->
  something_to_send qs (cut_of qs s) ping_id max_delay future_salt_n destroy.
Proof.
  intros Hn Hf. unfold something_to_send, cut_of. cbn.
  destruct (decide (qs = [])) as [->|]; [|by left].
  assert (Hc : forall l size, 0 < size -> l <> [] -> (cut_tail l size).1 <> []).
  { intros l size Hs Hl. destruct (cut_tail_spec l size ltac:(lia)) as (_ & _ & _ & Hcut). by apply Hcut. }
  destruct (decide (to_ack_message_ids_ s = [])) as [Ea|]; [|right; left; by apply Hc].
  destruct (decide (to_get_state_info_message_ids_ s = [])) as [Ei|]; [|do 2 right; left; by apply Hc].
  destruct (decide (to_resend_answer_message_ids_ s = [])) as [Er|]; [|do 3 right; left; by apply Hc].
  destruct (decide (to_cancel_answer_message_ids_ s = [])) as [Ec|]; [|do 4 right; left; by apply Hc].
  do 5 right. unfold nothing_to_send in Hn. rewrite Ea, Ei, Er, Ec in Hn. cbn [len length Z.of_nat Z.eqb andb] in Hn.
  destruct (Z.eqb_spec ping_id 0) as [|Hp]; [|by left]. destruct (Z.ltb_spec max_delay 0); [|right; left; lia].
  destruct (Z.eqb_spec future_salt_n 0); [|right; right; left; lia]. destruct destroy; [tauto|done].
Qed.

Lemma has_salt_settled a : settled now a -> has_salt now a = (is_server_salt_valid now a, a).
Proof. intros Hs. unfold has_salt. by rewrite Hs. Qed.

Lemma take_queries_ok (c : connection T) (w : world G) :
  take_queries (has_salt now (auth_data_ w)).1 (c, w) =
    (Ok (take (queries_taken w) (to_send_ (self w))),
     (c, set_self { self w with to_send_ := drop (queries_taken w) (to_send_ (self w)) } w)).
Proof. unfold take_queries, queries_taken. by destruct (has_salt now (auth_data_ w)).1. Qed.

Lemma drawn_need_salts a a' : ids_drawn a a' -> settled now a -> (need_future_salts now a').1 = (need_future_salts now a).1.
Proof.
  intros Hd Hs. unfold need_future_salts. cbv zeta. cbn [fst]. rewrite (drawn_settled now _ _ Hd Hs), Hs, (drawn_salt_valid now _ _ Hd).
  unfold ids_drawn in Hd. rewrite Hd. reflexivity.
Qed.

(** The world when the identifiers of a ping are drawn and the queries taken. *)
Definition prepared (w : world G) (a' : AuthData) (g' : G) : world G :=
  let s := self w in
  let s := if pings w then { s with last_ping_at_ := now } else s in
  let s := if asks_salts w then { s with last_get_future_salt_at_ := now } else s in
  mk_world { s with to_send_ := drop (queries_taken w) (to_send_ s) } a' (events w) g'.

Lemma prepare_ok {A} (c : connection T) w (f : bool -> Z -> Z * Z * Z -> Z -> list MtprotoQuery -> M (connection T * world G) A) :
  settled now (auth_data_ w) ->
  exists ping_id a' g' ws, ids_drawn (auth_data_ w) a' /\ (ping_id <> 0 -> pings w = true) /\
    (has_salt ← on_world (with_auth (has_salt now));
     ping_id ← start_ping now has_salt;
     waits ← on_world (asks (http_wait_times now));
     future_salt_n ← start_future_salts now;
     queries ← take_queries has_salt;
     f has_salt ping_id waits future_salt_n queries) (c, w) =
    f (has_salt now (auth_data_ w)).1 ping_id ws (if asks_salts w then 64 else 0)
      (take (queries_taken w) (to_send_ (self w))) (c, prepared w a' g').
Proof.
  intros Hset. destruct (start_ping_ok c w Hset) as (ping_id & a' & g' & E & Hd & Hp).
  set (w0 := if pings w then set_self { self w with last_ping_at_ := now } w else w) in *.
  exists ping_id, a', g', (http_wait_times now (self w0)). split; [done|]. split; [done|].
  assert (Hsalt : (has_salt now a').1 = (has_salt now (auth_data_ w)).1).
  { rewrite !has_salt_settled by (done || by eapply drawn_settled). by apply drawn_salt_valid. }
  step. change (is_server_salt_valid now (update_salt now (auth_data_ w))) with (has_salt now (auth_data_ w)).1.
  rewrite Hset, set_auth_same.
  rewrite (bind_step _ _ _ _ _ E). step.
  set (w1 := set_gen g' (set_auth a' w0)).
  assert (Ha : asks_salts w1 = asks_salts w).
  { unfold asks_salts. change (auth_data_ w1) with a'. rewrite (drawn_need_salts _ _ Hd Hset). unfold w1, w0. by destruct (pings w). }
  pose proof (start_future_salts_ok c w1) as E1. rewrite Ha in E1.
  rewrite (bind_step _ _ _ _ _ (E1 (drawn_settled now _ _ Hd Hset))). cbv beta iota.
  set (w2 := if asks_salts w then set_self _ w1 else w1).
  assert (Hw2 : auth_data_ w2 = a') by (unfold w2; by destruct (asks_salts w)).
  assert (Hs2 : to_send_ (self w2) = to_send_ (self w)) by (unfold w2, w1, w0; by destruct (asks_salts w), (pings w)).
  pose proof (take_queries_ok c w2) as E2. rewrite Hw2, Hsalt in E2. rewrite (bind_step _ _ _ _ _ E2).
  assert (Ht : queries_taken w2 = queries_taken w) by (unfold queries_taken; by rewrite Hw2, Hs2, Hsalt).
  rewrite Ht, Hs2.
  match goal with |- f _ _ ?x _ _ (c, ?y) = f _ _ ?x' _ _ (c, ?y') => assert (Hx : x = x'); [|assert (Hy : y = y')] end.
  - unfold w1, w0. by destruct (pings w).
  - unfold prepared, w2, w1, w0. cbv zeta. by destruct (asks_salts w), (pings w).
  - by rewrite Hx, Hy.
Qed.

Lemma all_sent_true s : all_sent s = true <-> queues s = ([], [], ([], [], [])).
Proof.
  unfold all_sent, queues. rewrite !andb_true_iff, !Z.eqb_eq. split.
  - intros [[[[E1 E2] E3] E4] E5]. by rewrite (len_zero_nil _ E1), (len_zero_nil _ E2), (len_zero_nil _ E3), (len_zero_nil _ E4), (len_zero_nil _ E5).
  - intros E. injection E as -> -> -> -> ->. done.
Qed.

Lemma reset_force_send_spec s :
  queues (reset_force_send s) = queues s /\ fixed (reset_force_send s) = fixed s /\
  last_ping_at_ (reset_force_send s) = last_ping_at_ s /\ last_get_future_salt_at_ (reset_force_send s) = last_get_future_salt_at_ s /\
  sent_destroy_auth_key_ (reset_force_send s) = sent_destroy_auth_key_ s /\ services_of (reset_force_send s) = services_of s /\
  force_send_at_ (reset_force_send s) = if all_sent s then 0%Q else force_send_at_ s.
Proof. unfold reset_force_send, all_sent. by destruct (_ && _). Qed.

Lemma remembered_spec x ping_id ids s :
  let s' := remembered x ping_id ids s in
  queues s' = queues s /\ fixed s' = fixed s /\ last_ping_at_ s' = last_ping_at_ s /\
  last_get_future_salt_at_ s' = last_get_future_salt_at_ s /\ sent_destroy_auth_key_ s' = sent_destroy_auth_key_ s /\
  force_send_at_ s' = force_send_at_ s.
Proof.
  unfold remembered, add_to_container, add_service. cbv zeta.
  destruct (container_message_id ids =? 0), (ping_id =? 0), (resend_message_id ids =? 0), (get_info_message_id ids =? 0); done.
Qed.

(** Service queries depend on nothing else that was kept. *)
Lemma remembered_services x ping_id ids s s' :
  services_of s = services_of s' -> services_of (remembered x ping_id ids s) = services_of (remembered x ping_id ids s').
Proof.
  intros E. unfold services_of in E. injection E as E1 E2. unfold remembered, add_to_container, add_service, services_of. cbv zeta.
  destruct (container_message_id ids =? 0), (ping_id =? 0), (resend_message_id ids =? 0), (get_info_message_id ids =? 0);
    cbn; by rewrite ?E1, ?E2.
Qed.

Lemma prepared_ok w a' g' :
  session_ok w -> ids_drawn (auth_data_ w) a' -> session_ok (prepared w a' g').
Proof.
  intros [Ha Hh Hq Ho Hr] Hd. split.
  - by eapply drawn_frame.
  - change (auth_data_ (prepared w a' g')) with a'. by rewrite Hd.
  - unfold prepared. cbn. destruct (asks_salts w), (pings w); by apply Forall_drop.
  - unfold prepared. cbn. by destruct (asks_salts w), (pings w).
  - unfold prepared. cbn. by destruct (asks_salts w), (pings w).
Qed.

Lemma prepared_spec w a' g' :
  let s := self (prepared w a' g') in
  queues s = queues { self w with to_send_ := drop (queries_taken w) (to_send_ (self w)) } /\ fixed s = fixed (self w) /\
  last_ping_at_ s = (if pings w then now else last_ping_at_ (self w)) /\
  last_get_future_salt_at_ s = (if asks_salts w then now else last_get_future_salt_at_ (self w)) /\
  sent_destroy_auth_key_ s = sent_destroy_auth_key_ (self w) /\ services_of s = services_of (self w) /\
  force_send_at_ s = force_send_at_ (self w) /\ need_destroy_auth_key_ s = need_destroy_auth_key_ (self w).
Proof. unfold prepared. cbv zeta. by destruct (asks_salts w), (pings w). Qed.

Lemma cut_of_queues qs s s' x : queues s = queues { s' with to_send_ := x } -> cut_of qs s = cut_of qs s'.
Proof. unfold queues, cut_of. cbn. intros E. injection E as _ -> -> -> ->. done. Qed.

Lemma after_cut_spec qs s :
  fixed (after_cut qs s) = fixed s /\ last_ping_at_ (after_cut qs s) = last_ping_at_ s /\
  last_get_future_salt_at_ (after_cut qs s) = last_get_future_salt_at_ s /\
  sent_destroy_auth_key_ (after_cut qs s) = sent_destroy_auth_key_ s /\ services_of (after_cut qs s) = services_of s /\
  force_send_at_ (after_cut qs s) = force_send_at_ s.
Proof. done. Qed.

Lemma after_cut_queues qs s s' : queues s = queues s' -> queues (after_cut qs s) = queues (after_cut qs s').
Proof. unfold queues, after_cut. cbn. intros E. injection E as -> -> -> -> ->. done. Qed.

(** The session when the packet is put together: what is the same as before. *)
Record prepares (w w1 : world G) : Prop := {
  prepares_ok : session_ok w1;
  prepares_auth : ids_drawn (auth_data_ w) (auth_data_ w1);
  prepares_settled : settled now (auth_data_ w1);
  prepares_key : has_auth_key now (auth_data_ w1) = true;
  prepares_queues : queues (self w1) = queues { self w with to_send_ := drop (queries_taken w) (to_send_ (self w)) };
  prepares_fixed : fixed (self w1) = fixed (self w);
  prepares_ping : last_ping_at_ (self w1) = if pings w then now else last_ping_at_ (self w);
  prepares_salts : last_get_future_salt_at_ (self w1) = if asks_salts w then now else last_get_future_salt_at_ (self w);
  prepares_services : services_of (self w1) = services_of (self w);
  prepares_force : force_send_at_ (self w1) = force_send_at_ (self w);
}.

Definition destroy_due (s : session_connection) : bool := need_destroy_auth_key_ s && negb (sent_destroy_auth_key_ s).

Definition destroy_sent (s : session_connection) : session_connection :=
  if destroy_due s then { { s with sent_destroy_auth_key_ := true } with destroy_auth_key_send_time_ := now } else s.

(** [flush_packet] from there on. *)
Definition flush_rest (ping_id : Z) (waits : Z * Z * Z) (future_salt_n : Z) (queries : list MtprotoQuery)
  : M (connection T * world G) unit :=
  destroy ← on_world (asks destroy_due);
  nothing ← on_world (asks (nothing_to_send queries ping_id waits.1.1 future_salt_n destroy));
  if nothing : bool then on_world (modify (fun s => { s with force_send_at_ := 0%Q }))
  else
    _ ← (if destroy : bool
         then on_world (modify (fun s => { { s with sent_destroy_auth_key_ := true } with destroy_auth_key_send_time_ := now }))
         else mret tt);
    cut ← cut_tails queries;
    ids ← write_packet now queries cut ping_id waits future_salt_n destroy;
    _ ← remember_packet now queries cut ping_id ids;
    on_world (modify reset_force_send).

Lemma flush_packet_prepares (c : connection T) w :
  session_ok w -> settled now (auth_data_ w) -> has_auth_key now (auth_data_ w) = true ->
  exists ping_id ws w1, prepares w w1 /\ need_destroy_auth_key_ (self w1) = need_destroy_auth_key_ (self w) /\
    sent_destroy_auth_key_ (self w1) = sent_destroy_auth_key_ (self w) /\
    flush_packet now (c, w) =
      flush_rest ping_id ws (if asks_salts w then 64 else 0) (take (queries_taken w) (to_send_ (self w))) (c, w1).
Proof.
  intros Hok Hset Hkey. destruct (prepare_ok c w (fun _ => flush_rest) Hset) as (ping_id & a' & g' & ws & Hd & _ & E).
  destruct (prepared_spec w a' g') as (Eq & Ef & Ep & Es & Edd & Esv & Efo & Ene).
  exists ping_id, ws, (prepared w a' g'). split; [|split; [exact Ene|split; [exact Edd|exact E]]].
  split; try done.
  - by apply prepared_ok.
  - by eapply drawn_settled.
  - by rewrite (drawn_has_key _ _ _ Hd).
Qed.

Lemma destroy_sent_spec s :
  let s' := destroy_sent s in
  queues s' = queues s /\ fixed s' = fixed s /\ last_ping_at_ s' = last_ping_at_ s /\
  last_get_future_salt_at_ s' = last_get_future_salt_at_ s /\ services_of s' = services_of s /\
  force_send_at_ s' = force_send_at_ s /\ sent_destroy_auth_key_ s' = sent_destroy_auth_key_ s || need_destroy_auth_key_ s.
Proof.
  unfold destroy_sent, destroy_due.
  destruct (need_destroy_auth_key_ s), (sent_destroy_auth_key_ s) eqn:Ed; cbn [andb negb orb]; rewrite ?Ed; done.
Qed.

(** There was nothing to send. *)
Lemma flush_nothing ping_id max_delay fsn (c : connection T) w w1 :
  session_ok w -> prepares w w1 -> let qs := take (queries_taken w) (to_send_ (self w)) in
  sent_destroy_auth_key_ (self w1) = sent_destroy_auth_key_ (self w) || need_destroy_auth_key_ (self w) ->
  nothing_to_send qs ping_id max_delay fsn false (self w1) = true -> ready (transport_ c) ->
  flushed c w c (set_self { self w1 with force_send_at_ := 0%Q } w1) None.
Proof.
  intros Hok [_ Hd _ _ Eq Ef Ep Es Esv Efo] qs Hdes Hnothing Hready.
  pose proof (queries_taken_spec w Hok) as (_ & _ & _ & Hqn). fold qs in Hqn.
  unfold nothing_to_send in Hnothing. to_prop.
  repeat match goal with Hx : len _ = 0 |- _ => apply len_zero_nil in Hx end.
  assert (Hqs : qs = []) by done.
  pose proof (after_cut_nothing qs (self w1)) as Hcut. rewrite (after_cut_queues qs _ _ Eq) in Hcut.
  assert (Hdrop : drop (queries_taken w) (to_send_ (self w)) = to_send_ (self w)).
  { rewrite <- (take_drop (queries_taken w) (to_send_ (self w))) at 2. by fold qs; rewrite Hqs. }
  specialize (Hcut ltac:(done) ltac:(done) ltac:(done) ltac:(done) ltac:(done)).
  split; cbn [self set_self]; change (queues { self w1 with force_send_at_ := 0%Q }) with (queues (self w1)) in *; try done.
  - by left.
  - intros Hsalt. replace (all_sent _) with true; [done|]. symmetry. apply all_sent_true. rewrite Hdrop in Eq.
    change (queues { self w1 with force_send_at_ := 0%Q }) with (queues (self w1)).
    destruct (decide (to_send_ (self w) = [])) as [E|E]; [|by destruct (Hqn Hsalt E)].
    unfold queues in *. injection Eq as Eq1 _ _ _ _. rewrite Eq1. cbn. rewrite E. congruence.
  - split; [done|]. split; [done|]. rewrite Hdrop in Eq. split; [|exact Esv]. rewrite Eq. by destruct (self w).
Qed.

(** The tail: the packet is remembered, and nothing may wait any more. *)
Lemma flushed_remembered (c c' : connection T) w w1 a2 g2 es top ms ping_id ids :
  let qs := take (queries_taken w) (to_send_ (self w)) in
  let x := cut_of qs (self w) in
  let sent := after_cut qs (destroy_sent (self w1)) in
  prepares w w1 -> ids_drawn (auth_data_ w1) a2 -> ready (transport_ c') ->
  sent_destroy_auth_key_ (destroy_sent (self w1)) = sent_destroy_auth_key_ (self w) || need_destroy_auth_key_ (self w) ->
  packet_sent (mk_sent (get_header now (auth_data_ w1)) qs x ms top ids) c c' ->
  flushed c w c' (mk_world (reset_force_send (remembered x ping_id ids sent)) a2 es g2)
    (Some (mk_sent (get_header now (auth_data_ w1)) qs x ms top ids)).
Proof.
  intros qs x sent [_ Hd _ _ Eq Ef Ep Es Esv Efo] Hd2 Hready Hdes Hsent.
  destruct (destroy_sent_spec (self w1)) as (Q2 & F2 & P2 & S2 & V2 & O2 & _).
  destruct (remembered_spec x ping_id ids sent) as (Q5 & F5 & P5 & S5 & D5 & O5).
  pose proof (remembered_services x ping_id ids sent (self w) (eq_trans V2 Esv)) as V5. cbv zeta in *.
  set (s5 := remembered x ping_id ids sent) in *. clearbody s5.
  destruct (reset_force_send_spec s5) as (Q6 & F6 & P6 & S6 & D6 & V6 & O6).
  split; cbn [self auth_data_]; try done.
  - by etrans.
  - rewrite F6, F5. change (fixed (destroy_sent (self w1)) = fixed (self w)). by rewrite F2.
  - rewrite Q6, Q5. apply after_cut_queues. by rewrite Q2, Eq.
  - rewrite P6, P5. by rewrite <- Ep, <- P2.
  - rewrite S6, S5. by rewrite <- Es, <- S2.
  - by rewrite D6, D5, <- Hdes.
  - rewrite O6, O5. destruct (all_sent s5); [by left|right]. by rewrite <- Efo, <- O2.
  - intros _. rewrite O6, O5. replace (all_sent (reset_force_send s5)) with (all_sent s5).
    + destruct (all_sent s5); [done|]. by rewrite <- Efo, <- O2.
    + unfold all_sent. unfold queues in Q6. by injection Q6 as -> -> -> -> ->.
  - split; [exact Hsent|]. cbn [sent_queries sent_cut sent_header sent_numbers]. split; [done|]. split; [done|]. split.
    + by rewrite Hd.
    + exists ping_id. by rewrite V6.
Qed.

Lemma prepares_cut w w1 :
  let qs := take (queries_taken w) (to_send_ (self w)) in
  prepares w w1 ->
  cut_of qs (destroy_sent (self w1)) = cut_of qs (self w) /\ cut_of qs (self w1) = cut_of qs (self w) /\
  session_ok (set_self (after_cut qs (destroy_sent (self w1))) w1).
Proof.
  intros qs [[Ha Hh Hq Ho Hr] _ _ _ Eq _ _ _ _ _]. destruct (destroy_sent_spec (self w1)) as (Q2 & F2 & _).
  assert (E : cut_of qs (self w1) = cut_of qs (self w)) by (by eapply cut_of_queues).
  split; [|split; [done|]].
  - rewrite <- E. unfold cut_of, queues in *. by injection Q2 as _ -> -> -> ->.
  - unfold queues in Q2. injection Q2 as Q2 _. unfold fixed in F2. injection F2 as F2 _ _ _ F2' _.
    split; cbn; try done; by rewrite ?Q2, ?F2, ?F2'.
Qed.

Lemma flush_packet_ok (c : connection T) w :
  session_ok w -> settled now (auth_data_ w) -> has_auth_key now (auth_data_ w) = true -> ready (transport_ c) ->
  exists c' w' o, flush_packet now (c, w) = (Ok tt, (c', w')) /\ flushed c w c' w' o.
Proof.
  intros Hok Hset Hkey Hready. destruct (flush_packet_prepares c w Hok Hset Hkey) as (ping_id & ws & w1 & Hprep & En & Es & ->).
  set (qs := take (queries_taken w) (to_send_ (self w))). set (fsn := if asks_salts w then 64 else 0).
  pose proof (queries_taken_spec w Hok) as (_ & Hql & _). fold qs in Hql.
  destruct (destroy_sent_spec (self w1)) as (_ & _ & _ & _ & _ & _ & Hdes). rewrite En, Es in Hdes.
  unfold flush_rest. step. step. destruct (nothing_to_send _ _ _ _ _ _) eqn:Hnothing.
  - assert (Hnd : destroy_due (self w1) = false).
    { unfold nothing_to_send in Hnothing. by destruct (destroy_due (self w1)); [rewrite andb_false_r in Hnothing|]. }
    rewrite Hnd in Hnothing. eexists c, _, None. split; [reflexivity|]. eapply flush_nothing; try done.
    rewrite <- Hdes. unfold destroy_sent. by rewrite Hnd.
  - assert (E2 : (if destroy_due (self w1) then on_world (modify (fun s =>
        { { s with sent_destroy_auth_key_ := true } with destroy_auth_key_send_time_ := now })) else mret tt) (c, w1) =
      (Ok tt, (c, set_self (destroy_sent (self w1)) w1))).
    { unfold destroy_sent. destruct (destroy_due (self w1)); [done|by destruct w1]. }
    rewrite (bind_step _ _ _ _ _ E2), (bind_step _ _ _ _ _ (cut_tails_ok qs c (set_self (destroy_sent (self w1)) w1) Hql)).
    destruct (prepares_cut w w1 Hprep) as (Ecut2 & Ecut & Hok3). fold qs in Ecut2, Ecut, Hok3. cbn [self set_self]. rewrite Ecut2.
    change (set_self _ (set_self _ w1)) with (set_self (after_cut qs (destroy_sent (self w1))) w1).
    edestruct (write_packet_ok qs (cut_of qs (self w)) ping_id ws fsn (destroy_due (self w1)) c) as
      (ids & top & ms & c' & a2 & g2 & E3 & Hd2 & Hready' & Hsent & _);
      [exact Hok3|apply Hprep..|done|by apply cut_of_fits| |].
    { rewrite <- Ecut. apply cut_of_something; [done|]. unfold fsn. by destruct (asks_salts w). }
    rewrite (bind_step _ _ _ _ _ E3). set (w4 := set_gen g2 _).
    destruct (remember_packet_ok qs (cut_of qs (self w)) ping_id ids c' w4) as (es & E5). rewrite (bind_step _ _ _ _ _ E5).
    eexists c', _, (Some _). split; [reflexivity|]. by eapply flushed_remembered.
Qed.
End writing.
