(* ===== verification/SessionLoop.v ===== *)
(** The loop of [before_write]: packets are written until none is due.  It ends,
    nothing is lost or sent twice, and what is due is sent. *)
From Stdlib Require Import QArith Lqa.
From coqutil Require Import Datatypes.RecordSettersUsingExistingGetters.
From S2P Require Import Prelude Bytes Random Buffer Crypto Kdf Tl Transport MessageIds AuthData TlObject ServiceApi CryptoStorer CryptoStorerSpec RawConnection SessionConnection SessionSender SessionReceive SessionSample SessionWrite.
#[local] Open Scope Z_scope.

Section timing.
Context `{RoundingLaws} (now : Q) (Hpos : (0 < now)%Q) (Hnow : (rnd now == now)%Q).

Lemma Qeqb_false x : Qeqb x 0 = false <-> ~ (x == 0)%Q.
Proof. unfold Qeqb. split; [apply Qeq_bool_neq|]. intros Hx. destruct (Qeq_bool x 0) eqn:E; [|done]. by apply Qeq_bool_eq in E. Qed.

(** [now] is not late for what was done now. *)
Lemma not_late delay : (0 <= delay)%Q -> Qeqb now 0 = false /\ Qltb (rnd (now + delay)) now = false.
Proof.
  intros Hd. split; [apply Qeqb_false; lra|]. apply Qltb_ge. rewrite <- Hnow at 1. apply rnd_mono. lra.
Qed.

Lemma double_max_cases x y : (double_max x y == x \/ double_max x y == y)%Q /\ (x <= double_max x y)%Q.
Proof.
  unfold double_max. destruct (Qltb x y) eqn:E; [apply Qltb_lt in E|apply Qltb_ge in E]; (split; [first [right; lra|left; lra]|lra]).
Qed.

Lemma rnd_zero : (rnd 0 == 0)%Q.
Proof. apply (rnd_integer 0). lia. Qed.

Lemma rnd_nonneg x : (0 <= x)%Q -> (0 <= rnd x)%Q.
Proof. intros Hx. rewrite <- rnd_zero. by apply rnd_mono. Qed.

Lemma rtt_spec s : (2 <= rtt s)%Q /\ (rnd (rtt s) == rtt s)%Q.
Proof.
  unfold rtt. destruct (double_max_cases 2 (rnd (rnd (raw_rtt s * (3 # 2)) + 1))) as [[E|E] Hle]; (split; [done|]).
  - assert (Hr : (rnd (double_max 2 (rnd (rnd (raw_rtt s * (3 # 2)) + 1))) == rnd (inject_Z 2))%Q)
      by (apply Qle_antisym; apply rnd_mono; unfold inject_Z; lra).
    rewrite Hr, E. apply (rnd_integer 2). lia.
  - assert (Hr : (rnd (double_max 2 (rnd (rnd (raw_rtt s * (3 # 2)) + 1))) == rnd (rnd (rnd (raw_rtt s * (3 # 2)) + 1)))%Q)
      by (apply Qle_antisym; apply rnd_mono; lra).
    rewrite Hr, rnd_idem, E. done.
Qed.

Lemma ping_delays s : (0 <= random_delay_ s)%Q -> (0 <= ping_must_delay s)%Q /\ (ping_may_delay s <= ping_must_delay s)%Q.
Proof.
  intros Hr. destruct (rtt_spec s) as [Hge He]. unfold ping_must_delay, ping_may_delay. destruct (online_flag_ s).
  - split; [lra|]. rewrite <- He at 2. apply rnd_mono. lra.
  - split; [apply rnd_nonneg; lra|apply rnd_mono; lra].
Qed.

Lemma may_of_must s : (0 <= random_delay_ s)%Q -> must_ping now s = true -> may_ping now s = true.
Proof.
  intros Hr. destruct (ping_delays s Hr) as [_ Hd]. unfold must_ping, may_ping. rewrite !orb_true_iff, !andb_true_iff, !Qltb_lt.
  intros [?|[? Hl]]; [by left|right]. split; [done|]. eapply Qle_lt_trans; [apply rnd_mono|exact Hl]. lra.
Qed.

(** A ping that was sent now is not due again. *)
Lemma pinged_now s : (0 <= random_delay_ s)%Q -> last_ping_at_ s = now -> must_ping now s = false.
Proof.
  intros Hr E. destruct (ping_delays s Hr) as [Hd _]. unfold must_ping. rewrite E.
  destruct (not_late _ Hd) as [-> ->]. by rewrite andb_false_r.
Qed.
End timing.

Section loop.
Context `{ServiceApi} `{Gzip} `{SessionCallback} `{Rounding} `{Sha} `{AesIge}.
Context {T G : Type} `{StreamTransport T G} `{RandomSource G}.
Context `{!ServiceLaws} `{!ShaLaws} `{!AesIgeLaws} `{!StreamLaws T G} `{!RandomLaws G} `{!RoundingLaws} `{!SessionCallbackLaws}.
Context (now : Q) (Hpos : (0 < now)%Q) (Hnow : (rnd now == now)%Q).

(** * Nothing is lost and nothing is sent twice *)

(** The queries leave at the front, in their order, the identifiers at the
    end. *)
Record conserved (s : session_connection) (ps : list sent_packet) (s' : session_connection) : Prop := {
  conserved_queries : to_send_ s = concat (sent_queries <$> ps) ++ to_send_ s';
  conserved_acks : int64 <$> to_ack_message_ids_ s =
    (int64 <$> to_ack_message_ids_ s') ++ concat (reverse ((fun p => to_ack (sent_cut p)) <$> ps));
  conserved_info : int64 <$> to_get_state_info_message_ids_ s =
    (int64 <$> to_get_state_info_message_ids_ s') ++ concat (reverse ((fun p => to_get_state_info (sent_cut p)) <$> ps));
  conserved_resend : int64 <$> to_resend_answer_message_ids_ s =
    (int64 <$> to_resend_answer_message_ids_ s') ++ concat (reverse ((fun p => to_resend_answer (sent_cut p)) <$> ps));
  conserved_cancel : int64 <$> to_cancel_answer_message_ids_ s =
    (int64 <$> to_cancel_answer_message_ids_ s') ++ concat (reverse ((fun p => to_cancel_answer (sent_cut p)) <$> ps));
}.

Inductive sends : list sent_packet -> connection T -> connection T -> Prop :=
  | sends_nil c : sends [] c c
  | sends_cons p ps c c1 c2 : packet_sent p c c1 -> sends ps c1 c2 -> sends (p :: ps) c c2.

Lemma conserved_nil s s' : queues s = queues s' -> conserved s [] s'.
Proof. unfold queues. intros E. injection E as E1 E2 E3 E4 E5. split; cbn; rewrite ?app_nil_r; congruence. Qed.

Lemma concat_reverse_cons {A} (x : list A) xs : concat (reverse (x :: xs)) = concat (reverse xs) ++ x.
Proof. rewrite reverse_cons, concat_app. cbn. by rewrite app_nil_r. Qed.

Lemma conserved_cons s p s1 ps s' : conserved s [p] s1 -> conserved s1 ps s' -> conserved s (p :: ps) s'.
Proof.
  intros [Q A I R C] [Q' A' I' R' C']. cbn in *. rewrite !app_nil_r in *.
  split; cbn [fmap list_fmap concat]; rewrite ?concat_reverse_cons, ?app_assoc.
  - rewrite Q, Q'. by rewrite app_assoc.
  - by rewrite A, A'.
  - by rewrite I, I'.
  - by rewrite R, R'.
  - by rewrite C, C'.
Qed.

Lemma conserved_waited s s1 ps s' : queues s = queues s1 -> conserved s1 ps s' -> conserved s ps s'.
Proof. unfold queues. intros E [Q A I R C]. injection E as E1 E2 E3 E4 E5. split; congruence. Qed.

Lemma cut_conserved n s s' :
  len (take n (to_send_ s)) <= MAX_QUERY_COUNT ->
  queues s' = queues (after_cut (take n (to_send_ s)) { s with to_send_ := drop n (to_send_ s) }) ->
  forall p, sent_queries p = take n (to_send_ s) -> sent_cut p = cut_of (sent_queries p) s -> conserved s [p] s'.
Proof.
  intros Hl E p Eq Ec. unfold queues, after_cut in E. cbn in E. injection E as E1 E2 E3 E4 E5.
  split; cbn; rewrite ?app_nil_r, ?Ec, ?Eq; unfold cut_of; cbn [to_ack to_get_state_info to_resend_answer to_cancel_answer].
  - by rewrite E1, take_drop.
  - rewrite E2. by apply cut_tail_spec.
  - rewrite E3. by apply cut_tail_spec.
  - rewrite E4. by apply cut_tail_spec.
  - rewrite E5. apply cut_tail_spec. lia.
Qed.

Lemma conserved_all_sent s ps s' : all_sent s = true -> conserved s ps s' -> all_sent s' = true.
Proof.
  rewrite !all_sent_true. unfold queues. intros E [Q A I R C]. injection E as E1 E2 E3 E4 E5. rewrite E1 in Q.
  rewrite E2 in A. rewrite E3 in I. rewrite E4 in R. rewrite E5 in C. cbn in *.
  symmetry in Q, A, I, R, C. apply app_eq_nil in Q as [_ ->].
  apply app_eq_nil in A as [A _], I as [I _], R as [R _], C as [C _].
  by rewrite (fmap_nil_inv _ _ A), (fmap_nil_inv _ _ I), (fmap_nil_inv _ _ R), (fmap_nil_inv _ _ C).
Qed.

(** * After one packet only the queues make another one due *)

Definition salted (w : world G) : bool := (has_salt now (auth_data_ w)).1.

Definition force_due (s : session_connection) : bool := negb (Qeqb (force_send_at_ s) 0) && Qltb (force_send_at_ s) now.

Record quiet (w : world G) : Prop := {
  quiet_settled : settled now (auth_data_ w);
  quiet_ping : salted w = true -> must_ping now (self w) = false;
  quiet_destroy : need_destroy_auth_key_ (self w) && negb (sent_destroy_auth_key_ (self w)) = false;
  quiet_salts : salted w = false ->
    Qeqb (last_get_future_salt_at_ (self w)) 0 || Qltb (rnd (last_get_future_salt_at_ (self w) + 60)) now = false;
}.

Lemma quiet_needs_flush t w :
  mode_ (self w) <> HttpLongPoll -> quiet w ->
  needs_flush now t w = has_auth_key now (auth_data_ w) && transport_can_write t && (salted w && force_due (self w)).
Proof.
  intros Hm [_ Hp Hd Hs]. unfold needs_flush. change (has_salt now (auth_data_ w)).1 with (salted w). rewrite bool_decide_eq_false_2 by done.
  rewrite Hd. fold (force_due (self w)). f_equal. destruct (salted w) eqn:E; cbn [andb orb negb].
  - by rewrite (Hp eq_refl), !orb_false_r.
  - by apply Hs.
Qed.

Lemma must_ping_fields s s' :
  last_ping_at_ s' = last_ping_at_ s -> fixed s' = fixed s -> must_ping now s' = must_ping now s.
Proof.
  unfold fixed. intros E F. injection F as _ Em Eo _ Er Ert _. unfold must_ping, ping_must_delay, rtt. by rewrite E, Em, Eo, Er, Ert.
Qed.

Lemma salted_drawn (w w' : world G) :
  settled now (auth_data_ w) -> ids_drawn (auth_data_ w) (auth_data_ w') -> salted w' = salted w.
Proof.
  intros Hs Hd. unfold salted. rewrite !has_salt_settled by (done || by eapply drawn_settled). cbn [fst]. by apply drawn_salt_valid.
Qed.

Lemma flushed_quiet (c c' : connection T) w w' o :
  session_ok w -> settled now (auth_data_ w) -> mode_ (self w) <> HttpLongPoll -> flushed now c w c' w' o -> quiet w'.
Proof.
  intros Hok Hset Hm Hf. pose proof (salted_drawn w w' Hset (flushed_auth _ _ _ _ _ _ Hf)) as Hsalt.
  pose proof (flushed_fixed _ _ _ _ _ _ Hf) as Hfix. pose proof (ok_random _ Hok) as Hr.
  assert (Hr' : (0 <= random_delay_ (self w'))%Q) by (unfold fixed in Hfix; injection Hfix as _ _ _ _ -> _ _; done).
  split.
  - eapply drawn_settled; [apply (flushed_auth _ _ _ _ _ _ Hf)|done].
  - intros Hs. rewrite Hsalt in Hs. pose proof (flushed_ping _ _ _ _ _ _ Hf) as Hp. unfold pings in Hp.
    change (has_salt now (auth_data_ w)).1 with (salted w) in Hp. rewrite Hs in Hp. cbn [andb] in Hp.
    destruct (may_ping now (self w)) eqn:E; [by apply pinged_now|]. rewrite (must_ping_fields _ _ Hp Hfix).
    destruct (must_ping now (self w)) eqn:E'; [|done]. apply may_of_must in E'; [congruence|done].
  - rewrite (flushed_destroy _ _ _ _ _ _ Hf). unfold fixed in Hfix. injection Hfix as _ _ _ _ _ _ ->.
    by destruct (need_destroy_auth_key_ (self w)), (sent_destroy_auth_key_ (self w)).
  - intros Hs. rewrite Hsalt in Hs. rewrite (flushed_salts _ _ _ _ _ _ Hf). unfold asks_salts. rewrite bool_decide_eq_false_2 by done.
    assert (Hneed : (need_future_salts now (auth_data_ w)).1 = true).
    { unfold need_future_salts. cbv zeta. cbn [fst]. rewrite Hset. unfold salted in Hs. rewrite has_salt_settled in Hs by done. cbn [fst] in Hs.
      rewrite Hs. by rewrite orb_true_r. }
    rewrite Hneed. cbn [negb andb].
    destruct (Qeqb (last_get_future_salt_at_ (self w)) 0 || Qltb (rnd (last_get_future_salt_at_ (self w) + 60)) now) eqn:E; [|done].
    destruct (not_late now Hpos Hnow 60) as [-> ->]; [by compute|done].
Qed.

(** What waits to be sent. *)
Definition pending (s : session_connection) : nat :=
  length (to_send_ s) + length (to_ack_message_ids_ s) + length (to_get_state_info_message_ids_ s)
  + length (to_resend_answer_message_ids_ s) + length (to_cancel_answer_message_ids_ s).

Lemma pending_all_sent s : pending s = 0%nat -> all_sent s = true.
Proof. unfold pending, all_sent, len. intros E. rewrite !andb_true_iff, !Z.eqb_eq. lia. Qed.

Lemma flushed_pending (c c' : connection T) w w' o :
  session_ok w -> flushed now c w c' w' o ->
  (pending (self w') <= pending (self w))%nat /\
  (salted w = true -> pending (self w) <> 0%nat -> (pending (self w') < pending (self w))%nat).
Proof.
  intros Hok Hf. pose proof (flushed_queues _ _ _ _ _ _ Hf) as Q. cbv zeta in Q.
  destruct (queries_taken_spec now w Hok) as (_ & Hl & _ & Hn).
  change (has_salt now (auth_data_ w)).1 with (salted w) in Hn. set (n := queries_taken now w) in *.
  set (qs := take n (to_send_ (self w))) in *. unfold queues, after_cut in Q. cbn in Q. injection Q as Q1 Q2 Q3 Q4 Q5.
  unfold pending. rewrite Q1, Q2, Q3, Q4, Q5, length_drop.
  destruct (cut_tail_spec (to_ack_message_ids_ (self w)) 8192 ltac:(lia)) as (_ & _ & A & A').
  destruct (cut_tail_spec (to_get_state_info_message_ids_ (self w)) 8192 ltac:(lia)) as (_ & _ & I & I').
  destruct (cut_tail_spec (to_resend_answer_message_ids_ (self w)) 8192 ltac:(lia)) as (_ & _ & R & R').
  destruct (cut_tail_spec (to_cancel_answer_message_ids_ (self w)) (MAX_QUERY_COUNT - len qs) ltac:(lia)) as (_ & _ & C & C').
  split; [lia|]. intros Hs Hp.
  destruct (decide (to_send_ (self w) = [])) as [E|E].
  - assert (Hqs : qs = []) by (unfold qs; rewrite E; by rewrite take_nil). rewrite Hqs in *. specialize (C' ltac:(done)).
    specialize (A' ltac:(done)). specialize (I' ltac:(done)). specialize (R' ltac:(done)). unfold pending in Hp. rewrite E in Hp |- *. cbn [length] in *.
    assert (Hcase : forall {X} (l : list X), l = [] \/ l <> []) by (intros X []; auto).
    destruct (Hcase _ (to_ack_message_ids_ (self w))) as [Ea|Ea]; [|destruct (A' Ea); lia].
    destruct (Hcase _ (to_get_state_info_message_ids_ (self w))) as [Ei|Ei]; [|destruct (I' Ei); lia].
    destruct (Hcase _ (to_resend_answer_message_ids_ (self w))) as [Er|Er]; [|destruct (R' Er); lia].
    destruct (Hcase _ (to_cancel_answer_message_ids_ (self w))) as [Ec|Ec]; [|destruct (C' Ec); lia].
    rewrite Ea, Ei, Er, Ec in Hp. done.
  - destruct (Hn Hs E) as [Hn0 _]. assert (length (to_send_ (self w)) <> 0%nat) by (by destruct (to_send_ (self w))). lia.
Qed.

(** * The loop *)

Lemma flushed_ok (c c' : connection T) w w' o : session_ok w -> flushed now c w c' w' o -> session_ok w'.
Proof.
  intros [Ha Hh Hq Ho Hr] Hf. pose proof (flushed_fixed _ _ _ _ _ _ Hf) as F. pose proof (flushed_queues _ _ _ _ _ _ Hf) as Q.
  pose proof (flushed_auth _ _ _ _ _ _ Hf) as Hd. cbv zeta in Q.
  unfold fixed in F. injection F as F1 _ _ _ F2 _ _. unfold queues in Q. injection Q as Q1 _ _ _ _. cbn in Q1.
  split; [by eapply drawn_frame|by rewrite Hd| |by rewrite F1|by rewrite F2]. rewrite Q1. by apply Forall_drop.
Qed.

Lemma waited_ok (w w' : world G) :
  session_ok w -> waited w w' -> auth_frame (auth_data_ w) (auth_data_ w') -> session_ok w'.
Proof.
  intros [Ha Hh Hq Ho Hr] [[t E] _ _] Hauth. split; [by apply (frame_ok _ _ Hauth)|by rewrite (frame_header _ _ Hauth)|..]; by rewrite E.
Qed.

Lemma waited_same (w w' : world G) :
  waited w w' -> queues (self w') = queues (self w) /\ mode_ (self w') = mode_ (self w) /\
    force_send_at_ (self w') = force_send_at_ (self w) /\ pending (self w') = pending (self w) /\
    fixed (self w') = fixed (self w).
Proof. by intros [[t ->] _ _]. Qed.

Lemma salted_update (w w' : world G) : auth_data_ w' = update_salt now (auth_data_ w) -> salted w' = salted w.
Proof. intros E. unfold salted, has_salt. cbn. rewrite E. by rewrite update_salt_settled. Qed.

Lemma needs_flush_waited t (w w' : world G) :
  waited w w' -> auth_data_ w' = update_salt now (auth_data_ w) \/ auth_data_ w' = auth_data_ w ->
  needs_flush now t w' = needs_flush now t w.
Proof.
  intros [[u E] _ _] Ha. assert (Hs : salted w' = salted w /\ has_auth_key now (auth_data_ w') = has_auth_key now (auth_data_ w)).
  { destruct Ha as [Ha|Ha]; [split; [by apply salted_update|by rewrite Ha, update_salt_has_key]|unfold salted; by rewrite Ha]. }
  destruct Hs as [Hs Hk]. unfold needs_flush. change (has_salt now (auth_data_ w')).1 with (salted w').
  change (has_salt now (auth_data_ w)).1 with (salted w). by rewrite Hs, Hk, E.
Qed.

(** One pass: either nothing is due, or a packet is flushed. *)
Lemma loop_pass fuel (c : connection T) w :
  session_ok w -> ready (transport_ c) -> mode_ (self w) <> HttpLongPoll ->
  exists w1, waited w w1 /\ session_ok w1 /\
    if needs_flush now (transport_ c) w then
      auth_data_ w1 = update_salt now (auth_data_ w) /\
      exists c2 w2 o, flushed now c w1 c2 w2 o /\ session_ok w2 /\ quiet w2 /\ mode_ (self w2) <> HttpLongPoll /\
        flush_packets now (S fuel) (c, w) = flush_packets now fuel (c2, w2)
    else flush_packets now (S fuel) (c, w) = (Ok tt, (c, w1)) /\ needs_flush now (transport_ c) w1 = false.
Proof.
  intros Hok Hready Hm. destruct (must_flush_packet_ok now c w) as (w1 & E & Hw & Ha). exists w1. split; [done|].
  assert (Hok1 : session_ok w1).
  { eapply waited_ok; [done|done|]. destruct Ha as [-> |[-> _]]; [apply update_salt_frame|done]. }
  split; [done|]. cbn [flush_packets]. rewrite (bind_step _ _ _ _ _ E).
  destruct (needs_flush now (transport_ c) w) eqn:En.
  - destruct Ha as [Ha|[_ ?]]; [|done]. split; [done|].
    assert (Hset : settled now (auth_data_ w1)) by (rewrite Ha; apply update_salt_settled).
    destruct (waited_same _ _ Hw) as (_ & Em & _).
    assert (Hkey : has_auth_key now (auth_data_ w1) = true).
    { rewrite Ha, update_salt_has_key. unfold needs_flush in En. by destruct (has_auth_key now (auth_data_ w)). }
    destruct (flush_packet_ok now c w1 Hok1 Hset Hkey Hready) as (c2 & w2 & o & E2 & Hf).
    exists c2, w2, o. split; [done|]. split; [by eapply flushed_ok|]. split; [eapply flushed_quiet; [done|done| |done]; by rewrite Em|].
    split; [|by rewrite (bind_step _ _ _ _ _ E2)].
    pose proof (flushed_fixed _ _ _ _ _ _ Hf) as F. unfold fixed in F. injection F as _ F _ _ _ _ _. by rewrite F, Em.
  - split; [done|]. rewrite (needs_flush_waited _ w w1); [done|done|]. destruct Ha as [?|[? _]]; auto.
Qed.

(** What was sent in one pass. *)
Lemma flushed_sends (c c' : connection T) w w' o :
  session_ok w -> flushed now c w c' w' o ->
  exists ps, sends ps c c' /\ conserved (self w) ps (self w') /\ (length ps <= 1)%nat.
Proof.
  intros Hok Hf. pose proof (flushed_packet _ _ _ _ _ _ Hf) as Hp. destruct o as [p|].
  - destruct Hp as (Hs & Hq & Hc & _). exists [p]. split; [by econstructor; [|constructor]|]. split; [|done].
    eapply cut_conserved; [|exact (flushed_queues _ _ _ _ _ _ Hf)|exact Hq|exact Hc]. by apply queries_taken_spec.
  - destruct Hp as (-> & _ & Hq & _). exists []. split; [constructor|]. split; [by apply conserved_nil|cbn; lia].
Qed.

Lemma sends_app ps qs c c1 c2 : sends ps c c1 -> sends qs c1 c2 -> sends (ps ++ qs) c c2.
Proof. intros Hp Hq. induction Hp; [done|]. econstructor; [done|auto]. Qed.

Lemma conserved_app s ps s1 qs s2 : (length ps <= 1)%nat -> conserved s ps s1 -> conserved s1 qs s2 -> conserved s (ps ++ qs) s2.
Proof.
  intros Hl Hp Hq. destruct ps as [|p [|]]; [|by eapply conserved_cons|cbn in Hl; lia].
  destruct Hp as [E1 E2 E3 E4 E5], Hq. cbn in *. rewrite ?app_nil_r in *. split; congruence.
Qed.

(** What is left when the loop ends. *)
Record sent_all (c : connection T) (w : world G) (c' : connection T) (w' : world G) (ps : list sent_packet) : Prop := {
  sent_sends : sends ps c c';
  sent_conserved : conserved (self w) ps (self w');
  sent_ready : ready (transport_ c');
  sent_session : session_ok w';
  sent_fixed : fixed (self w') = fixed (self w);
  sent_done : needs_flush now (transport_ c') w' = false;
}.

Definition rounds (w : world G) : nat := pending (self w) + if Qeqb (force_send_at_ (self w)) 0 then 0 else 1.

(** In a quiet state a pass brings the end nearer. *)
Lemma rounds_decrease t (c c2 : connection T) w w1 w2 o :
  quiet w -> mode_ (self w) <> HttpLongPoll -> waited w w1 -> auth_data_ w1 = update_salt now (auth_data_ w) ->
  session_ok w1 -> needs_flush now t w = true -> flushed now c w1 c2 w2 o ->
  (rounds w2 < rounds w)%nat /\ salted w2 = true /\
  (force_send_at_ (self w2) = force_send_at_ (self w) \/ all_sent (self w2) = true).
Proof.
  intros Hq Hm Hw Ha Hok Hn Hf. rewrite quiet_needs_flush in Hn by done. rewrite !andb_true_iff in Hn. destruct Hn as [_ [Hs Hd]].
  destruct (waited_same _ _ Hw) as (_ & _ & Ef & Ep & _). pose proof (salted_update _ _ Ha) as Hs1. rewrite Hs in Hs1.
  destruct (flushed_pending _ _ _ _ _ Hok Hf) as [Hle Hlt]. specialize (Hlt Hs1). rewrite Ep in Hle, Hlt.
  pose proof (flushed_late _ _ _ _ _ _ Hf Hs1) as Hlate. rewrite Ef in Hlate.
  assert (Hset : settled now (auth_data_ w1)) by (rewrite Ha; apply update_salt_settled).
  split; [|split; [by rewrite (salted_drawn _ _ Hset (flushed_auth _ _ _ _ _ _ Hf))|destruct (all_sent (self w2)); auto]].
  unfold rounds, force_due in *. rewrite andb_true_iff, negb_true_iff in Hd. destruct Hd as [-> _].
  destruct (decide (pending (self w) = 0%nat)) as [E|E].
  - rewrite (pending_all_sent (self w2) ltac:(lia)) in Hlate. rewrite Hlate. change (Qeqb 0 0) with true. cbv iota. lia.
  - specialize (Hlt E). destruct (Qeqb _ 0); lia.
Qed.

(** What is due is sent, if the transport takes it. *)
Definition due_sent (w : world G) (c' : connection T) (w' : world G) : Prop :=
  salted w = true -> force_due (self w) = true -> has_auth_key now (auth_data_ w) = true ->
  transport_can_write (transport_ c') = true -> all_sent (self w') = true.

Lemma sent_all_stop (c : connection T) w w1 :
  session_ok w1 -> ready (transport_ c) -> waited w w1 -> needs_flush now (transport_ c) w1 = false -> sent_all c w c w1 [].
Proof.
  intros Hok Hready Hw Hn. destruct (waited_same _ _ Hw) as (Eq & _ & _ & _ & Efix). split; try done; [constructor|by apply conserved_nil].
Qed.

(** A pass and then the rest. *)
Lemma sent_all_pass (c c2 c' : connection T) w w1 w2 w' o ps :
  session_ok w1 -> waited w w1 -> flushed now c w1 c2 w2 o -> sent_all c2 w2 c' w' ps ->
  exists ps', sent_all c w c' w' ps'.
Proof.
  intros Hok Hw Hf [Hs Hc Hr Hok' Hfix Hn]. destruct (flushed_sends _ _ _ _ _ Hok Hf) as (qs & Hqs & Hcq & Hl).
  destruct (waited_same _ _ Hw) as (Eq & _ & _ & _ & Efix). exists (qs ++ ps). split; try done.
  - by eapply sends_app.
  - eapply conserved_waited; [symmetry; exact Eq|]. by eapply conserved_app.
  - by rewrite Hfix, (flushed_fixed _ _ _ _ _ _ Hf).
Qed.

Lemma loop_quiet fuel : forall (c : connection T) w,
  session_ok w -> ready (transport_ c) -> mode_ (self w) <> HttpLongPoll -> quiet w -> (rounds w < fuel)%nat ->
  exists c' w' ps, flush_packets now fuel (c, w) = (Ok tt, (c', w')) /\ sent_all c w c' w' ps /\ due_sent w c' w'.
Proof.
  induction fuel as [|fuel IH]; intros c w Hok Hready Hm Hq Hr; [lia|].
  destruct (loop_pass fuel c w Hok Hready Hm) as (w1 & Hw & Hok1 & Hpass).
  destruct (needs_flush now (transport_ c) w) eqn:En.
  - destruct Hpass as (Ha & c2 & w2 & o & Hf & Hok2 & Hq2 & Hm2 & ->).
    destruct (rounds_decrease (transport_ c) c c2 w w1 w2 o Hq Hm Hw Ha Hok1 En Hf) as (Hlt & Hs2 & Hforce).
    destruct (IH c2 w2 Hok2 (flushed_ready _ _ _ _ _ _ Hf) Hm2 Hq2 ltac:(lia)) as (c' & w' & ps & E & Hsent & Hdue).
    destruct (sent_all_pass _ _ _ _ _ _ _ _ _ Hok1 Hw Hf Hsent) as (ps' & Hsent').
    exists c', w', ps'. split; [done|]. split; [done|]. intros Hs Hd Hk Hcan.
    destruct Hforce as [Ef|Hall]; [|eapply conserved_all_sent; [exact Hall|apply Hsent]].
    apply Hdue; [done|unfold force_due in *; by rewrite Ef| |done].
    by rewrite (drawn_has_key _ _ _ (flushed_auth _ _ _ _ _ _ Hf)), Ha, update_salt_has_key.
  - destruct Hpass as [E Hn]. exists c, w1, []. split; [done|]. split; [by apply sent_all_stop|].
    intros Hs Hd Hk Hcan. rewrite quiet_needs_flush in En by done. by rewrite Hs, Hd, Hk, Hcan in En.
Qed.

Lemma loop_ends (fuel : nat) (c : connection T) (w : world G) :
  session_ok w -> ready (transport_ c) -> mode_ (self w) <> HttpLongPoll -> (pending (self w) + 2 < fuel)%nat ->
  exists c' w' ps, flush_packets now fuel (c, w) = (Ok tt, (c', w')) /\ sent_all c w c' w' ps /\ due_sent w c' w'.
Proof.
  intros Hok Hready Hm Hfuel. destruct fuel as [|fuel]; [lia|].
  destruct (loop_pass fuel c w Hok Hready Hm) as (w1 & Hw & Hok1 & Hpass). destruct (waited_same _ _ Hw) as (_ & _ & Ef & Ep & _).
  destruct (needs_flush now (transport_ c) w) eqn:En.
  - destruct Hpass as (Ha & c2 & w2 & o & Hf & Hok2 & Hq2 & Hm2 & ->).
    destruct (flushed_pending _ _ _ _ _ Hok1 Hf) as [Hle _]. rewrite Ep in Hle.
    destruct (loop_quiet fuel c2 w2 Hok2 (flushed_ready _ _ _ _ _ _ Hf) Hm2 Hq2) as (c' & w' & ps & E & Hsent & Hdue).
    { unfold rounds. destruct (Qeqb _ 0); lia. }
    destruct (sent_all_pass _ _ _ _ _ _ _ _ _ Hok1 Hw Hf Hsent) as (ps' & Hsent').
    exists c', w', ps'. split; [done|]. split; [done|]. intros Hs Hd Hk Hcan.
    assert (Hset : settled now (auth_data_ w1)) by (rewrite Ha; apply update_salt_settled).
    assert (Hs1 : salted w1 = true) by (by rewrite (salted_update w w1 Ha)).
    pose proof (flushed_late _ _ _ _ _ _ Hf Hs1) as Hlate.
    destruct (all_sent (self w2)) eqn:Hall; [eapply conserved_all_sent; [exact Hall|apply Hsent]|]. apply Hdue; [| | |done].
    + by rewrite (salted_drawn w1 w2 Hset (flushed_auth _ _ _ _ _ _ Hf)).
    + unfold force_due in *. by rewrite Hlate, Ef.
    + by rewrite (drawn_has_key _ _ _ (flushed_auth _ _ _ _ _ _ Hf)), Ha, update_salt_has_key.
  - destruct Hpass as [E Hn]. exists c, w1, []. destruct (sent_all_stop c w w1 Hok1 Hready Hw Hn). split_and!; try done.
    intros Hs Hd Hk Hcan. unfold needs_flush in En. change (has_salt now (auth_data_ w)).1 with (salted w) in En.
    fold (force_due (self w)) in En. rewrite bool_decide_eq_false_2 in En by done. by rewrite Hs, Hd, Hk, Hcan in En.
Qed.

(** C5: In any mode but HttpLongPoll: before the socket is written to, the
    connection writes packets until none is due. That loop ends after at most
    three packets more than there are queries and identifiers that wait,
    whatever is due; nothing is lost and nothing is sent twice: the queries
    leave in their order, and every identifier that waited for an
    acknowledgement, a request of its state, a resend or a cancellation either
    still waits or is in one of the packets, whose bytes went through the
    connection. When a send was due and the transport takes it, nothing waits
    any more. *)
Theorem before_write_sends (fuel : nat) (c : connection T) (w : world G) :
  session_ok w -> ready (transport_ c) -> mode_ (self w) <> HttpLongPoll -> (pending (self w) + 2 < fuel)%nat ->
  exists c' w' ps, flush_packets now fuel (c, w) = (Ok tt, (c', w')) /\
    sends ps c c' /\ conserved (self w) ps (self w') /\ ready (transport_ c') /\ session_ok w' /\ fixed (self w') = fixed (self w) /\
    needs_flush now (transport_ c') w' = false /\ due_sent w c' w'.
Proof.
  intros Hok Hready Hm Hfuel. destruct (loop_ends fuel c w Hok Hready Hm Hfuel) as (c' & w' & ps & E & [] & Hdue).
  by exists c', w', ps.
Qed.
End loop.

(** ** Witness *)

Import ExactTime SchemeServices Toy.

Lemma sample_world_ok : session_ok sample_world.
Proof.
  split; [apply sample_data_ok|by split| |done|done]. constructor; [|constructor]. by split.
Qed.

(** Everything that waits is sent. *)
Lemma before_write_sends_witness :
  exists c' w' ps, flush_packets 10 9 (sample_connection ∅, sample_world) = (Ok tt, (c', w')) /\
    to_send_ sample_session = concat (sent_queries <$> ps) /\
    [16; 20] = concat (reverse ((fun p => to_ack (sent_cut p)) <$> ps)).
Proof.
  destruct (before_write_sends 10 ltac:(reflexivity) ltac:(reflexivity) 9 (sample_connection ∅) sample_world sample_world_ok)
    as (c' & w' & ps & E & _ & [Q A _ _ _] & _ & _ & _ & _ & D); [reflexivity|discriminate|cbn; lia|].
  exists c', w', ps. split; [exact E|].
  assert (Hall : all_sent (self w') = true) by (apply D; reflexivity).
  apply all_sent_true in Hall. unfold queues in Hall. injection Hall as E1 E2 _ _ _.
  rewrite E1, app_nil_r in Q. rewrite E2 in A. split; [exact Q|exact A].
Defined.
