(* ===== verification/SessionSafe.v ===== *)
(** The whole [flush] of a session's connection: what arrives is read, handled
    and answered.  Whatever the bytes are, the connection is then in order or
    closed. *)
From Stdlib Require Import QArith.
From coqutil Require Import Datatypes.RecordSettersUsingExistingGetters.
From S2P Require Import Prelude Bytes Random Buffer Crypto Kdf Tl Transport MessageIds AuthData TlObject ServiceApi CryptoStorer RawConnection SessionConnection SessionSender SessionReceive SessionSample SessionWrite SessionLoop.
#[local] Open Scope Z_scope.

Section flush.
Context `{ServiceApi} `{Gzip} `{SessionCallback} `{Rounding} `{Sha} `{AesIge}.
Context {T G : Type} `{StreamTransport T G} `{RandomSource G}.
Context `{!ServiceLaws} `{!ShaLaws} `{!AesIgeLaws} `{!StreamLaws T G} `{!RandomLaws G} `{!RoundingLaws} `{!SessionCallbackLaws}.
Context (now : Q) (Hpos : (0 < now)%Q) (Hnow : (rnd now == now)%Q).

(** The invariant of an open connection. *)
Record session_open (w : world G) : Prop := {
  open_ok : session_ok w;
  open_mode : mode_ (self w) <> HttpLongPoll;
}.

Lemma session_open_frame (w w' : world G) : session_open w -> world_frame w w' -> session_open w'.
Proof.
  intros [[Ha Hh Hq Ho Hr] Hm] [[Hsend _ _ _ _ _ _ Hfix] Hauth _ _]. injection Hfix as E1 E2 E3 E4 E5 E6.
  split; [split|by rewrite E2].
  - by apply (frame_ok _ _ Hauth).
  - by rewrite (frame_header _ _ Hauth).
  - by destruct Hsend as [->| ->].
  - by rewrite E1.
  - by rewrite E5.
Qed.

Definition session_key (w : world G) : AuthKey := auth_key (get_auth_key (auth_data_ w)).

Lemma session_key_usable w : session_open w -> key_usable (session_key w).
Proof.
  intros Ho. pose proof (ok_auth _ (open_ok _ Ho)) as Ha. unfold session_key, get_auth_key, key_usable.
  destruct (use_pfs (auth_data_ w)).
  - destruct (ok_tmp _ Ha) as [[]|]; auto.
  - destruct (ok_main _ Ha) as [[]|]; auto.
Qed.

(** [depth] is the stack that there is for what is nested. *)
Context (depth : nat).

(** The message of a packet, if it has one, needs no more than that. *)
Definition shallow (packet : bytes) : Prop := forall info body n, read_message packet = Some (info, body, n) -> nests depth body.

Lemma raw_packet_safe info data (w : world G) :
  session_open w -> len data < max_size_t -> shallow data ->
  (on_raw_packet now depth info data w).1 <> Crash /\ session_open (on_raw_packet now depth info data w).2.
Proof.
  intros Ho Hl Hs. destruct (fine_on_raw_packet (G := G) now depth info data) with (w := w) as [Hc Hf].
  - lia.
  - exact Hs.
  - apply (ok_auth _ (open_ok _ Ho)).
  - split; [done|by eapply session_open_frame].
Qed.

Lemma quick_ack_safe token (w : world G) : session_open w -> session_open (on_quick_ack now token w).2.
Proof.
  intros Ho. eapply session_open_frame; [exact Ho|]. apply (fine_tell now (MessageAck token) w). apply (ok_auth _ (open_ok _ Ho)).
Qed.

Lemma read_safe (w : world G) : session_open w -> session_open (on_read now w).2.
Proof. by intros [[] ?]. Qed.

(** The raw connection's flush, with the session behind it. *)
Definition connection_delivers (read_fuel : nat) (s : socket) (c : connection T) (w : world G) : list bytes :=
  flush_delivers (H3 := session_callback now depth) read_fuel session_key s c w.

Lemma flush_connection_safe read_fuel (s : socket) (c : connection T) (w : world G) :
  session_open w -> ready (transport_ c) ->
  (backlog (socket_input (arrived s) (transport_ c)) < read_fuel)%nat ->
  Z.of_nat (backlog (socket_input (arrived s) (transport_ c))) < max_size_t ->
  Forall shallow (connection_delivers read_fuel s c w) ->
  exists fuel0, forall fuel, (fuel0 <= fuel)%nat ->
    let r := flush_connection now depth fuel read_fuel s (c, w) in
    r.1 <> Crash /\ session_open r.2.2 /\ ready (transport_ r.2.1).
Proof.
  intros Ho Hready Hfuel Hlim Hshallow. unfold flush_connection. fold session_key.
  pose proof (flush_read_fine (H3 := session_callback now depth) session_open max_size_t shallow raw_packet_safe quick_ack_safe (fun _ => read_safe) read_fuel session_key s c w
    session_key_usable Hfuel Hlim Hready Ho Hshallow) as Hr.
  destruct (flush_read (H1 := session_callback now depth) read_fuel session_key s c w) as [[r c1] w1] eqn:Er. cbn [fst snd] in Hr. destruct Hr as (Hc & Hready1 & Ho1).
  exists (pending (self w1) + 3)%nat. intros fuel Hf. unfold RawConnection.flush, RawConnection.do_flush. cbn [fst snd].
  destruct (has_error_ c); [done|]. destruct (get_pending_error s) as [e|]; [by destruct (negb (error_code e =? 2))|].
  rewrite Er. destruct r as [u|e|]; [|by destruct (negb (error_code e =? 2))|done].
  destruct (loop_ends now Hpos Hnow fuel c1 w1 (open_ok _ Ho1) Hready1 (open_mode _ Ho1) ltac:(lia))
    as (c2 & w2 & ps & E & [_ _ Hready2 Hok2 Hfix _] & _).
  assert (Ho2 : session_open w2) by (split; [done|]; unfold fixed in Hfix; injection Hfix as _ -> _ _ _ _ _; apply Ho1).
  cbn [before_write session_write]. rewrite E. unfold flush_write.
  destruct (write_error s) as [e|]; [by destruct (negb (error_code e =? 2))|]. pose proof (ready_output (written s) _ Hready2) as Hready3.
  destruct (can_close_local s), (0 <? written s); done.
Qed.

(** ** The session's flush *)

Lemma do_close_safe reason (c : connection T) (w : world G) :
  session_open w ->
  exists w', do_close now reason (c, w) = (Ok tt, (c, w')) /\ state_ (self w') = Closed.
Proof.
  intros Ho. unfold do_close. erewrite bind_step by reflexivity. cbv beta iota. cbn [fst snd].
  set (w1 := set_self _ w).
  destruct (fine_tell now (SessionClosed reason) w1) as [_ Hf]; [apply (ok_auth _ (open_ok _ Ho))|].
  exists (tell now (SessionClosed reason) w1).2. split; [reflexivity|].
  pose proof (frame_fixed _ _ (frame_self _ _ Hf)) as Hfix. injection Hfix as E _ _ _ _ _. etrans; [exact E|done].
Qed.

(** An open connection, or an error that will close it. *)
Definition flushed_safely (r : outcome unit * (connection T * world G)) : Prop :=
  r.1 <> Crash /\ session_open r.2.2 /\ ready (transport_ r.2.1).

Lemma timeouts_safe (c : connection T) (w : world G) :
  session_open w -> ready (transport_ c) ->
  flushed_safely
    ((ping_late ← on_world (asks (fun s => Qltb (rnd (last_pong_at_ s + ping_disconnect_delay s)) now));
      if ping_late : bool then timed_out "Ping timeout of "
      else
        read_late ← on_world (asks (fun s => Qltb (rnd (last_read_at_ s + read_disconnect_delay s)) now));
        if read_late : bool then timed_out "Read timeout of " else mret tt) (c, w)).
Proof.
  intros Ho Hr. erewrite bind_step by reflexivity. cbv beta iota. cbn [fst snd]. destruct (Qltb _ now); [done|].
  erewrite bind_step by reflexivity. cbv beta iota. cbn [fst snd]. by destruct (Qltb _ now).
Qed.

Lemma init_safe (c : connection T) (w : world G) :
  session_open w ->
  exists w', (if bool_decide (state_ (self w) = Init) then init now else mret tt) (c, w) = (Ok tt, (c, w')) /\ session_open w'.
Proof.
  intros Ho. case_bool_decide as Ei; [|by exists w].
  unfold init. erewrite bind_step by reflexivity. cbv beta iota. cbn [fst snd].
  rewrite bool_decide_eq_true_2 by done. eexists. split; [reflexivity|]. by destruct Ho as [[] ?].
Qed.

(** The packets that a flush of the session reads, after [init] if it is the first. *)
Definition session_delivers (read_fuel : nat) (s : socket) (st : connection T * world G) : list bytes :=
  let w := ((if bool_decide (state_ (self st.2) = Init) then init now else mret tt) st).2.2 in
  connection_delivers read_fuel s st.1 w.

Lemma do_flush_safe read_fuel (s : socket) (c : connection T) (w : world G) :
  session_open w -> ready (transport_ c) ->
  (backlog (socket_input (arrived s) (transport_ c)) < read_fuel)%nat ->
  Z.of_nat (backlog (socket_input (arrived s) (transport_ c))) < max_size_t ->
  Forall shallow (session_delivers read_fuel s (c, w)) ->
  exists fuel0, forall fuel, (fuel0 <= fuel)%nat -> flushed_safely (do_flush now depth fuel read_fuel s (c, w)).
Proof.
  intros Ho Hready Hfuel Hlim Hshallow. destruct (init_safe c w Ho) as (w1 & E1 & Ho1).
  unfold session_delivers in Hshallow. cbn [fst snd] in Hshallow. rewrite E1 in Hshallow.
  destruct (flush_connection_safe read_fuel s c w1 Ho1 Hready Hfuel Hlim Hshallow) as (fuel0 & Hconn).
  exists fuel0. intros fuel Hf. specialize (Hconn fuel Hf). cbv zeta in Hconn. unfold do_flush.
  erewrite bind_step by reflexivity. cbv beta iota. cbn [fst snd]. rewrite (bool_decide_eq_false_2 (state_ (self w) = Closed)) by apply (ok_open _ (open_ok _ Ho)).
  erewrite bind_step by reflexivity. cbv beta iota. rewrite (bind_step _ _ _ _ _ E1).
  erewrite bind_step by reflexivity. cbv beta iota. cbn [fst snd]. rewrite set_auth_same.
  destruct (has_auth_key now (auth_data_ w1)); cbn [negb]; [|done].
  destruct (flush_connection now depth fuel read_fuel s (c, w1)) as [r [c2 w2]] eqn:E2.
  cbn [fst snd] in Hconn. destruct Hconn as (Hc & Ho2 & Hr2). rewrite (bind_step _ _ _ _ _ E2).
  destruct r as [u|e|]; [by apply timeouts_safe|done..].
Qed.

(** Whatever bytes arrive, as long as the packets among them are not nested too
    deep, and whatever the session does meanwhile, a flush of its connection ends without a failed check: it reads and handles the packets,
    writes what is due, and then the connection is open and in order, with the
    time of the next flush, or it is closed, after an error that the session is
    told of. *)
Theorem session_flush_safe read_fuel (s : socket) (c : connection T) (w : world G) :
  session_open w -> ready (transport_ c) ->
  (backlog (socket_input (arrived s) (transport_ c)) < read_fuel)%nat ->
  Z.of_nat (backlog (socket_input (arrived s) (transport_ c))) < max_size_t ->
  Forall shallow (session_delivers read_fuel s (c, w)) ->
  exists fuel0, forall fuel, (fuel0 <= fuel)%nat ->
    exists c' w',
      flush now depth fuel read_fuel s (c, w) = (Ok (wakeup_at (self w')), (c', w')) /\ session_open w' /\ ready (transport_ c') \/
      flush now depth fuel read_fuel s (c, w) = (Ok 0%Q, (c', w')) /\ state_ (self w') = Closed.
Proof.
  intros Ho Hready Hfuel Hlim Hshallow. destruct (do_flush_safe read_fuel s c w Ho Hready Hfuel Hlim Hshallow) as (fuel0 & Hd).
  exists fuel0. intros fuel Hf. destruct (Hd fuel Hf) as (Hc & Ho' & Hr'). unfold flush.
  destruct (do_flush now depth fuel read_fuel s (c, w)) as [[u|e|] [c' w']]; cbn [fst snd] in *; [|..|done].
  - exists c', w'. by left.
  - destruct (do_close_safe (Err e) c' w' Ho') as (w'' & E & Hcl). exists c', w''. right. by rewrite (bind_step _ _ _ _ _ E).
Qed.
End flush.

(** ** Witness *)

Import ExactTime SchemeServices Toy.

Lemma sample_shallow ps : forallb (fun p => len p <? 1000) ps = true -> Forall (shallow 1002) ps.
Proof.
  intros Hps. apply Forall_forall. intros p Hp. rewrite forallb_forall in Hps. specialize (Hps p ltac:(by apply list_elem_of_In)).
  apply Z.ltb_lt in Hps. intros info body n Hr. apply sample_nests. pose proof (read_message_short _ _ _ _ Hr). unfold len in *. lia.
Qed.

(** A server's packet arrives, which is no message for the session. *)
Lemma session_flush_safe_witness :
  exists fuel, exists c' w',
    flush 10 1002 fuel 1000 sample_socket (sample_connection ∅, sample_world) = (Ok (wakeup_at (self w')), (c', w')) /\
      session_open w' /\ ready (transport_ c') \/
    flush 10 1002 fuel 1000 sample_socket (sample_connection ∅, sample_world) = (Ok 0%Q, (c', w')) /\ state_ (self w') = Closed.
Proof.
  destruct (session_flush_safe 10 ltac:(reflexivity) ltac:(reflexivity) 1002) with
    (read_fuel := 1000%nat) (s := sample_socket) (c := sample_connection ∅) (w := sample_world) as (fuel & Hf).
  - split; [apply sample_world_ok|discriminate].
  - reflexivity.
  - apply Nat.ltb_lt. vm_compute. reflexivity.
  - apply Z.ltb_lt. vm_compute. reflexivity.
  - apply sample_shallow. vm_compute. reflexivity.
  - exists fuel. apply (Hf fuel). reflexivity.
Defined.
