(* ===== verification/SessionRequeue.v ===== *)
(** Requests of states and of answers are not forgotten when the packet that
    held them is refused: they wait again.  The cancellations and
    acknowledgements of the packet are lost, and its list of service messages is
    never erased. *)
From Stdlib Require Import QArith.
From coqutil Require Import Datatypes.RecordSettersUsingExistingGetters.
From S2P Require Import Prelude Bytes Tl AuthData ServiceApi CryptoStorer SessionConnection SessionSender SessionSample SessionWrite.
#[local] Open Scope Z_scope.

Section requeue.
Context `{Rounding} (now : Q).

Lemma send_before_queues tm s : queues (send_before tm s) = queues s /\ services_of (send_before tm s) = services_of s.
Proof. unfold send_before. by destruct (_ || _). Qed.

(** One identifier more is asked for. *)
Definition add_info (ids : list Z) (s : session_connection) : session_connection :=
  { s with to_get_state_info_message_ids_ := to_get_state_info_message_ids_ s ++ ids }.

Definition add_resend (ids : list Z) (s : session_connection) : session_connection :=
  { s with to_resend_answer_message_ids_ := to_resend_answer_message_ids_ s ++ ids }.

(** Two objects with the same queues and service queries. *)
Definition alike (s s' : session_connection) : Prop := queues s = queues s' /\ services_of s = services_of s'.

#[local] Instance alike_equivalence : Equivalence alike.
Proof.
  split; [by intros|by intros ? ? []|]. intros a b c [E1 E2] [E3 E4]. split; congruence.
Qed.

#[local] Instance add_info_proper ids : Proper (alike ==> alike) (add_info ids).
Proof.
  intros s s' [Q V]. unfold alike, queues, services_of, add_info in *. cbn. injection Q as -> -> -> -> ->. by injection V as -> ->.
Qed.

#[local] Instance add_resend_proper ids : Proper (alike ==> alike) (add_resend ids).
Proof.
  intros s s' [Q V]. unfold alike, queues, services_of, add_resend in *. cbn. injection Q as -> -> -> -> ->. by injection V as -> ->.
Qed.

Lemma get_state_info_alike id s : alike (get_state_info now id s) (add_info [id] s).
Proof.
  unfold get_state_info. cbv zeta. change (alike (add_info [id] (if len (to_get_state_info_message_ids_ s) =? 0 then send_before now s else s)) (add_info [id] s)).
  apply add_info_proper. destruct (_ =? 0); [apply send_before_queues|done].
Qed.

Lemma resend_answer_alike id s : alike (resend_answer now id s) (add_resend [id] s).
Proof.
  unfold resend_answer. cbv zeta. match goal with |- alike { ?x with to_resend_answer_message_ids_ := _ } _ => change (alike (add_resend [id] x) (add_resend [id] s)) end.
  apply add_resend_proper. destruct (_ =? 0); [apply send_before_queues|done].
Qed.

Lemma get_infos_alike ids s :
  alike (foldl (fun s id => get_state_info now (uint64 id) s) s ids) (add_info (uint64 <$> ids) s).
Proof.
  revert s. induction ids as [|id ids IH]; intros s; cbn [foldl fmap list_fmap].
  - unfold add_info, alike, queues, services_of. cbn. by rewrite app_nil_r.
  - rewrite IH, get_state_info_alike. unfold add_info, alike, queues, services_of. cbn. by rewrite <- app_assoc.
Qed.

Lemma resend_answers_alike ids s :
  alike (foldl (fun s id => resend_answer now (uint64 id) s) s ids) (add_resend (uint64 <$> ids) s).
Proof.
  revert s. induction ids as [|id ids IH]; intros s; cbn [foldl fmap list_fmap].
  - unfold add_resend, alike, queues, services_of. cbn. by rewrite app_nil_r.
  - rewrite IH, resend_answer_alike. unfold add_resend, alike, queues, services_of. cbn. by rewrite <- app_assoc.
Qed.

Definition forget_service (id : Z) (s : session_connection) : session_connection :=
  { s with service_queries_ := delete id (service_queries_ s) }.

(** What a failed service query comes to. *)
Definition requeued (id : Z) (s : session_connection) : session_connection :=
  match service_queries_ s !! id with
  | None => s
  | Some q =>
      match service_type_ q with
      | ResendAnswer => add_resend (uint64 <$> service_msg_ids_ q) (forget_service id s)
      | GetStateInfo => add_info (uint64 <$> service_msg_ids_ q) (forget_service id s)
      end
  end.

Lemma failed_inner_alike id s : alike (on_message_failed_inner now id s) (requeued id s).
Proof.
  unfold on_message_failed_inner, requeued. destruct (service_queries_ s !! id) as [q|]; [|done]. cbv zeta.
  destruct (service_type_ q); [apply get_infos_alike|apply resend_answers_alike].
Qed.

#[local] Instance requeued_proper id : Proper (alike ==> alike) (requeued id).
Proof.
  intros s s' E. pose proof E as [Q V]. unfold requeued, services_of in *. injection V as V1 V2. rewrite V1.
  assert (Hf : alike (forget_service id s) (forget_service id s')).
  { unfold alike, forget_service, queues, services_of in *. cbn. by rewrite V1, V2. }
  destruct (service_queries_ s' !! id) as [q|]; [|done]. destruct (service_type_ q); [by apply add_info_proper|by apply add_resend_proper].
Qed.

Lemma forget_message_alike id s :
  alike (forget_message now id s)
    (match container_to_service_message_id_ s !! id with
     | Some ids => foldl (fun s id => requeued id s) s ids
     | None => requeued id s
     end).
Proof.
  unfold forget_message. cbv zeta. set (s1 := if _ || _ then _ else _).
  assert (E : alike s1 s) by (unfold s1; by destruct (_ || _)).
  assert (Ec : container_to_service_message_id_ s1 = container_to_service_message_id_ s) by (destruct E as [_ V]; unfold services_of in V; by injection V).
  rewrite Ec. destruct (container_to_service_message_id_ s !! id) as [ids|].
  - clearbody s1. clear Ec. revert s s1 E. induction ids as [|i ids IH]; intros s s1 E; cbn [foldl]; [done|].
    apply IH. by rewrite failed_inner_alike, E.
  - by rewrite failed_inner_alike, E.
Qed.

(** The identifiers of a packet that was just written: those that are given are
    new, and none is given for a list that is empty. *)
Record fresh (x : cut) (ids : sent_ids) (s : session_connection) : Prop := {
  fresh_resend : if resend_message_id ids =? 0 then to_resend_answer x = [] else service_queries_ s !! resend_message_id ids = None;
  fresh_info : if get_info_message_id ids =? 0 then to_get_state_info x = [] else service_queries_ s !! get_info_message_id ids = None;
  fresh_differ : resend_message_id ids <> 0 -> resend_message_id ids <> get_info_message_id ids;
  fresh_container : service_queries_ s !! container_message_id ids = None;
  fresh_containers : forall id, id ∈ [container_message_id ids; resend_message_id ids; get_info_message_id ids] ->
    container_to_service_message_id_ s !! id = None;
}.

(** The message that the server refuses: the container, or the only message. *)
Definition refused (ids : sent_ids) (id : Z) : Prop :=
  if container_message_id ids =? 0
  then id = resend_message_id ids /\ get_info_message_id ids = 0 \/ id = get_info_message_id ids /\ resend_message_id ids = 0
  else id = container_message_id ids.

(** The service queries of the packet are remembered, ... *)
Lemma remembered_queries x ping_id ids s :
  fresh x ids s ->
  service_queries_ (remembered x ping_id ids s) =
    (if get_info_message_id ids =? 0 then Datatypes.id
     else <[get_info_message_id ids := mk_service GetStateInfo (container_message_id ids) (to_get_state_info x)]>)
    ((if resend_message_id ids =? 0 then Datatypes.id
      else <[resend_message_id ids := mk_service ResendAnswer (container_message_id ids) (to_resend_answer x)]>) (service_queries_ s)).
Proof.
  intros [Hr Hi Hd _ _]. unfold remembered, add_service, add_to_container, emplace. cbv zeta.
  destruct (Z.eqb_spec (resend_message_id ids) 0) as [Er|Er], (Z.eqb_spec (get_info_message_id ids) 0) as [Ei|Ei],
    (container_message_id ids =? 0), (ping_id =? 0); cbn; rewrite ?Hr; cbn; rewrite ?lookup_insert_ne by auto; by rewrite ?Hi.
Qed.

(** ... and so are they under the container. *)
Lemma remembered_container x ping_id ids s id :
  fresh x ids s -> refused ids id -> id <> 0 ->
  container_to_service_message_id_ (remembered x ping_id ids s) !! id =
    if (container_message_id ids =? 0) || (resend_message_id ids =? 0) && (get_info_message_id ids =? 0) then None
    else Some ((if resend_message_id ids =? 0 then [] else [resend_message_id ids]) ++
               (if get_info_message_id ids =? 0 then [] else [get_info_message_id ids])).
Proof.
  intros [_ _ _ _ Hc] Href Hid. unfold refused in Href.
  assert (H1 : container_to_service_message_id_ s !! container_message_id ids = None) by (apply Hc; by left).
  assert (H2 : container_to_service_message_id_ s !! id = None).
  { apply Hc. destruct (container_message_id ids =? 0); [destruct Href as [[-> _]|[-> _]]|rewrite Href]; rewrite !elem_of_cons; auto. }
  unfold remembered, add_service, add_to_container. cbv zeta.
  destruct (Z.eqb_spec (container_message_id ids) 0) as [Ec|Ec]; cbn [negb orb].
  - destruct (resend_message_id ids =? 0), (get_info_message_id ids =? 0), (ping_id =? 0); done.
  - rewrite Href in *. destruct (resend_message_id ids =? 0), (get_info_message_id ids =? 0), (ping_id =? 0); cbn;
      rewrite ?lookup_insert_eq, ?H1; done.
Qed.

Lemma add_none s : alike (add_info [] s) s /\ alike (add_resend [] s) s.
Proof. unfold alike, queues, services_of, add_info, add_resend. cbn. by rewrite !app_nil_r. Qed.

Lemma requeued_known id q s :
  service_queries_ s !! id = Some q ->
  requeued id s = (match service_type_ q with
                   | ResendAnswer => add_resend (uint64 <$> service_msg_ids_ q)
                   | GetStateInfo => add_info (uint64 <$> service_msg_ids_ q)
                   end) (forget_service id s).
Proof. unfold requeued. intros ->. by destruct (service_type_ q). Qed.

(** The table of service queries without those of a packet. *)
Definition forgotten (ids : sent_ids) (m : gmap Z ServiceQuery) : gmap Z ServiceQuery :=
  (if get_info_message_id ids =? 0 then Datatypes.id else delete (get_info_message_id ids))
  ((if resend_message_id ids =? 0 then Datatypes.id else delete (resend_message_id ids)) m).

(** A later state in which nothing was noted about the messages of a packet
    since it was written. *)
Definition unanswered (ids : sent_ids) (id : Z) (sent later : session_connection) : Prop :=
  container_to_service_message_id_ later !! id = container_to_service_message_id_ sent !! id /\
  forall i, i ∈ [id; resend_message_id ids; get_info_message_id ids] -> service_queries_ later !! i = service_queries_ sent !! i.

Definition with_requests (x : cut) (ids : sent_ids) (s s' : session_connection) : Prop :=
  to_get_state_info_message_ids_ s' = to_get_state_info_message_ids_ s ++ (uint64 <$> to_get_state_info x) /\
  to_resend_answer_message_ids_ s' = to_resend_answer_message_ids_ s ++ (uint64 <$> to_resend_answer x) /\
  service_queries_ s' = forgotten ids (service_queries_ s) /\
  container_to_service_message_id_ s' = container_to_service_message_id_ s /\
  (to_send_ s', to_ack_message_ids_ s', to_cancel_answer_message_ids_ s') =
    (to_send_ s, to_ack_message_ids_ s, to_cancel_answer_message_ids_ s).

(** The service queries of a packet, out of the table again. *)
Lemma requeue_all x ping_id ids s id later :
  fresh x ids s -> refused ids id -> id <> 0 -> unanswered ids id (remembered x ping_id ids s) later ->
  with_requests x ids later
    (match container_to_service_message_id_ later !! id with
     | Some ids => foldl (fun s id => requeued id s) later ids
     | None => requeued id later
     end).
Proof.
  intros Hf Href Hid [Hlc Hlq]. pose proof (remembered_queries x ping_id ids s Hf) as Hq.
  pose proof (remembered_container x ping_id ids s id Hf Href Hid) as Hc. rewrite Hlc, Hc. clear Hc Hlc.
  set (s1 := remembered x ping_id ids s) in *. clearbody s1. rewrite Hq in Hlq. clear Hq s1.
  pose proof (Hlq id ltac:(by left)) as H0. pose proof (Hlq _ ltac:(by right; left)) as H1.
  pose proof (Hlq _ ltac:(by right; right; left)) as H2. clear Hlq.
  destruct Hf as [Hr Hi Hd Hcon _]. unfold refused in Href. unfold with_requests, forgotten.
  destruct (Z.eqb_spec (resend_message_id ids) 0) as [Er|Er], (Z.eqb_spec (get_info_message_id ids) 0) as [Ei|Ei];
    destruct (Z.eqb_spec (container_message_id ids) 0) as [Ec|Ec]; cbn [andb orb app foldl Datatypes.id] in *;
    try (destruct Href as [[-> E]|[-> E]]; done); try subst id;
    try (destruct Href as [[? E]|[? E]]; [|try done]; subst id);
    try (match goal with |- context [requeued ?i (requeued _ _)] => fail 1 | _ => idtac end;
         unfold requeued; rewrite ?H0, ?H1, ?H2, ?Hcon, ?lookup_insert_eq by auto; unfold add_info, add_resend, forget_service; cbn;
         rewrite ?Hr, ?Hi, ?app_nil_r; done).
  specialize (Hd Er). rewrite lookup_insert_ne, lookup_insert_eq in H1 by done. rewrite lookup_insert_eq in H2.
  rewrite (requeued_known (resend_message_id ids) _ _ H1). rewrite (requeued_known (get_info_message_id ids) _ _)
    by (unfold add_resend, forget_service; cbn; rewrite lookup_delete_ne by done; exact H2).
  done.
Qed.

Lemma forget_unanswered x ping_id ids s id later :
  fresh x ids s -> refused ids id -> id <> 0 -> unanswered ids id (remembered x ping_id ids s) later ->
  with_requests x ids later (forget_message now id later).
Proof.
  intros Hf Href Hid Hun. destruct (forget_message_alike id later) as [Q V].
  pose proof (requeue_all x ping_id ids s id later Hf Href Hid Hun) as Hall.
  set (s2 := match container_to_service_message_id_ later !! id with Some _ => _ | None => _ end) in *.
  unfold queues, services_of, with_requests in *. injection Q as -> -> -> -> ->. injection V as -> ->. exact Hall.
Qed.

Lemma forgotten_remembered x ping_id ids s :
  fresh x ids s -> forgotten ids (service_queries_ (remembered x ping_id ids s)) = service_queries_ s.
Proof.
  intros Hf. rewrite (remembered_queries x ping_id ids s Hf). destruct Hf as [Hr Hi Hd _ _]. unfold forgotten.
  destruct (Z.eqb_spec (resend_message_id ids) 0) as [Er|Er], (Z.eqb_spec (get_info_message_id ids) 0) as [Ei|Ei];
    cbn [Datatypes.id]; rewrite ?delete_insert_id by done; [done..|].
  rewrite (delete_insert_ne _ (resend_message_id ids)), (delete_insert_id (service_queries_ s)) by auto. by rewrite delete_insert_id.
Qed.

(** Identifiers that were cut off are put back into their old place. *)
Lemma cut_put_back (l : list Z) : int64 <$> ((cut_tail l 8192).2 ++ (uint64 <$> (cut_tail l 8192).1)) = int64 <$> l.
Proof.
  assert (Hround : forall l : list Z, int64 <$> (uint64 <$> (int64 <$> l)) = int64 <$> l).
  { intros l'. rewrite <- !list_fmap_compose. apply list_fmap_ext. intros _ z _. cbn. unfold int64, uint64. div_mod_lia. }
  destruct (cut_tail_spec l 8192 ltac:(lia)) as (E & _). rewrite E, fmap_app. f_equal.
  unfold cut_tail. destruct (_ <=? _); cbn [fst]; apply Hround.
Qed.

(** C12: When the server reports the container of a packet, or its only message,
    as bad, every identifier whose state or answer the packet asked for waits
    again, behind those that wait by then, and the requests leave the table of
    service queries; if nothing happened in between, the identifiers are in
    their old places and the table is as it was before the packet was written.
    Nothing else comes back: the cancellations and acknowledgements that the
    packet carried are lost, and the container's list of service messages is
    kept for ever. The identifiers of the packet are new when it is written
    ([fresh]), and nothing was noted about its requests until the report
    ([unanswered]). *)
Theorem refused_packet_requeued (queries : list MtprotoQuery) (ping_id id : Z) (ids : sent_ids) (s later : session_connection) :
  let x := cut_of queries s in
  let sent := remembered x ping_id ids (after_cut queries s) in
  fresh x ids s -> refused ids id -> id <> 0 -> unanswered ids id sent later ->
  let s' := forget_message now id later in
  (to_get_state_info_message_ids_ s' = to_get_state_info_message_ids_ later ++ (uint64 <$> to_get_state_info x) /\
   to_resend_answer_message_ids_ s' = to_resend_answer_message_ids_ later ++ (uint64 <$> to_resend_answer x) /\
   service_queries_ s' = forgotten ids (service_queries_ later) /\
   container_to_service_message_id_ s' = container_to_service_message_id_ later /\
   (to_send_ s', to_ack_message_ids_ s', to_cancel_answer_message_ids_ s') =
     (to_send_ later, to_ack_message_ids_ later, to_cancel_answer_message_ids_ later)) /\
  (later = sent ->
   int64 <$> to_get_state_info_message_ids_ s' = int64 <$> to_get_state_info_message_ids_ s /\
   int64 <$> to_resend_answer_message_ids_ s' = int64 <$> to_resend_answer_message_ids_ s /\
   service_queries_ s' = service_queries_ s /\
   int64 <$> to_ack_message_ids_ s = (int64 <$> to_ack_message_ids_ s') ++ to_ack x /\
   (len queries <= MAX_QUERY_COUNT ->
    int64 <$> to_cancel_answer_message_ids_ s = (int64 <$> to_cancel_answer_message_ids_ s') ++ to_cancel_answer x)).
Proof.
  intros x sent Hf Href Hid Hun s'. assert (Hf' : fresh x ids (after_cut queries s)) by (destruct Hf; by split).
  pose proof (forget_unanswered x ping_id ids (after_cut queries s) id later Hf' Href Hid Hun) as Hw. split; [exact Hw|].
  intros ->. destruct Hw as (E1 & E2 & E3 & _ & E4). destruct (remembered_spec x ping_id ids (after_cut queries s)) as (Qs & _).
  fold sent in Qs. cbv zeta in Qs. unfold queues in Qs. injection Qs as _ Qa Qi Qr Qc. fold s' in E1, E2, E3, E4. injection E4 as _ Ea Ec.
  rewrite E1, E2, E3, Ea, Ec, Qi, Qr, Qa, Qc. split_and!; [apply cut_put_back|apply cut_put_back| | |].
  - exact (forgotten_remembered x ping_id ids _ Hf').
  - apply (cut_tail_spec (to_ack_message_ids_ s) 8192). lia.
  - intros Hq. apply (cut_tail_spec (to_cancel_answer_message_ids_ s)). lia.
Qed.
End requeue.

(** ** Witness *)

Import ExactTime.

(** A packet with a container of two requests is refused. *)
Lemma refused_packet_requeued_witness :
  let ids := mk_sent_ids 40 48 44 0 40 in
  let sent := remembered (cut_of [] sample_session) 0 ids (after_cut [] sample_session) in
  let s' := forget_message 10 40 sent in
  size (service_queries_ sent) = 2%nat /\ to_resend_answer_message_ids_ sent = [] /\
  (int64 <$> to_resend_answer_message_ids_ s') = [24] /\ service_queries_ s' = ∅.
Proof.
  destruct (refused_packet_requeued 10 [] 0 40 (mk_sent_ids 40 48 44 0 40) sample_session
    (remembered (cut_of [] sample_session) 0 (mk_sent_ids 40 48 44 0 40) (after_cut [] sample_session))) as [_ Hsent].
  - split; try reflexivity. discriminate.
  - reflexivity.
  - discriminate.
  - split; reflexivity.
  - destruct (Hsent eq_refl) as (_ & Hr & Hs & _). split; [reflexivity|]. split; [reflexivity|]. split; [exact Hr|exact Hs].
Defined.
