(* ===== verification/SessionRun.v ===== *)
(** The life of a session's connection: from its construction on, whatever is
    called and whatever arrives, it is in order until it is closed. *)
From Stdlib Require Import QArith.
From coqutil Require Import Datatypes.RecordSettersUsingExistingGetters.
From S2P Require Import Prelude Bytes TcpTransport Random Buffer Crypto Kdf Tl Transport MessageIds AuthData TlObject ServiceApi CryptoStorer CryptoStorerSpec RawConnection SessionConnection SessionSender SessionReceive SessionSample SessionWrite SessionLoop SessionSafe.
#[local] Open Scope Z_scope.

(** * More fuel changes nothing *)




Section fuel.
Context `{ServiceApi} `{Gzip} `{SessionCallback} `{Rounding} `{Sha} `{AesIge}.
Context {T G : Type} `{StreamTransport T G} `{RandomSource G}.
Context (now : Q) (depth : nat).



End fuel.

(** * Calls *)


Section run.
Context `{ServiceApi} `{Gzip} `{SessionCallback} `{Rounding} `{Sha} `{AesIge}.
Context {T G : Type} `{StreamTransport T G} `{RandomSource G}.
Context `{!ServiceLaws} `{!ShaLaws} `{!AesIgeLaws} `{!StreamLaws T G} `{!RandomLaws G} `{!RoundingLaws} `{!SessionCallbackLaws}.

#[local] Abbreviation State := (connection T * world G)%type.

(** [depth] is the stack that there is for what is nested in a packet. *)
Context (depth : nat).










End run.

(** ** Witness *)

Import ExactTime SchemeServices Toy.

