(* ===== verification/SessionBind.v ===== *)
(** The query that binds a temporary key, [SessionConnection::encrypted_bind]:
    one message of an object, sealed for the server as in the first version of
    MTProto, with the main key. *)
From Stdlib Require Import QArith.
From coqutil Require Import Datatypes.RecordSettersUsingExistingGetters.
From S2P Require Import Prelude Bytes TcpTransport Random Buffer Crypto Kdf Tl Transport MessageIds AuthData TlObject ServiceApi CryptoStorer CryptoStorerSpec RawConnection SessionConnection SessionSender SessionReceive SessionSample SessionWrite.
#[local] Open Scope Z_scope.

Section bind.
Context `{ServiceApi} `{Gzip} `{SessionCallback} `{Rounding} `{Sha} `{AesIge}.
Context {T G : Type} `{StreamTransport T G} `{RandomSource G}.
Context `{!ServiceLaws} `{!ShaLaws} `{!AesIgeLaws} `{!RandomLaws G}.
Context (now : Q).

(** A sound storer is sealed with fresh padding. *)
Lemma write_ok (s : storer) (k : AuthKey) (salt session version : Z) (g : G) :
  key_ok k -> sound_storer s ->
  let info := mk_info Common 0 salt session 0 0 version false false true false in
  exists padding info' g', Transport.write s k info 0 0 g =
    Ok (create_writer (seal version k 0 (le_store 8 salt ++ le_store 8 session ++ stored s) padding) 0 0, info', g').
Proof.
  intros Hk Hs info. unfold Transport.write. cbn [type_ no_crypto_flag info].
  rewrite (proj2 (Z.eqb_neq (len (key k)) 0)) by (destruct Hk as [-> _]; done). cbn [negb check]. rewrite Ok_bind.
  unfold write_crypto.
  destruct (write_sealed CryptoHeader 0 k Hk ltac:(lia) s (le_store 8 salt ++ le_store 8 session) info g Hs) as (padding & g' & Hw & _).
  destruct (padded_size CryptoHeader (storer_size s) info g) as [p g0]. cbn [fst snd] in Hw.
  change (Transport.salt info) with salt. change (Transport.session_id info) with session. rewrite Hw, Ok_bind, <- app_assoc.
  change (Transport.version info) with version. by eexists padding, _, g'.
Qed.

Lemma bind_object a b c d e :
  exists o, TLObjectStorer bind_auth_key_inner_ID (store_bind_auth_key_inner a b c d e) = Ok o /\ sound_storer o.
Proof.
  assert (Hv : Forall plain_value (TlInt bind_auth_key_inner_ID :: store_bind_auth_key_inner a b c d e))
    by (constructor; [done|apply bind_stored]).
  apply (stores_sound (tl_calc_length (TlInt bind_auth_key_inner_ID :: store_bind_auth_key_inner a b c d e))).
  by apply short_stores.
Qed.

(** A query without a header is a message of its data. *)
Lemma bind_query id data :
  exists calls q, QueryImpl_do_store [] (mk_query id 0 data false [] false) = Ok calls /\ PacketStorer calls = Ok q /\
    sound_storer q /\ stored q = message_bytes (mk_message id 0 data).
Proof.
  destruct (query_body_ok [] (mk_query id 0 data false [] false)) as (b & Hb & Hs & Hst); [by split|].
  unfold QueryImpl_do_store. rewrite Hb, Ok_bind. eexists. cbn [query_message_id query_seq_no].
  destruct (message_packet id 0 (uint32 (storer_size b)) b Hs (le_store_uint32 _)) as (q & Hq & Hsq & Hstq).
  exists q. split; [reflexivity|]. split; [exact Hq|]. split; [done|]. rewrite Hstq, Hst. done.
Qed.

(** C26: The query that binds the temporary key goes out sealed with the main
    key in the first version of the format, under a random salt and session that
    are drawn for it alone; inside is one message with a fresh identifier, which
    is returned as well, and its body is the object with the nonce, the
    identifiers of both keys and the session's own identifier. Nothing else
    changes. *)
Theorem encrypted_bind_sealed (perm_key nonce expires_at : Z) (c : connection T) (w : world G) :
  session_id_ (auth_data_ w) <> 0 -> key_ok (auth_key (main_auth_key_ (auth_data_ w))) ->
  exists o id a g0 salt session padding g,
    let temp_key := int64 (Transport.id (auth_key (tmp_auth_key_ (auth_data_ w)))) in
    let body := seal 1 (auth_key (main_auth_key_ (auth_data_ w))) 0
      (le_store 8 salt ++ le_store 8 session ++ message_bytes (mk_message id 0 (stored o))) padding in
    TLObjectStorer bind_auth_key_inner_ID
      (store_bind_auth_key_inner nonce temp_key perm_key (int64 (session_id_ (auth_data_ w))) expires_at) = Ok o /\
    next_message_id now (auth_data_ w) (gen w) = (id, a, g0) /\
    salt = le_load (secure_bytes 8 g0).1 /\ session = le_load (secure_bytes 8 (secure_bytes 8 g0).2).1 /\
    encrypted_bind now perm_key nonce expires_at (c, w) = (Ok (id, body), (c, mk_world (self w) a (events w) g)).
Proof.
  intros Hs Hk. set (temp_key := int64 (Transport.id (auth_key (tmp_auth_key_ (auth_data_ w))))).
  destruct (bind_object nonce temp_key perm_key (int64 (session_id_ (auth_data_ w))) expires_at) as (o & Ho & Hso).
  pose proof (next_message_id_drawn now (auth_data_ w) (gen w)) as Hd.
  destruct (next_message_id now (auth_data_ w) (gen w)) as [[id a] g0] eqn:En. cbn [fst snd] in Hd.
  destruct (bind_query id (stored o)) as (calls & q & Hcalls & Hq & Hsq & Hst).
  set (salt := le_load (secure_bytes 8 g0).1). set (session := le_load (secure_bytes 8 (secure_bytes 8 g0).2).1).
  destruct (write_ok q (auth_key (main_auth_key_ (auth_data_ w))) salt session 1 (secure_bytes 8 (secure_bytes 8 g0).2).2 Hk Hsq)
    as (padding & info & g & Hw).
  exists o, id, a, g0, salt, session, padding, g. split; [done|]. split; [done|]. split; [done|]. split; [done|].
  unfold encrypted_bind.
  assert (E1 : on_world (fun w => (get_session_id (auth_data_ w), w)) (c, w) = (Ok (session_id_ (auth_data_ w)), (c, w))).
  { unfold on_world, get_session_id. cbn [fst snd]. by rewrite (proj2 (Z.eqb_neq _ 0) Hs). }
  rewrite (bind_step _ _ _ _ _ E1). erewrite bind_step by reflexivity. cbv beta iota. cbn [fst snd].
  fold temp_key. rewrite Ho, lift_Ok_bind, Hso, Z.eqb_refl. cbn [check]. rewrite lift_Ok_bind.
  assert (E2 : next_id now (c, set_auth (auth_data_ w) w) = (Ok id, (c, mk_world (self w) a (events w) g0))).
  { unfold next_id, on_world. cbn [fst snd auth_data_ gen self events set_auth]. by rewrite En. }
  rewrite (bind_step _ _ _ _ _ E2), Hcalls, lift_Ok_bind, Hq, lift_Ok_bind. unfold on_both. cbn [fst snd gen auth_data_].
  unfold salt, session in Hw. destruct (secure_bytes 8 g0) as [x1 g1]. cbn [fst snd] in *. destruct (secure_bytes 8 g1) as [x2 g2]. cbn [fst snd] in *.
  assert (Hmain : main_auth_key_ a = main_auth_key_ (auth_data_ w)) by (by rewrite Hd).
  rewrite Hmain, Hw, Ok_bind, Hst. reflexivity.
Qed.
End bind.

(** ** Witness *)

Import ExactTime SchemeServices Toy.

Lemma encrypted_bind_sealed_witness :
  exists id packet st', encrypted_bind 10 5 6 100 (sample_connection ∅, sample_world) = (Ok (id, packet), st') /\
    id = (next_message_id 10 sample_data sample_draws).1.1 /\ take 8 packet = le_store 8 77.
Proof.
  destruct (encrypted_bind_sealed (T := transport Z) 10 5 6 100 (sample_connection ∅) sample_world ltac:(discriminate) sample_key_ok)
    as (o & id & a & g0 & salt & session & padding & g & _ & En & _ & _ & E).
  eexists id, _, _. split; [exact E|]. split; [|reflexivity].
  apply (f_equal (fun x => x.1.1)) in En. symmetry. exact En.
Defined.
