(* ===== verification/MessageId.v ===== *)
(** Identifiers of messages: [telegram/MessageId.{h,cpp}].

    An identifier is an [int64].  An ordinary one is the identifier that the
    server gave in the upper bits, a counter of messages that the server does
    not know, and a type; a scheduled one is a date, a server identifier and a
    type, with bit 2 set.  Comparing an ordinary with a scheduled one fails a
    [CHECK]. *)
From S2P Require Import Prelude Bytes FlatHashTable.
#[local] Open Scope Z_scope.

Inductive MessageType := TypeNone | Server | YetUnsent | Local.

#[export] Instance MessageType_eq_dec : EqDecision MessageType.
Proof. solve_decision. Defined.

Definition SERVER_ID_SHIFT : Z := 20.
Definition SHORT_TYPE_MASK : Z := Z.shiftl 1 2 - 1.
Definition TYPE_MASK : Z := Z.shiftl 1 3 - 1.
Definition FULL_TYPE_MASK : Z := Z.shiftl 1 SERVER_ID_SHIFT - 1.
Definition SCHEDULED_MASK : Z := 4.
Definition TYPE_YET_UNSENT : Z := 1.
Definition TYPE_LOCAL : Z := 2.

Definition min_id : Z := TYPE_YET_UNSENT.
Definition max_id : Z := Z.shiftl (2 ^ 31 - 1) SERVER_ID_SHIFT.

Definition of_server (server_message_id : Z) : Z := Z.shiftl server_message_id SERVER_ID_SHIFT.

(** [ScheduledServerMessageId::is_valid]. *)
Definition scheduled_server_is_valid (id : Z) : bool := (0 <? id) && (id <? Z.shiftl 1 18).

(** [MessageId(ScheduledServerMessageId, send_date)]; [0] when the date is past
    or the server identifier is not valid, which is logged. *)
Definition of_scheduled (server_message_id send_date : Z) (force : bool) : Z :=
  if send_date <=? Z.shiftl 1 30 then 0
  else if negb (scheduled_server_is_valid server_message_id) && negb force then 0
  else Z.lor (Z.lor (Z.shiftl (int32 (send_date - Z.shiftl 1 30)) 21) (Z.shiftl server_message_id 3)) SCHEDULED_MASK.

Definition is_scheduled (id : Z) : bool := negb (Z.land id SCHEDULED_MASK =? 0).

Definition is_valid (id : Z) : bool :=
  if (id <=? 0) || (max_id <? id) then false
  else if Z.land id FULL_TYPE_MASK =? 0 then true
  else (Z.land id TYPE_MASK =? TYPE_YET_UNSENT) || (Z.land id TYPE_MASK =? TYPE_LOCAL).

Definition is_valid_scheduled (id : Z) : bool :=
  if (id <=? 0) || (Z.shiftl 1 51 <? id) then false
  else
    let type := Z.land id TYPE_MASK in
    (type =? SCHEDULED_MASK) || (type =? Z.lor SCHEDULED_MASK TYPE_YET_UNSENT) || (type =? Z.lor SCHEDULED_MASK TYPE_LOCAL).

Definition is_valid_sponsored (id : Z) : bool :=
  if (id <=? max_id) || (Z.shiftl 1 51 <? id) then false else Z.land id TYPE_MASK =? TYPE_LOCAL.

Definition get_type (id : Z) : MessageType :=
  if (id <=? 0) || (Z.shiftl 1 51 <? id) then TypeNone
  else
    let type := Z.land id TYPE_MASK in
    if is_scheduled id then
      if type =? Z.lor SCHEDULED_MASK TYPE_YET_UNSENT then YetUnsent
      else if type =? Z.lor SCHEDULED_MASK TYPE_LOCAL then Local
      else if type =? SCHEDULED_MASK then Server
      else TypeNone
    else if Z.land id FULL_TYPE_MASK =? 0 then Server
    else if type =? TYPE_YET_UNSENT then YetUnsent
    else if type =? TYPE_LOCAL then Local
    else TypeNone.

Definition is_yet_unsent (id : Z) : outcome bool :=
  _ ← check (is_valid id || is_scheduled id); Ok (Z.land id SHORT_TYPE_MASK =? TYPE_YET_UNSENT).

Definition is_local (id : Z) : outcome bool :=
  _ ← check (is_valid id || is_scheduled id); Ok (Z.land id SHORT_TYPE_MASK =? TYPE_LOCAL).

Definition is_server (id : Z) : bool := (Z.land id FULL_TYPE_MASK =? 0) && (0 <? id) && (id <=? max_id).

Definition is_scheduled_server (id : Z) : outcome bool :=
  _ ← check (is_valid_scheduled id); Ok (Z.land id SHORT_TYPE_MASK =? 0).

Definition is_any_server (id : Z) : outcome bool := if is_scheduled id then is_scheduled_server id else Ok (is_server id).

Definition get_server_message_id_force (id : Z) : outcome Z :=
  _ ← check (negb (is_scheduled id));
  let n := Z.shiftr id SERVER_ID_SHIFT in
  _ ← check (int32 n =? n); Ok n.

Definition get_server_message_id (id : Z) : outcome Z :=
  _ ← check ((id =? 0) || is_server id); get_server_message_id_force id.

Definition get_scheduled_server_message_id (id : Z) : outcome Z :=
  server ← is_scheduled_server id;
  _ ← check server;
  _ ← check (is_scheduled id);
  Ok (Z.land (Z.shiftr id 3) (Z.shiftl 1 18 - 1)).

Definition get_scheduled_message_date (id : Z) : outcome Z :=
  _ ← check (is_valid_scheduled id); Ok (int32 (int32 (Z.shiftr id 21) + Z.shiftl 1 30)).

Definition get_prev_server_message_id (id : Z) : outcome Z :=
  _ ← check (negb (is_scheduled id)); Ok (Z.land id (Z.lnot FULL_TYPE_MASK)).

Definition get_next_server_message_id (id : Z) : outcome Z :=
  _ ← check (negb (is_scheduled id)); Ok (Z.land (id + FULL_TYPE_MASK) (Z.lnot FULL_TYPE_MASK)).

Definition type_number (type : MessageType) : Z :=
  match type with TypeNone => 0 | Server => 1 | YetUnsent => 2 | Local => 3 end.

Definition get_next_message_id (type : MessageType) (id : Z) : outcome Z :=
  if is_scheduled id then
    _ ← check (is_valid_scheduled id);
    let current_type := get_type id in
    if type_number current_type <? type_number type then Ok (id - type_number current_type + type_number type)
    else
      let base_id := Z.land id (Z.lnot TYPE_MASK) + TYPE_MASK + 1 + SCHEDULED_MASK in
      match type with
      | Server => Ok base_id
      | YetUnsent => Ok (base_id + TYPE_YET_UNSENT)
      | Local => Ok (base_id + TYPE_LOCAL)
      | TypeNone => Crash
      end
  else
    match type with
    | Server =>
        if is_server id then n ← get_server_message_id id; Ok (of_server (int32 (n + 1)))
        else get_next_server_message_id id
    | YetUnsent => Ok (Z.land (id + TYPE_MASK + 1 - TYPE_YET_UNSENT) (Z.lnot TYPE_MASK) + TYPE_YET_UNSENT)
    | Local => Ok (Z.land (id + TYPE_MASK + 1 - TYPE_LOCAL) (Z.lnot TYPE_MASK) + TYPE_LOCAL)
    | TypeNone => Crash
    end.

(** The comparisons of class [MessageId]. *)
Definition same_kind (a b : Z) : outcome unit := check (Bool.eqb (is_scheduled a) (is_scheduled b)).
Definition id_lt (a b : Z) : outcome bool := _ ← same_kind a b; Ok (a <? b).
Definition id_le (a b : Z) : outcome bool := _ ← same_kind a b; Ok (a <=? b).

(** [MessageIdHash]. *)
Definition message_id_hash (id : Z) : Z := hash_uint64 id.

(** What the code reads of a [telegram_api::Message]: its constructor and two
    fields. *)
Inductive api_message :=
| messageEmpty (id_ : Z)
| message (id_ date_ : Z)
| messageService (id_ date_ : Z).

Definition get_message_id (m : api_message) (scheduled : bool) : Z :=
  match m with
  | messageEmpty id_ => if scheduled then 0 else of_server id_
  | message id_ date_ | messageService id_ date_ => if scheduled then of_scheduled id_ date_ false else of_server id_
  end.

Fixpoint max_message_id (max_message_id_ : Z) (messages : list api_message) : outcome Z :=
  match messages with
  | [] => Ok max_message_id_
  | m :: rest =>
      let message_id := get_message_id m false in
      less ← id_lt max_message_id_ message_id;
      max_message_id (if less : bool then message_id else max_message_id_) rest
  end.
Definition get_max_message_id (messages : list api_message) : outcome Z := max_message_id 0 messages.

Fixpoint order_ascending (cur_message_id : Z) (messages : list api_message) : outcome bool :=
  match messages with
  | [] => Ok true
  | m :: rest =>
      let message_id := get_message_id m false in
      not_greater ← id_le message_id cur_message_id;
      if not_greater || negb (is_valid message_id) then Ok false else order_ascending message_id rest
  end.
Definition is_message_id_order_ascending (messages : list api_message) : outcome bool := order_ascending 0 messages.

Fixpoint order_descending (cur_message_id : Z) (messages : list api_message) : outcome bool :=
  match messages with
  | [] => Ok true
  | m :: rest =>
      let message_id := get_message_id m false in
      not_less ← id_le cur_message_id message_id;
      if not_less || negb (is_valid message_id) then Ok false else order_descending message_id rest
  end.
Definition is_message_id_order_descending (messages : list api_message) : outcome bool := order_descending max_id messages.

(** * The layout *)

Lemma land_type id : Z.land id TYPE_MASK = id mod 8.
Proof. change TYPE_MASK with (Z.ones 3). by rewrite Z.land_ones. Qed.

Lemma land_full id : Z.land id FULL_TYPE_MASK = id mod 2 ^ 20.
Proof. change FULL_TYPE_MASK with (Z.ones 20). by rewrite Z.land_ones. Qed.

Lemma land_short id : Z.land id SHORT_TYPE_MASK = id mod 4.
Proof. change SHORT_TYPE_MASK with (Z.ones 2). by rewrite Z.land_ones. Qed.

Lemma clear_low id k : 0 <= k -> Z.land id (Z.lnot (Z.ones k)) = 2 ^ k * (id / 2 ^ k).
Proof.
  intros Hk. rewrite <- Z.ldiff_land, Z.ldiff_ones_r, Z.shiftl_mul_pow2, Z.shiftr_div_pow2 by done. lia.
Qed.

Lemma scheduled_bit id : is_scheduled id = (4 <=? id mod 8).
Proof.
  unfold is_scheduled. change SCHEDULED_MASK with (2 ^ 2).
  assert (E : Z.land id (2 ^ 2) = if Z.testbit id 2 then 4 else 0).
  { apply Z.bits_inj'. intros n Hn. rewrite Z.land_spec, Z.pow2_bits_eqb by lia.
    destruct (Z.eqb_spec 2 n) as [<-|Hne]; [destruct (Z.testbit id 2); reflexivity|]. rewrite andb_false_r.
    destruct (Z.testbit id 2); [|by rewrite Z.bits_0]. change 4 with (2 ^ 2). by rewrite Z.pow2_bits_false by lia. }
  rewrite E. pose proof (Z.testbit_spec' id 2 ltac:(lia)) as Hb. change (2 ^ 2) with 4 in Hb.
  destruct (Z.testbit id 2); cbn [Z.b2z negb Z.eqb] in *; symmetry; [apply Z.leb_le|apply Z.leb_gt]; div_mod_lia.
Qed.

Lemma kind_bit id : is_scheduled id = true <-> 4 <= id mod 8.
Proof. rewrite scheduled_bit. apply Z.leb_le. Qed.

Lemma max_id_eq : max_id = (2 ^ 31 - 1) * 2 ^ 20.
Proof. reflexivity. Qed.

(** The types in arithmetic. *)
Lemma type_cases id :
  0 < id <= 2 ^ 51 ->
  (get_type id = Server <-> id mod 2 ^ 20 = 0 \/ id mod 8 = 4) /\
  (get_type id = YetUnsent <-> id mod 8 = 1 \/ id mod 8 = 5) /\
  (get_type id = Local <-> id mod 8 = 2 \/ id mod 8 = 6).
Proof.
  intros Hid. unfold get_type. rewrite (proj2 (Z.leb_gt _ _)), (proj2 (Z.ltb_ge _ _)) by (change (Z.shiftl 1 51) with (2 ^ 51); lia).
  cbn [orb]. rewrite scheduled_bit, land_type, land_full. change (Z.lor SCHEDULED_MASK TYPE_YET_UNSENT) with 5.
  change (Z.lor SCHEDULED_MASK TYPE_LOCAL) with 6. change SCHEDULED_MASK with 4. change TYPE_YET_UNSENT with 1. change TYPE_LOCAL with 2.
  assert (Hm : id mod 2 ^ 20 = 0 -> id mod 8 = 0).
  { intros E. change (2 ^ 20) with (8 * 2 ^ 17) in E. div_mod_lia. }
  pose proof (Z.mod_pos_bound id 8 ltac:(lia)). destruct (Z.leb_spec 4 (id mod 8)), (Z.eqb_spec (id mod 2 ^ 20) 0);
    destruct (Z.eqb_spec (id mod 8) 5), (Z.eqb_spec (id mod 8) 6), (Z.eqb_spec (id mod 8) 4), (Z.eqb_spec (id mod 8) 1),
      (Z.eqb_spec (id mod 8) 2); split_and!;
    (split; [intros ?; try discriminate; lia|intros ?; try done; exfalso; lia]).
Qed.

Lemma valid_layout id :
  is_valid id = true -> 0 < id <= max_id /\ is_scheduled id = false /\
  (id mod 2 ^ 20 = 0 /\ id mod 8 = 0 \/ id mod 8 = 1 \/ id mod 8 = 2).
Proof.
  unfold is_valid. rewrite land_type, land_full, scheduled_bit.
  destruct (Z.leb_spec id 0), (Z.ltb_spec max_id id); cbn [orb]; [done..|]. intros Hv. split; [lia|].
  assert (Hc : id mod 2 ^ 20 = 0 /\ id mod 8 = 0 \/ id mod 8 = 1 \/ id mod 8 = 2).
  { destruct (Z.eqb_spec (id mod 2 ^ 20) 0) as [E|E].
    - left. split; [done|]. change (2 ^ 20) with (8 * 2 ^ 17) in E. div_mod_lia.
    - change TYPE_YET_UNSENT with 1 in Hv. change TYPE_LOCAL with 2 in Hv.
      destruct (Z.eqb_spec (id mod 8) 1), (Z.eqb_spec (id mod 8) 2); [lia..|done]. }
  split; [apply Z.leb_gt; lia|done].
Qed.

Lemma valid_scheduled_layout id :
  is_valid_scheduled id = true -> 0 < id <= 2 ^ 51 /\ is_scheduled id = true /\ 4 <= id mod 8 <= 6.
Proof.
  unfold is_valid_scheduled. rewrite land_type, scheduled_bit. change (Z.shiftl 1 51) with (2 ^ 51).
  change (Z.lor SCHEDULED_MASK TYPE_YET_UNSENT) with 5. change (Z.lor SCHEDULED_MASK TYPE_LOCAL) with 6. change SCHEDULED_MASK with 4.
  destruct (Z.leb_spec id 0), (Z.ltb_spec (2 ^ 51) id); cbn [orb]; [done..|]. intros Hv. split; [lia|].
  assert (Hc : 4 <= id mod 8 <= 6).
  { destruct (Z.eqb_spec (id mod 8) 4), (Z.eqb_spec (id mod 8) 5), (Z.eqb_spec (id mod 8) 6); [lia..|done]. }
  split; [apply Z.leb_le; lia|done].
Qed.

(** The residue of a type among the identifiers of a kind. *)
Definition residue (scheduled : bool) (type : MessageType) : Z :=
  (if scheduled then 4 else 0) + match type with Server => 0 | YetUnsent => 1 | Local => 2 | TypeNone => 3 end.

Definition spacing (scheduled : bool) (type : MessageType) : Z :=
  match type with Server => if scheduled then 8 else 2 ^ 20 | _ => 8 end.

Lemma type_residue type id :
  type <> TypeNone -> 0 < id <= 2 ^ 51 ->
  get_type id = type <-> id mod spacing (is_scheduled id) type = residue (is_scheduled id) type.
Proof.
  intros Ht Hid. destruct (type_cases id Hid) as (Hs & Hy & Hl). rewrite scheduled_bit. unfold spacing, residue.
  pose proof (Z.mod_pos_bound id 8 ltac:(lia)). pose proof (Z.mod_pos_bound id (2 ^ 20) ltac:(lia)).
  assert (Hm : id mod 2 ^ 20 = 0 -> id mod 8 = 0).
  { intros E. change (2 ^ 20) with (8 * 2 ^ 17) in E. div_mod_lia. }
  destruct type; [done|rewrite Hs|rewrite Hy|rewrite Hl]; destruct (Z.leb_spec 4 (id mod 8)); cbv iota; lia.
Qed.

(** The least greater number of a residue class. *)
Lemma least_in_class type id next :
  type <> TypeNone -> 0 < id -> next <= 2 ^ 51 -> is_scheduled next = is_scheduled id ->
  let m := spacing (is_scheduled id) type in
  next mod m = residue (is_scheduled id) type -> id < next <= id + m ->
  is_scheduled next = is_scheduled id /\ get_type next = type /\
  forall x, id < x < next -> is_scheduled x = is_scheduled id -> get_type x <> type.
Proof.
  intros Ht Hid Hmax Hk m Hr Hn. split; [done|]. split; [by apply type_residue; [|lia|rewrite Hk]|].
  intros x Hx Hkx Hty. apply type_residue in Hty; [|done|lia]. rewrite Hkx in Hty. fold m in Hty.
  assert (Hpos : 0 < m) by (unfold m, spacing; destruct type, (is_scheduled id); lia).
  rewrite <- Hr in Hty. clear - Hty Hx Hn Hpos. pose proof (Z.div_mod x m ltac:(lia)). pose proof (Z.div_mod next m ltac:(lia)).
  set (qx := x / m) in *. set (qn := next / m) in *. assert (E : next - x = m * (qn - qx)) by lia.
  destruct (Z.le_gt_cases (qn - qx) 0); nia.
Qed.

Lemma next_scheduled type id :
  type <> TypeNone -> is_valid_scheduled id = true -> id + 8 <= 2 ^ 51 ->
  exists next, get_next_message_id type id = Ok next /\ is_scheduled next = true /\
    next mod 8 = residue true type /\ id < next <= id + 8.
Proof.
  intros Ht Hv Hb. destruct (valid_scheduled_layout id Hv) as (Hr & Hk & Hm). unfold get_next_message_id. rewrite Hk, Hv. cbn [check].
  rewrite Ok_bind. cbv zeta. change TYPE_MASK with (Z.ones 3). rewrite clear_low by lia. change (2 ^ 3) with 8. change (Z.ones 3) with 7.
  change SCHEDULED_MASK with 4. change TYPE_YET_UNSENT with 1. change TYPE_LOCAL with 2.
  destruct (type_cases id Hr) as (Hs & Hy & Hl).
  assert (Hcur : type_number (get_type id) = id mod 8 - 3).
  { destruct (decide (id mod 8 = 4)) as [E|E]; [rewrite (proj2 Hs) by auto; cbn; lia|].
    destruct (decide (id mod 8 = 5)) as [E'|E']; [rewrite (proj2 Hy) by auto; cbn; lia|].
    rewrite (proj2 Hl) by lia. cbn. lia. }
  rewrite Hcur. unfold residue.
  destruct (Z.ltb_spec (id mod 8 - 3) (type_number type)); destruct type; try done; cbn [type_number] in *;
    (eexists; split; [reflexivity|]); rewrite kind_bit; split_and!; div_mod_lia.
Qed.

Lemma is_server_layout id : is_server id = true <-> 0 < id <= max_id /\ id mod 2 ^ 20 = 0.
Proof.
  unfold is_server. rewrite land_full. rewrite !andb_true_iff, Z.eqb_eq, Z.ltb_lt, Z.leb_le. tauto.
Qed.

Lemma server_number id :
  is_server id = true -> get_server_message_id id = Ok (id / 2 ^ 20).
Proof.
  intros Hs. unfold get_server_message_id, get_server_message_id_force. rewrite Hs, orb_true_r. cbn [check]. rewrite Ok_bind.
  apply is_server_layout in Hs as [Hr Hm]. change SERVER_ID_SHIFT with 20. rewrite Z.shiftr_div_pow2 by lia.
  assert (E : is_scheduled id = false).
  { rewrite scheduled_bit. apply Z.leb_gt. change (2 ^ 20) with (8 * 2 ^ 17) in Hm. div_mod_lia. }
  rewrite E. cbn [negb check]. rewrite Ok_bind. cbv zeta. rewrite int32_small, Z.eqb_refl; [done|].
  rewrite max_id_eq in Hr. div_mod_lia.
Qed.

Lemma next_ordinary type id :
  type <> TypeNone -> is_valid id = true -> (type = Server -> id < max_id) ->
  exists next, get_next_message_id type id = Ok next /\ is_scheduled next = false /\
    next mod spacing false type = residue false type /\ id < next <= id + spacing false type /\ next <= 2 ^ 51.
Proof.
  intros Ht Hv Hmax. destruct (valid_layout id Hv) as (Hr & Hk & Hl). unfold get_next_message_id. rewrite Hk.
  assert (Hbit : forall next, next mod 8 < 4 -> is_scheduled next = false) by (intros next ?; rewrite scheduled_bit; by apply Z.leb_gt).
  assert (Hserver : forall n, is_scheduled (2 ^ 20 * n) = false /\ (2 ^ 20 * n) mod 2 ^ 20 = 0).
  { intros n. split; [apply Hbit; replace (2 ^ 20 * n) with (n * 2 ^ 17 * 8) by lia; by rewrite Z_mod_mult|].
    rewrite Z.mul_comm. apply Z_mod_mult. }
  rewrite max_id_eq in *. destruct type; [done|specialize (Hmax eq_refl)|..]; cbn [spacing residue].
  - destruct (is_server id) eqn:Es.
    + rewrite server_number by done. rewrite Ok_bind. apply is_server_layout in Es as [_ Em].
      unfold of_server. change SERVER_ID_SHIFT with 20. rewrite Z.shiftl_mul_pow2 by lia.
      rewrite int32_small by div_mod_lia. eexists. split; [reflexivity|]. rewrite Z.mul_comm.
      destruct (Hserver (id / 2 ^ 20 + 1)) as [-> ->]. split_and!; [done..|div_mod_lia|div_mod_lia|div_mod_lia].
    + unfold get_next_server_message_id. rewrite Hk. cbn [negb check]. rewrite Ok_bind. change FULL_TYPE_MASK with (Z.ones 20).
      rewrite clear_low by lia. eexists. split; [reflexivity|]. change (Z.ones 20) with (2 ^ 20 - 1).
      assert (Em : id mod 2 ^ 20 <> 0).
      { intros E. rewrite (proj2 (is_server_layout id)) in Es; [done|]. by rewrite max_id_eq. }
      destruct (Hserver ((id + (2 ^ 20 - 1)) / 2 ^ 20)) as [-> ->]. split_and!; [done..|clear Hl|clear Hl|clear Hl Em]; div_mod_lia.
  - change TYPE_MASK with (Z.ones 3). rewrite clear_low by lia. eexists. split; [reflexivity|].
    change (Z.ones 3) with 7. change TYPE_YET_UNSENT with 1. change (residue false YetUnsent) with 1. clear Hserver Hk Hv Hmax.
    set (q := (id + 7 + 1 - 1) / 2 ^ 3). assert (Hq : 8 * q <= id + 8 - 1 < 8 * q + 8) by (subst q; clear Hl Hr; div_mod_lia). clearbody q.
    split_and!; [apply Hbit|..]; clear Hbit Ht; div_mod_lia.
  - change TYPE_MASK with (Z.ones 3). rewrite clear_low by lia. eexists. split; [reflexivity|].
    change (Z.ones 3) with 7. change TYPE_LOCAL with 2. change (residue false Local) with 2. clear Hserver Hk Hv Hmax.
    set (q := (id + 7 + 1 - 2) / 2 ^ 3). assert (Hq : 8 * q <= id + 8 - 2 < 8 * q + 8) by (subst q; clear Hl Hr; div_mod_lia). clearbody q.
    split_and!; [apply Hbit|..]; clear Hbit Ht; div_mod_lia.
Qed.

(** C38: The identifiers of a type are spaced evenly, and [get_next_message_id]
    finds the nearest: for every valid identifier, ordinary or scheduled, it is
    the least greater identifier of its kind that has the type. *)
Theorem next_message_id_least (type : MessageType) (id : Z) :
  type <> TypeNone ->
  (is_valid id = true /\ (type = Server -> id < max_id) \/ is_valid_scheduled id = true /\ id + 8 <= 2 ^ 51) ->
  exists next, get_next_message_id type id = Ok next /\ id < next /\ is_scheduled next = is_scheduled id /\
    get_type next = type /\
    forall x, id < x < next -> is_scheduled x = is_scheduled id -> get_type x <> type.
Proof.
  intros Ht [[Hv Hs]|[Hv Hb]].
  - destruct (next_ordinary type id Ht Hv Hs) as (next & E & Hk & Hr & Hn & Hmax). destruct (valid_layout id Hv) as (Hid & Hki & _).
    exists next. split; [done|]. split; [lia|]. apply least_in_class; rewrite ?Hki; done || lia.
  - destruct (next_scheduled type id Ht Hv Hb) as (next & E & Hk & Hr & Hn). destruct (valid_scheduled_layout id Hv) as (Hid & Hki & _).
    exists next. split; [done|]. split; [lia|].
    assert (Hsp : spacing true type = 8) by (by destruct type).
    apply least_in_class; rewrite ?Hki, ?Hsp; done || lia.
Qed.

Lemma next_message_id_least_witness :
  (is_valid (5 * 2 ^ 20 + 9) = true /\ (Server = Server -> 5 * 2 ^ 20 + 9 < max_id) \/ False) /\
  exists next, get_next_message_id Server (5 * 2 ^ 20 + 9) = Ok next /\ 5 * 2 ^ 20 + 9 < next /\
    is_scheduled next = is_scheduled (5 * 2 ^ 20 + 9) /\ get_type next = Server /\
    forall x, 5 * 2 ^ 20 + 9 < x < next -> is_scheduled x = is_scheduled (5 * 2 ^ 20 + 9) -> get_type x <> Server.
Proof.
  split; [left; split; [reflexivity|reflexivity]|].
  apply next_message_id_least; [discriminate|left; split; [reflexivity|reflexivity]].
Defined.

(** * Scheduled messages *)

Lemma scheduled_sum server_message_id send_date :
  0 <= server_message_id < 2 ^ 18 -> 2 ^ 30 < send_date < 2 ^ 31 ->
  of_scheduled server_message_id send_date true = (send_date - 2 ^ 30) * 2 ^ 21 + server_message_id * 8 + 4.
Proof.
  intros Hs Hd. unfold of_scheduled. rewrite (proj2 (Z.leb_gt _ _)) by (change (Z.shiftl 1 30) with (2 ^ 30); lia).
  rewrite andb_false_r. rewrite !Z.shiftl_mul_pow2 by lia. change SCHEDULED_MASK with 4. rewrite Z.mul_1_l, int32_small by lia.
  rewrite (Z_lor_add 21 _ (server_message_id * 2 ^ 3)) by (lia || apply Z_mod_mult). rewrite (Z_lor_add 3); [lia|lia| |lia].
  replace ((send_date - 2 ^ 30) * 2 ^ 21 + server_message_id * 2 ^ 3) with (((send_date - 2 ^ 30) * 2 ^ 18 + server_message_id) * 2 ^ 3) by lia.
  apply Z_mod_mult.
Qed.

(** C39: The identifier of a scheduled message packs its date and its number at
    the server: a message of the server has a valid scheduled identifier of type
    [Server], from which both are read back, and identifiers are ordered by date
    and then by number. *)
Theorem scheduled_id_roundtrip (server_message_id send_date : Z) :
  scheduled_server_is_valid server_message_id = true -> 2 ^ 30 < send_date < 2 ^ 31 ->
  let id := get_message_id (message server_message_id send_date) true in
  is_valid_scheduled id = true /\ get_type id = Server /\
  get_scheduled_server_message_id id = Ok server_message_id /\ get_scheduled_message_date id = Ok send_date /\
  forall server' date', scheduled_server_is_valid server' = true -> 2 ^ 30 < date' < 2 ^ 31 ->
    id_lt id (get_message_id (message server' date') true) =
      Ok ((send_date <? date') || (send_date =? date') && (server_message_id <? server')).
Proof.
  intros Hs Hd. unfold get_message_id. assert (Hr : forall n, scheduled_server_is_valid n = true -> 0 < n < 2 ^ 18).
  { intros n Hn. unfold scheduled_server_is_valid in Hn. to_prop. change (Z.shiftl 1 18) with (2 ^ 18) in *. lia. }
  assert (E : forall n d, scheduled_server_is_valid n = true -> 2 ^ 30 < d < 2 ^ 31 ->
    of_scheduled n d false = (d - 2 ^ 30) * 2 ^ 21 + n * 8 + 4).
  { intros n d Hn Hdn. rewrite <- scheduled_sum by (specialize (Hr n Hn); lia). unfold of_scheduled. by rewrite Hn. }
  pose proof (Hr _ Hs) as Hsr. rewrite E by done.
  set (id := (send_date - 2 ^ 30) * 2 ^ 21 + server_message_id * 8 + 4).
  assert (Hid : 0 < id <= 2 ^ 51) by (subst id; lia). assert (Hm : id mod 8 = 4) by (subst id; clear -Hd Hsr; div_mod_lia).
  assert (Hv : is_valid_scheduled id = true).
  { unfold is_valid_scheduled. rewrite land_type, Hm. change (Z.shiftl 1 51) with (2 ^ 51).
    by rewrite (proj2 (Z.leb_gt _ _)), (proj2 (Z.ltb_ge _ _)) by lia. }
  assert (Hk : is_scheduled id = true) by (by rewrite scheduled_bit, Hm).
  split; [done|]. split; [apply type_cases; auto|]. split; [|split].
  - unfold get_scheduled_server_message_id, is_scheduled_server. rewrite Hv, land_short, Hk. cbn [check]. rewrite !Ok_bind.
    replace (id mod 4) with 0 by (clear -Hm; div_mod_lia). cbn [Z.eqb check]. rewrite !Ok_bind. f_equal.
    change (Z.shiftl 1 18 - 1) with (2 ^ 18 - 1). rewrite Z_land_mod, Z.shiftr_div_pow2 by lia. subst id. clear -Hd Hsr. div_mod_lia.
  - unfold get_scheduled_message_date. rewrite Hv. cbn [check]. rewrite Ok_bind, Z.shiftr_div_pow2 by lia.
    replace (id / 2 ^ 21) with (send_date - 2 ^ 30) by (subst id; clear -Hd Hsr; div_mod_lia).
    change (Z.shiftl 1 30) with (2 ^ 30). rewrite (int32_small (send_date - 2 ^ 30)) by lia. rewrite int32_small by lia. f_equal. lia.
  - intros n d Hn Hdn. rewrite E by done. pose proof (Hr _ Hn). unfold id_lt, same_kind. rewrite Hk, scheduled_bit.
    replace (((d - 2 ^ 30) * 2 ^ 21 + n * 8 + 4) mod 8) with 4 by (clear -Hdn Hn; div_mod_lia). cbn [Z.leb Z.compare Pos.compare Pos.compare_cont Bool.eqb check].
    rewrite Ok_bind. f_equal. apply eq_true_iff_eq. rewrite orb_true_iff, andb_true_iff, !Z.ltb_lt, Z.eqb_eq. subst id. lia.
Qed.

Lemma scheduled_id_roundtrip_witness :
  (scheduled_server_is_valid 77 = true /\ 2 ^ 30 < 1800000000 < 2 ^ 31) /\
  let id := get_message_id (message 77 1800000000) true in
  is_valid_scheduled id = true /\ get_type id = Server /\
  get_scheduled_server_message_id id = Ok 77 /\ get_scheduled_message_date id = Ok 1800000000 /\
  forall server' date', scheduled_server_is_valid server' = true -> 2 ^ 30 < date' < 2 ^ 31 ->
    id_lt id (get_message_id (message server' date') true) =
      Ok ((1800000000 <? date') || (1800000000 =? date') && (77 <? server')).
Proof. split; [by vm_compute|]. by apply (scheduled_id_roundtrip 77 1800000000). Defined.

(** * Order of a list of messages *)

Lemma of_server_ordinary n : is_scheduled (of_server n) = false.
Proof.
  rewrite scheduled_bit. apply Z.leb_gt. unfold of_server. change SERVER_ID_SHIFT with 20. rewrite Z.shiftl_mul_pow2 by lia.
  replace (n * 2 ^ 20) with (n * 2 ^ 17 * 8) by lia. by rewrite Z_mod_mult.
Qed.

Lemma get_message_id_ordinary m : is_scheduled (get_message_id m false) = false.
Proof. destruct m; apply of_server_ordinary. Qed.

Lemma ordinary_le a b : is_scheduled a = false -> is_scheduled b = false -> id_le a b = Ok (a <=? b).
Proof. intros Ha Hb. unfold id_le, same_kind. by rewrite Ha, Hb. Qed.

Lemma ordinary_lt a b : is_scheduled a = false -> is_scheduled b = false -> id_lt a b = Ok (a <? b).
Proof. intros Ha Hb. unfold id_lt, same_kind. by rewrite Ha, Hb. Qed.

(** The bounds [0] and [max_id] that the loops start from do not restrict valid
    identifiers but for the greatest. *)
Definition ascending_from (cur : Z) (ids : list Z) : Prop := StronglySorted Z.lt (cur :: ids) /\ Forall (fun id => is_valid id = true) ids.
Definition descending_from (cur : Z) (ids : list Z) : Prop := StronglySorted Z.gt (cur :: ids) /\ Forall (fun id => is_valid id = true) ids.

Lemma sorted_cons_cons (R : relation Z) `{Transitive Z R} a b l :
  StronglySorted R (a :: b :: l) <-> R a b /\ StronglySorted R (b :: l).
Proof.
  split.
  - intros Hs. apply StronglySorted_inv in Hs as [Hs Hf]. split; [|done]. by inversion Hf.
  - intros [Hab Hs]. constructor; [done|]. constructor; [done|]. apply StronglySorted_inv in Hs as [_ Hf].
    eapply Forall_impl; [exact Hf|]. cbn. intros x Hx. by transitivity b.
Qed.
#[local] Instance gt_trans : Transitive Z.gt.
Proof. intros x y z. lia. Qed.

Lemma order_ascending_spec messages cur :
  is_scheduled cur = false ->
  exists b, order_ascending cur messages = Ok b /\ (b = true <-> ascending_from cur (map (fun m => get_message_id m false) messages)).
Proof.
  revert cur. induction messages as [|m messages IH]; intros cur Hc; cbn [order_ascending map].
  - exists true. split; [done|]. split; [|done]. intros _. split; [by repeat constructor|constructor].
  - rewrite ordinary_le by (done || apply get_message_id_ordinary). rewrite Ok_bind.
    set (id := get_message_id m false). destruct (IH id (get_message_id_ordinary m)) as (b & E & Hb).
    destruct ((id <=? cur) || negb (is_valid id)) eqn:Eb.
    + exists false. split; [done|]. split; [done|]. intros [Hs Hv]. exfalso. apply sorted_cons_cons in Hs as [Hlt _]; [|apply _].
      inversion Hv; subst. apply orb_true_iff in Eb as [Eb|Eb]; [to_prop; lia|]. rewrite H1 in Eb. done.
    + to_prop. exists b. split; [done|]. rewrite Hb. unfold ascending_from. rewrite (sorted_cons_cons _ cur), Forall_cons. intuition lia.
Qed.

Lemma order_descending_spec messages cur :
  is_scheduled cur = false ->
  exists b, order_descending cur messages = Ok b /\ (b = true <-> descending_from cur (map (fun m => get_message_id m false) messages)).
Proof.
  revert cur. induction messages as [|m messages IH]; intros cur Hc; cbn [order_descending map].
  - exists true. split; [done|]. split; [|done]. intros _. split; [by repeat constructor|constructor].
  - rewrite ordinary_le by (done || apply get_message_id_ordinary). rewrite Ok_bind.
    set (id := get_message_id m false). destruct (IH id (get_message_id_ordinary m)) as (b & E & Hb).
    destruct ((cur <=? id) || negb (is_valid id)) eqn:Eb.
    + exists false. split; [done|]. split; [done|]. intros [Hs Hv]. exfalso. apply sorted_cons_cons in Hs as [Hgt _]; [|apply _].
      inversion Hv; subst. apply orb_true_iff in Eb as [Eb|Eb]; [to_prop; lia|]. rewrite H1 in Eb. done.
    + to_prop. exists b. split; [done|]. rewrite Hb. unfold descending_from. rewrite (sorted_cons_cons _ cur), Forall_cons. intuition lia.
Qed.

Lemma max_message_id_spec messages cur :
  is_scheduled cur = false ->
  max_message_id cur messages = Ok (foldl Z.max cur (map (fun m => get_message_id m false) messages)).
Proof.
  revert cur. induction messages as [|m messages IH]; intros cur Hc; cbn [max_message_id map foldl]; [done|].
  rewrite ordinary_lt by (done || apply get_message_id_ordinary). rewrite Ok_bind.
  replace (if cur <? get_message_id m false then get_message_id m false else cur) with (Z.max cur (get_message_id m false))
    by (destruct (Z.ltb_spec cur (get_message_id m false)); lia).
  apply IH. destruct (Z.max_spec cur (get_message_id m false)) as [[_ ->]|[_ ->]]; [apply get_message_id_ordinary|done].
Qed.

(** Whatever messages a server sends, in whatever order, the checks of their
    order never fail a [CHECK]; a list is found ascending exactly when all
    identifiers are valid and strictly increase, descending exactly when they
    are valid, strictly decrease and are below the greatest identifier; and the
    greatest identifier is that of the list, or none when all are negative. *)
Theorem message_order_checked (messages : list api_message) :
  let ids := map (fun m => get_message_id m false) messages in
  (exists b, is_message_id_order_ascending messages = Ok b /\
     (b = true <-> StronglySorted Z.lt ids /\ Forall (fun id => is_valid id = true) ids)) /\
  (exists b, is_message_id_order_descending messages = Ok b /\
     (b = true <-> StronglySorted Z.gt ids /\ Forall (fun id => is_valid id = true /\ id < max_id) ids)) /\
  get_max_message_id messages = Ok (foldl Z.max 0 ids).
Proof.
  intros ids. split_and!; [..|by apply max_message_id_spec].
  - destruct (order_ascending_spec messages 0 eq_refl) as (b & E & Hb). exists b. split; [done|]. rewrite Hb. fold ids.
    split; [intros [Hs Hv]; split; [by apply StronglySorted_inv in Hs as []|done]|].
    intros [Hs Hv]. split; [|done]. constructor; [done|]. eapply Forall_impl; [exact Hv|]. cbn. intros x Hx.
    apply valid_layout in Hx. lia.
  - destruct (order_descending_spec messages max_id eq_refl) as (b & E & Hb). exists b. split; [done|]. rewrite Hb. fold ids.
    split.
    + intros [Hs Hv]. apply StronglySorted_inv in Hs as [Hs Hlt]. split; [done|]. rewrite Forall_forall in *. intros x Hx.
      split; [by apply Hv|]. specialize (Hlt x Hx). lia.
    + intros [Hs Hv]. split; [|by eapply Forall_impl; [exact Hv|]; cbn; intros x []]. constructor; [done|].
      eapply Forall_impl; [exact Hv|]. cbn. lia.
Qed.
