(* ===== verification/OrderedMessages.v ===== *)
(** The messages of a chat in their order: [telegram/OrderedMessage.{h,cpp}].

    The identifiers that the client knows are in a treap: a search tree by
    identifier and a heap by a hash of it.  Every message has two flags, whether
    the message right before it and right after it are known to be its
    neighbours in the chat; without the flag there may be a gap.

    A tree owns its nodes, so a [tree] is the store; a pointer to a node is the
    node's identifier, and following it looks the node up in the store as it is
    then ([deref]).  An iterator is the stack of the pointers from the root to
    the current node, the current one first. *)
From S2P Require Import Prelude Bytes MessageId.
#[local] Open Scope Z_scope.

Record node := mk_node { random_y_ : Z; have_previous_ : bool; have_next_ : bool; message_id_ : Z }.

Definition set_previous (b : bool) (m : node) : node := mk_node (random_y_ m) b (have_next_ m) (message_id_ m).
Definition set_next (b : bool) (m : node) : node := mk_node (random_y_ m) (have_previous_ m) b (message_id_ m).

(** [unique_ptr<OrderedMessage>] with [left_] and [right_]. *)
Inductive tree := Leaf | Node (left_ : tree) (m : node) (right_ : tree).

#[export] Instance node_eq_dec : EqDecision node.
Proof. solve_decision. Defined.
#[export] Instance tree_eq_dec : EqDecision tree.
Proof. solve_decision. Defined.

(** * The store *)

(** The object behind a pointer. *)
Fixpoint find_node (t : tree) (id : Z) : option (tree * node * tree) :=
  match t with
  | Leaf => None
  | Node l m r =>
      if message_id_ m =? id then Some (l, m, r)
      else match find_node l id with Some found => Some found | None => find_node r id end
  end.

Definition deref (t : tree) (id : Z) : outcome (tree * node * tree) :=
  match find_node t id with Some found => Ok found | None => Crash end.

Definition node_at (t : tree) (id : Z) : outcome node := '(_, m, _) ← deref t id; Ok m.

(** A write to the object. *)
Fixpoint update (id : Z) (f : node -> node) (t : tree) : tree :=
  match t with
  | Leaf => Leaf
  | Node l m r => Node (update id f l) (if message_id_ m =? id then f m else m) (update id f r)
  end.

Definition is_null (t : tree) : bool := match t with Leaf => true | Node _ _ _ => false end.
Definition points_to (t : tree) (id : Z) : bool := match t with Leaf => false | Node _ m _ => message_id_ m =? id end.

(** * Iterators *)

(** [stack_], with its back first. *)
Definition stack := list Z.

(** [stack_.resize(pos)]. *)
Definition resize (pos : nat) (stack_ : stack) : stack := drop (length stack_ - pos) stack_.

(** The constructor's loop. *)
Fixpoint seek (root : tree) (message_id : Z) (stack_ : stack) (last_right_pos : nat) : outcome stack :=
  match root with
  | Leaf => Ok (resize last_right_pos stack_)
  | Node l m r =>
      let stack_ := message_id_ m :: stack_ in
      not_greater ← id_le (message_id_ m) message_id;
      if not_greater : bool then seek r message_id stack_ (length stack_) else seek l message_id stack_ last_right_pos
  end.

Definition get_iterator (t : tree) (message_id : Z) : outcome stack :=
  _ ← check (negb (is_scheduled message_id)); seek t message_id [] 0.

(** [operator*]. *)
Definition current (it : stack) : option Z := head it.

Fixpoint push_left (cur : tree) (stack_ : stack) : stack :=
  match cur with Leaf => stack_ | Node l m _ => push_left l (message_id_ m :: stack_) end.

Fixpoint push_right (cur : tree) (stack_ : stack) : stack :=
  match cur with Leaf => stack_ | Node _ m r => push_right r (message_id_ m :: stack_) end.

Section Moves.
Variable pointer : Z -> outcome (tree * node * tree).

(** The loop that pops until the last node is a left child. *)
Fixpoint climb_left (cur : Z) (stack_ : stack) : outcome stack :=
  match stack_ with
  | [] => Ok []
  | new_cur :: rest =>
      '(l, _, _) ← pointer new_cur;
      if points_to l cur then Ok stack_ else climb_left new_cur rest
  end.

Fixpoint climb_right (cur : Z) (stack_ : stack) : outcome stack :=
  match stack_ with
  | [] => Ok []
  | new_cur :: rest =>
      '(_, _, r) ← pointer new_cur;
      if points_to r cur then Ok stack_ else climb_right new_cur rest
  end.

Definition move_next (stack_ : stack) : outcome stack :=
  match stack_ with
  | [] => Ok []
  | cur :: rest =>
      '(_, m, r) ← pointer cur;
      if negb (have_next_ m) then Ok []
      else if is_null r then climb_left cur rest
      else Ok (push_left r stack_)
  end.

Definition move_previous (stack_ : stack) : outcome stack :=
  match stack_ with
  | [] => Ok []
  | cur :: rest =>
      '(l, m, _) ← pointer cur;
      if negb (have_previous_ m) then Ok []
      else if is_null l then climb_right cur rest
      else Ok (push_right l stack_)
  end.
End Moves.

(** [operator++] and [operator--]. *)
Definition increment (t : tree) (it : stack) : outcome stack := move_next (deref t) it.
Definition decrement (t : tree) (it : stack) : outcome stack := move_previous (deref t) it.

(** * Insertion *)

(** The least message that is not less. *)
Fixpoint find_next (cur : tree) (message_id : Z) (next_message : option Z) : outcome (option Z) :=
  match cur with
  | Leaf => Ok next_message
  | Node l m r =>
      less ← id_lt (message_id_ m) message_id;
      if less : bool then find_next r message_id next_message else find_next l message_id (Some (message_id_ m))
  end.

Definition attach_before_next (m : node) (t : tree) : outcome (node * tree) :=
  yet_unsent ← is_yet_unsent (message_id_ m);
  if yet_unsent : bool then Ok (m, t)
  else
    next_message ← find_next t (message_id_ m) None;
    match next_message with
    | Some next =>
        n ← node_at t next;
        _ ← check (negb (have_previous_ n));
        Ok (set_next true m, update next (set_previous true) t)
    | None => Ok (m, t)
    end.

Definition auto_attach_message (m : node) (last_message_id : Z) (t : tree) : outcome (node * tree) :=
  let message_id := message_id_ m in
  it ← get_iterator t message_id;
  match current it with
  | Some previous =>
      p ← node_at t previous;
      let previous_message_id := message_id_ p in
      less ← id_lt previous_message_id message_id;
      _ ← check less;
      attach ← (if have_next_ p then Ok true
                else if is_valid last_message_id then id_le last_message_id previous_message_id
                else Ok false);
      if attach : bool then
        _ ← (if is_server message_id && is_server previous_message_id && have_next_ p
             then it ← increment t it; check (negb (bool_decide (current it = None)))
             else Ok tt);
        Ok (set_previous true (set_next (have_next_ p) m), update previous (set_next true) t)
      else attach_before_next m t
  | None => attach_before_next m t
  end.

(** The connection around a message that is inserted without attaching. *)
Definition drop_connection (message_id : Z) (t : tree) : outcome tree :=
  it ← get_iterator t message_id;
  match current it with
  | Some previous =>
      p ← node_at t previous;
      if have_next_ p then
        less ← id_lt (message_id_ p) message_id;
        _ ← check less;
        it ← increment t it;
        match current it with
        | Some next =>
            n ← node_at t next;
            greater ← id_lt message_id (message_id_ n);
            _ ← check greater;
            Ok (update previous (set_next false) (update next (set_previous false) t))
        | None => Crash
        end
      else Ok t
  | None => Ok t
  end.

(** [unique_ptr<OrderedMessage> *v]: the owner of a subtree is the path to it. *)
Inductive side := GoLeft | GoRight.

Fixpoint insert_position (t : tree) (random_y message_id : Z) : outcome (list side) :=
  match t with
  | Leaf => Ok []
  | Node l m r =>
      if random_y <=? random_y_ m then
        if message_id_ m <? message_id then path ← insert_position r random_y message_id; Ok (GoRight :: path)
        else if message_id_ m =? message_id then Crash
        else path ← insert_position l random_y message_id; Ok (GoLeft :: path)
      else Ok []
  end.

Fixpoint replace_at (path : list side) (f : tree -> tree) (t : tree) : tree :=
  match path, t with
  | [], _ => f t
  | GoLeft :: path, Node l m r => Node (replace_at path f l) m r
  | GoRight :: path, Node l m r => Node l m (replace_at path f r)
  | _ :: _, Leaf => Leaf
  end.

(** The loop that gives the subtree's nodes to the new node's children. *)
Fixpoint split (cur : tree) (message_id : Z) : tree * tree :=
  match cur with
  | Leaf => (Leaf, Leaf)
  | Node l m r =>
      if message_id_ m <? message_id then let '(left_, right_) := split r message_id in (Node l m left_, right_)
      else let '(left_, right_) := split l message_id in (left_, Node right_ m r)
  end.

Definition insert (message_id : Z) (auto_attach : bool) (old_last_message_id : Z) (t : tree) : outcome tree :=
  let random_y := int32 (message_id_hash message_id) in
  v ← insert_position t random_y message_id;
  let m := mk_node random_y false false message_id in
  '(m, t) ← (if auto_attach then auto_attach_message m old_last_message_id t
             else t ← drop_connection message_id t; Ok (m, t));
  Ok (replace_at v (fun cur => let '(left_, right_) := split cur message_id in Node left_ m right_) t).

(** * Removal *)

Fixpoint erase_position (t : tree) (message_id : Z) : outcome (list side * node) :=
  match t with
  | Leaf => Crash
  | Node l m r =>
      if message_id_ m <? message_id then '(path, found) ← erase_position r message_id; Ok (GoRight :: path, found)
      else if message_id <? message_id_ m then '(path, found) ← erase_position l message_id; Ok (GoLeft :: path, found)
      else Ok ([], m)
  end.

(** The loop that puts the children of the removed node in its place. *)
Fixpoint merge (left_ : tree) : tree -> tree :=
  fix merge_right (right_ : tree) : tree :=
    match left_, right_ with
    | Leaf, Leaf => Leaf
    | Leaf, Node rl rm rr => Node (merge_right rl) rm rr
    | Node ll lm lr, Leaf => Node ll lm (merge lr Leaf)
    | Node ll lm lr, Node rl rm rr =>
        if random_y_ lm <? random_y_ rm then Node (merge_right rl) rm rr else Node ll lm (merge lr right_)
    end.

(** The neighbour of the message that is removed, after one step of an iterator. *)
Definition neighbour (step : tree -> stack -> outcome stack) (message_id : Z) (t : tree) : outcome Z :=
  it ← get_iterator t message_id;
  _ ← check (bool_decide (current it = Some message_id));
  it ← step t it;
  match current it with Some id => Ok id | None => Crash end.

Definition erase (message_id : Z) (only_from_memory : bool) (t : tree) : outcome tree :=
  '(v, m) ← erase_position t message_id;
  t ← (if have_previous_ m && (only_from_memory || negb (have_next_ m))
       then prev_m ← neighbour decrement message_id t; Ok (update prev_m (set_next false) t)
       else Ok t);
  t ← (if have_next_ m && (only_from_memory || negb (have_previous_ m))
       then next_m ← neighbour increment message_id t; Ok (update next_m (set_previous false) t)
       else Ok t);
  Ok (replace_at v (fun result => match result with Node left_ _ right_ => merge left_ right_ | Leaf => Leaf end) t).

(** * Attaching *)

Definition attach_message_to_previous (message_id : Z) (t : tree) : outcome tree :=
  _ ← check (is_valid message_id);
  it ← get_iterator t message_id;
  _ ← check (bool_decide (current it = Some message_id));
  ordered_message ← node_at t message_id;
  if have_previous_ ordered_message then Ok t
  else
    let t := update message_id (set_previous true) t in
    it ← decrement t it;
    match current it with
    | Some previous =>
        p ← node_at t previous;
        Ok (if have_next_ p then update message_id (set_next true) t else update previous (set_next true) t)
    | None => Crash
    end.

Definition attach_message_to_next (message_id : Z) (t : tree) : outcome tree :=
  _ ← check (is_valid message_id);
  it ← get_iterator t message_id;
  _ ← check (bool_decide (current it = Some message_id));
  ordered_message ← node_at t message_id;
  if have_next_ ordered_message then Ok t
  else
    let t := update message_id (set_next true) t in
    it ← increment t it;
    match current it with
    | Some next =>
        n ← node_at t next;
        Ok (if have_previous_ n then update message_id (set_previous true) t else update next (set_previous true) t)
    | None => Crash
    end.

(** * Searches *)

Fixpoint do_find_older_messages (t : tree) (max_message_id : Z) (message_ids : list Z) : outcome (list Z) :=
  match t with
  | Leaf => Ok message_ids
  | Node l m r =>
      message_ids ← do_find_older_messages l max_message_id message_ids;
      not_greater ← id_le (message_id_ m) max_message_id;
      if not_greater : bool then do_find_older_messages r max_message_id (message_ids ++ [message_id_ m]) else Ok message_ids
  end.
Definition find_older_messages (t : tree) (max_message_id : Z) : outcome (list Z) := do_find_older_messages t max_message_id [].

Fixpoint do_find_newer_messages (t : tree) (min_message_id : Z) (message_ids : list Z) : outcome (list Z) :=
  match t with
  | Leaf => Ok message_ids
  | Node l m r =>
      greater ← id_lt min_message_id (message_id_ m);
      message_ids ← (if greater : bool then
                       message_ids ← do_find_newer_messages l min_message_id message_ids;
                       Ok (message_ids ++ [message_id_ m])
                     else Ok message_ids);
      do_find_newer_messages r min_message_id message_ids
  end.
Definition find_newer_messages (t : tree) (min_message_id : Z) : outcome (list Z) := do_find_newer_messages t min_message_id [].

Section Dates.
Variable get_message_date : Z -> Z.

Fixpoint find_message_by_date (t : tree) (date : Z) : Z :=
  match t with
  | Leaf => 0
  | Node l m r =>
      if date <? get_message_date (message_id_ m) then find_message_by_date l date
      else
        let message_id := find_message_by_date r date in
        if is_valid message_id then message_id else message_id_ m
  end.

Fixpoint do_find_messages_by_date (t : tree) (min_date max_date : Z) (message_ids : list Z) : list Z :=
  match t with
  | Leaf => message_ids
  | Node l m r =>
      let message_date := get_message_date (message_id_ m) in
      let message_ids :=
        if min_date <=? message_date then
          let message_ids := do_find_messages_by_date l min_date max_date message_ids in
          if message_date <=? max_date then message_ids ++ [message_id_ m] else message_ids
        else message_ids in
      if message_date <=? max_date then do_find_messages_by_date r min_date max_date message_ids else message_ids
  end.
Definition find_messages_by_date (t : tree) (min_date max_date : Z) : list Z := do_find_messages_by_date t min_date max_date [].
End Dates.

(** The functions that a traversal is given may change what they captured, [S]. *)
Fixpoint traverse_messages {S : Type} (need_scan_older need_scan_newer : S -> Z -> bool * S) (t : tree) (s : S) : S :=
  match t with
  | Leaf => s
  | Node l m r =>
      let '(older, s) := need_scan_older s (message_id_ m) in
      let s := if older then traverse_messages need_scan_older need_scan_newer l s else s in
      let '(newer, s) := need_scan_newer s (message_id_ m) in
      if newer then traverse_messages need_scan_older need_scan_newer r s else s
  end.

Definition has_message (t : tree) (message_id : Z) : outcome bool :=
  _ ← check (is_valid message_id);
  it ← get_iterator t message_id;
  Ok (bool_decide (current it = Some message_id)).

Fixpoint size (t : tree) : nat := match t with Leaf => 0 | Node l _ r => S (size l + size r) end.

(** The loops over an iterator visit a message at most once: [size t] steps. *)
Fixpoint last_sent_loop (fuel : nat) (t : tree) (it : stack) : outcome Z :=
  match current it, fuel with
  | None, _ => Ok 0
  | Some message_id, O => Crash
  | Some message_id, S fuel =>
      yet_unsent ← is_yet_unsent message_id;
      if negb yet_unsent then Ok message_id else it ← decrement t it; last_sent_loop fuel t it
  end.

Definition get_last_sent_message_id (t : tree) : outcome Z :=
  it ← get_iterator t max_id; last_sent_loop (size t) t it.

Definition get_last_message_id (t : tree) : outcome Z :=
  it ← get_iterator t max_id; Ok (default 0 (current it)).

(** * History *)

(** [while ( *it && offset < 0) { ++it; ... }] *)
Fixpoint newer_loop (fuel : nat) (t : tree) (it : stack) (offset from_message_id : Z) : outcome (stack * Z * Z) :=
  match current it, fuel with
  | None, _ => Ok (it, offset, from_message_id)
  | Some _, O => if offset <? 0 then Crash else Ok (it, offset, from_message_id)
  | Some _, S fuel =>
      if offset <? 0 then
        it ← increment t it;
        match current it with
        | Some message_id => newer_loop fuel t it (offset + 1) message_id
        | None => newer_loop fuel t it offset from_message_id
        end
      else Ok (it, offset, from_message_id)
  end.

(** The loop that collects the result. *)
Fixpoint collect_loop (fuel : nat) (t : tree) (limit : Z) (it : stack) (message_ids : list Z) (from_message_id : Z) (from_the_end : bool)
  : outcome (list Z * Z * bool) :=
  match current it, fuel with
  | None, _ => Ok (message_ids, from_message_id, from_the_end)
  | Some message_id, O => if len message_ids <? uint64 limit then Crash else Ok (message_ids, from_message_id, from_the_end)
  | Some message_id, S fuel =>
      if len message_ids <? uint64 limit then
        it ← decrement t it; collect_loop fuel t limit it (message_ids ++ [message_id]) message_id false
      else Ok (message_ids, from_message_id, from_the_end)
  end.

(** The message to start from, with the iterator there, and whether there is a
    gap around it. *)
Definition find_start (t : tree) (last_message_id from_message_id offset : Z) (force : bool) (it : stack) : outcome (stack * Z * bool) :=
  match current it with
  | None =>
      if force && (offset <? 0) && negb (is_null t) then
        let min_message_id := traverse_messages (fun _ message_id => (true, message_id)) (fun s _ => (false, s)) t 0 in
        greater ← id_lt from_message_id min_message_id;
        _ ← check greater;
        it ← get_iterator t min_message_id;
        _ ← check (negb (bool_decide (current it = None)));
        Ok (it, min_message_id, false)
      else Ok (it, from_message_id, true)
  | Some message_id =>
      if message_id =? from_message_id then Ok (it, from_message_id, false)
      else
        less ← id_lt message_id from_message_id;
        _ ← check less;
        m ← node_at t message_id;
        gap ← (if have_next_ m then Ok false
               else if last_message_id =? 0 then Ok true
               else id_lt message_id last_message_id);
        Ok (it, from_message_id, gap)
  end.

(** Going [-offset] messages forward, or as far as is known. *)
Definition apply_offset (t : tree) (last_message_id from_message_id offset limit : Z) (force have_a_gap : bool) (it : stack)
  : outcome (stack * Z * Z * Z) :=
  '(it, offset, from_message_id) ← newer_loop (size t) t it offset from_message_id;
  at_the_end ← (
    if offset <? 0 then
      reached ← (if last_message_id =? 0 then Ok false else id_le last_message_id from_message_id);
      Ok (reached || negb have_a_gap && force)
    else Ok false);
  '(it, offset, limit) ← (
    if at_the_end : bool then
      _ ← check (negb have_a_gap);
      it ← get_iterator t from_message_id;
      Ok (it, 0, limit + offset)
    else Ok (it, offset, limit));
  Ok (it, from_message_id, (if negb have_a_gap && (offset <? 0) then offset - 1 else offset), limit).

(** The iterator, [from_message_id], [offset] and [limit] when the history does
    not start from the end. *)
Definition locate (t : tree) (last_message_id from_message_id offset limit : Z) (force : bool) (it : stack)
  : outcome (stack * Z * Z * Z) :=
  '(it, from_message_id, have_a_gap) ← find_start t last_message_id from_message_id offset force it;
  let it : stack := if have_a_gap : bool then [] else it in
  '(it, offset) ← (
    if bool_decide (current it = Some from_message_id) then
      if offset <? 0 then Ok (it, offset + 1) else it ← decrement t it; Ok (it, offset)
    else Ok (it, offset));
  apply_offset t last_message_id from_message_id offset limit force have_a_gap it.

(** The end of [get_history]: the messages at the iterator. *)
Definition read_back (t : tree) (it : stack) (from_message_id offset limit : Z) (from_the_end is_limit_increased : bool)
  : outcome (list Z * Z * Z * Z) :=
  '(message_ids, from_message_id, from_the_end) ← (
    if offset =? 0 then collect_loop (size t) t limit it [] from_message_id from_the_end
    else Ok ([], from_message_id, from_the_end) : outcome (list Z * Z * bool));
  let from_message_id : Z := if from_the_end : bool then 0 else from_message_id in
  let message_ids : list Z := if is_limit_increased && (uint64 limit =? len message_ids) then removelast message_ids else message_ids in
  Ok (message_ids, from_message_id, offset, limit).

(** The result and the new [from_message_id], [offset] and [limit]. *)
Definition get_history (t : tree) (last_message_id from_message_id offset limit : Z) (force : bool)
  : outcome (list Z * Z * Z * Z) :=
  _ ← check (0 <? limit);
  let is_limit_increased := limit =? - offset in
  let limit := if is_limit_increased then int32 (limit + 1) else limit in
  _ ← check ((- limit <? offset) && (offset <=? 0));
  it ← get_iterator t from_message_id;
  from_the_end ← (
    after_last ← (if last_message_id =? 0 then Ok false else id_lt last_message_id from_message_id);
    if after_last : bool then Ok true else id_le max_id from_message_id);
  if from_the_end : bool then
    read_back t (if last_message_id =? 0 then [] else it) from_message_id 0 (limit + offset) true is_limit_increased
  else
    '(it, from_message_id, offset, limit) ← locate t last_message_id from_message_id offset limit force it;
    read_back t it from_message_id offset limit false is_limit_increased.

(** * Unread messages *)

Section Unread.
Variable is_counted_as_unread : Z -> bool.

(** A loop backward over the messages above a bound, with the counter changed
    by [step] at each one that counts. *)
Fixpoint count_loop (fuel : nat) (t : tree) (bound step : Z) (it : stack) (unread_count : Z) : outcome (stack * Z) :=
  match current it, fuel with
  | None, _ => Ok (it, unread_count)
  | Some message_id, O => greater ← id_lt bound message_id; if greater : bool then Crash else Ok (it, unread_count)
  | Some message_id, S fuel =>
      greater ← id_lt bound message_id;
      if greater : bool then
        let unread_count := if is_counted_as_unread message_id then int32 (unread_count + step) else unread_count in
        it ← decrement t it; count_loop fuel t bound step it unread_count
      else Ok (it, unread_count)
  end.

Definition calc_new_unread_count_from_last_unread (t : tree) (max_message_id last_read_inbox_message_id old_unread_count : Z) : outcome Z :=
  it ← get_iterator t max_message_id;
  if negb (bool_decide (current it = Some max_message_id)) then Ok (-1)
  else
    '(it, unread_count) ← count_loop (size t) t last_read_inbox_message_id (-1) it old_unread_count;
    Ok (if bool_decide (current it = Some last_read_inbox_message_id) then unread_count else -1).

Definition calc_new_unread_count_from_the_end (t : tree) (max_message_id last_message_id hint_unread_count : Z) : outcome Z :=
  it ← get_iterator t max_id;
  '(it, unread_count) ← count_loop (size t) t max_message_id 1 it 0;
  let is_count_exact := is_valid last_message_id && negb (bool_decide (current it = None)) in
  if (0 <=? hint_unread_count)
     && (if is_count_exact then hint_unread_count =? unread_count else unread_count <=? hint_unread_count)
  then Ok hint_unread_count
  else Ok (if is_count_exact then unread_count else -1).

Definition calc_new_unread_count (t : tree) (max_message_id last_read_inbox_message_id old_unread_count last_message_id hint_unread_count : Z)
  : outcome Z :=
  let from_the_end := calc_new_unread_count_from_the_end t max_message_id last_message_id hint_unread_count in
  let from_last_unread := calc_new_unread_count_from_last_unread t max_message_id last_read_inbox_message_id old_unread_count in
  if negb (is_valid last_read_inbox_message_id) then from_the_end
  else if negb (is_valid last_message_id) || (max_message_id - last_read_inbox_message_id <? last_message_id - max_message_id) then
    unread_count ← from_last_unread;
    if 0 <=? unread_count then Ok unread_count else from_the_end
  else
    unread_count ← from_the_end;
    if 0 <=? unread_count then Ok unread_count else from_last_unread.
End Unread.
