(* ===== verification/OrderedMessagesSpec.v ===== *)
(** What the treap of a chat's messages promises.

    The specification is a [chain]: the identifiers in increasing order, each
    with the knowledge whether the next one is its neighbour.  The operations of
    OrderedMessages refine those of the chain ([represents]), and an iterator is
    a position of the in-order list of nodes ([located]). *)
From S2P Require Import Prelude Bytes MessageId OrderedMessages.
#[local] Open Scope Z_scope.

(** * Filters *)

Section Filters.
Context {A : Type} (P : A -> Prop) `{forall x, Decision (P x)}.

Lemma filter_all l : Forall P l -> filter P l = l.
Proof. induction 1 as [|x l Hx Hl IH]; [done|]. by rewrite filter_cons, decide_True, IH by done. Qed.

Lemma filter_none l : Forall (fun e => ~ P e) l -> filter P l = [].
Proof. induction 1 as [|x l Hx Hl IH]; [done|]. by rewrite filter_cons, decide_False, IH by done. Qed.
End Filters.

(** * The nodes in order *)

Fixpoint flatten (t : tree) : list node :=
  match t with Leaf => [] | Node l m r => flatten l ++ m :: flatten r end.

Definition ids (t : tree) : list Z := map message_id_ (flatten t).

Lemma ids_node l m r : ids (Node l m r) = ids l ++ message_id_ m :: ids r.
Proof. unfold ids. cbn [flatten]. by rewrite map_app. Qed.

Lemma elem_of_ids m t : m ∈ flatten t -> message_id_ m ∈ ids t.
Proof. intros Hm. apply list_elem_of_In, in_map, list_elem_of_In, Hm. Qed.

Lemma size_flatten t : size t = length (flatten t).
Proof. induction t as [|l IHl m r IHr]; cbn [size flatten]; [done|]. rewrite length_app. cbn [length]. lia. Qed.

Lemma find_node_None t id : id ∉ ids t -> find_node t id = None.
Proof.
  induction t as [|l IHl m r IHr]; cbn [find_node]; [done|]. rewrite ids_node. intros Hn.
  rewrite (proj2 (Z.eqb_neq _ _)) by set_solver. by rewrite IHl, IHr by set_solver.
Qed.

(** [d] gives every node of [t] its children in [t]. *)
Fixpoint agrees (d : Z -> outcome (tree * node * tree)) (t : tree) : Prop :=
  match t with Leaf => True | Node l m r => d (message_id_ m) = Ok (l, m, r) /\ agrees d l /\ agrees d r end.

Lemma agrees_ext d d' t : (forall id, id ∈ ids t -> d id = d' id) -> agrees d t -> agrees d' t.
Proof.
  induction t as [|l IHl m r IHr]; cbn [agrees]; [done|]. rewrite ids_node. intros Hd (Hm & Hl & Hr).
  split_and!; [rewrite <- Hd by set_solver; done|apply IHl|apply IHr]; try done; intros id Hid; apply Hd; set_solver.
Qed.

Lemma nodup_node l m r :
  NoDup (ids (Node l m r)) ->
  NoDup (ids l) /\ NoDup (ids r) /\ message_id_ m ∉ ids l /\ message_id_ m ∉ ids r /\ forall id, id ∈ ids l -> id ∉ ids r.
Proof.
  rewrite ids_node. intros Hn. apply NoDup_app in Hn as (Hl & Hd & Hm). apply NoDup_cons in Hm as [Hm Hr].
  split_and!; [done..| | |]; set_solver.
Qed.

Lemma deref_agrees t : NoDup (ids t) -> agrees (deref t) t.
Proof.
  induction t as [|l IHl m r IHr]; intros Hn; [done|]. destruct (nodup_node _ _ _ Hn) as (Hl & Hr & Hml & Hmr & Hd).
  cbn [agrees]. split_and!; [unfold deref; cbn [find_node]; by rewrite Z.eqb_refl| |].
  - eapply agrees_ext; [|by apply IHl]. intros id Hid. unfold deref. cbn [find_node].
    rewrite (proj2 (Z.eqb_neq _ _)) by set_solver. destruct (find_node l id) eqn:E; [done|].
    rewrite find_node_None by set_solver. done.
  - eapply agrees_ext; [|by apply IHr]. intros id Hid. unfold deref. cbn [find_node].
    rewrite (proj2 (Z.eqb_neq _ _)) by set_solver. rewrite (find_node_None l) by set_solver. done.
Qed.

(** * Positions of iterators *)

(** [located t st A x B]: the stack [st] is the path of [t] to [x], which has
    the nodes [A] before it and [B] after it. *)
Inductive located : tree -> stack -> list node -> node -> list node -> Prop :=
| located_here l m r : located (Node l m r) [message_id_ m] (flatten l) m (flatten r)
| located_left l m r st A x B :
    located l st A x B -> located (Node l m r) (st ++ [message_id_ m]) A x (B ++ m :: flatten r)
| located_right l m r st A x B :
    located r st A x B -> located (Node l m r) (st ++ [message_id_ m]) (flatten l ++ m :: A) x B.

Lemma located_flatten t st A x B : located t st A x B -> flatten t = A ++ x :: B.
Proof. induction 1; cbn [flatten]; [done|..]; rewrite IHlocated, <- ?app_assoc; done. Qed.

Lemma located_stack t st A x B : located t st A x B -> exists rest, st = message_id_ x :: rest.
Proof. induction 1 as [| ? ? ? ? ? ? ? ? [? ->]|? ? ? ? ? ? ? ? [? ->]]; by eexists. Qed.

Lemma located_id t st A x B : located t st A x B -> message_id_ x ∈ ids t.
Proof. intros Hl. apply elem_of_ids. rewrite (located_flatten _ _ _ _ _ Hl). set_solver. Qed.

Definition root_id (t : tree) : Z := match t with Leaf => 0 | Node _ m _ => message_id_ m end.

Lemma points_to_root t : t <> Leaf -> points_to t (root_id t) = true.
Proof. destruct t; [done|]. intros _. apply Z.eqb_refl. Qed.

Lemma points_to_other t id : id ∉ ids t -> points_to t id = false.
Proof. destruct t; [done|]. rewrite ids_node. intros Hn. apply Z.eqb_neq. set_solver. Qed.

Lemma root_in t : t <> Leaf -> root_id t ∈ ids t.
Proof. destruct t; [done|]. intros _. rewrite ids_node. cbn [root_id]. set_solver. Qed.

Lemma located_not_leaf t st A x B : located t st A x B -> t <> Leaf.
Proof. by destruct 1. Qed.

Lemma push_left_located t :
  t <> Leaf -> exists st x B, flatten t = x :: B /\ located t st [] x B /\ forall suf, push_left t suf = st ++ suf.
Proof.
  induction t as [|l IHl m r IHr]; [done|]. intros _. destruct (decide (l = Leaf)) as [->|Hl].
  - exists [message_id_ m], m, (flatten r). split; [done|]. split; [apply (located_here Leaf)|done].
  - destruct (IHl Hl) as (st & x & B & Hf & Hloc & Hp). exists (st ++ [message_id_ m]), x, (B ++ m :: flatten r).
    cbn [flatten]. rewrite Hf. split; [done|]. split; [by apply located_left|]. intros suf. cbn [push_left].
    rewrite Hp, <- app_assoc. done.
Qed.

Lemma push_right_located t :
  t <> Leaf -> exists st A x, flatten t = A ++ [x] /\ located t st A x [] /\ forall suf, push_right t suf = st ++ suf.
Proof.
  induction t as [|l IHl m r IHr]; [done|]. intros _. destruct (decide (r = Leaf)) as [->|Hr].
  - exists [message_id_ m], (flatten l), m. split; [done|]. split; [apply (located_here l m Leaf)|done].
  - destruct (IHr Hr) as (st & A & x & Hf & Hloc & Hp). exists (st ++ [message_id_ m]), (flatten l ++ m :: A), x.
    cbn [flatten]. rewrite Hf, <- app_assoc. split; [done|]. split; [by apply located_right|]. intros suf. cbn [push_right].
    rewrite Hp, <- app_assoc. done.
Qed.

Section Moves.
Context (d : Z -> outcome (tree * node * tree)).

(** One step forward: to the node after, or up from the root of [t]. *)
Lemma move_next_located t st A x B :
  located t st A x B -> agrees d t -> NoDup (ids t) -> have_next_ x = true -> forall suf,
  match B with
  | [] => move_next d (st ++ suf) = climb_left d (root_id t) suf
  | y :: B' => exists st', move_next d (st ++ suf) = Ok (st' ++ suf) /\ located t st' (A ++ [x]) y B'
  end.
Proof.
  induction 1 as [l m r|l m r st A x B Hloc IH|l m r st A x B Hloc IH]; intros Hag Hnd Hn suf;
    destruct Hag as (Hm & Hagl & Hagr), (nodup_node _ _ _ Hnd) as (Hndl & Hndr & Hml & Hmr & Hdis).
  - cbn [app move_next]. rewrite Hm, Ok_bind, Hn. cbn [negb]. destruct (decide (r = Leaf)) as [->|Hr]; [done|].
    destruct (push_left_located r Hr) as (st & y & B & Hf & Hloc & Hp). rewrite Hf. destruct r; [done|]. cbn [is_null].
    exists (st ++ [message_id_ m]). rewrite Hp, <- app_assoc. split; [done|]. change (flatten l ++ [m]) with (flatten l ++ m :: []).
    by apply located_right.
  - specialize (IH Hagl Hndl Hn (message_id_ m :: suf)). rewrite <- app_assoc. cbn [app] in *. destruct B as [|y B].
    + exists [message_id_ m]. rewrite IH. cbn [climb_left app]. rewrite Hm, Ok_bind.
      rewrite points_to_root by (eapply located_not_leaf; done). split; [done|].
      rewrite <- (located_flatten _ _ _ _ _ Hloc). constructor.
    + destruct IH as (st' & -> & Hl). exists (st' ++ [message_id_ m]). rewrite <- app_assoc. split; [done|]. cbn. by apply located_left.
  - specialize (IH Hagr Hndr Hn (message_id_ m :: suf)). rewrite <- app_assoc. cbn [app] in *. destruct B as [|y B].
    + rewrite IH. cbn [climb_left root_id]. rewrite Hm, Ok_bind. rewrite points_to_other; [done|].
      pose proof (root_in r ltac:(eapply located_not_leaf; done)). set_solver.
    + destruct IH as (st' & -> & Hl). exists (st' ++ [message_id_ m]). rewrite <- app_assoc. split; [done|].
      rewrite <- (app_assoc _ (m :: A)). by apply located_right.
Qed.

Lemma move_previous_located t st A x B :
  located t st A x B -> agrees d t -> NoDup (ids t) -> have_previous_ x = true -> forall suf,
  (A = [] -> move_previous d (st ++ suf) = climb_right d (root_id t) suf) /\
  (forall A' y, A = A' ++ [y] -> exists st', move_previous d (st ++ suf) = Ok (st' ++ suf) /\ located t st' A' y (x :: B)).
Proof.
  induction 1 as [l m r|l m r st A x B Hloc IH|l m r st A x B Hloc IH]; intros Hag Hnd Hn suf;
    destruct Hag as (Hm & Hagl & Hagr), (nodup_node _ _ _ Hnd) as (Hndl & Hndr & Hml & Hmr & Hdis).
  - cbn [app move_previous]. rewrite Hm, Ok_bind, Hn. cbn [negb]. destruct (decide (l = Leaf)) as [->|Hl].
    { split; [done|]. intros [|] ? ?; discriminate. }
    destruct (push_right_located l Hl) as (st & A & y & Hf & Hloc & Hp). rewrite Hf. split; [by destruct A|].
    intros A' y' E. apply app_inj_tail in E as [<- <-]. destruct l; [done|]. cbn [is_null].
    exists (st ++ [message_id_ m]). rewrite Hp, <- app_assoc. split; [done|]. by apply (located_left _ m r _ _ _ []).
  - destruct (IH Hagl Hndl Hn (message_id_ m :: suf)) as [IH1 IH2]. rewrite <- app_assoc. cbn [app] in *. split.
    + intros HA. rewrite IH1 by done. cbn [climb_right root_id]. rewrite Hm, Ok_bind. rewrite points_to_other; [done|].
      pose proof (root_in l ltac:(eapply located_not_leaf; done)). set_solver.
    + intros A' y E. destruct (IH2 A' y E) as (st' & -> & Hl). exists (st' ++ [message_id_ m]). rewrite <- app_assoc. split; [done|].
      by apply (located_left _ m r _ _ _ (x :: B)).
  - destruct (IH Hagr Hndr Hn (message_id_ m :: suf)) as [IH1 IH2]. rewrite <- app_assoc. cbn [app] in *. split.
    + intros HA. by destruct (flatten l).
    + intros A' y E. destruct (decide (A = [])) as [->|HA].
      * apply app_inj_tail in E as [<- <-]. exists [message_id_ m]. rewrite IH1 by done. cbn [climb_right app]. rewrite Hm, Ok_bind.
        rewrite points_to_root by (eapply located_not_leaf; done). split; [done|].
        pose proof (located_flatten _ _ _ _ _ Hloc) as Hf. cbn in Hf. rewrite <- Hf. constructor.
      * destruct (exists_last HA) as (A2 & y2 & ->). rewrite (app_comm_cons A2), app_assoc in E. apply app_inj_tail in E as [<- <-].
        destruct (IH2 A2 y2 eq_refl) as (st' & -> & Hl). exists (st' ++ [message_id_ m]). rewrite <- app_assoc. split; [done|].
        by apply located_right.
Qed.
End Moves.

(** * Sorted trees *)

Definition sorted (t : tree) : Prop := StronglySorted Z.lt (ids t).
Definition ordinary (t : tree) : Prop := Forall (fun id => is_scheduled id = false) (ids t).

Lemma sorted_lt_app (A B : list Z) :
  StronglySorted Z.lt (A ++ B) <->
  StronglySorted Z.lt A /\ StronglySorted Z.lt B /\ forall x y, x ∈ A -> y ∈ B -> x < y.
Proof.
  induction A as [|a A IH]; cbn [app].
  - split; [intros Hs; split_and!; [constructor|done|set_solver]|by intros (_ & ? & _)].
  - split.
    + intros Hs. apply StronglySorted_inv in Hs as [Hs Hf]. apply IH in Hs as (HA & HB & Hd). apply Forall_app in Hf as [HfA HfB].
      rewrite Forall_forall in HfB. split_and!; [by constructor|done|]. intros x y [->|Hx]%elem_of_cons Hy; [by apply HfB|auto].
    + intros (HA & HB & Hd). apply StronglySorted_inv in HA as [HA Hf]. constructor.
      * apply IH. split_and!; [done..|]. intros x y Hx Hy. apply Hd; [by right|done].
      * apply Forall_app. split; [done|]. apply Forall_forall. intros y Hy. apply Hd; [by left|done].
Qed.

Lemma sorted_mid (A : list Z) x (B : list Z) :
  StronglySorted Z.lt (A ++ x :: B) <->
  StronglySorted Z.lt A /\ StronglySorted Z.lt B /\ (forall a, a ∈ A -> a < x) /\ (forall b, b ∈ B -> x < b) /\
  (forall a b, a ∈ A -> b ∈ B -> a < b).
Proof.
  rewrite sorted_lt_app. split.
  - intros (HA & HB & Hd). apply StronglySorted_inv in HB as [HB Hf]. rewrite Forall_forall in Hf.
    split_and!; [done..|intros a Ha; apply Hd; [done|by left]|done|intros a b Ha Hb; apply Hd; [done|by right]].
  - intros (HA & HB & HAx & HxB & Hd). split_and!; [done| |].
    + constructor; [done|]. by apply Forall_forall.
    + intros a b Ha [->|Hb]%elem_of_cons; auto.
Qed.

Lemma sorted_nodup (l : list Z) : StronglySorted Z.lt l -> NoDup l.
Proof.
  induction l as [|x l IH]; intros Hs; [constructor|]. apply StronglySorted_inv in Hs as [Hs Hf]. constructor; [|auto].
  intros Hx. rewrite Forall_forall in Hf. specialize (Hf x Hx). lia.
Qed.

Lemma sorted_node l m r :
  sorted (Node l m r) <->
  sorted l /\ sorted r /\ (forall a, a ∈ ids l -> a < message_id_ m) /\ (forall b, b ∈ ids r -> message_id_ m < b) /\
  (forall a b, a ∈ ids l -> b ∈ ids r -> a < b).
Proof. unfold sorted. rewrite ids_node. apply sorted_mid. Qed.

Lemma ordinary_node l m r : ordinary (Node l m r) <-> ordinary l /\ is_scheduled (message_id_ m) = false /\ ordinary r.
Proof. unfold ordinary. rewrite ids_node, Forall_app, Forall_cons. tauto. Qed.

Lemma resize_all (st : stack) : resize (length st) st = st.
Proof. unfold resize. by rewrite Nat.sub_diag. Qed.

Lemma resize_cons pos x (st : stack) : (pos <= length st)%nat -> resize pos (x :: st) = resize pos st.
Proof. intros Hp. unfold resize. cbn [length]. by replace (S (length st) - pos)%nat with (S (length st - pos)) by lia. Qed.

(** The nodes of a sorted tree on the two sides of an identifier. *)
Definition cut_at (id : Z) (t : tree) (A B : list node) : Prop :=
  flatten t = A ++ B /\ Forall (fun m => message_id_ m <= id) A /\ Forall (fun m => id < message_id_ m) B.

Lemma ids_below (P : Z -> Prop) t : (forall id, id ∈ ids t -> P id) -> Forall (fun m => P (message_id_ m)) (flatten t).
Proof. intros Hp. apply Forall_forall. intros m Hm. by apply Hp, elem_of_ids. Qed.

Lemma seek_located id t st pos :
  is_scheduled id = false -> sorted t -> ordinary t -> (pos <= length st)%nat ->
  exists A B, cut_at id t A B /\
    match last A with
    | None => seek t id st pos = Ok (resize pos st)
    | Some x => exists st' A', A = A' ++ [x] /\ seek t id st pos = Ok (st' ++ st) /\ located t st' A' x B
    end.
Proof.
  intros Hk. revert st pos. induction t as [|l IHl m r IHr]; intros st pos Hs Ho Hp.
  { exists [], []. by repeat split. }
  apply sorted_node in Hs as (Hsl & Hsr & Hlm & Hmr & Hlr). apply ordinary_node in Ho as (Hol & Hom & Hor).
  cbn [seek]. cbv zeta. rewrite ordinary_le, Ok_bind by done. destruct (Z.leb_spec (message_id_ m) id) as [Hle|Hgt].
  - destruct (IHr (message_id_ m :: st) (length (message_id_ m :: st)) Hsr Hor ltac:(done)) as (A & B & (Hf & HA & HB) & Hm).
    exists (flatten l ++ m :: A), B. split.
    + split_and!; [cbn [flatten]; by rewrite Hf, <- app_assoc| |done]. apply Forall_app. split; [|by constructor].
      apply (ids_below (fun x => x <= id)). intros x Hx. specialize (Hlm x Hx). lia.
    + destruct (last A) as [x|] eqn:EA.
      * destruct Hm as (st' & A' & -> & Hsk & Hloc). rewrite last_app. cbn [last]. rewrite (app_comm_cons A'), app_assoc, last_snoc.
        exists (st' ++ [message_id_ m]), (flatten l ++ m :: A'). rewrite Hsk, <- (app_assoc st'). split_and!; [done..|]. by apply located_right.
      * apply last_None in EA. subst A. rewrite last_snoc, Hm, resize_all. exists [message_id_ m], (flatten l). split_and!; [done..|].
        cbn in Hf. rewrite <- Hf. constructor.
  - destruct (IHl (message_id_ m :: st) pos Hsl Hol ltac:(cbn; lia)) as (A & B & (Hf & HA & HB) & Hm).
    exists A, (B ++ m :: flatten r). split.
    + split_and!; [cbn [flatten]; by rewrite Hf, <- app_assoc|done|]. apply Forall_app. split; [done|]. constructor; [done|].
      apply (ids_below (fun x => id < x)). intros x Hx. specialize (Hmr x Hx). lia.
    + destruct (last A) as [x|] eqn:EA.
      * destruct Hm as (st' & A' & -> & Hsk & Hloc). exists (st' ++ [message_id_ m]), A'. rewrite Hsk, <- app_assoc.
        split_and!; [done..|]. by apply located_left.
      * by rewrite Hm, resize_cons by done.
Qed.

(** The position of an iterator, or its end. *)
Definition position (t : tree) (it : stack) (A B : list node) : Prop :=
  match last A with None => it = [] | Some x => exists A', A = A' ++ [x] /\ located t it A' x B end.

Lemma get_iterator_position id t :
  is_scheduled id = false -> sorted t -> ordinary t ->
  exists it A B, get_iterator t id = Ok it /\ cut_at id t A B /\ position t it A B /\ current it = message_id_ <$> last A.
Proof.
  intros Hk Hs Ho. unfold get_iterator. rewrite Hk. cbn [negb check]. rewrite Ok_bind.
  destruct (seek_located id t [] 0 Hk Hs Ho ltac:(cbn; lia)) as (A & B & Hc & Hm). unfold position.
  destruct (last A) as [x|] eqn:EA.
  - destruct Hm as (st & A' & -> & -> & Hloc). exists st, (A' ++ [x]), B. rewrite app_nil_r, EA.
    destruct (located_stack _ _ _ _ _ Hloc) as (rest & ->). split_and!; [done..|by exists A'|done].
  - exists [], A, B. rewrite EA. by rewrite Hm.
Qed.

Lemma sorted_NoDup t : sorted t -> NoDup (ids t).
Proof. apply sorted_nodup. Qed.

Lemma located_deref t it A x B : located t it A x B -> sorted t -> node_at t (message_id_ x) = Ok x.
Proof.
  intros Hl Hs. pose proof (deref_agrees t (sorted_NoDup t Hs)) as Hag. unfold node_at. revert Hag. generalize (deref t) as d. clear Hs.
  induction Hl; intros d (Hm & Hl' & Hr); [by rewrite Hm|by apply IHHl|by apply IHHl].
Qed.

Lemma located_elem t m : m ∈ flatten t -> exists st A B, located t st A m B.
Proof.
  induction t as [|l IHl x r IHr]; cbn [flatten]; [set_solver|]. intros [Hm|[->|Hm]%elem_of_cons]%elem_of_app.
  - destruct (IHl Hm) as (st & A & B & Hl). eexists _, _, _. by apply located_left.
  - eexists _, _, _. constructor.
  - destruct (IHr Hm) as (st & A & B & Hl). eexists _, _, _. by apply located_right.
Qed.

Lemma node_at_elem t m : m ∈ flatten t -> sorted t -> node_at t (message_id_ m) = Ok m.
Proof. intros Hm Hs. destruct (located_elem t m Hm) as (st & A & B & Hl). by eapply located_deref. Qed.

Lemma increment_located t it A x B :
  located t it A x B -> sorted t ->
  exists it', increment t it = Ok it' /\
    match (if have_next_ x then B else []) with [] => it' = [] | y :: B' => located t it' (A ++ [x]) y B' end.
Proof.
  intros Hl Hs. pose proof (deref_agrees t (sorted_NoDup t Hs)) as Hag. unfold increment. destruct (have_next_ x) eqn:Hn.
  - pose proof (move_next_located _ _ _ _ _ _ Hl Hag (sorted_NoDup t Hs) Hn []) as H. rewrite app_nil_r in H. destruct B as [|y B].
    + rewrite H. by exists [].
    + destruct H as (st' & -> & Hl'). exists st'. rewrite app_nil_r. done.
  - destruct (located_stack _ _ _ _ _ Hl) as (rest & ->). pose proof (located_deref _ _ _ _ _ Hl Hs) as Hd. unfold node_at in Hd.
    simp_outcome. destruct x0 as [[l m] r]. simp_outcome. cbn [move_next]. rewrite H, Ok_bind, Hn. by exists [].
Qed.

Lemma decrement_located t it A x B :
  located t it A x B -> sorted t ->
  exists it', decrement t it = Ok it' /\ position t it' (if have_previous_ x then A else []) (x :: B).
Proof.
  intros Hl Hs. pose proof (deref_agrees t (sorted_NoDup t Hs)) as Hag. unfold decrement. destruct (have_previous_ x) eqn:Hn.
  - destruct (move_previous_located _ _ _ _ _ _ Hl Hag (sorted_NoDup t Hs) Hn []) as [H1 H2]. rewrite app_nil_r in *. unfold position.
    destruct (decide (A = [])) as [->|HA]; [rewrite H1 by done; by exists []|]. destruct (exists_last HA) as (A' & y & ->).
    destruct (H2 A' y eq_refl) as (st' & -> & Hl'). exists st'. rewrite app_nil_r, last_snoc. split; [done|by exists A'].
  - destruct (located_stack _ _ _ _ _ Hl) as (rest & ->). pose proof (located_deref _ _ _ _ _ Hl Hs) as Hd. unfold node_at in Hd.
    simp_outcome. destruct x0 as [[l m] r]. simp_outcome. cbn [move_previous]. rewrite H, Ok_bind, Hn. by exists [].
Qed.

(** * Writes *)

(** A write that keeps the identifier and the priority. *)
Definition keeps (f : node -> node) : Prop := forall m, message_id_ (f m) = message_id_ m /\ random_y_ (f m) = random_y_ m.

Lemma keeps_set_next b : keeps (set_next b).
Proof. by intros []. Qed.
Lemma keeps_set_previous b : keeps (set_previous b).
Proof. by intros []. Qed.
#[export] Hint Resolve keeps_set_next keeps_set_previous : core.

Lemma ids_update id f t : keeps f -> ids (update id f t) = ids t.
Proof.
  intros Hf. induction t as [|l IHl m r IHr]; cbn [update]; [done|]. rewrite !ids_node, IHl, IHr.
  destruct (message_id_ m =? id); [by destruct (Hf m) as [-> _]|done].
Qed.

Lemma update_absent id f t : id ∉ ids t -> update id f t = t.
Proof.
  induction t as [|l IHl m r IHr]; cbn [update]; [done|]. rewrite ids_node. intros Hn.
  rewrite IHl, IHr by set_solver. rewrite (proj2 (Z.eqb_neq _ _)) by set_solver. done.
Qed.

Lemma flatten_update t A x B f :
  flatten t = A ++ x :: B -> NoDup (ids t) -> flatten (update (message_id_ x) f t) = A ++ f x :: B.
Proof.
  assert (Hmap : flatten (update (message_id_ x) f t) = map (fun m => if message_id_ m =? message_id_ x then f m else m) (flatten t)).
  { induction t as [|l IHl m r IHr]; cbn [update flatten]; [done|]. by rewrite IHl, IHr, map_app. }
  intros Hf Hn. rewrite Hmap, Hf. unfold ids in Hn. rewrite Hf, map_app in Hn. cbn [map] in Hn.
  apply NoDup_app in Hn as (_ & HA & HB). apply NoDup_cons in HB as [HB _].
  assert (Hid : forall l, message_id_ x ∉ map message_id_ l -> map (fun m => if message_id_ m =? message_id_ x then f m else m) l = l).
  { induction l as [|m l IH]; cbn [map]; intros Hx; [done|]. rewrite IH by set_solver. by rewrite (proj2 (Z.eqb_neq _ _)) by set_solver. }
  rewrite map_app. cbn [map]. rewrite Z.eqb_refl, !Hid; [done|done|]. intros Hx. by apply (HA _ Hx), list_elem_of_here.
Qed.

(** * Priorities *)

Fixpoint below (y : Z) (t : tree) : Prop :=
  match t with Leaf => True | Node l m r => random_y_ m <= y /\ below y l /\ below y r end.

Fixpoint heap (t : tree) : Prop :=
  match t with
  | Leaf => True
  | Node l m r => below (random_y_ m) l /\ below (random_y_ m) r /\ heap l /\ heap r
  end.

Definition hashed (t : tree) : Prop := Forall (fun m => random_y_ m = int32 (message_id_hash (message_id_ m))) (flatten t).

Lemma below_mono y y' t : y <= y' -> below y t -> below y' t.
Proof. intros Hy. induction t; cbn [below]; [done|]. intros (? & ? & ?). split_and!; [lia|auto..]. Qed.

Lemma below_flatten y t : below y t <-> Forall (fun m => random_y_ m <= y) (flatten t).
Proof.
  induction t as [|l IHl m r IHr]; cbn [below flatten]; [by split; constructor|]. rewrite Forall_app, Forall_cons, IHl, IHr. tauto.
Qed.

Lemma heap_update id f t : keeps f -> heap t -> heap (update id f t).
Proof.
  intros Hf.
  assert (Hb : forall y u, below y u -> below y (update id f u)).
  { intros y. induction u as [|l IHl m r IHr]; cbn [update below]; [done|]. intros (Hm & Hl & Hr).
    split_and!; [|auto..]. destruct (message_id_ m =? id); [by destruct (Hf m) as [_ ->]|done]. }
  induction t as [|l IHl m r IHr]; cbn [update heap]; [done|]. intros (Hl & Hr & Hhl & Hhr).
  assert (E : random_y_ (if message_id_ m =? id then f m else m) = random_y_ m) by (destruct (message_id_ m =? id); [apply Hf|done]).
  rewrite E. auto.
Qed.

Lemma hashed_update id f t : keeps f -> hashed t -> hashed (update id f t).
Proof.
  intros Hf. unfold hashed. induction t as [|l IHl m r IHr]; cbn [update flatten]; [done|].
  rewrite !Forall_app, !Forall_cons. intros (Hl & Hm & Hr). split_and!; [auto| |auto].
  destruct (message_id_ m =? id); [destruct (Hf m) as [-> ->]|]; done.
Qed.

(** * Slots *)

(** [slot path t A s B]: [path] leads to the subtree [s] of [t]; [A] and [B] are
    the nodes before and after it, and [y] bounds what it may hold. *)
Inductive slot : list side -> tree -> list node -> tree -> list node -> Prop :=
| slot_here t : slot [] t [] t []
| slot_left p l m r A s B : slot p l A s B -> slot (GoLeft :: p) (Node l m r) A s (B ++ m :: flatten r)
| slot_right p l m r A s B : slot p r A s B -> slot (GoRight :: p) (Node l m r) (flatten l ++ m :: A) s B.

Lemma slot_flatten p t A s B : slot p t A s B -> flatten t = A ++ flatten s ++ B.
Proof.
  induction 1; cbn [flatten]; [by rewrite app_nil_r|by rewrite IHslot, <- !app_assoc|by rewrite IHslot, <- !app_assoc].
Qed.

Lemma slot_replace p t A s B f : slot p t A s B -> flatten (replace_at p f t) = A ++ flatten (f s) ++ B.
Proof.
  induction 1; cbn [flatten replace_at]; [by rewrite app_nil_r|by rewrite IHslot, <- !app_assoc|by rewrite IHslot, <- !app_assoc].
Qed.

Lemma slot_sub p t A s B : slot p t A s B -> (sorted t -> sorted s) /\ (heap t -> heap s).
Proof.
  induction 1 as [t|p l m r A s B Hs [IH1 IH2]|p l m r A s B Hs [IH1 IH2]]; [done|..].
  all: split; [intros (? & ? & _)%sorted_node|intros (_ & _ & ? & ?)]; auto.
Qed.

Lemma slot_heap p t A s B f :
  slot p t A s B -> heap t -> heap (f s) -> (forall y, below y s -> below y (f s)) ->
  heap (replace_at p f t) /\ forall y, below y t -> below y (replace_at p f t).
Proof.
  induction 1 as [t|p l m r A s B Hs IH|p l m r A s B Hs IH]; intros Hh Hf Hb; [by split|..];
    destruct Hh as (Hl & Hr & Hhl & Hhr); cbn [replace_at heap below].
  - destruct (IH Hhl Hf Hb) as [H1 H2]. split; [auto|]. intros y (? & ? & ?). auto.
  - destruct (IH Hhr Hf Hb) as [H1 H2]. split; [auto|]. intros y (? & ? & ?). auto.
Qed.

Lemma heap_below m l r y : heap (Node l m r) -> random_y_ m < y -> Forall (fun m => random_y_ m < y) (flatten (Node l m r)).
Proof.
  intros (Hl & Hr & _) Hy. cbn [flatten]. apply Forall_app. split; [|constructor; [done|]].
  all: apply below_flatten in Hl, Hr; eapply Forall_impl; [done|]; cbn; lia.
Qed.

Lemma insert_position_spec t y id :
  sorted t -> heap t ->
  match insert_position t y id with
  | Ok p => exists A s B, slot p t A s B /\ Forall (fun m => message_id_ m < id) A /\ Forall (fun m => id < message_id_ m) B /\
      Forall (fun m => random_y_ m < y) (flatten s)
  | Crash => id ∈ ids t
  | Err _ => False
  end.
Proof.
  induction t as [|l IHl m r IHr]; intros Hs Hh; cbn [insert_position].
  { exists [], Leaf, []. repeat constructor. }
  destruct (Z.leb_spec y (random_y_ m)) as [Hy|Hy].
  2: { exists [], (Node l m r), []. split_and!; [constructor..|]. by apply heap_below. }
  apply sorted_node in Hs as (Hsl & Hsr & Hlm & Hmr & Hlr). destruct Hh as (_ & _ & Hhl & Hhr).
  specialize (IHl Hsl Hhl). specialize (IHr Hsr Hhr). rewrite ids_node.
  destruct (Z.ltb_spec (message_id_ m) id) as [Hlt|Hge].
  - destruct (insert_position r y id) as [p| |]; [rewrite Ok_bind|done|set_solver].
    destruct IHr as (A & s & B & Hp & HA & HB & Hfs). exists (flatten l ++ m :: A), s, B. split_and!; [by constructor| |done..].
    apply Forall_app. split; [|by constructor]. apply (ids_below (fun x => x < id)). intros x Hx. specialize (Hlm x Hx). lia.
  - destruct (Z.eqb_spec (message_id_ m) id) as [E|Hne]; [set_solver|].
    destruct (insert_position l y id) as [p| |]; [rewrite Ok_bind|done|set_solver].
    destruct IHl as (A & s & B & Hp & HA & HB & Hfs). exists A, s, (B ++ m :: flatten r). split_and!; [by constructor|done| |done].
    apply Forall_app. split; [done|]. constructor; [lia|]. apply (ids_below (fun x => id < x)). intros x Hx. specialize (Hmr x Hx). lia.
Qed.

Lemma insert_position_update t y id id' f : keeps f -> insert_position (update id' f t) y id = insert_position t y id.
Proof.
  intros Hf. induction t as [|l IHl m r IHr]; cbn [update insert_position]; [done|]. rewrite IHl, IHr.
  destruct (message_id_ m =? id'); [by destruct (Hf m) as [-> ->]|done].
Qed.

Lemma split_spec t id :
  sorted t -> heap t ->
  let '(a, b) := split t id in
  flatten t = flatten a ++ flatten b /\
  Forall (fun m => message_id_ m < id) (flatten a) /\ Forall (fun m => id <= message_id_ m) (flatten b) /\
  heap a /\ heap b /\ forall y, below y t -> below y a /\ below y b.
Proof.
  induction t as [|l IHl m r IHr]; intros Hs Hh; cbn [split]; [by repeat constructor|].
  apply sorted_node in Hs as (Hsl & Hsr & Hlm & Hmr & Hlr). destruct Hh as (Hbl & Hbr & Hhl & Hhr).
  destruct (Z.ltb_spec (message_id_ m) id) as [Hlt|Hge].
  - specialize (IHr Hsr Hhr). destruct (split r id) as [a b]. destruct IHr as (Hf & Ha & Hb & Hha & Hhb & Hy).
    cbn [flatten heap below]. rewrite Hf, <- app_assoc. split_and!; try done; [|apply Hy, Hbr|].
    + apply Forall_app. split; [|by constructor]. apply (ids_below (fun x => x < id)). intros x Hx. specialize (Hlm x Hx). lia.
    + intros y (? & ? & H3). destruct (Hy y H3). auto.
  - specialize (IHl Hsl Hhl). destruct (split l id) as [a b]. destruct IHl as (Hf & Ha & Hb & Hha & Hhb & Hy).
    cbn [flatten heap below]. rewrite Hf, <- app_assoc. split_and!; try done; [|apply Hy, Hbl|].
    + apply Forall_app. split; [done|]. constructor; [done|]. apply (ids_below (fun x => id <= x)). intros x Hx. specialize (Hmr x Hx). lia.
    + intros y (? & H2 & ?). destruct (Hy y H2). auto.
Qed.

Lemma insert_heap t y id p m :
  sorted t -> heap t -> insert_position t y id = Ok p -> random_y_ m = y ->
  let f := fun cur => let '(left_, right_) := split cur id in Node left_ m right_ in
  heap (replace_at p f t) /\ forall y', y <= y' -> below y' t -> below y' (replace_at p f t).
Proof.
  intros Hs Hh Hp <- f. revert p Hp. induction t as [|l IHl mt r IHr]; cbn [insert_position]; intros p Hp.
  { simp_outcome. cbn. by split_and!. }
  assert (Hhd : heap (Node l mt r)) by done.
  destruct (Z.leb_spec (random_y_ m) (random_y_ mt)) as [Hle|Hlt].
  2: { simp_outcome. cbn [replace_at]. unfold f. pose proof (split_spec _ id Hs Hh) as Hsp.
       destruct (split (Node l mt r) id) as [a b]. destruct Hsp as (_ & _ & _ & Ha & Hb & Hy').
       assert (Hbel : below (random_y_ m) (Node l mt r)).
       { apply below_flatten. eapply Forall_impl; [by apply heap_below|]. cbn. lia. }
       destruct (Hy' _ Hbel). cbn [heap below]. split; [auto|]. intros y' Hyy Hbt. destruct (Hy' y' Hbt). split_and!; [lia|auto..]. }
  apply sorted_node in Hs as (Hsl & Hsr & _). destruct Hh as (Hbl & Hbr & Hhl & Hhr).
  destruct (message_id_ mt <? id); [|destruct (message_id_ mt =? id); [done|]]; simp_outcome; cbn [replace_at heap below].
  - destruct (IHr Hsr Hhr _ H) as [H1 H2]. split; [auto|]. intros y' Hyy (? & ? & ?). auto.
  - destruct (IHl Hsl Hhl _ H) as [H1 H2]. split; [auto|]. intros y' Hyy (? & ? & ?). auto.
Qed.

Lemma merge_spec l r :
  heap l -> heap r ->
  flatten (merge l r) = flatten l ++ flatten r /\ heap (merge l r) /\
  forall y, below y l -> below y r -> below y (merge l r).
Proof.
  revert r. induction l as [|ll IHll lm lr IHlr]; intros r Hl.
  { induction r as [|rl IHrl rm rr IHrr]; intros Hr; [done|]. destruct Hr as (Hb & Hbr & Hhl & Hhr).
    destruct (IHrl Hhl) as (Hf & Hh & Hy). change (merge Leaf (Node rl rm rr)) with (Node (merge Leaf rl) rm rr).
    cbn [flatten heap below]. rewrite Hf. split_and!; try done; [by apply Hy|]. intros y _ (? & ? & ?). auto. }
  destruct Hl as (Hbll & Hblr & Hhll & Hhlr). induction r as [|rl IHrl rm rr IHrr]; intros Hr.
  { change (merge (Node ll lm lr) Leaf) with (Node ll lm (merge lr Leaf)). destruct (IHlr Leaf Hhlr Hr) as (Hf & Hh & Hy).
    cbn [flatten heap below] in *. rewrite Hf, !app_nil_r. split_and!; try done; [by apply Hy|]. intros y (? & ? & ?) _. auto. }
  assert (Hr' := Hr). destruct Hr as (Hbrl & Hbrr & Hhrl & Hhrr).
  change (merge (Node ll lm lr) (Node rl rm rr)) with
    (if random_y_ lm <? random_y_ rm then Node (merge (Node ll lm lr) rl) rm rr else Node ll lm (merge lr (Node rl rm rr))).
  destruct (Z.ltb_spec (random_y_ lm) (random_y_ rm)) as [Hlt|Hge].
  - destruct (IHrl Hhrl) as (Hf & Hh & Hy). cbn [flatten heap below] in *. rewrite Hf, <- app_assoc.
    split_and!; try done; [|intros y ? (? & ? & ?); auto]. apply Hy; [|done].
    split_and!; [lia|eapply below_mono; [|done]; lia..].
  - destruct (IHlr (Node rl rm rr) Hhlr Hr') as (Hf & Hh & Hy). cbn [flatten heap below] in *. rewrite Hf, <- app_assoc.
    split_and!; try done; [|intros y (? & ? & ?) ?; auto]. apply Hy; [done|].
    split_and!; [lia|eapply below_mono; [|done]; lia..].
Qed.

Lemma erase_position_spec t id :
  sorted t ->
  match erase_position t id with
  | Ok (p, m) => message_id_ m = id /\ exists A l r B, slot p t A (Node l m r) B
  | Crash => id ∉ ids t
  | Err _ => False
  end.
Proof.
  induction t as [|l IHl m r IHr]; intros Hs; cbn [erase_position]; [set_solver|].
  apply sorted_node in Hs as (Hsl & Hsr & Hlm & Hmr & Hlr). specialize (IHl Hsl). specialize (IHr Hsr). rewrite ids_node.
  destruct (Z.ltb_spec (message_id_ m) id) as [Hlt|Hge].
  - destruct (erase_position r id) as [[p x]| |]; [rewrite Ok_bind|done|].
    + destruct IHr as (E & A & l' & r' & B & Hp). split; [done|]. eexists _, _, _, _. by constructor.
    + cbn. intros [Hx|[Hx|Hx]%elem_of_cons]%elem_of_app; [specialize (Hlm _ Hx); lia|lia|done].
  - destruct (Z.ltb_spec id (message_id_ m)) as [Hlt|Hge'].
    + destruct (erase_position l id) as [[p x]| |]; [rewrite Ok_bind|done|].
      * destruct IHl as (E & A & l' & r' & B & Hp). split; [done|]. eexists _, _, _, _. by constructor.
      * cbn. intros [Hx|[Hx|Hx]%elem_of_cons]%elem_of_app; [done|lia|specialize (Hmr _ Hx); lia].
    + split; [lia|]. eexists _, _, _, _. constructor.
Qed.

Lemma erase_position_update t id id' f p m :
  keeps f -> erase_position t id = Ok (p, m) ->
  erase_position (update id' f t) id = Ok (p, if message_id_ m =? id' then f m else m).
Proof.
  intros Hf. revert p. induction t as [|l IHl mt r IHr]; intros p; cbn [update erase_position]; [done|].
  replace (message_id_ (if message_id_ mt =? id' then f mt else mt)) with (message_id_ mt)
    by (destruct (message_id_ mt =? id'); [by destruct (Hf mt)|done]).
  intros He. destruct (message_id_ mt <? id); [|destruct (id <? message_id_ mt)]; simp_outcome.
  - destruct x as [p' x]. simp_outcome. by rewrite (IHr _ H), Ok_bind.
  - destruct x as [p' x]. simp_outcome. by rewrite (IHl _ H), Ok_bind.
  - done.
Qed.
