(* ===== verification/MessageChain.v ===== *)
(** The order of a chat's messages as a chain, and the proof that the treap of
    OrderedMessages implements it.

    A [chain] has the identifiers in increasing order, each with its link: whether
    the next one is known to be its neighbour.  Two messages that are linked
    have no message of the chat between them; a missing link is a possible gap. *)
From S2P Require Import Prelude Bytes MessageId OrderedMessages OrderedMessagesSpec.
#[local] Open Scope Z_scope.

Notation chain := (list (Z * bool)) (only parsing).
Implicit Types L : chain.

(** * The operations of a chain *)

Definition older (id : Z) L : chain := filter (fun e => e.1 < id) L.
Definition newer (id : Z) L : chain := filter (fun e => id < e.1) L.

(** The link of the last message, and a new value for it. *)
Definition link L : bool := match last L with Some e => e.2 | None => false end.
Fixpoint set_link (b : bool) L : chain :=
  match L with
  | [] => []
  | [(x, _)] => [(x, b)]
  | e :: L => e :: set_link b L
  end.

Fixpoint link_of (id : Z) L : option bool :=
  match L with [] => None | (x, n) :: L => if x =? id then Some n else link_of id L end.

(** A message that the client itself sends is not attached to the next one. *)
Definition chain_insert_before (id : Z) (lo hi : chain) : outcome chain :=
  if negb (is_valid id) then Crash
  else Ok (lo ++ (id, negb (bool_decide (get_type id = YetUnsent)) && negb (bool_decide (hi = []))) :: hi).

Definition chain_insert (id : Z) (auto_attach : bool) (last_message_id : Z) L : outcome chain :=
  if is_scheduled id || bool_decide (link_of id L <> None) then Crash
  else
    let lo := older id L in
    let hi := newer id L in
    if auto_attach then
      match last lo with
      | Some (previous, linked) =>
          if linked || is_valid last_message_id && (last_message_id <=? previous)
          then Ok (set_link true lo ++ (id, linked) :: hi)
          else chain_insert_before id lo hi
      | None => chain_insert_before id lo hi
      end
    else Ok (set_link false lo ++ (id, false) :: hi).

(** Deleting a message of the middle leaves its neighbours linked; forgetting it
    does not. *)
Definition chain_erase (id : Z) (only_from_memory : bool) L : outcome chain :=
  match link_of id L with
  | None => Crash
  | Some linked => Ok (set_link (link (older id L) && linked && negb only_from_memory) (older id L) ++ newer id L)
  end.

Definition chain_attach_previous (id : Z) L : outcome chain :=
  match link_of id L with
  | Some linked =>
      if negb (is_valid id) then Crash
      else if link (older id L) then Ok L
      else if bool_decide (older id L = []) then Crash
      else Ok (set_link true (older id L) ++ (id, linked) :: newer id L)
  | None => Crash
  end.

Definition chain_attach_next (id : Z) L : outcome chain :=
  match link_of id L with
  | Some linked =>
      if negb (is_valid id) then Crash
      else if linked then Ok L
      else if bool_decide (newer id L = []) then Crash
      else Ok (older id L ++ (id, true) :: newer id L)
  | None => Crash
  end.

(** Calls of the treap, and what they are for a chain. *)
Inductive call :=
| Insert (message_id : Z) (auto_attach : bool) (old_last_message_id : Z)
| Erase (message_id : Z) (only_from_memory : bool)
| AttachToPrevious (message_id : Z)
| AttachToNext (message_id : Z).

Definition tree_call (c : call) (t : tree) : outcome tree :=
  match c with
  | Insert id auto last => insert id auto last t
  | Erase id only_from_memory => erase id only_from_memory t
  | AttachToPrevious id => attach_message_to_previous id t
  | AttachToNext id => attach_message_to_next id t
  end.

Definition chain_call (c : call) L : outcome chain :=
  match c with
  | Insert id auto last => chain_insert id auto last L
  | Erase id only_from_memory => chain_erase id only_from_memory L
  | AttachToPrevious id => chain_attach_previous id L
  | AttachToNext id => chain_attach_next id L
  end.

Definition run {S} (step : call -> S -> outcome S) (calls : list call) (s : S) : outcome S :=
  foldl (fun r c => s ← r; step c s) (Ok s) calls.

(** * Representation *)

Definition flags (m : node) : Z * bool * bool := (message_id_ m, have_previous_ m, have_next_ m).

Fixpoint entries (p : bool) L : list (Z * bool * bool) :=
  match L with [] => [] | (id, n) :: L => (id, p, n) :: entries n L end.

Definition link_from (p : bool) L : bool := match last L with Some e => e.2 | None => p end.

Record good (t : tree) : Prop := {
  good_sorted : sorted t;
  good_ordinary : ordinary t;
  good_heap : heap t;
  good_hashed : hashed t }.

(** The nodes of the treap are the messages of the chain, with the flags that
    the links say. *)
Record represents (t : tree) L : Prop := {
  rep_good : good t;
  rep_flags : map flags (flatten t) = entries false L;
  rep_end : link L = false }.

Lemma entries_app p L L' : entries p (L ++ L') = entries p L ++ entries (link_from p L) L'.
Proof.
  revert p. induction L as [|[id n] L IH]; intros p; cbn [entries app]; [done|]. rewrite IH. f_equal. f_equal. f_equal.
  unfold link_from. rewrite last_cons. by destruct (last L).
Qed.

Lemma entries_ids p L : map (fun e => e.1.1) (entries p L) = map fst L.
Proof. revert p. induction L as [|[id n] L IH]; intros p; cbn [entries map]; [done|]. by rewrite IH. Qed.

Lemma flags_ids l : map (fun e => e.1.1) (map flags l) = map message_id_ l.
Proof. rewrite map_map. done. Qed.

Lemma flags_split A B p L :
  map flags (A ++ B) = entries p L ->
  exists LA LB, L = LA ++ LB /\ map flags A = entries p LA /\ map flags B = entries (link_from p LA) LB.
Proof.
  revert p L. induction A as [|a A IH]; intros p L; cbn [app map].
  - intros E. exists [], L. done.
  - destruct L as [|[id n] L]; [done|]. cbn [entries]. intros E. injection E as <- <- <- E. destruct (IH _ _ E) as (LA & LB & -> & EA & EB).
    exists ((message_id_ a, have_next_ a) :: LA), LB. split; [done|]. cbn [entries]. split; [by rewrite <- EA|].
    rewrite EB. f_equal. unfold link_from. rewrite last_cons. by destruct (last LA).
Qed.

Lemma rep_ids t L : represents t L -> ids t = map fst L.
Proof. intros [_ Hf _]. unfold ids. by rewrite <- flags_ids, Hf, entries_ids. Qed.

Lemma rep_split t L A B :
  represents t L -> flatten t = A ++ B ->
  exists LA LB, L = LA ++ LB /\ map flags A = entries false LA /\ map flags B = entries (link LA) LB /\
    map message_id_ A = map fst LA /\ map message_id_ B = map fst LB.
Proof.
  intros [_ Hf _] E. rewrite E in Hf. destruct (flags_split _ _ _ _ Hf) as (LA & LB & -> & HA & HB). exists LA, LB.
  split_and!; [done..| |]; by rewrite <- flags_ids, ?HA, ?HB, entries_ids.
Qed.

Lemma rep_empty : represents Leaf [].
Proof. by repeat constructor. Qed.

(** * Chains cut at an identifier *)

Lemma fst_bound (P : Z -> Prop) (A : list node) L : map message_id_ A = map fst L -> Forall (fun m => P (message_id_ m)) A -> Forall (fun e => P e.1) L.
Proof.
  revert L. induction A as [|a A IH]; intros [|e L] E HA; try done. cbn [map] in E. injection E as Ea E.
  apply Forall_cons in HA as [Ha HA]. constructor; [by rewrite <- Ea|auto].
Qed.

Lemma cut_chain id LA LB :
  Forall (fun e => e.1 < id) LA -> Forall (fun e => id < e.1) LB ->
  older id (LA ++ LB) = LA /\ newer id (LA ++ LB) = LB /\ link_of id (LA ++ LB) = None.
Proof.
  intros HA HB. unfold older, newer. rewrite !filter_app.
  rewrite (filter_all _ LA), (filter_none _ LB), (filter_none _ LA), (filter_all _ LB); try done.
  - rewrite app_nil_r. split_and!; [done..|].
    assert (Hn : Forall (fun e => e.1 <> id) (LA ++ LB)).
    { apply Forall_app. split; (eapply Forall_impl; [done|]; cbn; lia). }
    induction Hn as [|[x n] L Hx Hn IH]; cbn [link_of]; [done|]. by rewrite (proj2 (Z.eqb_neq _ _)).
  - eapply Forall_impl; [done|]. cbn. lia.
  - eapply Forall_impl; [done|]. cbn. lia.
Qed.

Lemma cut_chain_at id n LA LB :
  Forall (fun e => e.1 < id) LA -> Forall (fun e => id < e.1) LB ->
  older id (LA ++ (id, n) :: LB) = LA /\ newer id (LA ++ (id, n) :: LB) = LB /\ link_of id (LA ++ (id, n) :: LB) = Some n.
Proof.
  intros HA HB. destruct (cut_chain id LA LB HA HB) as (Ho & Hn & Hl). unfold older, newer in *. rewrite !filter_app in *.
  rewrite !filter_cons_False by (cbn; lia). split_and!; [done..|]. clear -HA.
  induction HA as [|[x k] LA Hx HA IH]; cbn [app link_of]; [by rewrite Z.eqb_refl|].
  rewrite (proj2 (Z.eqb_neq _ _)); [done|]. cbn in Hx. lia.
Qed.

Lemma set_link_snoc b L x n : set_link b (L ++ [(x, n)]) = L ++ [(x, b)].
Proof. induction L as [|[y k] L IH]; [done|]. cbn [app set_link]. rewrite IH. by destruct L. Qed.

Lemma link_snoc L x n : link (L ++ [(x, n)]) = n.
Proof. unfold link. by rewrite last_snoc. Qed.

Lemma set_link_same L : set_link (link L) L = L.
Proof. destruct L as [|[x n] L _] using rev_ind; [done|]. by rewrite set_link_snoc, link_snoc. Qed.

Lemma link_app L L' : L' <> [] -> link (L ++ L') = link L'.
Proof. intros Hn. destruct (exists_last Hn) as (L2 & [x n] & ->). by rewrite app_assoc, !link_snoc. Qed.

(** * Trees after a call *)

Lemma good_update id f t : keeps f -> good t -> good (update id f t).
Proof.
  intros Hf [Hs Ho Hh Hy]. constructor; [| |by apply heap_update|by apply hashed_update].
  - unfold sorted. by rewrite ids_update.
  - unfold ordinary. by rewrite ids_update.
Qed.

Lemma cut_unique (P : node -> Prop) A B A' B' :
  A ++ B = A' ++ B' -> Forall P A -> Forall (fun m => ~ P m) B -> Forall P A' -> Forall (fun m => ~ P m) B' -> A = A' /\ B = B'.
Proof.
  revert A'. induction A as [|a A IH]; intros [|a' A'] E HA HB HA' HB'; cbn [app] in E.
  - done.
  - subst B. apply Forall_cons in HB as [? _]. by apply Forall_cons in HA' as [? _].
  - subst B'. apply Forall_cons in HB' as [? _]. by apply Forall_cons in HA as [? _].
  - injection E as -> E. apply Forall_cons in HA as [_ HA]. apply Forall_cons in HA' as [_ HA'].
    by destruct (IH A' E HA HB HA' HB') as [-> ->].
Qed.

(** The insertion of a node once the flags are set. *)
Lemma insert_finish t id p m A B :
  good t -> flatten t = A ++ B -> Forall (fun m => message_id_ m < id) A -> Forall (fun m => id < message_id_ m) B ->
  is_scheduled id = false -> message_id_ m = id -> random_y_ m = int32 (message_id_hash id) ->
  insert_position t (random_y_ m) id = Ok p ->
  let t' := replace_at p (fun cur => let '(left_, right_) := split cur id in Node left_ m right_) t in
  good t' /\ flatten t' = A ++ m :: B.
Proof.
  intros [Hs Ho Hh Hy] Hf HA HB Hk Hid Hr Hp t'.
  assert (Hflat : flatten t' = A ++ m :: B).
  { pose proof (insert_position_spec t (random_y_ m) id Hs Hh) as Hsp. rewrite Hp in Hsp. destruct Hsp as (A0 & s & B0 & Hsl & HA0 & HB0 & _).
    unfold t'. rewrite (slot_replace _ _ _ _ _ _ Hsl). pose proof (slot_flatten _ _ _ _ _ Hsl) as Hft.
    assert (Hsub : sorted s /\ heap s).
    { destruct (slot_sub _ _ _ _ _ Hsl). auto. }
    pose proof (split_spec s id (proj1 Hsub) (proj2 Hsub)) as Hspl. destruct (split s id) as [a b]. destruct Hspl as (Hsf & Ha & Hb & _).
    cbn [flatten]. rewrite Hf, Hsf in Hft.
    destruct (cut_unique (fun m => message_id_ m < id) A B (A0 ++ flatten a) (flatten b ++ B0)) as [-> ->].
    - by rewrite Hft, <- !app_assoc.
    - done.
    - eapply Forall_impl; [done|]. cbn. lia.
    - by apply Forall_app.
    - apply Forall_app. split; (eapply Forall_impl; [done|]; cbn; lia).
    - by rewrite <- !app_assoc. }
  split; [|done]. assert (Hids : forall l, ids l = map message_id_ (flatten l)) by done.
  unfold sorted, ordinary, hashed in *. rewrite Hids, Hf, map_app in Hs, Ho. rewrite Hf in Hy.
  constructor; unfold sorted, ordinary, hashed; rewrite ?Hids, ?Hflat, ?map_app; cbn [map].
  - apply sorted_lt_app in Hs as (HsA & HsB & Hd). apply sorted_mid. rewrite Hid. split_and!; [done..| | |done].
    + intros a Ha. apply list_elem_of_In, in_map_iff in Ha as (x & <- & Hx). apply list_elem_of_In in Hx. rewrite Forall_forall in HA. by apply HA.
    + intros b Hb. apply list_elem_of_In, in_map_iff in Hb as (x & <- & Hx). apply list_elem_of_In in Hx. rewrite Forall_forall in HB. by apply HB.
  - apply Forall_app in Ho as [HoA HoB]. apply Forall_app. split; [done|]. constructor; [by rewrite Hid|done].
  - apply insert_heap with (y := random_y_ m); [| done..]. unfold sorted. by rewrite Hids, Hf, map_app.
  - apply Forall_app in Hy as [HyA HyB]. apply Forall_app. split; [done|]. constructor; [by rewrite Hr, Hid|done].
Qed.

(** The place of an identifier in a tree and in its chain. *)
Lemma rep_cut t L id A B :
  represents t L -> cut_at id t A B ->
  (link_of id L = None /\ id ∉ ids t /\ Forall (fun m => message_id_ m < id) A /\
     map flags A = entries false (older id L) /\ map flags B = entries (link (older id L)) (newer id L) /\
     L = older id L ++ newer id L) \/
  (exists A' x n, A = A' ++ [x] /\ message_id_ x = id /\ link_of id L = Some n /\ have_next_ x = n /\ have_previous_ x = link (older id L) /\
     map flags A' = entries false (older id L) /\ map flags B = entries n (newer id L) /\ L = older id L ++ (id, n) :: newer id L).
Proof.
  intros Hrep (Hf & HA & HB). destruct (rep_split _ _ _ _ Hrep Hf) as (LA & LB & HL & HfA & HfB & HiA & HiB).
  pose proof (good_sorted _ (rep_good _ _ Hrep)) as Hs. unfold sorted, ids in Hs. rewrite Hf, map_app in Hs.
  pose proof (fst_bound (fun x => id < x) _ _ HiB HB) as HBc.
  assert (Hcase : (exists A' x, A = A' ++ [x] /\ message_id_ x = id) \/ (forall A' x, A = A' ++ [x] -> message_id_ x <> id)).
  { destruct A as [|x A _] using rev_ind; [right; by intros [|]|]. destruct (decide (message_id_ x = id)); [left; by exists A, x|].
    right. intros A' y E. by apply app_inj_tail in E as [_ <-]. }
  destruct Hcase as [(A' & x & -> & Hid)|Hno].
  - right. destruct (flags_split A' [x] false LA) as (LA' & LX & -> & HA' & HX); [done|]. destruct LX as [|[i n] [|[] ?]]; cbn in HX; try discriminate HX.
    injection HX as Hi Hp Hn. rewrite Hid in Hi. subst i. rewrite map_app in Hs. cbn [map] in Hs. rewrite <- app_assoc in Hs. cbn [app] in Hs.
    apply sorted_mid in Hs as (_ & _ & Hlt & _). rewrite Hid in Hlt.
    assert (HAc : Forall (fun e => e.1 < id) LA').
    { apply (fst_bound (fun x => x < id) A'); [by rewrite <- flags_ids, HA', entries_ids|]. apply Forall_forall. intros y Hy.
      apply Hlt. apply list_elem_of_In, in_map, list_elem_of_In, Hy. }
    rewrite <- app_assoc in HL. cbn [app] in HL.
    destruct (cut_chain_at id n LA' LB HAc HBc) as (Ho & Hn' & Hlk). rewrite <- HL in Ho, Hn', Hlk.
    exists A', x, n. rewrite link_snoc in HfB. rewrite Ho, Hn'. by split_and!.
  - left. assert (HA' : Forall (fun m => message_id_ m < id) A).
    { destruct A as [|x A _] using rev_ind; [constructor|]. specialize (Hno A x eq_refl). apply Forall_app in HA as [HA Hx].
      apply Forall_cons in Hx as [Hx _]. assert (Hx' : message_id_ x < id) by lia.
      rewrite map_app, <- app_assoc in Hs. cbn [map app] in Hs. apply sorted_mid in Hs as (_ & _ & Hlt & _).
      apply Forall_app. split; [|by constructor]. apply Forall_forall. intros y Hy. cbn.
      assert (message_id_ y < message_id_ x) by (apply Hlt; apply list_elem_of_In, in_map, list_elem_of_In, Hy). lia. }
    destruct (cut_chain id LA LB (fst_bound (fun x => x < id) _ _ HiA HA') HBc) as (Ho & Hn & Hlk). rewrite <- HL in Ho, Hn, Hlk.
    rewrite Ho, Hn. split_and!; try done. unfold ids. rewrite Hf, map_app. intros [Hi|Hi]%elem_of_app;
      apply list_elem_of_In, in_map_iff in Hi as (y & Hy & Hi); apply list_elem_of_In in Hi; rewrite Forall_forall in HA', HB;
      [specialize (HA' y Hi)|specialize (HB y Hi)]; lia.
Qed.

Lemma flags_snoc A x L :
  map flags (A ++ [x]) = entries false L ->
  exists L', L = L' ++ [(message_id_ x, have_next_ x)] /\ map flags A = entries false L' /\ have_previous_ x = link L'.
Proof.
  intros E. destruct (flags_split _ _ _ _ E) as (L' & LX & -> & HA & HX). destruct LX as [|[i n] [|[] ?]]; cbn in HX; try discriminate HX.
  injection HX as <- Hp <-. by exists L'.
Qed.

Lemma flags_cons y B p L :
  map flags (y :: B) = entries p L ->
  exists L', L = (message_id_ y, have_next_ y) :: L' /\ have_previous_ y = p /\ map flags B = entries (have_next_ y) L'.
Proof. destruct L as [|[i n] L]; [done|]. cbn [map entries]. intros E. injection E as <- <- <- E. by exists L. Qed.

Lemma flags_nil p L : map flags [] = entries p L -> L = [].
Proof. by destruct L as [|[]]. Qed.

Lemma rep_intro t A B LA LB :
  good t -> flatten t = A ++ B -> map flags A = entries false LA -> map flags B = entries (link LA) LB -> link (LA ++ LB) = false ->
  represents t (LA ++ LB).
Proof. intros Hg Hf HA HB Hl. constructor; [done| |done]. by rewrite Hf, map_app, entries_app, HA, HB. Qed.

Lemma rep_NoDup t L : represents t L -> NoDup (ids t).
Proof. intros Hr. apply sorted_NoDup, (rep_good _ _ Hr). Qed.

Definition refined (r : outcome tree) (s : outcome chain) : Prop :=
  match s with Ok L => exists t, r = Ok t /\ represents t L | _ => r = Crash end.

(** An iterator of a represented tree. *)
Lemma rep_iterator t L id :
  represents t L -> is_scheduled id = false ->
  exists it A B, get_iterator t id = Ok it /\ cut_at id t A B /\ position t it A B /\ current it = message_id_ <$> last A.
Proof. intros [[Hs Ho _ _] _ _] Hk. by apply get_iterator_position. Qed.

Lemma located_current t it A x B : located t it A x B -> current it = Some (message_id_ x).
Proof. intros Hl. by destruct (located_stack _ _ _ _ _ Hl) as (rest & ->). Qed.

Lemma is_valid_ordinary id : is_valid id = true -> is_scheduled id = false.
Proof. intros Hv. by apply valid_layout in Hv as (_ & ? & _). Qed.

Lemma ordinary_elem t id : good t -> id ∈ ids t -> is_scheduled id = false.
Proof. intros [_ Ho _ _] Hi. unfold ordinary in Ho. rewrite Forall_forall in Ho. by apply Ho. Qed.

(** What is known once the place of a new message is found. *)
Record place (t : tree) L (id : Z) (it : stack) (A B : list node) : Prop := {
  place_flat : flatten t = A ++ B;
  place_older : Forall (fun m => message_id_ m < id) A;
  place_newer : Forall (fun m => id < message_id_ m) B;
  place_older_flags : map flags A = entries false (older id L);
  place_newer_flags : map flags B = entries (link (older id L)) (newer id L);
  place_chain : L = older id L ++ newer id L;
  place_position : position t it A B;
  place_current : current it = message_id_ <$> last A }.

Lemma find_place t L id :
  represents t L -> is_scheduled id = false -> id ∉ ids t ->
  exists it A B, get_iterator t id = Ok it /\ place t L id it A B.
Proof.
  intros Hrep Hk Hn. destruct (rep_iterator t L id Hrep Hk) as (it & A & B & E & Hc & Hp & Hcur). exists it, A, B. split; [done|].
  destruct (rep_cut _ _ _ _ _ Hrep Hc) as [(Hl & _ & HA & HfA & HfB & HL)|(A' & x & n & -> & Hid & _)].
  - destruct Hc as (Hf & _ & HB). by constructor.
  - destruct Hn. rewrite <- Hid. apply elem_of_ids. destruct Hc as (-> & _). set_solver.
Qed.

(** A tree whose flags are those of the chains on the two sides of a message
    with the flags [p] and [n] that is to be put between them. *)
Record ready (t t1 : tree) (id : Z) (p n : bool) (LA LB : chain) : Prop := {
  ready_good : good t1;
  ready_path : forall y, insert_position t1 y id = insert_position t y id;
  ready_nodes : exists A B, flatten t1 = A ++ B /\ Forall (fun m => message_id_ m < id) A /\ Forall (fun m => id < message_id_ m) B /\
    map flags A = entries false LA /\ map flags B = entries n LB;
  ready_previous : p = link LA;
  ready_end : link ((id, n) :: LB) = false }.

Lemma ready_insert t t1 id p n LA LB path :
  ready t t1 id p n LA LB -> is_scheduled id = false -> insert_position t (int32 (message_id_hash id)) id = Ok path ->
  let m := mk_node (int32 (message_id_hash id)) p n id in
  represents (replace_at path (fun cur => let '(left_, right_) := split cur id in Node left_ m right_) t1) (LA ++ (id, n) :: LB).
Proof.
  intros [Hg Hpath (A & B & Hf & HA & HB & HfA & HfB) -> He] Hk Hp m. rewrite <- Hpath in Hp.
  destruct (insert_finish t1 id path m A B Hg Hf HA HB Hk eq_refl eq_refl Hp) as [Hg' Hf'].
  eapply rep_intro; [done|done|done| |].
  - cbn [map entries]. by rewrite HfB.
  - by rewrite link_app.
Qed.

Lemma rep_update_flat t A x B f : good t -> flatten t = A ++ x :: B -> flatten (update (message_id_ x) f t) = A ++ f x :: B.
Proof. intros Hg Hf. apply flatten_update; [done|]. apply sorted_NoDup, Hg. Qed.

Lemma link_cons_end L id n : L <> [] -> link L = false -> link ((id, n) :: L) = false.
Proof. intros Hn Hl. change ((id, n) :: L) with ([(id, n)] ++ L). by rewrite link_app. Qed.

Lemma place_end t L id it A B : represents t L -> place t L id it A B -> newer id L <> [] -> link (newer id L) = false.
Proof. intros Hrep Hpl Hn. pose proof (rep_end _ _ Hrep) as He. rewrite (place_chain _ _ _ _ _ _ Hpl), link_app in He; done. Qed.

Lemma place_last t L id it A x B :
  represents t L -> place t L id it (A ++ [x]) B ->
  located t it A x B /\ node_at t (message_id_ x) = Ok x /\ message_id_ x < id /\ is_scheduled (message_id_ x) = false /\
  exists lo, older id L = lo ++ [(message_id_ x, have_next_ x)] /\ map flags A = entries false lo /\ have_previous_ x = link lo.
Proof.
  intros Hrep Hpl. pose proof (place_position _ _ _ _ _ _ Hpl) as Hp. unfold position in Hp. rewrite last_snoc in Hp.
  destruct Hp as (A' & E & Hloc). apply app_inj_tail in E as [<- _]. pose proof (rep_good _ _ Hrep) as Hg.
  split_and!; [done|eapply located_deref; [done|apply Hg]| | |exact (flags_snoc _ _ _ (place_older_flags _ _ _ _ _ _ Hpl))].
  - pose proof (place_older _ _ _ _ _ _ Hpl) as HA. apply Forall_app in HA as [_ HA]. by apply Forall_cons in HA as [HA _].
  - eapply ordinary_elem; [done|]. by eapply located_id.
Qed.

(** A linked message has a next one. *)
Lemma place_next t L id it A x B :
  represents t L -> place t L id it (A ++ [x]) B -> have_next_ x = true -> exists y B', B = y :: B'.
Proof.
  intros Hrep Hpl Hn. destruct (place_last _ _ _ _ _ _ _ Hrep Hpl) as (_ & _ & _ & _ & lo & Ho & _). destruct B as [|y B]; [|by eexists _, _].
  pose proof (place_newer_flags _ _ _ _ _ _ Hpl) as HB. apply flags_nil in HB. pose proof (rep_end _ _ Hrep) as He.
  rewrite (place_chain _ _ _ _ _ _ Hpl), HB, app_nil_r, Ho, link_snoc in He. congruence.
Qed.

Lemma drop_connection_ready t L id it A B :
  represents t L -> place t L id it A B -> is_scheduled id = false -> get_iterator t id = Ok it ->
  exists t1, drop_connection id t = Ok t1 /\ ready t t1 id false false (set_link false (older id L)) (newer id L).
Proof.
  intros Hrep Hpl Hk E. pose proof (rep_good _ _ Hrep) as Hg. unfold drop_connection. rewrite E, Ok_bind, (place_current _ _ _ _ _ _ Hpl).
  assert (He : forall lo, lo = older id L -> link lo = false -> link ((id, false) :: newer id L) = false).
  { intros lo -> Hlo. destruct (newer id L) eqn:En; [done|]. rewrite <- En. apply link_cons_end; [by rewrite En|].
    eapply place_end; [done..|]. by rewrite En. }
  destruct A as [|x A _] using rev_ind; [|rewrite last_snoc]; cbn [last fmap option_fmap option_map].
  - exists t. split; [done|]. destruct Hpl. pose proof (flags_nil _ _ place_older_flags0) as Ho. rewrite Ho in *.
    constructor; [done|done| |done|by apply (He [])]. by exists [], B.
  - destruct (place_last _ _ _ _ _ _ _ Hrep Hpl) as (Hloc & Hx & Hlt & Hkx & lo & Ho & HfA & Hpx). rewrite Hx, Ok_bind.
    rewrite Ho, set_link_snoc. destruct (have_next_ x) eqn:Hn.
    + rewrite ordinary_lt, Ok_bind, (proj2 (Z.ltb_lt _ _)) by done. cbn [check]. rewrite Ok_bind.
      destruct (place_next _ _ _ _ _ _ _ Hrep Hpl Hn) as (y & B' & ->).
      destruct (increment_located _ _ _ _ _ Hloc (good_sorted _ Hg)) as (it' & Hi & Hloc'). rewrite Hn in Hloc'. rewrite Hi, Ok_bind.
      rewrite (located_current _ _ _ _ _ Hloc'), (located_deref _ _ _ _ _ Hloc' (good_sorted _ Hg)), Ok_bind.
      pose proof (place_newer _ _ _ _ _ _ Hpl) as HB. apply Forall_cons in HB as [Hy HB].
      rewrite ordinary_lt, Ok_bind, (proj2 (Z.ltb_lt _ _)); [|done..|eapply ordinary_elem; [done|by eapply located_id]].
      cbn [check]. rewrite Ok_bind. eexists. split; [reflexivity|].
      assert (Hg1 : good (update (message_id_ y) (set_previous false) t)) by auto using good_update.
      constructor; [auto using good_update|by intros; rewrite !insert_position_update| |by rewrite link_snoc|].
      * pose proof (rep_update_flat _ _ _ _ (set_previous false) Hg (located_flatten _ _ _ _ _ Hloc')) as Hf1.
        rewrite <- app_assoc in Hf1. cbn [app] in Hf1.
        pose proof (rep_update_flat _ _ _ _ (set_next false) Hg1 Hf1) as Hf2.
        exists (A ++ [set_next false x]), (set_previous false y :: B'). rewrite <- app_assoc. split; [exact Hf2|].
        pose proof (place_older _ _ _ _ _ _ Hpl) as HA. apply Forall_app in HA as [HA _].
        split_and!; [apply Forall_app; split; [done|by constructor]|by constructor| |].
        -- rewrite map_app, HfA, entries_app. cbn. unfold flags. cbn. by rewrite Hpx.
        -- pose proof (place_newer_flags _ _ _ _ _ _ Hpl) as HfB. destruct (flags_cons _ _ _ _ HfB) as (hi & -> & _ & HB'). cbn. by rewrite HB'.
      * pose proof (place_newer_flags _ _ _ _ _ _ Hpl) as HfB. destruct (flags_cons _ _ _ _ HfB) as (hi & Hhi & _ & _).
        apply link_cons_end; [by rewrite Hhi|]. eapply place_end; [done..|]. by rewrite Hhi.
    + exists t. split; [done|]. destruct Hpl as [Hf HA HB HfA' HfB HL]. rewrite Ho in HfA', HfB. rewrite link_snoc in HfB.
      constructor; [done|done|by exists (A ++ [x]), B|by rewrite link_snoc|]. apply (He (lo ++ [(message_id_ x, false)])); [done|apply link_snoc].
Qed.

Lemma find_next_spec id t acc :
  is_scheduled id = false -> sorted t -> ordinary t ->
  exists A B, flatten t = A ++ B /\ Forall (fun m => message_id_ m < id) A /\ Forall (fun m => id <= message_id_ m) B /\
    find_next t id acc = Ok (match B with y :: _ => Some (message_id_ y) | [] => acc end).
Proof.
  intros Hk. revert acc. induction t as [|l IHl m r IHr]; intros acc Hs Ho.
  { by exists [], []. }
  apply sorted_node in Hs as (Hsl & Hsr & Hlm & Hmr & Hlr). apply ordinary_node in Ho as (Hol & Hom & Hor).
  cbn [find_next flatten]. rewrite ordinary_lt, Ok_bind by done. destruct (Z.ltb_spec (message_id_ m) id) as [Hlt|Hge].
  - destruct (IHr acc Hsr Hor) as (A & B & -> & HA & HB & ->). exists (flatten l ++ m :: A), B. rewrite <- app_assoc. split_and!; [done| |done..].
    apply Forall_app. split; [|by constructor]. apply (ids_below (fun x => x < id)). intros x Hx. specialize (Hlm x Hx). lia.
  - destruct (IHl (Some (message_id_ m)) Hsl Hol) as (A & B & -> & HA & HB & ->). exists A, (B ++ m :: flatten r). rewrite <- app_assoc.
    split_and!; [done..| |by destruct B]. apply Forall_app. split; [done|]. constructor; [done|]. apply (ids_below (fun x => id <= x)).
    intros x Hx. specialize (Hmr x Hx). lia.
Qed.

Lemma yet_unsent_type id : is_valid id = true -> is_yet_unsent id = Ok (bool_decide (get_type id = YetUnsent)).
Proof.
  intros Hv. unfold is_yet_unsent. rewrite Hv. cbn [orb check]. rewrite Ok_bind, land_short. f_equal.
  destruct (valid_layout id Hv) as (Hr & Hk & Hl). rewrite scheduled_bit in Hk. apply Z.leb_gt in Hk.
  rewrite max_id_eq in Hr. destruct (type_cases id ltac:(lia)) as (_ & Hy & _). apply eq_true_iff_eq.
  rewrite bool_decide_eq_true, Hy. change TYPE_YET_UNSENT with 1. rewrite Z.eqb_eq. clear -Hk. div_mod_lia.
Qed.

Lemma is_yet_unsent_invalid id : is_valid id = false -> is_scheduled id = false -> is_yet_unsent id = Crash.
Proof. intros Hv Hk. unfold is_yet_unsent. by rewrite Hv, Hk. Qed.

(** What attaching does to the flags of the new node and of its neighbours. *)
Definition attached (t : tree) (id : Z) (L : chain) (r : outcome (node * tree)) (s : outcome chain) : Prop :=
  match s with
  | Ok L' => exists p n t1 LA LB, r = Ok (mk_node (int32 (message_id_hash id)) p n id, t1) /\ L' = LA ++ (id, n) :: LB /\ ready t t1 id p n LA LB
  | _ => r = Crash
  end.

Lemma attach_before_next_spec t L id it A B :
  represents t L -> place t L id it A B -> is_scheduled id = false -> link (older id L) = false ->
  attached t id L (attach_before_next (mk_node (int32 (message_id_hash id)) false false id) t)
    (chain_insert_before id (older id L) (newer id L)).
Proof.
  intros Hrep Hpl Hk Hlo. pose proof (rep_good _ _ Hrep) as Hg. unfold attach_before_next, chain_insert_before. cbn [message_id_].
  destruct (is_valid id) eqn:Hv; cbn [negb attached]; [|by rewrite is_yet_unsent_invalid].
  rewrite yet_unsent_type, Ok_bind by done.
  assert (Hplain : ready t t id false false (older id L) (newer id L) \/ newer id L <> []).
  { destruct (decide (newer id L = [])) as [En|En]; [left|by right].
    destruct Hpl as [Hf HA HB HfA HfB HL]. constructor; [done|done|exists A, B; by rewrite Hlo in HfB|done|by rewrite En]. }
  assert (Hplain' : ready t t id false false (older id L) (newer id L)).
  { destruct Hplain as [?|En]; [done|]. pose proof (link_cons_end _ id false En (place_end _ _ _ _ _ _ Hrep Hpl En)) as He.
    destruct Hpl as [Hf HA HB HfA HfB HL]. constructor; [done|done|exists A, B; by rewrite Hlo in HfB|done|done]. }
  clear Hplain. destruct (bool_decide (get_type id = YetUnsent)); cbn [negb andb].
  { by exists false, false, t, (older id L), (newer id L). }
  destruct (find_next_spec id t None Hk (good_sorted _ Hg) (good_ordinary _ Hg)) as (A0 & B0 & Hf0 & HA0 & HB0 & ->). rewrite Ok_bind.
  destruct (cut_unique (fun m => message_id_ m < id) A B A0 B0) as [<- <-].
  { by rewrite <- (place_flat _ _ _ _ _ _ Hpl). }
  { apply (place_older _ _ _ _ _ _ Hpl). }
  { eapply Forall_impl; [apply (place_newer _ _ _ _ _ _ Hpl)|]. cbn. lia. }
  { done. }
  { eapply Forall_impl; [done|]. cbn. lia. }
  pose proof (place_newer_flags _ _ _ _ _ _ Hpl) as HfB. rewrite Hlo in HfB. destruct B as [|y B].
  - apply flags_nil in HfB. rewrite HfB in *. by exists false, false, t, (older id L), [].
  - destruct (flags_cons _ _ _ _ HfB) as (hi & Hhi & Hpy & HfB'). rewrite (bool_decide_eq_false_2 (newer id L = [])) by (by rewrite Hhi).
    cbn [negb]. rewrite node_at_elem, Ok_bind, Hpy; [|rewrite Hf0; set_solver|apply Hg]. cbn [negb check]. rewrite Ok_bind.
    eexists false, true, _, (older id L), (newer id L). split; [reflexivity|]. split; [done|].
    constructor; [auto using good_update|by intros; rewrite insert_position_update| |done|].
    + exists A, (set_previous true y :: B). pose proof (place_newer _ _ _ _ _ _ Hpl) as HB. apply Forall_cons in HB as [Hy HB].
      split_and!; [by apply rep_update_flat|done|by constructor|apply (place_older_flags _ _ _ _ _ _ Hpl)|]. rewrite Hhi. cbn. by rewrite HfB'.
    + apply link_cons_end; [by rewrite Hhi|]. eapply place_end; [done..|]. by rewrite Hhi.
Qed.

Lemma auto_attach_spec t L id last_message_id it A B :
  represents t L -> place t L id it A B -> is_scheduled id = false -> get_iterator t id = Ok it ->
  attached t id L (auto_attach_message (mk_node (int32 (message_id_hash id)) false false id) last_message_id t)
    (match last (older id L) with
     | Some (previous, linked) =>
         if linked || is_valid last_message_id && (last_message_id <=? previous)
         then Ok (set_link true (older id L) ++ (id, linked) :: newer id L)
         else chain_insert_before id (older id L) (newer id L)
     | None => chain_insert_before id (older id L) (newer id L)
     end).
Proof.
  intros Hrep Hpl Hk E. pose proof (rep_good _ _ Hrep) as Hg. unfold auto_attach_message. cbn [message_id_].
  rewrite E, Ok_bind, (place_current _ _ _ _ _ _ Hpl).
  destruct A as [|x A _] using rev_ind; [|rewrite last_snoc]; cbn [last fmap option_fmap option_map].
  - assert (Ho : older id L = []) by (eapply flags_nil, (place_older_flags _ _ _ _ _ _ Hpl)). rewrite Ho at 1. cbn [last].
    eapply attach_before_next_spec; [done..|]. by rewrite Ho.
  - destruct (place_last _ _ _ _ _ _ _ Hrep Hpl) as (Hloc & Hx & Hlt & Hkx & lo & Ho & HfA & Hpx). rewrite Hx, Ok_bind.
    rewrite ordinary_lt, Ok_bind, (proj2 (Z.ltb_lt _ _)) by done. cbn [check]. rewrite Ok_bind.
    rewrite Ho at 1. rewrite last_snoc.
    assert (Hatt : (if have_next_ x then Ok true else if is_valid last_message_id then id_le last_message_id (message_id_ x) else Ok false)
      = Ok (have_next_ x || is_valid last_message_id && (last_message_id <=? message_id_ x))).
    { destruct (have_next_ x); [done|]. destruct (is_valid last_message_id) eqn:Hv; [|done]. by rewrite ordinary_le by (done || by apply is_valid_ordinary). }
    rewrite Hatt, Ok_bind. destruct (have_next_ x || is_valid last_message_id && (last_message_id <=? message_id_ x)) eqn:Hc.
    2: { apply orb_false_iff in Hc as [Hn _]. eapply attach_before_next_spec; [done..|]. by rewrite Ho, link_snoc. }
    assert (Hnext : (if is_server id && is_server (message_id_ x) && have_next_ x
                     then it ← increment t it; check (negb (bool_decide (current it = None))) else Ok tt) = Ok tt).
    { destruct (is_server id && is_server (message_id_ x)); cbn [andb]; [|done]. destruct (have_next_ x) eqn:Hn; [|done].
      destruct (place_next _ _ _ _ _ _ _ Hrep Hpl Hn) as (y & B' & ->).
      destruct (increment_located _ _ _ _ _ Hloc (good_sorted _ Hg)) as (it' & -> & Hloc'). rewrite Hn in Hloc'.
      rewrite Ok_bind, (located_current _ _ _ _ _ Hloc'). done. }
    rewrite Hnext, Ok_bind. cbn [attached].
    eexists true, (have_next_ x), _, (set_link true (older id L)), (newer id L). split; [reflexivity|]. split; [done|].
    rewrite Ho, set_link_snoc. constructor; [auto using good_update|by intros; rewrite insert_position_update| |by rewrite link_snoc|].
    + pose proof (place_flat _ _ _ _ _ _ Hpl) as Hf. rewrite <- app_assoc in Hf. cbn [app] in Hf.
      exists (A ++ [set_next true x]), B. rewrite <- app_assoc. split; [by apply rep_update_flat|].
      pose proof (place_older _ _ _ _ _ _ Hpl) as HA. apply Forall_app in HA as [HA _]. pose proof (place_newer_flags _ _ _ _ _ _ Hpl) as HfB.
      rewrite Ho, link_snoc in HfB.
      split_and!; [apply Forall_app; split; [done|by constructor]|apply (place_newer _ _ _ _ _ _ Hpl)| |done].
      rewrite map_app, HfA, entries_app. cbn. unfold flags. cbn. by rewrite Hpx.
    + destruct (have_next_ x) eqn:Hn.
      * destruct (place_next _ _ _ _ _ _ _ Hrep Hpl Hn) as (y & B' & ->). pose proof (place_newer_flags _ _ _ _ _ _ Hpl) as HfB.
        destruct (flags_cons _ _ _ _ HfB) as (hi & Hhi & _). apply link_cons_end; [by rewrite Hhi|]. eapply place_end; [done..|]. by rewrite Hhi.
      * destruct (newer id L) eqn:En; [done|]. rewrite <- En. apply link_cons_end; [by rewrite En|]. eapply place_end; [done..|]. by rewrite En.
Qed.

Lemma link_of_ids id L : link_of id L = None <-> id ∉ map fst L.
Proof.
  induction L as [|[x n] L IH]; cbn [link_of map fst]; [split; [set_solver|done]|].
  destruct (Z.eqb_spec x id) as [->|Hne]; [split; [done|set_solver]|]. rewrite IH. set_solver.
Qed.

(** A message that the treap has is met before the place for a new one. *)
Lemma insert_position_new t id :
  good t ->
  match insert_position t (int32 (message_id_hash id)) id with Ok _ => id ∉ ids t | Crash => id ∈ ids t | Err _ => False end.
Proof.
  intros [Hs Ho Hh Hy]. pose proof (insert_position_spec t (int32 (message_id_hash id)) id Hs Hh) as Hsp.
  destruct (insert_position t (int32 (message_id_hash id)) id) as [p| |]; [|done..].
  destruct Hsp as (A & s & B & Hsl & HA & HB & Hlow). unfold ids. intros Hi. apply list_elem_of_In, in_map_iff in Hi as (m & <- & Hm).
  apply list_elem_of_In in Hm. unfold hashed in Hy. rewrite Forall_forall in HA, HB, Hlow, Hy.
  pose proof (Hy m Hm) as Hr. rewrite (slot_flatten _ _ _ _ _ Hsl) in Hm. apply elem_of_app in Hm as [Hm|[Hm|Hm]%elem_of_app].
  - specialize (HA m Hm). lia.
  - specialize (Hlow m Hm). lia.
  - specialize (HB m Hm). lia.
Qed.

Lemma insert_scheduled id auto_attach last_message_id t :
  good t -> is_scheduled id = true -> insert id auto_attach last_message_id t = Crash.
Proof.
  intros Hg Hk. unfold insert. pose proof (insert_position_new t id Hg) as Hp.
  destruct (insert_position t (int32 (message_id_hash id)) id); [rewrite Ok_bind|done..].
  assert (Hit : get_iterator t id = Crash) by (unfold get_iterator; by rewrite Hk).
  destruct auto_attach; [unfold auto_attach_message; cbn [message_id_]|unfold drop_connection]; by rewrite Hit.
Qed.

Lemma insert_refined id auto_attach last_message_id t L :
  represents t L -> refined (insert id auto_attach last_message_id t) (chain_insert id auto_attach last_message_id L).
Proof.
  intros Hrep. pose proof (rep_good _ _ Hrep) as Hg. unfold chain_insert.
  destruct (is_scheduled id) eqn:Hk; cbn [orb]; [by apply insert_scheduled|].
  unfold insert. pose proof (insert_position_new t id Hg) as Hp. rewrite (rep_ids _ _ Hrep) in Hp.
  destruct (insert_position t (int32 (message_id_hash id)) id) as [p| |] eqn:Ep; [|done|].
  2: { rewrite bool_decide_eq_true_2; [done|]. rewrite link_of_ids. auto. }
  rewrite Ok_bind, bool_decide_eq_false_2 by (apply link_of_ids in Hp; naive_solver). cbv zeta.
  rewrite <- (rep_ids _ _ Hrep) in Hp. destruct (find_place t L id Hrep Hk Hp) as (it & A & B & E & Hpl).
  destruct auto_attach.
  - pose proof (auto_attach_spec t L id last_message_id it A B Hrep Hpl Hk E) as Ha. unfold attached in Ha.
    destruct (match last (older id L) with Some _ => _ | None => _ end) as [L'| |]; [|by rewrite Ha..].
    destruct Ha as (q & n & t1 & LA & LB & -> & -> & Hr). rewrite Ok_bind. eexists. split; [reflexivity|]. by eapply ready_insert.
  - destruct (drop_connection_ready t L id it A B Hrep Hpl Hk E) as (t1 & -> & Hr). rewrite !Ok_bind. eexists. split; [reflexivity|].
    by eapply ready_insert.
Qed.

(** * A message that is there *)

Lemma sorted_at t A x B :
  good t -> flatten t = A ++ x :: B ->
  Forall (fun m => message_id_ m < message_id_ x) A /\ Forall (fun m => message_id_ x < message_id_ m) B.
Proof.
  intros [Hs _ _ _] Hf. unfold sorted, ids in Hs. rewrite Hf, map_app in Hs. cbn [map] in Hs. apply sorted_mid in Hs as (_ & _ & HA & HB & _).
  split; apply Forall_forall; intros m Hm; [apply HA|apply HB]; apply list_elem_of_In, in_map, list_elem_of_In, Hm.
Qed.

Lemma same_place t A x B A' x' B' :
  good t -> flatten t = A ++ x :: B -> flatten t = A' ++ x' :: B' -> message_id_ x = message_id_ x' -> A = A' /\ x = x' /\ B = B'.
Proof.
  intros Hg Hf Hf' Hid. destruct (sorted_at _ _ _ _ Hg Hf) as [HA HB]. destruct (sorted_at _ _ _ _ Hg Hf') as [HA' HB'].
  destruct (cut_unique (fun m => message_id_ m < message_id_ x) A (x :: B) A' (x' :: B')) as [-> E].
  - by rewrite <- Hf.
  - done.
  - constructor; [lia|]. eapply Forall_impl; [done|]. cbn. lia.
  - by rewrite Hid.
  - constructor; [lia|]. eapply Forall_impl; [done|]. cbn. lia.
  - by injection E as -> ->.
Qed.

Lemma iterator_at t A x B :
  good t -> flatten t = A ++ x :: B -> exists it, get_iterator t (message_id_ x) = Ok it /\ located t it A x B.
Proof.
  intros Hg Hf. assert (Hk : is_scheduled (message_id_ x) = false).
  { eapply ordinary_elem; [done|]. apply elem_of_ids. rewrite Hf. set_solver. }
  destruct (get_iterator_position (message_id_ x) t Hk (good_sorted _ Hg) (good_ordinary _ Hg)) as (it & A0 & B0 & E & (Hf0 & HA0 & HB0) & Hp & _).
  exists it. split; [done|]. destruct (sorted_at _ _ _ _ Hg Hf) as [HA HB].
  destruct (cut_unique (fun m => message_id_ m <= message_id_ x) (A ++ [x]) B A0 B0) as [<- <-].
  - by rewrite <- Hf0, Hf, <- app_assoc.
  - apply Forall_app. split; [|by repeat constructor]. eapply Forall_impl; [done|]. cbn. lia.
  - eapply Forall_impl; [done|]. cbn. lia.
  - done.
  - eapply Forall_impl; [done|]. cbn. lia.
  - unfold position in Hp. rewrite last_snoc in Hp. destruct Hp as (A' & EA & Hl). by apply app_inj_tail in EA as [<- _].
Qed.

Lemma neighbour_previous t A y x B :
  good t -> flatten t = (A ++ [y]) ++ x :: B -> have_previous_ x = true -> neighbour decrement (message_id_ x) t = Ok (message_id_ y).
Proof.
  intros Hg Hf Hp. destruct (iterator_at _ _ _ _ Hg Hf) as (it & E & Hl). unfold neighbour. rewrite E, Ok_bind, (located_current _ _ _ _ _ Hl).
  rewrite bool_decide_eq_true_2 by done. cbn [check]. rewrite Ok_bind.
  destruct (decrement_located _ _ _ _ _ Hl (good_sorted _ Hg)) as (it' & -> & Hpos). rewrite Ok_bind, Hp in *. unfold position in Hpos.
  rewrite last_snoc in Hpos. destruct Hpos as (A' & EA & Hl'). by rewrite (located_current _ _ _ _ _ Hl').
Qed.

Lemma neighbour_next t A x y B :
  good t -> flatten t = A ++ x :: y :: B -> have_next_ x = true -> neighbour increment (message_id_ x) t = Ok (message_id_ y).
Proof.
  intros Hg Hf Hn. destruct (iterator_at _ _ _ _ Hg Hf) as (it & E & Hl). unfold neighbour. rewrite E, Ok_bind, (located_current _ _ _ _ _ Hl).
  rewrite bool_decide_eq_true_2 by done. cbn [check]. rewrite Ok_bind.
  destruct (increment_located _ _ _ _ _ Hl (good_sorted _ Hg)) as (it' & -> & Hl'). rewrite Hn in Hl'.
  by rewrite Ok_bind, (located_current _ _ _ _ _ Hl').
Qed.

(** A message of a represented tree, with the messages around it. *)
Record found (t : tree) L (id : Z) (A : list node) (x : node) (B : list node) : Prop := {
  found_flat : flatten t = A ++ x :: B;
  found_id : message_id_ x = id;
  found_link : link_of id L = Some (have_next_ x);
  found_previous : have_previous_ x = link (older id L);
  found_older : map flags A = entries false (older id L);
  found_newer : map flags B = entries (have_next_ x) (newer id L);
  found_chain : L = older id L ++ (id, have_next_ x) :: newer id L }.

Lemma find_message t L id n : represents t L -> link_of id L = Some n -> exists A x B, found t L id A x B /\ have_next_ x = n.
Proof.
  intros Hrep Hl. assert (Hi : id ∈ ids t).
  { rewrite (rep_ids _ _ Hrep). destruct (decide (id ∈ map fst L)) as [?|Hn]; [done|]. apply link_of_ids in Hn. congruence. }
  pose proof (ordinary_elem _ _ (rep_good _ _ Hrep) Hi) as Hk.
  destruct (rep_iterator t L id Hrep Hk) as (it & A & B & _ & Hc & _). destruct (rep_cut _ _ _ _ _ Hrep Hc) as [(E & _)|H].
  - congruence.
  - destruct H as (A' & x & n' & -> & Hid & Hl' & Hn & Hp & HA & HB & HL). exists A', x, B. destruct Hc as (Hf & _). rewrite <- app_assoc in Hf.
    split; [|congruence]. subst n'. by constructor.
Qed.

Lemma find_message_none t L id : represents t L -> link_of id L = None -> id ∉ ids t.
Proof. intros Hrep Hl. rewrite (rep_ids _ _ Hrep). by apply link_of_ids. Qed.

Lemma link_set_link b L : L <> [] -> link (set_link b L) = b.
Proof. intros Hn. destruct (exists_last Hn) as (L' & [x n] & ->). by rewrite set_link_snoc, link_snoc. Qed.

Lemma link_set_false L : link (set_link false L) = false.
Proof. destruct (decide (L = [])) as [->|Hn]; [done|by apply link_set_link]. Qed.

(** The rest of a chain after a message. *)
Lemma found_end t L id A x B : represents t L -> found t L id A x B -> link ((id, have_next_ x) :: newer id L) = false.
Proof. intros Hrep Hfd. pose proof (rep_end _ _ Hrep) as He. by rewrite (found_chain _ _ _ _ _ _ Hfd), link_app in He. Qed.

Lemma found_next t L id A x B : represents t L -> found t L id A x B -> have_next_ x = true -> exists y B', B = y :: B'.
Proof.
  intros Hrep Hfd Hn. pose proof (found_end _ _ _ _ _ _ Hrep Hfd) as He. destruct B as [|y B]; [|by eexists _, _].
  pose proof (flags_nil _ _ (found_newer _ _ _ _ _ _ Hfd)) as E. rewrite E in He. cbn in He. congruence.
Qed.

Lemma found_prev t L id A x B :
  found t L id A x B -> A <> [] ->
  exists A' y lo, A = A' ++ [y] /\ older id L = lo ++ [(message_id_ y, have_next_ y)] /\ map flags A' = entries false lo /\
    have_previous_ y = link lo /\ have_previous_ x = have_next_ y.
Proof.
  intros Hfd HA. destruct (exists_last HA) as (A' & y & ->). pose proof (found_older _ _ _ _ _ _ Hfd) as Ho.
  destruct (flags_snoc _ _ _ Ho) as (lo & E & HA' & Hp). exists A', y, lo. split_and!; [done..|].
  by rewrite (found_previous _ _ _ _ _ _ Hfd), E, link_snoc.
Qed.

(** * Removal *)

Lemma erase_finish t id p m A B :
  good t -> flatten t = A ++ m :: B -> message_id_ m = id -> erase_position t id = Ok (p, m) ->
  let t' := replace_at p (fun result => match result with Node left_ _ right_ => merge left_ right_ | Leaf => Leaf end) t in
  good t' /\ flatten t' = A ++ B.
Proof.
  intros Hg Hf Hid Hp t'. pose proof (erase_position_spec t id (good_sorted _ Hg)) as Hsp. rewrite Hp in Hsp.
  destruct Hsp as (_ & A0 & l & r & B0 & Hsl). pose proof (slot_flatten _ _ _ _ _ Hsl) as Hft. cbn [flatten] in Hft.
  assert (Hh : heap (Node l m r)).
  { apply (proj2 (slot_sub _ _ _ _ _ Hsl)), Hg. }
  destruct Hh as (Hbl & Hbr & Hhl & Hhr). destruct (merge_spec l r Hhl Hhr) as (Hmf & Hmh & Hmb).
  assert (Hflat : flatten t' = A ++ B).
  { unfold t'. rewrite (slot_replace _ _ _ _ _ _ Hsl), Hmf.
    destruct (same_place t (A0 ++ flatten l) m (flatten r ++ B0) A m B Hg) as (<- & _ & <-); [|done..|].
    - by rewrite Hft, <- !app_assoc.
    - by rewrite <- !app_assoc. }
  split; [|done]. destruct (slot_heap p t A0 (Node l m r) B0 (fun s => match s with Node left_ _ right_ => merge left_ right_ | Leaf => Leaf end)
    Hsl (good_heap _ Hg) Hmh) as [Hh' _].
  { intros y (? & ? & ?). by apply Hmb. }
  destruct Hg as [Hs Ho _ Hy]. unfold sorted, ordinary, hashed in *.
  assert (Hids : forall l, ids l = map message_id_ (flatten l)) by done. rewrite Hids, Hf, map_app in Hs, Ho. rewrite Hf in Hy.
  apply sorted_mid in Hs as (HsA & HsB & _ & _ & Hd). apply Forall_app in Ho as [HoA HoB]. apply Forall_cons in HoB as [_ HoB].
  apply Forall_app in Hy as [HyA HyB]. apply Forall_cons in HyB as [_ HyB].
  constructor; unfold sorted, ordinary, hashed; rewrite ?Hids, ?Hflat, ?map_app; [by apply sorted_lt_app|by apply Forall_app|done|by apply Forall_app].
Qed.

Lemma erase_absent id only_from_memory t : good t -> id ∉ ids t -> erase id only_from_memory t = Crash.
Proof.
  intros Hg Hn. unfold erase. pose proof (erase_position_spec t id (good_sorted _ Hg)) as Hsp.
  destruct (erase_position t id) as [[p m]| |]; [|done..]. destruct Hsp as (Hid & A & l & r & B & Hsl). destruct Hn. rewrite <- Hid.
  apply elem_of_ids. rewrite (slot_flatten _ _ _ _ _ Hsl). cbn [flatten]. set_solver.
Qed.

Lemma found_position t L id A x B : represents t L -> found t L id A x B -> exists p, erase_position t id = Ok (p, x).
Proof.
  intros Hrep Hfd. pose proof (rep_good _ _ Hrep) as Hg. pose proof (erase_position_spec t id (good_sorted _ Hg)) as Hsp.
  destruct (erase_position t id) as [[p m]| |]; [|done|].
  - destruct Hsp as (Hid & A0 & l & r & B0 & Hsl). exists p. pose proof (slot_flatten _ _ _ _ _ Hsl) as Hft. cbn [flatten] in Hft.
    destruct (same_place t (A0 ++ flatten l) m (flatten r ++ B0) A x B Hg) as (_ & -> & _); [|apply Hfd| |done].
    + by rewrite Hft, <- !app_assoc.
    + by rewrite Hid, (found_id _ _ _ _ _ _ Hfd).
  - destruct Hsp. rewrite <- (found_id _ _ _ _ _ _ Hfd). apply elem_of_ids. rewrite (found_flat _ _ _ _ _ _ Hfd). set_solver.
Qed.

(** The first step: the message before is unlinked when it has to be. *)
Lemma erase_previous t L id A x B only_from_memory p :
  represents t L -> found t L id A x B -> erase_position t id = Ok (p, x) ->
  let b := link (older id L) && have_next_ x && negb only_from_memory in
  exists t1 A1,
    (if have_previous_ x && (only_from_memory || negb (have_next_ x))
     then prev_m ← neighbour decrement id t; Ok (update prev_m (set_next false) t) else Ok t) = Ok t1 /\
    good t1 /\ flatten t1 = A1 ++ x :: B /\ map flags A1 = entries false (set_link b (older id L)) /\ erase_position t1 id = Ok (p, x).
Proof.
  intros Hrep Hfd Hp b. pose proof (rep_good _ _ Hrep) as Hg. pose proof (found_flat _ _ _ _ _ _ Hfd) as Hf.
  rewrite (found_previous _ _ _ _ _ _ Hfd). destruct (link (older id L) && (only_from_memory || negb (have_next_ x))) eqn:Hc.
  - apply andb_true_iff in Hc as [Hlk Hor]. assert (Hb : b = false) by (unfold b; by destruct only_from_memory, (have_next_ x), (link (older id L))).
    destruct (found_prev _ _ _ _ _ _ Hfd) as (A' & y & lo & -> & Ho & HA' & Hpy & Hxy).
    { intros ->. pose proof (flags_nil _ _ (found_older _ _ _ _ _ _ Hfd)) as E. by rewrite E in Hlk. }
    assert (Hpx : have_previous_ x = true) by (by rewrite (found_previous _ _ _ _ _ _ Hfd)).
    pose proof (neighbour_previous _ _ _ _ _ Hg Hf Hpx) as Hnb. rewrite (found_id _ _ _ _ _ _ Hfd) in Hnb. rewrite Hnb, Ok_bind.
    destruct (sorted_at _ _ _ _ Hg Hf) as [HA _]. apply Forall_app in HA as [_ Hy]. apply Forall_cons in Hy as [Hy _].
    pose proof Hf as Hf'. rewrite <- app_assoc in Hf'. cbn [app] in Hf'.
    eexists _, (A' ++ [set_next false y]). split; [reflexivity|]. split; [auto using good_update|].
    split; [rewrite <- app_assoc; by apply rep_update_flat|]. split.
    + rewrite Hb, Ho, set_link_snoc, map_app, HA', entries_app. cbn. unfold flags. cbn. by rewrite Hpy.
    + rewrite (erase_position_update _ _ _ _ _ _ (keeps_set_next false) Hp). by rewrite (proj2 (Z.eqb_neq _ _)) by lia.
  - exists t, A. split; [done|]. split; [done|]. split; [done|]. split; [|done].
    rewrite (found_older _ _ _ _ _ _ Hfd). f_equal. rewrite <- set_link_same at 1. f_equal. unfold b.
    by destruct (link (older id L)), only_from_memory, (have_next_ x).
Qed.

Lemma erase_next t t1 L id A A1 x B only_from_memory p :
  represents t L -> found t L id A x B -> good t1 -> flatten t1 = A1 ++ x :: B -> erase_position t1 id = Ok (p, x) ->
  let b := link (older id L) && have_next_ x && negb only_from_memory in
  exists t2 B2,
    (if have_next_ x && (only_from_memory || negb (have_previous_ x))
     then next_m ← neighbour increment id t1; Ok (update next_m (set_previous false) t1) else Ok t1) = Ok t2 /\
    good t2 /\ flatten t2 = A1 ++ x :: B2 /\ map flags B2 = entries b (newer id L) /\ erase_position t2 id = Ok (p, x).
Proof.
  intros Hrep Hfd Hg Hf Hp b. pose proof (found_newer _ _ _ _ _ _ Hfd) as HB.
  rewrite (found_previous _ _ _ _ _ _ Hfd). destruct (have_next_ x && (only_from_memory || negb (link (older id L)))) eqn:Hc.
  - apply andb_true_iff in Hc as [Hn Hor]. assert (Hb : b = false) by (unfold b; by destruct only_from_memory, (have_next_ x), (link (older id L))).
    destruct (found_next _ _ _ _ _ _ Hrep Hfd Hn) as (y & B' & ->). destruct (flags_cons _ _ _ _ HB) as (hi & -> & _ & HB').
    pose proof (neighbour_next _ _ _ _ _ Hg Hf Hn) as Hnb. rewrite (found_id _ _ _ _ _ _ Hfd) in Hnb. rewrite Hnb, Ok_bind.
    destruct (sorted_at _ _ _ _ Hg Hf) as [_ Hy]. apply Forall_cons in Hy as [Hy _].
    pose proof Hf as Hf'. change (A1 ++ x :: y :: B') with (A1 ++ [x] ++ y :: B') in Hf'. rewrite app_assoc in Hf'.
    eexists _, (set_previous false y :: B'). split; [reflexivity|]. split; [auto using good_update|].
    split; [change (A1 ++ x :: set_previous false y :: B') with (A1 ++ [x] ++ set_previous false y :: B'); rewrite app_assoc; by apply rep_update_flat|]. split.
    + rewrite Hb. cbn. by rewrite HB'.
    + rewrite (erase_position_update _ _ _ _ _ _ (keeps_set_previous false) Hp). by rewrite (proj2 (Z.eqb_neq _ _)) by lia.
  - exists t1, B. split; [done|]. split; [done|]. split; [done|]. split; [|done]. rewrite HB. f_equal. unfold b.
    by destruct (link (older id L)), only_from_memory, (have_next_ x).
Qed.

Lemma erase_refined id only_from_memory t L : represents t L -> refined (erase id only_from_memory t) (chain_erase id only_from_memory L).
Proof.
  intros Hrep. unfold chain_erase. destruct (link_of id L) as [n|] eqn:El.
  2: { apply erase_absent; [apply Hrep|by eapply find_message_none]. }
  destruct (find_message _ _ _ _ Hrep El) as (A & x & B & Hfd & <-). destruct (found_position _ _ _ _ _ _ Hrep Hfd) as (p & Hp).
  destruct (erase_previous t L id A x B only_from_memory p Hrep Hfd Hp) as (t1 & A1 & E1 & Hg1 & Hf1 & HA1 & Hp1).
  destruct (erase_next t t1 L id A A1 x B only_from_memory p Hrep Hfd Hg1 Hf1 Hp1) as (t2 & B2 & E2 & Hg2 & Hf2 & HB2 & Hp2).
  unfold erase. rewrite Hp, Ok_bind, E1, Ok_bind, E2, Ok_bind.
  destruct (erase_finish t2 id p x A1 B2 Hg2 Hf2 (found_id _ _ _ _ _ _ Hfd) Hp2) as [Hg' Hf']. eexists. split; [reflexivity|].
  set (b := link (older id L) && have_next_ x && negb only_from_memory) in *.
  assert (Hlb : link (set_link b (older id L)) = b).
  { destruct (decide (older id L = [])) as [E|Hn]; [unfold b; by rewrite E|by apply link_set_link]. }
  eapply rep_intro; [done|done|done|by rewrite Hlb|].
  pose proof (found_end _ _ _ _ _ _ Hrep Hfd) as He. destruct (decide (newer id L = [])) as [E|Hn].
  - rewrite E, app_nil_r, Hlb. unfold b. rewrite E in He. cbn in He. rewrite He. by rewrite andb_false_r.
  - rewrite link_app by done. change ((id, have_next_ x) :: newer id L) with ([(id, have_next_ x)] ++ newer id L) in He. by rewrite link_app in He.
Qed.

(** * Attaching *)

Lemma get_iterator_update t id id' f : keeps f -> get_iterator (update id' f t) id = get_iterator t id.
Proof.
  intros Hf. unfold get_iterator.
  assert (H : forall st pos, seek (update id' f t) id st pos = seek t id st pos).
  { induction t as [|l IHl m r IHr]; intros st pos; cbn [update seek]; [done|].
    replace (message_id_ (if message_id_ m =? id' then f m else m)) with (message_id_ m)
      by (destruct (message_id_ m =? id'); [by destruct (Hf m)|done]).
    cbv zeta. destruct (id_le (message_id_ m) id) as [[]| |]; [rewrite !Ok_bind..| |]; done. }
  destruct (check (negb (is_scheduled id))); [rewrite !Ok_bind; apply H|done..].
Qed.

(** A call on a message that is not there ends in its [CHECK]. *)
Lemma absent_iterator t L id :
  represents t L -> is_valid id = true -> link_of id L = None ->
  exists it, get_iterator t id = Ok it /\ check (bool_decide (current it = Some id)) = Crash.
Proof.
  intros Hrep Hv Hl. pose proof (find_message_none _ _ _ Hrep Hl) as Hn.
  destruct (find_place t L id Hrep (is_valid_ordinary _ Hv) Hn) as (it & A & B & E & Hpl). exists it. split; [done|].
  rewrite (place_current _ _ _ _ _ _ Hpl), bool_decide_eq_false_2; [done|]. intros Hc. destruct (last A) as [x|] eqn:Hx; [|done].
  injection Hc as Hc. destruct Hn. rewrite <- Hc. apply elem_of_ids. rewrite (place_flat _ _ _ _ _ _ Hpl). apply last_Some in Hx as (A' & ->). set_solver.
Qed.

Lemma present_iterator t L id A x B :
  represents t L -> found t L id A x B ->
  exists it, get_iterator t id = Ok it /\ located t it A x B /\ current it = Some id /\ node_at t id = Ok x.
Proof.
  intros Hrep Hfd. pose proof (rep_good _ _ Hrep) as Hg. destruct (iterator_at _ _ _ _ Hg (found_flat _ _ _ _ _ _ Hfd)) as (it & E & Hl).
  rewrite (found_id _ _ _ _ _ _ Hfd) in E. exists it. split_and!; [done..| |].
  - by rewrite (located_current _ _ _ _ _ Hl), (found_id _ _ _ _ _ _ Hfd).
  - rewrite <- (found_id _ _ _ _ _ _ Hfd). by eapply located_deref; [|apply Hg].
Qed.

(** The tree and the position after a flag of the message was set. *)
Lemma found_update t L id A x B it f :
  represents t L -> found t L id A x B -> get_iterator t id = Ok it -> keeps f ->
  let t1 := update id f t in good t1 /\ flatten t1 = A ++ f x :: B /\ located t1 it A (f x) B.
Proof.
  intros Hrep Hfd E Hf t1. pose proof (rep_good _ _ Hrep) as Hg. pose proof (found_id _ _ _ _ _ _ Hfd) as Hid.
  assert (Hg1 : good t1) by by apply good_update.
  assert (Hf1 : flatten t1 = A ++ f x :: B) by (unfold t1; rewrite <- Hid; apply rep_update_flat; [done|apply Hfd]).
  split_and!; [done..|]. destruct (iterator_at _ _ _ _ Hg1 Hf1) as (it' & E' & Hl). destruct (Hf x) as [Hfx _].
  rewrite Hfx, Hid in E'. unfold t1 in E'. rewrite get_iterator_update, E in E' by done. by injection E' as <-.
Qed.

Lemma attach_previous_refined id t L : represents t L -> refined (attach_message_to_previous id t) (chain_attach_previous id L).
Proof.
  intros Hrep. unfold chain_attach_previous, attach_message_to_previous.
  destruct (is_valid id) eqn:Hv; cbn [check negb]; [rewrite Ok_bind|by destruct (link_of id L)].
  destruct (link_of id L) as [n|] eqn:El.
  2: { destruct (absent_iterator _ _ _ Hrep Hv El) as (it & -> & Hc). cbn. rewrite Hc. done. }
  destruct (find_message _ _ _ _ Hrep El) as (A & x & B & Hfd & <-). pose proof (found_id _ _ _ _ _ _ Hfd) as Hid.
  destruct (present_iterator _ _ _ _ _ _ Hrep Hfd) as (it & E & _ & Hcur & Hx).
  rewrite E, Ok_bind, Hcur, bool_decide_eq_true_2 by done. cbn [check]. rewrite Ok_bind, Hx, Ok_bind, (found_previous _ _ _ _ _ _ Hfd).
  destruct (link (older id L)) eqn:Hlk; [by exists t|].
  destruct (found_update _ _ _ _ _ _ _ (set_previous true) Hrep Hfd E (keeps_set_previous true)) as (Hg1 & Hf1 & Hl1).
  destruct (decrement_located _ _ _ _ _ Hl1 (good_sorted _ Hg1)) as (it' & -> & Hpos). rewrite Ok_bind. cbn [have_previous_ set_previous] in Hpos.
  destruct (decide (A = [])) as [->|HA].
  { rewrite (bool_decide_eq_true_2 (older id L = [])) by exact (flags_nil _ _ (found_older _ _ _ _ _ _ Hfd)). unfold position in Hpos. cbn in Hpos. by rewrite Hpos. }
  destruct (found_prev _ _ _ _ _ _ Hfd HA) as (A' & y & lo & -> & Ho & HA' & Hpy & Hxy).
  rewrite (bool_decide_eq_false_2 (older id L = [])) by (rewrite Ho; by destruct lo).
  unfold position in Hpos. rewrite last_snoc in Hpos. destruct Hpos as (A2 & E2 & Hl2). rewrite (located_current _ _ _ _ _ Hl2).
  rewrite (located_deref _ _ _ _ _ Hl2 (good_sorted _ Hg1)), Ok_bind.
  rewrite (found_previous _ _ _ _ _ _ Hfd), Hlk in Hxy. rewrite <- Hxy. eexists. split; [reflexivity|].
  rewrite <- app_assoc in Hf1. cbn [app] in Hf1. pose proof (rep_update_flat _ _ _ _ (set_next true) Hg1 Hf1) as Hf2.
  rewrite Ho, set_link_snoc. eapply (rep_intro _ (A' ++ [set_next true y]) (set_previous true x :: B)); [auto using good_update| | | |].
  - by rewrite <- app_assoc.
  - rewrite map_app, HA', entries_app. cbn. unfold flags. cbn. by rewrite Hpy.
  - rewrite link_snoc, map_cons, (found_newer _ _ _ _ _ _ Hfd). unfold flags. cbn. by rewrite Hid.
  - rewrite link_app by done. by eapply found_end.
Qed.

Lemma attach_next_refined id t L : represents t L -> refined (attach_message_to_next id t) (chain_attach_next id L).
Proof.
  intros Hrep. unfold chain_attach_next, attach_message_to_next.
  destruct (is_valid id) eqn:Hv; cbn [check negb]; [rewrite Ok_bind|by destruct (link_of id L)].
  destruct (link_of id L) as [n|] eqn:El.
  2: { destruct (absent_iterator _ _ _ Hrep Hv El) as (it & -> & Hc). cbn. rewrite Hc. done. }
  destruct (find_message _ _ _ _ Hrep El) as (A & x & B & Hfd & <-). pose proof (found_id _ _ _ _ _ _ Hfd) as Hid.
  destruct (present_iterator _ _ _ _ _ _ Hrep Hfd) as (it & E & _ & Hcur & Hx).
  rewrite E, Ok_bind, Hcur, bool_decide_eq_true_2 by done. cbn [check]. rewrite Ok_bind, Hx, Ok_bind.
  destruct (have_next_ x) eqn:Hn; [by exists t|].
  destruct (found_update _ _ _ _ _ _ _ (set_next true) Hrep Hfd E (keeps_set_next true)) as (Hg1 & Hf1 & Hl1).
  destruct (increment_located _ _ _ _ _ Hl1 (good_sorted _ Hg1)) as (it' & -> & Hpos). rewrite Ok_bind. cbn [have_next_ set_next] in Hpos.
  pose proof (found_newer _ _ _ _ _ _ Hfd) as HB. rewrite Hn in HB. destruct B as [|y B].
  { rewrite (bool_decide_eq_true_2 (newer id L = [])) by exact (flags_nil _ _ HB). by rewrite Hpos. }
  destruct (flags_cons _ _ _ _ HB) as (hi & Hhi & Hpy & HB'). rewrite (bool_decide_eq_false_2 (newer id L = [])) by (by rewrite Hhi).
  rewrite (located_current _ _ _ _ _ Hpos), (located_deref _ _ _ _ _ Hpos (good_sorted _ Hg1)), Ok_bind, Hpy.
  eexists. split; [reflexivity|]. change (A ++ set_next true x :: y :: B) with (A ++ [set_next true x] ++ y :: B) in Hf1. rewrite app_assoc in Hf1.
  pose proof (rep_update_flat _ _ _ _ (set_previous true) Hg1 Hf1) as Hf2.
  eapply (rep_intro _ A (set_next true x :: set_previous true y :: B)); [auto using good_update| | | |].
  - by rewrite Hf2, <- app_assoc.
  - apply Hfd.
  - rewrite Hhi, !map_cons, HB'. unfold flags. cbn. by rewrite Hid, (found_previous _ _ _ _ _ _ Hfd).
  - pose proof (found_end _ _ _ _ _ _ Hrep Hfd) as He. rewrite link_app by done. apply link_cons_end; [by rewrite Hhi|].
    rewrite Hhi in *. change ((id, have_next_ x) :: ?a :: hi) with ([(id, have_next_ x)] ++ a :: hi) in He. by rewrite link_app in He.
Qed.

Lemma call_refined c t L : represents t L -> refined (tree_call c t) (chain_call c L).
Proof.
  intros Hrep. destruct c; [by apply insert_refined|by apply erase_refined|by apply attach_previous_refined|by apply attach_next_refined].
Qed.

Lemma run_refined (calls : list call) : refined (run tree_call calls Leaf) (run chain_call calls []).
Proof.
  unfold run. assert (Hr : refined (Ok Leaf) (Ok [])) by (exists Leaf; split; [done|apply rep_empty]).
  revert Hr. generalize (Ok Leaf : outcome tree) as rt. generalize (Ok [] : outcome (list (Z * bool))) as rl.
  induction calls as [|c calls IH]; intros rl rt Hr; cbn [foldl]; [done|].
  apply IH. destruct rl as [L| |]; cbn in Hr; [destruct Hr as (t & -> & Hrep); by apply call_refined|by rewrite Hr..].
Qed.

(** What a run gives, for concrete runs. *)
Lemma run_represents (calls : list call) t L : run tree_call calls Leaf = Ok t -> run chain_call calls [] = Ok L -> represents t L.
Proof. intros Et El. pose proof (run_refined calls) as Hr. rewrite Et, El in Hr. destruct Hr as (t' & [= <-] & Hrep). done. Qed.

(** C8: The treap of a chat's messages is its chain, whatever is inserted,
    erased and attached and in whatever order: after every sequence of calls the
    nodes in order are the identifiers of the chain, with the flags that its
    links say (so that a message has a next one exactly when the one after has a
    previous one), and the calls that fail a [CHECK] are the same. *)
Theorem ordered_messages_refine (calls : list call) :
  match run chain_call calls [] with
  | Ok L => exists t, run tree_call calls Leaf = Ok t /\ represents t L
  | _ => run tree_call calls Leaf = Crash
  end.
Proof.
  pose proof (run_refined calls) as Hr. unfold refined in Hr. by destruct (run chain_call calls []).
Qed.
