(* ===== verification/MessageHistory.v ===== *)
(** Walking over the messages of a chat: searches, the history and the number of
    unread messages, as functions of the chain. *)
From S2P Require Import Prelude Bytes MessageId OrderedMessages OrderedMessagesSpec MessageChain.
#[local] Open Scope Z_scope.
Implicit Types L : list (Z * bool).

(** * Runs of linked messages *)

(** From the first message on, while the next one is linked. *)
Fixpoint run_forward L : list Z :=
  match L with [] => [] | (x, n) :: L => x :: if n then run_forward L else [] end.

(** From the last message back, while the one before is linked. *)
Fixpoint run_reversed (R : list (Z * bool)) : list Z :=
  match R with
  | [] => []
  | (x, _) :: R => x :: match R with (_, true) :: _ => run_reversed R | _ => [] end
  end.
Definition run_back L : list Z := run_reversed (reverse L).

Lemma run_back_snoc L x n : run_back (L ++ [(x, n)]) = x :: if link L then run_back L else [].
Proof.
  unfold run_back, link. rewrite reverse_snoc. cbn [run_reversed]. f_equal.
  destruct L as [|[y k] L _] using rev_ind; [done|]. rewrite reverse_snoc, last_snoc. by destruct k.
Qed.

(** An iterator that visits the identifiers [l] and then ends. *)
Inductive visits (step : stack -> outcome stack) : stack -> list Z -> Prop :=
| visits_end : visits step [] []
| visits_step it id it' l : current it = Some id -> step it = Ok it' -> visits step it' l -> visits step it (id :: l).

Lemma visits_back t L it A B LA :
  represents t L -> flatten t = A ++ B -> position t it A B -> map flags A = entries false LA -> visits (decrement t) it (run_back LA).
Proof.
  intros Hrep. revert it B LA. induction A as [|x A IH] using rev_ind; intros it B LA Hf Hp HA.
  - rewrite (flags_nil _ _ HA). unfold position in Hp. cbn in Hp. subst it. constructor.
  - destruct (flags_snoc _ _ _ HA) as (LA' & -> & HA' & Hpx). unfold position in Hp. rewrite last_snoc in Hp.
    destruct Hp as (A2 & E & Hl). apply app_inj_tail in E as [<- _]. rewrite run_back_snoc.
    destruct (decrement_located _ _ _ _ _ Hl (good_sorted _ (rep_good _ _ Hrep))) as (it' & Hd & Hp). rewrite Hpx in Hp.
    econstructor; [by eapply located_current|done|]. destruct (link LA').
    + eapply IH; [|done..]. by rewrite Hf, <- app_assoc.
    + unfold position in Hp. cbn in Hp. subst it'. constructor.
Qed.

Lemma visits_forward t L it A x B LB :
  represents t L -> located t it A x B -> map flags (x :: B) = entries (have_previous_ x) LB -> visits (increment t) it (run_forward LB).
Proof.
  intros Hrep. revert it A x LB. induction B as [|y B IH]; intros it A x LB Hl HB; destruct (flags_cons _ _ _ _ HB) as (LB' & -> & _ & HB').
  - rewrite (flags_nil _ _ HB'). cbn. destruct (increment_located _ _ _ _ _ Hl (good_sorted _ (rep_good _ _ Hrep))) as (it' & Hi & Hp).
    econstructor; [by eapply located_current|done|]. destruct (have_next_ x); subst it'; constructor.
  - destruct (increment_located _ _ _ _ _ Hl (good_sorted _ (rep_good _ _ Hrep))) as (it' & Hi & Hp). cbn [run_forward].
    econstructor; [by eapply located_current|done|]. destruct (have_next_ x) eqn:Hn; [|subst it'; constructor].
    eapply IH; [done|]. destruct (flags_cons _ _ _ _ HB') as (LB2 & -> & Hpy & _). by rewrite Hpy.
Qed.

Lemma length_run_back L : (length (run_back L) <= length L)%nat.
Proof.
  unfold run_back. rewrite <- (length_reverse L). induction (reverse L) as [|[x n] R IH]; cbn [run_reversed length]; [lia|].
  destruct R as [|[y []] R]; cbn [length] in *; lia.
Qed.

Lemma length_run_forward L : (length (run_forward L) <= length L)%nat.
Proof. induction L as [|[x []] L IH]; cbn [run_forward length]; lia. Qed.

Lemma visits_current step it l : visits step it l -> current it = head l.
Proof. by destruct 1. Qed.

(** The messages up to an identifier, and from it on. *)
Definition upto (id : Z) L := filter (fun e : Z * bool => e.1 <= id) L.
Definition from_id (id : Z) L := filter (fun e : Z * bool => id <= e.1) L.

Lemma chain_cases t L id :
  represents t L ->
  (link_of id L = None /\ L = older id L ++ newer id L /\ upto id L = older id L /\ from_id id L = newer id L) \/
  (exists n, link_of id L = Some n /\ L = older id L ++ (id, n) :: newer id L /\
     upto id L = older id L ++ [(id, n)] /\ from_id id L = (id, n) :: newer id L).
Proof.
  intros Hrep.
  assert (Hu : Forall (fun e : Z * bool => e.1 < id) (older id L)) by (apply Forall_forall; intros e He; apply list_elem_of_filter in He; apply He).
  assert (Hn : Forall (fun e : Z * bool => id < e.1) (newer id L)) by (apply Forall_forall; intros e He; apply list_elem_of_filter in He; apply He).
  assert (Hua : filter (fun e : Z * bool => e.1 <= id) (older id L) = older id L) by (apply filter_all; eapply Forall_impl; [done|]; cbn; lia).
  assert (Hub : filter (fun e : Z * bool => e.1 <= id) (newer id L) = []) by (apply filter_none; eapply Forall_impl; [done|]; cbn; lia).
  assert (Hna : filter (fun e : Z * bool => id <= e.1) (older id L) = []) by (apply filter_none; eapply Forall_impl; [done|]; cbn; lia).
  assert (Hnb : filter (fun e : Z * bool => id <= e.1) (newer id L) = newer id L) by (apply filter_all; eapply Forall_impl; [done|]; cbn; lia).
  destruct (link_of id L) as [n|] eqn:E.
  - right. exists n. split; [done|]. destruct (find_message _ _ _ _ Hrep E) as (A & x & B & Hfd & <-).
    pose proof (found_chain _ _ _ _ _ _ Hfd) as HL. split; [done|]. unfold upto, from_id. rewrite HL at 1 3. rewrite !filter_app.
    rewrite Hua, Hna, !filter_cons_True by (cbn; lia). by rewrite Hub, Hnb.
  - left. split; [done|].
    assert (HL : L = older id L ++ newer id L).
    { pose proof (find_message_none _ _ _ Hrep E) as Hi. rewrite (rep_ids _ _ Hrep) in Hi. clear -Hi Hrep.
      pose proof (good_sorted _ (rep_good _ _ Hrep)) as Hs. unfold sorted in Hs. rewrite (rep_ids _ _ Hrep) in Hs. clear Hrep.
      induction L as [|[x n] L IH]; [done|]. cbn [map fst] in *. apply StronglySorted_inv in Hs as [Hs Hf].
      unfold older, newer in *. destruct (decide (x < id)) as [Hx|Hx].
      - rewrite filter_cons_True, filter_cons_False by (cbn; lia). cbn [app]. f_equal. apply IH; [set_solver|done].
      - assert (x <> id) by set_solver. rewrite filter_cons_False, filter_cons_True by (cbn; lia).
        rewrite Forall_map in Hf. rewrite (filter_none (fun e : Z * bool => e.1 < id) L), (filter_all (fun e : Z * bool => id < e.1) L); [done|..];
          (eapply Forall_impl; [exact Hf|]; cbn; lia). }
    split; [done|]. unfold upto, from_id. rewrite HL at 1 3. by rewrite !filter_app, Hua, Hub, Hna, Hnb, app_nil_r.
Qed.

(** Where an iterator stands, and what it visits going back. *)
Lemma iterator_back t L id :
  represents t L -> is_scheduled id = false ->
  exists it A B, get_iterator t id = Ok it /\ cut_at id t A B /\ position t it A B /\
    map flags A = entries false (upto id L) /\ visits (decrement t) it (run_back (upto id L)).
Proof.
  intros Hrep Hk. destruct (rep_iterator t L id Hrep Hk) as (it & A & B & E & Hc & Hp & _). exists it, A, B. split; [done|]. split; [done|]. split; [done|].
  assert (HA : map flags A = entries false (upto id L)).
  { destruct (chain_cases t L id Hrep) as [(El & _ & Hu & _)|(n & El & _ & Hu & _)];
      destruct (rep_cut _ _ _ _ _ Hrep Hc) as [(El' & _ & _ & HA & _)|(A' & x & n' & -> & Hid & El' & Hn & Hpx & HA & _)].
    - by rewrite Hu.
    - congruence.
    - congruence.
    - rewrite Hu, map_app, HA, entries_app. cbn. unfold flags. rewrite Hid, Hn, Hpx, El in *. injection El' as ->. done. }
  split; [done|]. eapply visits_back; [done|apply Hc|done..].
Qed.

Lemma size_chain t L : represents t L -> size t = length L.
Proof. intros Hrep. rewrite size_flatten. rewrite <- (length_map message_id_). fold (ids t). by rewrite (rep_ids _ _ Hrep), length_map. Qed.

(** * The loops *)

Lemma int32_int32_add a b : int32 (int32 a + b) = int32 (a + b).
Proof.
  unfold int32. f_equal. replace ((a + 2 ^ 31) mod 2 ^ 32 - 2 ^ 31 + b + 2 ^ 31) with ((a + 2 ^ 31) mod 2 ^ 32 + b) by lia.
  rewrite Zplus_mod_idemp_l. f_equal. lia.
Qed.

(** The identifiers of [l] above the bound that count. *)
Definition counted (f : Z -> bool) (bound : Z) (l : list Z) : list Z := filter (fun id => bound < id /\ f id = true) l.

Lemma counted_cons f bound id l :
  counted f bound (id :: l) = if decide (bound < id /\ f id = true) then id :: counted f bound l else counted f bound l.
Proof. unfold counted. by rewrite filter_cons. Qed.

Lemma counted_none f bound l : Forall (fun y => y <= bound) l -> counted f bound l = [].
Proof. intros Hl. apply filter_none. eapply Forall_impl; [exact Hl|]. cbn. lia. Qed.

Lemma count_loop_spec f fuel t bound step it l c :
  visits (decrement t) it l -> StronglySorted Z.gt l -> Forall (fun id => is_scheduled id = false) l -> is_scheduled bound = false ->
  (length l <= fuel)%nat -> - 2 ^ 31 <= c < 2 ^ 31 ->
  exists it', count_loop f fuel t bound step it c = Ok (it', int32 (c + step * len (counted f bound l))) /\
    visits (decrement t) it' (filter (fun y => y <= bound) l).
Proof.
  intros Hv. revert fuel c. induction Hv as [|it id it' l Hc Hd Hv IH]; intros fuel c Hs Ho Hb Hfuel Hr.
  - exists []. split; [|constructor]. destruct fuel; cbn [count_loop current head]; rewrite Z.mul_0_r, Z.add_0_r, int32_small; done.
  - destruct fuel as [|fuel]; cbn [length] in Hfuel; [lia|]. cbn [count_loop]. rewrite Hc.
    apply Forall_cons in Ho as [Hid Ho]. apply StronglySorted_inv in Hs as [Hs Hgt]. rewrite ordinary_lt, Ok_bind by done.
    rewrite counted_cons, filter_cons. destruct (Z.ltb_spec bound id) as [Hlt|Hge].
    + rewrite (decide_False (P := id <= bound)) by lia. rewrite Hd.
      assert (Hr' : forall a, - 2 ^ 31 <= int32 a < 2 ^ 31) by (intros a; unfold int32; pose proof (Z.mod_pos_bound (a + 2 ^ 31) (2 ^ 32) ltac:(lia)); lia).
      destruct (f id) eqn:Ef.
      * rewrite decide_True by done. destruct (IH fuel (int32 (c + step)) Hs Ho Hb ltac:(lia) (Hr' _)) as (it2 & E & Hv2).
        exists it2. rewrite Ok_bind, E, int32_int32_add, len_cons. split; [|done]. do 3 f_equal. lia.
      * rewrite decide_False by naive_solver. destruct (IH fuel c Hs Ho Hb ltac:(lia) Hr) as (it2 & E & Hv2). exists it2. by rewrite Ok_bind, E.
    + rewrite decide_False by lia. rewrite decide_True by lia.
      assert (Hle : Forall (fun y => y <= bound) l) by (eapply Forall_impl; [exact Hgt|]; cbn; lia).
      rewrite (filter_all _ l Hle), (counted_none f bound l Hle).
      exists it. split; [|by econstructor]. rewrite len_nil, Z.mul_0_r, Z.add_0_r, int32_small by done. done.
Qed.

Lemma collect_loop_spec fuel t limit it l acc from from_the_end :
  visits (decrement t) it l -> (length l <= fuel)%nat -> len acc <= limit < 2 ^ 64 ->
  let got := take (Z.to_nat (limit - len acc)) l in
  collect_loop fuel t limit it acc from from_the_end =
    Ok (acc ++ got, default from (last got), from_the_end && bool_decide (got = [])).
Proof.
  intros Hv. revert fuel acc from from_the_end. induction Hv as [|it id it' l Hc Hd Hv IH]; intros fuel acc from from_the_end Hfuel Hl got.
  - unfold got. rewrite take_nil. cbn [last default]. rewrite app_nil_r, bool_decide_eq_true_2, andb_true_r by done. by destruct fuel.
  - destruct fuel as [|fuel]; cbn [length] in Hfuel; [lia|]. cbn [collect_loop]. rewrite Hc.
    assert (E64 : uint64 limit = limit) by (unfold uint64; apply Z.mod_small; pose proof (len_nonneg acc); lia). rewrite E64.
    destruct (Z.ltb_spec (len acc) limit) as [Hlt|Hge].
    + rewrite Hd, Ok_bind, IH; [|lia|rewrite len_app, len_cons, len_nil; lia].
      unfold got. replace (Z.to_nat (limit - len acc)) with (S (Z.to_nat (limit - len (acc ++ [id])))) by (rewrite len_app, len_cons, len_nil; lia).
      cbn [take andb]. rewrite last_cons, <- app_assoc. cbn [app]. rewrite (bool_decide_eq_false_2 (id :: _ = [])), andb_false_r by done.
      by destruct (last (take (Z.to_nat (limit - len (acc ++ [id]))) l)).
    + unfold got. replace (Z.to_nat (limit - len acc)) with 0%nat by lia. cbn [take last default].
      rewrite app_nil_r, bool_decide_eq_true_2, andb_true_r by done. done.
Qed.

Lemma last_sent_spec fuel t it l :
  visits (decrement t) it l -> (length l <= fuel)%nat -> Forall (fun id => is_valid id = true) l ->
  last_sent_loop fuel t it = Ok (default 0 (head (filter (fun id => get_type id <> YetUnsent) l))).
Proof.
  intros Hv. revert fuel. induction Hv as [|it id it' l Hc Hd Hv IH]; intros fuel Hfuel Hval; [by destruct fuel|].
  destruct fuel as [|fuel]; cbn [length] in Hfuel; [lia|]. cbn [last_sent_loop]. apply Forall_cons in Hval as [Hid Hval].
  rewrite Hc, yet_unsent_type, Ok_bind by done. rewrite filter_cons. destruct (decide (get_type id = YetUnsent)) as [E|E].
  - rewrite bool_decide_eq_true_2, decide_False by naive_solver. cbn [negb]. rewrite Hd, Ok_bind. apply IH; [lia|done].
  - rewrite bool_decide_eq_false_2, decide_True by done. done.
Qed.

Lemma newer_loop_spec fuel t L it A x B LB offset from :
  represents t L -> located t it A x B -> map flags B = entries (have_next_ x) LB -> (length B < fuel)%nat -> offset <= 0 ->
  let F := if have_next_ x then run_forward LB else [] in
  if - offset <=? len F then
    exists it' A' x' B', newer_loop fuel t it offset from = Ok (it', 0, if offset =? 0 then from else message_id_ x') /\
      located t it' A' x' B' /\ (message_id_ x :: F) !! Z.to_nat (- offset) = Some (message_id_ x')
  else newer_loop fuel t it offset from = Ok ([], offset + len F, default from (last F)).
Proof.
  intros Hrep. revert fuel it A x LB offset from. induction B as [|y B IH]; intros fuel it A x LB offset from Hl HB Hfuel Hoff F.
  all: destruct fuel as [|fuel]; cbn [length] in Hfuel; [lia|]; cbn [newer_loop]; rewrite (located_current _ _ _ _ _ Hl).
  all: destruct (increment_located _ _ _ _ _ Hl (good_sorted _ (rep_good _ _ Hrep))) as (it' & Hi & Hp).
  all: destruct (Z.ltb_spec offset 0) as [Ho|Ho];
    [|rewrite (proj2 (Z.leb_le (- offset) (len F))) by (pose proof (len_nonneg F); lia);
      assert (offset = 0) as -> by lia; by eexists it, A, x, _].
  - assert (EF : F = []) by (unfold F; rewrite (flags_nil _ _ HB); by destruct (have_next_ x)). rewrite EF, len_nil. cbn [last default].
    rewrite (proj2 (Z.leb_gt _ _)) by lia. rewrite Hi, Ok_bind. assert (it' = []) as -> by (by destruct (have_next_ x)).
    cbn [current head]. rewrite Z.add_0_r. by destruct fuel.
  - destruct (flags_cons _ _ _ _ HB) as (LB' & -> & Hpy & HB'). destruct (have_next_ x) eqn:Hn.
    + rewrite Hi, Ok_bind, (located_current _ _ _ _ _ Hp). cbn [run_forward] in F.
      specialize (IH fuel it' (A ++ [x]) y LB' (offset + 1) (message_id_ y) Hp HB' ltac:(lia) ltac:(lia)). cbv zeta in IH.
      set (F' := if have_next_ y then run_forward LB' else []) in *. fold F' in F. unfold F. rewrite len_cons.
      destruct (Z.leb_spec (- offset) (1 + len F')) as [Hk|Hk].
      * rewrite (proj2 (Z.leb_le _ _)) in IH by lia. destruct IH as (it2 & A2 & x2 & B2 & E & Hl2 & Hx2). exists it2, A2, x2, B2.
        replace (Z.to_nat (- offset)) with (S (Z.to_nat (- (offset + 1)))) by lia. cbn [lookup list_lookup]. split_and!; [|done..].
        rewrite E. rewrite (proj2 (Z.eqb_neq offset 0)) by lia. destruct (Z.eqb_spec (offset + 1) 0) as [E0|_]; [|done].
        rewrite E0 in Hx2. cbn in Hx2. by injection Hx2 as ->.
      * rewrite (proj2 (Z.leb_gt _ _)) in IH by lia. rewrite IH, last_cons, <- Z.add_assoc. by destruct (last F').
    + subst it'. cbn [run_forward] in F. unfold F. rewrite len_nil, (proj2 (Z.leb_gt _ _)) by lia. rewrite Hi, Ok_bind. cbn [current head last default].
      rewrite Z.add_0_r. by destruct fuel.
Qed.

Lemma newer_loop_done fuel t it offset from : 0 <= offset -> newer_loop fuel t it offset from = Ok (it, offset, from).
Proof.
  intros Ho. destruct fuel; cbn [newer_loop]; destruct (current it); rewrite ?(proj2 (Z.ltb_ge offset 0)) by done; done.
Qed.

(** * The history *)

(** The messages that are known to be adjacent around an identifier: those from
    it on, in their order, and those before it, backward; none when the
    identifier is in a gap. *)
Definition window L (from : Z) : option (list Z * list Z) :=
  if bool_decide (link_of from L = None) && negb (link (older from L)) then None
  else Some (run_forward (from_id from L), if link (older from L) then run_back (older from L) else []).

(** The first message instead of an identifier before all messages. *)
Definition forced_start L (from offset : Z) (force : bool) : Z :=
  if force && (offset <? 0) && bool_decide (upto from L = []) then
    match L with (id, _) :: _ => id | [] => from end
  else from.

Definition history L (last_message_id from offset limit : Z) (force : bool) : list Z :=
  if negb (last_message_id =? 0) && (last_message_id <? from) || (max_id <=? from) then
    if last_message_id =? 0 then [] else take (Z.to_nat (limit + offset)) (run_back (upto from L))
  else
    match window L (forced_start L from offset force) with
    | None => []
    | Some (newer_ids, older_ids) =>
        if - offset <=? len newer_ids then take (Z.to_nat limit) (reverse (take (Z.to_nat (- offset)) newer_ids) ++ older_ids)
        else if negb (last_message_id =? 0) && (last_message_id <=? default 0 (last newer_ids)) || force
        then take (Z.to_nat (limit + offset + len newer_ids)) (reverse newer_ids ++ older_ids)
        else []
    end.

Lemma run_back_forward lo hi j x :
  run_forward hi !! j = Some x ->
  exists P n S, hi = P ++ (x, n) :: S /\
    run_back (lo ++ P ++ [(x, n)]) = reverse (take (Datatypes.S j) (run_forward hi)) ++ (if link lo then run_back lo else []).
Proof.
  revert lo j. induction hi as [|[y n] hi IH]; intros lo j Hj; [done|]. cbn [run_forward] in *. destruct j as [|j]; cbn in Hj.
  - injection Hj as ->. exists [], n, hi. split; [done|]. cbn [app]. by rewrite run_back_snoc.
  - destruct n; [|done]. destruct (IH (lo ++ [(y, true)]) j Hj) as (P & n & S & -> & E). exists ((y, true) :: P), n, S. split; [done|].
    rewrite <- app_assoc in E. cbn [app] in *. rewrite E, link_snoc, run_back_snoc. cbn [take]. rewrite (reverse_cons _ y), <- app_assoc. done.
Qed.

Lemma upto_prefix t L P x n S : represents t L -> L = P ++ (x, n) :: S -> upto x L = P ++ [(x, n)].
Proof.
  intros Hrep HL. pose proof (good_sorted _ (rep_good _ _ Hrep)) as Hs. unfold sorted in Hs. rewrite (rep_ids _ _ Hrep), HL, map_app in Hs.
  cbn [map fst] in Hs. apply sorted_mid in Hs as (_ & _ & HP & HS & _).
  assert (HPf : Forall (fun e : Z * bool => e.1 <= x) P).
  { apply Forall_forall. intros e He. assert (e.1 < x); [|lia]. apply HP, list_elem_of_In, in_map, list_elem_of_In, He. }
  assert (HSf : Forall (fun e : Z * bool => ~ e.1 <= x) S).
  { apply Forall_forall. intros e He. assert (x < e.1); [|lia]. apply HS, list_elem_of_In, in_map, list_elem_of_In, He. }
  unfold upto. rewrite HL, filter_app, filter_cons_True by (cbn; lia). by rewrite (filter_all _ P), (filter_none _ S).
Qed.

Lemma located_back t L it A x B : represents t L -> located t it A x B -> visits (decrement t) it (run_back (upto (message_id_ x) L)).
Proof.
  intros Hrep Hl. pose proof (located_flatten _ _ _ _ _ Hl) as Hf. pose proof (rep_good _ _ Hrep) as Hg.
  destruct (rep_split t L (A ++ [x]) B Hrep) as (LA & LB & HL & HA & _); [by rewrite <- app_assoc|].
  destruct (flags_snoc _ _ _ HA) as (LA' & -> & _). rewrite <- app_assoc in HL. cbn [app] in HL.
  rewrite (upto_prefix _ _ _ _ _ _ Hrep HL). apply (visits_back t L it (A ++ [x]) B); [done|by rewrite <- app_assoc| |done].
  unfold position. rewrite last_snoc. by exists A.
Qed.

(** The chain before a position, and a message of the run after it. *)
Lemma run_at t L lo hi j x :
  represents t L -> L = lo ++ hi -> run_forward hi !! j = Some x ->
  run_back (upto x L) = reverse (take (S j) (run_forward hi)) ++ (if link lo then run_back lo else []).
Proof.
  intros Hrep HL Hj. destruct (run_back_forward lo hi j x Hj) as (P & n & S & -> & E). rewrite <- E. f_equal.
  rewrite app_assoc in HL. rewrite (upto_prefix _ _ _ _ _ _ Hrep HL). by rewrite <- app_assoc.
Qed.

Lemma flatten_size t A B : flatten t = A ++ B -> (length A <= size t /\ length B <= size t)%nat.
Proof. intros Hf. rewrite size_flatten, Hf, length_app. lia. Qed.

Lemma apply_offset_gap t last_message_id from offset limit force :
  offset <= 0 -> (last_message_id <> 0 -> is_scheduled last_message_id = false /\ is_scheduled from = false /\ from < last_message_id) ->
  apply_offset t last_message_id from offset limit force true [] = Ok ([], from, offset, limit).
Proof.
  intros Ho Hlast. unfold apply_offset.
  assert (E : newer_loop (size t) t [] offset from = Ok ([], offset, from)) by (by destruct (size t)). rewrite E, Ok_bind.
  cbn [negb andb]. destruct (offset <? 0); [|done]. destruct (Z.eqb_spec last_message_id 0) as [_|Hne]; [done|].
  destruct (Hlast Hne) as (Hk & Hkf & Hlt). rewrite ordinary_le, (proj2 (Z.leb_gt _ _)) by done. done.
Qed.

Section Offset.
Context (t : tree) (L : list (Z * bool)) (Hrep : represents t L).
Context (N O : list Z).
(** [N] is a run and [O] the run before it. *)
Context (Hrun : forall j y, N !! j = Some y -> run_back (upto y L) = reverse (take (S j) N) ++ O).
Context (HN : forall y, y ∈ N -> y ∈ ids t).

Lemma run_iterator j y :
  N !! j = Some y -> exists it, get_iterator t y = Ok it /\ visits (decrement t) it (reverse (take (S j) N) ++ O).
Proof.
  intros Hj. assert (Hy : y ∈ ids t) by (apply HN; by eapply list_elem_of_lookup_2).
  destruct (iterator_back t L y Hrep (ordinary_elem _ _ (rep_good _ _ Hrep) Hy)) as (it & A & B & E & _ & _ & _ & Hv).
  exists it. split; [done|]. by rewrite <- (Hrun j y Hj).
Qed.

(** The iterator stands on the first message of [N], or right before it. *)
Lemma apply_offset_spec last_message_id from offset limit force it A x B LB (on_first : bool) :
  located t it A x B -> map flags B = entries (have_next_ x) LB ->
  let F := if have_next_ x then run_forward LB else [] in
  (if on_first then N = message_id_ x :: F /\ from = message_id_ x else N = F /\ N <> [] /\ O = run_back (upto (message_id_ x) L)) ->
  offset <= 0 -> (last_message_id <> 0 -> is_scheduled last_message_id = false) ->
  let k := - offset + (if on_first then 1 else 0) in
  let r := apply_offset t last_message_id from offset limit force false it in
  if k <=? len N then exists it2 from2, r = Ok (it2, from2, 0, limit) /\ visits (decrement t) it2 (reverse (take (Z.to_nat k) N) ++ O)
  else if negb (last_message_id =? 0) && (last_message_id <=? default 0 (last N)) || force
  then exists it2 from2, r = Ok (it2, from2, 0, limit - k + len N) /\ visits (decrement t) it2 (reverse N ++ O)
  else exists it2 from2 offset2, r = Ok (it2, from2, offset2, limit) /\ offset2 < 0.
Proof.
  intros Hl HB F HF Ho Hlast k r. unfold apply_offset in r.
  pose proof (located_flatten _ _ _ _ _ Hl) as Hf.
  pose proof (newer_loop_spec (size t) t L it A x B LB offset from Hrep Hl HB) as Hloop. cbv zeta in Hloop. fold F in Hloop.
  specialize (Hloop ltac:(destruct (flatten_size t A (x :: B) Hf) as [_ H]; cbn in H; lia) Ho).
  assert (Hk : k - len N = - offset - len F).
  { unfold k. destruct on_first; [destruct HF as [-> _]; rewrite len_cons; lia|destruct HF as (-> & _); lia]. }
  destruct (Z.leb_spec (- offset) (len F)) as [Hle|Hgt].
  - rewrite (proj2 (Z.leb_le k (len N))) by lia. destruct Hloop as (it' & A' & x' & B' & E & Hl' & Hx').
    unfold r. rewrite E, Ok_bind. cbn [Z.ltb Z.compare]. rewrite !Ok_bind. cbn [negb andb]. eexists it', _. split; [reflexivity|].
    pose proof (located_back _ _ _ _ _ _ Hrep Hl') as Hv. destruct on_first.
    + destruct HF as [HNx _]. rewrite <- HNx in Hx'. rewrite (Hrun _ _ Hx') in Hv.
      replace (Z.to_nat k) with (S (Z.to_nat (- offset))) by (unfold k; lia). done.
    + destruct HF as (HNF & _ & HO). replace (Z.to_nat k) with (Z.to_nat (- offset)) by (unfold k; lia).
      destruct (Z.to_nat (- offset)) as [|j] eqn:Ej; cbn [lookup list_lookup] in Hx'.
      * injection Hx' as Hx'. change (reverse (take 0 N)) with (@nil Z). cbn [app]. by rewrite HO, Hx'.
      * rewrite <- HNF in Hx'. by rewrite (Hrun _ _ Hx') in Hv.
  - rewrite (proj2 (Z.leb_gt k (len N))) by lia. unfold r. rewrite Hloop, Ok_bind.
    assert (Hlastid : default from (last F) = default 0 (last N) /\ exists j, N !! j = Some (default 0 (last N)) /\ S j = length N).
    { assert (HNn : N <> []) by (destruct on_first; [destruct HF as [-> _]; done|apply HF]).
      destruct (exists_last HNn) as (N' & y & EN). rewrite EN, last_snoc. cbn [default]. split.
      - destruct on_first.
        + destruct HF as [HNx ->]. rewrite HNx in EN. destruct F as [|z F'] eqn:EF; [by destruct N' as [|? [|]]; [injection EN as ->|..]|].
          rewrite <- EF in *. destruct N' as [|? N'']; [by injection EN as -> ->|]. injection EN as _ EN. by rewrite EN, last_snoc.
        + destruct HF as [HNF _]. by rewrite <- HNF, EN, last_snoc.
      - exists (length N'). rewrite list_lookup_middle by done. split; [done|]. rewrite length_app. cbn. lia. }
    destruct Hlastid as [-> (j & Hj & Hlen)]. rewrite (proj2 (Z.ltb_lt (offset + len F) 0)) by lia.
    destruct (run_iterator j _ Hj) as (it2 & Eit & Hv). rewrite Hlen, take_ge in Hv by lia.
    assert (Hreach : (if last_message_id =? 0 then Ok false else id_le last_message_id (default 0 (last N)))
      = Ok (negb (last_message_id =? 0) && (last_message_id <=? default 0 (last N)))).
    { destruct (Z.eqb_spec last_message_id 0) as [_|Hne]; [done|]. rewrite ordinary_le; [done|by apply Hlast|].
      eapply ordinary_elem; [apply Hrep|]. apply HN. by eapply list_elem_of_lookup_2. }
    rewrite Hreach, !Ok_bind. cbn [negb andb].
    destruct (negb (last_message_id =? 0) && (last_message_id <=? default 0 (last N)) || force).
    + cbn [check]. rewrite Ok_bind, Eit, !Ok_bind. cbn [Z.ltb Z.compare]. eexists it2, _. split; [|done].
      replace (limit - k + len N) with (limit + (offset + len F)) by lia. reflexivity.
    + rewrite Ok_bind. rewrite (proj2 (Z.ltb_lt (offset + len F) 0)) by lia. eexists _, _, _. split; [reflexivity|]. lia.
Qed.
End Offset.

Lemma traverse_min t s :
  traverse_messages (fun _ message_id => (true, message_id)) (fun s _ => (false, s)) t s =
    match flatten t with m :: _ => message_id_ m | [] => s end.
Proof.
  revert s. induction t as [|l IHl m r _]; intros s; [done|]. cbn [traverse_messages flatten]. rewrite IHl. by destruct (flatten l).
Qed.

Lemma apply_offset_zero t last_message_id from limit force have_a_gap it :
  apply_offset t last_message_id from 0 limit force have_a_gap it = Ok (it, from, 0, limit).
Proof. unfold apply_offset. rewrite newer_loop_done by done. rewrite Ok_bind. cbn. by rewrite andb_false_r. Qed.

(** A message of the chain, its run and the run before it. *)
Lemma found_window t L id A x B :
  represents t L -> found t L id A x B ->
  let F := if have_next_ x then run_forward (newer id L) else [] in
  let O := if link (older id L) then run_back (older id L) else [] in
  window L id = Some (id :: F, O) /\ run_back (upto id L) = id :: O /\
  (forall j y, (id :: F) !! j = Some y -> run_back (upto y L) = reverse (take (S j) (id :: F)) ++ O) /\
  (forall y, y ∈ id :: F -> y ∈ ids t).
Proof.
  intros Hrep Hfd F O. destruct (chain_cases t L id Hrep) as [(El & _)|(n & El & HL & Hu & Hfr)]; [by rewrite (found_link _ _ _ _ _ _ Hfd) in El|].
  rewrite (found_link _ _ _ _ _ _ Hfd) in El. injection El as <-.
  assert (HF : run_forward (from_id id L) = id :: F) by (rewrite Hfr; done). split_and!.
  - unfold window. rewrite (found_link _ _ _ _ _ _ Hfd), bool_decide_eq_false_2 by done. cbn [andb]. by rewrite HF.
  - by rewrite Hu, run_back_snoc.
  - intros j y Hj. rewrite <- HF in Hj |- *. apply (run_at t); [done| |done]. by rewrite Hfr.
  - intros y Hy. rewrite (rep_ids _ _ Hrep). rewrite <- HF in Hy.
    assert (Hsub : forall M, y ∈ run_forward M -> y ∈ map fst M).
    { induction M as [|[z []] M IH]; cbn [run_forward map fst]; [done|..]; intros [->|Hz]%elem_of_cons; [by left|right; auto|by left|by apply not_elem_of_nil in Hz]. }
    apply Hsub in Hy. rewrite HL, map_app. rewrite Hfr in Hy. set_solver.
Qed.

(** The same for an identifier between two linked messages. *)
Lemma between_window t L id it A x B :
  represents t L -> place t L id it (A ++ [x]) B -> have_next_ x = true ->
  let N := run_forward (newer id L) in
  let O := run_back (older id L) in
  link_of id L = None -> window L id = Some (N, O) /\ N <> [] /\ O = run_back (upto (message_id_ x) L) /\
  (forall j y, N !! j = Some y -> run_back (upto y L) = reverse (take (S j) N) ++ O) /\
  (forall y, y ∈ N -> y ∈ ids t).
Proof.
  intros Hrep Hpl Hn N O El. destruct (chain_cases t L id Hrep) as [(_ & HL & Hu & Hfr)|(n & El' & _)]; [|congruence].
  destruct (place_last _ _ _ _ _ _ _ Hrep Hpl) as (_ & _ & _ & _ & lo & Ho & _). rewrite Hn in Ho.
  assert (Hlk : link (older id L) = true) by (by rewrite Ho, link_snoc). split_and!.
  - unfold window. rewrite El, Hlk, andb_false_r. by rewrite Hfr.
  - destruct (place_next _ _ _ _ _ _ _ Hrep Hpl Hn) as (y & B' & ->). pose proof (place_newer_flags _ _ _ _ _ _ Hpl) as HB.
    destruct (flags_cons _ _ _ _ HB) as (hi & Hhi & _). unfold N. by rewrite Hhi.
  - unfold O. rewrite (upto_prefix t L lo (message_id_ x) true (newer id L) Hrep); [by rewrite <- Ho|]. rewrite HL at 1. by rewrite Ho, <- app_assoc.
  - intros j y Hj. rewrite (run_at t L (older id L) (newer id L) j y Hrep HL Hj), Hlk. done.
  - intros y Hy. rewrite (rep_ids _ _ Hrep).
    assert (Hsub : forall M, y ∈ run_forward M -> y ∈ map fst M).
    { induction M as [|[z []] M IH]; cbn [run_forward map fst]; [done|..]; intros [->|Hz]%elem_of_cons; [by left|right; auto|by left|by apply not_elem_of_nil in Hz]. }
    apply Hsub in Hy. rewrite HL, map_app. set_solver.
Qed.

(** What [locate] finds for a window. *)
Definition reached (t : tree) (last_message_id offset limit : Z) (force : bool) (w : option (list Z * list Z)) (r : outcome (stack * Z * Z * Z)) : Prop :=
  match w with
  | None => exists from2, r = Ok ([], from2, offset, limit)
  | Some (N, P) =>
      if - offset <=? len N then exists it2 from2, r = Ok (it2, from2, 0, limit) /\ visits (decrement t) it2 (reverse (take (Z.to_nat (- offset)) N) ++ P)
      else if negb (last_message_id =? 0) && (last_message_id <=? default 0 (last N)) || force
      then exists it2 from2, r = Ok (it2, from2, 0, limit + offset + len N) /\ visits (decrement t) it2 (reverse N ++ P)
      else exists it2 from2 offset2, r = Ok (it2, from2, offset2, limit) /\ offset2 < 0
  end.

(** From a message that is there. *)
Lemma locate_at t L id A x B it last_message_id offset limit force :
  represents t L -> found t L id A x B -> located t it A x B -> offset <= 0 -> (last_message_id <> 0 -> is_scheduled last_message_id = false) ->
  let r := '(it, offset) ← (if offset <? 0 then Ok (it, offset + 1) else it ← decrement t it; Ok (it, offset));
           apply_offset t last_message_id id offset limit force false it in
  reached t last_message_id offset limit force (window L id) r.
Proof.
  intros Hrep Hfd Hl Ho Hlast r. destruct (found_window _ _ _ _ _ _ Hrep Hfd) as (-> & Hback & Hrun & HN). cbn [reached].
  pose proof (found_id _ _ _ _ _ _ Hfd) as Hid. set (F := if have_next_ x then run_forward (newer id L) else []) in *.
  set (O := if link (older id L) then run_back (older id L) else []) in *.
  destruct (Z.ltb_spec offset 0) as [Hneg|Hz].
  - unfold r. rewrite Ok_bind.
    pose proof (apply_offset_spec t L Hrep (id :: F) O Hrun HN last_message_id id (offset + 1) limit force it A x B (newer id L) true Hl
      (found_newer _ _ _ _ _ _ Hfd)) as H. cbv zeta in H. fold F in H. rewrite Hid in H. specialize (H (conj eq_refl eq_refl) ltac:(lia) Hlast).
    replace (- (offset + 1) + 1) with (- offset) in H by lia. replace (limit - - offset + len (id :: F)) with (limit + offset + len (id :: F)) in H by lia. exact H.
  - assert (offset = 0) as -> by lia. rewrite (proj2 (Z.leb_le (- 0) _)) by (pose proof (len_nonneg (id :: F)); lia).
    pose proof (located_back _ _ _ _ _ _ Hrep Hl) as Hv. rewrite Hid, Hback in Hv. inversion Hv as [|it0 id0 it' l0 _ Hd Hv']; subst.
    unfold r. rewrite Hd, !Ok_bind, apply_offset_zero. exists it', (message_id_ x). split; [done|]. change (Z.to_nat (- 0)) with 0%nat. done.
Qed.

Section Locate.
Context (t : tree) (L : list (Z * bool)) (Hrep : represents t L).
Context (last_message_id from offset limit : Z) (force : bool).
Context (Hk : is_scheduled from = false) (Ho : offset <= 0).
Context (Hlast : last_message_id <> 0 -> is_scheduled last_message_id = false /\ from <= last_message_id /\ link_of last_message_id L <> None).

Lemma locate_found it n :
  get_iterator t from = Ok it -> link_of from L = Some n ->
  reached t last_message_id offset limit force (window L (forced_start L from offset force)) (locate t last_message_id from offset limit force it).
Proof.
  intros E El. destruct (find_message _ _ _ _ Hrep El) as (A & x & B & Hfd & _). destruct (present_iterator _ _ _ _ _ _ Hrep Hfd) as (it' & E' & Hl & Hcur & _).
  rewrite E in E'. injection E' as <-.
  destruct (chain_cases t L from Hrep) as [(El' & _)|(n' & _ & _ & Hu & _)]; [congruence|].
  assert (Hfs : forced_start L from offset force = from).
  { unfold forced_start. rewrite (bool_decide_eq_false_2 (upto from L = [])), andb_false_r; [done|]. rewrite Hu. by destruct (older from L). }
  rewrite Hfs. unfold locate, find_start. rewrite Hcur, Z.eqb_refl, Ok_bind. cbv zeta iota. rewrite Hcur, bool_decide_eq_true_2 by done.
  exact (locate_at t L from A x B it last_message_id offset limit force Hrep Hfd Hl Ho (fun Hne => proj1 (Hlast Hne))).
Qed.

Lemma locate_before it B :
  get_iterator t from = Ok it -> link_of from L = None -> place t L from it [] B ->
  reached t last_message_id offset limit force (window L (forced_start L from offset force)) (locate t last_message_id from offset limit force it).
Proof.
  intros E El Hpl. pose proof (place_current _ _ _ _ _ _ Hpl) as Hcur. cbn in Hcur.
  assert (it = []) as -> by (by destruct it).
  pose proof (flags_nil _ _ (place_older_flags _ _ _ _ _ _ Hpl)) as Hold. destruct (chain_cases t L from Hrep) as [(_ & HL & Hu & _)|(n & El' & _)]; [|congruence].
  assert (Hnull : is_null t = bool_decide (L = [])).
  { rewrite (place_chain _ _ _ _ _ _ Hpl), Hold. pose proof (place_newer_flags _ _ _ _ _ _ Hpl) as HB.
    pose proof (place_flat _ _ _ _ _ _ Hpl) as Hf. cbn [app] in *. rewrite <- Hf in HB. destruct t as [|l m r]; cbn [is_null flatten] in *.
    - by rewrite (flags_nil _ _ HB), bool_decide_eq_true_2.
    - rewrite bool_decide_eq_false_2; [done|]. intros En. rewrite En in HB. cbn in HB. rewrite map_app in HB. by destruct (map flags (flatten l)). }
  unfold locate, find_start, forced_start. cbn [current head]. rewrite Hu, Hold, Hnull, (bool_decide_eq_true_2 ([] = [])), andb_true_r by done.
  assert (Hgap : window L from = None) by (unfold window; by rewrite El, Hold).
  assert (Hgo : ('(it, offset) ← (if bool_decide (current [] = Some from)
     then if offset <? 0 then Ok ([], offset + 1) else it ← decrement t []; Ok (it, offset) else Ok ([], offset));
     apply_offset t last_message_id from offset limit force true it) = Ok ([], from, offset, limit)).
  { cbn [current head]. rewrite bool_decide_eq_false_2, Ok_bind by done. apply apply_offset_gap; [done|]. intros Hne.
    destruct (Hlast Hne) as (Hkl & Hle & Hin). split_and!; [done..|]. destruct (decide (from = last_message_id)) as [->|]; [congruence|lia]. }
  destruct (force && (offset <? 0)); cbn [andb]; [|rewrite Hgap; exists from; exact Hgo].
  destruct L as [|[id0 n0] L'] eqn:EL; [rewrite bool_decide_eq_true_2 by done; cbn [negb]; rewrite Hgap; exists from; exact Hgo|].
  rewrite bool_decide_eq_false_2 by done. cbn [negb]. cbv zeta. rewrite traverse_min.
  assert (El0 : link_of id0 ((id0, n0) :: L') = Some n0) by (cbn; by rewrite Z.eqb_refl).
  destruct (find_message _ _ _ _ Hrep El0) as (A & x & B' & Hfd & _). destruct (present_iterator _ _ _ _ _ _ Hrep Hfd) as (it' & E' & Hl & Hcur' & _).
  pose proof (rep_ids _ _ Hrep) as Hids. pose proof (place_flat _ _ _ _ _ _ Hpl) as Hf. cbn [app] in Hf. pose proof (place_newer _ _ _ _ _ _ Hpl) as HB.
  unfold ids in Hids. rewrite Hf in Hids |- *. destruct B as [|y B]; [done|]. cbn [map fst] in Hids. injection Hids as Hy _. rewrite Hy.
  apply Forall_cons in HB as [Hlt _]. rewrite Hy in Hlt.
  assert (Hk0 : is_scheduled id0 = false).
  { eapply ordinary_elem; [apply Hrep|]. rewrite (rep_ids _ _ Hrep). by left. }
  rewrite (ordinary_lt from id0), Ok_bind, (proj2 (Z.ltb_lt from id0)) by done. cbn [check]. rewrite Ok_bind, E', Ok_bind, Hcur'.
  rewrite bool_decide_eq_false_2 by done. cbn [negb check]. rewrite !Ok_bind. cbv iota. rewrite Hcur', bool_decide_eq_true_2 by done.
  exact (locate_at t _ id0 A x B' it' last_message_id offset limit force Hrep Hfd Hl Ho (fun Hne => proj1 (Hlast Hne))).
Qed.

Lemma locate_between it A x B :
  get_iterator t from = Ok it -> link_of from L = None -> place t L from it (A ++ [x]) B ->
  reached t last_message_id offset limit force (window L (forced_start L from offset force)) (locate t last_message_id from offset limit force it).
Proof.
  intros E El Hpl. destruct (place_last _ _ _ _ _ _ _ Hrep Hpl) as (Hl & Hx & Hlt & Hkx & lo & Hold & _).
  destruct (chain_cases t L from Hrep) as [(_ & HL & Hu & _)|(n & El' & _)]; [|congruence].
  assert (Hfs : forced_start L from offset force = from).
  { unfold forced_start. rewrite (bool_decide_eq_false_2 (upto from L = [])), andb_false_r; [done|]. rewrite Hu, Hold. by destruct lo. }
  rewrite Hfs. unfold locate, find_start. rewrite (located_current _ _ _ _ _ Hl), (proj2 (Z.eqb_neq _ _)) by lia.
  rewrite (ordinary_lt (message_id_ x) from), Ok_bind, (proj2 (Z.ltb_lt (message_id_ x) from)) by done. cbn [check]. rewrite Ok_bind, Hx, Ok_bind.
  destruct (have_next_ x) eqn:Hn.
  - rewrite !Ok_bind. cbv zeta iota. rewrite (located_current _ _ _ _ _ Hl), bool_decide_eq_false_2, Ok_bind by (intros [= Heq]; lia).
    destruct (between_window _ _ _ _ _ _ _ Hrep Hpl Hn El) as (-> & HNn & HO & Hrun & HN). cbn [reached].
    pose proof (place_newer_flags _ _ _ _ _ _ Hpl) as HB. rewrite Hold, link_snoc in HB.
    pose proof (apply_offset_spec t L Hrep _ _ Hrun HN last_message_id from offset limit force it A x B (newer from L) false Hl) as H.
    cbv zeta in H. rewrite Hn in H. specialize (H HB (conj eq_refl (conj HNn HO)) Ho (fun Hne => proj1 (Hlast Hne))). rewrite Z.add_0_r in H.
    replace (limit - - offset) with (limit + offset) in H by lia. exact H.
  - assert (Hgap : (if last_message_id =? 0 then Ok true else id_lt (message_id_ x) last_message_id) = Ok true).
    { destruct (Z.eqb_spec last_message_id 0) as [_|Hne]; [done|]. destruct (Hlast Hne) as (Hkl & Hle & _).
      rewrite ordinary_lt, (proj2 (Z.ltb_lt _ _)) by (done || lia). done. }
    rewrite Hgap, !Ok_bind. cbv zeta iota. cbn [current head]. rewrite bool_decide_eq_false_2, Ok_bind by done.
    unfold window. rewrite El, Hold, link_snoc. cbn [negb andb]. rewrite bool_decide_eq_true_2 by done. cbn [andb reached]. exists from.
    apply apply_offset_gap; [done|]. intros Hne. destruct (Hlast Hne) as (Hkl & Hle & Hin). split_and!; [done..|].
    destruct (decide (from = last_message_id)) as [->|]; [congruence|lia].
Qed.

Lemma locate_reached it :
  get_iterator t from = Ok it ->
  reached t last_message_id offset limit force (window L (forced_start L from offset force)) (locate t last_message_id from offset limit force it).
Proof.
  intros E. destruct (link_of from L) as [n|] eqn:El; [by eapply locate_found|].
  destruct (find_place t L from Hrep Hk (find_message_none _ _ _ Hrep El)) as (it' & A & B & E' & Hpl). rewrite E in E'. injection E' as <-.
  destruct A as [|x A _] using rev_ind; [by eapply locate_before|by eapply locate_between].
Qed.
End Locate.

(** Neighbours of a list of identifiers, the greatest first, are linked in the
    chain. *)
Definition gapless L (ids : list Z) : Prop :=
  forall i a b, ids !! i = Some a -> ids !! S i = Some b -> exists P n Q, L = P ++ (b, true) :: (a, n) :: Q.

Lemma gapless_run L Q : gapless (L ++ Q) (run_back L).
Proof.
  revert Q. induction L as [|[x n] L IH] using rev_ind; intros Q i a b; [done|]. rewrite run_back_snoc. destruct (link L) eqn:Hl; [|done].
  destruct i as [|i]; cbn.
  - intros [= <-] Hb. destruct L as [|[y k] L _] using rev_ind; [done|]. rewrite run_back_snoc in Hb. injection Hb as <-.
    rewrite link_snoc in Hl. subst k. exists L, n, Q. by rewrite <- !app_assoc.
  - intros Ha Hb. destruct (IH ((x, n) :: Q) i a b Ha Hb) as (P & m & R & E). exists P, m, R. by rewrite <- app_assoc.
Qed.

Lemma gapless_take L ids k : gapless L ids -> gapless L (take k ids).
Proof.
  intros Hg i a b Ha Hb. apply (Hg i); [apply lookup_take_Some in Ha; apply Ha|apply lookup_take_Some in Hb; apply Hb].
Qed.

(** What a window gives is a run back from one message. *)
Lemma window_run t L from N P k :
  represents t L -> window L from = Some (N, P) -> (k <= length N)%nat ->
  exists L1 L2, L = L1 ++ L2 /\ (reverse (take k N) ++ P = run_back L1 \/ reverse (take k N) ++ P = []).
Proof.
  intros Hrep Hw Hk. unfold window in Hw. destruct (bool_decide (link_of from L = None) && negb (link (older from L))); [done|].
  injection Hw as <- <-.
  assert (HL : L = older from L ++ from_id from L) by (destruct (chain_cases t L from Hrep) as [(_ & HL & _ & ->)|(n & _ & HL & _ & ->)]; done).
  destruct k as [|k].
  - change (reverse (take 0 _) ++ ?p) with p. exists (older from L), (from_id from L). split; [done|]. destruct (link (older from L)); auto.
  - destruct (lookup_lt_is_Some_2 (run_forward (from_id from L)) k Hk) as (y & Hy).
    rewrite <- (run_at t L (older from L) (from_id from L) k y Hrep HL Hy).
    destruct (run_back_forward (older from L) (from_id from L) k y Hy) as (Q & n & R & E & _).
    rewrite E, app_assoc in HL. exists (upto y L), R. rewrite (upto_prefix _ _ _ _ _ _ Hrep HL). split; [|by left].
    rewrite HL at 1. by rewrite <- !app_assoc.
Qed.

Lemma upto_app t L id : represents t L -> exists L2, L = upto id L ++ L2.
Proof.
  intros Hrep. destruct (chain_cases t L id Hrep) as [(_ & HL & -> & _)|(n & _ & HL & -> & _)].
  - by eexists.
  - exists (newer id L). by rewrite <- app_assoc.
Qed.

Lemma pop_extra (m : Z) (l : list Z) :
  0 <= m < 2 ^ 63 ->
  (if uint64 (m + 1) =? len (take (Z.to_nat (m + 1)) l) then removelast (take (Z.to_nat (m + 1)) l) else take (Z.to_nat (m + 1)) l) = take (Z.to_nat m) l.
Proof.
  intros Hm. unfold uint64. rewrite Z.mod_small by lia. replace (Z.to_nat (m + 1)) with (S (Z.to_nat m)) by lia.
  destruct (Z.eqb_spec (m + 1) (len (take (S (Z.to_nat m)) l))) as [E|E]; unfold len in E; rewrite length_take in E.
  - destruct (lookup_lt_is_Some_2 l (Z.to_nat m)) as (y & Hy); [lia|]. rewrite (take_S_r _ _ _ Hy). apply removelast_last.
  - rewrite !take_ge by lia. done.
Qed.

Lemma nothing_to_pop (b : bool) (m : Z) : 0 < m < 2 ^ 63 -> (if b && (uint64 m =? len (@nil Z)) then removelast [] else []) = @nil Z.
Proof. by destruct (b && _). Qed.

Lemma from_the_end_value last_message_id from :
  (last_message_id <> 0 -> is_scheduled last_message_id = false) -> is_scheduled from = false ->
  (after_last ← (if last_message_id =? 0 then Ok false else id_lt last_message_id from); if after_last : bool then Ok true else id_le max_id from) =
    Ok (negb (last_message_id =? 0) && (last_message_id <? from) || (max_id <=? from)).
Proof.
  intros Hl Hk. rewrite (ordinary_le max_id from) by done. destruct (Z.eqb_spec last_message_id 0) as [_|Hne]; [done|].
  rewrite (ordinary_lt last_message_id from), Ok_bind by auto. by destruct (last_message_id <? from).
Qed.

(** The part of a window that is returned fits the loop. *)
Lemma window_fits t L from N P k :
  represents t L -> window L from = Some (N, P) -> (k <= length N)%nat ->
  (length (reverse (take k N) ++ P) <= size t)%nat /\ gapless L (reverse (take k N) ++ P).
Proof.
  intros Hrep Hw Hk. destruct (window_run t L from N P k Hrep Hw Hk) as (L1 & L2 & HL & [->| ->]); [|by split; [cbn; lia|intros i a b]].
  split; [|rewrite HL; apply gapless_run]. rewrite (size_chain _ _ Hrep), HL, length_app. pose proof (length_run_back L1). lia.
Qed.

Lemma upto_fits t L from : represents t L -> (length (run_back (upto from L)) <= size t)%nat /\ gapless L (run_back (upto from L)).
Proof.
  intros Hrep. split.
  - rewrite (size_chain _ _ Hrep). pose proof (length_run_back (upto from L)). pose proof (length_filter (fun e : Z * bool => e.1 <= from) L). unfold upto in *. lia.
  - destruct (upto_app t L from Hrep) as (L2 & HL). rewrite HL at 1. apply gapless_run.
Qed.

Lemma history_gapless t L last_message_id from offset limit force :
  represents t L -> 0 < limit -> - limit <= offset <= 0 ->
  let ids := history L last_message_id from offset limit force in gapless L ids /\ len ids <= limit.
Proof.
  intros Hrep Hl Ho ids. unfold ids, history.
  assert (Htake : forall m l, gapless L l -> m <= limit -> gapless L (take (Z.to_nat m) l) /\ len (take (Z.to_nat m) l) <= limit).
  { intros m l Hg Hm. split; [by apply gapless_take|]. unfold len. rewrite length_take. lia. }
  assert (Hnil : gapless L [] /\ len (@nil Z) <= limit) by (split; [by intros i a b|rewrite len_nil; lia]).
  destruct (negb (last_message_id =? 0) && (last_message_id <? from) || (max_id <=? from)).
  { destruct (last_message_id =? 0); [done|]. apply Htake; [by eapply upto_fits|lia]. }
  destruct (window L (forced_start L from offset force)) as [[N P]|] eqn:Hw; [|done].
  destruct (Z.leb_spec (- offset) (len N)) as [Hle|Hgt].
  - apply Htake; [|lia]. eapply window_fits; [done..|]. unfold len in Hle. lia.
  - destruct (_ || force); [|done]. apply Htake; [|lia].
    destruct (window_fits _ _ _ _ _ (length N) Hrep Hw ltac:(lia)) as [_ Hg]. by rewrite take_ge in Hg by lia.
Qed.

(** The end of the function: the message that was asked for in addition, when
    the limit and the offset are opposite, is removed. *)
Lemma read_back_spec t it l limit from from_the_end (increased : bool) :
  visits (decrement t) it l -> (length l <= size t)%nat -> 0 <= limit < 2 ^ 62 ->
  exists from' offset' limit',
    read_back t it from 0 (if increased then limit + 1 else limit) from_the_end increased = Ok (take (Z.to_nat limit) l, from', offset', limit').
Proof.
  intros Hv Hf Hl. unfold read_back. cbn [Z.eqb]. rewrite (collect_loop_spec _ _ _ _ l) by (done || (destruct increased; rewrite len_nil; lia)).
  rewrite Ok_bind, len_nil. cbv zeta. cbn [app]. destruct increased; cbn [andb]; rewrite Z.sub_0_r.
  - rewrite pop_extra by lia. by eexists _, _, _.
  - by eexists _, _, _.
Qed.

Lemma read_back_none t it limit from offset (from_the_end increased : bool) :
  offset <> 0 -> 0 < limit < 2 ^ 63 -> exists from' offset' limit', read_back t it from offset limit from_the_end increased = Ok ([], from', offset', limit').
Proof.
  intros Ho Hl. unfold read_back. rewrite (proj2 (Z.eqb_neq _ _)), Ok_bind by done. cbv zeta. rewrite nothing_to_pop by done. by eexists _, _, _.
Qed.

(** C11: The history that is read from a chat is its chain around the given
    message: [limit] messages, newest first, of which [-offset] are not older
    than it, all of one run of messages that are linked, so that no message of
    the chat is missing between two of them; fewer only at the end of the run,
    and none when the message itself is in a gap or when the run is too short on
    the newer side and may go on. With the chat's last message among those that
    are known, no [CHECK] fails, and every loop ends within its fuel. *)
Theorem get_history_window (t : tree) (L : list (Z * bool)) (last_message_id from offset limit : Z) (force : bool) :
  represents t L -> is_scheduled from = false -> 0 < limit < 2 ^ 31 - 1 -> - limit <= offset <= 0 ->
  (last_message_id = 0 \/ is_scheduled last_message_id = false /\ link_of last_message_id L <> None) ->
  (exists from' offset' limit',
    get_history t last_message_id from offset limit force = Ok (history L last_message_id from offset limit force, from', offset', limit')) /\
  gapless L (history L last_message_id from offset limit force) /\ len (history L last_message_id from offset limit force) <= limit.
Proof.
  intros Hrep Hk Hl Ho Hlast. split; [|eapply history_gapless; [done|lia|done]]. unfold get_history, history. rewrite (proj2 (Z.ltb_lt 0 limit)) by lia. cbn [check].
  rewrite Ok_bind. cbv zeta. set (increased := limit =? - offset).
  replace (if increased then int32 (limit + 1) else limit) with (if increased then limit + 1 else limit)
    by (destruct increased; [by rewrite int32_small by lia|done]).
  set (limit1 := if increased then limit + 1 else limit).
  assert (Hl1 : - limit1 < offset /\ limit <= limit1 <= limit + 1).
  { unfold limit1, increased. destruct (Z.eqb_spec limit (- offset)); lia. }
  rewrite (proj2 (Z.ltb_lt (- limit1) offset)), (proj2 (Z.leb_le offset 0)) by lia. cbn [andb check]. rewrite Ok_bind.
  destruct (iterator_back t L from Hrep Hk) as (it & A & B & E & _ & _ & _ & Hv). rewrite E, Ok_bind.
  rewrite from_the_end_value, Ok_bind; [|intros Hne; by destruct Hlast as [?|[? _]]|done].
  destruct (negb (last_message_id =? 0) && (last_message_id <? from) || (max_id <=? from)) eqn:Hend.
  - replace (limit1 + offset) with (if increased then (limit + offset) + 1 else limit + offset) by (unfold limit1; destruct increased; lia).
    destruct (last_message_id =? 0).
    + destruct (read_back_spec t [] [] (limit + offset) from true increased) as (f & o & l & Er); [constructor|cbn; lia|lia|].
      rewrite take_nil in Er. by eexists _, _, _.
    + apply read_back_spec; [done|by eapply upto_fits|lia].
  - assert (Hlast' : last_message_id <> 0 -> is_scheduled last_message_id = false /\ from <= last_message_id /\ link_of last_message_id L <> None).
    { intros Hne. destruct Hlast as [?|[? ?]]; [done|]. split_and!; [done| |done]. rewrite (proj2 (Z.eqb_neq _ _) Hne) in Hend. to_prop. lia. }
    pose proof (locate_reached t L Hrep last_message_id from offset limit1 force Hk ltac:(lia) Hlast' it E) as Hr.
    destruct (window L (forced_start L from offset force)) as [[N P]|] eqn:Hw; cbn [reached] in Hr.
    2: { destruct Hr as (from2 & ->). rewrite Ok_bind. destruct (Z.eq_dec offset 0) as [->|Hne].
         - destruct (read_back_spec t [] [] limit from2 false increased) as (f & o & l & Er); [constructor|cbn; lia|lia|]. rewrite take_nil in Er.
           by eexists _, _, _.
         - apply read_back_none; [done|lia]. }
    destruct (Z.leb_spec (- offset) (len N)) as [Hle|Hgt].
    + destruct Hr as (it2 & from2 & -> & Hv2). rewrite Ok_bind. apply read_back_spec; [done| |lia].
      eapply window_fits; [done..|]. unfold len in Hle. lia.
    + destruct (negb (last_message_id =? 0) && (last_message_id <=? default 0 (last N)) || force).
      * destruct Hr as (it2 & from2 & -> & Hv2). rewrite Ok_bind. pose proof (len_nonneg N).
        replace (limit1 + offset + len N) with (if increased then (limit + offset + len N) + 1 else limit + offset + len N)
          by (unfold limit1; destruct increased; lia).
        apply read_back_spec; [done| |lia]. destruct (window_fits _ _ _ _ _ (length N) Hrep Hw ltac:(lia)) as [Hf _]. by rewrite take_ge in Hf by lia.
      * destruct Hr as (it2 & from2 & offset2 & -> & Hneg). rewrite Ok_bind. apply read_back_none; lia.
Qed.

(** A chat with a gap between [4] and [7]. *)
Definition example_calls : list call :=
  [Insert (of_server 3) true 0; Insert (of_server 8) true 0; Insert (of_server 4) true (of_server 3); Erase (of_server 8) true;
   Insert (of_server 7) false 0; Insert (of_server 9) true (of_server 7); Insert (of_server 10) true (of_server 9)].

Lemma get_history_window_witness :
  exists t L, run tree_call example_calls Leaf = Ok t /\ represents t L /\
    (exists from' offset' limit',
      get_history t (of_server 10) (of_server 9) (-1) 3 false = Ok (history L (of_server 10) (of_server 9) (-1) 3 false, from', offset', limit')) /\
    gapless L (history L (of_server 10) (of_server 9) (-1) 3 false) /\ len (history L (of_server 10) (of_server 9) (-1) 3 false) <= 3.
Proof.
  eexists _, [(of_server 3, true); (of_server 4, false); (of_server 7, true); (of_server 9, true); (of_server 10, false)].
  split; [vm_compute; reflexivity|]. split; [by apply (run_represents example_calls); vm_compute|].
  apply get_history_window; [by apply (run_represents example_calls); vm_compute|reflexivity|lia|lia|right; split; [reflexivity|by vm_compute]].
Defined.
