(* ===== verification/MessageSearch.v ===== *)
(** Searches in the messages of a chat and the number of unread ones, as
    functions of the chain. *)
From S2P Require Import Prelude Bytes MessageId OrderedMessages OrderedMessagesSpec MessageChain MessageHistory.
#[local] Open Scope Z_scope.
Implicit Types L : list (Z * bool).

(** * Searches by identifier *)

Lemma ids_forall (P : Z -> Prop) t : (forall id, id ∈ ids t -> P id) -> Forall P (ids t).
Proof. intros Hp. by apply Forall_forall. Qed.

Lemma find_older_loop t id acc :
  sorted t -> ordinary t -> is_scheduled id = false ->
  do_find_older_messages t id acc = Ok (acc ++ filter (fun x => x <= id) (ids t)).
Proof.
  intros Hs Ho Hk. revert acc. induction t as [|l IHl m r IHr]; intros acc; cbn [do_find_older_messages]; [by rewrite app_nil_r|].
  apply sorted_node in Hs as (Hsl & Hsr & Hlm & Hmr & Hlr). apply ordinary_node in Ho as (Hol & Hom & Hor).
  rewrite (IHl Hsl Hol), Ok_bind, ordinary_le, Ok_bind by done. rewrite ids_node, filter_app, filter_cons.
  destruct (Z.leb_spec (message_id_ m) id) as [Hle|Hgt].
  - rewrite (IHr Hsr Hor), decide_True by done. by rewrite <- !app_assoc.
  - rewrite decide_False by lia. rewrite (filter_none _ (ids r)), app_nil_r; [done|]. apply ids_forall. intros x Hx. specialize (Hmr x Hx). lia.
Qed.

Lemma find_newer_loop t id acc :
  sorted t -> ordinary t -> is_scheduled id = false ->
  do_find_newer_messages t id acc = Ok (acc ++ filter (fun x => id < x) (ids t)).
Proof.
  intros Hs Ho Hk. revert acc. induction t as [|l IHl m r IHr]; intros acc; cbn [do_find_newer_messages]; [by rewrite app_nil_r|].
  apply sorted_node in Hs as (Hsl & Hsr & Hlm & Hmr & Hlr). apply ordinary_node in Ho as (Hol & Hom & Hor).
  rewrite ordinary_lt, Ok_bind by done. rewrite ids_node, filter_app, filter_cons.
  destruct (Z.ltb_spec id (message_id_ m)) as [Hlt|Hge].
  - rewrite (IHl Hsl Hol), !Ok_bind, (IHr Hsr Hor), decide_True by done. by rewrite <- !app_assoc.
  - rewrite Ok_bind, (IHr Hsr Hor), decide_False by lia. rewrite (filter_none _ (ids l)); [done|].
    apply ids_forall. intros x Hx. specialize (Hlm x Hx). lia.
Qed.

Lemma map_filter_fst (P : Z -> Prop) `{forall x, Decision (P x)} L : filter P (map fst L) = map fst (filter (fun e => P e.1) L).
Proof.
  induction L as [|[x n] L IH]; [done|]. cbn [map fst]. rewrite !filter_cons. cbn [fst]. destruct (decide (P x)); cbn [map fst]; by rewrite IH.
Qed.

(** The searches of a chat by identifier give what the chain has: the older
    and the newer messages are two parts of the list in their order, a message is
    there when the chain has it, and the last one is the greatest. *)
Theorem chain_searches (t : tree) (L : list (Z * bool)) (id : Z) :
  represents t L -> is_valid id = true ->
  exists older_ids newer_ids,
    find_older_messages t id = Ok older_ids /\ find_newer_messages t id = Ok newer_ids /\
    map fst L = older_ids ++ newer_ids /\ Forall (fun x => x <= id) older_ids /\ Forall (fun x => id < x) newer_ids /\
    has_message t id = Ok (bool_decide (link_of id L <> None)) /\
    (Forall (fun e => e.1 <= max_id) L -> get_last_message_id t = Ok (default 0 (fst <$> last L))).
Proof.
  intros Hrep Hv. pose proof (is_valid_ordinary _ Hv) as Hk. destruct (rep_good _ _ Hrep) as [Hs Ho _ _].
  exists (map fst (upto id L)), (map fst (newer id L)). unfold find_older_messages, find_newer_messages.
  rewrite find_older_loop, find_newer_loop, (rep_ids _ _ Hrep), !map_filter_fst by done. cbn [app]. split; [done|]. split; [done|].
  assert (Hbound : forall (P : Z -> Prop) `{forall x, Decision (P x)}, Forall P (map fst (filter (fun e : Z * bool => P e.1) L))).
  { intros P HP. rewrite <- map_filter_fst. apply Forall_forall. intros x Hx. by apply list_elem_of_filter in Hx as [Hx _]. }
  assert (HL : L = upto id L ++ newer id L).
  { destruct (chain_cases t L id Hrep) as [(_ & HL & -> & _)|(n & _ & HL & -> & _)]; [done|]. by rewrite <- app_assoc. }
  split; [rewrite HL at 1; apply map_app|]. split; [exact (Hbound (fun x => x <= id) _)|]. split; [exact (Hbound (fun x => id < x) _)|]. split.
  - unfold has_message. rewrite Hv. cbn [check]. rewrite Ok_bind. destruct (link_of id L) as [n|] eqn:El.
    + destruct (find_message _ _ _ _ Hrep El) as (A & x & B & Hfd & _). destruct (present_iterator _ _ _ _ _ _ Hrep Hfd) as (it & -> & _ & Hc & _).
      by rewrite Ok_bind, Hc, !bool_decide_eq_true_2 by done.
    + destruct (absent_iterator _ _ _ Hrep Hv El) as (it & -> & Hc). rewrite Ok_bind. rewrite (bool_decide_eq_false_2 (None <> None)) by naive_solver.
      by destruct (bool_decide (current it = Some id)).
  - intros Hmax. unfold get_last_message_id. destruct (iterator_back t L max_id Hrep eq_refl) as (it & A & B & -> & _ & _ & _ & Hvis).
    rewrite Ok_bind. rewrite (visits_current _ _ _ Hvis). assert (E : upto max_id L = L) by by apply filter_all. rewrite E. f_equal.
    destruct L as [|[x n] L' _] using rev_ind; [done|]. by rewrite run_back_snoc, last_snoc.
Qed.

(** * Searches by date *)

Section Dates.
Context (get_message_date : Z -> Z).

Lemma sorted_by_app (A B : list Z) :
  StronglySorted (fun a b => get_message_date a <= get_message_date b) (A ++ B) ->
  StronglySorted (fun a b => get_message_date a <= get_message_date b) A /\
  StronglySorted (fun a b => get_message_date a <= get_message_date b) B /\
  Forall (fun a => Forall (fun b => get_message_date a <= get_message_date b) B) A.
Proof.
  induction A as [|a A IH]; cbn [app]; intros H; [by split; [constructor|]|]. apply StronglySorted_inv in H as [H Hf].
  apply IH in H as (HA & HB & Hd). apply Forall_app in Hf as [HfA HfB]. split_and!; [by constructor|done|by constructor].
Qed.

Lemma find_by_date_spec t date :
  Forall (fun id => is_valid id = true) (ids t) -> StronglySorted (fun a b => get_message_date a <= get_message_date b) (ids t) ->
  find_message_by_date get_message_date t date = default 0 (last (filter (fun id => get_message_date id <= date) (ids t))).
Proof.
  induction t as [|l IHl m r IHr]; [done|]. cbn [find_message_by_date]. rewrite ids_node, Forall_app, Forall_cons. intros (Hl & Hm & Hr) Hs.
  destruct (sorted_by_app _ _ Hs) as (HA & HB & _). apply StronglySorted_inv in HB as [HB Hmr]. rewrite filter_app, filter_cons.
  rewrite (IHl Hl HA), (IHr Hr HB). destruct (Z.ltb_spec date (get_message_date (message_id_ m))) as [Hlt|Hge].
  - rewrite decide_False by lia. rewrite (filter_none _ (ids r)), app_nil_r; [done|]. eapply Forall_impl; [exact Hmr|]. cbn. lia.
  - rewrite decide_True by done. rewrite last_app, last_cons. cbv zeta.
    destruct (last (filter (fun id => get_message_date id <= date) (ids r))) as [y|] eqn:E; [|done]. cbn.
    rewrite Forall_forall in Hr. assert (Hv : is_valid y = true); [apply Hr|by rewrite Hv]. apply last_Some in E as (l' & E).
    assert (Hy : y ∈ filter (fun id => get_message_date id <= date) (ids r)) by (rewrite E; set_solver). by apply list_elem_of_filter in Hy as [_ Hy].
Qed.

Lemma find_between_loop t min_date max_date acc :
  StronglySorted (fun a b => get_message_date a <= get_message_date b) (ids t) ->
  do_find_messages_by_date get_message_date t min_date max_date acc =
    acc ++ filter (fun id => min_date <= get_message_date id <= max_date) (ids t).
Proof.
  revert acc. induction t as [|l IHl m r IHr]; intros acc Hs; cbn [do_find_messages_by_date]; [by rewrite app_nil_r|].
  rewrite ids_node in Hs |- *. destruct (sorted_by_app _ _ Hs) as (HA & HB & Hlm). apply StronglySorted_inv in HB as [HB Hmr].
  rewrite filter_app, filter_cons. rewrite Forall_forall in Hlm.
  assert (Hl : get_message_date (message_id_ m) < min_date -> filter (fun id => min_date <= get_message_date id <= max_date) (ids l) = []).
  { intros Hlt. apply filter_none, Forall_forall. intros x Hx. specialize (Hlm x Hx). apply Forall_cons in Hlm as [Hlm _]. cbn in *. lia. }
  assert (Hr : max_date < get_message_date (message_id_ m) -> filter (fun id => min_date <= get_message_date id <= max_date) (ids r) = []).
  { intros Hlt. apply filter_none. eapply Forall_impl; [exact Hmr|]. cbn. lia. }
  destruct (Z.leb_spec min_date (get_message_date (message_id_ m))) as [H1|H1], (Z.leb_spec (get_message_date (message_id_ m)) max_date) as [H2|H2];
    rewrite ?IHl, ?IHr by done.
  - rewrite decide_True by done. by rewrite <- !app_assoc.
  - rewrite decide_False, Hr, app_nil_r by lia. done.
  - rewrite decide_False, Hl by lia. done.
  - rewrite decide_False, Hl, Hr by lia. by rewrite app_nil_r.
Qed.
End Dates.

(** C40: When the dates of a chat's messages do not decrease with the
    identifier, the searches by date, which look at one path of the treap, find
    what a search of all messages finds: the last message that is not after a
    date, and the messages of a range of dates in their order. *)
Theorem date_searches (t : tree) (L : list (Z * bool)) (get_message_date : Z -> Z) (date min_date max_date : Z) :
  represents t L -> Forall (fun e => is_valid e.1 = true) L ->
  StronglySorted (fun a b => get_message_date a <= get_message_date b) (map fst L) ->
  find_message_by_date get_message_date t date = default 0 (last (filter (fun id => get_message_date id <= date) (map fst L))) /\
  find_messages_by_date get_message_date t min_date max_date =
    filter (fun id => min_date <= get_message_date id <= max_date) (map fst L).
Proof.
  intros Hrep Hv Hs. rewrite <- (rep_ids _ _ Hrep) in *. split.
  - apply find_by_date_spec; [|done]. rewrite (rep_ids _ _ Hrep). by rewrite Forall_map.
  - unfold find_messages_by_date. by rewrite find_between_loop.
Qed.

(** * Unread messages *)

Lemma run_back_subset L y : y ∈ run_back L -> y ∈ map fst L.
Proof.
  induction L as [|[x n] L IH] using rev_ind; [done|]. rewrite run_back_snoc, map_app. cbn [map fst].
  intros [->|Hy]%elem_of_cons; [set_solver|]. destruct (link L); [set_solver|by apply not_elem_of_nil in Hy].
Qed.

Lemma run_back_sorted L : StronglySorted Z.lt (map fst L) -> StronglySorted Z.gt (run_back L).
Proof.
  induction L as [|[x n] L IH] using rev_ind; [constructor|]. rewrite run_back_snoc, map_app. cbn [map fst]. intros Hs.
  apply sorted_lt_app in Hs as (Hs & _ & Hlt). constructor; [destruct (link L); [auto|constructor]|]. apply Forall_forall. intros y Hy.
  destruct (link L); [|by apply not_elem_of_nil in Hy]. apply run_back_subset in Hy. specialize (Hlt y x Hy ltac:(set_solver)). lia.
Qed.

Lemma rep_sorted t L : represents t L -> StronglySorted Z.lt (map fst L).
Proof. intros Hrep. rewrite <- (rep_ids _ _ Hrep). apply (rep_good _ _ Hrep). Qed.

Lemma upto_sorted t L id : represents t L -> StronglySorted Z.gt (run_back (upto id L)) /\ Forall (fun x => is_scheduled x = false) (run_back (upto id L)).
Proof.
  intros Hrep. destruct (upto_app t L id Hrep) as (L2 & HL). pose proof (rep_sorted _ _ Hrep) as Hs. rewrite HL, map_app in Hs. split.
  - apply run_back_sorted. by apply sorted_lt_app in Hs as [Hs _].
  - apply Forall_forall. intros x Hx. apply run_back_subset in Hx. eapply ordinary_elem; [apply Hrep|]. rewrite (rep_ids _ _ Hrep), HL, map_app. set_solver.
Qed.

(** The run back from a message of a run is the rest of the run. *)
Lemma run_back_rest L y :
  StronglySorted Z.lt (map fst L) -> y ∈ run_back L ->
  exists R, run_back L = R ++ run_back (upto y L) /\ Forall (fun x => y < x) R /\ head (run_back (upto y L)) = Some y.
Proof.
  induction L as [|[x n] L IH] using rev_ind; intros Hs Hy; [by apply not_elem_of_nil in Hy|].
  pose proof Hs as Hs'. rewrite map_app in Hs'. cbn [map fst] in Hs'. apply sorted_lt_app in Hs' as (HsL & _ & Hlt).
  rewrite run_back_snoc in Hy. apply elem_of_cons in Hy as [->|Hy].
  - exists []. assert (E : upto x (L ++ [(x, n)]) = L ++ [(x, n)]).
    { apply filter_all, Forall_app. split; [|by repeat constructor]. apply Forall_forall. intros e He. cbn.
      assert (e.1 < x); [|lia]. apply (Hlt e.1 x); [apply list_elem_of_In, in_map, list_elem_of_In, He|set_solver]. }
    rewrite E, run_back_snoc. by split_and!.
  - destruct (link L) eqn:Hlk; [|by apply not_elem_of_nil in Hy]. destruct (IH HsL Hy) as (R & E & HR & Hh).
    pose proof (run_back_subset _ _ Hy) as Hyx. specialize (Hlt y x Hyx ltac:(set_solver)).
    assert (Eu : upto y (L ++ [(x, n)]) = upto y L).
    { unfold upto. rewrite filter_app, filter_cons_False by (cbn; lia). by rewrite app_nil_r. }
    rewrite Eu, run_back_snoc, Hlk, E. exists (x :: R). split_and!; [done|by constructor|done].
Qed.

Section Unread.
Context (f : Z -> bool).

(** Counting down from the old number needs every message back to the last one
    that was read to be linked. *)
Lemma count_from_last_unread_spec t L max_message_id last_read old :
  represents t L -> is_scheduled max_message_id = false -> is_scheduled last_read = false -> - 2 ^ 31 <= old < 2 ^ 31 ->
  calc_new_unread_count_from_last_unread f t max_message_id last_read old =
    Ok (if bool_decide (head (run_back (upto max_message_id L)) = Some max_message_id /\ last_read ∈ run_back (upto max_message_id L))
        then int32 (old - len (counted f last_read (run_back (upto max_message_id L)))) else -1).
Proof.
  intros Hrep Hk Hkr Hold. unfold calc_new_unread_count_from_last_unread.
  destruct (iterator_back t L max_message_id Hrep Hk) as (it & A & B & -> & _ & _ & _ & Hv). rewrite Ok_bind, (visits_current _ _ _ Hv).
  destruct (upto_sorted t L max_message_id Hrep) as [Hs Ho]. set (l := run_back (upto max_message_id L)) in *.
  destruct (decide (head l = Some max_message_id)) as [Hh|Hh].
  2: { rewrite (bool_decide_eq_false_2 (head l = Some max_message_id)), bool_decide_eq_false_2 by naive_solver. done. }
  rewrite (bool_decide_eq_true_2 (head l = Some max_message_id)) by done. cbn [negb].
  destruct (count_loop_spec f (size t) t last_read (-1) it l old Hv Hs Ho Hkr) as (it' & -> & Hv'); [by eapply upto_fits|done|].
  rewrite Ok_bind, (visits_current _ _ _ Hv'). f_equal. replace (old + -1 * len (counted f last_read l)) with (old - len (counted f last_read l)) by lia.
  assert (Hhead : head (filter (fun y => y <= last_read) l) = Some last_read <-> last_read ∈ l).
  { clear -Hs. induction l as [|x l IH]; [split; [done|by intros ?%not_elem_of_nil]|]. apply StronglySorted_inv in Hs as [Hs Hgt]. rewrite filter_cons.
    rewrite Forall_forall in Hgt. destruct (decide (x <= last_read)) as [Hle|Hgt']; cbn [head].
    - split; [intros [= ->]; by left|]. intros [->|Hx]%elem_of_cons; [done|]. specialize (Hgt _ Hx). lia.
    - rewrite IH by done. split; [by right|]. intros [->|Hx]%elem_of_cons; [lia|done]. }
  destruct (decide (last_read ∈ l)) as [Hin|Hin].
  - rewrite !bool_decide_eq_true_2; [done|done|by apply Hhead].
  - rewrite !bool_decide_eq_false_2; [done|naive_solver|by rewrite Hhead].
Qed.

(** Counting from the end is exact when the last message of the chat is known
    and the run from it reaches the message that is read. *)
Lemma count_from_the_end_spec t L max_message_id last_message_id hint :
  represents t L -> is_scheduled max_message_id = false -> len (counted f max_message_id (run_back (upto max_id L))) < 2 ^ 31 ->
  let l := run_back (upto max_id L) in
  let count := len (counted f max_message_id l) in
  let exact := is_valid last_message_id && existsb (fun y => y <=? max_message_id) l in
  calc_new_unread_count_from_the_end f t max_message_id last_message_id hint =
    Ok (if (0 <=? hint) && (if exact then hint =? count else count <=? hint) then hint else if exact then count else -1).
Proof.
  intros Hrep Hk Hlen l count exact. unfold calc_new_unread_count_from_the_end.
  destruct (iterator_back t L max_id Hrep eq_refl) as (it & A & B & -> & _ & _ & _ & Hv). rewrite Ok_bind.
  destruct (upto_sorted t L max_id Hrep) as [Hs Ho]. fold l in Hv, Hs, Ho.
  destruct (count_loop_spec f (size t) t max_message_id 1 it l 0 Hv Hs Ho Hk) as (it' & -> & Hv'); [by eapply upto_fits|lia|].
  rewrite Ok_bind, (visits_current _ _ _ Hv'), Z.mul_1_l, Z.add_0_l. fold count.
  rewrite int32_small by (pose proof (len_nonneg (counted f max_message_id l)); unfold count, l in *; lia).
  assert (E : negb (bool_decide (head (filter (fun y => y <= max_message_id) l) = None)) = existsb (fun y => y <=? max_message_id) l).
  { clear. induction l as [|x l IH]; [done|]. rewrite filter_cons. cbn [existsb].
    destruct (Z.leb_spec x max_message_id) as [Hle|Hgt]; [by rewrite decide_True by done|by rewrite decide_False by lia]. }
  rewrite E. fold exact. by destruct ((0 <=? hint) && _).
Qed.

Lemma counted_app bound A B : counted f bound (A ++ B) = counted f bound A ++ counted f bound B.
Proof. apply filter_app. Qed.

(** C18: Reading up to a message leaves the right number of unread ones: when
    the messages from the last one that was read to the newest are linked, and
    the old number is that of the messages between that count as unread, then
    the new number is that of the messages after the one read to now, whether
    the code counts down from the old number or up from the end, and whatever
    number a hint says. *)
Theorem new_unread_count_exact (t : tree) (L : list (Z * bool)) (max_message_id last_read last_message_id hint : Z) :
  represents t L -> is_valid last_read = true -> last_read <= max_message_id ->
  let run := run_back (upto max_id L) in
  last_read ∈ run -> max_message_id ∈ run -> len (counted f last_read run) < 2 ^ 31 ->
  calc_new_unread_count f t max_message_id last_read (len (counted f last_read run)) last_message_id hint =
    Ok (len (counted f max_message_id run)).
Proof.
  intros Hrep Hval Hle run Hlr Hmx Hlen. pose proof (is_valid_ordinary _ Hval) as Hkr.
  destruct (upto_app t L max_id Hrep) as (L2 & HL). pose proof (rep_sorted _ _ Hrep) as Hs. rewrite HL, map_app in Hs.
  apply sorted_lt_app in Hs as (Hs & _ & _). destruct (upto_sorted t L max_id Hrep) as [Hgt Hord]. fold run in Hgt, Hord.
  assert (Hkm : is_scheduled max_message_id = false) by (rewrite Forall_forall in Hord; by apply Hord).
  destruct (run_back_rest _ _ Hs Hmx) as (R & E & HR & Hh).
  assert (Hup : upto max_message_id (upto max_id L) = upto max_message_id L).
  { unfold upto. rewrite list_filter_filter. apply list_filter_iff. intros e. pose proof (run_back_subset _ _ Hmx) as Hin.
    apply list_elem_of_In, in_map_iff in Hin as (e' & He' & Hin). apply list_elem_of_In, list_elem_of_filter in Hin as [Hin _]. lia. }
  rewrite Hup in *. fold run in E. set (rest := run_back (upto max_message_id L)) in *.
  assert (Hrest : Forall (fun x => x <= max_message_id) rest).
  { apply Forall_forall. intros x Hx. apply run_back_subset in Hx. apply list_elem_of_In, in_map_iff in Hx as (e & <- & He).
    apply list_elem_of_In, list_elem_of_filter in He. apply He. }
  assert (Hcm : counted f max_message_id run = counted f max_message_id R) by (by rewrite E, counted_app, (counted_none f _ rest Hrest), app_nil_r).
  assert (HcR : counted f last_read R = counted f max_message_id R).
  { clear -HR Hle. induction HR as [|x R Hx HR IH]; [done|]. rewrite !counted_cons, IH.
    destruct (f x) eqn:Ef; [rewrite !decide_True by (split; [lia|done]); done|rewrite !decide_False by naive_solver; done]. }
  assert (Hdown : calc_new_unread_count_from_last_unread f t max_message_id last_read (len (counted f last_read run)) = Ok (len (counted f max_message_id run))).
  { pose proof (len_nonneg (counted f last_read run)). rewrite (count_from_last_unread_spec t L) by (done || lia). fold rest. rewrite bool_decide_eq_true_2.
    - f_equal. rewrite Hcm, E, counted_app, len_app, HcR. rewrite int32_small; [lia|].
      pose proof (len_nonneg (counted f last_read rest)). rewrite E, counted_app, len_app, HcR in Hlen. pose proof (len_nonneg (counted f max_message_id R)). lia.
    - split; [done|]. rewrite E in Hlr. apply elem_of_app in Hlr as [Hlr|Hlr]; [|done]. rewrite Forall_forall in HR. specialize (HR _ Hlr). lia. }
  assert (Hless : len (counted f max_message_id run) < 2 ^ 31).
  { rewrite Hcm, <- HcR. rewrite E, counted_app, len_app in Hlen. pose proof (len_nonneg (counted f last_read rest)). lia. }
  assert (Hup_end : is_valid last_message_id = true ->
    calc_new_unread_count_from_the_end f t max_message_id last_message_id hint = Ok (len (counted f max_message_id run))).
  { intros Hl. rewrite (count_from_the_end_spec t L) by done. fold run. rewrite Hl. cbn [andb].
    assert (Hex : existsb (fun y => y <=? max_message_id) run = true).
    { apply existsb_exists. exists max_message_id. split; [by apply list_elem_of_In|]. apply Z.leb_le. lia. }
    rewrite Hex. destruct (0 <=? hint); cbn [andb]; [|done]. destruct (Z.eqb_spec hint (len (counted f max_message_id run))); by subst. }
  unfold calc_new_unread_count. rewrite Hval. cbn [negb].
  pose proof (len_nonneg (counted f max_message_id run)) as Hnn.
  destruct (is_valid last_message_id) eqn:Hl; cbn [negb orb].
  - destruct (_ <? _); rewrite ?Hdown, ?Hup_end, Ok_bind by done; by rewrite (proj2 (Z.leb_le _ _)).
  - rewrite Hdown, Ok_bind. by rewrite (proj2 (Z.leb_le _ _)).
Qed.
End Unread.

Definition example_chain : list (Z * bool) :=
  [(of_server 3, true); (of_server 4, false); (of_server 7, true); (of_server 9, true); (of_server 10, false)].

Lemma chain_searches_witness :
  exists t, run tree_call example_calls Leaf = Ok t /\ exists older_ids newer_ids,
    find_older_messages t (of_server 7) = Ok older_ids /\ find_newer_messages t (of_server 7) = Ok newer_ids /\
    map fst example_chain = older_ids ++ newer_ids /\ Forall (fun x => x <= of_server 7) older_ids /\ Forall (fun x => of_server 7 < x) newer_ids /\
    has_message t (of_server 7) = Ok (bool_decide (link_of (of_server 7) example_chain <> None)) /\
    (Forall (fun e => e.1 <= max_id) example_chain -> get_last_message_id t = Ok (default 0 (fst <$> last example_chain))).
Proof.
  eexists. split; [vm_compute; reflexivity|]. apply chain_searches; [by apply (run_represents example_calls); vm_compute|reflexivity].
Defined.

Lemma date_searches_witness :
  exists t, run tree_call example_calls Leaf = Ok t /\
    find_message_by_date (fun id => id / 2 ^ 20 / 2) t 3 = default 0 (last (filter (fun id => id / 2 ^ 20 / 2 <= 3) (map fst example_chain))) /\
    find_messages_by_date (fun id => id / 2 ^ 20 / 2) t 2 4 = filter (fun id => 2 <= id / 2 ^ 20 / 2 <= 4) (map fst example_chain).
Proof.
  eexists. split; [vm_compute; reflexivity|].
  apply (date_searches _ example_chain (fun id => id / 2 ^ 20 / 2) 3 2 4); [by apply (run_represents example_calls); vm_compute|by repeat constructor|].
  unfold example_chain. cbn [map fst]. repeat (constructor; [|by repeat (constructor; [vm_compute; congruence|])]). constructor.
Defined.

Lemma new_unread_count_exact_witness :
  exists t, run tree_call example_calls Leaf = Ok t /\
    let run := run_back (upto max_id example_chain) in
    calc_new_unread_count (fun _ => true) t (of_server 9) (of_server 7) (len (counted (fun _ => true) (of_server 7) run)) (of_server 10) 5 =
      Ok (len (counted (fun _ => true) (of_server 9) run)).
Proof.
  eexists. split; [vm_compute; reflexivity|].
  apply (new_unread_count_exact (fun _ => true) _ example_chain); [by apply (run_represents example_calls); vm_compute|reflexivity|by vm_compute|..].
  - apply list_elem_of_In. vm_compute. tauto.
  - apply list_elem_of_In. vm_compute. tauto.
  - by vm_compute.
Defined.
